(* ===== verification/_CoqProject ===== *)
-Q . S2P
Prelude.v
CString.v
CMem.v
Malloc.v
MallocInv.v
MallocSpec.v
Callbacks.v
Vector.v
VectorSpec.v
Mmu.v
MmuSpec.v
Scheduler.v
SchedulerSpec.v
Sync.v
SyncSpec.v
Barrier.v
Drm.v
DrmSpec.v
Minixfs.v
MinixfsSpec.v
MinixfsInv.v
Memcheck.v
MemcheckSpec.v
Hooks.v
CamelCaser.v
CamelCaserSpec.v
Sstring.v
SstringSpec.v
Sockets.v
SocketsSpec.v
Server.v
ServerSpec.v
Client.v
ClientSpec.v
Startup.v
StartupSpec.v
Reduce.v
ReduceSpec.v
MapReduce.v
DatastoreSpec.v
MapReduceSpec.v
Parmake.v
ParmakePlan.v
ParmakeSpec.v
ParmakeThm.v
Lookup.v
LookupSpec.v
Cracker.v
CrackerSpec.v
Cracker2Spec.v
Shell.v
ShellSpec.v
Rendezvous.v
Gthreads.v
GthreadsSpec.v
Dd.v
DdSpec.v
Chatroom.v
ChatroomSpec.v
Fakefs.v
FakefsSpec.v
Cp.v
Pipeline.v
PipelineSpec.v
Env.v
Pointers.v
ThreadStatus.v
Mains.v
