(* ===== verification/Prelude.v ===== *)
(** * Verification of the CS 341 system-programming repository

    The repository is a collection of C programs, one directory of [src/] each, that
    share no code at run time except where noted.  Every program is translated
    function by function into executable definitions ([X.v]) and its theorems are
    proved in a file of its own ([XSpec.v]), so a reader can go from a C function to
    the definition of the same name and from there to what is known about it.

    ** Shared foundations

    This file holds the conventions: C integers are [Z] with their wrap-around
    written out ([u64], [s32], ...); a function that can fail to return normally
    returns an [outcome] ([Done], [Abort] for a failed assertion or an [exit],
    [Undef] where the C standard leaves the behaviour undefined, [OutOfFuel] where a
    bound on iterations was too small); [let!] sequences outcomes.  [CString] has
    the functions of the C library on strings, numbers and lines, [CMem] byte
    memory with little-endian accesses.  Data under the control of the kernel or of
    a prebuilt library (the answers of [malloc], the sizes [read] transfers, graph,
    set, dictionary and queue libraries, file systems) are parameters: functions,
    schedules or classes whose laws state the documented behaviour, with a concrete
    instance wherever a theorem assumes laws.

    ** The programs

    - [malloc/alloc.c]: [Malloc] over byte memory, [MallocInv] the heap invariant
      (blocks tile the heap, boundary tags, free list, and the word below the heap that
      [free] reads) and [MallocSpec]: every operation keeps it, live blocks never overlap,
      data survives.
    - [vector/]: [Callbacks], [Vector] and [VectorSpec] (the vector refines a list
      of values; its elements, its array and itself are each freed once), [Sstring] and [SstringSpec].
    - [ideal_indirection/]: [Mmu] (TLB, segments, frames, swap, page tables) and
      [MmuSpec] (demand paging is transparent; an access goes
      through exactly when a segment permits it).
    - [savvy_scheduler/]: [Scheduler] (stable priority queue, six schemes) and
      [SchedulerSpec] (it sorts; in every orderly run the job chosen is a least one of
      those that have not finished); [Gthreads] and
      [GthreadsSpec] are the green threads on top of it (stacks, switches between a
      thread and main): no freed stack is used and main outlives every thread; alarms come
      between two calls ([alarm_in_gtgo] is one inside a call).
    - [critical_concurrency/]: [Sync] and [SyncSpec] (a monitor under every
      interleaving; blocking queue and semamore are instances), [Barrier],
      [Rendezvous].
    - [deadlock_demolition/libdrm.c]: [Drm] and [DrmSpec] (mutual exclusion holds, also
      with [drm_destroy], which changes the graph without the lock; the cycle search never
      finds a cycle).
    - [finding_filesystems/]: [Minixfs] and [MinixfsSpec] (reads against the bytes of
      a file, directory entries round-trip), [MinixfsInv] (every block has one owner
      and is marked used; a write changes its file and nothing else, or fails);
      [Fakefs] is the preloaded library that routes system calls to it, [FakefsSpec]
      shows that its paths mean what [.] and [..] say and that its descriptors refine
      a table; [Cp] is the program [cp.c] on top of it (the null descriptors behind its
      files stay open).
    - [mini_memcheck/]: [Memcheck] and [MemcheckSpec] (the header list is a ledger
      of the live allocations); [Hooks] puts the replaced [malloc] and its relatives
      and the report at the end around it.
    - [extreme_edge_cases/camelCaser.c]: [CamelCaser] and [CamelCaserSpec], over a heap of
      strings, the buffer of [remove_whitespaces_str] included.
    - [charming_chatroom/] and [nonstop_networking/]: [Sockets] and [SocketsSpec]
      are the transfer loops both use; [Server], [Client] and their specifications
      refine an abstract file store and compose the two programs; [Chatroom] and
      [ChatroomSpec] are the threads of the chat server and the client; [Startup] and
      [StartupSpec] set the sockets of all four programs up and follow the file server
      (with the descriptors of its clients) and its client from the command line to the end.
    - [teaching_threads/]: [Reduce] and [ReduceSpec] (parallel and sequential
      reduction agree for every interleaving).
    - [mapreduce/]: [MapReduce], [DatastoreSpec] (the data store refines a finite
      map) and [MapReduceSpec] (splitter, mappers and reducer count keys); [Pipeline]
      runs [main], the splitters, mappers and the reducer as processes with
      descriptors and pipes, [PipelineSpec] shows that they always end and count.
    - [parallel_make/]: [Parmake] (parser, cycle search, plan, threads);
      [ParmakePlan] the plan, [ParmakeSpec] the threads, [ParmakeThm] the program.
      To compare a goal that has been removed with its vertex is undefined.
    - [mad_mad_access_patterns/]: [Lookup] and [LookupSpec] (both lookups agree).
    - [password_cracker/]: [Cracker], [CrackerSpec] (the candidates and cracker1) and
      [Cracker2Spec] (cracker2: main and the workers at their barriers): both end with the
      right answers under every schedule; [ThreadStatus] is the table of what each
      thread waits for.
    - [shell/]: [Shell] and [ShellSpec] (history, operators, redirection, process
      table, signals, with SIGCHLD also in the middle of [delete_process]).
    - [deepfried_dd/dd.c]: [Dd] and [DdSpec]; the input is read after the output has been
      emptied, and two names can be one file.
    - [utilities_unleashed/env.c]: [Env].
    - [perilous_pointers/]: [Pointers], both programs over a memory of blocks.
    - [Mains]: smaller main programs (the arguments of parmake and of the crackers, the
      driver of [teaching_threads/], [utilities_unleashed/time.c]) and the descriptors of
      [mapreduce/core/utils.c].

    ** How the theorems are stated

    Functional theorems give the result on every branch, errors included.  Programs
    with threads are step functions or step relations in which any thread may move;
    their theorems are invariants of every reachable state, together with bounds
    on the number of steps and the absence of stuck states, so that "all threads
    have returned" is reached and not only described.  Refinement theorems relate
    the C data to an abstract state (a list, a finite map, a ledger, a store).
    Theorems whose name says [undefined], [never], [endless] or [overflows] record
    behaviour of the code that deviates from what it means to do.  Where the code is
    right only under a condition, the condition is a hypothesis that the comment of the
    theorem names, and an [Example] beside it shows a run without it
    ([reused_descriptor], [reaped_while_deleting], [finish_behind_head],
    [destroy_while_waited_for], [same_file_emptied], [mixed_password], ...).

    ** Fuel

    Loops that are not structural take fuel.  It is either computed from the data
    so that it always suffices (the transfer loops of [Sockets] get the length of
    the schedule, [split_loop] the length of the string) or a parameter with a
    theorem that some bound suffices (the walk of the free list, the search of the
    cracker, the drm's search); a loop that never ends is stated as [OutOfFuel] for
    every fuel.

    ** Not modelled

    Drivers, tests and generated data ([*_test.c], [mcontest.c], [testers/],
    [pidigits.h], [savvy_scheduler/main.c]); printing and the layout of messages, except
    where the output is the result; what the loader and the kernel do to start a program
    ([dlopen], the resolution of symbols and of addresses in [mini_hacks.c] and
    [fakefs_src/init.c], [mmap] of the disk image, the timers and the
    assembly that switches the stacks of [gthreads.c]); the windows of the chat
    ([chat_window.c]); signals that arrive between two arbitrary instructions (they come
    between two steps of a model; [gtyield] behind its [reset_sig] is such a place); [cwd_mgmt.c], which is switched off, and the calls of
    [unimplemented.c], which only fail; floating-point hashes.  Headers of prebuilt
    libraries ([includes/dictionary.h], [graph.h], [set.h], ...) only declare: what the
    programs use of them is in the classes. *)

From Stdlib Require Export ZArith Lia.
From Stdlib Require Import Ascii String.
From stdpp Require Export prelude.

#[export] Set Warnings "-notation-overridden,-clear-no-such-hyp".

(** ** Machine integers

    C integers are [Z] with the wrap-around of their width written out where
    the code computes with them.  [size_t], [uint64_t] and pointers are 64-bit
    unsigned, [addr32] is 32-bit unsigned, [int] is 32-bit two's complement,
    [ssize_t] and [off_t] are 64-bit two's complement. *)

Declare Scope cs341_scope.
Delimit Scope cs341_scope with cs.
Open Scope Z_scope.

Definition M64 : Z := 18446744073709551616.
Definition M32 : Z := 4294967296.

Definition u64 (x : Z) : Z := x `mod` 18446744073709551616.
Definition u32 (x : Z) : Z := x `mod` 4294967296.
Definition s32 (x : Z) : Z := (x + 2147483648) `mod` 4294967296 - 2147483648.
Definition s64 (x : Z) : Z :=
  (x + 9223372036854775808) `mod` 18446744073709551616 - 9223372036854775808.

Lemma u64_small x : 0 <= x < 18446744073709551616 -> u64 x = x.
Proof. intros H. unfold u64. by rewrite Z.mod_small. Qed.

Lemma u32_small x : 0 <= x < 4294967296 -> u32 x = x.
Proof. intros H. unfold u32. by rewrite Z.mod_small. Qed.

Lemma s32_small x : -2147483648 <= x < 2147483648 -> s32 x = x.
Proof. intros H. unfold s32. rewrite Z.mod_small; lia. Qed.

Lemma s64_small x : -9223372036854775808 <= x < 9223372036854775808 -> s64 x = x.
Proof. intros H. unfold s64. rewrite Z.mod_small; lia. Qed.

Lemma u64_range x : 0 <= u64 x < 18446744073709551616.
Proof. unfold u64. by apply Z.mod_pos_bound. Qed.

Lemma u32_range x : 0 <= u32 x < 4294967296.
Proof. unfold u32. by apply Z.mod_pos_bound. Qed.

(** Rewrite away the wrap-around of every in-range expression, innermost first. *)
Ltac wrap_free x :=
  lazymatch x with
  | context [u64 _] => fail
  | context [u32 _] => fail
  | context [s32 _] => fail
  | context [s64 _] => fail
  | _ => idtac
  end.

Ltac wrap_simpl :=
  repeat match goal with
    | |- context [u64 ?x] => wrap_free x; rewrite (u64_small x) by lia
    | |- context [u32 ?x] => wrap_free x; rewrite (u32_small x) by lia
    | |- context [s32 ?x] => wrap_free x; rewrite (s32_small x) by lia
    | |- context [s64 ?x] => wrap_free x; rewrite (s64_small x) by lia
    end.

(** Turn boolean comparisons of [Z] and [nat] in the context or the goal into
    propositions. *)
Ltac bool_to_prop :=
  repeat match goal with
    | H : (_ =? _) = true |- _ => apply Z.eqb_eq in H
    | H : (_ =? _) = false |- _ => apply Z.eqb_neq in H
    | H : (_ <? _) = true |- _ => apply Z.ltb_lt in H
    | H : (_ <? _) = false |- _ => apply Z.ltb_ge in H
    | H : (_ <=? _) = true |- _ => apply Z.leb_le in H
    | H : (_ <=? _) = false |- _ => apply Z.leb_gt in H
    | H : andb _ _ = true |- _ => apply andb_true_iff in H as [? ?]
    | H : orb _ _ = false |- _ => apply orb_false_iff in H as [? ?]
    | H : negb _ = true |- _ => apply negb_true_iff in H
    | H : negb _ = false |- _ => apply negb_false_iff in H
    end.

(** Split on the first boolean test of the goal and close arithmetic cases. *)
Ltac case_bool :=
  match goal with
  | |- context [if ?b then _ else _] =>
      let E := fresh "E" in destruct b eqn:E; bool_to_prop
  end.

Lemma in_range i n : 0 <= i < n -> (0 <=? i) && (i <? n) = true.
Proof. intros. apply andb_true_iff. lia. Qed.

(** ** Outcomes of C code

    [Done x] is a normal return; [Abort] a failed [assert] (or [abort]/[exit]);
    [Undef] an access the C standard leaves undefined (null or dangling
    dereference, out-of-bounds array access); [OutOfFuel] marks a fuel bound
    that was too small, and is excluded by the termination theorems. *)

Inductive outcome (A : Type) : Type :=
| Done (a : A)
| Abort
| Undef
| OutOfFuel.
Arguments Done {A} a.
Arguments Abort {A}.
Arguments Undef {A}.
Arguments OutOfFuel {A}.

Definition obind {A B} (m : outcome A) (k : A -> outcome B) : outcome B :=
  match m with
  | Done a => k a
  | Abort => Abort
  | Undef => Undef
  | OutOfFuel => OutOfFuel
  end.

Notation "'let!' x ':=' m 'in' k" := (obind m (fun x => k))
  (at level 10, x pattern, m at level 200, k at level 200)
  : cs341_scope.
Open Scope cs341_scope.

(** C's [assert]. *)
Definition c_assert (b : bool) : outcome unit := if b then Done tt else Abort.

(** A dereference that is defined only when the location exists. *)
Definition deref {A} (o : option A) : outcome A :=
  match o with Some a => Done a | None => Undef end.

Lemma obind_Done {A B} (m : outcome A) (k : A -> outcome B) b :
  obind m k = Done b <-> exists a, m = Done a /\ k a = Done b.
Proof.
  destruct m; simpl; split; intros H; try done; try (by destruct H as (?&?&?)).
  - eauto.
  - by destruct H as (?&[= <-]&?).
Qed.

Ltac inv_done :=
  repeat match goal with
    | H : obind ?m ?k = Done _ |- _ =>
        let a := fresh "r" in let E := fresh "Er" in
        apply obind_Done in H as (a & E & H)
    | H : Done _ = Done _ |- _ => injection H as H
    | H : c_assert _ = Done _ |- _ =>
        unfold c_assert in H; case_match; try discriminate
    end.

(** ** C strings

    A buffer is the list of its bytes, of the object's size. *)

(** The bytes of the C string starting an object, terminator included; [None]
    when there is no terminator. *)
Fixpoint cstr_of (bs : list Z) : option (list Z) :=
  match bs with
  | [] => None
  | c :: bs => if c =? 0 then Some [0] else option_map (cons c) (cstr_of bs)
  end.

(** The bytes of a literal, without terminator. *)
Definition bytes_of_string (s : String.string) : list Z :=
  map (fun c => Z.of_N (Ascii.N_of_ascii c)) (String.list_ascii_of_string s).

(** ** Counting the elements that satisfy a predicate *)

Lemma filter_length_le {A} (P Q : A -> Prop) `{!forall a, Decision (P a)} `{!forall a, Decision (Q a)} l :
  (forall a, P a -> Q a) -> (length (filter P l) <= length (filter Q l))%nat.
Proof.
  intros HPQ. induction l as [|a l IH]; [done|]. rewrite !filter_cons.
  destruct (decide (P a)), (decide (Q a)); cbn; try lia. by destruct n; apply HPQ.
Qed.

Lemma filter_length_lt {A} (P Q : A -> Prop) `{!forall a, Decision (P a)} `{!forall a, Decision (Q a)} l a :
  (forall a, P a -> Q a) -> a ∈ l -> Q a -> ~ P a -> (length (filter P l) < length (filter Q l))%nat.
Proof.
  intros HPQ Ha HQ HP. apply list_elem_of_split in Ha as (l1 & l2 & ->). rewrite !filter_app, !filter_cons, !length_app.
  rewrite decide_False, decide_True by done. cbn. pose proof (filter_length_le P Q l1 HPQ). pose proof (filter_length_le P Q l2 HPQ). lia.
Qed.

(** ** Replacing an element *)

Lemma insert_split {A} (l : list A) i a :
  l !! i = Some a -> exists l1 l2, l = l1 ++ a :: l2 /\ i = length l1 /\ forall b, <[i := b]> l = l1 ++ b :: l2.
Proof.
  intros H. apply list_elem_of_split_length in H as (l1 & l2 & -> & ->). exists l1, l2. split; [done|]. split; [done|].
  intros b. by rewrite insert_app_r_alt, Nat.sub_diag by done.
Qed.

Lemma sum_insert {A} (f : A -> nat) (l : list A) i a b : l !! i = Some a -> (sum_list_with f (<[i := b]> l) + f a = sum_list_with f l + f b)%nat.
Proof. intros H. apply insert_split in H as (l1 & l2 & -> & _ & ->). rewrite !sum_list_with_app. cbn. lia. Qed.
