(* ===== verification/CString.v ===== *)
(** * Strings and numbers of the C library

    The functions of [string.h], [stdlib.h], [ctype.h] and [stdio.h] the program
    uses, on strings given as the list of their characters (0 to 255) without
    terminator, in the C locale. *)

From stdpp Require Import sorting.
From S2P Require Import Prelude.
Open Scope Z_scope.

(** ** Searching *)

(** Index of the first occurrence of [t] in the string [s]. *)
Fixpoint strstr (s t : list Z) : option nat :=
  if decide (t = take (length t) s) then Some 0%nat
  else match s with
       | [] => None
       | _ :: s => option_map S (strstr s t)
       end.

(** The string at the start of an object. *)
Fixpoint until_zero (bs : list Z) : list Z :=
  match bs with
  | [] => []
  | c :: bs => if c =? 0 then [] else c :: until_zero bs
  end.

(** [strtok(s, delim)] repeatedly, for one delimiter: the non-empty parts. *)
Fixpoint strtok (delim : Z) (s cur : list Z) : list (list Z) :=
  match s with
  | [] => if decide (cur = []) then [] else [rev cur]
  | c :: s =>
      if c =? delim then (if decide (cur = []) then strtok delim s [] else rev cur :: strtok delim s [])
      else strtok delim s (c :: cur)
  end.

(** ** Comparing: the sign of [strcmp] *)

Fixpoint strcmp (a b : list Z) : Z :=
  match a, b with
  | [], [] => 0
  | [], _ :: _ => -1
  | _ :: _, [] => 1
  | x :: a, y :: b => if x <? y then -1 else if y <? x then 1 else strcmp a b
  end.

Definition str_lt (a b : list Z) : Prop := strcmp a b = -1.

(** ** Characters *)

Definition isalpha (c : Z) : bool := ((65 <=? c) && (c <=? 90)) || ((97 <=? c) && (c <=? 122)).
Definition tolower (c : Z) : Z := if (65 <=? c) && (c <=? 90) then c + 32 else c.
Definition isdigit (c : Z) : bool := (48 <=? c) && (c <=? 57).
Definition isspace (c : Z) : bool := (c =? 32) || ((9 <=? c) && (c <=? 13)).

(** ** Numbers *)

Fixpoint decimal_digits (fuel : nat) (x : Z) : list Z :=
  match fuel with
  | O => []
  | S fuel => (if x <? 10 then [] else decimal_digits fuel (x / 10)) ++ [48 + x `mod` 10]
  end.

(** [printf("%zd")]. *)
Definition decimal (x : Z) : list Z := if x <? 0 then 45 :: decimal_digits 20 (- x) else decimal_digits 20 x.

Fixpoint skip_space (s : list Z) : list Z :=
  match s with
  | c :: r => if isspace c then skip_space r else s
  | [] => []
  end.

Fixpoint digits_value (s : list Z) (acc : Z) : Z :=
  match s with
  | c :: s => if isdigit c then digits_value s (10 * acc + (c - 48)) else acc
  | [] => acc
  end.

(** The number a string starts with, after white space and a sign. *)
Definition number (s : list Z) : Z :=
  match skip_space s with
  | c :: r => if c =? 45 then - digits_value r 0 else if c =? 43 then digits_value r 0 else digits_value (c :: r) 0
  | [] => 0
  end.

(** Undefined when the value is not an [int]. *)
Definition atoi (s : list Z) : outcome Z :=
  if (-2147483648 <=? number s) && (number s <? 2147483648) then Done (number s) else Undef.

(** ** Lines: the successive results of [getline] until the end of the input *)

Fixpoint getlines (input : list Z) : list (list Z) :=
  match input with
  | [] => []
  | c :: rest =>
      if c =? 10 then [10] :: getlines rest
      else match getlines rest with
           | [] => [[c]]
           | l :: ls => (c :: l) :: ls
           end
  end.

(** A line without its newline, and without a carriage return before that. *)
Definition chomp (line : list Z) : list Z :=
  match rev line with
  | 10 :: 13 :: r => rev r
  | 10 :: r => rev r
  | _ => line
  end.

(** A line without its newline. *)
Definition without_newline (line : list Z) : list Z :=
  match rev line with
  | c :: l => if c =? 10 then rev l else line
  | [] => line
  end.

(** * Lemmas *)

(** [t] occurs in [s] at position [k]. *)
Definition occurs (s t : list Z) (k : nat) : Prop := take (length t) (drop k s) = t.

Lemma strstr_some s t k :
  strstr s t = Some k -> (k <= length s)%nat /\ occurs s t k /\ forall j, (j < k)%nat -> ~ occurs s t j.
Proof.
  unfold occurs. revert k. induction s as [|c s IH]; intros k; cbn [strstr].
  - destruct (decide _) as [Heq|]; [|done]. intros [= <-]. split; [lia|]. split; [done|]. intros; lia.
  - destruct (decide _) as [Heq|Hne]; [intros [= <-]; split; [lia|]; split; [done|]; intros; lia|].
    destruct (strstr s t) as [k'|]; [|done]. intros [= <-]. destruct (IH k' eq_refl) as (Hk & Ho & Hj).
    split; [cbn; lia|]. split; [done|]. intros [|j] Hlt; [by intros Heq; apply Hne|]. apply Hj. lia.
Qed.

Lemma strstr_none s t : strstr s t = None -> forall k, (k <= length s)%nat -> ~ occurs s t k.
Proof.
  unfold occurs. induction s as [|c s IH]; cbn [strstr]; intros Hn k Hk.
  - destruct (decide _) as [|Hne]; [done|]. destruct k; [|cbn in Hk; lia]. by intros Heq; apply Hne.
  - destruct (decide _) as [|Hne]; [done|]. destruct (strstr s t); [done|].
    destruct k as [|k]; [by intros Heq; apply Hne|]. apply IH; [done|]. cbn in Hk. lia.
Qed.

Lemma strstr_first s t k :
  (k <= length s)%nat -> occurs s t k -> (forall j, (j < k)%nat -> ~ occurs s t j) -> strstr s t = Some k.
Proof.
  intros Hk Ho Hj. destruct (strstr s t) as [i|] eqn:E.
  - apply strstr_some in E as (Hi & Hoi & Hji). f_equal.
    destruct (decide (i < k)%nat); [by destruct (Hj i)|]. destruct (decide (k < i)%nat); [by destruct (Hji k)|]. lia.
  - by destruct (strstr_none _ _ E k).
Qed.

Lemma until_zero_app s junk : 0 ∉ s -> until_zero (s ++ 0 :: junk) = s.
Proof.
  induction s as [|c s IH]; intros Hs; cbn; [done|]. apply not_elem_of_cons in Hs as [Hc Hs].
  rewrite (proj2 (Z.eqb_neq _ _)) by done. by rewrite IH.
Qed.

Lemma until_zero_id s : 0 ∉ s -> until_zero s = s.
Proof.
  induction s as [|c s IH]; intros Hs; cbn; [done|]. apply not_elem_of_cons in Hs as [Hc Hs].
  rewrite (proj2 (Z.eqb_neq _ _)) by done. by rewrite IH.
Qed.

(** ** [strcmp] is a strict total order *)

Lemma strcmp_refl a : strcmp a a = 0.
Proof. induction a as [|x a IH]; cbn; [done|]. by rewrite Z.ltb_irrefl. Qed.

Lemma strcmp_cases a b : strcmp a b = -1 \/ strcmp a b = 0 \/ strcmp a b = 1.
Proof.
  revert b. induction a as [|x a IH]; intros [|y b]; cbn; try (by auto). do 2 (case_bool; [by auto|]). apply IH.
Qed.

Lemma strcmp_zero a b : strcmp a b = 0 <-> a = b.
Proof.
  split; [|intros ->; apply strcmp_refl]. revert b.
  induction a as [|x a IH]; intros [|y b]; cbn; try done. repeat case_bool; try done.
  intros H. f_equal; [lia|by apply IH].
Qed.

Lemma strcmp_opp a b : strcmp b a = - strcmp a b.
Proof.
  revert b. induction a as [|x a IH]; intros [|y b]; cbn; try done. repeat case_bool; try done; lia.
Qed.

#[export] Instance str_lt_trans : Transitive str_lt.
Proof.
  unfold str_lt. intros a. induction a as [|x a IH]; intros [|y b] [|z c]; cbn; try done.
  repeat case_bool; try done; try lia. apply IH.
Qed.

#[export] Instance str_lt_irrefl : Irreflexive str_lt.
Proof. intros a H. unfold str_lt in H. by rewrite strcmp_refl in H. Qed.

Lemma str_lt_total a b : str_lt a b \/ a = b \/ str_lt b a.
Proof.
  unfold str_lt. destruct (strcmp_cases a b) as [H|[H|H]]; [by left|right; left; by apply strcmp_zero|].
  right; right. rewrite strcmp_opp, H. done.
Qed.

(** ** Numbers *)

Lemma isdigit_range c : isdigit c = true <-> 48 <= c <= 57.
Proof. unfold isdigit. rewrite andb_true_iff. lia. Qed.

Lemma decimal_digits_digit fuel x : 0 <= x -> Forall (fun c => isdigit c = true) (decimal_digits fuel x).
Proof.
  revert x. induction fuel as [|fuel IH]; intros x Hx; cbn [decimal_digits]; [done|]. apply Forall_app. split.
  - destruct (x <? 10); [done|]. apply IH. by apply Z.div_pos.
  - apply Forall_singleton, isdigit_range. pose proof (Z.mod_pos_bound x 10). lia.
Qed.

Lemma decimal_digits_cons fuel x : 0 <= x -> exists c r, decimal_digits (S fuel) x = c :: r /\ isdigit c = true.
Proof.
  intros Hx. pose proof (decimal_digits_digit (S fuel) x Hx) as Hd.
  destruct (decimal_digits (S fuel) x) as [|c r] eqn:E; [|apply Forall_cons in Hd as [Hc _]; by exists c, r].
  cbn [decimal_digits] in E. by apply app_eq_nil in E as [_ E].
Qed.

Lemma digits_value_app l r acc :
  Forall (fun c => isdigit c = true) l -> digits_value (l ++ r) acc = digits_value r (digits_value l acc).
Proof. intros Hl. revert acc. induction Hl as [|c l Hc _ IH]; intros acc; cbn [app digits_value]; [done|]. by rewrite Hc. Qed.

Lemma digits_value_decimal fuel x : 0 <= x < 10 ^ Z.of_nat fuel -> digits_value (decimal_digits fuel x) 0 = x.
Proof.
  revert x. induction fuel as [|fuel IH]; intros x Hx; [cbn in *; lia|]. cbn [decimal_digits].
  assert (Hd : isdigit (48 + x `mod` 10) = true) by (apply isdigit_range; pose proof (Z.mod_pos_bound x 10); lia).
  rewrite Nat2Z.inj_succ, Z.pow_succ_r in Hx by lia. destruct (Z.ltb_spec x 10).
  - cbn [app digits_value]. rewrite Hd, Z.mod_small; lia.
  - rewrite digits_value_app by (apply decimal_digits_digit, Z.div_pos; lia). cbn [digits_value]. rewrite Hd.
    rewrite IH by (split; [apply Z.div_pos; lia|apply Z.div_lt_upper_bound; lia]). pose proof (Z.div_mod x 10). lia.
Qed.

Lemma number_digits s : Forall (fun c => isdigit c = true) s -> number s = digits_value s 0.
Proof.
  intros Hs. destruct s as [|c r]; [done|]. apply Forall_cons in Hs as [Hc _]. pose proof Hc as Hr%isdigit_range.
  unfold number. cbn [skip_space]. assert (isspace c = false) as -> by (unfold isspace; lia).
  by rewrite (proj2 (Z.eqb_neq c 45)), (proj2 (Z.eqb_neq c 43)) by lia.
Qed.

(** Reading a printed number gives it back. *)
Lemma atoi_decimal x : 0 <= x < 2147483648 -> atoi (decimal x) = Done x.
Proof.
  intros Hx. unfold atoi, decimal. rewrite (proj2 (Z.ltb_ge x 0)) by lia.
  rewrite number_digits by (apply decimal_digits_digit; lia). rewrite digits_value_decimal by (change (10 ^ Z.of_nat 20) with 100000000000000000000; lia).
  by rewrite (proj2 (Z.leb_le _ _)), (proj2 (Z.ltb_lt _ _)) by lia.
Qed.

Lemma decimal_digit x c : 0 <= x -> c ∈ decimal x -> 48 <= c <= 57.
Proof.
  intros Hx. unfold decimal. rewrite (proj2 (Z.ltb_ge x 0)) by lia. intros Hc. apply isdigit_range.
  pose proof (decimal_digits_digit 20 x Hx) as Hd. rewrite Forall_forall in Hd. by apply Hd.
Qed.

(** ** Lines *)

Lemma concat_getlines s : concat (getlines s) = s.
Proof.
  induction s as [|c s IH]; cbn; [done|]. case_bool; cbn; [by rewrite IH, E|].
  destruct (getlines s) as [|l ls]; cbn in *; by rewrite <- IH.
Qed.

Lemma getlines_nil s : getlines s = [] -> s = [].
Proof. intros H. by rewrite <- (concat_getlines s), H. Qed.

(** A part that ends a line keeps its lines. *)
Lemma getlines_app a b : (a = [] \/ last a = Some 10 \/ b = []) -> getlines (a ++ b) = getlines a ++ getlines b.
Proof.
  induction a as [|c a IH]; intros H; [done|]. cbn. case_bool.
  - rewrite IH; [done|]. destruct H as [H|[H| ->]]; [done| |by auto]. destruct a; [by left|right; left; exact H].
  - destruct a as [|d a].
    + destruct H as [H|[H| ->]]; [done| |done]. injection H as ->. done.
    + rewrite IH by (destruct H as [H|[H| ->]]; [done|right; left; exact H|auto]).
      destruct (getlines (d :: a)) eqn:El; [by apply getlines_nil in El|done].
Qed.

Lemma getlines_line l : 10 ∉ l -> getlines (l ++ [10]) = [l ++ [10]].
Proof.
  induction l as [|c l IH]; intros Hl; [done|]. apply not_elem_of_cons in Hl as [Hc Hl]. cbn.
  rewrite (proj2 (Z.eqb_neq c 10)) by done. by rewrite IH.
Qed.

Lemma getlines_concat ls : Forall (fun l => 10 ∉ l) ls -> getlines (concat (map (fun l => l ++ [10]) ls)) = map (fun l => l ++ [10]) ls.
Proof.
  induction 1 as [|l ls Hl _ IH]; [done|]. cbn [map concat]. rewrite getlines_app.
  - by rewrite getlines_line, IH.
  - right; left. by rewrite last_snoc.
Qed.
