(* ===== verification/CMem.v ===== *)
(** * Byte-addressed memory

    Memory is a total function from addresses to bytes, as the C program sees
    it: reading an address nobody wrote gives an unspecified byte (the value of
    the function there), never an error.  [ld64]/[st64] are the little-endian
    8-byte accesses of [size_t] and pointer fields, [st8] the access of a [char]
    field, [memset] and [memcpy] the block operations of the C library. *)

From S2P Require Import Prelude.

Definition memory : Type := Z -> Z.

Definition st8 (m : memory) (a v : Z) : memory :=
  fun x => if x =? a then v `mod` 256 else m x.

Fixpoint ld_le (m : memory) (a : Z) (n : nat) : Z :=
  match n with
  | O => 0
  | S n' => m a + 256 * ld_le m (a + 1) n'
  end.

Definition ld64 (m : memory) (a : Z) : Z := ld_le m a 8.

Definition st64 (m : memory) (a v : Z) : memory :=
  fun x => if (a <=? x) && (x <? a + 8) then (v / 256 ^ (x - a)) `mod` 256 else m x.

Definition memset (m : memory) (a v n : Z) : memory :=
  fun x => if (a <=? x) && (x <? a + n) then v `mod` 256 else m x.

Definition memcpy (m : memory) (dst src n : Z) : memory :=
  fun x => if (dst <=? x) && (x <? dst + n) then m (src + (x - dst)) else m x.

Definition ld32 (m : memory) (a : Z) : Z := ld_le m a 4.

Definition st32 (m : memory) (a v : Z) : memory :=
  fun x => if (a <=? x) && (x <? a + 4) then (v / 256 ^ (x - a)) `mod` 256 else m x.

(** Copies between memory and a buffer. *)
Fixpoint mread (m : memory) (a : Z) (n : nat) : list Z :=
  match n with
  | O => []
  | S n => m a :: mread m (a + 1) n
  end.

Definition mwrite (m : memory) (a : Z) (bs : list Z) : memory :=
  fun x => if (a <=? x) && (x <? a + Z.of_nat (length bs)) then nth (Z.to_nat (x - a)) bs 0 else m x.

(** ** Equations *)

Lemma st8_eq m a v : 0 <= v < 256 -> st8 m a v a = v.
Proof. intros. unfold st8. rewrite Z.eqb_refl. by apply Z.mod_small. Qed.

Lemma st8_ne m a v x : x <> a -> st8 m a v x = m x.
Proof. intros. unfold st8. case_bool; [done | done]. Qed.

Lemma st64_ne m a v x : x < a \/ a + 8 <= x -> st64 m a v x = m x.
Proof. intros. unfold st64. case_bool; [lia | done]. Qed.

Lemma memset_ne m a v n x : x < a \/ a + n <= x -> memset m a v n x = m x.
Proof. intros. unfold memset. case_bool; [lia | done]. Qed.

Lemma memset_in m a v n x : a <= x < a + n -> memset m a v n x = v `mod` 256.
Proof. intros. unfold memset. rewrite (proj2 (andb_true_iff _ _)); [done | lia]. Qed.

Lemma memcpy_ne m d s n x : x < d \/ d + n <= x -> memcpy m d s n x = m x.
Proof. intros. unfold memcpy. case_bool; [lia | done]. Qed.

Lemma memcpy_in m d s n i : 0 <= i < n -> memcpy m d s n (d + i) = m (s + i).
Proof.
  intros. unfold memcpy. rewrite (proj2 (andb_true_iff _ _)); [| lia].
  f_equal; lia.
Qed.

Lemma ld_le_ext m m' a n :
  (forall x, a <= x < a + Z.of_nat n -> m x = m' x) -> ld_le m a n = ld_le m' a n.
Proof.
  revert a. induction n as [|n IH]; intros a H; simpl; [done|].
  rewrite H by lia. f_equal. f_equal. apply IH. intros. apply H. lia.
Qed.

Lemma ld64_ext m m' a :
  (forall x, a <= x < a + 8 -> m x = m' x) -> ld64 m a = ld64 m' a.
Proof. intros H. apply ld_le_ext. simpl. intros. apply H. lia. Qed.

Lemma ld_le_digits v a (m : memory) n k :
  (forall i, 0 <= i < Z.of_nat n -> m (a + i) = (v / 256 ^ (k + i)) `mod` 256) ->
  0 <= k ->
  ld_le m a n = (v / 256 ^ k) `mod` (256 ^ Z.of_nat n).
Proof.
  revert a k. induction n as [|n IH]; intros a k H Hk; simpl ld_le.
  - by rewrite Z.mod_1_r.
  - rewrite (IH (a + 1) (k + 1)); [| | lia].
    + pose proof (H 0 ltac:(lia)) as H0. rewrite !Z.add_0_r in H0. rewrite H0.
      rewrite Nat2Z.inj_succ, Z.pow_succ_r by lia.
      rewrite Z.rem_mul_r by lia.
      f_equal. f_equal. f_equal.
      rewrite Z.pow_add_r, Z.div_div by lia. done.
    + intros i Hi. replace (k + 1 + i) with (k + (i + 1)) by lia.
      rewrite <- H by lia. f_equal. lia.
Qed.

Lemma ld64_st64 m a v : 0 <= v < 18446744073709551616 -> ld64 (st64 m a v) a = v.
Proof.
  intros Hv. unfold ld64. rewrite (ld_le_digits v a _ 8 0); [| | lia].
  - rewrite Z.pow_0_r, Z.div_1_r. apply Z.mod_small. exact Hv.
  - intros i Hi. unfold st64. rewrite (proj2 (andb_true_iff _ _)); [| lia].
    f_equal. f_equal. f_equal. lia.
Qed.

Lemma ld64_st64_ne m a v b : b + 8 <= a \/ a + 8 <= b -> ld64 (st64 m a v) b = ld64 m b.
Proof. intros H. apply ld64_ext. intros. apply st64_ne. lia. Qed.

Lemma ld64_st8_ne m a v b : a < b \/ b + 8 <= a -> ld64 (st8 m a v) b = ld64 m b.
Proof. intros H. apply ld64_ext. intros. apply st8_ne. lia. Qed.

Lemma st32_ne m a v x : x < a \/ a + 4 <= x -> st32 m a v x = m x.
Proof. intros. unfold st32. case_bool; [lia | done]. Qed.

Lemma ld32_ext m m' a :
  (forall x, a <= x < a + 4 -> m x = m' x) -> ld32 m a = ld32 m' a.
Proof. intros H. apply ld_le_ext. simpl. intros. apply H. lia. Qed.

Lemma ld32_st32 m a v : 0 <= v < 4294967296 -> ld32 (st32 m a v) a = v.
Proof.
  intros Hv. unfold ld32. rewrite (ld_le_digits v a _ 4 0); [| | lia].
  - rewrite Z.pow_0_r, Z.div_1_r. apply Z.mod_small. exact Hv.
  - intros i Hi. unfold st32. rewrite (proj2 (andb_true_iff _ _)); [| lia].
    f_equal. f_equal. f_equal. lia.
Qed.

Lemma ld32_st32_ne m a v b : b + 4 <= a \/ a + 4 <= b -> ld32 (st32 m a v) b = ld32 m b.
Proof. intros H. apply ld32_ext. intros. apply st32_ne. lia. Qed.

Lemma ld_le_zero m a n : (forall x, a <= x < a + Z.of_nat n -> m x = 0) -> ld_le m a n = 0.
Proof.
  revert a. induction n as [|n IH]; intros a H; simpl; [done|].
  rewrite H by lia. rewrite IH; [done|]. intros. apply H. lia.
Qed.

Lemma length_mread m a n : length (mread m a n) = n.
Proof. revert a. induction n as [|n IH]; intros a; cbn; [done|]. by rewrite IH. Qed.

Lemma mread_lookup m a n i : (i < n)%nat -> mread m a n !! i = Some (m (a + Z.of_nat i)).
Proof.
  revert a i. induction n as [|n IH]; intros a [|i] H; cbn [mread]; try lia; cbn [lookup list_lookup].
  - f_equal. f_equal. lia.
  - rewrite IH by lia. f_equal. f_equal. lia.
Qed.

Lemma mread_ext m m' a n :
  (forall x, a <= x < a + Z.of_nat n -> m x = m' x) -> mread m a n = mread m' a n.
Proof.
  revert a. induction n as [|n IH]; intros a H; cbn; [done|].
  f_equal; [apply H; lia|]. apply IH. intros. apply H. lia.
Qed.

Lemma mwrite_ne m a bs x : x < a \/ a + Z.of_nat (length bs) <= x -> mwrite m a bs x = m x.
Proof. intros. unfold mwrite. case_bool; [lia | done]. Qed.

Lemma mwrite_in m a bs i v : bs !! i = Some v -> mwrite m a bs (a + Z.of_nat i) = v.
Proof.
  intros H. pose proof (lookup_lt_Some _ _ _ H). unfold mwrite.
  rewrite (proj2 (andb_true_iff _ _)); [|lia].
  replace (Z.to_nat (a + Z.of_nat i - a)) with i by lia. by apply nth_lookup_Some.
Qed.

Lemma mread_mwrite m a bs : mread (mwrite m a bs) a (length bs) = bs.
Proof.
  apply list_eq. intros i. destruct (decide (i < length bs)%nat) as [Hi|Hi].
  - destruct (lookup_lt_is_Some_2 bs i Hi) as [v Hv].
    rewrite mread_lookup, Hv by done. by rewrite (mwrite_in _ _ _ _ _ Hv).
  - rewrite !lookup_ge_None_2; [done|lia|rewrite length_mread; lia].
Qed.

Lemma mread_mwrite_ne m a bs b n :
  b + Z.of_nat n <= a \/ a + Z.of_nat (length bs) <= b -> mread (mwrite m a bs) b n = mread m b n.
Proof. intros H. apply mread_ext. intros x Hx. apply mwrite_ne. lia. Qed.

(** Rewriting of loads through stores; side conditions by [lia]. *)
Ltac mem_simpl :=
  repeat first
    [ rewrite ld64_st64 by lia
    | rewrite ld64_st64_ne by lia
    | rewrite ld64_st8_ne by lia
    | rewrite st8_eq by lia
    | rewrite st8_ne by lia
    | rewrite st64_ne by lia ].

(** [agree_out P m m']: the two memories agree on every address outside [P]. *)
Definition agree_out (P : Z -> Prop) (m m' : memory) : Prop :=
  forall x, ~ P x -> m' x = m x.

Lemma agree_out_trans (P Q : Z -> Prop) m1 m2 m3 :
  agree_out P m1 m2 -> agree_out Q m2 m3 -> agree_out (fun x => P x \/ Q x) m1 m3.
Proof. intros H1 H2 x Hx. rewrite H2, H1; naive_solver. Qed.

Lemma agree_out_weaken (P Q : Z -> Prop) m m' :
  (forall x, P x -> Q x) -> agree_out P m m' -> agree_out Q m m'.
Proof. intros HPQ H x Hx. apply H. naive_solver. Qed.

Lemma agree_out_ld64 (P : Z -> Prop) m m' a :
  agree_out P m m' -> (forall x, a <= x < a + 8 -> ~ P x) -> ld64 m' a = ld64 m a.
Proof. intros H Hx. apply ld64_ext. intros x Hb. apply H. by apply Hx. Qed.

#[global] Arguments ld64 : simpl never.
#[global] Arguments st64 : simpl never.
#[global] Arguments st8 : simpl never.
#[global] Arguments memset : simpl never.
#[global] Arguments memcpy : simpl never.
#[global] Arguments ld32 : simpl never.
#[global] Arguments st32 : simpl never.
#[global] Arguments mread : simpl never.
#[global] Arguments mwrite : simpl never.
