(* ===== verification/Malloc.v ===== *)
(** * The boundary-tag allocator of [malloc/alloc.c]

    State: the process memory, the program break and the three globals
    [head_free], [tail_mem] and [start_mem].  A block is laid out as the code
    lays it out: a 32-byte [node_t] header ([size] at offset 0, [is_free] at 8,
    [prev_free] at 16, [next_free] at 24), [size] payload bytes, and an 8-byte
    boundary tag repeating [size].  The functions below follow [alloc.c] one by
    one; [sbrk] is a parameter (the kernel's answer to a request to move the
    break).  [get_prev_mem] of the first block reads the word below the heap, which
    belongs to the process and not to the allocator; that it can be read and does not
    point behind the start is a part of the invariant ([c_low]) and a hypothesis of the
    theorem on clients.  MallocInv.v states the heap invariant and its preservation. *)

From S2P Require Import Prelude CMem.

Record heap := Heap {
  mem : memory;
  head_free : Z;
  tail_mem : Z;
  start_mem : Z;
  brk : Z;
}.

Definition set_mem (h : heap) (m : memory) : heap :=
  Heap m (head_free h) (tail_mem h) (start_mem h) (brk h).
Definition set_head_free (h : heap) (p : Z) : heap :=
  Heap (mem h) p (tail_mem h) (start_mem h) (brk h).
Definition set_tail_mem (h : heap) (p : Z) : heap :=
  Heap (mem h) (head_free h) p (start_mem h) (brk h).
Definition set_start_mem (h : heap) (p : Z) : heap :=
  Heap (mem h) (head_free h) (tail_mem h) p (brk h).
Definition set_brk (h : heap) (b : Z) : heap :=
  Heap (mem h) (head_free h) (tail_mem h) (start_mem h) b.

Definition node_size : Z := 32.
Definition btag_size : Z := 8.
Definition meta_btag_size : Z := 40.
Definition SPLIT_TRESHOLD : Z := 65536.

(** [struct node] fields. *)
Definition n_size (h : heap) (p : Z) : Z := ld64 (mem h) p.
Definition n_is_free (h : heap) (p : Z) : Z := mem h (p + 8).
Definition n_prev (h : heap) (p : Z) : Z := ld64 (mem h) (p + 16).
Definition n_next (h : heap) (p : Z) : Z := ld64 (mem h) (p + 24).

Definition set_size (h : heap) (p v : Z) : heap := set_mem h (st64 (mem h) p v).
Definition set_is_free (h : heap) (p v : Z) : heap := set_mem h (st8 (mem h) (p + 8) v).
Definition set_prev (h : heap) (p v : Z) : heap := set_mem h (st64 (mem h) (p + 16) v).
Definition set_next (h : heap) (p v : Z) : heap := set_mem h (st64 (mem h) (p + 24) v).

(** [struct btag] has the one field [size] at offset 0. *)
Definition b_size (h : heap) (t : Z) : Z := ld64 (mem h) t.
Definition set_btag (h : heap) (t v : Z) : heap := set_mem h (st64 (mem h) t v).

Definition get_node_btag (h : heap) (node : Z) : Z := u64 (node + node_size + n_size h node).

Definition update_node_size (h : heap) (new_node_start new_btag new_size : Z) : heap :=
  let h := set_size h new_node_start (u64 (n_size h new_node_start + new_size)) in
  set_btag h new_btag (n_size h new_node_start).

(** Returns 0 for [NULL]. *)
Definition get_next_mem (h : heap) (node : Z) : Z :=
  let cand := u64 (node + meta_btag_size + n_size h node) in
  if tail_mem h <? cand then 0 else cand.

Definition get_prev_mem (h : heap) (node : Z) : Z :=
  let start_btag_prev := u64 (node - btag_size) in
  let data_prev := u64 (start_btag_prev - b_size h start_btag_prev) in
  let prev_mem := u64 (data_prev - node_size) in
  if prev_mem <? start_mem h then 0 else prev_mem.

Definition insert_free (h : heap) (node : Z) : heap :=
  if head_free h =? 0 then
    let h := set_next h node 0 in
    let h := set_prev h node 0 in
    set_head_free h node
  else
    let h := set_next h node (head_free h) in
    let h := set_prev h node 0 in
    let h := set_prev h (head_free h) node in
    set_head_free h node.

Definition remove_free (h : heap) (node : Z) : heap :=
  if node =? head_free h then set_head_free h (n_next h (head_free h))
  else
    let prev_free := n_prev h node in
    let next_free := n_next h node in
    let h := if prev_free =? 0 then h else set_next h prev_free next_free in
    let h := if next_free =? 0 then h else set_prev h next_free prev_free in
    let h := set_next h node 0 in
    set_prev h node 0.

Definition coalesce_three_blocks (h : heap) (node prev_node next_node : Z) : heap :=
  let h := remove_free h next_node in
  let next_next_node := get_next_mem h next_node in
  let h := if next_next_node =? 0 then set_tail_mem h prev_node else h in
  let next_node_btag := get_node_btag h next_node in
  let new_size := u64 (2 * meta_btag_size + n_size h node + n_size h next_node) in
  update_node_size h prev_node next_node_btag new_size.

Definition coalesce_two_blocks_before (h : heap) (node prev_node next_node : Z) : heap :=
  let h := if next_node =? 0 then set_tail_mem h prev_node else h in
  let node_btag := get_node_btag h node in
  let new_size := u64 (meta_btag_size + n_size h node) in
  update_node_size h prev_node node_btag new_size.

Definition coalesce_two_blocks_after (h : heap) (node next_node : Z) : heap :=
  let h := remove_free h next_node in
  let next_next_node := get_next_mem h next_node in
  let h := if next_next_node =? 0 then set_tail_mem h node else h in
  let h := set_is_free h node 1 in
  let next_node_btag := get_node_btag h next_node in
  let new_size := u64 (meta_btag_size + n_size h next_node) in
  let h := update_node_size h node next_node_btag new_size in
  insert_free h node.

Definition alloc_free_split (h : heap) (size node : Z) : heap :=
  let extra_node := u64 (node + meta_btag_size + size) in
  let h := set_size h extra_node (u64 (n_size h node - meta_btag_size - size)) in
  let h := set_is_free h extra_node 1 in
  let extra_node_btag := u64 (extra_node + node_size + n_size h extra_node) in
  let h := set_btag h extra_node_btag (n_size h extra_node) in
  let h := if tail_mem h <? extra_node then set_tail_mem h extra_node else h in
  let h := set_size h node size in
  let h := set_is_free h node 0 in
  let node_btag := u64 (node + node_size + n_size h node) in
  let h := set_btag h node_btag size in
  insert_free h extra_node.

(** Returns the payload pointer [node + 1] and the new state. *)
Definition alloc_free (h : heap) (size node : Z) : Z * heap :=
  let h := if u64 (meta_btag_size + size + SPLIT_TRESHOLD) <=? n_size h node
           then alloc_free_split h size node else h in
  let h := set_is_free h node 0 in
  (u64 (node + node_size), h).

Section Sbrk.

(** [sbrk b i] is the break after [sbrk(i)] when the break is [b], or [None]
    when the kernel refuses and the call returns [(void* )-1]. *)
Variable sbrk : Z -> Z -> option Z.

Definition alloc_new (h : heap) (size : Z) : Z * heap :=
  match sbrk (brk h) (s64 (meta_btag_size + size)) with
  | None => (0, h)
  | Some b =>
      let node := brk h in
      let h := set_brk h b in
      let h := if start_mem h =? 0 then set_start_mem h node else h in
      let h := set_next h node 0 in
      let h := set_prev h node 0 in
      let h := if tail_mem h =? 0 then set_tail_mem h node else h in
      let h := set_size h node size in
      let h := set_is_free h node 0 in
      let node_btag := u64 (node + node_size + n_size h node) in
      let h := set_btag h node_btag size in
      (u64 (node + node_size), h)
  end.

(** The first-fit walk of the free list: the first node at least [size] big,
    or 0 at the end of the list. *)
Fixpoint malloc_walk (fuel : nat) (h : heap) (size walk : Z) : outcome Z :=
  match fuel with
  | O => OutOfFuel
  | S fuel =>
      if walk =? 0 then Done 0
      else if size <=? n_size h walk then Done walk
      else malloc_walk fuel h size (n_next h walk)
  end.

Definition malloc (fuel : nat) (h : heap) (size : Z) : outcome (Z * heap) :=
  if size <=? 0 then Done (0, h)
  else
    let! walk := malloc_walk fuel h size (head_free h) in
    if walk =? 0 then Done (alloc_new h size)
    else Done (alloc_free (remove_free h walk) size walk).

Definition calloc (fuel : nat) (h : heap) (num size : Z) : outcome (Z * heap) :=
  let nbytes := u64 (num * size) in
  let! (ptr, h) := malloc fuel h nbytes in
  if ptr =? 0 then Done (0, h)
  else Done (ptr, set_mem h (memset (mem h) ptr 0 nbytes)).

Definition free (h : heap) (ptr : Z) : heap :=
  if ptr =? 0 then h
  else
    let node := u64 (ptr - node_size) in
    if negb (n_is_free h node =? 0) then h
    else
      let prev_node := get_prev_mem h node in
      let next_node := get_next_mem h node in
      let is_prev_neigh_valid :=
        negb (prev_node =? 0) && (start_mem h <=? prev_node)
        && negb (n_is_free h prev_node =? 0) in
      let is_next_neigh_valid :=
        negb (next_node =? 0) && (next_node <=? tail_mem h)
        && negb (n_is_free h next_node =? 0) in
      if is_prev_neigh_valid && is_next_neigh_valid then
        coalesce_three_blocks h node prev_node next_node
      else if is_prev_neigh_valid then
        coalesce_two_blocks_before h node prev_node next_node
      else if is_next_neigh_valid then
        coalesce_two_blocks_after h node next_node
      else
        let h := set_is_free h node 1 in
        insert_free h node.

Definition realloc (fuel : nat) (h : heap) (ptr size : Z) : outcome (Z * heap) :=
  if ptr =? 0 then malloc fuel h size
  else if size =? 0 then Done (0, free h ptr)
  else
    let node := u64 (ptr - node_size) in
    if size <=? n_size h node then Done (ptr, h)
    else
      let! (reallocd_data, h) := malloc fuel h size in
      if reallocd_data =? 0 then Done (0, h)
      else
        let h := set_mem h (memcpy (mem h) reallocd_data ptr (n_size h node)) in
        Done (reallocd_data, free h ptr).

End Sbrk.
