(* ===== verification/MallocInv.v ===== *)
(** * Heap invariant of the allocator and its preservation

    The abstract heap is the list of blocks tiling the region between the
    initial break [base] and the current break, plus the free list.  [heap_inv]
    relates it to the bytes in memory; the theorems below show that [malloc],
    [calloc], [free] and [realloc] of Malloc.v refine the obvious operations on
    the abstract heap. *)

From S2P Require Import Prelude CMem Malloc.

Implicit Types (fl : list Z) (h : heap).

(** ** The abstract heap *)

Record block := Block { b_addr : Z; b_len : Z; b_free : bool }.

Definition b_end (b : block) : Z := b_addr b + 40 + b_len b.

(** [chain a bs e]: the blocks tile [a, e) in address order. *)
Fixpoint chain (a : Z) (bs : list block) (e : Z) : Prop :=
  match bs with
  | [] => a = e
  | b :: bs => b_addr b = a /\ 0 < b_len b /\ chain (b_end b) bs e
  end.

(** Header and boundary tag of a block are in memory. *)
Definition hdr_ok (m : memory) (b : block) : Prop :=
  ld64 m (b_addr b) = b_len b
  /\ m (b_addr b + 8) = (if b_free b then 1 else 0)
  /\ ld64 m (b_addr b + 32 + b_len b) = b_len b.

(** [nexts m l e]: following [next_free] from the first node of [l] visits [l]
    and arrives at [e]; [prevs m p l]: the [prev_free] fields lead back to [p]. *)
Fixpoint nexts (m : memory) (l : list Z) (e : Z) : Prop :=
  match l with
  | [] => True
  | x :: l' => ld64 m (x + 24) = match l' with [] => e | y :: _ => y end /\ nexts m l' e
  end.

Fixpoint prevs (m : memory) (p : Z) (l : list Z) : Prop :=
  match l with
  | [] => True
  | x :: l' => ld64 m (x + 16) = p /\ prevs m x l'
  end.

Definition hd0 (e : Z) (l : list Z) : Z := match l with [] => e | y :: _ => y end.

(** The free list from [head]: the [prev_free] field of the first node is
    unspecified, because [remove_free] leaves it stale. *)
Definition links_ok (m : memory) (head : Z) (fl : list Z) : Prop :=
  head = hd0 0 fl /\ nexts m fl 0
  /\ match fl with [] => True | x :: fl' => prevs m x fl' end.

Record core (base : Z) (h : heap) (bs : list block) : Prop := {
  c_chain : chain base bs (brk h);
  c_hdr : Forall (hdr_ok (mem h)) bs;
  c_start : start_mem h = match bs with [] => 0 | _ => base end;
  c_tail : match bs with [] => tail_mem h = 0 | _ => tail_mem h ∈ map b_addr bs end;
  c_low : 0 <= ld64 (mem h) (base - 8) <= base - 40;
  c_brk : brk h < 9223372036854775808;
}.

(** The free list of [h] is [fl], all of whose nodes are free blocks. *)
Record flist (h : heap) (bs : list block) (fl : list Z) : Prop := {
  f_links : links_ok (mem h) (head_free h) fl;
  f_nodup : NoDup fl;
  f_free : forall a, a ∈ fl -> exists n, Block a n true ∈ bs;
}.

(** The invariant: well-formed blocks, well-formed free list, and every free
    block is on the free list. *)
Record heap_inv (base : Z) (h : heap) (bs : list block) (fl : list Z) : Prop := {
  i_core : core base h bs;
  i_flist : flist h bs fl;
  i_all : forall b, b ∈ bs -> b_free b = true -> b_addr b ∈ fl;
}.

(** The blocks the program owns. *)
Definition live (bs : list block) : list block := filter (fun b => b_free b = false) bs.

(** ** Chains *)

Lemma chain_app a l r e :
  chain a (l ++ r) e <-> exists m, chain a l m /\ chain m r e.
Proof.
  revert a. induction l as [|b l IH]; intros a; simpl.
  - split; [intros H; by exists a | by intros (m & -> & H)].
  - rewrite IH. firstorder.
Qed.

Lemma chain_bounds a bs e :
  chain a bs e -> a <= e /\ Forall (fun b => a <= b_addr b /\ 0 < b_len b /\ b_end b <= e) bs.
Proof.
  revert a. induction bs as [|b bs IH]; intros a; simpl; [intros ->; split; [lia|done]|].
  intros (<- & Hlen & Hc). destruct (IH _ Hc) as [Hle HF].
  unfold b_end in *. split; [lia|]. constructor; [lia|].
  eapply Forall_impl; [exact HF|]. simpl. intros; lia.
Qed.

Lemma chain_in a bs e b :
  chain a bs e -> b ∈ bs -> a <= b_addr b /\ 0 < b_len b /\ b_end b <= e.
Proof.
  intros Hc Hb. destruct (chain_bounds _ _ _ Hc) as [_ HF].
  rewrite Forall_forall in HF. by apply HF.
Qed.

(** The neighbours of a block lie on either side of it. *)
Lemma chain_mid a l b r e :
  chain a (l ++ b :: r) e ->
  Forall (fun c => a <= b_addr c /\ 0 < b_len c /\ b_end c <= b_addr b) l
  /\ Forall (fun c => b_end b <= b_addr c /\ 0 < b_len c /\ b_end c <= e) r
  /\ a <= b_addr b /\ 0 < b_len b /\ b_end b <= e.
Proof.
  intros Hc. pose proof (chain_in _ _ _ b Hc ltac:(set_solver)) as Hb.
  apply chain_app in Hc as (m & Hl & Hr). simpl in Hr. destruct Hr as (<- & _ & Hr).
  apply chain_bounds in Hl as [_ Hl]. apply chain_bounds in Hr as [_ Hr].
  repeat split; try tauto; try lia.
Qed.

Lemma chain_pair a bs e b c :
  chain a bs e -> b ∈ bs -> c ∈ bs ->
  b = c \/ b_end b <= b_addr c \/ b_end c <= b_addr b.
Proof.
  intros Hc Hb Hd. apply list_elem_of_split in Hb as (l & r & ->).
  apply chain_mid in Hc as (Hl & Hr & _).
  rewrite Forall_forall in Hl, Hr.
  apply elem_of_app in Hd as [Hd|Hd]; [|apply elem_of_cons in Hd as [->|Hd]].
  - apply Hl in Hd. lia.
  - by left.
  - apply Hr in Hd. lia.
Qed.

Lemma chain_addr_inj a bs e b c :
  chain a bs e -> b ∈ bs -> c ∈ bs -> b_addr b = b_addr c -> b = c.
Proof.
  intros Hc Hb Hd Ha.
  pose proof (chain_in _ _ _ _ Hc Hb). pose proof (chain_in _ _ _ _ Hc Hd).
  destruct (chain_pair _ _ _ _ _ Hc Hb Hd) as [?|[?|?]]; [done|unfold b_end in *; lia..].
Qed.

(** ** Frames *)

Lemma hdr_ok_frame (P : Z -> Prop) m m' b :
  agree_out P m m' ->
  (forall x, b_addr b <= x < b_addr b + 9 -> ~ P x) ->
  (forall x, b_addr b + 32 + b_len b <= x < b_end b -> ~ P x) ->
  hdr_ok m b -> hdr_ok m' b.
Proof.
  unfold hdr_ok, b_end. intros Ha Hh Hf (H1 & H2 & H3). repeat split.
  - rewrite (agree_out_ld64 P m); [done..|]. intros. apply Hh. lia.
  - rewrite Ha; [done|]. apply Hh. lia.
  - rewrite (agree_out_ld64 P m); [done..|]. intros. apply Hf. lia.
Qed.

(** Memory changed only inside [lo, hi): blocks outside keep their headers. *)
Lemma hdrs_frame_range lo hi m m' bs :
  agree_out (fun x => lo <= x < hi) m m' ->
  Forall (fun b => 0 < b_len b /\ (b_end b <= lo \/ hi <= b_addr b)) bs ->
  Forall (hdr_ok m) bs -> Forall (hdr_ok m') bs.
Proof.
  intros Ha HF HH. rewrite Forall_forall in *. intros b Hb.
  destruct (HF _ Hb) as [? Hd]. unfold b_end in Hd.
  eapply hdr_ok_frame; [exact Ha|..|by apply HH]; unfold b_end; intros; lia.
Qed.

Definition in_links (fl : list Z) (x : Z) : Prop := exists a, a ∈ fl /\ a + 16 <= x < a + 32.

Lemma hdrs_frame_links fl m m' base bs e :
  chain base bs e -> (forall a, a ∈ fl -> exists n, Block a n true ∈ bs) ->
  agree_out (in_links fl) m m' ->
  Forall (hdr_ok m) bs -> Forall (hdr_ok m') bs.
Proof.
  intros Hc Hfl Ha HH. rewrite Forall_forall in *. intros b Hb.
  pose proof (chain_in _ _ _ _ Hc Hb) as (_ & Hlen & _).
  assert (Hsep : forall x, in_links fl x -> b_addr b <= x < b_end b ->
                 b_addr b + 16 <= x < b_addr b + 32).
  { intros x (a & Hin & Hx) Hx'. destruct (Hfl a Hin) as [n Hn].
    pose proof (chain_in _ _ _ _ Hc Hn) as (_ & Hn0 & _).
    destruct (chain_pair _ _ _ _ _ Hc Hb Hn) as [->|[?|?]]; simpl in *; [lia|..];
      unfold b_end in *; simpl in *; lia. }
  unfold b_end in Hsep.
  eapply hdr_ok_frame; [exact Ha|..|by apply HH]; unfold b_end; intros x Hx Hl;
    specialize (Hsep x Hl); lia.
Qed.

(** ** The doubly linked free list *)

Lemma nexts_ext m m' l e :
  (forall a, a ∈ l -> ld64 m' (a + 24) = ld64 m (a + 24)) -> nexts m l e -> nexts m' l e.
Proof.
  induction l as [|a l IH]; simpl; [done|]. intros Hl [H1 H2]. split.
  - rewrite Hl by set_solver. done.
  - apply IH; [|done]. intros. apply Hl. set_solver.
Qed.

Lemma prevs_ext m m' p l :
  (forall a, a ∈ l -> ld64 m' (a + 16) = ld64 m (a + 16)) -> prevs m p l -> prevs m' p l.
Proof.
  revert p. induction l as [|a l IH]; intros p; simpl; [done|]. intros Hl [H1 H2]. split.
  - rewrite Hl by set_solver. done.
  - apply IH; [|done]. intros. apply Hl. set_solver.
Qed.

Lemma nexts_app m l1 l2 e : nexts m (l1 ++ l2) e <-> nexts m l1 (hd0 e l2) /\ nexts m l2 e.
Proof.
  induction l1 as [|a [|b l1] IH]; simpl in *.
  - tauto.
  - destruct l2; simpl; tauto.
  - tauto.
Qed.

Fixpoint lastd (p : Z) (l : list Z) : Z :=
  match l with [] => p | x :: l => lastd x l end.

Lemma prevs_app m p l1 l2 : prevs m p (l1 ++ l2) <-> prevs m p l1 /\ prevs m (lastd p l1) l2.
Proof.
  revert p. induction l1 as [|a l1 IH]; intros p; simpl; [tauto|].
  rewrite IH. tauto.
Qed.

Lemma lastd_snoc p l x : lastd p (l ++ [x]) = x.
Proof. revert p. induction l; simpl; auto. Qed.

Lemma links_ext m m' head fl :
  (forall a, a ∈ fl -> ld64 m' (a + 24) = ld64 m (a + 24) /\ ld64 m' (a + 16) = ld64 m (a + 16)) ->
  links_ok m head fl -> links_ok m' head fl.
Proof.
  intros Hfl (Hh & Hn & Hp). split; [done|]. split.
  - eapply nexts_ext; [|exact Hn]. intros a Ha. by apply Hfl.
  - destruct fl as [|y fl]; [done|].
    eapply prevs_ext; [|exact Hp]. intros a Ha. apply Hfl. set_solver.
Qed.

(** Two list nodes do not overlap, and lie where a pointer can point. *)
Definition apart (a b : Z) : Prop := a + 32 <= b \/ b + 32 <= a.

Fixpoint spread (fl : list Z) : Prop :=
  match fl with
  | [] => True
  | a :: fl => 0 < a < 9223372036854775808 /\ Forall (apart a) fl /\ spread fl
  end.

Lemma spread_intro fl :
  NoDup fl -> (forall a, a ∈ fl -> 0 < a < 9223372036854775808) ->
  (forall a b, a ∈ fl -> b ∈ fl -> a = b \/ apart a b) -> spread fl.
Proof.
  induction fl as [|a fl IH]; simpl; [done|]. intros Hnd Hr Hd.
  apply NoDup_cons in Hnd as [Ha Hnd]. split; [apply Hr; set_solver|]. split.
  - apply Forall_forall. intros b Hb. destruct (Hd a b) as [->|?]; set_solver.
  - apply IH; [done|intros; apply Hr; set_solver|intros; apply Hd; set_solver].
Qed.

Lemma spread_app l1 l2 :
  spread (l1 ++ l2) <-> spread l1 /\ spread l2 /\ (forall a b, a ∈ l1 -> b ∈ l2 -> apart a b).
Proof.
  induction l1 as [|a l1 IH]; simpl; [set_solver|].
  rewrite IH, Forall_app, !Forall_forall. set_solver.
Qed.

(** The free blocks of a chain are spread. *)
Lemma spread_frees base bs e fl :
  chain base bs e -> 0 < base -> e < 9223372036854775808 -> NoDup fl ->
  (forall a, a ∈ fl -> exists b, b_addr b = a /\ b ∈ bs) -> spread fl.
Proof.
  intros Hc Hb He Hnd Hfl. apply spread_intro; [done|..].
  - intros a Ha. destruct (Hfl a Ha) as (b & <- & Hn).
    pose proof (chain_in _ _ _ _ Hc Hn). unfold b_end in *. lia.
  - intros a c Ha Hd. destruct (Hfl a Ha) as (b1 & <- & Hn), (Hfl c Hd) as (b2 & <- & Hk).
    pose proof (chain_in _ _ _ _ Hc Hn). pose proof (chain_in _ _ _ _ Hc Hk). unfold apart.
    destruct (chain_pair _ _ _ _ _ Hc Hn Hk) as [->|[?|?]]; unfold b_end in *; lia.
Qed.

(** The list operations change link fields and the list head only. *)
Definition same_regs (h h' : heap) : Prop :=
  tail_mem h' = tail_mem h /\ start_mem h' = start_mem h /\ brk h' = brk h.

Lemma st64_links fl m m' a o v :
  agree_out (in_links fl) m m' -> a ∈ fl -> o = 16 \/ o = 24 ->
  agree_out (in_links fl) m (st64 m' (a + o) v).
Proof.
  intros Hm Ha Ho x Hx. rewrite st64_ne; [by apply Hm|].
  destruct (decide (a + 16 <= x < a + 32)); [exfalso; apply Hx; by exists a|lia].
Qed.

Lemma agree_out_refl P m : agree_out P m m.
Proof. done. Qed.

Ltac solve_links := repeat (apply st64_links; [|set_solver|lia]); apply agree_out_refl.

(** Put the [apart] facts of [a] against every node in the context. *)
Ltac apart_facts :=
  repeat match goal with
    | H : Forall (apart _) (_ :: _) |- _ => apply Forall_cons in H as [? H]
    | H : Forall (apart ?b) ?l, Ha : ?a ∈ ?l |- _ =>
        lazymatch goal with
        | _ : apart b a |- _ => fail
        | _ => pose proof (proj1 (Forall_forall _ _) H a Ha)
        end
    end; unfold apart in *.

Lemma insert_free_spec h node fl :
  links_ok (mem h) (head_free h) fl -> spread (node :: fl) ->
  let h' := insert_free h node in
  links_ok (mem h') (head_free h') (node :: fl)
  /\ agree_out (in_links (node :: fl)) (mem h) (mem h') /\ same_regs h h'.
Proof.
  intros (Hh & Hn & Hp) (Hnode & Hsp & Hfl). unfold insert_free.
  destruct fl as [|y fl]; simpl in Hh; rewrite Hh.
  - rewrite Z.eqb_refl. cbn. split; [|split; [solve_links|done]].
    split; [done|]. split; [|done]. split; [by mem_simpl|done].
  - destruct Hfl as (Hy & Hsy & Hfl). rewrite (proj2 (Z.eqb_neq y 0)) by lia. cbn. rewrite !Hh.
    split; [|split; [solve_links|done]].
    apply Forall_cons in Hsp as [Hny Hsp]. unfold apart in Hny.
    destruct Hn as [Hn1 Hn]. split; [done|]. split.
    + split; [by mem_simpl|]. split; [by mem_simpl|].
      eapply nexts_ext; [|exact Hn]. intros a Ha. apart_facts. by mem_simpl.
    + split; [by mem_simpl|]. eapply prevs_ext; [|exact Hp].
      intros a Ha. apart_facts. by mem_simpl.
Qed.

Lemma remove_head_spec h x f2 :
  links_ok (mem h) (head_free h) (x :: f2) ->
  let h' := remove_free h x in
  links_ok (mem h') (head_free h') f2 /\ mem h' = mem h /\ same_regs h h'.
Proof.
  intros (Hh & [Hn1 Hn2] & Hp). simpl in Hh. unfold remove_free.
  rewrite <- Hh, Z.eqb_refl. cbn. unfold n_next. rewrite Hh.
  split; [|done]. split; [by rewrite Hn1; destruct f2|]. split; [done|].
  destruct f2; [done|by destruct Hp].
Qed.

(** A list around the interior node [x] with predecessor [p]. *)
Definition links_tl (m : memory) (l : list Z) : Prop :=
  match l with [] => True | y :: l => prevs m y l end.

Lemma links_mid m head f0 p x f2 :
  links_ok m head (f0 ++ p :: x :: f2) ->
  head = hd0 0 (f0 ++ [p]) /\ nexts m (f0 ++ [p]) x /\ links_tl m (f0 ++ [p])
  /\ ld64 m (x + 24) = hd0 0 f2 /\ nexts m f2 0 /\ ld64 m (x + 16) = p /\ prevs m x f2.
Proof.
  intros (Hh & Hn & Hp).
  replace (f0 ++ p :: x :: f2) with ((f0 ++ [p]) ++ x :: f2) in * by (by rewrite <- app_assoc).
  apply nexts_app in Hn as [Hn1 [Hn2 Hn3]].
  split; [by destruct f0|]. split; [done|].
  destruct f0 as [|y f0]; simpl in *.
  - destruct f2; simpl in *; tauto.
  - apply prevs_app in Hp as [Hp1 [Hp2 Hp3]]. rewrite lastd_snoc in Hp2.
    destruct f2; simpl in *; tauto.
Qed.

Lemma links_join m head f0 p f2 :
  head = hd0 0 (f0 ++ [p]) -> nexts m (f0 ++ [p]) (hd0 0 f2) -> links_tl m (f0 ++ [p]) ->
  nexts m f2 0 -> prevs m p f2 -> links_ok m head (f0 ++ p :: f2).
Proof.
  intros Hh Hn1 Hp1 Hn2 Hp2. split; [by destruct f0|].
  replace (f0 ++ p :: f2) with ((f0 ++ [p]) ++ f2) by (by rewrite <- app_assoc).
  split; [by apply nexts_app|].
  destruct f0 as [|y f0]; simpl in *; [done|]. apply prevs_app. by rewrite lastd_snoc.
Qed.

Lemma nexts_relink m f0 p e m' :
  nexts m (f0 ++ [p]) e ->
  (forall a, a ∈ f0 -> ld64 m' (a + 24) = ld64 m (a + 24)) ->
  nexts m' (f0 ++ [p]) (ld64 m' (p + 24)).
Proof.
  intros Hn Hf. induction f0 as [|a f0 IH]; simpl in *; [done|].
  destruct Hn as [Hn1 Hn2]. split.
  - rewrite Hf by set_solver. rewrite Hn1. by destruct f0.
  - apply IH; [done|]. intros. apply Hf. set_solver.
Qed.

(** What the four stores of [remove_free] do to an interior node [x]. *)
Lemma unlink_mid m m' head f0 p x f2 :
  links_ok m head (f0 ++ p :: x :: f2) ->
  (forall a, a ∈ f0 -> ld64 m' (a + 24) = ld64 m (a + 24)) ->
  (forall a, a ∈ f0 ++ [p] -> ld64 m' (a + 16) = ld64 m (a + 16)) ->
  (forall a, a ∈ f2 -> ld64 m' (a + 24) = ld64 m (a + 24)) ->
  (forall a, a ∈ tail f2 -> ld64 m' (a + 16) = ld64 m (a + 16)) ->
  ld64 m' (p + 24) = hd0 0 f2 ->
  match f2 with [] => True | y :: _ => ld64 m' (y + 16) = p end ->
  links_ok m' head (f0 ++ p :: f2).
Proof.
  intros Hl H1 H2 H3 H4 H5 H6. apply links_mid in Hl as (Hh & Hn & Hp & _ & Hn2 & _ & Hp2).
  apply links_join; [done|..].
  - rewrite <- H5. by eapply nexts_relink.
  - unfold links_tl in *. destruct (f0 ++ [p]) as [|y l]; [done|].
    eapply prevs_ext; [|exact Hp]. intros; apply H2. set_solver.
  - by eapply nexts_ext.
  - destruct f2 as [|y f2]; [done|]. destruct Hp2 as [_ Hp2]. split; [done|].
    by eapply prevs_ext.
Qed.

Lemma remove_mid_spec h f0 p x f2 :
  let fl := f0 ++ p :: x :: f2 in
  links_ok (mem h) (head_free h) fl -> spread fl ->
  let h' := remove_free h x in
  links_ok (mem h') (head_free h') (f0 ++ p :: f2)
  /\ agree_out (in_links fl) (mem h) (mem h') /\ same_regs h h'.
Proof.
  intros fl Hl Hsp. pose proof (links_mid _ _ _ _ _ _ Hl) as (Hh & _ & _ & Hx1 & _ & Hx2 & _).
  subst fl. apply spread_app in Hsp as (_ & (Hp0 & Hap & Hx0 & Hax & Hs2) & Hs0).
  assert (Hxh : x <> head_free h).
  { rewrite Hh. destruct f0 as [|z f0]; simpl; [|specialize (Hs0 z x)]; apart_facts;
      [lia|set_solver by lia]. }
  unfold remove_free. rewrite (proj2 (Z.eqb_neq _ _) Hxh). cbv zeta. unfold n_prev, n_next.
  rewrite Hx1, Hx2, (proj2 (Z.eqb_neq p 0)) by lia.
  assert (H0 : forall a, a ∈ f0 -> apart a p /\ apart a x /\ Forall (apart a) f2).
  { intros a Ha. rewrite Forall_forall. split; [|split]; [..|intros ??]; apply Hs0; set_solver. }
  destruct f2 as [|y f2]; simpl hd0 in *; [rewrite Z.eqb_refl|
    destruct Hs2 as (Hy0 & Hay & Hs2); rewrite (proj2 (Z.eqb_neq y 0)) by lia]; cbn;
  (split; [|split; [solve_links|done]]);
  (eapply unlink_mid; [exact Hl|..]); simpl; try done; intros;
  repeat match goal with H : _ ∈ _ ++ [_] |- _ =>
    apply elem_of_app in H as [H|H]; [|apply list_elem_of_singleton in H as ->] end;
  repeat match goal with H : _ ∈ _ :: _ |- _ => apply elem_of_cons in H as [->|H] end;
  try match goal with H : _ ∈ f0 |- _ => destruct (H0 _ H) as (? & ? & ?) end;
  apart_facts; try (by mem_simpl); set_solver.
Qed.

(** [remove_free] on any node of the list. *)
Lemma remove_free_spec h f1 x f2 :
  let fl := f1 ++ x :: f2 in
  links_ok (mem h) (head_free h) fl -> spread fl ->
  let h' := remove_free h x in
  links_ok (mem h') (head_free h') (f1 ++ f2)
  /\ agree_out (in_links fl) (mem h) (mem h') /\ same_regs h h'.
Proof.
  destruct f1 as [|p f0] using rev_ind; simpl; intros Hl Hsp.
  - apply remove_head_spec in Hl as (Hl' & Hm & Hr).
    split; [done|]. split; [|done]. rewrite Hm. apply agree_out_refl.
  - rewrite <- !app_assoc in *. by apply remove_mid_spec.
Qed.

(** ** Replacing a run of blocks *)

Ltac chain_tac := cbn; unfold b_end in *; cbn in *; repeat split; lia.

Lemma chain_det a bs e e' : chain a bs e -> chain a bs e' -> e = e'.
Proof.
  revert a. induction bs as [|b bs IH]; simpl; intros a; [congruence|].
  intros (_ & _ & H1) (_ & _ & H2). by eapply IH.
Qed.

Lemma chain_replace base l mid mid' r e lo hi :
  chain base (l ++ mid ++ r) e -> mid <> [] -> chain lo mid hi -> chain lo mid' hi ->
  chain base (l ++ mid' ++ r) e.
Proof.
  intros Hc Hne Hm Hm'. apply chain_app in Hc as (m1 & Hl & Hc).
  apply chain_app in Hc as (m2 & Hmid & Hr).
  assert (m1 = lo) as -> by (destruct mid as [|b ?]; [done|]; by destruct Hm as [<- _], Hmid as [<- _]).
  rewrite (chain_det _ _ _ _ Hmid Hm) in Hr.
  apply chain_app. exists lo. split; [done|]. apply chain_app. eauto.
Qed.

Lemma chain_outer base l mid r e lo hi :
  chain base (l ++ mid ++ r) e -> mid <> [] -> chain lo mid hi ->
  base <= lo /\ hi <= e
  /\ Forall (fun c => 0 < b_len c /\ (b_end c <= lo \/ hi <= b_addr c)) (l ++ r).
Proof.
  intros Hc Hne Hm. apply chain_app in Hc as (m1 & Hl & Hc).
  apply chain_app in Hc as (m2 & Hmid & Hr).
  assert (m1 = lo) as -> by (destruct mid as [|b ?]; [done|]; by destruct Hm as [<- _], Hmid as [<- _]).
  rewrite (chain_det _ _ _ _ Hmid Hm) in Hr.
  apply chain_bounds in Hl as [? Hl]. apply chain_bounds in Hr as [? Hr].
  split; [done|]. split; [done|].
  apply Forall_app. split; (eapply Forall_impl; [eassumption|]); simpl; intros; lia.
Qed.

Lemma core_replace base h h' l mid mid' r lo hi :
  core base h (l ++ mid ++ r) -> mid <> [] -> mid' <> [] -> chain lo mid hi -> chain lo mid' hi ->
  agree_out (fun x => lo <= x < hi) (mem h) (mem h') -> Forall (hdr_ok (mem h')) mid' ->
  start_mem h' = start_mem h -> brk h' = brk h ->
  tail_mem h' ∈ map b_addr (l ++ mid' ++ r) -> core base h' (l ++ mid' ++ r).
Proof.
  intros [Hc Hh Hs Ht Hlow Hb] Hne Hne' Hm Hm' Hag Hhdr Hst Hbrk Htl.
  pose proof (chain_outer _ _ _ _ _ _ _ Hc Hne Hm) as (Hlo & Hhi & Hout).
  assert (Hh' : Forall (hdr_ok (mem h')) (l ++ r)).
  { eapply hdrs_frame_range; [exact Hag|exact Hout|]. rewrite !Forall_app in *. tauto. }
  split.
  - rewrite Hbrk. eapply chain_replace; eauto.
  - rewrite !Forall_app in *. tauto.
  - rewrite Hst, Hs. destruct l; destruct mid, mid'; done.
  - destruct l; destruct mid'; done.
  - rewrite (agree_out_ld64 _ _ _ _ Hag); [done|]. intros; lia.
  - lia.
Qed.

Lemma core_links base h h' bs fl :
  core base h bs -> (forall a, a ∈ fl -> exists n, Block a n true ∈ bs) ->
  agree_out (in_links fl) (mem h) (mem h') -> same_regs h h' -> core base h' bs.
Proof.
  intros [Hc Hh Hs Ht Hlow Hb] Hfl Hag (Ht' & Hs' & Hb'). split.
  - by rewrite Hb'.
  - eapply hdrs_frame_links; eauto.
  - by rewrite Hs'.
  - by rewrite Ht'.
  - rewrite (agree_out_ld64 _ _ _ _ Hag); [done|]. intros x Hx (a & Ha & Hax).
    destruct (Hfl a Ha) as [n Hn]. apply (chain_in _ _ _ _ Hc) in Hn. simpl in Hn. lia.
  - by rewrite Hb'.
Qed.

(** ** Neighbours in memory *)

Lemma core_base base h bs : core base h bs -> 40 <= base.
Proof. intros [_ _ _ _ Hlow _]. lia. Qed.

Lemma core_hdr base h bs b : core base h bs -> b ∈ bs -> hdr_ok (mem h) b.
Proof. intros [_ Hh _ _ _ _] Hb. rewrite Forall_forall in Hh. by apply Hh. Qed.

Lemma core_start base h bs b : core base h bs -> b ∈ bs -> start_mem h = base.
Proof. intros [_ _ Hs _ _ _] Hb. destruct bs; [set_solver|done]. Qed.

Lemma core_tail base h bs b :
  core base h bs -> b ∈ bs -> exists c, c ∈ bs /\ tail_mem h = b_addr c.
Proof.
  intros [_ _ _ Ht _ _] Hb. destruct bs as [|b0 bs]; [set_solver|].
  apply list_elem_of_fmap in Ht as (c & ? & ?). eauto.
Qed.

(** Bounds of a block of the heap, for [lia]. *)
Lemma core_range base h bs b :
  core base h bs -> b ∈ bs ->
  40 <= base <= b_addr b /\ 0 < b_len b /\ b_addr b + 40 + b_len b <= brk h < 9223372036854775808.
Proof.
  intros Hc Hb. pose proof (core_base _ _ _ Hc). destruct Hc as [Hc _ _ _ _ ?].
  pose proof (chain_in _ _ _ _ Hc Hb). unfold b_end in *. lia.
Qed.

Lemma get_next_spec base h l b r :
  core base h (l ++ b :: r) ->
  (get_next_mem h (b_addr b) = 0 /\ tail_mem h < b_end b)
  \/ exists q r', r = q :: r' /\ b_addr q = b_end b /\ get_next_mem h (b_addr b) = b_addr q
     /\ b_addr q <= tail_mem h.
Proof.
  intros Hc. assert (Hb : b ∈ l ++ b :: r) by set_solver.
  pose proof (core_range _ _ _ _ Hc Hb). pose proof (core_hdr _ _ _ _ Hc Hb) as (Hsz & _).
  unfold get_next_mem, n_size, meta_btag_size. rewrite Hsz. wrap_simpl.
  destruct (tail_mem h <? b_addr b + 40 + b_len b) eqn:E; bool_to_prop; [left; unfold b_end; lia|].
  right. destruct (core_tail _ _ _ _ Hc Hb) as (c & Hcin & Htl). destruct Hc as [Hch _ _ _ _ _].
  pose proof (chain_mid _ _ _ _ _ Hch) as (Hl & Hr & _). unfold b_end in *.
  apply chain_app in Hch as (m & _ & (_ & _ & Hch)). unfold b_end in Hch.
  destruct r as [|q r]; [|exists q, r; destruct Hch as [Hq _]; rewrite Hq; split; [done|lia]].
  exfalso. rewrite Forall_forall in Hl. apply elem_of_app in Hcin as [Hcin|Hcin].
  - apply Hl in Hcin. lia.
  - apply list_elem_of_singleton in Hcin as ->. lia.
Qed.

Lemma get_prev_spec base h l b r :
  core base h (l ++ b :: r) ->
  (l = [] /\ get_prev_mem h (b_addr b) = 0)
  \/ exists l' p, l = l' ++ [p] /\ b_addr b = b_end p /\ get_prev_mem h (b_addr b) = b_addr p.
Proof.
  intros Hc. assert (Hb : b ∈ l ++ b :: r) by set_solver.
  pose proof (core_range _ _ _ _ Hc Hb). pose proof (core_start _ _ _ _ Hc Hb) as Hs.
  unfold get_prev_mem, b_size, btag_size, node_size.
  destruct l as [|p l' _] using rev_ind; [left|right].
  - split; [done|]. destruct Hc as [Hch _ _ _ Hlow _]. simpl in Hch.
    destruct Hch as (-> & _). wrap_simpl. rewrite Hs. by rewrite (proj2 (Z.ltb_lt _ _)) by lia.
  - assert (Hp : p ∈ (l' ++ [p]) ++ b :: r) by set_solver.
    pose proof (core_range _ _ _ _ Hc Hp). pose proof (core_hdr _ _ _ _ Hc Hp) as (_ & _ & Hf).
    destruct Hc as [Hch _ _ _ _ _]. rewrite <- app_assoc in Hch.
    apply chain_app in Hch as (m & _ & (_ & _ & (Hpb & _))). unfold b_end in *.
    exists l', p. split; [done|]. split; [done|].
    wrap_simpl. rewrite Hpb. replace (b_addr p + 40 + b_len p - 8) with (b_addr p + 32 + b_len p) by lia.
    rewrite Hf, Hs. wrap_simpl. rewrite (proj2 (Z.ltb_ge _ _)) by lia. lia.
Qed.

(** ** [free] *)

Lemma update_node_size_spec h p q s add fr :
  n_size h p = s -> mem h (p + 8) = (if fr : bool then 1 else 0) ->
  0 < s -> 0 <= add -> 0 <= p -> p + 40 + s + add < 9223372036854775808 ->
  q = p + 32 + s + add ->
  let h' := update_node_size h p q add in
  hdr_ok (mem h') (Block p (s + add) fr)
  /\ mem h' = st64 (st64 (mem h) p (s + add)) q (s + add)
  /\ same_regs h h' /\ head_free h' = head_free h.
Proof.
  intros Hs Hf ? ? ? ? ->. unfold update_node_size. rewrite Hs. wrap_simpl.
  cbn. unfold n_size. cbn. mem_simpl. split; [|done].
  unfold hdr_ok. cbn. split; [by mem_simpl|]. split; [by mem_simpl|].
  rewrite Z.add_assoc. by mem_simpl.
Qed.

Lemma get_node_btag_spec base h bs b :
  core base h bs -> b ∈ bs -> get_node_btag h (b_addr b) = b_addr b + 32 + b_len b.
Proof.
  intros Hc Hb. pose proof (core_range _ _ _ _ Hc Hb).
  pose proof (core_hdr _ _ _ _ Hc Hb) as (Hs & _).
  unfold get_node_btag, n_size, node_size. rewrite Hs. by wrap_simpl.
Qed.

(** Bytes [free] may touch: free blocks and the block being released. *)
Definition free_touch (bs : list block) (b : block) (x : Z) : Prop :=
  exists c, c ∈ bs /\ (b_free c = true \/ c = b) /\ b_addr c <= x < b_end c.

Lemma touch_links base bs e fl b x :
  chain base bs e -> (forall a, a ∈ fl -> exists n, Block a n true ∈ bs) ->
  in_links fl x -> free_touch bs b x.
Proof.
  intros Hc Hfl (a & Ha & Hx). destruct (Hfl a Ha) as [n Hn].
  exists (Block a n true). pose proof (chain_in _ _ _ _ Hc Hn). unfold b_end. simpl in *.
  split; [done|]. split; [by left|lia].
Qed.

(** The free list under stores that miss every link field. *)
Lemma flist_keep h h' bs bs' fl :
  flist h bs fl -> head_free h' = head_free h ->
  (forall a, a ∈ fl -> ld64 (mem h') (a + 24) = ld64 (mem h) (a + 24)
                    /\ ld64 (mem h') (a + 16) = ld64 (mem h) (a + 16)) ->
  (forall a, a ∈ fl -> exists n, Block a n true ∈ bs') -> flist h' bs' fl.
Proof.
  intros [Hl Hnd _] Hh Hm Hfl. split; [|done|done]. rewrite Hh. by eapply links_ext.
Qed.

Lemma flist_spread base h bs fl :
  core base h bs -> flist h bs fl -> spread fl.
Proof.
  intros Hc [_ Hnd Hfl]. pose proof (core_base _ _ _ Hc). destruct Hc as [Hc _ _ _ _ Hb].
  eapply spread_frees; [exact Hc|lia|done|done|].
  intros a Ha. destruct (Hfl a Ha) as [n Hn]. by exists (Block a n true).
Qed.

(** A live block is off the free list and apart from its nodes. *)
Lemma live_not_free base h bs fl b :
  core base h bs -> flist h bs fl -> b ∈ bs -> b_free b = false -> b_addr b ∉ fl.
Proof.
  intros [Hc _ _ _ _ _] [_ _ Hfl] Hb Hf Hin. destruct (Hfl _ Hin) as [n Hn].
  assert (Heq : Block (b_addr b) n true = b) by (eapply chain_addr_inj; eauto).
  by rewrite <- Heq in Hf.
Qed.

Lemma live_spread base h bs fl b :
  core base h bs -> flist h bs fl -> b ∈ bs -> b_free b = false -> spread (b_addr b :: fl).
Proof.
  intros Hc Hfl Hb Hf. pose proof (live_not_free _ _ _ _ _ Hc Hfl Hb Hf) as Hnot.
  pose proof (core_base _ _ _ Hc). destruct Hc as [Hc _ _ _ _ Hbrk], Hfl as [_ Hnd Hfl].
  eapply spread_frees; [exact Hc|lia|done|by constructor|].
  intros a Ha. apply elem_of_cons in Ha as [->|Ha]; [by exists b|].
  destruct (Hfl a Ha) as [n Hn]. by exists (Block a n true).
Qed.

(** What [free] promises: [b] is no longer live, nothing else changed hands,
    and only free memory and [b] were written. *)
Definition freed (base : Z) (h : heap) (bs : list block) (b : block) (h' : heap) : Prop :=
  exists bs' fl', heap_inv base h' bs' fl' /\ live bs ≡ₚ b :: live bs'
    /\ agree_out (free_touch bs b) (mem h) (mem h') /\ brk h' = brk h.

Lemma live_app l r : live (l ++ r) = live l ++ live r.
Proof. apply filter_app. Qed.

Lemma live_free a n : live [Block a n true] = [].
Proof. done. Qed.

Lemma live_used a n : live [Block a n false] = [Block a n false].
Proof. done. Qed.

(** Putting the released block on the free list. *)
Lemma insert_freed base h bs fl a n :
  core base h bs -> flist h bs fl -> Block a n true ∈ bs -> a ∉ fl ->
  (forall b, b ∈ bs -> b_free b = true -> b_addr b ∈ a :: fl) ->
  heap_inv base (insert_free h a) bs (a :: fl)
  /\ agree_out (in_links (a :: fl)) (mem h) (mem (insert_free h a))
  /\ brk (insert_free h a) = brk h.
Proof.
  intros Hc Hfl Ha Hnew Hall.
  assert (Hfree : forall x, x ∈ a :: fl -> exists n, Block x n true ∈ bs).
  { intros x Hx. apply elem_of_cons in Hx as [->|Hx]; [eauto|by apply Hfl]. }
  assert (Hnd : NoDup (a :: fl)) by (constructor; [done|apply Hfl]).
  assert (Hsp : spread (a :: fl)).
  { pose proof (core_base _ _ _ Hc). destruct Hc as [Hc' _ _ _ _ ?].
    eapply spread_frees; [exact Hc'|lia|done|done|].
    intros x Hx. destruct (Hfree x Hx) as [k Hk]. by eexists (Block _ _ _). }
  pose proof (insert_free_spec h a fl (f_links _ _ _ Hfl) Hsp) as (Hl & Hag & Hr).
  split; [|split; [done|apply Hr]].
  split; [|split; done|done]. eapply core_links; eauto.
Qed.

(** ** The free list as a permutation of the free blocks *)

Definition free_addrs (bs : list block) : list Z :=
  map b_addr (filter (fun b => b_free b = true) bs).

Lemma free_addrs_app l r : free_addrs (l ++ r) = free_addrs l ++ free_addrs r.
Proof. unfold free_addrs. by rewrite filter_app, map_app. Qed.

Lemma free_addrs_cons b r :
  free_addrs (b :: r) = if b_free b then b_addr b :: free_addrs r else free_addrs r.
Proof.
  unfold free_addrs. rewrite filter_cons. destruct (b_free b) eqn:E; simpl; try rewrite E; done.
Qed.

Lemma live_cons b r : live (b :: r) = if b_free b then live r else b :: live r.
Proof. unfold live. rewrite filter_cons. destruct (b_free b) eqn:E; simpl; try rewrite E; done. Qed.

Lemma elem_of_free_addrs bs a :
  a ∈ free_addrs bs <-> exists n, Block a n true ∈ bs.
Proof.
  unfold free_addrs. rewrite list_elem_of_fmap. split.
  - intros ([a' n f] & -> & Hb). apply list_elem_of_filter in Hb as [Hf Hb].
    simpl in *. subst f. eauto.
  - intros [n Hn]. exists (Block a n true). split; [done|]. by apply list_elem_of_filter.
Qed.

Lemma free_addrs_nodup a bs e : chain a bs e -> NoDup (free_addrs bs).
Proof.
  revert a. induction bs as [|b bs IH]; intros a; simpl; [intros; constructor|].
  intros (<- & Hlen & Hc). rewrite free_addrs_cons. destruct (b_free b); [|by eapply IH].
  constructor; [|by eapply IH]. intros Hin.
  apply elem_of_free_addrs in Hin as [n Hn]. apply (chain_in _ _ _ _ Hc) in Hn.
  unfold b_end in Hn. simpl in Hn. lia.
Qed.

Lemma inv_perm base h bs fl : heap_inv base h bs fl -> fl ≡ₚ free_addrs bs.
Proof.
  intros [Hc [_ Hnd Hfl] Hall]. apply NoDup_Permutation; [done|destruct Hc; by eapply free_addrs_nodup|].
  intros a. rewrite elem_of_free_addrs. split; [apply Hfl|]. intros [n Hn]. by apply (Hall _ Hn).
Qed.

Lemma inv_intro base h bs fl :
  core base h bs -> links_ok (mem h) (head_free h) fl -> fl ≡ₚ free_addrs bs -> heap_inv base h bs fl.
Proof.
  intros Hc Hl Hp. split; [done|split; [done|..]|].
  - rewrite Hp. destruct Hc. by eapply free_addrs_nodup.
  - intros a Ha. by rewrite Hp, elem_of_free_addrs in Ha.
  - intros [a n f] Hb Hf. simpl in *. subst f. rewrite Hp, elem_of_free_addrs. eauto.
Qed.

(** A tail pointer past a run of blocks points into the blocks after it. *)
Lemma tail_right base h l mid r lo hi :
  core base h (l ++ mid ++ r) -> mid <> [] -> chain lo mid hi -> hi <= tail_mem h ->
  tail_mem h ∈ map b_addr r.
Proof.
  intros Hc Hne Hm Hhi.
  destruct mid as [|b0 mid0] eqn:Emid; [done|]. rewrite <- Emid in *.
  destruct (core_tail _ _ _ b0 Hc) as (c & Hin & Htl); [subst; set_solver|].
  destruct Hc as [Hc _ _ _ _ _].
  pose proof (chain_outer _ _ _ _ _ _ _ Hc Hne Hm) as (Hlo & _ & _).
  apply chain_app in Hc as (m1 & Hl & Hr). apply chain_app in Hr as (m2 & Hmid & Hr).
  assert (m1 = lo) as -> by (subst mid; by destruct Hm as [<- _], Hmid as [<- _]).
  pose proof (chain_det _ _ _ _ Hmid Hm) as ->.
  apply chain_bounds in Hm as [? _].
  rewrite Htl. apply list_elem_of_fmap. exists c. split; [done|].
  apply elem_of_app in Hin as [Hin|Hin]; [|apply elem_of_app in Hin as [Hin|Hin]; [|done]].
  - apply (chain_in _ _ _ _ Hl) in Hin. unfold b_end in Hin. lia.
  - apply (chain_in _ _ _ _ Hmid) in Hin. unfold b_end in Hin. lia.
Qed.

(** ** The four cases of [free] *)

Lemma free_plain base h l b r fl :
  heap_inv base h (l ++ b :: r) fl -> b_free b = false ->
  freed base h (l ++ b :: r) b (insert_free (set_is_free h (b_addr b) 1) (b_addr b)).
Proof.
  intros Hi Hbf. pose proof (inv_perm _ _ _ _ Hi) as Hp. destruct Hi as [Hc Hfl Hall].
  assert (Hb : b ∈ l ++ b :: r) by set_solver.
  pose proof (live_spread _ _ _ _ _ Hc Hfl Hb Hbf) as (_ & Hap & _).
  pose proof (live_not_free _ _ _ _ _ Hc Hfl Hb Hbf) as Hnot.
  pose proof (core_range _ _ _ _ Hc Hb). pose proof (core_hdr _ _ _ _ Hc Hb) as (H1 & _ & H3).
  set (b' := Block (b_addr b) (b_len b) true). set (h1 := set_is_free h (b_addr b) 1).
  assert (Hag : agree_out (fun x => b_addr b <= x < b_end b) (mem h) (mem h1)).
  { intros x Hx. unfold b_end in Hx. cbn. by rewrite st8_ne by lia. }
  assert (Hc1 : core base h1 (l ++ b' :: r)).
  { eapply (core_replace base h h1 l [b] [b'] r (b_addr b) (b_end b)); try done.
    - chain_tac.
    - chain_tac.
    - constructor; [|done]. unfold hdr_ok. cbn. mem_simpl. done.
    - destruct (core_tail _ _ _ _ Hc Hb) as (c & Hin & Ht). cbn. rewrite Ht.
      rewrite map_app, elem_of_app. cbn. set_solver. }
  assert (Hl1 : links_ok (mem h1) (head_free h1) fl).
  { eapply links_ext; [|apply Hfl]. intros a Ha. apart_facts. cbn. by mem_simpl. }
  assert (Hp1 : b_addr b :: fl ≡ₚ free_addrs (l ++ b' :: r)).
  { rewrite Hp, !free_addrs_app, !free_addrs_cons, Hbf. cbn. solve_Permutation. }
  assert (Hall1 : forall a, a ∈ b_addr b :: fl -> exists n, Block a n true ∈ l ++ b' :: r).
  { intros a. by rewrite Hp1, elem_of_free_addrs. }
  destruct (insert_freed base h1 (l ++ b' :: r) fl (b_addr b) (b_len b)) as (Hi2 & Hag2 & Hbrk).
  - done.
  - split; [done|apply Hfl|]. intros; apply Hall1; set_solver.
  - set_solver.
  - done.
  - intros [a n f] Hin Hf. simpl in *. subst f. rewrite Hp1, elem_of_free_addrs. eauto.
  - exists (l ++ b' :: r), (b_addr b :: fl). split; [done|]. split; [|split; [|done]].
    + rewrite !live_app, !live_cons, Hbf. cbn. solve_Permutation.
    + eapply agree_out_weaken; [|eapply agree_out_trans; [exact Hag|exact Hag2]].
      intros x [Hx|(a & Ha & Hx)]; [exists b; tauto|].
      apply elem_of_cons in Ha as [->|Ha]; [exists b; unfold b_end; split; [done|]; split; [tauto|lia]|].
      destruct Hc as [Hch _ _ _ _ _], Hfl as [_ _ Hfl].
      eapply touch_links; [done|exact Hfl|by exists a].
Qed.

(** Merging a run of blocks into its first one: [h3] is [h] up to the tail
    pointer and the [is_free] byte of the first block. *)
Lemma merge_run base h h3 l b0 mid r hi fl :
  let bs := l ++ (b0 :: mid) ++ r in
  let merged := Block (b_addr b0) (hi - 40 - b_addr b0) true in
  core base h bs -> flist h bs fl -> chain (b_addr b0) (b0 :: mid) hi ->
  (mem h3 = mem h \/ mem h3 = st8 (mem h) (b_addr b0 + 8) 1) -> mem h3 (b_addr b0 + 8) = 1 ->
  start_mem h3 = start_mem h -> brk h3 = brk h -> head_free h3 = head_free h ->
  tail_mem h3 ∈ map b_addr (l ++ [merged] ++ r) ->
  (forall a, a ∈ fl -> a = b_addr b0 \/ a + 32 <= b_addr b0 \/ hi <= a) ->
  let h' := update_node_size h3 (b_addr b0) (hi - 8) (hi - 40 - b_addr b0 - b_len b0) in
  core base h' (l ++ [merged] ++ r) /\ links_ok (mem h') (head_free h') fl
  /\ agree_out (fun x => b_addr b0 <= x < hi) (mem h) (mem h') /\ brk h' = brk h.
Proof.
  intros bs merged Hc Hfl Hrun Hm3 Hf3 Hs3 Hb3 Hh3 Ht3 Hout.
  assert (Hb : b0 ∈ bs) by (subst bs; set_solver).
  pose proof (core_range _ _ _ _ Hc Hb). pose proof (core_hdr _ _ _ _ Hc Hb) as (Hb1 & _).
  assert (Hhi : b_addr b0 + 40 + b_len b0 <= hi /\ hi <= brk h).
  { pose proof Hrun as (_ & _ & Hr). apply chain_bounds in Hr as [Hr _].
    split; [exact Hr|]. destruct Hc as [Hch _ _ _ _ _].
    destruct (chain_outer _ _ (b0 :: mid) _ _ _ _ Hch ltac:(done) Hrun) as (_ & ? & _). lia. }
  assert (Hsz : n_size h3 (b_addr b0) = b_len b0).
  { unfold n_size. destruct Hm3 as [->| ->]; by mem_simpl. }
  destruct (update_node_size_spec h3 (b_addr b0) (hi - 8) (b_len b0) (hi - 40 - b_addr b0 - b_len b0) true)
    as (Hh' & Hm' & (Ht' & Hs' & Hbrk') & Hhd'); [done..|lia|lia|lia|lia|lia|].
  replace (b_len b0 + (hi - 40 - b_addr b0 - b_len b0)) with (hi - 40 - b_addr b0) in * by lia.
  set (h' := update_node_size _ _ _ _) in *.
  assert (Hag : agree_out (fun x => b_addr b0 <= x < hi) (mem h) (mem h')).
  { intros x Hx. rewrite Hm', !st64_ne by lia. destruct Hm3 as [->| ->]; [done|].
    by rewrite st8_ne by lia. }
  split; [|split; [|split; [done|congruence]]].
  - eapply (core_replace base h h' l (b0 :: mid) [merged] r (b_addr b0) hi); try done.
    all: match goal with
      | |- chain _ _ _ => chain_tac
      | |- Forall _ _ => by apply Forall_singleton
      | |- _ ∈ _ => by rewrite Ht'
      | |- _ => congruence
      end.
  - rewrite Hhd', Hh3. eapply links_ext; [|apply Hfl]. intros a Ha.
    specialize (Hout a Ha). rewrite Hm'. destruct Hm3 as [->| ->]; by mem_simpl.
Qed.

(** Nodes of a free list none of whose nodes is inside the run. *)
Lemma outside_run base h l b0 mid r hi fl :
  core base h (l ++ (b0 :: mid) ++ r) -> chain (b_addr b0) (b0 :: mid) hi ->
  (forall a, a ∈ fl -> exists n, Block a n true ∈ l ++ (b0 :: mid) ++ r) ->
  (forall c, c ∈ mid -> b_addr c ∉ fl) ->
  forall a, a ∈ fl -> a = b_addr b0 \/ a + 32 <= b_addr b0 \/ hi <= a.
Proof.
  intros [Hc _ _ _ _ _] Hrun Hfl Hno a Ha. destruct (Hfl a Ha) as [n Hn].
  pose proof (chain_outer _ _ (b0 :: mid) _ _ _ _ Hc ltac:(done) Hrun) as (_ & _ & Hout).
  rewrite Forall_forall in Hout. assert (Hn' : Block a n true ∈ l ++ r \/ Block a n true ∈ b0 :: mid) by set_solver.
  destruct Hn' as [Hn'|Hn'].
  - apply Hout in Hn'. unfold b_end in Hn'. cbn in Hn'. lia.
  - apply elem_of_cons in Hn' as [<-|Hn']; [by left|]. by apply Hno in Hn'.
Qed.

(** Bytes of a run made of free blocks and [b]. *)
Lemma touch_run bs b lo run hi x :
  chain lo run hi -> Forall (fun c => c ∈ bs /\ (b_free c = true \/ c = b)) run ->
  lo <= x < hi -> free_touch bs b x.
Proof.
  revert lo. induction run as [|c run IH]; intros lo Hc Hr Hx; cbn in Hc; [lia|].
  destruct Hc as (<- & Hlen & Hc). destruct (decide (x < b_end c)).
  - exists c. apply Forall_cons in Hr as [[? ?] _]. split; [done|]. split; [done|lia].
  - eapply (IH (b_end c)); [done|by apply Forall_cons in Hr as [_ ?]|lia].
Qed.

Ltac touch_run_tac Hrun Hx :=
  eapply touch_run; [exact Hrun| |exact Hx];
  repeat (apply Forall_cons; split; [split; [assumption|tauto]|]); apply Forall_nil; exact I.

Lemma free_before base h l p b r fl next :
  heap_inv base h (l ++ p :: b :: r) fl -> b_free p = true -> b_free b = false ->
  b_addr b = b_end p ->
  (next = 0 \/ next <> 0 /\ b_end b <= tail_mem h) ->
  freed base h (l ++ p :: b :: r) b (coalesce_two_blocks_before h (b_addr b) (b_addr p) next).
Proof.
  intros Hi Hpf Hbf Hadj Hnext. pose proof (inv_perm _ _ _ _ Hi) as Hp. destruct Hi as [Hc Hfl Hall].
  assert (Hb : b ∈ l ++ p :: b :: r) by set_solver. assert (Hpin : p ∈ l ++ p :: b :: r) by set_solver.
  pose proof (core_range _ _ _ _ Hc Hb). pose proof (core_hdr _ _ _ _ Hc Hb) as (Hb1 & _).
  pose proof (core_range _ _ _ _ Hc Hpin). pose proof (core_hdr _ _ _ _ Hc Hpin) as (_ & Hp2 & _).
  assert (Hrun : chain (b_addr p) [p; b] (b_end b)) by chain_tac.
  rewrite Hpf in Hp2. unfold coalesce_two_blocks_before.
  set (h0 := if next =? 0 then set_tail_mem h (b_addr p) else h).
  assert (Hm0 : mem h0 = mem h) by (subst h0; by case_bool).
  unfold get_node_btag, n_size, node_size, meta_btag_size. rewrite Hm0, Hb1. wrap_simpl.
  replace (b_addr b + 32 + b_len b) with (b_end b - 8) by (unfold b_end; lia).
  replace (40 + b_len b) with (b_end b - 40 - b_addr p - b_len p) by (unfold b_end in *; lia).
  destruct (merge_run base h h0 l p [b] r (b_end b) fl) as (Hc' & Hl' & Hag & Hbrk); try done.
  - by left.
  - by rewrite Hm0.
  - subst h0; by case_bool.
  - subst h0; by case_bool.
  - subst h0; by case_bool.
  - subst h0. rewrite !map_app, !elem_of_app. cbn.
    destruct Hnext as [->|[Hn Ht]]; [cbn; set_solver|].
    rewrite (proj2 (Z.eqb_neq _ _)) by done. right. right.
    by eapply (tail_right base h l [p; b] r (b_addr p) (b_end b)).
  - eapply (outside_run base h l p [b] r (b_end b)); try done; [apply Hfl|].
    intros c ->%list_elem_of_singleton. by eapply live_not_free.
  - eexists _, fl. split; [by apply inv_intro; [exact Hc'|exact Hl'|];
      rewrite Hp, !free_addrs_app, !free_addrs_cons, Hbf, Hpf|]. split; [|split; [|done]].
    + cbn. rewrite !live_app, !live_cons, Hbf, Hpf. cbn. solve_Permutation.
    + eapply agree_out_weaken; [|exact Hag]. intros x Hx.
      touch_run_tac Hrun Hx.
Qed.

(** Taking a free block off the list keeps everything else. *)
Lemma unlink_spec base h bs fl q n :
  heap_inv base h bs fl -> Block q n true ∈ bs ->
  exists fl', fl ≡ₚ q :: fl' /\ core base (remove_free h q) bs
    /\ flist (remove_free h q) bs fl' /\ spread (q :: fl')
    /\ agree_out (in_links fl) (mem h) (mem (remove_free h q)) /\ same_regs h (remove_free h q).
Proof.
  intros Hi Hq. pose proof (inv_perm _ _ _ _ Hi) as Hp. destruct Hi as [Hc Hfl Hall].
  pose proof (flist_spread _ _ _ _ Hc Hfl) as Hsp.
  assert (Hin : q ∈ fl) by apply (Hall _ Hq eq_refl).
  apply list_elem_of_split in Hin as (f1 & f2 & ->).
  pose proof (remove_free_spec h f1 q f2 (f_links _ _ _ Hfl) Hsp) as (Hl & Hag & Hr).
  exists (f1 ++ f2). split; [solve_Permutation|]. split; [|split; [|split; [|split; [done|done]]]].
  - eapply core_links; [exact Hc|apply (f_free _ _ _ Hfl)|done|done].
  - split; [done| |].
    + destruct Hfl as [_ Hnd _]. rewrite <- Permutation_middle in Hnd. by apply NoDup_cons in Hnd as [_ ?].
    + intros a Ha. apply (f_free _ _ _ Hfl). set_solver.
  - apply spread_app in Hsp as (Hs1 & (Hq0 & Hqf & Hs2) & Hs12). simpl.
    split; [done|]. split.
    + apply Forall_app. split; [|done]. apply Forall_forall. intros a Ha.
      specialize (Hs12 a q Ha ltac:(set_solver)). unfold apart in *. lia.
    + apply spread_app. split; [done|]. split; [done|]. intros. apply Hs12; set_solver.
Qed.

(** The tail update shared by the two cases that absorb the next block [q]:
    the new tail is a block of the merged heap. *)
Lemma absorb_tail base h l run r q lo p merged :
  core base h (l ++ (run ++ [q]) ++ r) -> chain lo (run ++ [q]) (b_end q) ->
  b_addr merged = p ->
  tail_mem (if get_next_mem h (b_addr q) =? 0 then set_tail_mem h p else h)
    ∈ map b_addr (l ++ [merged] ++ r).
Proof.
  intros Hc Hrun <-. rewrite !map_app, !elem_of_app. cbn.
  assert (Hc' : core base h ((l ++ run) ++ q :: r)) by (rewrite <- !app_assoc in *; exact Hc).
  destruct (get_next_spec _ _ _ _ _ Hc') as [[-> _]|(q' & r' & -> & Hq' & -> & Ht)].
  - cbn. set_solver.
  - assert (Hq : q' ∈ (l ++ run) ++ q :: q' :: r') by set_solver.
    pose proof (core_range _ _ _ _ Hc' Hq).
    rewrite (proj2 (Z.eqb_neq _ 0)) by lia. right. right.
    eapply (tail_right base h l (run ++ [q]) (q' :: r') lo (b_end q)); [done|by destruct run|done|lia].
Qed.

Lemma tail_case_regs h (t p : Z) :
  let h' := if t =? 0 then set_tail_mem h p else h in
  mem h' = mem h /\ start_mem h' = start_mem h /\ brk h' = brk h /\ head_free h' = head_free h.
Proof. cbv zeta. by case_bool. Qed.

Lemma free_three base h l p b q r fl :
  heap_inv base h (l ++ p :: b :: q :: r) fl ->
  b_free p = true -> b_free b = false -> b_free q = true ->
  b_addr b = b_end p -> b_addr q = b_end b ->
  freed base h (l ++ p :: b :: q :: r) b (coalesce_three_blocks h (b_addr b) (b_addr p) (b_addr q)).
Proof.
  intros Hi Hpf Hbf Hqf Hpb Hbq. pose proof (inv_perm _ _ _ _ Hi) as Hp.
  set (bs := l ++ p :: b :: q :: r) in *.
  assert (Hb : b ∈ bs) by set_solver. assert (Hpin : p ∈ bs) by set_solver.
  assert (Hq : q ∈ bs) by set_solver.
  assert (Hq' : Block (b_addr q) (b_len q) true ∈ bs) by (destruct q; cbn in *; by subst).
  destruct (unlink_spec _ _ _ _ _ _ Hi Hq') as (fl' & Hfl & Hc & Hfl' & (_ & Hqfl & _) & Hag1 & Hr1).
  destruct Hi as [Hc0 Hfl0 _]. unfold coalesce_three_blocks.
  set (h1 := remove_free h (b_addr q)) in *. destruct Hr1 as (Ht1 & Hs1 & Hb1).
  pose proof (core_range _ _ _ _ Hc Hb). pose proof (core_hdr _ _ _ _ Hc Hb) as (Hbs & _).
  pose proof (core_range _ _ _ _ Hc Hpin). pose proof (core_hdr _ _ _ _ Hc Hpin) as (_ & Hpfl & _).
  pose proof (core_range _ _ _ _ Hc Hq). pose proof (core_hdr _ _ _ _ Hc Hq) as (Hqs & _).
  assert (Hrun : chain (b_addr p) [p; b; q] (b_end q)) by chain_tac.
  rewrite Hpf in Hpfl. set (h2 := if _ =? 0 then _ else _).
  destruct (tail_case_regs h1 (get_next_mem h1 (b_addr q)) (b_addr p)) as (Hm2 & Hs2 & Hb2 & Hh2).
  fold h2 in Hm2, Hs2, Hb2, Hh2.
  unfold get_node_btag, n_size, node_size, meta_btag_size. rewrite Hm2, Hqs, Hbs. wrap_simpl.
  replace (b_addr q + 32 + b_len q) with (b_end q - 8) by (unfold b_end; lia).
  replace (2 * 40 + b_len b + b_len q) with (b_end q - 40 - b_addr p - b_len p) by (unfold b_end in *; lia).
  destruct (merge_run base h1 h2 l p [b; q] r (b_end q) fl') as (Hc' & Hl' & Hag & Hbrk); try done.
  - by left.
  - by rewrite Hm2.
  - eapply (absorb_tail base h1 l [p; b] r q (b_addr p) (b_addr p)); done.
  - eapply (outside_run base h1 l p [b; q] r (b_end q)); try done; [apply Hfl'|].
    intros c Hcin Hcfl. apply elem_of_cons in Hcin as [->| ->%list_elem_of_singleton].
    + by eapply (live_not_free base h1 bs fl' b).
    + apart_facts. lia.
  - eexists _, fl'. split; [apply inv_intro; [exact Hc'|exact Hl'|]|split; [|split; [|congruence]]].
    + apply (Permutation_cons_inv (a := b_addr q)). rewrite <- Hfl, Hp. subst bs.
      rewrite !free_addrs_app, !free_addrs_cons, Hbf, Hpf, Hqf. cbn. solve_Permutation.
    + subst bs. cbn. rewrite !live_app, !live_cons, Hbf, Hpf, Hqf. cbn. solve_Permutation.
    + eapply agree_out_weaken; [|eapply agree_out_trans; [exact Hag1|exact Hag]]. intros x [Hx|Hx].
      * destruct Hc0 as [Hch _ _ _ _ _]. eapply touch_links; [done|apply (f_free _ _ _ Hfl0)|done].
      * touch_run_tac Hrun Hx.
Qed.

Lemma free_after base h l b q r fl :
  heap_inv base h (l ++ b :: q :: r) fl ->
  b_free b = false -> b_free q = true -> b_addr q = b_end b ->
  freed base h (l ++ b :: q :: r) b (coalesce_two_blocks_after h (b_addr b) (b_addr q)).
Proof.
  intros Hi Hbf Hqf Hbq. pose proof (inv_perm _ _ _ _ Hi) as Hp.
  set (bs := l ++ b :: q :: r) in *.
  assert (Hb : b ∈ bs) by set_solver. assert (Hq : q ∈ bs) by set_solver.
  assert (Hq' : Block (b_addr q) (b_len q) true ∈ bs) by (destruct q; cbn in *; by subst).
  destruct (unlink_spec _ _ _ _ _ _ Hi Hq') as (fl' & Hfl & Hc & Hfl' & (_ & Hqfl & _) & Hag1 & Hr1).
  destruct Hi as [Hc0 Hfl0 _]. unfold coalesce_two_blocks_after.
  set (h1 := remove_free h (b_addr q)) in *. destruct Hr1 as (Ht1 & Hs1 & Hb1).
  pose proof (core_range _ _ _ _ Hc Hb). pose proof (core_hdr _ _ _ _ Hc Hb) as (Hbs & _).
  pose proof (core_range _ _ _ _ Hc Hq). pose proof (core_hdr _ _ _ _ Hc Hq) as (Hqs & _).
  assert (Hrun : chain (b_addr b) [b; q] (b_end q)) by chain_tac.
  set (h2 := if _ =? 0 then _ else _).
  destruct (tail_case_regs h1 (get_next_mem h1 (b_addr q)) (b_addr b)) as (Hm2 & Hs2 & Hb2 & Hh2).
  fold h2 in Hm2, Hs2, Hb2, Hh2. set (h3 := set_is_free h2 (b_addr b) 1).
  assert (Hm3 : mem h3 = st8 (mem h1) (b_addr b + 8) 1) by (cbn; by rewrite Hm2).
  assert (Hqs3 : ld64 (mem h3) (b_addr q) = b_len q) by (unfold b_end in Hbq; rewrite Hm3; by mem_simpl).
  unfold get_node_btag, n_size, node_size, meta_btag_size. rewrite Hqs3. wrap_simpl.
  replace (b_addr q + 32 + b_len q) with (b_end q - 8) by (unfold b_end; lia).
  replace (40 + b_len q) with (b_end q - 40 - b_addr b - b_len b) by (unfold b_end in *; lia).
  destruct (merge_run base h1 h3 l b [q] r (b_end q) fl') as (Hc' & Hl' & Hag & Hbrk); try done.
  - by right.
  - rewrite Hm3. by mem_simpl.
  - eapply (absorb_tail base h1 l [b] r q (b_addr b) (b_addr b)); done.
  - eapply (outside_run base h1 l b [q] r (b_end q)); try done; [apply Hfl'|].
    intros c ->%list_elem_of_singleton Hcfl. apart_facts. lia.
  - set (h4 := update_node_size _ _ _ _) in *. set (merged := Block _ _ _) in Hc'.
    pose proof (live_not_free base h1 bs fl' b Hc Hfl' Hb Hbf) as Hnot.
    assert (Hp' : b_addr b :: fl' ≡ₚ free_addrs (l ++ [merged] ++ r)).
    { apply (Permutation_cons_inv (a := b_addr q)).
      rewrite perm_swap, <- Hfl, Hp. subst bs.
      rewrite !free_addrs_app, !free_addrs_cons, Hbf, Hqf. cbn. solve_Permutation. }
    assert (Hall : forall a, a ∈ b_addr b :: fl' -> exists n, Block a n true ∈ l ++ [merged] ++ r).
    { intros a. by rewrite Hp', elem_of_free_addrs. }
    destruct (insert_freed base h4 (l ++ [merged] ++ r) fl' (b_addr b) (b_len merged)) as (Hi5 & Hag5 & Hbrk5).
    + done.
    + split; [done|apply Hfl'|]. intros; apply Hall; set_solver.
    + subst merged. set_solver.
    + done.
    + intros [a n f] Hin Hf. cbn in *. subst f. rewrite Hp', elem_of_free_addrs. eauto.
    + eexists _, (b_addr b :: fl'). split; [exact Hi5|]. split; [|split; [|congruence]].
      * subst bs. cbn. rewrite !live_app, !live_cons, Hbf, Hqf. cbn. solve_Permutation.
      * eapply agree_out_weaken; [|eapply agree_out_trans; [eapply agree_out_trans; [exact Hag1|exact Hag]|exact Hag5]].
        destruct Hc0 as [Hch _ _ _ _ _].
        intros x [[Hx|Hx]|(a & Ha & Hx)].
        -- eapply touch_links; [done|apply (f_free _ _ _ Hfl0)|done].
        -- touch_run_tac Hrun Hx.
        -- apply elem_of_cons in Ha as [->|Ha].
           ++ exists b. split; [done|]. split; [by right|]. unfold b_end. lia.
           ++ eapply touch_links; [done|apply (f_free _ _ _ Hfl')|by exists a].
Qed.

(** The guards [free] computes on a neighbour of a live block. *)
Lemma is_free_flag base h bs b :
  core base h bs -> b ∈ bs -> negb (n_is_free h (b_addr b) =? 0) = b_free b.
Proof.
  intros Hc Hb. destruct (core_hdr _ _ _ _ Hc Hb) as (_ & Hf & _).
  unfold n_is_free. rewrite Hf. by destruct (b_free b).
Qed.

Lemma free_block base h bs fl b :
  heap_inv base h bs fl -> b ∈ bs -> b_free b = false ->
  freed base h bs b (free h (b_addr b + 32)).
Proof.
  intros Hi Hb Hbf. pose proof (i_core _ _ _ _ Hi) as Hc.
  pose proof (core_range _ _ _ _ Hc Hb) as Hr. unfold free, node_size.
  rewrite (proj2 (Z.eqb_neq (b_addr b + 32) 0)) by lia. wrap_simpl.
  replace (b_addr b + 32 - 32) with (b_addr b) by lia. cbv zeta.
  rewrite (is_free_flag _ _ _ _ Hc Hb), Hbf.
  apply list_elem_of_split in Hb as (l & r & ->).
  pose proof (core_start _ _ _ b Hc ltac:(set_solver)) as Hs.
  assert (Hprev : exists pv, get_prev_mem h (b_addr b) = pv /\
     (negb (pv =? 0) && (start_mem h <=? pv) && negb (n_is_free h pv =? 0) = false
      \/ exists l' p, l = l' ++ [p] /\ b_addr b = b_end p /\ pv = b_addr p /\ b_free p = true
         /\ negb (pv =? 0) && (start_mem h <=? pv) && negb (n_is_free h pv =? 0) = true)).
  { eexists; split; [done|].
    destruct (get_prev_spec _ _ _ _ _ Hc) as [[-> ->]|(l' & p & -> & Hadj & ->)]; [by left|].
    assert (Hp : p ∈ (l' ++ [p]) ++ b :: r) by set_solver.
    pose proof (core_range _ _ _ _ Hc Hp). rewrite (is_free_flag _ _ _ _ Hc Hp), Hs.
    destruct (b_free p) eqn:Ep; [right|left; by rewrite andb_false_r].
    exists l', p. rewrite (proj2 (Z.eqb_neq _ 0)), (proj2 (Z.leb_le _ _)) by lia. done. }
  assert (Hnext : exists nx, get_next_mem h (b_addr b) = nx /\
     (negb (nx =? 0) && (nx <=? tail_mem h) && negb (n_is_free h nx =? 0) = false
        /\ (nx = 0 \/ nx <> 0 /\ b_end b <= tail_mem h)
      \/ exists q r', r = q :: r' /\ b_addr q = b_end b /\ nx = b_addr q /\ b_free q = true
         /\ negb (nx =? 0) && (nx <=? tail_mem h) && negb (n_is_free h nx =? 0) = true)).
  { eexists; split; [done|].
    destruct (get_next_spec _ _ _ _ _ Hc) as [[-> ?]|(q & r' & -> & Hadj & -> & Ht)]; [left; auto|].
    assert (Hq : q ∈ l ++ b :: q :: r') by set_solver.
    pose proof (core_range _ _ _ _ Hc Hq). rewrite (is_free_flag _ _ _ _ Hc Hq).
    rewrite (proj2 (Z.eqb_neq _ 0)), (proj2 (Z.leb_le _ _)) by lia.
    destruct (b_free q) eqn:Eq; [right; by exists q, r'|left]. split; [done|right; lia]. }
  destruct Hprev as (pv & -> & [->|(l' & p & -> & Hpb & -> & Hpf & ->)]),
    Hnext as (nx & -> & [[-> Hnx]|(q & r' & -> & Hbq & -> & Hqf & ->)]); cbn [andb].
  - by eapply free_plain.
  - by eapply free_after.
  - rewrite <- app_assoc in *. by eapply free_before.
  - rewrite <- app_assoc in *. by eapply free_three.
Qed.
