(* ===== verification/MallocSpec.v ===== *)
(** * Correctness of the allocator's entry points

    [malloc], [calloc], [free] and [realloc] against the abstract heap of
    MallocInv.v. *)

From S2P Require Import Prelude CMem Malloc MallocInv.

Implicit Types (fl : list Z) (h : heap).

(** ** [malloc] *)

(** First fit: the walk stops at the first node big enough, or at 0; a fuel
    larger than the list suffices. *)
Lemma malloc_walk_spec h size l fuel :
  nexts (mem h) l 0 -> (forall a, a ∈ l -> a <> 0) -> (length l < fuel)%nat ->
  exists w, malloc_walk fuel h size (hd0 0 l) = Done w
    /\ ((w = 0 /\ forall x, x ∈ l -> n_size h x < size)
        \/ exists l1 l2, l = l1 ++ w :: l2 /\ size <= n_size h w
             /\ forall x, x ∈ l1 -> n_size h x < size).
Proof.
  revert fuel. induction l as [|a l IH]; intros [|fuel] Hn H0 Hf; simpl in *; try lia.
  - exists 0. split; [done|left; split; [done|set_solver]].
  - rewrite (proj2 (Z.eqb_neq a 0)) by (apply H0; set_solver).
    destruct Hn as [Hn1 Hn2]. destruct (size <=? n_size h a) eqn:E; bool_to_prop.
    + exists a. split; [done|]. right. exists [], l. split; [done|]. split; [done|set_solver].
    + unfold n_next. rewrite Hn1. destruct (IH fuel) as (w & Hw & Hcase); [done|set_solver|lia|].
      exists w. split; [exact Hw|]. destruct Hcase as [[-> Hall]|(l1 & l2 & -> & Hsz & Hall)].
      * left. split; [done|]. intros x [->|Hx]%elem_of_cons; [done|by apply Hall].
      * right. exists (a :: l1), l2. split; [done|]. split; [done|].
        intros x [->|Hx]%elem_of_cons; [done|by apply Hall].
Qed.

Lemma set_is_free_used base h bs fl l b r :
  core base h bs -> flist h bs fl -> bs = l ++ b :: r -> b_addr b ∉ fl ->
  let h' := set_is_free h (b_addr b) 0 in
  let bs' := l ++ Block (b_addr b) (b_len b) false :: r in
  core base h' bs' /\ links_ok (mem h') (head_free h') fl
  /\ agree_out (fun x => b_addr b <= x < b_end b) (mem h) (mem h') /\ brk h' = brk h.
Proof.
  intros Hc Hfl -> Hnot h' bs'.
  assert (Hb : b ∈ l ++ b :: r) by set_solver.
  pose proof (core_range _ _ _ _ Hc Hb). pose proof (core_hdr _ _ _ _ Hc Hb) as (H1 & _ & H3).
  assert (Hag : agree_out (fun x => b_addr b <= x < b_end b) (mem h) (mem h')).
  { intros x Hx. unfold b_end in Hx. cbn. by rewrite st8_ne by lia. }
  split; [|split; [|done]].
  - eapply (core_replace base h h' l [b] [_] r (b_addr b) (b_end b)); try done.
    + chain_tac.
    + chain_tac.
    + apply Forall_singleton. unfold hdr_ok. cbn. mem_simpl. done.
    + destruct (core_tail _ _ _ _ Hc Hb) as (c & Hin & Ht). cbn. rewrite Ht.
      rewrite map_app, elem_of_app. cbn. set_solver.
  - eapply links_ext; [|apply Hfl]. intros a Ha. destruct Hfl as [_ _ Hfl].
    destruct (Hfl a Ha) as [n Hn]. destruct Hc as [Hch _ _ _ _ _].
    assert (Block a n true <> b) by (intros <-; done).
    pose proof (chain_in _ _ _ _ Hch Hn).
    destruct (chain_pair _ _ _ _ _ Hch Hb Hn) as [?|?]; [congruence|].
    unfold b_end in *. cbn in *. by mem_simpl.
Qed.

Lemma n_size_written h p n f :
  0 <= n < 18446744073709551616 -> n_size (set_is_free (set_size h p n) p f) p = n.
Proof. intros. unfold n_size. cbn. by mem_simpl. Qed.

(** The memory image [alloc_free_split] leaves before it links the new node. *)
Definition split_mem (m : memory) (node len size : Z) : memory :=
  let ex := node + 40 + size in
  let n2 := len - 40 - size in
  st64 (st8 (st64 (st64 (st8 (st64 m ex n2) (ex + 8) 1) (node + 32 + len) n2) node size)
          (node + 8) 0) (node + 32 + size) size.

Lemma alloc_free_split_eq h size node len :
  n_size h node = len -> 0 < size -> 40 + size < len -> 0 < node ->
  node + 40 + len < 9223372036854775808 ->
  alloc_free_split h size node =
    insert_free (Heap (split_mem (mem h) node len size) (head_free h)
                   (if tail_mem h <? node + 40 + size then node + 40 + size else tail_mem h)
                   (start_mem h) (brk h)) (node + 40 + size).
Proof.
  intros Hs ? ? ? ?. unfold alloc_free_split, meta_btag_size, node_size. cbv zeta.
  rewrite Hs. wrap_simpl. rewrite !n_size_written by lia. wrap_simpl. unfold split_mem.
  replace (node + 40 + size + 32 + (len - 40 - size)) with (node + 32 + len) by lia.
  cbn. by destruct (tail_mem h <? node + 40 + size).
Qed.

(** Splitting: the front part keeps [size] bytes, the rest is a new free block. *)
Lemma alloc_free_split_spec base h l b r fl size :
  core base h (l ++ b :: r) -> flist h (l ++ b :: r) fl -> b_addr b ∉ fl ->
  0 < size -> 40 + size < b_len b -> fl ≡ₚ free_addrs (l ++ r) ->
  let h' := alloc_free_split h size (b_addr b) in
  let extra := Block (b_addr b + 40 + size) (b_len b - 40 - size) true in
  let bs' := l ++ [Block (b_addr b) size false; extra] ++ r in
  heap_inv base h' bs' (b_addr extra :: fl)
  /\ agree_out (fun x => b_addr b <= x < b_end b \/ in_links fl x) (mem h) (mem h')
  /\ brk h' = brk h.
Proof.
  intros Hc Hfl Hnot Hsize Hlen Hp h' extra bs'.
  assert (Hb : b ∈ l ++ b :: r) by set_solver.
  pose proof (core_range _ _ _ _ Hc Hb). pose proof (core_hdr _ _ _ _ Hc Hb) as (H1 & _ & H3).
  subst h'. rewrite (alloc_free_split_eq _ _ _ (b_len b)) by (done || lia).
  set (h1 := Heap _ _ _ _ _). set (ex := b_addr b + 40 + size).
  assert (Hag : agree_out (fun x => b_addr b <= x < b_end b) (mem h) (mem h1)).
  { intros x Hx. unfold b_end in Hx. cbn. unfold split_mem.
    rewrite !st64_ne, !st8_ne, !st64_ne, st8_ne, st64_ne by lia. done. }
  assert (Hc1 : core base h1 bs').
  { eapply (core_replace base h h1 l [b] [_; _] r (b_addr b) (b_end b)); try done.
    - chain_tac.
    - chain_tac.
    - repeat (apply Forall_cons; split); [..|by apply Forall_nil]; unfold hdr_ok; cbn; unfold split_mem;
        (split; [by mem_simpl|]); (split; [by mem_simpl|]); try by mem_simpl.
      replace (b_addr b + 40 + size + 32 + (b_len b - 40 - size)) with (b_addr b + 32 + b_len b) by lia.
      by mem_simpl.
    - destruct (core_tail _ _ _ _ Hc Hb) as (c & Hin & Ht). cbn.
      rewrite map_app, elem_of_app. cbn. fold ex. case_bool; [set_solver|]. rewrite Ht. set_solver. }
  assert (Hl1 : links_ok (mem h1) (head_free h1) fl).
  { eapply links_ext; [|apply Hfl]. intros a Ha. destruct Hfl as [_ _ Hfl].
    destruct (Hfl a Ha) as [n Hn]. destruct Hc as [Hch _ _ _ _ _].
    assert (Block a n true <> b) by (intros <-; done). pose proof (chain_in _ _ _ _ Hch Hn).
    destruct (chain_pair _ _ _ _ _ Hch Hb Hn) as [?|Hd]; [congruence|].
    assert (Hd' : forall x, a + 16 <= x < a + 32 -> ~ (b_addr b <= x < b_end b))
      by (unfold b_end in *; cbn in *; lia).
    split; apply (agree_out_ld64 _ _ _ _ Hag); intros; apply Hd'; lia. }
  assert (Hp1 : ex :: fl ≡ₚ free_addrs bs').
  { rewrite Hp. subst bs'. cbn. rewrite !free_addrs_app, !free_addrs_cons. cbn. solve_Permutation. }
  assert (Hall1 : forall a, a ∈ ex :: fl -> exists n, Block a n true ∈ bs').
  { intros a. by rewrite Hp1, elem_of_free_addrs. }
  assert (Hnd : NoDup (ex :: fl)) by (rewrite Hp1; destruct Hc1; by eapply free_addrs_nodup).
  destruct (insert_freed base h1 bs' fl ex (b_len extra)) as (Hi2 & Hag2 & Hbrk); [done|..].
  - split; [done|apply Hfl|]. intros; apply Hall1; set_solver.
  - subst bs' extra. set_solver.
  - by apply NoDup_cons in Hnd as [? _].
  - intros [a n f] Hin Hf. cbn in *. subst f. rewrite Hp1, elem_of_free_addrs. eauto.
  - split; [exact Hi2|]. split; [|exact Hbrk].
    eapply agree_out_weaken; [|eapply agree_out_trans; [exact Hag|exact Hag2]].
    intros x [Hx|(a & Ha & Hx)]; [by left|]. apply elem_of_cons in Ha as [->|Ha]; [|right; by exists a].
    left. subst ex. unfold b_end. lia.
Qed.

(** Bytes an allocation may touch: free blocks and memory above the break. *)
Definition malloc_touch (h : heap) (bs : list block) (x : Z) : Prop :=
  (exists c, c ∈ bs /\ b_free c = true /\ b_addr c <= x < b_end c) \/ brk h <= x.

(** What a successful allocation promises: a new live block [b'] of at least
    [size] and less than [size + 65576] bytes, whose payload is returned; every
    other live block is untouched, and only free memory was written. *)
Definition malloced (base : Z) (h : heap) (bs : list block) (size p : Z) (h' : heap) : Prop :=
  exists bs' fl' b', heap_inv base h' bs' fl' /\ live bs' ≡ₚ b' :: live bs
    /\ p = b_addr b' + 32 /\ size <= b_len b' < size + 40 + SPLIT_TRESHOLD
    /\ agree_out (malloc_touch h bs) (mem h) (mem h').

Lemma touch_free_links base bs e fl h x :
  chain base bs e -> (forall a, a ∈ fl -> exists n, Block a n true ∈ bs) ->
  in_links fl x -> malloc_touch h bs x.
Proof.
  intros Hc Hfl (a & Ha & Hx). destruct (Hfl a Ha) as [n Hn]. left.
  exists (Block a n true). pose proof (chain_in _ _ _ _ Hc Hn). unfold b_end. cbn in *.
  split; [done|]. split; [done|lia].
Qed.

Lemma alloc_free_spec base h l b r fl size :
  core base h (l ++ b :: r) -> flist h (l ++ b :: r) fl -> b_addr b ∉ fl ->
  0 < size <= b_len b -> fl ≡ₚ free_addrs (l ++ r) ->
  let p := (alloc_free h size (b_addr b)).1 in
  let h' := (alloc_free h size (b_addr b)).2 in
  exists mid fl' n, heap_inv base h' (l ++ mid ++ r) fl'
    /\ live mid = [Block (b_addr b) n false] /\ size <= n < size + 40 + SPLIT_TRESHOLD
    /\ p = b_addr b + 32
    /\ agree_out (fun x => b_addr b <= x < b_end b \/ in_links fl x) (mem h) (mem h').
Proof.
  intros Hc Hfl Hnot Hsize Hp p h'. subst p h'. unfold alloc_free, meta_btag_size, SPLIT_TRESHOLD.
  assert (Hb : b ∈ l ++ b :: r) by set_solver.
  pose proof (core_range _ _ _ _ Hc Hb). pose proof (core_hdr _ _ _ _ Hc Hb) as (H1 & _).
  cbn [fst snd]. unfold n_size, node_size. rewrite H1. wrap_simpl.
  destruct (40 + size + 65536 <=? b_len b) eqn:E; bool_to_prop.
  - destruct (alloc_free_split_spec base h l b r fl size) as (Hi & Hag & Hbrk); [done..|lia|lia|done|].
    set (h1 := alloc_free_split h size (b_addr b)) in *.
    set (bl := Block (b_addr b) size false) in *. set (ex := Block _ (_ - size) _) in *.
    pose proof (inv_perm _ _ _ _ Hi) as Hp1. destruct Hi as [Hc1 Hf1 _].
    assert (Hbl : bl ∈ l ++ bl :: ex :: r) by set_solver.
    destruct (set_is_free_used base h1 _ _ l bl (ex :: r) Hc1 Hf1 eq_refl) as (Hc2 & Hl2 & Hag2 & Hbrk2).
    { by eapply live_not_free. }
    exists [bl; ex], (b_addr ex :: fl), size.
    split; [by apply inv_intro|]. split; [done|]. split; [lia|]. split; [done|].
    eapply agree_out_weaken; [|eapply agree_out_trans; [exact Hag|exact Hag2]].
    intros x [?|Hx]; [done|]. left. unfold b_end in *. cbn in Hx. lia.
  - destruct (set_is_free_used base h _ _ l b r Hc Hfl eq_refl Hnot) as (Hc2 & Hl2 & Hag2 & Hbrk2).
    exists [Block (b_addr b) (b_len b) false], fl, (b_len b).
    split; [apply inv_intro; [done|done|]|].
    { rewrite Hp, !free_addrs_app. done. }
    split; [done|]. split; [lia|]. split; [done|].
    eapply agree_out_weaken; [|exact Hag2]. tauto.
Qed.

(** ** Payloads *)

Definition in_payload (b : block) (x : Z) : Prop := b_addr b + 32 <= x < b_addr b + 32 + b_len b.

Lemma elem_of_live b bs : b ∈ live bs <-> b ∈ bs /\ b_free b = false.
Proof. unfold live. rewrite list_elem_of_filter. tauto. Qed.

(** Writing the payload of a live block keeps the heap well formed. *)
Lemma payload_write base h bs fl b m' :
  heap_inv base h bs fl -> b ∈ live bs -> agree_out (in_payload b) (mem h) m' ->
  heap_inv base (set_mem h m') bs fl.
Proof.
  intros Hi [Hb Hbf]%elem_of_live Hag. pose proof (inv_perm _ _ _ _ Hi) as Hp.
  destruct Hi as [Hc Hfl _]. pose proof (core_base _ _ _ Hc) as Hbase.
  destruct Hc as [Hch Hhdr Hst Htl Hlow Hbrk]. pose proof (chain_in _ _ _ _ Hch Hb) as Hbr.
  apply inv_intro; [split; cbn|cbn|done]; try done.
  - rewrite Forall_forall in *. intros c Hcin. pose proof (chain_in _ _ _ _ Hch Hcin) as Hcr.
    unfold in_payload in Hag. unfold b_end in *.
    eapply hdr_ok_frame; [exact Hag|..|by apply Hhdr]; unfold b_end; intros x Hx;
      destruct (chain_pair _ _ _ _ _ Hch Hb Hcin) as [->|Hd]; unfold b_end in *; lia.
  - unfold b_end, in_payload in *. rewrite (agree_out_ld64 _ _ _ _ Hag); [done|]. intros; lia.
  - eapply links_ext; [|apply Hfl]. intros a Ha. destruct (f_free _ _ _ Hfl a Ha) as [n Hn].
    pose proof (chain_in _ _ _ _ Hch Hn) as Hr. unfold in_payload, b_end in *. cbn in *.
    destruct (chain_pair _ _ _ _ _ Hch Hb Hn) as [->|Hd]; [done|]. unfold b_end in Hd. cbn in Hd.
    split; apply (agree_out_ld64 _ _ _ _ Hag); intros; lia.
Qed.

(** Allocation and release leave the payload of every other live block alone. *)
Lemma malloc_keeps base h bs fl m' b x :
  heap_inv base h bs fl -> b ∈ live bs -> in_payload b x ->
  agree_out (malloc_touch h bs) (mem h) m' -> m' x = mem h x.
Proof.
  intros Hi [Hb Hbf]%elem_of_live Hx Hag. apply Hag.
  destruct (i_core _ _ _ _ Hi) as [Hch _ _ _ _ _]. pose proof (chain_in _ _ _ _ Hch Hb).
  unfold in_payload, b_end in *. intros [(c & Hcin & Hcf & Hcx)|?]; [|lia].
  pose proof (chain_in _ _ _ _ Hch Hcin). unfold b_end in *.
  destruct (chain_pair _ _ _ _ _ Hch Hb Hcin) as [->|Hd]; [congruence|]. unfold b_end in Hd. lia.
Qed.

Lemma free_keeps base h bs fl m' b c x :
  heap_inv base h bs fl -> b ∈ bs -> c ∈ live bs -> c <> b -> in_payload c x ->
  agree_out (free_touch bs b) (mem h) m' -> m' x = mem h x.
Proof.
  intros Hi Hb [Hc Hcf]%elem_of_live Hne Hx Hag. apply Hag.
  destruct (i_core _ _ _ _ Hi) as [Hch _ _ _ _ _]. pose proof (chain_in _ _ _ _ Hch Hc).
  unfold in_payload, b_end in *. intros (d & Hdin & Hdf & Hdx).
  pose proof (chain_in _ _ _ _ Hch Hdin). unfold b_end in *.
  destruct (chain_pair _ _ _ _ _ Hch Hc Hdin) as [->|Hd].
  - destruct Hdf as [?|?]; congruence.
  - unfold b_end in Hd. lia.
Qed.

(** Two different live blocks have disjoint payloads, inside the heap. *)
Lemma live_disjoint base h bs fl b c x :
  heap_inv base h bs fl -> b ∈ live bs -> c ∈ live bs -> in_payload b x -> in_payload c x -> b = c.
Proof.
  intros Hi [Hb _]%elem_of_live [Hc _]%elem_of_live Hx Hy.
  destruct (i_core _ _ _ _ Hi) as [Hch _ _ _ _ _]. unfold in_payload in *.
  pose proof (chain_in _ _ _ _ Hch Hb). pose proof (chain_in _ _ _ _ Hch Hc).
  destruct (chain_pair _ _ _ _ _ Hch Hb Hc) as [?|Hd]; [done|]. unfold b_end in *. lia.
Qed.

Lemma chain_cover a bs e x :
  chain a bs e -> a <= x < e -> exists c, c ∈ bs /\ b_addr c <= x < b_end c.
Proof.
  revert a. induction bs as [|b bs IH]; intros a Hc Hx; cbn in Hc; [lia|].
  destruct Hc as (<- & Hlen & Hc). destruct (decide (x < b_end b)).
  - exists b. split; [set_solver|lia].
  - destruct (IH _ Hc ltac:(lia)) as (c & ? & ?). exists c. set_solver.
Qed.

Lemma chain_nodup a bs e : chain a bs e -> NoDup bs.
Proof.
  revert a. induction bs as [|b bs IH]; intros a; cbn; [constructor|].
  intros (<- & Hlen & Hc). constructor; [|by eapply IH].
  intros Hb. apply (chain_in _ _ _ _ Hc) in Hb. unfold b_end in Hb. lia.
Qed.

(** The block an allocation hands out lies in memory that was free. *)
Lemma new_block_fresh base h bs fl h' bs' fl' b x :
  heap_inv base h bs fl -> heap_inv base h' bs' fl' -> live bs' ≡ₚ b :: live bs ->
  b_addr b <= x < b_end b -> malloc_touch h bs x.
Proof.
  intros Hi Hi' Hlv Hx. assert (Hb : b ∈ live bs') by (rewrite Hlv; set_solver).
  destruct (i_core _ _ _ _ Hi) as [Hch _ _ _ _ _], (i_core _ _ _ _ Hi') as [Hch' _ _ _ _ _].
  pose proof (proj1 (proj1 (elem_of_live _ _) Hb)) as Hbin.
  pose proof (chain_in _ _ _ _ Hch' Hbin).
  destruct (decide (brk h <= x)); [by right|].
  destruct (chain_cover _ _ _ x Hch) as (c & Hcin & Hcx); [lia|].
  destruct (b_free c) eqn:Ef; [left; by exists c|]. exfalso.
  assert (Hc : c ∈ live bs) by by apply elem_of_live.
  assert (Hc' : c ∈ bs') by (eapply elem_of_live; rewrite Hlv; set_solver).
  destruct (chain_pair _ _ _ _ _ Hch' Hbin Hc') as [->|Hd].
  - assert (Hnd : NoDup (live bs')) by (apply NoDup_filter; by eapply chain_nodup).
    rewrite Hlv in Hnd. apply NoDup_cons in Hnd as [? _]. done.
  - unfold b_end in *. lia.
Qed.

(** Filling the payload of a freshly allocated block. *)
Lemma malloced_fill base h bs fl size p h1 m' :
  heap_inv base h bs fl -> malloced base h bs size p h1 ->
  agree_out (fun x => p <= x < p + size) (mem h1) m' ->
  malloced base h bs size p (set_mem h1 m').
Proof.
  intros Hi (bs' & fl' & b' & Hi' & Hlv & -> & Hlen & Hag) Hm.
  assert (Hb' : b' ∈ live bs') by (rewrite Hlv; set_solver).
  exists bs', fl', b'. split; [|split; [done|split; [done|split; [done|]]]].
  - eapply payload_write; [done|exact Hb'|]. eapply agree_out_weaken; [|exact Hm].
    unfold in_payload. intros; lia.
  - cbn. intros x Hx. rewrite Hm; [by apply Hag|]. intros Hin. apply Hx.
    eapply new_block_fresh; [done|exact Hi'|done|]. unfold b_end. lia.
Qed.

Lemma init_inv base m :
  40 <= base < 9223372036854775808 -> 0 <= ld64 m (base - 8) <= base - 40 ->
  heap_inv base (Heap m 0 0 0 base) [] [].
Proof. intros. apply inv_intro; [split; cbn; try done; lia|done|done]. Qed.

Section Sbrk.

Variable sbrk : Z -> Z -> option Z.

(** The kernel's contract: a granted request moves the break up by exactly the
    increment, and addresses stay below 2^63. *)
Hypothesis sbrk_spec : forall b i b',
  sbrk b i = Some b' -> 0 < i -> b' = b + i /\ b' < 9223372036854775808.

(** The memory image of a block carved from fresh memory. *)
Definition new_mem (m : memory) (node size : Z) : memory :=
  st64 (st8 (st64 (st64 (st64 m (node + 24) 0) (node + 16) 0) node size) (node + 8) 0)
    (node + 32 + size) size.

Lemma alloc_new_eq h size b' :
  0 < size < 4611686018427387904 -> 0 < brk h < 9223372036854775808 ->
  sbrk (brk h) (40 + size) = Some b' ->
  alloc_new sbrk h size =
    (brk h + 32,
     Heap (new_mem (mem h) (brk h) size) (head_free h)
       (if tail_mem h =? 0 then brk h else tail_mem h)
       (if start_mem h =? 0 then brk h else start_mem h) b').
Proof.
  intros ? ? Hs. unfold alloc_new, meta_btag_size, node_size. wrap_simpl. rewrite Hs. cbv zeta.
  rewrite n_size_written by lia. wrap_simpl. f_equal. cbn.
  by destruct (start_mem h =? 0); cbn; destruct (tail_mem h =? 0).
Qed.

Lemma alloc_new_core base h bs size :
  core base h bs -> 0 < size -> brk h + 40 + size < 9223372036854775808 ->
  let h' := Heap (new_mem (mem h) (brk h) size) (head_free h)
              (if tail_mem h =? 0 then brk h else tail_mem h)
              (if start_mem h =? 0 then brk h else start_mem h) (brk h + 40 + size) in
  core base h' (bs ++ [Block (brk h) size false])
  /\ agree_out (fun x => brk h <= x) (mem h) (mem h').
Proof.
  intros Hc Hsize Hmax h'. pose proof (core_base _ _ _ Hc) as Hbase.
  destruct Hc as [Hch Hhdr Hst Htl Hlow Hbrk]. pose proof (chain_bounds _ _ _ Hch) as [Hle Hall].
  rewrite Forall_forall in Hall.
  assert (Hag : agree_out (fun x => brk h <= x) (mem h) (mem h')).
  { intros x Hx. cbn. unfold new_mem. rewrite st64_ne, st8_ne, !st64_ne by lia. done. }
  split; [|done]. split.
  - apply chain_app. exists (brk h). split; [done|]. cbn. unfold b_end. cbn. lia.
  - apply Forall_app. split.
    + apply Forall_forall. intros c Hcin. rewrite Forall_forall in Hhdr.
      specialize (Hall c Hcin). unfold b_end in Hall.
      eapply hdr_ok_frame; [exact Hag|..|by apply Hhdr]; unfold b_end; intros; lia.
    + apply Forall_singleton. unfold hdr_ok. cbn. unfold new_mem.
      split; [by mem_simpl|]. split; by mem_simpl.
  - cbn. rewrite Hst. destruct bs; cbn in *; [done|].
    by rewrite (proj2 (Z.eqb_neq base 0)) by lia.
  - rewrite map_app. cbn. destruct bs as [|b0 bs0]; [rewrite Htl; cbn; set_solver|].
    apply list_elem_of_fmap in Htl as (c & -> & Hcin). pose proof (Hall c Hcin).
    rewrite (proj2 (Z.eqb_neq (b_addr c) 0)) by lia.
    apply elem_of_app. left. apply list_elem_of_fmap. eauto.
  - rewrite (agree_out_ld64 _ _ _ _ Hag); [done|]. intros; lia.
  - done.
Qed.

Lemma alloc_new_spec base h bs fl size :
  heap_inv base h bs fl -> 0 < size < 4611686018427387904 ->
  let p := (alloc_new sbrk h size).1 in
  let h' := (alloc_new sbrk h size).2 in
  (sbrk (brk h) (40 + size) = None /\ p = 0 /\ h' = h) \/ malloced base h bs size p h'.
Proof.
  intros Hi Hsize p h'. subst p h'. pose proof (inv_perm _ _ _ _ Hi) as Hp.
  destruct Hi as [Hc Hfl _]. pose proof (core_base _ _ _ Hc) as Hbase.
  pose proof Hc as [Hch _ _ _ _ Hbrk]. pose proof (chain_bounds _ _ _ Hch) as [Hle _].
  destruct (sbrk (brk h) (40 + size)) as [b'|] eqn:Esb; [right|left].
  2: { unfold alloc_new, meta_btag_size. wrap_simpl. by rewrite Esb. }
  rewrite (alloc_new_eq h size b') by (done || lia). cbn [fst snd].
  destruct (sbrk_spec _ _ _ Esb ltac:(lia)) as [-> Hmax]. rewrite Z.add_assoc in *.
  destruct (alloc_new_core base h bs size) as [Hc' Hag]; [done|lia|lia|].
  eexists (bs ++ [_]), fl, _. split; [apply inv_intro; [exact Hc'|..]|].
  - eapply links_ext; [|apply Hfl]. intros a Ha. destruct (f_free _ _ _ Hfl a Ha) as [n Hn].
    pose proof (chain_in _ _ _ _ Hch Hn) as Hr. unfold b_end in Hr. cbn in Hr.
    split; apply (agree_out_ld64 _ _ _ _ Hag); intros; lia.
  - by rewrite Hp, free_addrs_app, app_nil_r.
  - split; [rewrite live_app; cbn; solve_Permutation|]. split; [done|].
    split; [cbn; unfold SPLIT_TRESHOLD; lia|].
    eapply agree_out_weaken; [|exact Hag]. intros x Hx. by right.
Qed.

(** [malloc] on a well-formed heap returns (a fuel larger than the free list is
    enough), and either reports that the kernel refused to grow the heap and no
    free block fits, or hands out a fresh block. *)
Lemma malloc_block base h bs fl size fuel :
  heap_inv base h bs fl -> 0 < size < 4611686018427387904 -> (length fl < fuel)%nat ->
  exists p h', malloc sbrk fuel h size = Done (p, h')
    /\ ((p = 0 /\ h' = h /\ sbrk (brk h) (40 + size) = None
         /\ forall c, c ∈ bs -> b_free c = true -> b_len c < size)
        \/ (p <> 0 /\ malloced base h bs size p h')).
Proof.
  intros Hi Hsize Hfuel. pose proof (i_core _ _ _ _ Hi) as Hc. pose proof (inv_perm _ _ _ _ Hi) as Hp.
  unfold malloc. rewrite (proj2 (Z.leb_gt size 0)) by lia.
  destruct (i_flist _ _ _ _ Hi) as [(Hh & Hn & _) Hnd Hfree].
  assert (Hlen : forall a n, Block a n true ∈ bs -> n_size h a = n).
  { intros a n Hin. by destruct (core_hdr _ _ _ _ Hc Hin) as (Hsz & _). }
  destruct (malloc_walk_spec h size fl fuel) as (w & Hw & Hcase); [done| |done|].
  { intros a Ha. destruct (Hfree a Ha) as [n Hn']. pose proof (core_range _ _ _ _ Hc Hn'). cbn in *. lia. }
  rewrite Hh, Hw. cbn [obind]. destruct Hcase as [[-> Hno]|(l1 & l2 & Hfl & Hsz & _)].
  - rewrite Z.eqb_refl. destruct (alloc_new_spec base h bs fl size Hi Hsize) as [(Hnone & Hp0 & Hh0)|Hm].
    + exists 0, h. split; [by rewrite (surjective_pairing (alloc_new _ _ _)), Hp0, Hh0|left].
      split; [done|]. split; [done|]. split; [done|]. intros [a n f] Hin Hf. cbn in *. subst f.
      rewrite <- (Hlen _ _ Hin). apply Hno. rewrite Hp, elem_of_free_addrs. eauto.
    + eexists _, _. split; [by rewrite (surjective_pairing (alloc_new _ _ _))|right].
      split; [|done]. destruct Hm as (bs' & fl' & b' & Hi' & Hlv & -> & _).
      assert (Hb' : b' ∈ bs'). { apply (list_elem_of_filter (fun b => b_free b = false)). fold (live bs'). rewrite Hlv. set_solver. }
      pose proof (core_range _ _ _ _ (i_core _ _ _ _ Hi') Hb'). lia.
  - assert (Hwin : w ∈ fl) by (rewrite Hfl; set_solver). destruct (Hfree w Hwin) as [n Hwb].
    pose proof (core_range _ _ _ _ Hc Hwb) as Hr. cbn in Hr. rewrite (Hlen _ _ Hwb) in Hsz.
    rewrite (proj2 (Z.eqb_neq w 0)) by lia.
    destruct (unlink_spec _ _ _ _ _ _ Hi Hwb) as (fl' & Hflp & Hc1 & Hfl1 & _ & Hag1 & Hr1).
    pose proof Hwb as (l & r & Hbs)%list_elem_of_split.
    assert (Hwn : w ∉ fl') by (rewrite Hflp in Hnd; by apply NoDup_cons in Hnd as [? _]).
    rewrite Hbs in Hc1, Hfl1.
    destruct (alloc_free_spec base (remove_free h w) l (Block w n true) r fl' size) as
      (mid & fl2 & k & Hi2 & Hlv2 & Hk & Hpt & Hag2); [done..|cbn; lia| |].
    { apply (Permutation_cons_inv (a := w)). rewrite <- Hflp, Hp, Hbs.
      rewrite !free_addrs_app, free_addrs_cons. cbn. solve_Permutation. }
    eexists _, _. split; [by rewrite (surjective_pairing (alloc_free _ _ _))|right].
    cbn [b_addr] in *. split; [lia|].
    exists (l ++ mid ++ r), fl2, (Block w k false). split; [done|].
    split; [rewrite Hbs, !live_app, live_cons, Hlv2; cbn; solve_Permutation|].
    split; [done|]. split; [done|].
    eapply agree_out_weaken; [|eapply agree_out_trans; [exact Hag1|exact Hag2]].
    destruct Hc as [Hch _ _ _ _ _].
    intros x [Hx|[Hx|Hx]]; [by eapply touch_free_links| |].
    + left. exists (Block w n true). done.
    + eapply (touch_free_links _ _ _ fl'); [done| |done].
      intros a Ha. apply Hfree. rewrite Hflp. set_solver.
Qed.

(** [calloc] of a non-overflowing request: as [malloc], and the first
    [num * size] bytes are zero. *)
Lemma calloc_block base h bs fl num size fuel :
  heap_inv base h bs fl -> 0 < num * size < 4611686018427387904 -> (length fl < fuel)%nat ->
  exists p h', calloc sbrk fuel h num size = Done (p, h')
    /\ ((p = 0 /\ h' = h) \/ (p <> 0 /\ malloced base h bs (num * size) p h'
         /\ forall i, 0 <= i < num * size -> mem h' (p + i) = 0)).
Proof.
  intros Hi Hsize Hfuel. unfold calloc. wrap_simpl.
  destruct (malloc_block base h bs fl (num * size) fuel) as (p & h1 & -> & Hcase); [done..|].
  cbn [obind]. destruct Hcase as [(-> & -> & _)|(Hp & Hm)].
  - rewrite Z.eqb_refl. exists 0, h. split; [done|by left].
  - rewrite (proj2 (Z.eqb_neq p 0)) by done. eexists _, _. split; [done|]. right. split; [done|].
    split; [|intros i Hin; cbn; by rewrite memset_in by lia].
    eapply malloced_fill; [done..|]. intros x Hx. rewrite memset_ne; [done|lia].
Qed.

(** What a successful growing [realloc] promises: the old block [b] is released,
    a new block of at least [size] bytes is live and starts with the old
    contents; the other live blocks keep theirs. *)
Definition moved (base : Z) (h : heap) (bs : list block) (b : block) (size p : Z) (h' : heap) : Prop :=
  exists bs' fl' b', heap_inv base h' bs' fl' /\ b :: live bs' ≡ₚ b' :: live bs
    /\ p = b_addr b' + 32 /\ size <= b_len b'
    /\ (forall i, 0 <= i < b_len b -> mem h' (p + i) = mem h (b_addr b + 32 + i))
    /\ (forall c x, c ∈ live bs -> c <> b -> in_payload c x -> mem h' x = mem h x).

Lemma realloc_block base h bs fl b size fuel :
  heap_inv base h bs fl -> b ∈ live bs -> 0 <= size < 4611686018427387904 -> (length fl < fuel)%nat ->
  exists p h', realloc sbrk fuel h (b_addr b + 32) size = Done (p, h')
    /\ ((size = 0 /\ p = 0 /\ freed base h bs b h')
        \/ (0 < size <= b_len b /\ p = b_addr b + 32 /\ h' = h)
        \/ (b_len b < size /\ p = 0 /\ h' = h)
        \/ (b_len b < size /\ p <> 0 /\ moved base h bs b size p h')).
Proof.
  intros Hi Hlive Hsize Hfuel. pose proof (proj1 (elem_of_live _ _) Hlive) as [Hb Hbf].
  pose proof (core_range _ _ _ _ (i_core _ _ _ _ Hi) Hb) as Hr.
  pose proof (core_hdr _ _ _ _ (i_core _ _ _ _ Hi) Hb) as (Hsz & _).
  unfold realloc, node_size. rewrite (proj2 (Z.eqb_neq (_ + _) 0)) by lia.
  destruct (size =? 0) eqn:E0; bool_to_prop; [eexists _, _; split; [done|left]|].
  { split; [done|]. split; [done|]. by eapply free_block. }
  wrap_simpl. replace (b_addr b + 32 - 32) with (b_addr b) by lia. unfold n_size at 1. rewrite Hsz.
  destruct (size <=? b_len b) eqn:E1; bool_to_prop;
    [eexists _, _; split; [done|right; left]; split; [lia|done]|].
  destruct (malloc_block base h bs fl size fuel) as (p & h1 & -> & Hcase); [done|lia|done|].
  cbn [obind]. destruct Hcase as [(-> & -> & _)|(Hp & Hm)].
  { rewrite Z.eqb_refl. eexists _, _. split; [done|]. right. right. left. done. }
  rewrite (proj2 (Z.eqb_neq p 0)) by done. eexists _, _. split; [done|]. right. right. right.
  split; [done|]. split; [done|].
  pose proof Hm as (bs1 & fl1 & b1 & Hi1 & Hlv1 & Hpb & Hlen1 & Hag1).
  assert (Hb1 : b ∈ live bs1) by (rewrite Hlv1; set_solver).
  pose proof (proj1 (elem_of_live _ _) Hb1) as [Hbin1 _].
  pose proof (core_hdr _ _ _ _ (i_core _ _ _ _ Hi1) Hbin1) as (Hsz1 & _).
  assert (Hne : b1 <> b).
  { intros ->. assert (Hnd : NoDup (live bs1)) by (apply NoDup_filter; destruct (i_core _ _ _ _ Hi1); by eapply chain_nodup).
    rewrite Hlv1 in Hnd. by apply NoDup_cons in Hnd as [? _]. }
  unfold n_size. rewrite Hsz1. set (m' := memcpy _ _ _ _).
  assert (Hcp : agree_out (fun x => p <= x < p + size) (mem h1) m').
  { intros x Hx. subst m'. rewrite memcpy_ne; [done|lia]. }
  assert (Hb1l : b1 ∈ live bs1) by (rewrite Hlv1; set_solver).
  assert (Hi2 : heap_inv base (set_mem h1 m') bs1 fl1).
  { eapply payload_write; [done|exact Hb1l|]. eapply agree_out_weaken; [|exact Hcp].
    unfold in_payload. intros; lia. }
  destruct (free_block base _ bs1 fl1 b Hi2 Hbin1) as (bs3 & fl3 & Hi3 & Hlv3 & Hag3 & _).
  { by apply elem_of_live in Hb1 as [_ ?]. }
  exists bs3, fl3, b1. split; [done|]. split; [by rewrite <- Hlv3|]. split; [done|]. split; [lia|]. split.
  - intros i Hin. rewrite (free_keeps base _ bs1 fl1 _ b b1 _ Hi2 Hbin1); [|done|done| |done].
    2: { unfold in_payload. lia. }
    cbn. subst m'. rewrite memcpy_in by lia.
    eapply malloc_keeps; [exact Hi|exact Hlive| |exact Hag1]. unfold in_payload. lia.
  - intros c x Hc Hcb Hx. assert (Hc1 : c ∈ live bs1) by (rewrite Hlv1; set_solver).
    rewrite (free_keeps base _ bs1 fl1 _ b c _ Hi2 Hbin1); [|done|done|done|done].
    cbn. rewrite Hcp; [by eapply malloc_keeps|]. intros Hin.
    assert (c = b1) as ->. { eapply (live_disjoint base h1 bs1 fl1 c b1 x); [done|done|done|done|]. unfold in_payload. lia. }
    assert (Hnd : NoDup (live bs1)) by (apply NoDup_filter; destruct (i_core _ _ _ _ Hi1); by eapply chain_nodup).
    rewrite Hlv1 in Hnd. by apply NoDup_cons in Hnd as [? _].
Qed.

(** *** Programs using the allocator

    A client holds the regions it was given, as (pointer, requested size), and
    may call the allocator, with requests below 2^62 bytes, or write a byte of a
    region it holds. *)

Inductive client_step : heap * list (Z * Z) -> heap * list (Z * Z) -> Prop :=
| cs_malloc fuel h own size p h' :
    0 <= size < 4611686018427387904 -> malloc sbrk fuel h size = Done (p, h') ->
    client_step (h, own) (h', if p =? 0 then own else (p, size) :: own)
| cs_calloc fuel h own num size p h' :
    0 <= num * size < 4611686018427387904 -> calloc sbrk fuel h num size = Done (p, h') ->
    client_step (h, own) (h', if p =? 0 then own else (p, num * size) :: own)
| cs_free h own1 own2 p n :
    client_step (h, own1 ++ (p, n) :: own2) (free h p, own1 ++ own2)
| cs_free_null h own : client_step (h, own) (free h 0, own)
| cs_realloc_null fuel h own size p h' :
    0 <= size < 4611686018427387904 -> realloc sbrk fuel h 0 size = Done (p, h') ->
    client_step (h, own) (h', if p =? 0 then own else (p, size) :: own)
| cs_realloc fuel h own1 own2 p n size p' h' :
    0 <= size < 4611686018427387904 -> realloc sbrk fuel h p size = Done (p', h') ->
    client_step (h, own1 ++ (p, n) :: own2)
      (h', if size =? 0 then own1 ++ own2 else if p' =? 0 then own1 ++ (p, n) :: own2 else (p', size) :: own1 ++ own2)
| cs_write h own p n i v :
    (p, n) ∈ own -> 0 <= i < n -> client_step (h, own) (set_mem h (st8 (mem h) (p + i) v), own).

(** The regions held correspond one to one to the live blocks. *)
Definition holds (o : Z * Z) (b : block) : Prop := o.1 = b_addr b + 32 /\ 0 < o.2 <= b_len b.

Definition client_inv (base : Z) (s : heap * list (Z * Z)) : Prop :=
  exists bs fl lb, heap_inv base s.1 bs fl /\ lb ≡ₚ live bs /\ Forall2 holds s.2 lb.

Lemma malloc_walk_mono h size fuel fuel' walk w :
  malloc_walk fuel h size walk = Done w -> (fuel <= fuel')%nat ->
  malloc_walk fuel' h size walk = Done w.
Proof.
  revert fuel' walk. induction fuel as [|fuel IH]; intros [|fuel'] walk Hw Hle; cbn in *; try done; try lia.
  destruct (walk =? 0); [done|]. destruct (size <=? _); [done|]. apply IH; [done|lia].
Qed.

Lemma malloc_mono h size fuel fuel' r :
  malloc sbrk fuel h size = Done r -> (fuel <= fuel')%nat -> malloc sbrk fuel' h size = Done r.
Proof.
  unfold malloc. destruct (size <=? 0); [done|]. intros H Hle.
  apply obind_Done in H as (w & Hw & H). by rewrite (malloc_walk_mono _ _ _ _ _ _ Hw Hle).
Qed.

Lemma calloc_mono h num size fuel fuel' r :
  calloc sbrk fuel h num size = Done r -> (fuel <= fuel')%nat -> calloc sbrk fuel' h num size = Done r.
Proof.
  unfold calloc. intros H Hle. apply obind_Done in H as (w & Hw & H).
  by rewrite (malloc_mono _ _ _ _ _ Hw Hle).
Qed.

Lemma realloc_mono h p size fuel fuel' r :
  realloc sbrk fuel h p size = Done r -> (fuel <= fuel')%nat -> realloc sbrk fuel' h p size = Done r.
Proof.
  unfold realloc. destruct (p =? 0); [apply malloc_mono|].
  destruct (size =? 0); [done|]. destruct (size <=? _); [done|].
  intros H Hle. apply obind_Done in H as (w & Hw & H). by rewrite (malloc_mono _ _ _ _ _ Hw Hle).
Qed.

Lemma Forall2_middle (own1 own2 : list (Z * Z)) o lb :
  Forall2 holds (own1 ++ o :: own2) lb ->
  exists b lb', lb ≡ₚ b :: lb' /\ holds o b /\ Forall2 holds (own1 ++ own2) lb'.
Proof.
  intros (l1 & l2 & H1 & H2 & ->)%Forall2_app_inv_l. inversion H2; subst.
  eexists _, (l1 ++ _). split; [symmetry; apply Permutation_middle|]. split; [done|].
  by apply Forall2_app.
Qed.

Lemma malloc_step_inv base fuel h own size p h' :
  0 <= size < 4611686018427387904 -> malloc sbrk fuel h size = Done (p, h') -> client_inv base (h, own) ->
  client_inv base (h', if p =? 0 then own else (p, size) :: own).
Proof.
  intros Hs Hrun (bs & fl & lb & Hi & Hlb & HF). cbn in *. destruct (decide (size = 0)) as [->|Hne].
  { unfold malloc in Hrun. cbn in Hrun. injection Hrun as <- <-. by exists bs, fl, lb. }
  destruct (malloc_block base h bs fl size (fuel + S (length fl))) as (q & h2 & Hm & Hcase); [done|lia|lia|].
  rewrite (malloc_mono _ _ _ (fuel + S (length fl)) _ Hrun ltac:(lia)) in Hm. injection Hm as <- <-.
  destruct Hcase as [(-> & -> & _)|(Hp & bs' & fl' & b' & Hi' & Hlv & -> & Hlen & _)].
  - rewrite Z.eqb_refl. by exists bs, fl, lb.
  - rewrite (proj2 (Z.eqb_neq _ 0)) by done. exists bs', fl', (b' :: lb).
    split; [done|]. split; [by rewrite Hlv, Hlb|]. constructor; [|done]. split; cbn; lia.
Qed.

Lemma client_step_inv base s s' : client_step s s' -> client_inv base s -> client_inv base s'.
Proof.
  intros Hst Hinv. destruct Hst; [by eapply malloc_step_inv| | |done|exact (malloc_step_inv _ _ _ _ _ _ _ H H0 Hinv)| |];
    destruct Hinv as (bs & fl & lb & Hi & Hlb & HF); cbn in *.
  - destruct (decide (num * size = 0)) as [Hz|Hz].
    { unfold calloc, malloc in H0. rewrite Hz in H0. cbn in H0. injection H0 as <- <-. by exists bs, fl, lb. }
    destruct (calloc_block base h bs fl num size (fuel + S (length fl))) as (q & h2 & Hm & Hcase); [done|lia|lia|].
    rewrite (calloc_mono _ _ _ _ (fuel + S (length fl)) _ H0 ltac:(lia)) in Hm. injection Hm as <- <-.
    destruct Hcase as [(-> & ->)|(Hp & (bs' & fl' & b' & Hi' & Hlv & -> & Hlen & _) & _)].
    + rewrite Z.eqb_refl. by exists bs, fl, lb.
    + rewrite (proj2 (Z.eqb_neq _ 0)) by done. exists bs', fl', (b' :: lb).
      split; [done|]. split; [by rewrite Hlv, Hlb|]. constructor; [|done]. split; cbn; lia.
  - apply Forall2_middle in HF as (b & lb' & Hp & [Hpb Hn] & HF). cbn in *.
    assert (Hb : b ∈ live bs) by (rewrite <- Hlb, Hp; set_solver). rewrite Hpb.
    apply elem_of_live in Hb as [Hb Hbf].
    destruct (free_block base h bs fl b Hi Hb Hbf) as (bs' & fl' & Hi' & Hlv & _).
    exists bs', fl', lb'. split; [done|]. split; [|done].
    apply (Permutation_cons_inv (a := b)). by rewrite <- Hp, Hlb, Hlv.
  - pose proof HF as (b & lb' & Hp & [Hpb Hn] & HF')%Forall2_middle. cbn in *.
    assert (Hb : b ∈ live bs) by (rewrite <- Hlb, Hp; set_solver).
    destruct (realloc_block base h bs fl b size (fuel + S (length fl))) as (q & h2 & Hm & Hcase);
      [done|done|lia|lia|].
    rewrite <- Hpb, (realloc_mono _ _ _ _ (fuel + S (length fl)) _ H0 ltac:(lia)) in Hm. injection Hm as <- <-.
    assert (Hbr : 40 <= b_addr b).
    { apply elem_of_live in Hb as [Hb _]. pose proof (core_range _ _ _ _ (i_core _ _ _ _ Hi) Hb). lia. }
    destruct Hcase as [(-> & -> & (bs' & fl' & Hi' & Hlv & _))|[(Hs & -> & ->)|[(Hs & -> & ->)|(Hs & Hq & bs' & fl' & b' & Hi' & Hlv & -> & Hlen & _)]]];
      [|rewrite (proj2 (Z.eqb_neq size 0)) by lia..].
    + exists bs', fl', lb'. split; [done|]. split; [|done]. apply (Permutation_cons_inv (a := b)). by rewrite <- Hp, Hlb, Hlv.
    + rewrite (proj2 (Z.eqb_neq _ 0)) by lia. exists bs, fl, (b :: lb').
      split; [done|]. split; [by rewrite <- Hp|]. constructor; [|done]. split; cbn; lia.
    + rewrite Z.eqb_refl. by exists bs, fl, lb.
    + rewrite (proj2 (Z.eqb_neq _ 0)) by done. exists bs', fl', (b' :: lb').
      split; [done|]. split; [|constructor; [split; cbn; lia|done]].
      apply (Permutation_cons_inv (a := b)). rewrite Hlv, perm_swap, <- Hp, Hlb. done.
  - apply list_elem_of_split in H as (own1 & own2 & ->).
    pose proof HF as (b & lb' & Hp & [Hpb Hn] & HF')%Forall2_middle. cbn in *.
    assert (Hb : b ∈ live bs) by (rewrite <- Hlb, Hp; set_solver).
    exists bs, fl, lb. split; [|done]. eapply payload_write; [done|exact Hb|].
    intros x Hx. rewrite st8_ne; [done|]. unfold in_payload in Hx. lia.
Qed.

(** ** Properties *)

(** C1. On any well-formed heap, [malloc] of a request below 2^62 bytes
    terminates and either returns [NULL] with the state unchanged, exactly when
    no free block is big enough and the kernel refuses to grow the heap, or
    returns the payload of a block that becomes live: it has at least [size]
    and less than [size + 65576] bytes, all other live blocks stay live with
    their contents, and the heap stays well formed. *)
Theorem malloc_correct base h bs fl size fuel :
  heap_inv base h bs fl -> 0 < size < 4611686018427387904 -> (length fl < fuel)%nat ->
  exists p h', malloc sbrk fuel h size = Done (p, h')
    /\ ((p = 0 /\ h' = h /\ sbrk (brk h) (meta_btag_size + size) = None
         /\ forall c, c ∈ bs -> b_free c = true -> b_len c < size)
        \/ exists bs' fl' b', heap_inv base h' bs' fl' /\ live bs' ≡ₚ b' :: live bs
             /\ p = b_addr b' + node_size
             /\ size <= b_len b' < size + meta_btag_size + SPLIT_TRESHOLD
             /\ forall b x, b ∈ live bs -> in_payload b x -> mem h' x = mem h x).
Proof.
  intros Hi Hsize Hfuel.
  destruct (malloc_block base h bs fl size fuel) as (p & h' & Hm & [Hcase|[_ Hcase]]); [done..| |];
    exists p, h'; (split; [done|]); [by left|right].
  destruct Hcase as (bs' & fl' & b' & Hi' & Hlv & Hp & Hlen & Hag).
  exists bs', fl', b'. repeat (split; [done|]). intros. by eapply malloc_keeps.
Qed.

(** C4. [realloc] of a live block: size 0 frees it and returns [NULL]; a size
    the block already has returns the same pointer and changes nothing; a larger
    size either fails leaving the state unchanged or moves the block, keeping
    the old bytes at the front of the new block and the contents of every other
    live block.  [realloc] of [NULL] allocates a new live block, or returns [NULL]
    and changes nothing when the kernel refuses or the size is 0.  All sizes are
    below 2^62. *)
Theorem realloc_correct base h bs fl b size fuel :
  heap_inv base h bs fl -> b ∈ live bs -> 0 <= size < 4611686018427387904 -> (length fl < fuel)%nat ->
  (exists p h', realloc sbrk fuel h 0 size = Done (p, h')
    /\ ((p = 0 /\ h' = h /\ (0 < size -> sbrk (brk h) (meta_btag_size + size) = None))
        \/ (0 < size /\ p <> 0 /\ malloced base h bs size p h')))
  /\ exists p h', realloc sbrk fuel h (b_addr b + node_size) size = Done (p, h')
    /\ ((size = 0 /\ p = 0 /\ freed base h bs b h')
        \/ (0 < size <= b_len b /\ p = b_addr b + node_size /\ h' = h)
        \/ (b_len b < size /\ p = 0 /\ h' = h)
        \/ (b_len b < size /\ p <> 0 /\ moved base h bs b size p h')).
Proof.
  intros Hi Hb Hs Hf. split; [|by eapply realloc_block]. unfold realloc. cbn [Z.eqb]. destruct (decide (size = 0)) as [->|Hne].
  - exists 0, h. split; [done|]. left. split; [done|]. split; [done|lia].
  - destruct (malloc_block base h bs fl size fuel) as (p & h' & Hm & Hcase); [done|lia|done|]. exists p, h'. split; [exact Hm|].
    destruct Hcase as [(-> & -> & Hsb & _)|[Hp Hm']]; [by left|right]. split; [lia|done].
Qed.

(** [calloc] of [num * size] bytes, when the product does not overflow,
    either fails leaving the state unchanged or returns a new live block whose
    first [num * size] bytes are zero. *)
Theorem calloc_correct base h bs fl num size fuel :
  heap_inv base h bs fl -> 0 < num * size < 4611686018427387904 -> (length fl < fuel)%nat ->
  exists p h', calloc sbrk fuel h num size = Done (p, h')
    /\ ((p = 0 /\ h' = h) \/ (p <> 0 /\ malloced base h bs (num * size) p h'
         /\ forall i, 0 <= i < num * size -> mem h' (p + i) = 0)).
Proof. apply calloc_block. Qed.

(** The header or the boundary tag of a block. *)
Definition in_metadata (b : block) (x : Z) : Prop :=
  b_addr b <= x < b_addr b + node_size \/ b_addr b + node_size + b_len b <= x < b_addr b + node_size + b_len b + btag_size.

(** C3. Whatever sequence of [malloc], [calloc], [realloc], [free], each of less than
    2^62 bytes, and in-bounds writes a program makes from the empty heap, below which
    there is a word that does not point behind its start ([free] reads it): the heap
    is tiled by well-formed blocks, and every byte of a region the program holds lies
    between the initial break and the current one, in no other region it holds, and
    in the header or boundary tag of no block. *)
Theorem client_regions_disjoint base m h own :
  40 <= base < 9223372036854775808 -> 0 <= ld64 m (base - 8) <= base - 40 ->
  rtc client_step (Heap m 0 0 0 base, []) (h, own) ->
  exists bs fl, heap_inv base h bs fl /\
    forall i p n x, own !! i = Some (p, n) -> p <= x < p + n ->
      base <= x < brk h
      /\ (forall c, c ∈ bs -> ~ in_metadata c x)
      /\ (forall j q k, own !! j = Some (q, k) -> q <= x < q + k -> i = j).
Proof.
  intros Hb Hlow Hrtc.
  assert (Hinv : client_inv base (h, own)).
  { remember (Heap m 0 0 0 base, []) as s0. remember (h, own) as s1. clear Heqs1.
    assert (H0 : client_inv base s0).
    { subst s0. exists [], [], []. split; [by apply init_inv|done]. }
    clear Heqs0. induction Hrtc; [done|]. apply IHHrtc. by eapply client_step_inv. }
  destruct Hinv as (bs & fl & lb & Hiv & Hlb & HF). cbn in *. exists bs, fl. split; [done|]. intros i p n x Hi Hx.
  destruct (Forall2_lookup_l _ _ _ _ _ HF Hi) as (b & Hib & Hpb & Hnb). cbn in *.
  assert (Hbl : b ∈ live bs) by (rewrite <- Hlb; by eapply list_elem_of_lookup_2).
  pose proof (proj1 (elem_of_live _ _) Hbl) as [Hbin _]. split; [|split].
  - pose proof (core_range _ _ _ _ (i_core _ _ _ _ Hiv) Hbin). lia.
  - intros c Hc. unfold in_metadata, node_size, btag_size. pose proof (c_chain _ _ _ (i_core _ _ _ _ Hiv)) as Hch.
    destruct (chain_pair _ _ _ _ _ Hch Hbin Hc) as [<-|Hd]; [lia|]. pose proof (chain_in _ _ _ _ Hch Hc). unfold b_end in *. lia.
  - intros j q k Hj Hx'. destruct (Forall2_lookup_l _ _ _ _ _ HF Hj) as (c & Hjc & Hqc & Hkc). cbn in *.
    assert (Hcl : c ∈ live bs) by (rewrite <- Hlb; by eapply list_elem_of_lookup_2).
    assert (b = c) as -> by (eapply (live_disjoint base h bs fl b c x); unfold in_payload; try done; lia).
    assert (Hnd : NoDup lb).
    { rewrite Hlb. apply NoDup_filter. destruct (i_core _ _ _ _ Hiv). by eapply chain_nodup. }
    by eapply NoDup_lookup.
Qed.

(** (code bug) [meta_btag_size + size] is not checked for overflow: a
    request within 40 bytes of the top of [size_t] wraps to a tiny [sbrk], and
    [malloc] returns a non-null pointer to a region that was never obtained:
    the break moves by less than 40 bytes. *)
Theorem malloc_request_wraps h size fuel :
  head_free h = 0 -> M64 - meta_btag_size <= size < M64 -> 0 < brk h < 9223372036854775808 ->
  sbrk (brk h) (size + meta_btag_size - M64) = Some (brk h + (size + meta_btag_size - M64)) ->
  exists h', malloc sbrk (S fuel) h size = Done (brk h + node_size, h')
    /\ brk h' - brk h < meta_btag_size.
Proof.
  unfold M64, meta_btag_size, node_size. intros Hh Hs Hb Hsb.
  unfold malloc. rewrite (proj2 (Z.leb_gt size 0)), Hh by lia. cbn.
  unfold alloc_new, meta_btag_size, node_size.
  assert (Hw : s64 (40 + size) = size + 40 - 18446744073709551616).
  { unfold s64.
    replace (40 + size + 9223372036854775808)
      with (size + 40 - 18446744073709551616 + 9223372036854775808 + 1 * 18446744073709551616) by lia.
    rewrite Z_mod_plus_full, Z.mod_small by lia. lia. }
  rewrite Hw.
  rewrite Hsb. cbv zeta. rewrite (u64_small (brk h + 32)) by lia. eexists. split; [reflexivity|].
  cbn. repeat case_match; cbn; lia.
Qed.

End Sbrk.

(** C2. [free] of a live block terminates in a well-formed heap in which exactly
    that block is no longer live; every other live block keeps its address, size
    and contents (whatever neighbours were coalesced), and the break is unmoved. *)
Theorem free_correct base h bs fl b :
  heap_inv base h bs fl -> b ∈ live bs ->
  let h' := free h (b_addr b + node_size) in
  exists bs' fl', heap_inv base h' bs' fl' /\ live bs ≡ₚ b :: live bs' /\ brk h' = brk h
    /\ forall c x, c ∈ live bs' -> in_payload c x -> mem h' x = mem h x.
Proof.
  intros Hi Hb h'. pose proof (proj1 (elem_of_live _ _) Hb) as [Hbin Hbf].
  destruct (free_block base h bs fl b Hi Hbin Hbf) as (bs' & fl' & Hi' & Hlv & Hag & Hbrk).
  exists bs', fl'. repeat (split; [done|]). intros c x Hc Hx.
  assert (Hnd : NoDup (live bs)) by (apply NoDup_filter; destruct (i_core _ _ _ _ Hi); by eapply chain_nodup).
  rewrite Hlv in Hnd. apply NoDup_cons in Hnd as [Hnot _].
  eapply free_keeps; [exact Hi|exact Hbin| | |exact Hx|exact Hag]; [rewrite Hlv; set_solver|by intros ->].
Qed.

(** ** Witnesses: a concrete kernel and heap *)

Definition sbrk0 (b i : Z) : option Z := if b + i <=? 1048576 then Some (b + i) else None.

Lemma sbrk0_spec b i b' :
  sbrk0 b i = Some b' -> 0 < i -> b' = b + i /\ b' < 9223372036854775808.
Proof. unfold sbrk0. case_bool; intros [= <-] ?; lia. Qed.

Definition heap0 : heap := Heap (fun _ => 0) 0 0 0 4096.

(** The heap after [malloc(100)] and [malloc(50)]. *)
Definition heap1 : heap := (alloc_new sbrk0 heap0 100).2.
Definition heap2 : heap := (alloc_new sbrk0 heap1 50).2.

Lemma heap2_inv :
  heap_inv 4096 heap2 [Block 4096 100 false; Block 4236 50 false] [].
Proof.
  apply inv_intro; [split|..].
  - vm_compute. auto.
  - apply Forall_cons; split; [|apply Forall_singleton];
      (split; [vm_compute; reflexivity|]); split; vm_compute; reflexivity.
  - vm_compute. reflexivity.
  - vm_compute. apply list_elem_of_here.
  - split; vm_compute; discriminate.
  - vm_compute. reflexivity.
  - vm_compute. auto.
  - vm_compute. reflexivity.
Qed.

Lemma malloc_correct_witness :
  exists p h', malloc sbrk0 1 heap2 10 = Done (p, h')
    /\ ((p = 0 /\ h' = heap2 /\ sbrk0 (brk heap2) (meta_btag_size + 10) = None
         /\ forall c, c ∈ [Block 4096 100 false; Block 4236 50 false] -> b_free c = true -> b_len c < 10)
        \/ exists bs' fl' b', heap_inv 4096 h' bs' fl'
             /\ live bs' ≡ₚ b' :: live [Block 4096 100 false; Block 4236 50 false]
             /\ p = b_addr b' + node_size
             /\ 10 <= b_len b' < 10 + meta_btag_size + SPLIT_TRESHOLD
             /\ forall b x, b ∈ live [Block 4096 100 false; Block 4236 50 false] ->
                  in_payload b x -> mem h' x = mem heap2 x).
Proof. apply (malloc_correct sbrk0 sbrk0_spec _ _ _ [] 10 1 heap2_inv); [lia|cbn; lia]. Defined.

Lemma free_correct_witness :
  exists bs' fl', heap_inv 4096 (free heap2 (4096 + node_size)) bs' fl'
    /\ live [Block 4096 100 false; Block 4236 50 false] ≡ₚ Block 4096 100 false :: live bs'
    /\ brk (free heap2 (4096 + node_size)) = brk heap2
    /\ forall c x, c ∈ live bs' -> in_payload c x ->
         mem (free heap2 (4096 + node_size)) x = mem heap2 x.
Proof. apply (free_correct 4096 heap2 _ _ (Block 4096 100 false) heap2_inv). vm_compute. apply list_elem_of_here. Defined.

Lemma realloc_correct_witness :
  (exists p h', realloc sbrk0 1 heap2 0 200 = Done (p, h')
    /\ ((p = 0 /\ h' = heap2 /\ (0 < 200 -> sbrk0 (brk heap2) (meta_btag_size + 200) = None))
        \/ (0 < 200 /\ p <> 0 /\ malloced 4096 heap2 [Block 4096 100 false; Block 4236 50 false] 200 p h')))
  /\ exists p h', realloc sbrk0 1 heap2 (4096 + node_size) 200 = Done (p, h')
    /\ ((200 = 0 /\ p = 0 /\ freed 4096 heap2 [Block 4096 100 false; Block 4236 50 false] (Block 4096 100 false) h')
        \/ (0 < 200 <= 100 /\ p = 4096 + node_size /\ h' = heap2)
        \/ (100 < 200 /\ p = 0 /\ h' = heap2)
        \/ (100 < 200 /\ p <> 0 /\ moved 4096 heap2 [Block 4096 100 false; Block 4236 50 false] (Block 4096 100 false) 200 p h')).
Proof.
  apply (realloc_correct sbrk0 sbrk0_spec 4096 heap2 _ [] (Block 4096 100 false) 200 1 heap2_inv);
    [vm_compute; apply list_elem_of_here|lia|cbn; lia].
Defined.

Lemma calloc_correct_witness :
  exists p h', calloc sbrk0 1 heap2 3 4 = Done (p, h')
    /\ ((p = 0 /\ h' = heap2)
        \/ (p <> 0 /\ malloced 4096 heap2 [Block 4096 100 false; Block 4236 50 false] (3 * 4) p h'
         /\ forall i, 0 <= i < 3 * 4 -> mem h' (p + i) = 0)).
Proof. apply (calloc_correct sbrk0 sbrk0_spec _ _ _ [] 3 4 1 heap2_inv); [lia|cbn; lia]. Defined.

Lemma client_regions_disjoint_witness :
  exists bs fl, heap_inv 4096 heap2 bs fl /\ (forall c, c ∈ bs -> ~ in_metadata c 4140)
    /\ (forall j q k, [(4268, 50); (4128, 100)] !! j = Some (q, k) -> q <= 4140 < q + k -> 1%nat = j).
Proof.
  enough (H : rtc (client_step sbrk0) (Heap (fun _ => 0) 0 0 0 4096, []) (heap2, [(4268, 50); (4128, 100)])).
  { destruct (client_regions_disjoint sbrk0 sbrk0_spec 4096 (fun _ => 0) heap2 [(4268, 50); (4128, 100)]) as (bs & fl & Hi & Hr); [lia|done|exact H|].
    exists bs, fl. destruct (Hr 1%nat 4128 100 4140) as (_ & H1 & H2); [done|lia|]. split; [exact Hi|]. split; [exact H1|exact H2]. }
  apply (rtc_l _ _ (heap1, [(4128, 100)])).
  { apply (cs_malloc sbrk0 1 heap0 [] 100 4128 heap1); [lia|reflexivity]. }
  apply rtc_once. apply (cs_malloc sbrk0 1 heap1 [(4128, 100)] 50 4268 heap2); [lia|reflexivity].
Defined.

Lemma malloc_request_wraps_witness :
  exists h', malloc sbrk0 1 heap0 (M64 - 40) = Done (4096 + node_size, h')
    /\ brk h' - brk heap0 < meta_btag_size.
Proof. apply (malloc_request_wraps sbrk0 heap0 (M64 - 40) 0); [reflexivity|unfold M64, meta_btag_size; lia|cbn; lia|reflexivity]. Defined.
