(* ===== verification/Callbacks.v ===== *)
(** * Element callbacks of [vector/callbacks.c]

    Objects are byte strings at addresses of a user heap [objects].  [alloc o n]
    is the address [malloc]/[calloc]/[strdup] return for a request of [n] bytes
    when the heap is [o] (0 for [NULL]).  A copy constructor allocates a copy, a
    destructor frees, a default constructor [calloc]s; the ten scalar types
    differ in their size and, for hashing, in their signedness. *)

From S2P Require Import Prelude.
From stdpp Require Import gmap.
Open Scope Z_scope.

Abbreviation objects := (gmap Z (list Z)).

(** [free]: of [NULL] it does nothing, of an address that is not allocated it is
    undefined. *)
Definition c_free (p : Z) (o : objects) : outcome objects :=
  if p =? 0 then Done o
  else match o !! p with Some _ => Done (delete p o) | None => Undef end.

(** Little-endian value of the first [n] bytes. *)
Fixpoint le_value (n : nat) (bs : list Z) : Z :=
  match n, bs with
  | S n, b :: bs => b + 256 * le_value n bs
  | _, _ => 0
  end.

(** Conversion of a [w]-bit signed value to [size_t]. *)
Definition sign_extend (w x : Z) : Z := u64 (if x <? 2 ^ (w - 1) then x else x - 2 ^ w).

Definition shallow_copy_constructor {St} (elem : Z) (s : St) : outcome (Z * St) := Done (elem, s).

Definition shallow_destructor {St} (elem : Z) (s : St) : outcome St := Done s.

Definition shallow_default_constructor {St} (s : St) : outcome (Z * St) := Done (0, s).

Definition shallow_hash_function (elem : Z) : Z := 0.

Definition pointer_hash_function (elem : Z) : Z := elem.

Section Alloc.

Variable alloc : objects -> Z -> Z.

(** The shared body of the scalar callbacks, for an element of [n] bytes. *)
Definition scalar_copy (n : nat) (elem : Z) (o : objects) : outcome (Z * objects) :=
  if elem =? 0 then Done (elem, o)
  else
    let copy := alloc o (Z.of_nat n) in
    if copy =? 0 then Undef
    else
      let! bs := deref (o !! elem) in
      if (length bs <? n)%nat then Undef
      else Done (copy, <[copy := take n bs]> o).

Definition scalar_default (n : nat) (o : objects) : outcome (Z * objects) :=
  let p := alloc o (Z.of_nat n) in
  if p =? 0 then Done (0, o) else Done (p, <[p := replicate n 0]> o).

Definition scalar_hash (n : nat) (signed : bool) (elem : Z) (o : objects) : outcome Z :=
  if elem =? 0 then Done 0
  else
    let! bs := deref (o !! elem) in
    if (length bs <? n)%nat then Undef
    else
      let x := le_value n bs in
      Done (if signed then sign_extend (8 * Z.of_nat n) x else x).

Definition string_copy_constructor (elem : Z) (o : objects) : outcome (Z * objects) :=
  if elem =? 0 then Done (0, o)
  else
    let! bs := deref (o !! elem) in
    let! str := deref (cstr_of bs) in
    let p := alloc o (Z.of_nat (length str)) in
    if p =? 0 then Done (0, o) else Done (p, <[p := str]> o).

Definition string_destructor (elem : Z) (o : objects) : outcome objects := c_free elem o.

Definition string_default_constructor (o : objects) : outcome (Z * objects) := scalar_default 1 o.

(** [hash = (hash << 5) + hash + c] over the (signed) characters. *)
Fixpoint string_hash_loop (hash : Z) (str : list Z) : outcome Z :=
  match str with
  | [] => Undef
  | c :: str =>
      if c =? 0 then Done hash
      else string_hash_loop
             (u64 (u64 (u64 (Z.shiftl hash 5) + hash) + (if c <? 128 then c else c - 256))) str
  end.

Definition string_hash_function (elem : Z) (o : objects) : outcome Z :=
  if elem =? 0 then Done 163
  else let! bs := deref (o !! elem) in string_hash_loop 5381 bs.

Definition char_copy_constructor := scalar_copy 1.
Definition char_destructor (elem : Z) (o : objects) : outcome objects := c_free elem o.
Definition char_default_constructor := scalar_default 1.
Definition char_hash_function := scalar_hash 1 true.

Definition double_copy_constructor := scalar_copy 8.
Definition double_destructor (elem : Z) (o : objects) : outcome objects := c_free elem o.
Definition double_default_constructor := scalar_default 8.

Definition float_copy_constructor := scalar_copy 4.
Definition float_destructor (elem : Z) (o : objects) : outcome objects := c_free elem o.
Definition float_default_constructor := scalar_default 4.

Definition int_copy_constructor := scalar_copy 4.
Definition int_destructor (elem : Z) (o : objects) : outcome objects := c_free elem o.
Definition int_default_constructor := scalar_default 4.
Definition int_hash_function := scalar_hash 4 true.

Definition long_copy_constructor := scalar_copy 8.
Definition long_destructor (elem : Z) (o : objects) : outcome objects := c_free elem o.
Definition long_default_constructor := scalar_default 8.
Definition long_hash_function := scalar_hash 8 true.

Definition short_copy_constructor := scalar_copy 2.
Definition short_destructor (elem : Z) (o : objects) : outcome objects := c_free elem o.
Definition short_default_constructor := scalar_default 2.
Definition short_hash_function := scalar_hash 2 true.

Definition unsigned_char_copy_constructor := scalar_copy 1.
Definition unsigned_char_destructor (elem : Z) (o : objects) : outcome objects := c_free elem o.
Definition unsigned_char_default_constructor := scalar_default 1.
Definition unsigned_char_hash_function := scalar_hash 1 false.

Definition unsigned_int_copy_constructor := scalar_copy 4.
Definition unsigned_int_destructor (elem : Z) (o : objects) : outcome objects := c_free elem o.
Definition unsigned_int_default_constructor := scalar_default 4.
Definition unsigned_int_hash_function := scalar_hash 4 false.

Definition unsigned_long_copy_constructor := scalar_copy 8.
Definition unsigned_long_destructor (elem : Z) (o : objects) : outcome objects := c_free elem o.
Definition unsigned_long_default_constructor := scalar_default 8.
Definition unsigned_long_hash_function := scalar_hash 8 false.

Definition unsigned_short_copy_constructor := scalar_copy 2.
Definition unsigned_short_destructor (elem : Z) (o : objects) : outcome objects := c_free elem o.
Definition unsigned_short_default_constructor := scalar_default 2.
Definition unsigned_short_hash_function := scalar_hash 2 false.

End Alloc.

(** An allocator for concrete runs: the least address above every one in use. *)
Definition next_address {A} (o : gmap Z A) (k : Z) : Z := 1 + set_fold Z.max 0 (dom o).

Lemma fold_max_ge (l : list Z) p : p ∈ l -> p <= foldr Z.max 0 l.
Proof. induction l as [|q l IH]; intros H; [set_solver|]. cbn. apply elem_of_cons in H as [->|H]; [|apply IH in H]; lia. Qed.

Lemma fold_max_nonneg (l : list Z) : 0 <= foldr Z.max 0 l.
Proof. induction l; cbn; lia. Qed.

Lemma next_address_fresh {A} (o : gmap Z A) k : next_address o k <> 0 /\ o !! next_address o k = None.
Proof.
  unfold next_address, set_fold. cbn. split; [pose proof (fold_max_nonneg (elements (dom o))); lia|].
  apply not_elem_of_dom. intros Hin.
  assert (1 + foldr Z.max 0 (elements (dom o)) ∈ elements (dom o)) as H by (by apply elem_of_elements).
  apply fold_max_ge in H. lia.
Qed.
