(* ===== verification/Vector.v ===== *)
(** * The dynamic array of [vector/vector.c]

    A vector is its allocated slot array, its size and its capacity.  Slots
    that were allocated but never written hold no value ([None]); reading one,
    or indexing outside the allocation, is [Undef].  The element callbacks are
    parameters acting on a user heap [S], so what they allocate and free is
    visible; [can_alloc n] says whether [malloc]/[realloc] of [n] bytes succeeds
    (the code does not check). *)

From S2P Require Import Prelude Callbacks.

Record vector := Vector {
  array : list (option Z);
  size : Z;
  capacity : Z;
}.

Definition set_array (v : vector) (a : list (option Z)) : vector := Vector a (size v) (capacity v).
Definition set_size (v : vector) (n : Z) : vector := Vector (array v) n (capacity v).

(** The two blocks a vector owns, as [vector_destroy] sees them: the object
    ([None] once it is freed), whether [this->array] is null, and whether the
    block it points or pointed to is allocated. *)
Record storage := Storage {
  this_block : option vector;
  array_null : bool;
  array_live : bool;
}.

(** [vector_create] allocates both; [vector_reserve] moves the array with
    [realloc], which leaves one allocated array block. *)
Definition allocated (v : vector) : storage := Storage (Some v) false true.

(** Both blocks given back. *)
Definition released : storage := Storage None true false.

Definition INITIAL_CAPACITY : Z := 8.
Definition GROWTH_FACTOR : Z := 2.

(** [v->array[i]] as an rvalue and as an lvalue. *)
Definition aget (v : vector) (i : Z) : outcome Z :=
  if (0 <=? i) && (i <? Z.of_nat (length (array v))) then
    match array v !! Z.to_nat i with Some (Some x) => Done x | _ => Undef end
  else Undef.

Definition aset (v : vector) (i x : Z) : outcome vector :=
  if (0 <=? i) && (i <? Z.of_nat (length (array v))) then
    Done (set_array v (<[Z.to_nat i := Some x]> (array v)))
  else Undef.

Fixpoint new_capacity_loop (fuel : nat) (new_capacity target : Z) : outcome Z :=
  match fuel with
  | O => OutOfFuel
  | S fuel =>
      if new_capacity <? target
      then new_capacity_loop fuel (u64 (new_capacity * GROWTH_FACTOR)) target
      else Done new_capacity
  end.

(** 65 rounds are enough: the capacity doubles from 1 and the loop runs at most
    64 times before the value reaches 2^63 ([get_new_capacity_total]). *)
Definition get_new_capacity (target : Z) : outcome Z := new_capacity_loop 65 1 target.

Section Callbacks.

Context {St : Type}.
Variable can_alloc : Z -> bool.
Variable copy_constructor : Z -> St -> outcome (Z * St).
Variable destructor : Z -> St -> outcome St.
Variable default_constructor : St -> outcome (Z * St).

(** [(void** )malloc(n)]: fresh slots, or the null pointer (no slot usable). *)
Definition alloc_slots (nbytes : Z) : list (option Z) :=
  if can_alloc nbytes then replicate (Z.to_nat (nbytes / 8)) None else [].

Definition realloc_slots (a : list (option Z)) (nbytes : Z) : list (option Z) :=
  if can_alloc nbytes then
    take (Z.to_nat (nbytes / 8)) a ++ replicate (Z.to_nat (nbytes / 8) - length a) None
  else [].

Definition vector_create : vector :=
  Vector (alloc_slots (u64 (8 * INITIAL_CAPACITY))) 0 INITIAL_CAPACITY.

(** Destroy the non-null elements from index [i] on, [k] of them to go. *)
Fixpoint vector_destroy_loop (k : nat) (i : Z) (v : vector) (s : St) : outcome (vector * St) :=
  match k with
  | O => Done (v, s)
  | S k =>
      let! x := aget v i in
      if x =? 0 then vector_destroy_loop k (i + 1) v s
      else
        let! s := destructor x s in
        let! v := aset v i 0 in
        vector_destroy_loop k (i + 1) v s
  end.

(** [free(this->array)]: nothing for the null pointer, undefined for a block that
    is not allocated; [this] itself is read, so it must still be allocated. *)
Definition free_array (st : storage) : outcome storage :=
  let! v := deref (this_block st) in
  if array_null st then Done st
  else if array_live st then Done (Storage (Some v) false false) else Undef.

Definition null_array (st : storage) : outcome storage :=
  let! v := deref (this_block st) in
  Done (Storage (Some (set_array v [])) true (array_live st)).

Definition free_this (st : storage) : outcome storage :=
  let! _ := deref (this_block st) in
  Done (Storage None (array_null st) (array_live st)).

Definition vector_destroy (st : storage) (s : St) : outcome (storage * St) :=
  let! v := deref (this_block st) in
  let! (v, s) := vector_destroy_loop (Z.to_nat (size v)) 0 v s in
  let! st := free_array (Storage (Some v) (array_null st) (array_live st)) in
  let! st := null_array st in
  let! st := free_this st in
  Done (st, s).

(** Pointers into the array are returned as indices. *)
Definition vector_begin (v : vector) : outcome Z :=
  let! _ := c_assert (negb (size v =? 0)) in Done 0.

Definition vector_end (v : vector) : Z := size v.

Definition vector_size (v : vector) : Z := size v.

Definition vector_capacity (v : vector) : Z := capacity v.

Definition vector_empty (v : vector) : bool := size v =? 0.

Definition vector_reserve (v : vector) (n : Z) : outcome vector :=
  if capacity v <? n then
    let! c := get_new_capacity n in
    Done (Vector (realloc_slots (array v) (u64 (c * 8))) (size v) c)
  else Done v.

Fixpoint destroy_range (k : nat) (i : Z) (v : vector) (s : St) : outcome St :=
  match k with
  | O => Done s
  | S k =>
      let! x := aget v i in
      let! s := destructor x s in
      destroy_range k (i + 1) v s
  end.

Fixpoint default_range (k : nat) (i : Z) (v : vector) (s : St) : outcome (vector * St) :=
  match k with
  | O => Done (v, s)
  | S k =>
      let! (x, s) := default_constructor s in
      let! v := aset v i x in
      default_range k (i + 1) v s
  end.

Definition vector_resize (v : vector) (n : Z) (s : St) : outcome (vector * St) :=
  if n <? size v then
    let! s := destroy_range (Z.to_nat (size v - n)) n v s in
    Done (set_size v n, s)
  else if n <=? capacity v then
    let! (v, s) := default_range (Z.to_nat (n - size v)) (size v) v s in
    Done (set_size v n, s)
  else
    let! v := vector_reserve v n in
    let! (v, s) := default_range (Z.to_nat (n - size v)) (size v) v s in
    Done (set_size v n, s).

Definition vector_at (v : vector) (position : Z) : outcome Z :=
  let! _ := c_assert (position <? size v) in Done position.

Definition vector_set (v : vector) (position element : Z) (s : St) : outcome (vector * St) :=
  let! _ := c_assert (position <? size v) in
  let! x := aget v position in
  let! s := destructor x s in
  let! (y, s) := copy_constructor element s in
  let! v := aset v position y in
  Done (v, s).

Definition vector_get (v : vector) (position : Z) : outcome Z :=
  let! _ := c_assert (position <? size v) in aget v position.

Definition vector_front (v : vector) : outcome Z :=
  let! _ := c_assert (negb (size v =? 0)) in Done 0.

Definition vector_back (v : vector) : outcome Z :=
  let! _ := c_assert (negb (size v =? 0)) in Done (size v - 1).

Definition vector_push_back (v : vector) (element : Z) (s : St) : outcome (vector * St) :=
  let v := set_size v (u64 (size v + 1)) in
  let! v := if capacity v <? size v then vector_reserve v (size v) else Done v in
  let! (y, s) := copy_constructor element s in
  let! v := aset v (u64 (size v - 1)) y in
  Done (v, s).

Definition vector_pop_back (v : vector) (s : St) : outcome (vector * St) :=
  let! _ := c_assert (negb (size v =? 0)) in
  let! x := aget v (size v - 1) in
  let! s := destructor x s in
  Done (set_size v (u64 (size v - 1)), s).

(** [for (size_t i = old_size - 1; i >= position; --i)]: the index is unsigned. *)
Fixpoint insert_shift (fuel : nat) (i position : Z) (v : vector) (s : St) : outcome (vector * St) :=
  match fuel with
  | O => OutOfFuel
  | S fuel =>
      if position <=? i then
        let! x := aget v i in
        let! (y, s) := copy_constructor x s in
        let! v := aset v (u64 (i + 1)) y in
        let! x := aget v i in
        let! s := destructor x s in
        insert_shift fuel (u64 (i - 1)) position v s
      else Done (v, s)
  end.

Definition vector_insert (v : vector) (position element : Z) (s : St) : outcome (vector * St) :=
  let! _ := c_assert (position <=? size v) in
  let old_size := size v in
  let v := set_size v (u64 (size v + 1)) in
  let! v := if capacity v <? size v then vector_reserve v (size v) else Done v in
  let! (v, s) := insert_shift (S (S (Z.to_nat old_size))) (u64 (old_size - 1)) position v s in
  let! (y, s) := copy_constructor element s in
  let! v := aset v position y in
  Done (v, s).

Fixpoint erase_shift (k : nat) (i : Z) (v : vector) (s : St) : outcome (vector * St) :=
  match k with
  | O => Done (v, s)
  | S k =>
      let! x := aget v i in
      let! s := destructor x s in
      let! x := aget v (u64 (i + 1)) in
      let! (y, s) := copy_constructor x s in
      let! v := aset v i y in
      erase_shift k (i + 1) v s
  end.

Definition vector_erase (v : vector) (position : Z) (s : St) : outcome (vector * St) :=
  let! _ := c_assert (position <? vector_size v) in
  let old_size := size v in
  let v := set_size v (u64 (size v - 1)) in
  let! (v, s) := erase_shift (Z.to_nat (old_size - 1 - position)) position v s in
  let! x := aget v (size v) in
  let! s := destructor x s in
  Done (v, s).

Fixpoint vector_clear_loop (k : nat) (i : Z) (v : vector) (s : St) : outcome (vector * St) :=
  match k with
  | O => Done (v, s)
  | S k =>
      let! x := aget v i in
      let! s := destructor x s in
      let! v := aset v i 0 in
      vector_clear_loop k (i + 1) v s
  end.

Definition vector_clear (v : vector) (s : St) : outcome (vector * St) :=
  let! (v, s) := vector_clear_loop (Z.to_nat (size v)) 0 v s in
  Done (set_size v 0, s).

End Callbacks.

(** ** Vectors with their callbacks

    [vector_create] stores the three callbacks in the object (the shallow ones
    in place of null pointers); the typed constructors only choose them. *)

Record callbacks (St : Type) := Callbacks {
  cb_copy : Z -> St -> outcome (Z * St);
  cb_destroy : Z -> St -> outcome St;
  cb_default : St -> outcome (Z * St);
}.
Arguments Callbacks {St}.
Arguments cb_copy {St}.
Arguments cb_destroy {St}.
Arguments cb_default {St}.

Definition vector_create_with {St} (can_alloc : Z -> bool)
    (copy : option (Z -> St -> outcome (Z * St))) (destroy : option (Z -> St -> outcome St))
    (default : option (St -> outcome (Z * St))) : callbacks St * vector :=
  (Callbacks
     (match copy with Some f => f | None => shallow_copy_constructor end)
     (match destroy with Some f => f | None => shallow_destructor end)
     (match default with Some f => f | None => shallow_default_constructor end),
   vector_create can_alloc).

Definition shallow_vector_create {St} (can_alloc : Z -> bool) : callbacks St * vector :=
  vector_create_with can_alloc (Some shallow_copy_constructor) (Some shallow_destructor)
    (Some shallow_default_constructor).

Section Typed.
Variable can_alloc : Z -> bool.
Variable alloc : objects -> Z -> Z.

Definition string_vector_create : callbacks objects * vector :=
  vector_create_with can_alloc (Some (string_copy_constructor alloc)) (Some string_destructor)
    (Some (string_default_constructor alloc)).

Definition char_vector_create : callbacks objects * vector :=
  vector_create_with can_alloc (Some (char_copy_constructor alloc)) (Some char_destructor)
    (Some (char_default_constructor alloc)).

Definition double_vector_create : callbacks objects * vector :=
  vector_create_with can_alloc (Some (double_copy_constructor alloc)) (Some double_destructor)
    (Some (double_default_constructor alloc)).

Definition float_vector_create : callbacks objects * vector :=
  vector_create_with can_alloc (Some (float_copy_constructor alloc)) (Some float_destructor)
    (Some (float_default_constructor alloc)).

Definition int_vector_create : callbacks objects * vector :=
  vector_create_with can_alloc (Some (int_copy_constructor alloc)) (Some int_destructor)
    (Some (int_default_constructor alloc)).

Definition long_vector_create : callbacks objects * vector :=
  vector_create_with can_alloc (Some (long_copy_constructor alloc)) (Some long_destructor)
    (Some (long_default_constructor alloc)).

Definition short_vector_create : callbacks objects * vector :=
  vector_create_with can_alloc (Some (short_copy_constructor alloc)) (Some short_destructor)
    (Some (short_default_constructor alloc)).

Definition unsigned_char_vector_create : callbacks objects * vector :=
  vector_create_with can_alloc (Some (unsigned_char_copy_constructor alloc)) (Some unsigned_char_destructor)
    (Some (unsigned_char_default_constructor alloc)).

Definition unsigned_int_vector_create : callbacks objects * vector :=
  vector_create_with can_alloc (Some (unsigned_int_copy_constructor alloc)) (Some unsigned_int_destructor)
    (Some (unsigned_int_default_constructor alloc)).

Definition unsigned_long_vector_create : callbacks objects * vector :=
  vector_create_with can_alloc (Some (unsigned_long_copy_constructor alloc)) (Some unsigned_long_destructor)
    (Some (unsigned_long_default_constructor alloc)).

Definition unsigned_short_vector_create : callbacks objects * vector :=
  vector_create_with can_alloc (Some (unsigned_short_copy_constructor alloc)) (Some unsigned_short_destructor)
    (Some (unsigned_short_default_constructor alloc)).

End Typed.
