(* ===== verification/VectorSpec.v ===== *)
(** * Correctness of the vector with deep-copied elements

    With the scalar callbacks of Callbacks.v a vector owns its elements: the
    invariant [vrep] says that the vector's slots are exactly the live element
    objects, each holding its value, next to objects [F] the vector does not own.
    Every operation is shown to implement the obvious operation on the list of
    values, never to leak or double-free an element, and never to touch [F]. *)

From stdpp Require Import gmap.
From S2P Require Import Prelude Callbacks Vector.
Open Scope Z_scope.

(** ** [get_new_capacity] *)

Lemma new_capacity_loop_spec k j fuel target :
  1 <= target <= 2 ^ Z.of_nat (j + k) -> (j = 0%nat \/ 2 ^ (Z.of_nat j - 1) < target) ->
  (j + k <= 63)%nat -> (k < fuel)%nat ->
  exists c i, new_capacity_loop fuel (2 ^ Z.of_nat j) target = Done c
    /\ c = 2 ^ Z.of_nat i /\ target <= c /\ c < 2 * target.
Proof.
  revert j fuel. induction k as [|k IH]; intros j [|fuel] Ht Hj Hle Hf; try lia; cbn [new_capacity_loop].
  - rewrite Nat.add_0_r in *. rewrite (proj2 (Z.ltb_ge _ _)) by lia.
    exists (2 ^ Z.of_nat j), j. repeat split; try lia.
    destruct Hj as [->|Hj]; [cbn in *; lia|].
    destruct (Z.eq_dec (Z.of_nat j) 0) as [E|E]; [rewrite E in *; cbn in *; lia|].
    replace (Z.of_nat j) with (Z.succ (Z.of_nat j - 1)) by lia. rewrite Z.pow_succ_r by lia. lia.
  - destruct (2 ^ Z.of_nat j <? target) eqn:E; bool_to_prop.
    + unfold GROWTH_FACTOR.
      assert (Hp : 2 ^ Z.of_nat j * 2 = 2 ^ Z.of_nat (S j)) by (rewrite Nat2Z.inj_succ, Z.pow_succ_r; lia).
      assert (2 ^ Z.of_nat (S j) <= 2 ^ 63) by (apply Z.pow_le_mono_r; lia).
      assert (0 < 2 ^ Z.of_nat (S j)) by (apply Z.pow_pos_nonneg; lia).
      rewrite Hp, u64_small by lia. apply IH; try lia.
      * replace (S j + k)%nat with (j + S k)%nat by lia. done.
      * right. replace (Z.of_nat (S j) - 1) with (Z.of_nat j) by lia. done.
    + exists (2 ^ Z.of_nat j), j. repeat split; try lia.
      destruct Hj as [->|Hj]; [cbn in *; lia|].
      destruct (Z.eq_dec (Z.of_nat j) 0) as [E'|E']; [rewrite E' in *; cbn in *; lia|].
      replace (Z.of_nat j) with (Z.succ (Z.of_nat j - 1)) by lia. rewrite Z.pow_succ_r by lia. lia.
Qed.

Lemma get_new_capacity_ok target :
  1 <= target <= 2 ^ 63 ->
  exists c i, get_new_capacity target = Done c /\ c = 2 ^ Z.of_nat i /\ target <= c /\ c < 2 * target.
Proof. intros. apply (new_capacity_loop_spec 63 0); cbn; try lia. Qed.

(** ** Owned objects *)

Section Own.

Variable alloc : objects -> Z -> Z.
Variable can_alloc : Z -> bool.
Variable n : nat.

(** [malloc] succeeds and returns an address not in use. *)
Hypothesis alloc_fresh : forall o k, alloc o k <> 0 /\ o !! alloc o k = None.
Hypothesis can_alloc_ok : forall k, can_alloc k = true.

Abbreviation obj := (list Z).
Implicit Types (l : list (Z * obj)) (F s : objects).

(** The heap [s] is the owned objects [l] next to the foreign objects [F]. *)
Record own l F s : Prop := {
  own_nodup : NoDup l.*1;
  own_nonnull : 0 ∉ l.*1;
  own_foreign : forall p, p ∈ l.*1 -> F !! p = None;
  own_len : Forall (fun e => length e.2 = n) l;
  own_heap : s = list_to_map l ∪ F;
}.

Lemma own_lookup l F s p x : own l F s -> (p, x) ∈ l -> s !! p = Some x.
Proof.
  intros [Hnd _ _ _ ->] Hin. apply lookup_union_Some_l. by apply elem_of_list_to_map_1.
Qed.

Lemma own_foreign_lookup l F s p x : own l F s -> F !! p = Some x -> s !! p = Some x.
Proof.
  intros [Hnd _ Hf _ ->] Hp. rewrite lookup_union_r; [done|].
  apply not_elem_of_list_to_map_1. intros Hin. rewrite (Hf _ Hin) in Hp. done.
Qed.

Lemma own_perm l l' F s : l ≡ₚ l' -> own l F s -> own l' F s.
Proof.
  intros Hp [Hnd H0 Hf Hl ->]. split.
  - by rewrite <- Hp.
  - by rewrite <- Hp.
  - intros p. rewrite <- Hp. apply Hf.
  - by rewrite <- Hp.
  - f_equal. by apply list_to_map_proper.
Qed.

(** Adding a fresh object. *)
Lemma own_insert l F s q x :
  own l F s -> s !! q = None -> q <> 0 -> length x = n -> own ((q, x) :: l) F (<[q := x]> s).
Proof.
  intros [Hnd H0 Hf Hl ->] Hq Hq0 Hx. apply lookup_union_None in Hq as [Hq1 Hq2].
  apply not_elem_of_list_to_map_2 in Hq1. split; cbn.
  - by constructor.
  - set_solver.
  - intros p [->|Hp]%elem_of_cons; [done|by apply Hf].
  - by constructor.
  - by rewrite insert_union_l.
Qed.

(** Freeing an owned object. *)
Lemma own_free l F s p x :
  own ((p, x) :: l) F s -> c_free p s = Done (delete p s) /\ own l F (delete p s).
Proof.
  intros Hown. pose proof (own_lookup _ _ _ p x Hown ltac:(set_solver)) as Hp.
  destruct Hown as [Hnd H0 Hf Hl ->]. cbn in *. apply NoDup_cons in Hnd as [Hpn Hnd].
  unfold c_free. rewrite (proj2 (Z.eqb_neq p 0)) by set_solver. rewrite Hp. split; [done|]. split.
  - done.
  - set_solver.
  - intros q Hq. apply Hf. set_solver.
  - by apply Forall_cons in Hl as [_ ?].
  - rewrite delete_union, delete_insert_eq, (delete_id F) by (apply Hf; set_solver).
    rewrite delete_id; [done|]. by apply not_elem_of_list_to_map_1.
Qed.

Lemma own_copy l F s p x :
  own l F s -> s !! p = Some x -> p <> 0 -> length x = n ->
  exists q s', scalar_copy alloc n p s = Done (q, s') /\ own ((q, x) :: l) F s'
    /\ (forall p' x', s !! p' = Some x' -> s' !! p' = Some x').
Proof.
  intros Hown Hp Hp0 Hx. unfold scalar_copy. rewrite (proj2 (Z.eqb_neq p 0)) by done.
  destruct (alloc_fresh s (Z.of_nat n)) as [Hq0 Hq]. rewrite (proj2 (Z.eqb_neq _ 0)) by done.
  rewrite Hp. cbn [deref obind]. rewrite (proj2 (Nat.ltb_ge _ _)) by lia.
  rewrite take_ge by lia. eexists _, _. split; [done|]. split; [by apply own_insert|].
  intros p' x' Hp'. rewrite lookup_insert_ne; [done|congruence].
Qed.

Lemma own_default l F s :
  own l F s ->
  exists q s', scalar_default alloc n s = Done (q, s') /\ own ((q, replicate n 0) :: l) F s'.
Proof.
  intros Hown. unfold scalar_default. destruct (alloc_fresh s (Z.of_nat n)) as [Hq0 Hq].
  rewrite (proj2 (Z.eqb_neq _ 0)) by done. eexists _, _. split; [done|].
  apply own_insert; [done|done|done|]. by rewrite length_replicate.
Qed.

(** ** The vector's slots *)

(** The first slots hold the elements [l]; the rest is spare capacity. *)
Definition slots (v : vector) (l : list (Z * obj)) (rest : list (option Z)) : Prop :=
  array v = (Some <$> l.*1) ++ rest.

Record vrep (v : vector) (F s : objects) (l : list (Z * obj)) : Prop := {
  v_slots : exists rest, slots v l rest;
  v_size : size v = Z.of_nat (length l);
  v_cap : capacity v = Z.of_nat (length (array v));
  v_own : own l F s;
}.

Lemma aget_mid v a p b :
  array v = a ++ Some p :: b -> aget v (Z.of_nat (length a)) = Done p.
Proof.
  intros Ha. unfold aget. rewrite Ha, length_app. cbn [length].
  rewrite in_range by lia. rewrite Nat2Z.id, list_lookup_middle; done.
Qed.

Lemma aset_mid v a o b q :
  array v = a ++ o :: b -> aset v (Z.of_nat (length a)) q = Done (set_array v (a ++ Some q :: b)).
Proof.
  intros Ha. unfold aset. rewrite Ha, length_app. cbn [length].
  rewrite in_range by lia. rewrite Nat2Z.id.
  replace (length a) with (length a + 0)%nat by lia. by rewrite insert_app_r.
Qed.

(** Growing keeps the contents. *)
Lemma vector_reserve_ok v l rest k :
  slots v l rest -> capacity v = Z.of_nat (length (array v)) -> 0 <= k <= 2 ^ 59 ->
  exists v' rest', vector_reserve can_alloc v k = Done v' /\ slots v' l rest'
    /\ capacity v' = Z.of_nat (length (array v')) /\ k <= capacity v' /\ size v' = size v.
Proof.
  intros Hs Hc Hk. unfold vector_reserve. destruct (capacity v <? k) eqn:E; bool_to_prop.
  - destruct (get_new_capacity_ok k) as (c & i & -> & Hci & Hkc & Hck); [lia|]. cbn [obind].
    unfold realloc_slots. rewrite can_alloc_ok. wrap_simpl. rewrite Z.div_mul by lia.
    rewrite take_ge by lia. eexists _, _. split; [done|]. unfold slots in *. cbn.
    rewrite Hs, <- app_assoc. split; [done|]. split; [|lia].
    rewrite !length_app, length_replicate. rewrite Hs, length_app in Hc. lia.
  - exists v, rest. split; [done|]. split; [done|]. split; [done|]. split; [lia|done].
Qed.

Lemma slots_room v l rest k :
  slots v l rest -> capacity v = Z.of_nat (length (array v)) ->
  Z.of_nat (length l) < capacity v -> k = Z.of_nat (length l) ->
  exists o rest', rest = o :: rest' /\ k = Z.of_nat (length (Some <$> l.*1)).
Proof.
  intros Hs Hc Hlt ->. rewrite Hc, Hs, length_app, !length_fmap in Hlt.
  rewrite !length_fmap. destruct rest; [cbn in *; lia|]. eauto.
Qed.

Ltac vsimpl := cbn [obind c_assert array size capacity set_array set_size] in *.

(** Make room for one more element, as [vector_push_back] and [vector_insert] do. *)
Lemma grow_ok v F s l :
  vrep v F s l -> Z.of_nat (length l) < 2 ^ 58 ->
  exists v1 o rest, (let v := set_size v (u64 (size v + 1)) in
      if capacity v <? size v then vector_reserve can_alloc v (size v) else Done v) = Done v1
    /\ slots v1 l (o :: rest) /\ size v1 = Z.of_nat (length l) + 1
    /\ capacity v1 = Z.of_nat (length (array v1)).
Proof.
  intros [[rest Hs] Hsz Hc Hown] Hl. cbv zeta.
  set (v0 := set_size v (u64 (size v + 1))).
  assert (Hs0 : slots v0 l rest) by done.
  assert (Hsz0 : size v0 = Z.of_nat (length l) + 1) by (subst v0; vsimpl; rewrite Hsz; by wrap_simpl).
  assert (Hroom : forall v1 rest1, slots v1 l rest1 -> capacity v1 = Z.of_nat (length (array v1)) ->
     Z.of_nat (length l) < capacity v1 -> exists o rest', rest1 = o :: rest').
  { intros v1 rest1 H1 H2 H3.
    destruct (slots_room v1 l rest1 _ H1 H2 H3 eq_refl) as (o & r & -> & _). eauto. }
  destruct (capacity v0 <? size v0) eqn:E; bool_to_prop.
  - destruct (vector_reserve_ok v0 l rest (size v0) Hs0 Hc) as (v1 & r1 & -> & Hs1 & Hc1 & Hk & Hsz1); [lia|].
    destruct (Hroom _ _ Hs1 Hc1) as (o & r & ->); [lia|].
    exists v1, o, r. split; [done|]. split; [done|]. split; [congruence|done].
  - destruct (Hroom _ _ Hs0 Hc) as (o & r & ->); [lia|].
    exists v0, o, r. done.
Qed.

Lemma length_slots l : Z.of_nat (length (Some <$> l.*1 : list (option Z))) = Z.of_nat (length l).
Proof. by rewrite !length_fmap. Qed.

Lemma length_upd (a b : list (option Z)) o o' : length (a ++ o :: b) = length (a ++ o' :: b).
Proof. by rewrite !length_app. Qed.

Lemma push_back_ok v F s l e x :
  vrep v F s l -> Z.of_nat (length l) < 2 ^ 58 -> s !! e = Some x -> e <> 0 -> length x = n ->
  exists v' s' l', vector_push_back can_alloc (scalar_copy alloc n) v e s = Done (v', s')
    /\ vrep v' F s' l' /\ l'.*2 = l.*2 ++ [x].
Proof.
  intros Hv Hl He He0 Hx. unfold vector_push_back.
  destruct (grow_ok v F s l Hv Hl) as (v1 & o & rest & Hg & Hs1 & Hsz1 & Hc1). cbv zeta in *.
  rewrite Hg. cbn [obind].
  destruct (own_copy l F s e x (v_own _ _ _ _ Hv) He He0 Hx) as (q & s' & -> & Hown & _). cbn [obind].
  replace (u64 (size v1 - 1)) with (Z.of_nat (length (Some <$> l.*1 : list (option Z))))
    by (rewrite length_slots, Hsz1; wrap_simpl; lia).
  rewrite (aset_mid v1 _ _ _ q Hs1). cbn [obind]. eexists _, _, (l ++ [(q, x)]). split; [done|].
  split; [|by rewrite fmap_app]. split.
  - exists rest. unfold slots. cbn. rewrite !fmap_app, <- app_assoc. done.
  - cbn. rewrite Hsz1, length_app. cbn. lia.
  - cbn. rewrite Hc1, Hs1. f_equal. apply length_upd.
  - eapply own_perm; [|exact Hown]. solve_Permutation.
Qed.

(** The backwards loop of [vector_insert], from the last element of [l2] down to
    its first; the slot after it is free. *)
Lemma insert_shift_ok l1 l2 l3 F v s o B fuel position :
  array v = (Some <$> l1.*1) ++ (Some <$> l2.*1) ++ o :: B ->
  own (l1 ++ l2 ++ l3) F s -> (0 < length l1)%nat -> position = Z.of_nat (length l1) ->
  Z.of_nat (length l1 + length l2) < 2 ^ 59 -> (length l2 < fuel)%nat ->
  exists v' s' l2' o', insert_shift (scalar_copy alloc n) c_free fuel
      (Z.of_nat (length l1 + length l2) - 1) position v s = Done (v', s')
    /\ array v' = (Some <$> l1.*1) ++ o' :: (Some <$> l2'.*1) ++ B
    /\ own (l1 ++ l2' ++ l3) F s' /\ l2'.*2 = l2.*2 /\ size v' = size v /\ capacity v' = capacity v.
Proof.
  revert l3 v s o B fuel. induction l2 as [|[p x] l2 IH] using rev_ind;
    intros l3 v s o B [|fuel] Ha Hown Hpos -> Hb Hf; cbn [insert_shift];
    try (cbn in Hf; lia); try (rewrite length_app in Hf; cbn in Hf; lia).
  - rewrite (proj2 (Z.leb_gt _ _)) by (cbn; lia).
    exists v, s, [], o. done.
  - rewrite length_app in *. cbn [length] in *.
    rewrite (proj2 (Z.leb_le _ _)) by lia.
    rewrite !fmap_app, <- !app_assoc in Ha. cbn in Ha. rewrite app_assoc in Ha.
    set (A := (Some <$> l1.*1) ++ (Some <$> l2.*1)) in *.
    assert (HA : Z.of_nat (length l1 + (length l2 + 1)) - 1 = Z.of_nat (length A))
      by (subst A; rewrite length_app, !length_fmap; lia).
    rewrite HA, (aget_mid v A p _ Ha). cbn [obind].
    assert (Hin : (p, x) ∈ l1 ++ (l2 ++ [(p, x)]) ++ l3) by set_solver.
    pose proof (own_lookup _ _ _ _ _ Hown Hin) as Hp.
    assert (Hp0 : p <> 0) by (intros ->; apply (own_nonnull _ _ _ Hown); apply list_elem_of_fmap; by exists (0, x)).
    assert (Hlx : length x = n).
    { pose proof (own_len _ _ _ Hown) as Hfl. rewrite Forall_forall in Hfl. by apply (Hfl _ Hin). }
    destruct (own_copy _ F s p x Hown Hp Hp0 Hlx) as (q & s1 & -> & Hown1 & _). cbn [obind].
    assert (Ha' : array v = (A ++ [Some p]) ++ o :: B) by (rewrite Ha, <- app_assoc; done).
    replace (u64 (Z.of_nat (length A) + 1)) with (Z.of_nat (length (A ++ [Some p])))
      by (rewrite length_app; cbn; wrap_simpl; lia).
    rewrite (aset_mid v _ _ _ q Ha'). cbn [obind].
    rewrite (aget_mid (set_array v _) A p (Some q :: B)) by (cbn; by rewrite <- app_assoc). cbn [obind].
    destruct (own_free (l1 ++ l2 ++ (q, x) :: l3) F s1 p x) as [-> Hown2].
    { eapply own_perm; [|exact Hown1]. solve_Permutation. }
    cbn [obind]. set (v1 := set_array v _).
    destruct (IH ((q, x) :: l3) v1 (delete p s1) (Some p) (Some q :: B) fuel)
      as (v' & s' & l2' & o' & Hrun & Har & Hown' & Hvals & Hsz & Hcap); [|done|lia|done|lia|lia|].
    { subst v1 A. cbn. by rewrite <- !app_assoc. }
    replace (u64 (Z.of_nat (length A) - 1)) with (Z.of_nat (length l1 + length l2) - 1)
      by (wrap_simpl; lia).
    rewrite Hrun. exists v', s', (l2' ++ [(q, x)]), o'. split; [done|]. split; [|split; [|split; [|done]]].
    + rewrite Har, !fmap_app, <- app_assoc. done.
    + eapply own_perm; [|exact Hown']. solve_Permutation.
    + by rewrite !fmap_app, Hvals.
Qed.

Lemma insert_ok v F s l position e x :
  vrep v F s l -> Z.of_nat (length l) < 2 ^ 58 -> F !! e = Some x -> e <> 0 -> length x = n ->
  (0 < position <= length l)%nat ->
  exists v' s' l', vector_insert can_alloc (scalar_copy alloc n) c_free v (Z.of_nat position) e s = Done (v', s')
    /\ vrep v' F s' l' /\ l'.*2 = take position l.*2 ++ x :: drop position l.*2.
Proof.
  intros Hv Hl He He0 Hx Hpos. unfold vector_insert.
  pose proof (v_size _ _ _ _ Hv) as Hsz. unfold c_assert.
  rewrite (proj2 (Z.leb_le _ _)) by lia. cbn [obind].
  destruct (grow_ok v F s l Hv Hl) as (v1 & o & rest & Hg & Hs1 & Hsz1 & Hc1). cbv zeta in *.
  rewrite Hg. cbn [obind]. rewrite Hsz.
  set (l1 := take position l). set (l2 := drop position l).
  assert (Hl12 : l = l1 ++ l2) by (subst l1 l2; by rewrite take_drop).
  assert (Hlen1 : length l1 = position) by (subst l1; rewrite length_take; lia).
  pose proof (v_own _ _ _ _ Hv) as Hown. rewrite Hl12 in Hown.
  destruct (insert_shift_ok l1 l2 [] F v1 s o rest (S (S (Z.to_nat (Z.of_nat (length l))))) (Z.of_nat position))
    as (v2 & s2 & l2' & o' & Hrun & Har & Hown2 & Hvals & Hsz2 & Hcap2).
  { unfold slots in Hs1. by rewrite Hs1, Hl12, !fmap_app, <- app_assoc. }
  { by rewrite app_nil_r. }
  { lia. }
  { by rewrite Hlen1. }
  { rewrite <- length_app, <- Hl12. lia. }
  { rewrite Nat2Z.id, Hl12, length_app. lia. }
  rewrite <- length_app, <- Hl12 in Hrun.
  replace (u64 (Z.of_nat (length l) - 1)) with (Z.of_nat (length l) - 1) by (wrap_simpl; lia).
  rewrite Hrun. cbn [obind]. rewrite app_nil_r in Hown2.
  destruct (own_copy _ F s2 e x Hown2 (own_foreign_lookup _ _ _ _ _ Hown2 He) He0 Hx)
    as (q & s3 & -> & Hown3 & _). cbn [obind].
  replace (Z.of_nat position) with (Z.of_nat (length (Some <$> l1.*1 : list (option Z))))
    by (rewrite length_slots; lia).
  rewrite (aset_mid v2 _ _ _ q Har). cbn [obind].
  eexists _, s3, (l1 ++ (q, x) :: l2'). split; [done|]. split.
  - split.
    + exists rest. unfold slots. cbn. by rewrite !fmap_app, <- app_assoc.
    + cbn. rewrite Hsz2, Hsz1, Hl12, !length_app. cbn.
      assert (length l2' = length l2) by (apply (f_equal length) in Hvals; by rewrite !length_fmap in Hvals). lia.
    + cbn. rewrite Hcap2, Hc1. unfold slots in Hs1. rewrite Hs1, !length_app. cbn. rewrite !length_app, !length_fmap.
      assert (length l2' = length l2) by (apply (f_equal length) in Hvals; by rewrite !length_fmap in Hvals).
      rewrite Hl12, length_app. lia.
    + eapply own_perm; [|exact Hown3]. solve_Permutation.
  - rewrite fmap_app, fmap_cons, Hvals. subst l1 l2. by rewrite fmap_take, fmap_drop.
Qed.

Lemma own_in l F s p x : own l F s -> (p, x) ∈ l -> s !! p = Some x /\ p <> 0 /\ length x = n.
Proof.
  intros Hown Hin. split; [by eapply own_lookup|]. split.
  - intros ->. apply (own_nonnull _ _ _ Hown). apply list_elem_of_fmap. by exists (0, x).
  - pose proof (own_len _ _ _ Hown) as Hfl. rewrite Forall_forall in Hfl. by apply (Hfl _ Hin).
Qed.

Lemma set_ok v F s l1 p y l2 e x :
  vrep v F s (l1 ++ (p, y) :: l2) -> F !! e = Some x -> e <> 0 -> length x = n ->
  exists v' s' q, vector_set (scalar_copy alloc n) c_free v (Z.of_nat (length l1)) e s = Done (v', s')
    /\ vrep v' F s' (l1 ++ (q, x) :: l2).
Proof.
  intros [[rest Hs] Hsz Hc Hown] He He0 Hx. unfold vector_set.
  rewrite length_app in Hsz. cbn [length] in Hsz. unfold c_assert.
  rewrite (proj2 (Z.ltb_lt _ _)) by lia. cbn [obind].
  unfold slots in Hs. rewrite !fmap_app, <- app_assoc in Hs. cbn in Hs.
  rewrite <- length_slots. rewrite (aget_mid v _ _ _ Hs). cbn [obind].
  destruct (own_free (l1 ++ l2) F s p y) as [-> Hown1]; [eapply own_perm; [|exact Hown]; solve_Permutation|].
  cbn [obind].
  destruct (own_copy _ F _ e x Hown1 (own_foreign_lookup _ _ _ _ _ Hown1 He) He0 Hx)
    as (q & s3 & -> & Hown3 & _). cbn [obind].
  rewrite (aset_mid v _ _ _ q Hs). cbn [obind]. eexists _, s3, q. split; [done|]. split.
  - exists rest. unfold slots. cbn. by rewrite !fmap_app, <- app_assoc.
  - cbn. rewrite Hsz, length_app. cbn. lia.
  - cbn. rewrite Hc, Hs. f_equal. apply length_upd.
  - eapply own_perm; [|exact Hown3]. solve_Permutation.
Qed.

(** The forward loop of [vector_erase]: afterwards the slot past the shifted
    elements still holds the old last element, which the caller destroys. *)
Lemma erase_shift_ok l2 l1 p x F v s B :
  array v = (Some <$> l1.*1) ++ Some p :: (Some <$> l2.*1) ++ B ->
  own (l1 ++ (p, x) :: l2) F s -> Z.of_nat (length l1 + length l2) < 2 ^ 59 ->
  exists v' s' l2' p' x',
    erase_shift (scalar_copy alloc n) c_free (length l2) (Z.of_nat (length l1)) v s = Done (v', s')
    /\ array v' = (Some <$> l1.*1) ++ (Some <$> l2'.*1) ++ Some p' :: B
    /\ own ((p', x') :: l1 ++ l2') F s' /\ l2'.*2 = l2.*2 /\ size v' = size v /\ capacity v' = capacity v.
Proof.
  revert l1 p x v s. induction l2 as [|[p2 x2] l2 IH]; intros l1 p x v s Ha Hown Hb; cbn [length erase_shift].
  - exists v, s, [], p, x. split; [done|]. split; [done|]. split; [|done].
    eapply own_perm; [|exact Hown]. solve_Permutation.
  - cbn [length] in Hb. rewrite <- (length_slots l1), (aget_mid v _ _ _ Ha). cbn [obind].
    destruct (own_free (l1 ++ (p2, x2) :: l2) F s p x) as [-> Hown1]; [eapply own_perm; [|exact Hown]; solve_Permutation|].
    cbn [obind]. cbn in Ha.
    assert (Ha2 : array v = ((Some <$> l1.*1) ++ [Some p]) ++ Some p2 :: (Some <$> l2.*1) ++ B)
      by (rewrite Ha, <- app_assoc; done).
    assert (Hi : u64 (Z.of_nat (length (Some <$> l1.*1 : list (option Z))) + 1)
      = Z.of_nat (length ((Some <$> l1.*1) ++ [Some p]))).
    { rewrite length_app, !length_fmap. cbn. wrap_simpl. lia. }
    rewrite Hi, (aget_mid v _ _ _ Ha2). cbn [obind].
    destruct (own_in _ _ _ p2 x2 Hown1) as (Hp & Hp0 & Hx2); [set_solver|].
    destruct (own_copy _ F _ p2 x2 Hown1 Hp Hp0 Hx2) as (q & s1 & -> & Hown2 & _). cbn [obind].
    rewrite (aset_mid v _ _ _ q Ha). cbn [obind].
    destruct (IH (l1 ++ [(q, x2)]) p2 x2 (set_array v ((Some <$> l1.*1) ++ Some q :: Some p2 :: (Some <$> l2.*1) ++ B)) s1)
      as (v' & s' & l2' & p' & x' & Hrun & Har & Hown' & Hvals & Hsz & Hcap).
    { cbn. by rewrite !fmap_app, <- app_assoc. }
    { eapply own_perm; [|exact Hown2]. solve_Permutation. }
    { rewrite length_app. cbn. lia. }
    replace (Z.of_nat (length (Some <$> l1.*1 : list (option Z))) + 1) with (Z.of_nat (length (l1 ++ [(q, x2)])))
      by (rewrite length_app, !length_fmap; cbn; lia).
    rewrite Hrun. exists v', s', ((q, x2) :: l2'), p', x'. split; [done|]. split; [|split; [|split; [|done]]].
    + rewrite Har, !fmap_app, <- app_assoc. done.
    + eapply own_perm; [|exact Hown']. solve_Permutation.
    + cbn. by rewrite Hvals.
Qed.

Lemma erase_ok v F s l1 p x l2 :
  vrep v F s (l1 ++ (p, x) :: l2) -> Z.of_nat (length l1 + length l2) < 2 ^ 59 ->
  exists v' s' l', vector_erase (scalar_copy alloc n) c_free v (Z.of_nat (length l1)) s = Done (v', s')
    /\ vrep v' F s' l' /\ l'.*2 = l1.*2 ++ l2.*2.
Proof.
  intros [[rest Hs] Hsz Hc Hown] Hb. unfold vector_erase, vector_size.
  rewrite length_app in Hsz. cbn [length] in Hsz. unfold c_assert.
  rewrite (proj2 (Z.ltb_lt _ _)) by lia. cbn [obind].
  unfold slots in Hs. rewrite !fmap_app, <- app_assoc in Hs. cbn in Hs.
  destruct (erase_shift_ok l2 l1 p x F (set_size v (u64 (size v - 1))) s rest Hs Hown Hb)
    as (v' & s' & l2' & p' & x' & Hrun & Har & Hown' & Hvals & Hsz' & Hcap').
  replace (Z.to_nat _) with (length l2) by lia. rewrite Hrun. cbn [obind].
  assert (Hl2 : length l2' = length l2) by (apply (f_equal length) in Hvals; by rewrite !length_fmap in Hvals).
  assert (Hsz2 : size v' = Z.of_nat (length l1 + length l2)) by (rewrite Hsz'; cbn; rewrite Hsz; wrap_simpl; lia).
  rewrite app_assoc in Har.
  replace (size v') with (Z.of_nat (length ((Some <$> l1.*1) ++ (Some <$> l2'.*1) : list (option Z))))
    by (rewrite length_app, !length_fmap, Hsz2; lia).
  rewrite (aget_mid v' _ _ _ Har). cbn [obind].
  destruct (own_free _ _ _ _ _ Hown') as [-> Hown2]. cbn [obind].
  exists v', (delete p' s'), (l1 ++ l2'). split; [done|]. split; [|by rewrite fmap_app, Hvals]. split.
  - exists (Some p' :: rest). unfold slots. by rewrite Har, !fmap_app, <- !app_assoc.
  - rewrite Hsz2, length_app. lia.
  - rewrite Hcap'. cbn. rewrite Hc, Hs, Har, !length_app. cbn. rewrite !length_app, !length_fmap. lia.
  - done.
Qed.

Lemma pop_ok v F s l p x :
  vrep v F s (l ++ [(p, x)]) -> Z.of_nat (length l) < 2 ^ 59 ->
  exists v', vector_pop_back c_free v s = Done (v', delete p s) /\ vrep v' F (delete p s) l.
Proof.
  intros [[rest Hs] Hsz Hc Hown] Hb. unfold vector_pop_back.
  rewrite length_app in Hsz. cbn [length] in Hsz. unfold c_assert.
  rewrite (proj2 (Z.eqb_neq _ _)) by lia. cbn [obind negb].
  unfold slots in Hs. rewrite !fmap_app, <- app_assoc in Hs. cbn in Hs.
  replace (size v - 1) with (Z.of_nat (length (Some <$> l.*1 : list (option Z)))) by (rewrite length_slots; lia).
  rewrite (aget_mid v _ _ _ Hs). cbn [obind].
  destruct (own_free l F s p x) as [-> Hown1]; [eapply own_perm; [|exact Hown]; solve_Permutation|].
  cbn [obind]. eexists. split; [done|]. split.
  - exists (Some p :: rest). done.
  - cbn. rewrite length_slots. wrap_simpl. lia.
  - done.
  - done.
Qed.

(** The destroying loops free every element they pass and leave the rest. *)
Lemma destroy_range_ok l2 A l3 F v s B :
  array v = A ++ (Some <$> l2.*1) ++ B -> own (l2 ++ l3) F s ->
  exists s', destroy_range c_free (length l2) (Z.of_nat (length A)) v s = Done s' /\ own l3 F s'.
Proof.
  revert A s. induction l2 as [|[p x] l2 IH]; intros A s Ha Hown; cbn [length destroy_range]; [eauto|].
  cbn in Ha. rewrite (aget_mid v _ _ _ Ha). cbn [obind].
  destruct (own_free (l2 ++ l3) F s p x Hown) as [-> Hown1]. cbn [obind].
  destruct (IH (A ++ [Some p]) (delete p s)) as (s' & Hrun & Hown'); [by rewrite <- app_assoc|done|].
  exists s'. split; [|done]. rewrite <- Hrun. f_equal. rewrite length_app. cbn. lia.
Qed.

Lemma clear_loop_ok l2 A l3 F v s B :
  array v = A ++ (Some <$> l2.*1) ++ B -> own (l2 ++ l3) F s ->
  exists v' s', vector_clear_loop c_free (length l2) (Z.of_nat (length A)) v s = Done (v', s') /\ own l3 F s'
    /\ length (array v') = length (array v) /\ size v' = size v /\ capacity v' = capacity v.
Proof.
  revert A v s. induction l2 as [|[p x] l2 IH]; intros A v s Ha Hown; cbn [length vector_clear_loop]; [eauto 10|].
  cbn in Ha. rewrite (aget_mid v _ _ _ Ha). cbn [obind].
  destruct (own_free (l2 ++ l3) F s p x Hown) as [-> Hown1]. cbn [obind].
  rewrite (aset_mid v _ _ _ 0 Ha). cbn [obind].
  destruct (IH (A ++ [Some 0]) (set_array v (A ++ Some 0 :: (Some <$> l2.*1) ++ B)) (delete p s))
    as (v' & s' & Hrun & Hown' & Hlen & Hsz & Hcap); [cbn; by rewrite <- app_assoc|done|].
  exists v', s'. split; [|split; [done|split; [|done]]].
  - rewrite <- Hrun. f_equal. rewrite length_app. cbn. lia.
  - rewrite Hlen, Ha. apply length_upd.
Qed.

Lemma vector_destroy_loop_ok l2 A l3 F v s B :
  array v = A ++ (Some <$> l2.*1) ++ B -> own (l2 ++ l3) F s ->
  exists v' s', vector_destroy_loop c_free (length l2) (Z.of_nat (length A)) v s = Done (v', s') /\ own l3 F s'.
Proof.
  revert A v s. induction l2 as [|[p x] l2 IH]; intros A v s Ha Hown; cbn [length vector_destroy_loop]; [eauto 10|].
  cbn in Ha. rewrite (aget_mid v _ _ _ Ha). cbn [obind].
  rewrite (proj2 (Z.eqb_neq p 0)) by (eapply (own_in _ _ _ p x Hown); set_solver).
  destruct (own_free (l2 ++ l3) F s p x Hown) as [-> Hown1]. cbn [obind].
  rewrite (aset_mid v _ _ _ 0 Ha). cbn [obind].
  destruct (IH (A ++ [Some 0]) (set_array v (A ++ Some 0 :: (Some <$> l2.*1) ++ B)) (delete p s))
    as (v' & s' & Hrun & Hown'); [cbn; by rewrite <- app_assoc|done|].
  exists v', s'. split; [|done]. rewrite <- Hrun. f_equal. rewrite length_app. cbn. lia.
Qed.

Lemma own_nil F s : own [] F s <-> s = F.
Proof.
  split; [intros [_ _ _ _ ->]; cbn; by rewrite map_empty_union|].
  intros ->. split; cbn; [constructor|set_solver|set_solver|constructor|by rewrite map_empty_union].
Qed.

Lemma slots_take v l rest : slots v l rest -> array v = [] ++ (Some <$> l.*1) ++ rest.
Proof. done. Qed.

Lemma destroy_ok v F s l : vrep v F s l -> vector_destroy c_free (allocated v) s = Done (released, F).
Proof.
  intros [[rest Hs] Hsz Hc Hown]. unfold vector_destroy, allocated. cbn [this_block obind deref]. rewrite Hsz, Nat2Z.id.
  destruct (vector_destroy_loop_ok l [] [] F v s rest Hs) as (v' & s' & Hrun & Hown'); [by rewrite app_nil_r|].
  change (Z.of_nat (length [])) with 0 in Hrun. rewrite Hrun. cbn [obind]. by apply own_nil in Hown' as ->.
Qed.

Lemma clear_ok v F s l :
  vrep v F s l -> exists v', vector_clear c_free v s = Done (v', F) /\ vrep v' F F [].
Proof.
  intros [[rest Hs] Hsz Hc Hown]. unfold vector_clear. rewrite Hsz, Nat2Z.id.
  destruct (clear_loop_ok l [] [] F v s rest Hs) as (v' & s' & Hrun & Hown' & Hlen & Hsz' & Hcap');
    [by rewrite app_nil_r|].
  change (Z.of_nat (length [])) with 0 in Hrun. rewrite Hrun. cbn [obind]. pose proof Hown' as Hn. apply own_nil in Hn as ->.
  eexists. split; [done|]. split; [by exists (array v')|done|cbn; lia|done].
Qed.

(** Filling slots with default elements, from slot [length l] on. *)
Lemma default_range_ok k l F v s B :
  array v = (Some <$> l.*1) ++ B -> (k <= length B)%nat -> own l F s ->
  exists v' s' l', default_range (scalar_default alloc n) k (Z.of_nat (length l)) v s = Done (v', s')
    /\ array v' = (Some <$> l'.*1) ++ drop k B /\ own l' F s'
    /\ l'.*2 = l.*2 ++ replicate k (replicate n 0) /\ capacity v' = capacity v.
Proof.
  revert l v s B. induction k as [|k IH]; intros l v s B Ha Hk Hown; cbn [default_range].
  - exists v, s, l. rewrite drop_0, app_nil_r. done.
  - destruct B as [|o B]; [cbn in Hk; lia|].
    destruct (own_default l F s Hown) as (q & s1 & -> & Hown1). cbn [obind].
    rewrite <- (length_slots l), (aset_mid v _ _ _ q Ha). cbn [obind].
    destruct (IH (l ++ [(q, replicate n 0)]) (set_array v ((Some <$> l.*1) ++ Some q :: B)) s1 B)
      as (v' & s' & l' & Hrun & Har & Hown' & Hvals & Hcap).
    { cbn. by rewrite !fmap_app, <- app_assoc. }
    { cbn in Hk. lia. }
    { eapply own_perm; [|exact Hown1]. solve_Permutation. }
    exists v', s', l'. split; [|split; [done|split; [done|split; [|done]]]].
    + rewrite <- Hrun. f_equal. rewrite length_app, !length_fmap. cbn. lia.
    + by rewrite Hvals, fmap_app, <- app_assoc.
Qed.

Lemma resize_ok v F s l k :
  vrep v F s l -> Z.of_nat (length l) < 2 ^ 58 -> Z.of_nat k <= 2 ^ 58 ->
  exists v' s' l',
    vector_resize can_alloc c_free (scalar_default alloc n) v (Z.of_nat k) s = Done (v', s')
    /\ vrep v' F s' l'
    /\ l'.*2 = take k l.*2 ++ replicate (k - length l) (replicate n 0).
Proof.
  intros [[rest Hs] Hsz Hc Hown] Hl Hk. unfold vector_resize. rewrite Hsz.
  destruct (Z.of_nat k <? Z.of_nat (length l)) eqn:E; bool_to_prop.
  - set (l1 := take k l). set (l2 := drop k l).
    assert (Hl12 : l = l1 ++ l2) by (subst l1 l2; by rewrite take_drop).
    assert (Hlen1 : length l1 = k) by (subst l1; rewrite length_take; lia).
    assert (Hlen2 : length l2 = (length l - k)%nat) by (subst l2; by rewrite length_drop).
    destruct (destroy_range_ok l2 (Some <$> l1.*1) l1 F v s rest) as (s' & Hrun & Hown').
    { unfold slots in Hs. by rewrite Hs, Hl12, !fmap_app, <- app_assoc. }
    { eapply own_perm; [|exact Hown]. rewrite Hl12. solve_Permutation. }
    replace (Z.to_nat _) with (length l2) by lia.
    rewrite length_slots, Hlen1 in Hrun. rewrite Hrun. cbn [obind].
    eexists _, s', l1. split; [done|]. split.
    + split; [|cbn; lia|done|done]. exists ((Some <$> l2.*1) ++ rest). unfold slots in *. cbn.
      by rewrite Hs, Hl12, !fmap_app, <- app_assoc.
    + subst l1. rewrite fmap_take. replace (k - length l)%nat with 0%nat by lia. by rewrite app_nil_r.
  - assert (Hgrow : forall v1 rest1, slots v1 l rest1 -> capacity v1 = Z.of_nat (length (array v1)) ->
      Z.of_nat k <= capacity v1 ->
      exists v' s' l', (let! (v, s) := default_range (scalar_default alloc n)
           (Z.to_nat (Z.of_nat k - Z.of_nat (length l))) (Z.of_nat (length l)) v1 s in
         Done (set_size v (Z.of_nat k), s)) = Done (v', s')
        /\ vrep v' F s' l' /\ l'.*2 = take k l.*2 ++ replicate (k - length l) (replicate n 0)).
    { intros v1 rest1 Hs1 Hc1 Hk1. replace (Z.to_nat _) with (k - length l)%nat by lia.
      unfold slots in Hs1.
      assert (Hroom : (k - length l <= length rest1)%nat)
        by (rewrite Hs1, length_app, !length_fmap in Hc1; lia).
      destruct (default_range_ok (k - length l) l F v1 s rest1 Hs1 Hroom Hown)
        as (v' & s' & l' & -> & Har & Hown' & Hvals & Hcap). cbn [obind].
      assert (Hl' : length l' = k).
      { apply (f_equal length) in Hvals. rewrite length_app, !length_fmap, length_replicate in Hvals. lia. }
      eexists _, s', l'. split; [done|]. split.
      - split; [by exists (drop (k - length l) rest1)|cbn; lia| |done].
        cbn. rewrite Hcap, Hc1, Har, Hs1, !length_app, !length_fmap, length_drop. lia.
      - rewrite Hvals. f_equal. rewrite take_ge; [done|]. rewrite length_fmap. lia. }
    destruct (Z.of_nat k <=? capacity v) eqn:E2; bool_to_prop.
    + by apply (Hgrow v rest).
    + destruct (vector_reserve_ok v l rest (Z.of_nat k) Hs Hc) as (v1 & r1 & -> & Hs1 & Hc1 & Hk1 & Hsz1); [lia|].
      cbn [obind]. rewrite Hsz1, Hsz. by apply (Hgrow v1 r1).
Qed.

Lemma create_ok F : vrep (vector_create can_alloc) F F [].
Proof.
  unfold vector_create, alloc_slots. rewrite can_alloc_ok. split.
  - by eexists.
  - done.
  - done.
  - by apply own_nil.
Qed.

(** ** Clients

    A client calls the operations of vector.h, passing pointers to its own
    objects [F]; reading the vector through [vector_get] gives the values. *)

Inductive vop :=
| Push (element : Z)
| Pop
| Insert (position : nat) (element : Z)
| Erase (position : nat)
| SetAt (position : nat) (element : Z)
| Resize (k : nat)
| Clear.

Definition run_vop (op : vop) (v : vector) (s : objects) : outcome (vector * objects) :=
  match op with
  | Push e => vector_push_back can_alloc (scalar_copy alloc n) v e s
  | Pop => vector_pop_back c_free v s
  | Insert i e => vector_insert can_alloc (scalar_copy alloc n) c_free v (Z.of_nat i) e s
  | Erase i => vector_erase (scalar_copy alloc n) c_free v (Z.of_nat i) s
  | SetAt i e => vector_set (scalar_copy alloc n) c_free v (Z.of_nat i) e s
  | Resize k => vector_resize can_alloc c_free (scalar_default alloc n) v (Z.of_nat k) s
  | Clear => vector_clear c_free v s
  end.

Fixpoint run_vops (ops : list vop) (v : vector) (s : objects) : outcome (vector * objects) :=
  match ops with
  | [] => Done (v, s)
  | op :: ops => let! (v, s) := run_vop op v s in run_vops ops v s
  end.

(** The abstract vector: a list of values; [None] where the call is not allowed. *)
Definition client_value (F : objects) (e : Z) : option obj :=
  x ← F !! e; guard (e <> 0 /\ length x = n);; Some x.

Definition spec_vop (F : objects) (op : vop) (L : list obj) : option (list obj) :=
  guard (Z.of_nat (length L) < 2 ^ 58);;
  match op with
  | Push e => x ← client_value F e; Some (L ++ [x])
  | Pop => guard (L <> []);; Some (take (length L - 1) L)
  | Insert i e => x ← client_value F e; guard (0 < i <= length L)%nat;; Some (take i L ++ x :: drop i L)
  | Erase i => guard (i < length L)%nat;; Some (take i L ++ drop (S i) L)
  | SetAt i e => x ← client_value F e; guard (i < length L)%nat;; Some (<[i := x]> L)
  | Resize k => guard (Z.of_nat k <= 2 ^ 58);; Some (take k L ++ replicate (k - length L) (replicate n 0))
  | Clear => Some []
  end.

Fixpoint spec_vops (F : objects) (ops : list vop) (L : list obj) : option (list obj) :=
  match ops with
  | [] => Some L
  | op :: ops => spec_vop F op L ≫= spec_vops F ops
  end.

Definition vector_read (v : vector) (s : objects) (i : nat) : outcome obj :=
  let! p := vector_get v (Z.of_nat i) in deref (s !! p).

Lemma client_value_inv F e x : client_value F e = Some x -> F !! e = Some x /\ e <> 0 /\ length x = n.
Proof. unfold client_value. intros H. simplify_option_eq. naive_solver. Qed.

(** One operation implements the list operation. *)
Lemma vop_refines op v F s l L :
  vrep v F s l -> spec_vop F op l.*2 = Some L ->
  exists v' s' l', run_vop op v s = Done (v', s') /\ vrep v' F s' l' /\ l'.*2 = L.
Proof.
  intros Hv Hspec. unfold spec_vop in Hspec. rewrite length_fmap in Hspec.
  destruct op; cbn [run_vop]; simplify_option_eq;
    repeat match goal with
    | H : client_value _ _ = Some _ |- _ => apply client_value_inv in H as (? & ? & ?)
    end.
  - match goal with HF : F !! _ = Some ?y |- _ =>
      destruct (push_back_ok v F s l element y) as (v' & s' & l' & ? & ? & ?);
        [..|by eauto 10]; try done; by eapply own_foreign_lookup; [apply Hv|] end.
  - destruct l as [|[p x] l _] using rev_ind; [done|].
    destruct (pop_ok v F s l p x Hv) as (v' & Hrun & Hv'); [rewrite length_app in *; lia|].
    exists v', (delete p s), l. split; [done|]. split; [done|].
    rewrite fmap_app, length_app. cbn. replace (length l + 1 - 1)%nat with (length l.*2) by (rewrite length_fmap; lia).
    by rewrite take_app_length.
  - by apply insert_ok.
  - rewrite <- (take_drop_middle l position (l !!! position)) in Hv.
    2:{ apply list_lookup_lookup_total_lt. lia. }
    destruct (l !!! position) as [p x] eqn:El.
    destruct (erase_ok v F s (take position l) p x (drop (S position) l)) as (v' & s' & l' & Hrun & Hv' & Hl'); [done| |].
    { rewrite length_take, length_drop. lia. }
    rewrite length_take in Hrun. replace (position `min` length l)%nat with position in Hrun by lia.
    exists v', s', l'. split; [done|]. split; [done|]. by rewrite Hl', fmap_take, fmap_drop.
  - pose proof Hv as Hv0. rewrite <- (take_drop_middle l position (l !!! position)) in Hv0.
    2:{ apply list_lookup_lookup_total_lt. lia. }
    destruct (l !!! position) as [p x] eqn:El.
    match goal with HF : F !! _ = Some ?y |- _ =>
      destruct (set_ok v F s (take position l) p x (drop (S position) l) element y) as (v' & s' & q & Hrun & Hv');
        [done..|] end.
    rewrite length_take in Hrun. replace (position `min` length l)%nat with position in Hrun by lia.
    eexists v', s', _. split; [done|]. split; [done|].
    rewrite fmap_app, fmap_cons, fmap_take, fmap_drop. cbn.
    rewrite insert_take_drop by (rewrite length_fmap; lia). done.
  - destruct (resize_ok v F s l k Hv) as (v' & s' & l' & ? & ? & ?); [done|done|by eauto 10].
  - destruct (clear_ok v F s l Hv) as (v' & Hrun & Hv'). by exists v', F, [].
Qed.

Lemma vops_refine ops v F s l L :
  vrep v F s l -> spec_vops F ops l.*2 = Some L ->
  exists v' s' l', run_vops ops v s = Done (v', s') /\ vrep v' F s' l' /\ l'.*2 = L.
Proof.
  revert v s l. induction ops as [|op ops IH]; intros v s l Hv Hspec; cbn in *.
  - injection Hspec as Hspec. by exists v, s, l.
  - apply bind_Some in Hspec as (L1 & H1 & H2).
    destruct (vop_refines op v F s l L1 Hv H1) as (v1 & s1 & l1 & -> & Hv1 & Hl1). cbn [obind].
    apply (IH _ _ l1); [done|]. by rewrite Hl1.
Qed.

Lemma read_ok v F s l i x :
  vrep v F s l -> l.*2 !! i = Some x -> vector_read v s i = Done x.
Proof.
  intros [[rest Hs] Hsz Hc Hown] Hi. unfold vector_read, vector_get, c_assert.
  pose proof (lookup_lt_Some _ _ _ Hi) as Hlt. rewrite length_fmap in Hlt.
  rewrite (proj2 (Z.ltb_lt _ _)) by lia. cbn [obind].
  apply list_lookup_fmap_Some in Hi as ([p y] & -> & Hpy).
  rewrite <- (take_drop_middle l i _ Hpy) in Hs. unfold slots in Hs. rewrite !fmap_app, <- app_assoc in Hs. cbn in Hs.
  assert (Hi : Z.of_nat i = Z.of_nat (length (Some <$> (take i l).*1 : list (option Z)))).
  { rewrite !length_fmap, length_take. lia. }
  rewrite Hi, (aget_mid v _ _ _ Hs). cbn [obind].
  by rewrite (own_lookup _ _ _ p y Hown) by (by eapply list_elem_of_lookup_2).
Qed.

(** C13. A client that only performs allowed calls ([spec_vops] is defined) gets
    from vector.c exactly the list of values the calls describe, on a vector
    created by [vector_create] with deep-copying callbacks: every call returns,
    [vector_size] is the length, [vector_get] reads every value, and
    [vector_destroy] then frees the array block and the object, each once, and
    gives back precisely the element heap [F] the client started with, so no
    element is leaked, freed twice or overwritten. *)
Theorem vector_refines_list F ops L :
  spec_vops F ops [] = Some L ->
  exists v s, run_vops ops (vector_create can_alloc) F = Done (v, s)
    /\ vector_size v = Z.of_nat (length L)
    /\ (forall i x, L !! i = Some x -> vector_read v s i = Done x)
    /\ (forall p x, F !! p = Some x -> s !! p = Some x)
    /\ vector_destroy c_free (allocated v) s = Done (released, F).
Proof.
  intros Hspec. destruct (vops_refine ops _ F F [] L (create_ok F) Hspec) as (v & s & l & -> & Hv & <-).
  exists v, s. split; [done|]. split; [|split; [|split]].
  - unfold vector_size. by rewrite (v_size _ _ _ _ Hv), length_fmap.
  - intros i x Hi. by eapply read_ok.
  - intros p x Hp. by eapply own_foreign_lookup; [apply Hv|].
  - by eapply destroy_ok.
Qed.

End Own.

(** [get_new_capacity] terminates for every request up to 2^63 with the
    least power of two that is large enough (at least the request and less than
    twice it). *)
Theorem get_new_capacity_correct target :
  1 <= target <= 2 ^ 63 ->
  exists c i, get_new_capacity target = Done c /\ c = 2 ^ Z.of_nat i /\ target <= c < 2 * target.
Proof.
  intros H. destruct (get_new_capacity_ok target H) as (c & i & Hc & Hi & ? & ?).
  exists c, i. done.
Qed.

Lemma get_new_capacity_correct_witness :
  1 <= 5 <= 2 ^ 63 /\ exists c i, get_new_capacity 5 = Done c /\ c = 2 ^ Z.of_nat i /\ 5 <= c < 2 * 5.
Proof. split; [lia|]. apply (get_new_capacity_correct 5). lia. Defined.

(** The doubling wraps to zero and the loop then never ends. *)
Lemma new_capacity_loop_zero target fuel : 0 < target -> new_capacity_loop fuel 0 target = OutOfFuel.
Proof.
  intros Ht. induction fuel as [|fuel IH]; [done|]. cbn [new_capacity_loop].
  rewrite (proj2 (Z.ltb_lt _ _)) by done. unfold GROWTH_FACTOR. by rewrite Z.mul_0_l, u64_small.
Qed.

Lemma new_capacity_loop_diverges k fuel target :
  (k <= 63)%nat -> 2 ^ 63 < target -> new_capacity_loop fuel (2 ^ (63 - Z.of_nat k)) target = OutOfFuel.
Proof.
  revert fuel. induction k as [|k IH]; intros [|fuel] Hk Ht; cbn [new_capacity_loop]; try done;
    unfold GROWTH_FACTOR.
  - rewrite (proj2 (Z.ltb_lt _ _)) by (cbn in *; lia). change (u64 (2 ^ (63 - Z.of_nat 0) * 2)) with 0.
    apply new_capacity_loop_zero. lia.
  - assert (2 ^ (63 - Z.of_nat (S k)) <= 2 ^ 62) by (apply Z.pow_le_mono_r; lia).
    rewrite (proj2 (Z.ltb_lt _ _)) by (assert (2 ^ 62 < 2 ^ 63) by done; lia).
    assert (Hp : 2 ^ (63 - Z.of_nat (S k)) * 2 = 2 ^ (63 - Z.of_nat k)).
    { replace (63 - Z.of_nat k) with (Z.succ (63 - Z.of_nat (S k))) by lia. rewrite Z.pow_succ_r by lia. lia. }
    rewrite Hp. assert (2 ^ (63 - Z.of_nat k) <= 2 ^ 63) by (apply Z.pow_le_mono_r; lia).
    assert (0 < 2 ^ (63 - Z.of_nat k)) by (apply Z.pow_pos_nonneg; lia).
    rewrite u64_small by (change 18446744073709551616 with (2 * 2 ^ 63); lia).
    apply IH; [lia|done].
Qed.

(** For a request above 2^63 the capacity wraps to zero and the loop of
    [get_new_capacity] never ends, whatever the number of rounds. *)
Theorem get_new_capacity_diverges target fuel :
  2 ^ 63 < target -> new_capacity_loop fuel 1 target = OutOfFuel.
Proof. intros H. by apply (new_capacity_loop_diverges 63 fuel target). Qed.

Lemma get_new_capacity_diverges_witness :
  2 ^ 63 < 2 ^ 63 + 1 /\ new_capacity_loop 1000 1 (2 ^ 63 + 1) = OutOfFuel.
Proof. split; [lia|]. apply (get_new_capacity_diverges (2 ^ 63 + 1) 1000). lia. Defined.

Definition sample_heap : objects := {[ 100 := [1; 0; 0; 0]; 101 := [2; 0; 0; 0] ]}.

Definition sample_ops : list vop :=
  [Push 100; Push 101; Insert 1 101; SetAt 0 101; Erase 1; Resize 12; Pop; Push 100].

Lemma vector_refines_list_witness :
  exists v s, run_vops next_address (fun _ => true) 4 sample_ops (vector_create (fun _ => true)) sample_heap = Done (v, s)
    /\ vector_destroy c_free (allocated v) s = Done (released, sample_heap).
Proof.
  destruct (vector_refines_list next_address (fun _ => true) 4 next_address_fresh (fun _ => eq_refl) sample_heap sample_ops
    ([2; 0; 0; 0] :: [2; 0; 0; 0] :: replicate 9 [0; 0; 0; 0] ++ [[1; 0; 0; 0]])) as (v & s & Hrun & _ & _ & _ & Hd).
  - vm_compute. reflexivity.
  - exists v, s. split; assumption.
Defined.

Section Front.

Context {St : Type}.
Variable can_alloc : Z -> bool.
Variable copy : Z -> St -> outcome (Z * St).
Variable destroy : Z -> St -> outcome St.

(** [vector_insert] at the front is undefined behaviour, also on a sound
    vector with room: the index [i] is unsigned, [i >= 0] always holds, and the
    loop goes on below the first element, at index 2^64 - 1. *)
Theorem vector_insert_front_undefined v e s :
  0 <= size v < capacity v -> capacity v = Z.of_nat (length (array v)) -> capacity v < 2 ^ 60 ->
  (forall x s, exists y s', copy x s = Done (y, s')) -> (forall x s, exists s', destroy x s = Done s') ->
  vector_insert can_alloc copy destroy v 0 e s = Undef.
Proof.
  intros Hsz Hcap Hb Hcopy Hdes. unfold vector_insert, c_assert.
  rewrite (proj2 (Z.leb_le _ _)) by lia. cbn [obind]. cbn [capacity size set_size].
  rewrite (u64_small (size v + 1)) by lia. rewrite (proj2 (Z.ltb_ge _ _)) by lia. cbn [obind].
  assert (Hloop : forall fuel i w s, (Z.to_nat (i + 1) < fuel)%nat -> -1 <= i < 2 ^ 60 ->
    Z.of_nat (length (array w)) < 2 ^ 60 -> insert_shift copy destroy fuel (u64 i) 0 w s = Undef).
  { clear v Hsz Hcap Hb. induction fuel as [|fuel IH]; intros i w s' Hf Hi Hw; [lia|]. cbn [insert_shift].
    pose proof (u64_range i) as Hu. rewrite (proj2 (Z.leb_le _ _)) by lia.
    destruct (Z.eq_dec i (-1)) as [->|Hi1].
    - unfold aget. change (u64 (-1)) with 18446744073709551615.
      rewrite (proj2 (Z.ltb_ge 18446744073709551615 _)) by lia. by rewrite andb_false_r.
    - rewrite (u64_small i) by lia.
      assert (Hag : (exists p, aget w i = Done p) \/ aget w i = Undef)
        by (unfold aget; repeat case_match; eauto).
      destruct Hag as [[p Hp]| ->]; [|done]. rewrite Hp. cbn [obind].
      destruct (Hcopy p s') as (y & s1 & ->). cbn [obind].
      unfold aset. rewrite (u64_small (i + 1)) by lia. destruct (_ && _); [|done]. cbn [obind].
      set (w' := set_array w _).
      assert (Hw' : length (array w') = length (array w)) by (cbn; by rewrite length_insert).
      assert (Hag' : (exists p, aget w' i = Done p) \/ aget w' i = Undef)
        by (unfold aget; repeat case_match; eauto).
      destruct Hag' as [[p' ->]| ->]; [|done]. cbn [obind].
      destruct (Hdes p' s1) as (s2 & ->). cbn [obind]. apply IH; [lia|lia|]. rewrite Hw'. done. }
  rewrite Hloop; [done|lia|lia|]. cbn. lia.
Qed.

End Front.

Lemma vector_insert_front_undefined_witness :
  let v := Vector [Some 7; None] 1 2 in
  vector_insert (fun _ => true) shallow_copy_constructor shallow_destructor v 0 9 tt = Undef.
Proof.
  apply (vector_insert_front_undefined (fun _ => true) shallow_copy_constructor shallow_destructor
    (Vector [Some 7; None] 1 2) 9 tt); cbn; try lia; eauto.
Defined.
