(* ===== verification/Mmu.v ===== *)
(** * The virtual-memory simulator of [ideal_indirection/]

    [tlb.c], [segments.c], [kernel.c] and [mmu.c].  Physical memory is the byte
    array [physical_memory] at the page-aligned system address [physical_memory]
    (a parameter); page directories, page tables and data frames live in it, and
    a page-table entry is the 32-bit word the bit-fields of [page_table.h]
    describe.  Every access through a frame pointer is checked to stay in the
    array ([Undef] otherwise).  The swap directory maps file names to contents;
    [fmt_p] is the C library's [%p] conversion and [fopen_ok] says which swap
    files can be opened for writing. *)

From stdpp Require Import gmap strings.
From S2P Require Import Prelude CMem.
Open Scope Z_scope.

(** ** Translation look-aside buffer: [tlb.c] *)

Record tlb_node := TlbNode {
  base_virtual_addr : Z;
  entry : Z;
}.

(** The linked list, head first. *)
Definition tlb : Type := list tlb_node.

Definition MAX_NODES : nat := 16.

Definition tlb_create : tlb := [TlbNode 0 0].

(** The first node for the address and the list without it. *)
Fixpoint tlb_unlink (addr : Z) (l : tlb) : option (tlb_node * tlb) :=
  match l with
  | [] => None
  | fast :: next =>
      if base_virtual_addr fast =? addr then Some (fast, next)
      else
        match tlb_unlink addr next with
        | Some (found, next') => Some (found, fast :: next')
        | None => None
        end
  end.

Definition tlb_get_pte (l : tlb) (addr : Z) : outcome (Z * tlb) :=
  match l with
  | [] => Undef
  | head :: rest =>
      if base_virtual_addr head =? addr then Done (entry head, l)
      else
        match tlb_unlink addr rest with
        | Some (fast, rest') => Done (entry fast, fast :: head :: rest')
        | None => Done (0, l)
        end
  end.

Fixpoint tlb_count (num_nodes : nat) (fast : tlb) : nat :=
  match fast with
  | _ :: ((_ :: _) as next) => tlb_count (S num_nodes) next
  | _ => num_nodes
  end.

Definition tlb_add_pte (l : tlb) (addr pte : Z) : outcome tlb :=
  match l with
  | [] => Undef
  | _ :: rest =>
      let num_nodes := tlb_count 2 rest in
      let l := if (MAX_NODES <=? num_nodes)%nat then removelast l else l in
      Done (TlbNode addr pte :: l)
  end.

Definition tlb_flush (l : tlb) : tlb := tlb_create.

(** ** Segments: [segments.c] *)

Definition NUM_OFFSET_BITS : Z := 12.
Definition PAGE_SIZE : Z := 4096.
Definition PAGE_BYTES : nat := Z.to_nat PAGE_SIZE.

Record vm_segmentation := VmSegmentation {
  seg_start : Z;
  seg_end : Z;
  permissions : Z;
  grows_down : bool;
}.

Inductive segments := STACK | MMAP | HEAP | BSS | DATA | TEXT | TESTING.

Definition segment_index (s : segments) : nat :=
  match s with
  | STACK => 0 | MMAP => 1 | HEAP => 2 | BSS => 3 | DATA => 4 | TEXT => 5 | TESTING => 6
  end%nat.

Definition READ : Z := 1.
Definition WRITE : Z := 2.
Definition EXEC : Z := 4.

(** The seven segments in the order of the enumeration. *)
Definition vm_segmentations : Type := list vm_segmentation.

Definition set_end (s : vm_segmentation) (e : Z) : vm_segmentation :=
  VmSegmentation (seg_start s) e (permissions s) (grows_down s).

Definition grow_segment (ss : vm_segmentations) (s : segments) (num_pages : Z) : vm_segmentations :=
  alter (fun seg =>
    if grows_down seg then set_end seg (u32 (seg_end seg - u64 (num_pages * PAGE_SIZE)))
    else set_end seg (u32 (seg_end seg + u64 (num_pages * PAGE_SIZE)))) (segment_index s) ss.

Definition shrink_segment (ss : vm_segmentations) (s : segments) (num_pages : Z) : vm_segmentations :=
  alter (fun seg =>
    if grows_down seg then set_end seg (u32 (seg_end seg + u64 (num_pages * PAGE_SIZE)))
    else set_end seg (u32 (seg_end seg - u64 (num_pages * PAGE_SIZE)))) (segment_index s) ss.

Definition in_segment (address : Z) (seg : vm_segmentation) : bool :=
  if grows_down seg then (seg_end seg <=? address) && (address <=? seg_start seg)
  else (seg_start seg <=? address) && (address <=? seg_end seg).

Fixpoint find_segment (ss : vm_segmentations) (address : Z) : option vm_segmentation :=
  match ss with
  | [] => None
  | seg :: ss => if in_segment address seg then Some seg else find_segment ss address
  end.

Definition address_in_segmentations (ss : vm_segmentations) (address : Z) : bool :=
  match find_segment ss address with Some _ => true | None => false end.

(** ** Page-table entries: [page_table.h]

    Bit-fields are allocated from the least significant bit. *)

Definition pte_base_addr (w : Z) : Z := Z.land w 1048575.
Definition pte_set_base_addr (b w : Z) : Z := Z.lor (Z.land w 4293918720) (Z.land b 1048575).

Definition BIT_DIRTY : Z := 25.
Definition BIT_ACCESSED : Z := 26.
Definition BIT_USER_SUPERVISOR : Z := 29.
Definition BIT_READ_WRITE : Z := 30.
Definition BIT_PRESENT : Z := 31.

Definition pte_present (w : Z) : bool := Z.testbit w BIT_PRESENT.
Definition pte_set (bit : Z) (b : bool) (w : Z) : Z := if b then Z.setbit w bit else Z.clearbit w bit.

(** ** Physical memory and swap: [kernel.c] *)

Record kernel := Kernel {
  mem : memory;
  entry_mapping : list Z;
  swap_files : gmap string (list Z);
}.

Definition set_mem (k : kernel) (m : memory) : kernel := Kernel m (entry_mapping k) (swap_files k).
Definition set_entry_mapping (k : kernel) (e : list Z) : kernel := Kernel (mem k) e (swap_files k).
Definition set_swap_files (k : kernel) (s : gmap string (list Z)) : kernel := Kernel (mem k) (entry_mapping k) s.

Definition NUM_PHYSICAL_PAGES : Z := 250.
Definition NUM_ENTRIES : nat := 1024.
Definition RESERVED : Z := 42.

Section Machine.

Variable physical_memory : Z.
Variable fmt_p : Z -> string.
Variable fopen_ok : string -> bool.

Definition in_physical (p n : Z) : bool :=
  (physical_memory <=? p) && (p + n <=? physical_memory + PAGE_SIZE * NUM_PHYSICAL_PAGES).

(** Access to a page-table (or directory) entry through its pointer. *)
Definition pte_load (k : kernel) (pte : Z) : outcome Z :=
  if in_physical pte 4 then Done (ld32 (mem k) pte) else Undef.

Definition pte_update (pte : Z) (f : Z -> Z) (k : kernel) : outcome kernel :=
  if in_physical pte 4 then Done (set_mem k (st32 (mem k) pte (f (ld32 (mem k) pte)))) else Undef.

Definition get_system_pointer_from_address (address : Z) : Z :=
  physical_memory + u32 (address - u32 physical_memory).

Definition get_system_pointer_from_pte (k : kernel) (pte : Z) : outcome Z :=
  let! w := pte_load k pte in
  Done (get_system_pointer_from_address (u32 (Z.shiftl (pte_base_addr w) NUM_OFFSET_BITS))).

Definition get_system_pointer_from_pde (k : kernel) (pde : Z) : outcome Z :=
  let! w := pte_load k pde in
  Done (get_system_pointer_from_address (u32 (Z.shiftl (pte_base_addr w) NUM_OFFSET_BITS))).

Definition swap_file_name (pte : Z) : string := fmt_p pte +:+ ".bin".

Definition write_page_to_disk (pte : Z) (k : kernel) : outcome kernel :=
  let! frame := get_system_pointer_from_pte k pte in
  if fopen_ok (swap_file_name pte) then
    if in_physical frame PAGE_SIZE then
      Done (set_swap_files k (<[swap_file_name pte := mread (mem k) frame PAGE_BYTES]> (swap_files k)))
    else Undef
  else Done k.

Definition read_page_from_disk (pte : Z) (k : kernel) : outcome kernel :=
  let! frame := get_system_pointer_from_pte k pte in
  match swap_files k !! swap_file_name pte with
  | Some contents =>
      if in_physical frame PAGE_SIZE then
        Done (set_mem k (mwrite (mem k) frame (take PAGE_BYTES contents)))
      else Undef
  | None => Done k
  end.

Definition remove_swap_file (pte : Z) (k : kernel) : kernel :=
  set_swap_files k (delete (fmt_p pte) (swap_files k)).

Definition remove_swap_files (k : kernel) : kernel := set_swap_files k ∅.

(** [fuel] counts the evictions: after one the retry finds a free frame. *)
Fixpoint ask_kernel_for_frame (fuel : nat) (pte : Z) (k : kernel) : outcome (Z * kernel) :=
  match list_find (fun e => e = 0) (entry_mapping k) with
  | Some (i, _) =>
      let k := set_entry_mapping k (<[i := if pte =? 0 then RESERVED else pte]> (entry_mapping k)) in
      let frame_address := physical_memory + PAGE_SIZE * Z.of_nat i in
      let k := set_mem k (memset (mem k) frame_address 0 PAGE_SIZE) in
      Done (u32 frame_address, k)
  | None =>
      match list_find (fun e => e <> RESERVED /\ e <> pte) (entry_mapping k) with
      | Some (i, evictee) =>
          let! k := write_page_to_disk evictee k in
          let! k := pte_update evictee (pte_set BIT_PRESENT false) k in
          let! k := pte_update evictee (pte_set_base_addr 0) k in
          let k := set_entry_mapping k (<[i := 0]> (entry_mapping k)) in
          match fuel with
          | O => OutOfFuel
          | S fuel => ask_kernel_for_frame fuel pte k
          end
      | None => Done (0, k)
      end
  end.

Definition return_frame_to_kernel (base_addr : Z) (k : kernel) : outcome kernel :=
  let! _ := c_assert (u32 base_addr `mod` PAGE_SIZE =? 0) in
  let index := s32 (Z.quot (base_addr - physical_memory) PAGE_SIZE) in
  if (0 <=? index) && (index <? NUM_PHYSICAL_PAGES) then
    Done (set_entry_mapping k (<[Z.to_nat index := 0]> (entry_mapping k)))
  else Undef.

(** ** The memory-management unit: [mmu.c] *)

(** [page_directories] and [segmentations] are arrays of pointers, zero-filled
    at creation: an absent key is [NULL]. *)
Record mmu := Mmu {
  page_directories : gmap Z Z;
  segmentations : gmap Z vm_segmentations;
  mmu_tlb : tlb;
  num_page_faults : Z;
  num_segmentation_faults : Z;
  num_tlb_misses : Z;
  curr_pid : Z;
}.

Definition MAX_PROCESS_ID : Z := 32768.

Definition set_tlb (m : mmu) (t : tlb) : mmu :=
  Mmu (page_directories m) (segmentations m) t (num_page_faults m) (num_segmentation_faults m)
    (num_tlb_misses m) (curr_pid m).

Definition set_curr_pid (m : mmu) (pid : Z) : mmu :=
  Mmu (page_directories m) (segmentations m) (mmu_tlb m) (num_page_faults m)
    (num_segmentation_faults m) (num_tlb_misses m) pid.

Definition set_process (m : mmu) (pds : gmap Z Z) (segs : gmap Z vm_segmentations) : mmu :=
  Mmu pds segs (mmu_tlb m) (num_page_faults m) (num_segmentation_faults m) (num_tlb_misses m) (curr_pid m).

Definition mmu_tlb_miss (m : mmu) : mmu :=
  Mmu (page_directories m) (segmentations m) (mmu_tlb m) (num_page_faults m)
    (num_segmentation_faults m) (u64 (num_tlb_misses m + 1)) (curr_pid m).

Definition mmu_raise_page_fault (m : mmu) : mmu :=
  Mmu (page_directories m) (segmentations m) (mmu_tlb m) (u64 (num_page_faults m + 1))
    (num_segmentation_faults m) (num_tlb_misses m) (curr_pid m).

Definition mmu_raise_segmentation_fault (m : mmu) : mmu :=
  Mmu (page_directories m) (segmentations m) (mmu_tlb m) (num_page_faults m)
    (u64 (num_segmentation_faults m + 1)) (num_tlb_misses m) (curr_pid m).

Definition mmu_create : mmu := Mmu ∅ ∅ tlb_create 0 0 0 0.

Definition page_directory_of (m : mmu) (pid : Z) : Z := default 0 (page_directories m !! pid).

(** The walk on a TLB miss: the pointer to the page-table entry, the page table
    being created when the directory entry is not present. *)
Definition mmu_walk (m : mmu) (k : kernel) (virtual_address pid : Z) : outcome (Z * mmu * kernel) :=
  let m := mmu_tlb_miss m in
  let pd := page_directory_of m pid in
  let pde_id := Z.shiftr virtual_address 22 in
  let pde := pd + 4 * pde_id in
  let! w := pte_load k pde in
  let! (m, k) :=
    if pte_present w then Done (m, k)
    else
      let m := mmu_raise_page_fault m in
      let! (frame_addr, k) := ask_kernel_for_frame 1 0 k in
      let! k := pte_update pde (pte_set_base_addr (Z.shiftr frame_addr NUM_OFFSET_BITS)) k in
      let! k := read_page_from_disk pde k in
      let! k := pte_update pde (pte_set BIT_PRESENT true) k in
      let! k := pte_update pde (pte_set BIT_READ_WRITE true) k in
      let! k := pte_update pde (pte_set BIT_USER_SUPERVISOR false) k in
      Done (m, k) in
  let! pt := get_system_pointer_from_pde k pde in
  let! _ := c_assert (Z.land (Z.shiftr virtual_address NUM_OFFSET_BITS) 1023
                      =? Z.shiftr (Z.land virtual_address 4190208) NUM_OFFSET_BITS) in
  let pt_id := Z.land (Z.shiftr virtual_address NUM_OFFSET_BITS) 1023 in
  Done (pt + 4 * pt_id, m, k).

(** The page-fault branch: bring the page of [pte] into memory. *)
Definition mmu_page_in (m : mmu) (k : kernel) (pte : Z) : outcome (mmu * kernel) :=
  let! w := pte_load k pte in
  if pte_present w then Done (m, k)
  else
    let m := mmu_raise_page_fault m in
    let! (frame_addr, k) := ask_kernel_for_frame 1 pte k in
    let! k := pte_update pte (pte_set_base_addr (Z.shiftr frame_addr NUM_OFFSET_BITS)) k in
    let! k := read_page_from_disk pte k in
    let! k := pte_update pte (pte_set BIT_PRESENT true) k in
    let! k := pte_update pte (pte_set BIT_READ_WRITE true) k in
    let! k := pte_update pte (pte_set BIT_USER_SUPERVISOR true) k in
    Done (m, k).

(** The copy between the buffer and physical memory. *)
Definition mmu_copy (k : kernel) (phys_addr_ptr : Z) (buffer : list Z) (num_bytes : Z) (write : bool)
  : outcome (list Z * kernel) :=
  if (Z.of_nat (length buffer) <? num_bytes) || negb (in_physical phys_addr_ptr num_bytes) then Undef
  else if write then
    Done (buffer, set_mem k (mwrite (mem k) phys_addr_ptr (take (Z.to_nat num_bytes) buffer)))
  else
    Done (mread (mem k) phys_addr_ptr (Z.to_nat num_bytes) ++ drop (Z.to_nat num_bytes) buffer, k).

(** Returns the buffer after the call. *)
Definition mmu_rw_from_virtual_address (m : mmu) (k : kernel) (virtual_address pid : Z)
    (buffer : list Z) (num_bytes : Z) (write : bool) : outcome (list Z * mmu * kernel) :=
  let m := if pid =? curr_pid m then m else set_curr_pid (set_tlb m (tlb_flush (mmu_tlb m))) pid in
  let! segs := deref (segmentations m !! pid) in
  if negb (address_in_segmentations segs virtual_address)
  then Done (buffer, mmu_raise_segmentation_fault m, k)
  else
    let! seg := deref (find_segment segs virtual_address) in
    if Z.land (permissions seg) (if write then WRITE else READ) =? 0
    then Done (buffer, mmu_raise_segmentation_fault m, k)
    else
      let base_virtual_addr_tlb := Z.shiftr (Z.land virtual_address 4294963200) NUM_OFFSET_BITS in
      let! (pte, t) := tlb_get_pte (mmu_tlb m) base_virtual_addr_tlb in
      let m := set_tlb m t in
      let! (pte, m, k) :=
        if pte =? 0 then mmu_walk m k virtual_address pid else Done (pte, m, k) in
      let! (m, k) := mmu_page_in m k pte in
      let offset := Z.land virtual_address 4095 in
      let! w := pte_load k pte in
      let phys_addr := u32 (Z.shiftl (pte_base_addr w) NUM_OFFSET_BITS + offset) in
      let phys_addr_ptr := get_system_pointer_from_address phys_addr in
      let! (buffer, k) := mmu_copy k phys_addr_ptr buffer num_bytes write in
      let! t := tlb_add_pte (mmu_tlb m) base_virtual_addr_tlb pte in
      let m := set_tlb m t in
      let! k := pte_update pte (pte_set BIT_ACCESSED true) k in
      let! k := if write then pte_update pte (pte_set BIT_DIRTY true) k else Done k in
      Done (buffer, m, k).

Definition mmu_read_from_virtual_address (m : mmu) (k : kernel) (virtual_address pid : Z)
    (buffer : list Z) (num_bytes : Z) : outcome (list Z * mmu * kernel) :=
  let! _ := c_assert (pid <? MAX_PROCESS_ID) in
  let! _ := c_assert (u64 (num_bytes + virtual_address `mod` PAGE_SIZE) <=? PAGE_SIZE) in
  mmu_rw_from_virtual_address m k virtual_address pid buffer num_bytes false.

(** [strdup(buffer)] copies the C string the buffer starts with. *)
Definition mmu_write_to_virtual_address (m : mmu) (k : kernel) (virtual_address pid : Z)
    (buffer : list Z) (num_bytes : Z) : outcome (mmu * kernel) :=
  let! _ := c_assert (pid <? MAX_PROCESS_ID) in
  let! _ := c_assert (u64 (num_bytes + virtual_address `mod` PAGE_SIZE) <=? PAGE_SIZE) in
  let! buffer_non_const := deref (cstr_of buffer) in
  let! (_, m, k) :=
    mmu_rw_from_virtual_address m k virtual_address pid buffer_non_const num_bytes true in
  Done (m, k).

Definition initial_segments : vm_segmentations :=
  [ VmSegmentation 3221217280 3229605888 3 true;     (* STACK 0xBFFFE000 .. 0xC07FE000 *)
    VmSegmentation 3229605888 3229605888 7 true;     (* MMAP 0xC07FE000 *)
    VmSegmentation 134684672 134684672 3 false;      (* HEAP 0x08072000 *)
    VmSegmentation 134586368 134684672 3 false;      (* BSS 0x0805A000 .. 0x08072000 *)
    VmSegmentation 134553600 134586368 3 false;      (* DATA 0x08052000 .. 0x0805A000 *)
    VmSegmentation 134512640 134553600 5 false;      (* TEXT 0x08048000 .. 0x08052000 *)
    VmSegmentation 4096 12288 3 false ].             (* TESTING *)

Definition mmu_add_test_page (pde i : Z) (k : kernel) : outcome kernel :=
  let! pt := get_system_pointer_from_pde k pde in
  let pte := pt + 4 * i in
  let! (frame, k) := ask_kernel_for_frame 1 pte k in
  let! k := pte_update pte (pte_set_base_addr (Z.shiftr frame NUM_OFFSET_BITS)) k in
  let! k := pte_update pte (pte_set BIT_PRESENT true) k in
  let! k := pte_update pte (pte_set BIT_READ_WRITE true) k in
  pte_update pte (pte_set BIT_USER_SUPERVISOR true) k.

Definition mmu_add_process (m : mmu) (k : kernel) (pid : Z) : outcome (mmu * kernel) :=
  let! _ := c_assert (pid <? MAX_PROCESS_ID) in
  let! (page_directory_address, k) := ask_kernel_for_frame 1 0 k in
  let pd := get_system_pointer_from_address page_directory_address in
  let m := set_process m (<[pid := pd]> (page_directories m))
                         (<[pid := initial_segments]> (segmentations m)) in
  let pde := pd in
  let! (frame, k) := ask_kernel_for_frame 1 0 k in
  let! k := pte_update pde (pte_set_base_addr (Z.shiftr frame NUM_OFFSET_BITS)) k in
  let! k := pte_update pde (pte_set BIT_PRESENT true) k in
  let! k := pte_update pde (pte_set BIT_READ_WRITE true) k in
  let! k := pte_update pde (pte_set BIT_USER_SUPERVISOR true) k in
  let! k := mmu_add_test_page pde 1 k in
  let! k := mmu_add_test_page pde 2 k in
  Done (m, k).

(** The inner loop of [mmu_remove_process], over [n] entries from [pte] on. *)
Fixpoint remove_page_table (n : nat) (pte : Z) (k : kernel) : outcome kernel :=
  match n with
  | O => Done k
  | S n =>
      let! w := pte_load k pte in
      let! k :=
        if pte_present w then
          let! frame := get_system_pointer_from_pte k pte in
          return_frame_to_kernel frame k
        else Done k in
      let k := remove_swap_file pte k in
      remove_page_table n (pte + 4) k
  end.

Fixpoint remove_page_directory (n : nat) (pde : Z) (k : kernel) : outcome kernel :=
  match n with
  | O => Done k
  | S n =>
      let! w := pte_load k pde in
      let! k :=
        if pte_present w then
          let! pt := get_system_pointer_from_pde k pde in
          let! k := remove_page_table NUM_ENTRIES pt k in
          return_frame_to_kernel pt k
        else Done k in
      remove_page_directory n (pde + 4) k
  end.

Definition mmu_remove_process (m : mmu) (k : kernel) (pid : Z) : outcome (mmu * kernel) :=
  let! _ := c_assert (pid <? MAX_PROCESS_ID) in
  let pd := page_directory_of m pid in
  let! k :=
    if pd =? 0 then Done k
    else
      let! k := remove_page_directory NUM_ENTRIES pd k in
      return_frame_to_kernel pd k in
  let m := set_process m (delete pid (page_directories m)) (delete pid (segmentations m)) in
  let m := if curr_pid m =? pid then set_tlb m (tlb_flush (mmu_tlb m)) else m in
  Done (m, k).

Fixpoint mmu_delete_loop (n : nat) (pid : Z) (m : mmu) (k : kernel) : outcome (mmu * kernel) :=
  match n with
  | O => Done (m, k)
  | S n =>
      let! (m, k) := mmu_remove_process m k pid in
      mmu_delete_loop n (pid + 1) m k
  end.

(** The unit is freed: only the kernel's state remains. *)
Definition mmu_delete (m : mmu) (k : kernel) : outcome kernel :=
  let! (m, k) := mmu_delete_loop (Z.to_nat MAX_PROCESS_ID) 0 m k in
  Done (remove_swap_files k).

End Machine.
