(* ===== verification/MmuSpec.v ===== *)
(** * Correctness of the virtual-memory simulator

    The TLB is a bounded move-to-front list; the kernel's frame allocator and
    the page-fault branch of the MMU keep the contents of every page ("demand
    paging is transparent"); an access outside the process's segments changes
    nothing but the counters. *)

From stdpp Require Import gmap strings pretty.
From S2P Require Import Prelude CMem Mmu.
Open Scope Z_scope.

(** ** The TLB *)

(** What the list associates with an address: the first matching node. *)
Fixpoint tlb_lookup (l : tlb) (addr : Z) : option Z :=
  match l with
  | [] => None
  | n :: l => if base_virtual_addr n =? addr then Some (entry n) else tlb_lookup l addr
  end.

Lemma tlb_unlink_spec addr l :
  match tlb_unlink addr l with
  | Some (f, l') => base_virtual_addr f = addr /\ l ≡ₚ f :: l' /\ tlb_lookup l addr = Some (entry f)
      /\ forall b, b <> addr -> tlb_lookup l' b = tlb_lookup l b
  | None => tlb_lookup l addr = None
  end.
Proof.
  induction l as [|n l IH]; cbn; [done|]. destruct (base_virtual_addr n =? addr) eqn:E; bool_to_prop.
  - split; [done|]. split; [done|]. split; [done|]. intros b Hb.
    by rewrite (proj2 (Z.eqb_neq _ _)) by congruence.
  - destruct (tlb_unlink addr l) as [[f l']|]; [|done]. destruct IH as (Hf & Hp & Hl & Hb).
    split; [done|]. split; [rewrite Hp; solve_Permutation|]. split; [done|].
    intros b Hne. cbn. by rewrite Hb.
Qed.

Lemma tlb_get_pte_spec l addr :
  l <> [] ->
  exists l', tlb_get_pte l addr = Done (default 0 (tlb_lookup l addr), l') /\ l' ≡ₚ l
    /\ (forall b, tlb_lookup l' b = tlb_lookup l b)
    /\ (forall e, tlb_lookup l addr = Some e -> head l' = Some (TlbNode addr e)).
Proof.
  destruct l as [|[a e] l]; intros Hne; [done|]. cbn. destruct (a =? addr) eqn:E; bool_to_prop; subst.
  - eexists. split; [done|]. split; [done|]. split; [done|]. by intros e' [= ->].
  - pose proof (tlb_unlink_spec addr l) as H. destruct (tlb_unlink addr l) as [[[fa fe] l']|].
    + destruct H as (Hf & Hp & Hl & Hb). cbn in *. subst fa. rewrite Hl.
      eexists. split; [done|]. split; [rewrite Hp; solve_Permutation|]. split.
      * intros b. cbn. destruct (addr =? b) eqn:Eb; bool_to_prop; subst.
        -- by rewrite (proj2 (Z.eqb_neq _ _)) by done.
        -- destruct (a =? b); [done|]. apply Hb. congruence.
      * by intros e' [= ->].
    + rewrite H. eexists. split; [done|]. split; [done|]. by split.
Qed.

(** A lookup answers with the first node of the list for the address ([NULL]
    when there is none) and only moves that node to the front: the same nodes
    remain and every address is still associated with the same entry. *)
Theorem tlb_get_pte_correct l addr :
  l <> [] ->
  exists l', tlb_get_pte l addr = Done (default 0 (tlb_lookup l addr), l') /\ l' ≡ₚ l
    /\ (forall b, tlb_lookup l' b = tlb_lookup l b)
    /\ (forall e, tlb_lookup l addr = Some e -> head l' = Some (TlbNode addr e)).
Proof. apply tlb_get_pte_spec. Qed.

Lemma tlb_get_pte_correct_witness :
  let l := [TlbNode 7 70; TlbNode 8 80; TlbNode 9 90] in
  tlb_get_pte l 9 = Done (90, [TlbNode 9 90; TlbNode 7 70; TlbNode 8 80]) /\
  exists l', tlb_get_pte l 9 = Done (default 0 (tlb_lookup l 9), l') /\ l' ≡ₚ l.
Proof.
  split; [reflexivity|].
  destruct (tlb_get_pte_correct [TlbNode 7 70; TlbNode 8 80; TlbNode 9 90] 9) as (l' & H1 & H2 & _); [discriminate|].
  exists l'. split; assumption.
Defined.

Lemma tlb_count_length num l : tlb_count num l = (num + (length l - 1))%nat.
Proof.
  revert num. induction l as [|x l IH]; intros num; [cbn; lia|].
  destruct l as [|y l]; [cbn; lia|].
  change (tlb_count num (x :: y :: l)) with (tlb_count (S num) (y :: l)). rewrite IH. cbn. lia.
Qed.

Lemma removelast_take {A} (l : list A) : removelast l = take (length l - 1) l.
Proof.
  induction l as [|x [|y l] IH]; [done|done|].
  change (removelast (x :: y :: l)) with (x :: removelast (y :: l)). rewrite IH.
  cbn [length]. replace (S (S (length l)) - 1)%nat with (S (S (length l) - 1)) by lia. done.
Qed.

Lemma tlb_add_pte_spec l addr pte :
  l <> [] -> (length l <= MAX_NODES)%nat ->
  tlb_add_pte l addr pte = Done (TlbNode addr pte :: take (MAX_NODES - 1) l)
  /\ (length (TlbNode addr pte :: take (MAX_NODES - 1) l) <= MAX_NODES)%nat.
Proof.
  destruct l as [|n l]; intros Hne Hl; [done|]. unfold tlb_add_pte, MAX_NODES in *.
  rewrite tlb_count_length. cbn [length] in *. split.
  - do 2 f_equal. destruct (16 <=? 2 + (length l - 1))%nat eqn:E.
    + apply Nat.leb_le in E. rewrite removelast_take. cbn [length]. f_equal. lia.
    + apply Nat.leb_gt in E. rewrite take_ge; [done|]. cbn. lia.
  - rewrite length_take. cbn [length]. lia.
Qed.

(** Adding an entry puts it in front and drops the least recently used node
    exactly when 16 nodes are in the list, which never grows beyond 16. *)
Theorem tlb_add_pte_correct l addr pte :
  l <> [] -> (length l <= MAX_NODES)%nat ->
  tlb_add_pte l addr pte = Done (TlbNode addr pte :: take (MAX_NODES - 1) l)
  /\ (length (TlbNode addr pte :: take (MAX_NODES - 1) l) <= MAX_NODES)%nat.
Proof. apply tlb_add_pte_spec. Qed.

Lemma tlb_add_pte_correct_witness :
  tlb_add_pte [TlbNode 7 70; TlbNode 0 0] 9 90 = Done [TlbNode 9 90; TlbNode 7 70; TlbNode 0 0].
Proof.
  apply (tlb_add_pte_correct [TlbNode 7 70; TlbNode 0 0] 9 90); [discriminate|cbv; lia].
Defined.

(** What [mmu_rw_from_virtual_address] does to the TLB on a hit. *)
Definition tlb_hit (l : tlb) (addr : Z) : outcome tlb :=
  let! (pte, l) := tlb_get_pte l addr in tlb_add_pte l addr pte.

Fixpoint tlb_hits (n : nat) (l : tlb) (addr : Z) : outcome tlb :=
  match n with
  | O => Done l
  | S n => let! l := tlb_hit l addr in tlb_hits n l addr
  end.

Lemma tlb_hit_front k addr e l :
  (S k + length l <= 16)%nat ->
  tlb_hit (replicate (S k) (TlbNode addr e) ++ l) addr
  = Done (TlbNode addr e :: take 15 (replicate (S k) (TlbNode addr e) ++ l)).
Proof.
  intros Hl. unfold tlb_hit. cbn [replicate app tlb_get_pte base_virtual_addr]. rewrite Z.eqb_refl. cbn [obind entry].
  apply tlb_add_pte_spec; [done|]. unfold MAX_NODES. cbn [length]. rewrite length_app, length_replicate. lia.
Qed.

Lemma tlb_hits_front n k addr e l :
  (S k + length l <= 16)%nat -> (S k + n <= 16)%nat ->
  tlb_hits n (replicate (S k) (TlbNode addr e) ++ l) addr
  = Done (take 16 (replicate (S k + n) (TlbNode addr e) ++ l)).
Proof.
  revert k l. induction n as [|n IH]; intros k l Hl Hn; cbn [tlb_hits].
  - rewrite Nat.add_0_r, take_ge; [done|]. rewrite length_app, length_replicate. lia.
  - rewrite tlb_hit_front by done. cbn [obind].
    replace (TlbNode addr e :: take 15 (replicate (S k) (TlbNode addr e) ++ l))
      with (replicate (S (S k)) (TlbNode addr e) ++ take (15 - S k) l).
    2:{ rewrite take_app, length_replicate, take_replicate. cbn [replicate app].
        replace (15 `min` S k)%nat with (S k) by lia. done. }
    rewrite IH by (rewrite ?length_take; lia). f_equal.
    rewrite !take_app, !take_replicate, !length_replicate, take_take.
    replace (S (S k) + n)%nat with (S k + S n)%nat by lia. f_equal. f_equal. lia.
Qed.

(** (code bug) A hit adds a second node for the page instead of reusing the one
    it found: fifteen accesses to one page evict every other translation. *)
Theorem tlb_hits_evict_others l addr e :
  l <> [] -> (length l <= MAX_NODES)%nat -> tlb_lookup l addr = Some e ->
  exists l', tlb_hits 15 l addr = Done l' /\ l' = replicate 16 (TlbNode addr e).
Proof.
  intros Hne Hl Hlook. cbn [tlb_hits]. unfold tlb_hit at 1.
  destruct (tlb_get_pte_spec l addr Hne) as (l' & -> & Hp & _ & Hhd). specialize (Hhd e Hlook).
  rewrite Hlook. change (default 0 (Some e)) with e. cbn [obind].
  assert (Hl' : (length l' <= MAX_NODES)%nat) by (by rewrite Hp).
  destruct l' as [|n l']; [done|]. cbn in Hhd. injection Hhd as ->.
  destruct (tlb_add_pte_spec (TlbNode addr e :: l') addr e) as [-> _]; [done|done|].
  eexists. split; [|done].
  exact (tlb_hits_front 14 1 addr e (take 14 l') ltac:(rewrite length_take; lia) ltac:(lia)).
Qed.

Lemma tlb_hits_evict_others_witness :
  exists l', tlb_hits 15 [TlbNode 7 70; TlbNode 8 80; TlbNode 0 0] 8 = Done l' /\ l' = replicate 16 (TlbNode 8 80).
Proof.
  apply (tlb_hits_evict_others [TlbNode 7 70; TlbNode 8 80; TlbNode 0 0] 8 80); [discriminate|cbv; lia|reflexivity].
Defined.

(** ** Page-table entries *)

Definition word (w : Z) : Prop := 0 <= w < 4294967296.

Lemma testbit_high (x i k : Z) : 0 <= x < 2 ^ k -> k <= i -> 0 <= k -> Z.testbit x i = false.
Proof.
  intros Hn Hi Hk. destruct (Z.eq_dec x 0) as [->|]; [apply Z.bits_0|].
  apply Z.bits_above_log2; [lia|]. assert (Z.log2 x < k) by (apply Z.log2_lt_pow2; lia). lia.
Qed.

Lemma testbit_base i : 0 <= i -> Z.testbit 1048575 i = (i <? 20).
Proof. intros Hi. change 1048575 with (Z.ones 20). rewrite Z.testbit_ones by lia. f_equal. by rewrite (proj2 (Z.leb_le 0 i)). Qed.

Lemma testbit_rest i : 0 <= i -> Z.testbit 4293918720 i = (20 <=? i) && (i <? 32).
Proof.
  intros Hi. change 4293918720 with (Z.shiftl (Z.ones 12) 20). rewrite Z.shiftl_spec by lia.
  rewrite Z.testbit_ones by lia. destruct (20 <=? i) eqn:E; bool_to_prop.
  - rewrite (proj2 (Z.leb_le 0 _)) by lia. cbn. destruct (i <? 32) eqn:E'; bool_to_prop; lia.
  - by rewrite (proj2 (Z.leb_gt 0 _)) by lia.
Qed.

Lemma word_bits w : word w <-> 0 <= w /\ forall i, 32 <= i -> Z.testbit w i = false.
Proof.
  unfold word. split.
  - intros Hw. split; [lia|]. intros i Hi. by apply (testbit_high w i 32).
  - intros [H0 Hb]. split; [done|]. destruct (Z.eq_dec w 0) as [->|]; [lia|].
    apply (Z.log2_lt_pow2 w 32); [lia|]. destruct (Z.lt_ge_cases (Z.log2 w) 32) as [|Hge]; [done|].
    specialize (Hb _ Hge). rewrite Z.bit_log2 in Hb by lia. done.
Qed.

Lemma pte_set_word bit b w : word w -> 0 <= bit < 32 -> word (pte_set bit b w).
Proof.
  rewrite !word_bits. intros [H0 Hb] Hbit. unfold pte_set. split.
  - destruct b.
    + rewrite Z.setbit_spec'. apply Z.lor_nonneg. split; [done|]. apply Z.pow_nonneg. lia.
    + rewrite Z.clearbit_spec'. apply Z.ldiff_nonneg. by left.
  - intros i Hi. destruct b.
    + rewrite Z.setbit_eqb, Hb by lia. rewrite orb_false_r. lia.
    + by rewrite Z.clearbit_eqb, Hb by lia.
Qed.

Lemma pte_set_base_word b w : word w -> word (pte_set_base_addr b w).
Proof.
  rewrite !word_bits. intros [H0 Hb]. unfold pte_set_base_addr. split.
  - apply Z.lor_nonneg. split; apply Z.land_nonneg; by right.
  - intros i Hi. rewrite Z.lor_spec, !Z.land_spec, Hb, testbit_base by lia.
    rewrite (proj2 (Z.ltb_ge _ _)) by lia. by rewrite andb_false_r.
Qed.

Lemma base_of_set_base b w : 0 <= b < 1048576 -> pte_base_addr (pte_set_base_addr b w) = b.
Proof.
  intros Hb. unfold pte_base_addr, pte_set_base_addr. apply Z.bits_inj'. intros i Hi.
  rewrite Z.land_spec, Z.lor_spec, !Z.land_spec, testbit_base, testbit_rest by done.
  destruct (i <? 20) eqn:E; bool_to_prop.
  - rewrite (proj2 (Z.leb_gt _ _)) by lia. cbn. by rewrite andb_false_r, !andb_true_r.
  - rewrite andb_false_r. symmetry. by apply (testbit_high b i 20).
Qed.

Lemma base_of_set bit b w : 20 <= bit -> pte_base_addr (pte_set bit b w) = pte_base_addr w.
Proof.
  intros Hbit. unfold pte_base_addr, pte_set. apply Z.bits_inj'. intros i Hi.
  rewrite !Z.land_spec, testbit_base by done. destruct (i <? 20) eqn:E; bool_to_prop; [|by rewrite !andb_false_r].
  f_equal. destruct b; rewrite ?Z.setbit_eqb, ?Z.clearbit_eqb by lia.
  - by rewrite (proj2 (Z.eqb_neq _ _)) by lia.
  - rewrite (proj2 (Z.eqb_neq _ _)) by lia. by rewrite andb_true_r.
Qed.

Lemma present_of_set_base b w : word w -> pte_present (pte_set_base_addr b w) = pte_present w.
Proof.
  intros _. unfold pte_present, pte_set_base_addr, BIT_PRESENT.
  rewrite Z.lor_spec, !Z.land_spec. change (Z.testbit 4293918720 31) with true. change (Z.testbit 1048575 31) with false.
  by rewrite andb_true_r, andb_false_r, orb_false_r.
Qed.

Lemma present_of_set b w : pte_present (pte_set BIT_PRESENT b w) = b.
Proof.
  unfold pte_present, pte_set, BIT_PRESENT. destruct b; rewrite ?Z.setbit_eqb, ?Z.clearbit_eqb by lia; cbn; [done|].
  by rewrite andb_false_r.
Qed.

Lemma present_of_set_other bit b w : 0 <= bit -> bit <> 31 -> pte_present (pte_set bit b w) = pte_present w.
Proof.
  intros Hb0 Hb. unfold pte_present, pte_set, BIT_PRESENT.
  destruct b; rewrite ?Z.setbit_eqb, ?Z.clearbit_eqb by lia; rewrite (proj2 (Z.eqb_neq _ _)) by lia; cbn; [done|].
  by rewrite andb_true_r.
Qed.

#[global] Arguments pte_set : simpl never.
#[global] Arguments pte_set_base_addr : simpl never.
#[global] Arguments pte_base_addr : simpl never.
#[global] Arguments pte_present : simpl never.

(** ** Demand paging *)

Lemma ld_le_range m a n :
  (forall x, 0 <= m x < 256) -> 0 <= ld_le m a n < 256 ^ Z.of_nat n.
Proof.
  intros Hm. revert a. induction n as [|n IH]; intros a; cbn [ld_le]; [cbn; lia|].
  rewrite Nat2Z.inj_succ, Z.pow_succ_r by lia. specialize (IH (a + 1)). specialize (Hm a). lia.
Qed.

Lemma ld32_word m a : (forall x, 0 <= m x < 256) -> word (ld32 m a).
Proof. intros Hm. exact (ld_le_range m a 4 Hm). Qed.

Lemma string_length_app (s t : string) : String.length (s +:+ t) = (String.length s + String.length t)%nat.
Proof. induction s as [|c s IH]; [done|]. change (S (String.length (s +:+ t)) = S (String.length s + String.length t)). by rewrite IH. Qed.

Lemma string_app_inj_l (s s' t : string) : s +:+ t = s' +:+ t -> s = s'.
Proof.
  revert s'. induction s as [|c s IH]; intros [|c' s'] H; [done| | |].
  - apply (f_equal String.length) in H. rewrite !string_length_app in H. cbn in H. lia.
  - apply (f_equal String.length) in H. rewrite !string_length_app in H. cbn in H. lia.
  - injection H as -> H. by rewrite (IH s').
Qed.

Lemma PAGE_BYTES_Z : Z.of_nat PAGE_BYTES = 4096.
Proof. reflexivity. Qed.

#[global] Arguments PAGE_BYTES : simpl never.

Section Paging.

Variable pm : Z.
Variable fmt_p : Z -> string.
Variable fopen_ok : string -> bool.

(** [physical_memory] is page-aligned and not in the zero page; [%p] prints
    different pointers differently; swap files can be created. *)
Hypothesis pm_aligned : pm `mod` 4096 = 0.
Hypothesis pm_low : 4096 <= pm.
Hypothesis fmt_inj : forall p q, fmt_p p = fmt_p q -> p = q.
Hypothesis fopen_all : forall f, fopen_ok f = true.

Definition frame_ptr (i : nat) : Z := pm + 4096 * Z.of_nat i.

(** The frame a page-table entry points to. *)
Definition frame_of (w : Z) : Z :=
  get_system_pointer_from_address pm (u32 (Z.shiftl (pte_base_addr w) NUM_OFFSET_BITS)).

Lemma u32_sub_u32 a b : u32 (u32 a - u32 b) = u32 (a - b).
Proof. unfold u32. by rewrite <- Zminus_mod. Qed.

Lemma frame_addr_aligned i : u32 (frame_ptr i) `mod` 4096 = 0.
Proof.
  unfold u32, frame_ptr. rewrite Z.mod_mod_divide by (by exists 1048576).
  by rewrite Z.mul_comm, Z.mod_add.
Qed.

Lemma frame_addr_base i : 0 <= Z.shiftr (u32 (frame_ptr i)) NUM_OFFSET_BITS < 1048576.
Proof.
  unfold NUM_OFFSET_BITS. rewrite Z.shiftr_div_pow2 by lia. pose proof (u32_range (frame_ptr i)).
  split; [apply Z.div_pos; lia|]. apply Z.div_lt_upper_bound; lia.
Qed.

Lemma frame_of_base i w :
  (i < 250)%nat -> pte_base_addr w = Z.shiftr (u32 (frame_ptr i)) NUM_OFFSET_BITS -> frame_of w = frame_ptr i.
Proof.
  intros Hi Hw. unfold frame_of, get_system_pointer_from_address, NUM_OFFSET_BITS in *. rewrite Hw.
  rewrite Z.shiftr_div_pow2, Z.shiftl_mul_pow2 by lia. change (2 ^ 12) with 4096.
  pose proof (frame_addr_aligned i) as Ha. pose proof (u32_range (frame_ptr i)).
  assert (Hd : u32 (frame_ptr i) / 4096 * 4096 = u32 (frame_ptr i)).
  { pose proof (Z.div_mod (u32 (frame_ptr i)) 4096). lia. }
  rewrite Hd, (u32_small (u32 _)) by done. rewrite u32_sub_u32. unfold frame_ptr.
  replace (pm + 4096 * Z.of_nat i - pm) with (4096 * Z.of_nat i) by lia.
  rewrite u32_small by lia. done.
Qed.

Lemma frame_in_physical i : (i < 250)%nat -> in_physical pm (frame_ptr i) PAGE_SIZE = true.
Proof. intros Hi. unfold in_physical, frame_ptr, PAGE_SIZE, NUM_PHYSICAL_PAGES. apply andb_true_iff. lia. Qed.

(** [e] points to a word of a frame reserved for paging structures. *)
Definition is_entry (k : kernel) (e : Z) : Prop :=
  exists j t, entry_mapping k !! j = Some RESERVED /\ 0 <= t < 1024 /\ e = frame_ptr j + 4 * t.

Definition maps (k : kernel) (e : Z) (i : nat) : Prop :=
  is_entry k e /\ pte_present (ld32 (mem k) e) = true /\ frame_of (ld32 (mem k) e) = frame_ptr i.

Record kinv (k : kernel) : Prop := {
  k_len : length (entry_mapping k) = 250%nat;
  k_bytes : forall x, 0 <= mem k x < 256;
  k_swap : forall f c, swap_files k !! f = Some c -> length c = PAGE_BYTES /\ Forall (fun b => 0 <= b < 256) c;
  k_map : forall i e, entry_mapping k !! i = Some e -> e <> 0 -> e <> RESERVED -> maps k e i;
}.

(** A page-table entry (as opposed to a directory entry, whose frame is
    reserved): if present, its frame is the one recorded for it. *)
Definition coherent (k : kernel) (e : Z) : Prop :=
  is_entry k e /\ (pte_present (ld32 (mem k) e) = true -> exists i, entry_mapping k !! i = Some e).

(** The contents of the page: in its frame, or swapped out, or never touched. *)
Definition page_bytes (k : kernel) (e : Z) : list Z :=
  if pte_present (ld32 (mem k) e) then mread (mem k) (frame_of (ld32 (mem k) e)) PAGE_BYTES
  else default (replicate PAGE_BYTES 0) (swap_files k !! swap_file_name fmt_p e).

Lemma swap_name_inj p q : swap_file_name fmt_p p = swap_file_name fmt_p q -> p = q.
Proof.
  unfold swap_file_name. intros H. apply fmt_inj.
  by apply string_app_inj_l in H.
Qed.

Lemma mapping_lt k i e : kinv k -> entry_mapping k !! i = Some e -> (i < 250)%nat.
Proof. intros Hk H. apply lookup_lt_Some in H. by rewrite (k_len _ Hk) in H. Qed.

Lemma entry_range k e : kinv k -> is_entry k e -> in_physical pm e 4 = true /\ 4096 <= e.
Proof.
  intros Hk (j & t & Hj & Ht & ->). pose proof (mapping_lt _ _ _ Hk Hj).
  unfold in_physical, frame_ptr, PAGE_SIZE, NUM_PHYSICAL_PAGES. rewrite andb_true_iff. lia.
Qed.

Lemma entries_apart k e e' : is_entry k e -> is_entry k e' -> e <> e' -> e + 4 <= e' \/ e' + 4 <= e.
Proof. intros (j & t & _ & Ht & ->) (j' & t' & _ & Ht' & ->) Hne. unfold frame_ptr in *. lia. Qed.

(** Entries are outside every frame that is not reserved. *)
Lemma entry_outside k e i x :
  is_entry k e -> entry_mapping k !! i = Some x -> x <> RESERVED ->
  e + 4 <= frame_ptr i \/ frame_ptr i + 4096 <= e.
Proof.
  intros (j & t & Hj & Ht & ->) Hi Hx. assert (i <> j) by congruence. unfold frame_ptr. lia.
Qed.

Lemma frames_apart i j : i <> j -> frame_ptr i + 4096 <= frame_ptr j \/ frame_ptr j + 4096 <= frame_ptr i.
Proof. unfold frame_ptr. lia. Qed.

Lemma coherent_maps k e :
  kinv k -> coherent k e -> pte_present (ld32 (mem k) e) = true ->
  exists i, entry_mapping k !! i = Some e /\ frame_of (ld32 (mem k) e) = frame_ptr i /\ e <> 0 /\ e <> RESERVED.
Proof.
  intros Hk [He Hc] Hp. destruct (Hc Hp) as [i Hi]. exists i.
  pose proof (entry_range k e Hk He) as [_ Hr]. unfold RESERVED.
  destruct (k_map k Hk i e Hi) as (_ & _ & Hf); unfold RESERVED; [lia|lia|]. split; [done|]. split; [done|]. lia.
Qed.

(** Entries and their contents are stable when the memory changes only in places
    that hold neither the entry nor its frame. *)
Lemma page_bytes_stable k k' e :
  (forall x, e <= x < e + 4 -> mem k' x = mem k x) ->
  (forall i, entry_mapping k !! i = Some e -> frame_of (ld32 (mem k) e) = frame_ptr i ->
     forall x, frame_ptr i <= x < frame_ptr i + 4096 -> mem k' x = mem k x) ->
  swap_files k' !! swap_file_name fmt_p e = swap_files k !! swap_file_name fmt_p e ->
  kinv k -> coherent k e ->
  ld32 (mem k') e = ld32 (mem k) e /\ page_bytes k' e = page_bytes k e.
Proof.
  pose proof PAGE_BYTES_Z as HPB. intros Hw Hf Hs Hk Hc.
  assert (Hld : ld32 (mem k') e = ld32 (mem k) e) by (apply ld32_ext; intros; by rewrite Hw).
  split; [done|]. unfold page_bytes. rewrite Hld. destruct (pte_present _) eqn:Hp; [|by rewrite Hs].
  destruct (coherent_maps k e Hk Hc Hp) as (i & Hi & Hfr & _). rewrite Hfr.
  apply mread_ext. intros x Hx. by apply (Hf i).
Qed.

Definition preserves (k k' : kernel) : Prop :=
  forall e, coherent k e -> coherent k' e /\ page_bytes k' e = page_bytes k e.

Lemma preserves_trans k1 k2 k3 : preserves k1 k2 -> preserves k2 k3 -> preserves k1 k3.
Proof. intros H1 H2 e He. destruct (H1 e He) as [Hc2 <-]. by apply H2. Qed.

Lemma st32_bytes m a v : (forall x, 0 <= m x < 256) -> forall x, 0 <= st32 m a v x < 256.
Proof. intros Hm x. unfold st32. case_bool; [|done]. by apply Z.mod_pos_bound. Qed.

Lemma st32_twice_out m a v v' x : x < a \/ a + 4 <= x -> st32 (st32 m a v) a v' x = m x.
Proof. intros H. by rewrite !st32_ne. Qed.

(** ** Eviction *)

Definition evict (i : nat) (e : Z) (k : kernel) : outcome kernel :=
  let! k := write_page_to_disk pm fmt_p fopen_ok e k in
  let! k := pte_update pm e (pte_set BIT_PRESENT false) k in
  let! k := pte_update pm e (pte_set_base_addr 0) k in
  Done (set_entry_mapping k (<[i := 0]> (entry_mapping k))).

Lemma mread_bytes m a n : (forall x, 0 <= m x < 256) -> Forall (fun b => 0 <= b < 256) (mread m a n).
Proof.
  intros Hm. revert a. induction n as [|n IH]; intros a; [constructor|].
  change (mread m a (S n)) with (m a :: mread m (a + 1) n). constructor; [apply Hm|apply IH].
Qed.

Lemma is_entry_insert k k' i x x' e :
  entry_mapping k' = <[i := x']> (entry_mapping k) -> entry_mapping k !! i = Some x -> x <> RESERVED ->
  is_entry k e -> is_entry k' e.
Proof.
  intros Hm Hi Hx (j & t & Hj & Ht & He). exists j, t. split; [|done].
  rewrite Hm, list_lookup_insert_ne; [done|]. congruence.
Qed.

Lemma evict_ok k i e :
  kinv k -> entry_mapping k !! i = Some e -> e <> 0 -> e <> RESERVED ->
  exists k', evict i e k = Done k' /\ kinv k' /\ entry_mapping k' = <[i := 0]> (entry_mapping k) /\ preserves k k'.
Proof.
  intros Hk Hi He0 HeR. destruct (k_map k Hk i e Hi He0 HeR) as (Hent & Hpres & Hfr).
  pose proof (mapping_lt k i e Hk Hi) as Hi250.
  destruct (entry_range k e Hk Hent) as [Hin _].
  set (w := ld32 (mem k) e) in *. set (w1 := pte_set BIT_PRESENT false w). set (w2 := pte_set_base_addr 0 w1).
  assert (Hw : word w) by (apply ld32_word, Hk).
  assert (Hw1 : word w1) by (apply pte_set_word; [done|unfold BIT_PRESENT; lia]).
  assert (Hw2 : word w2) by (by apply pte_set_base_word).
  set (m2 := st32 (st32 (mem k) e w1) e w2).
  set (sw := <[swap_file_name fmt_p e := mread (mem k) (frame_ptr i) PAGE_BYTES]> (swap_files k)).
  assert (Hrun : evict i e k = Done (Kernel m2 (<[i := 0]> (entry_mapping k)) sw)).
  { unfold evict, write_page_to_disk, get_system_pointer_from_pte, pte_load, pte_update.
    rewrite Hin. cbn [obind]. fold w. change (get_system_pointer_from_address pm _) with (frame_of w).
    rewrite Hfr, fopen_all, frame_in_physical by done. cbn [obind]. cbn [set_swap_files mem set_mem].
    fold w w1. rewrite ld32_st32 by done. done. }
  eexists. split; [exact Hrun|]. set (k' := Kernel m2 _ sw) in *.
  assert (Hout : forall x, x < e \/ e + 4 <= x -> mem k' x = mem k x) by (intros; by apply st32_twice_out).
  assert (Hld : ld32 (mem k') e = w2) by (apply ld32_st32; exact Hw2).
  assert (Hnp : pte_present w2 = false).
  { unfold w2. rewrite present_of_set_base by done. apply present_of_set. }
  assert (HRz : e <> RESERVED) by done.
  assert (Hother : forall e', coherent k e' -> e' <> e ->
    ld32 (mem k') e' = ld32 (mem k) e' /\ page_bytes k' e' = page_bytes k e').
  { intros e' Hc Hne. apply page_bytes_stable; try done.
    - intros x Hx. apply Hout. destruct (entries_apart k e e' Hent (proj1 Hc)); [congruence|lia|lia].
    - intros i' Hi' _ x Hx. apply Hout.
      destruct (entry_outside k e i' e' Hent Hi'); [|lia|lia].
      pose proof (entry_range k e' Hk (proj1 Hc)). unfold RESERVED. lia.
    - cbn. unfold sw. rewrite lookup_insert_ne; [done|]. intros Heq. apply swap_name_inj in Heq. done. }
  assert (Hpr : preserves k k').
  { intros e' Hc. assert (Hent' : is_entry k' e') by (eapply is_entry_insert; [|exact Hi|exact HeR|apply Hc]; done).
    destruct (decide (e' = e)) as [->|Hne].
    - split; [split; [done|]|].
      + rewrite Hld, Hnp. done.
      + unfold page_bytes. rewrite Hld, Hnp. fold w. rewrite Hpres, Hfr. cbn. unfold sw. by rewrite lookup_insert_eq.
    - destruct (Hother e' Hc Hne) as [Hl Hb]. split; [|done]. split; [done|].
      rewrite Hl. intros Hp. destruct (proj2 Hc Hp) as [i' Hi']. exists i'. cbn.
      rewrite list_lookup_insert_ne; [done|]. congruence. }
  split; [|by split]. split.
  - cbn. rewrite length_insert. apply Hk.
  - cbn. apply st32_bytes, st32_bytes, Hk.
  - cbn. unfold sw. intros f c. rewrite lookup_insert_Some. intros [[_ <-]|[_ Hf]]; [|by apply (k_swap k Hk f)].
    split; [apply length_mread|apply mread_bytes, Hk].
  - cbn. intros i' e' Hi' H0 HR. apply list_lookup_insert_Some in Hi' as [(_ & <- & _)|[Hii Hi']]; [done|].
    destruct (k_map k Hk i' e' Hi' H0 HR) as (He' & Hp' & Hf').
    assert (Hee : e' <> e).
    { intros ->. fold w in Hf'. rewrite Hfr in Hf'. unfold frame_ptr in Hf'. lia. }
    destruct (Hother e') as [Hl _]; [split; [done|eauto]|done|].
    split; [eapply is_entry_insert; [|exact Hi|exact HeR|exact He']; done|]. by rewrite Hl.
Qed.

(** ** Bringing a page in *)

(** The part of the page-fault branch after a frame was found. *)
Definition install (e frame_addr : Z) (k : kernel) : outcome kernel :=
  let! k := pte_update pm e (pte_set_base_addr (Z.shiftr frame_addr NUM_OFFSET_BITS)) k in
  let! k := read_page_from_disk pm fmt_p e k in
  let! k := pte_update pm e (pte_set BIT_PRESENT true) k in
  let! k := pte_update pm e (pte_set BIT_READ_WRITE true) k in
  pte_update pm e (pte_set BIT_USER_SUPERVISOR true) k.

(** What [install] leaves in memory. *)
Lemma install_run k i e :
  let k1 := Kernel (memset (mem k) (frame_ptr i) 0 PAGE_SIZE) (<[i := e]> (entry_mapping k)) (swap_files k) in
  kinv k -> is_entry k e -> entry_mapping k !! i = Some 0 ->
  exists m w, install e (u32 (frame_ptr i)) k1 = Done (Kernel m (entry_mapping k1) (swap_files k))
    /\ ld32 m e = w /\ pte_present w = true /\ frame_of w = frame_ptr i
    /\ mread m (frame_ptr i) PAGE_BYTES = default (replicate PAGE_BYTES 0) (swap_files k !! swap_file_name fmt_p e)
    /\ (forall x, (x < e \/ e + 4 <= x) -> (x < frame_ptr i \/ frame_ptr i + 4096 <= x) -> m x = mem k x)
    /\ (forall x, 0 <= m x < 256).
Proof.
  pose proof PAGE_BYTES_Z as HPB. intros k1 Hk Hent Hi. pose proof (mapping_lt k i 0 Hk Hi) as Hi250.
  destruct (entry_range k e Hk Hent) as [Hin _].
  assert (Hout : e + 4 <= frame_ptr i \/ frame_ptr i + 4096 <= e) by (by apply (entry_outside k e i 0)).
  assert (Hb1 : forall x, 0 <= mem k1 x < 256).
  { intros x. cbn. unfold memset. case_bool; [done|apply Hk]. }
  set (w1 := pte_set_base_addr (Z.shiftr (u32 (frame_ptr i)) NUM_OFFSET_BITS) (ld32 (mem k1) e)).
  assert (Hw1 : word w1) by (apply pte_set_base_word, ld32_word; done).
  assert (Hfr1 : frame_of w1 = frame_ptr i).
  { apply frame_of_base; [done|]. apply base_of_set_base, frame_addr_base. }
  set (m2 := st32 (mem k1) e w1).
  set (m3 := match swap_files k !! swap_file_name fmt_p e with
             | Some c => mwrite m2 (frame_ptr i) (take PAGE_BYTES c) | None => m2 end).
  assert (Hm3 : ld32 m3 e = w1
     /\ mread m3 (frame_ptr i) PAGE_BYTES = default (replicate PAGE_BYTES 0) (swap_files k !! swap_file_name fmt_p e)
     /\ (forall x, (x < e \/ e + 4 <= x) -> (x < frame_ptr i \/ frame_ptr i + 4096 <= x) -> m3 x = mem k x)
     /\ (forall x, 0 <= m3 x < 256)).
  { assert (Hm2 : forall x, (x < e \/ e + 4 <= x) -> (x < frame_ptr i \/ frame_ptr i + 4096 <= x) -> m2 x = mem k x).
    { intros x Hx1 Hx2. unfold m2. rewrite st32_ne by done. cbn. apply memset_ne. unfold PAGE_SIZE. lia. }
    unfold m3. destruct (swap_files k !! swap_file_name fmt_p e) as [c|] eqn:Hc.
    - destruct (k_swap k Hk _ _ Hc) as [Hlc Hbc].
      assert (Htk : take PAGE_BYTES c = c) by (apply take_ge; lia). rewrite Htk. clear Htk.
      split; [|split; [|split]].
      + rewrite <- (ld32_st32 (mem k1) e w1 Hw1). apply ld32_ext. intros x Hx. apply mwrite_ne. lia.
      + cbn. rewrite <- Hlc at 1. apply mread_mwrite.
      + intros x Hx1 Hx2. rewrite mwrite_ne by lia. by apply Hm2.
      + intros x. unfold mwrite. case_bool; [|by apply st32_bytes].
        rewrite nth_lookup. destruct (lookup_lt_is_Some_2 c (Z.to_nat (x - frame_ptr i))) as [b Hb]; [lia|].
        rewrite Hb. rewrite Forall_forall in Hbc. apply Hbc. by eapply list_elem_of_lookup_2.
    - split; [by apply ld32_st32|]. split; [|split; [done|by apply st32_bytes]].
      cbn [default]. apply list_eq. intros j. destruct (decide (j < PAGE_BYTES)%nat) as [Hj|Hj].
      + rewrite mread_lookup, lookup_replicate_2 by done. f_equal. unfold m2. rewrite st32_ne by lia.
        cbn. rewrite memset_in by (unfold PAGE_SIZE; lia). done.
      + rewrite !lookup_ge_None_2; [done|rewrite length_replicate; lia|rewrite length_mread; lia]. }
  destruct Hm3 as (Hl3 & Hr3 & Ho3 & Hb3).
  set (w2 := pte_set BIT_PRESENT true w1). set (w3 := pte_set BIT_READ_WRITE true w2).
  set (w4 := pte_set BIT_USER_SUPERVISOR true w3).
  assert (Hw2 : word w2) by (apply pte_set_word; [done|by unfold BIT_PRESENT]).
  assert (Hw3 : word w3) by (apply pte_set_word; [done|by unfold BIT_READ_WRITE]).
  assert (Hw4 : word w4) by (apply pte_set_word; [done|by unfold BIT_USER_SUPERVISOR]).
  exists (st32 (st32 (st32 m3 e w2) e w3) e w4), w4.
  assert (Hread : read_page_from_disk pm fmt_p e (set_mem k1 m2) = Done (set_mem k1 m3)).
  { unfold read_page_from_disk, get_system_pointer_from_pte, pte_load. rewrite Hin. cbn [obind].
    cbn [set_mem mem]. assert (Hl2 : ld32 m2 e = w1) by (by apply ld32_st32). rewrite Hl2.
    change (get_system_pointer_from_address pm _) with (frame_of w1). rewrite Hfr1.
    cbn [set_mem swap_files k1]. rewrite frame_in_physical by done. unfold m3.
    by destruct (swap_files k !! swap_file_name fmt_p e). }
  split.
  { unfold install, pte_update. rewrite Hin. cbn [obind]. fold w1 m2. rewrite Hread. cbn [obind].
    cbn [set_mem mem swap_files entry_mapping]. rewrite Hl3. fold w2. rewrite ld32_st32 by done. fold w3.
    rewrite ld32_st32 by done. fold w4. done. }
  clearbody m3. split; [by apply ld32_st32|]. split.
  { unfold w4, w3. rewrite !present_of_set_other by (unfold BIT_READ_WRITE, BIT_USER_SUPERVISOR; lia).
    apply present_of_set. }
  split.
  { rewrite <- Hfr1. unfold frame_of. f_equal. f_equal. f_equal. unfold w4, w3, w2.
    by rewrite !base_of_set by (unfold BIT_READ_WRITE, BIT_USER_SUPERVISOR, BIT_PRESENT; lia). }
  split.
  { rewrite <- Hr3. apply mread_ext. intros x Hx. by rewrite !st32_ne by lia. }
  split.
  { intros x Hx1 Hx2. rewrite !st32_ne by lia. by apply Ho3. }
  by apply st32_bytes, st32_bytes, st32_bytes.
Qed.

Lemma install_ok k i e :
  let k1 := Kernel (memset (mem k) (frame_ptr i) 0 PAGE_SIZE) (<[i := e]> (entry_mapping k)) (swap_files k) in
  kinv k -> coherent k e -> pte_present (ld32 (mem k) e) = false -> entry_mapping k !! i = Some 0 ->
  exists k', install e (u32 (frame_ptr i)) k1 = Done k' /\ kinv k' /\ preserves k k'
    /\ pte_present (ld32 (mem k') e) = true.
Proof.
  intros k1 Hk Hc Hnp Hi. pose proof (proj1 Hc) as Hent.
  destruct (install_run k i e Hk Hent Hi) as (m & w & Hrun & Hl & Hp & Hfr & Hr & Ho & Hb). fold k1 in Hrun.
  eexists. split; [exact Hrun|]. set (k' := Kernel m _ _) in *. cbn [mem] in *.
  assert (Hi250 : (i < 250)%nat) by (by eapply mapping_lt).
  assert (Hent' : forall e', is_entry k e' -> is_entry k' e')
    by (intros e' He'; eapply is_entry_insert; [|exact Hi|done|exact He']; done).
  assert (Hother : forall e', coherent k e' -> e' <> e ->
    ld32 (mem k') e' = ld32 (mem k) e' /\ page_bytes k' e' = page_bytes k e').
  { intros e' Hc' Hne. pose proof (entry_range k e' Hk (proj1 Hc')) as [_ He'].
    apply page_bytes_stable; try done.
    - intros x Hx. apply Ho.
      + destruct (entries_apart k e e' Hent (proj1 Hc')); [congruence|lia|lia].
      + destruct (entry_outside k e' i 0 (proj1 Hc') Hi); [done|lia|lia].
    - intros i' Hi' _ x Hx. apply Ho.
      + destruct (entry_outside k e i' e' Hent Hi'); [unfold RESERVED; lia|lia|lia].
      + destruct (frames_apart i i') as [|]; [intros ->; rewrite Hi in Hi'; injection Hi' as Hi'; lia|lia|lia]. }
  assert (Hnot : forall i', entry_mapping k !! i' <> Some e).
  { intros i' Hi'. pose proof (entry_range k e Hk Hent) as [_ Hr'].
    destruct (k_map k Hk i' e Hi') as (_ & Hp' & _); [lia|unfold RESERVED; lia|]. congruence. }
  assert (Hmk : mem k' = m) by done.
  split; [|split; [|by rewrite Hmk, Hl]].
  - split.
    + cbn. rewrite length_insert. apply Hk.
    + done.
    + apply Hk.
    + intros i' e' Hi' H0 HR. apply list_lookup_insert_Some in Hi' as [(-> & <- & _)|[Hii Hi']].
      * split; [by apply Hent'|]. by rewrite Hmk, Hl.
      * destruct (k_map k Hk i' e' Hi' H0 HR) as (He' & Hp' & Hf').
        destruct (Hother e') as [Hl' _]; [split; [done|eauto]|intros ->; by eapply Hnot|].
        split; [by apply Hent'|]. by rewrite Hl'.
  - intros e' Hc'. destruct (decide (e' = e)) as [->|Hne].
    + split; [split; [by apply Hent'|]|].
      * intros _. exists i. cbn. apply list_lookup_insert_eq. by rewrite (k_len k Hk).
      * unfold page_bytes. rewrite Hmk, Hl, Hp, Hfr, Hr, Hnp. done.
    + destruct (Hother e' Hc' Hne) as [Hl' Hb']. split; [|done]. split; [by apply Hent', Hc'|].
      rewrite Hl'. intros Hp'. destruct (proj2 Hc' Hp') as [i' Hi']. exists i'. cbn.
      rewrite list_lookup_insert_ne; [done|]. intros <-. rewrite Hi in Hi'. injection Hi' as <-.
      pose proof (entry_range k 0 Hk (proj1 Hc')). lia.
Qed.

Lemma list_find_some {A} (P : A -> Prop) `{forall x, Decision (P x)} (l : list A) i x :
  l !! i = Some x -> P x -> exists j y, list_find P l = Some (j, y).
Proof.
  intros Hi Hx. destruct (list_find P l) as [[j y]|] eqn:E; [eauto|].
  apply list_find_None in E. rewrite Forall_forall in E. exfalso. apply (E x); [by eapply list_elem_of_lookup_2|done].
Qed.

(** A frame is found without eviction. *)
Lemma ask_free k fuel e i :
  e <> 0 -> list_find (fun x => x = 0) (entry_mapping k) = Some (i, 0) ->
  ask_kernel_for_frame pm fmt_p fopen_ok fuel e k
  = Done (u32 (frame_ptr i), Kernel (memset (mem k) (frame_ptr i) 0 PAGE_SIZE) (<[i := e]> (entry_mapping k)) (swap_files k)).
Proof.
  intros He Hf. assert (Hz : (e =? 0) = false) by (by apply Z.eqb_neq).
  destruct fuel; cbn [ask_kernel_for_frame]; rewrite Hf, Hz; done.
Qed.

(** A frame is found, by eviction if necessary, and no page changes. *)
Lemma ask_ok k e :
  kinv k -> coherent k e -> pte_present (ld32 (mem k) e) = false ->
  (exists i x, entry_mapping k !! i = Some x /\ x <> RESERVED) ->
  exists k0 i, kinv k0 /\ preserves k k0 /\ pte_present (ld32 (mem k0) e) = false /\ entry_mapping k0 !! i = Some 0 /\
    ask_kernel_for_frame pm fmt_p fopen_ok 1 e k
    = Done (u32 (frame_ptr i), Kernel (memset (mem k0) (frame_ptr i) 0 PAGE_SIZE) (<[i := e]> (entry_mapping k0)) (swap_files k0)).
Proof.
  intros Hk Hc Hnp (i & x & Hi & Hx). pose proof (entry_range k e Hk (proj1 Hc)) as [_ Hr].
  destruct (list_find (fun x => x = 0) (entry_mapping k)) as [[j y]|] eqn:Hfind.
  - pose proof (proj1 (list_find_Some _ _ _ _) Hfind) as (Hj & -> & _).
    exists k, j. split; [done|]. split; [by intros e' He'|]. split; [done|]. split; [done|].
    by apply ask_free; [lia|].
  - assert (Hz : forall j, entry_mapping k !! j <> Some 0).
    { intros j Hj. destruct (list_find_some (fun x => x = 0) _ _ _ Hj eq_refl) as (? & ? & ?). congruence. }
    assert (Hxe : x <> e).
    { intros ->. destruct (k_map k Hk i e Hi) as (_ & Hp & _); [lia|done|]. congruence. }
    destruct (list_find_some (fun y => y <> RESERVED /\ y <> e) _ _ _ Hi (conj Hx Hxe)) as (j & y & Hv).
    pose proof (proj1 (list_find_Some _ _ _ _) Hv) as (Hj & [HyR Hye] & _).
    assert (Hy0 : y <> 0) by (intros ->; by eapply Hz).
    destruct (evict_ok k j y Hk Hj Hy0 HyR) as (k' & Hev & Hk' & Hmap & Hpr).
    assert (Hj' : entry_mapping k' !! j = Some 0).
    { rewrite Hmap. apply list_lookup_insert_eq. rewrite (k_len k Hk). exact (mapping_lt k j y Hk Hj). }
    destruct (list_find_some (fun x => x = 0) _ _ _ Hj' eq_refl) as (i0 & z & Hf0).
    pose proof (proj1 (list_find_Some _ _ _ _) Hf0) as (Hi0 & -> & _).
    assert (Hnp' : pte_present (ld32 (mem k') e) = false).
    { destruct (pte_present (ld32 (mem k') e)) eqn:Hp; [|done].
      destruct (Hpr e Hc) as [[_ Hc'] _]. destruct (Hc' Hp) as [q Hq]. rewrite Hmap in Hq.
      apply list_lookup_insert_Some in Hq as [(_ & Hq & _)|[_ Hq]]; [lia|].
      destruct (k_map k Hk q e Hq) as (_ & Hp' & _); [lia|unfold RESERVED; lia|congruence]. }
    exists k', i0. split; [done|]. split; [done|]. split; [done|]. split; [done|].
    cbn [ask_kernel_for_frame]. rewrite Hfind, Hv. unfold evict in Hev.
    destruct (write_page_to_disk _ _ _ _ _) as [ka| | |]; try done. cbn [obind] in *.
    destruct (pte_update pm y (pte_set BIT_PRESENT false) ka) as [kb| | |]; try done. cbn [obind] in *.
    destruct (pte_update pm y (pte_set_base_addr 0) kb) as [kc| | |]; try done. cbn [obind] in *.
    injection Hev as ->. by apply (ask_free k' 0 e i0); [lia|].
Qed.

(** C17. The page-fault branch of the MMU makes the page present and is invisible:
    with a frame that can be freed, every page, the faulting one and the evicted
    one included, has the same contents before and after, and the kernel's frame
    table stays consistent with the page tables. *)
Theorem page_in_transparent m k pte :
  kinv k -> coherent k pte -> (exists i x, entry_mapping k !! i = Some x /\ x <> RESERVED) ->
  exists m' k', mmu_page_in pm fmt_p fopen_ok m k pte = Done (m', k') /\ kinv k'
    /\ pte_present (ld32 (mem k') pte) = true
    /\ forall e, coherent k e -> coherent k' e /\ page_bytes k' e = page_bytes k e.
Proof.
  intros Hk Hc Hroom. destruct (entry_range k pte Hk (proj1 Hc)) as [Hin _].
  unfold mmu_page_in, pte_load. rewrite Hin. cbn [obind].
  destruct (pte_present (ld32 (mem k) pte)) eqn:Hp.
  - exists m, k. split; [done|]. split; [done|]. split; [done|]. auto.
  - destruct (ask_ok k pte Hk Hc Hp Hroom) as (k0 & i & Hk0 & Hpr0 & Hp0 & Hi & ->). cbn [obind].
    destruct (install_ok k0 i pte Hk0 (proj1 (Hpr0 pte Hc)) Hp0 Hi) as (k' & Hins & Hk' & Hpr & Hpres).
    exists (mmu_raise_page_fault m), k'. split; [|split; [done|split; [done|by eapply preserves_trans]]].
    unfold install in Hins. revert Hins.
    destruct (pte_update _ _ _ _) as [ka| | |]; try done. cbn [obind].
    destruct (read_page_from_disk _ _ _ _) as [kb| | |]; try done. cbn [obind].
    destruct (pte_update _ _ (pte_set BIT_PRESENT true) _) as [kc| | |]; try done. cbn [obind].
    destruct (pte_update _ _ (pte_set BIT_READ_WRITE true) _) as [kd| | |]; try done. cbn [obind].
    by intros ->.
Qed.

End Paging.

(** A kernel with one page table and all other frames free. *)
Definition sample_kernel : kernel := Kernel (fun _ => 0) (RESERVED :: replicate 249 0) ∅.

Lemma page_in_transparent_witness :
  exists m' k', mmu_page_in 4096 pretty (fun _ => true) mmu_create sample_kernel 4100 = Done (m', k')
    /\ pte_present (ld32 (mem k') 4100) = true
    /\ page_bytes 4096 pretty k' 4100 = page_bytes 4096 pretty sample_kernel 4100.
Proof.
  assert (Hent : is_entry 4096 sample_kernel 4100) by (exists 0%nat, 1; split; [reflexivity|split; [lia|reflexivity]]).
  assert (Hco : coherent 4096 sample_kernel 4100) by (split; [exact Hent|intros Hp; vm_compute in Hp; discriminate]).
  destruct (page_in_transparent 4096 pretty (fun _ => true) eq_refl ltac:(lia)
    (fun p q H => inj pretty p q H) (fun _ => eq_refl) mmu_create sample_kernel 4100) as (m' & k' & H1 & _ & H2 & H3).
  - split; [reflexivity|intros x; split; [apply Z.le_refl|reflexivity]|done|].
    intros i e Hi H0 HR. destruct i as [|i]; [injection Hi as <-; done|].
    change (replicate 249 0 !! i = Some e) in Hi. apply lookup_replicate in Hi as [-> _]. done.
  - exact Hco.
  - exists 1%nat, 0. split; [reflexivity|discriminate].
  - exists m', k'. split; [exact H1|]. split; [exact H2|]. apply H3. exact Hco.
Defined.

(** ** Protection *)

(** The access is allowed: the first segment containing the address permits it. *)
Definition allowed (segs : vm_segmentations) (address : Z) (write : bool) : bool :=
  match find_segment segs address with
  | Some seg => negb (Z.land (permissions seg) (if write then WRITE else READ) =? 0)
  | None => false
  end.

(** What the segments permit, said without the code's search: a segment covers the
    addresses from its lowest to its highest one, both included, whichever way it
    grows; bit 0 of its permissions is for reading and bit 1 for writing; of several
    segments that cover an address the first one decides. *)
Definition covers (address : Z) (seg : vm_segmentation) : Prop :=
  let low := if grows_down seg then seg_end seg else seg_start seg in
  let high := if grows_down seg then seg_start seg else seg_end seg in
  low <= address <= high.

Inductive permits (segs : vm_segmentations) (address : Z) (write : bool) : Prop :=
| permits_intro before seg after :
    segs = before ++ seg :: after -> Forall (fun s => ~ covers address s) before -> covers address seg ->
    Z.testbit (permissions seg) (if write then 1 else 0) = true -> permits segs address write.

Lemma in_segment_covers address seg : in_segment address seg = true <-> covers address seg.
Proof. unfold in_segment, covers. destruct (grows_down seg); rewrite andb_true_iff, !Z.leb_le; tauto. Qed.

(** The code's mask of one bit. *)
Lemma permission_bit p i : 0 <= i -> negb (Z.land p (2 ^ i) =? 0) = Z.testbit p i.
Proof.
  intros Hi. destruct (Z.testbit p i) eqn:E.
  - destruct (Z.eqb_spec (Z.land p (2 ^ i)) 0) as [H|]; [|done].
    assert (Hb : Z.testbit (Z.land p (2 ^ i)) i = true) by (by rewrite Z.land_spec, E, Z.pow2_bits_true).
    by rewrite H, Z.bits_0 in Hb.
  - rewrite (proj2 (Z.eqb_eq _ _)); [done|]. apply Z.bits_inj'. intros j Hj.
    rewrite Z.land_spec, Z.bits_0, (Z.pow2_bits_eqb i j Hi). destruct (Z.eqb_spec i j) as [<-|]; [by rewrite E|by rewrite andb_false_r].
Qed.

Lemma permission_mask p (write : bool) :
  (Z.land p (if write then WRITE else READ) =? 0) = negb (Z.testbit p (if write then 1 else 0)).
Proof. destruct write; rewrite <- permission_bit by done; by rewrite negb_involutive. Qed.

(** The code's search decides what the segments permit. *)
Lemma allowed_permits segs address write : allowed segs address write = true <-> permits segs address write.
Proof.
  unfold allowed. induction segs as [|seg segs IH]; cbn [find_segment].
  - split; [done|]. by intros [[|] ? ? ? _ _ _].
  - destruct (in_segment address seg) eqn:E.
    + apply in_segment_covers in E. rewrite permission_mask, negb_involutive. split.
      * intros H. by apply (permits_intro _ _ _ [] seg segs).
      * intros [[|s before] seg' after Heq Hb Hc Hp]; cbn in Heq; injection Heq as -> ->; [done|]. by apply Forall_cons in Hb as [].
    + assert (Hn : ~ covers address seg) by (rewrite <- in_segment_covers, E; done). rewrite IH. split.
      * intros [before seg' after -> Hb Hc Hp]. by apply (permits_intro _ _ _ (seg :: before) seg' after); [done|constructor|..].
      * intros [[|s before] seg' after Heq Hb Hc Hp]; cbn in Heq; injection Heq as -> ->; [done|].
        apply Forall_cons in Hb as [_ Hb]. by apply (permits_intro _ _ _ before seg' after).
Qed.

Lemma not_permits segs address write : ~ permits segs address write -> allowed segs address write = false.
Proof. rewrite <- allowed_permits. by destruct (allowed segs address write). Qed.

Section Protection.

Variable pm : Z.
Variable fmt_p : Z -> string.
Variable fopen_ok : string -> bool.

(** Translation raises no segmentation fault. *)
Lemma mmu_page_in_faults m k pte m' k' :
  mmu_page_in pm fmt_p fopen_ok m k pte = Done (m', k') -> num_segmentation_faults m' = num_segmentation_faults m.
Proof.
  unfold mmu_page_in. intros (w & _ & H)%obind_Done. destruct (pte_present w); [by simplify_eq|].
  apply obind_Done in H as ([f k1] & _ & H). do 5 (apply obind_Done in H as (? & _ & H)). by simplify_eq.
Qed.

Lemma mmu_walk_faults m k va pid pte m' k' :
  mmu_walk pm fmt_p fopen_ok m k va pid = Done (pte, m', k') -> num_segmentation_faults m' = num_segmentation_faults m.
Proof.
  unfold mmu_walk. intros (w & _ & H)%obind_Done. apply obind_Done in H as ([m1 k1] & H1 & H).
  do 2 (apply obind_Done in H as (? & _ & H)). simplify_eq.
  destruct (pte_present w); [by simplify_eq|].
  apply obind_Done in H1 as ([f k2] & _ & H1). do 5 (apply obind_Done in H1 as (? & _ & H1)). by simplify_eq.
Qed.

(** C18. A read or write that the segments of the process do not permit returns
    normally and leaves the buffer, physical memory, the frame table, the swap files,
    every page directory and every segment as they were: one segmentation fault is
    counted, and the process becomes the current one, with an empty TLB if it was
    not.  An access they do permit counts no segmentation fault. *)
Theorem mmu_rw_protected m k va pid buffer n write segs :
  segmentations m !! pid = Some segs ->
  (~ permits segs va write ->
     mmu_rw_from_virtual_address pm fmt_p fopen_ok m k va pid buffer n write =
       Done (buffer, Mmu (page_directories m) (segmentations m) (if pid =? curr_pid m then mmu_tlb m else tlb_create)
                       (num_page_faults m) (u64 (num_segmentation_faults m + 1)) (num_tlb_misses m) pid, k)) /\
  (permits segs va write -> forall buffer' m' k',
     mmu_rw_from_virtual_address pm fmt_p fopen_ok m k va pid buffer n write = Done (buffer', m', k') ->
     num_segmentation_faults m' = num_segmentation_faults m).
Proof.
  intros Hs. unfold mmu_rw_from_virtual_address.
  set (m0 := if pid =? curr_pid m then m else _).
  assert (Hm0 : m0 = Mmu (page_directories m) (segmentations m) (if pid =? curr_pid m then mmu_tlb m else tlb_create)
    (num_page_faults m) (num_segmentation_faults m) (num_tlb_misses m) pid).
  { unfold m0. destruct (Z.eqb_spec pid (curr_pid m)) as [->|]; by destruct m. }
  clearbody m0. subst m0. cbn [segmentations]. rewrite Hs. cbn [deref obind]. split.
  - intros Ha%not_permits. unfold allowed, address_in_segmentations in *.
    destruct (find_segment segs va) as [seg|]; cbn [negb deref obind]; [|done]. apply negb_false_iff in Ha. by rewrite Ha.
  - intros Ha%allowed_permits buffer' m' k'. unfold allowed, address_in_segmentations in *.
    destruct (find_segment segs va) as [seg|]; cbn [negb deref obind]; [|done]. apply negb_true_iff in Ha. rewrite Ha.
    intros H. apply obind_Done in H as ([pte t] & _ & H). apply obind_Done in H as ([[pte' m1] k1] & H1 & H).
    apply obind_Done in H as ([m2 k2] & H2 & H). apply obind_Done in H as (w & _ & H). apply obind_Done in H as ([b k3] & _ & H).
    do 3 (apply obind_Done in H as (? & _ & H)). simplify_eq. cbn [num_segmentation_faults set_tlb].
    apply mmu_page_in_faults in H2 as ->. destruct (pte =? 0); [by apply mmu_walk_faults in H1 as ->|by simplify_eq].
Qed.

(** (code bug) [mmu_write_to_virtual_address] duplicates the buffer with
    [strdup], which stops at the first zero byte: writing data with a zero byte
    before its end never succeeds, the copy reads past the duplicate. *)
Theorem mmu_write_zero_byte_undefined m k va pid buffer n s m' k' :
  cstr_of buffer = Some s -> Z.of_nat (length s) < n ->
  mmu_write_to_virtual_address pm fmt_p fopen_ok m k va pid buffer n = Done (m', k') ->
  exists segs, segmentations m !! pid = Some segs /\ allowed segs va true = false /\ k' = k.
Proof.
  intros Hs Hn Hrun. unfold mmu_write_to_virtual_address in Hrun. rewrite Hs in Hrun.
  apply obind_Done in Hrun as (u1 & _ & Hrun). apply obind_Done in Hrun as (u2 & _ & Hrun).
  cbn [deref obind] in Hrun.
  apply obind_Done in Hrun as ([[b m1] k1] & Hrw & Hrun). injection Hrun as -> ->.
  unfold mmu_rw_from_virtual_address in Hrw.
  set (m0 := if pid =? curr_pid m then m else _) in Hrw.
  assert (Hseg : segmentations m0 = segmentations m) by (unfold m0; by destruct (pid =? curr_pid m)).
  rewrite Hseg in Hrw. apply obind_Done in Hrw as (segs & Hsegs & Hrw).
  exists segs. unfold allowed, address_in_segmentations in *.
  destruct (segmentations m !! pid) as [segs'|]; [|done]. injection Hsegs as ->. split; [done|].
  destruct (find_segment segs va) as [seg|]; cbn [negb deref obind] in Hrw; [|by injection Hrw as _ _ ->].
  destruct (Z.land (permissions seg) WRITE =? 0); [by injection Hrw as _ _ ->|]. exfalso.
  apply obind_Done in Hrw as ([p t] & _ & Hrw).
  apply obind_Done in Hrw as ([[p' m2] k2] & _ & Hrw).
  apply obind_Done in Hrw as ([m3 k3] & _ & Hrw).
  apply obind_Done in Hrw as (w & _ & Hrw).
  apply obind_Done in Hrw as ([b' k4] & Hcopy & _).
  unfold mmu_copy in Hcopy. rewrite (proj2 (Z.ltb_lt _ _)) in Hcopy by done. done.
Qed.

End Protection.

Definition sample_mmu : mmu := set_process mmu_create ∅ {[ 1 := initial_segments ]}.

Lemma mmu_rw_protected_witness :
  ~ permits initial_segments 134512640 true /\
  mmu_rw_from_virtual_address 4096 pretty (fun _ => true) sample_mmu sample_kernel 134512640 1 [5] 1 true
    = Done ([5], Mmu ∅ {[ 1 := initial_segments ]} tlb_create 0 1 0 1, sample_kernel).
Proof.
  assert (Hp : ~ permits initial_segments 134512640 true) by (intros H%allowed_permits; vm_compute in H; discriminate).
  split; [exact Hp|].
  exact (proj1 (mmu_rw_protected 4096 pretty (fun _ => true) sample_mmu sample_kernel 134512640 1 [5] 1 true initial_segments eq_refl) Hp).
Defined.

Lemma mmu_write_zero_byte_undefined_witness :
  exists m' segs,
    mmu_write_to_virtual_address 4096 pretty (fun _ => true) sample_mmu sample_kernel 134512640 1 [5; 0; 6] 3
      = Done (m', sample_kernel)
    /\ segmentations sample_mmu !! 1 = Some segs /\ allowed segs 134512640 true = false.
Proof.
  eexists. destruct (mmu_write_zero_byte_undefined 4096 pretty (fun _ => true) sample_mmu sample_kernel 134512640 1
    [5; 0; 6] 3 [5; 0] (mmu_raise_segmentation_fault (set_curr_pid (set_tlb sample_mmu tlb_create) 1)) sample_kernel)
    as (segs & H1 & H2 & _); [reflexivity|cbn; lia|reflexivity|].
  exists segs. split; [reflexivity|]. split; [exact H1|exact H2].
Defined.

(** (code bug) The stack segment of a new process has its [start] below its
    [end] although it grows down: it contains no address, so no access to the
    8 MiB of stack [mmu_add_process] describes is ever allowed. *)
Theorem stack_segment_unreachable address write :
  3221217280 < address < 3229605888 -> allowed initial_segments address write = false.
Proof.
  intros Ha. unfold allowed, initial_segments. cbn [find_segment in_segment grows_down seg_end seg_start].
  repeat match goal with |- context [?a <=? ?b] =>
    first [rewrite (proj2 (Z.leb_le a b)) by lia | rewrite (proj2 (Z.leb_gt a b)) by lia] end.
  done.
Qed.

Lemma stack_segment_unreachable_witness :
  3221217280 < 3221221376 < 3229605888 /\ allowed initial_segments 3221221376 false = false.
Proof. split; [lia|]. apply (stack_segment_unreachable 3221221376 false). lia. Defined.

(** ** Swap files outlive their process *)

Section Swap.

Variable pm : Z.
Variable fmt_p : Z -> string.

(** No pointer prints as another one followed by ".bin". *)
Hypothesis fmt_no_suffix : forall p q, fmt_p p <> fmt_p q +:+ ".bin".

Definition swap_named (k : kernel) : Prop :=
  forall f c, swap_files k !! f = Some c -> exists q, f = swap_file_name fmt_p q.

Lemma remove_swap_file_noop e k : swap_named k -> swap_files (remove_swap_file fmt_p e k) = swap_files k.
Proof.
  intros Hn. cbn. apply delete_id. destruct (swap_files k !! fmt_p e) as [c|] eqn:E; [|done].
  destruct (Hn _ _ E) as [q Hq]. by apply fmt_no_suffix in Hq.
Qed.

Lemma return_frame_swap a k k' : return_frame_to_kernel pm a k = Done k' -> swap_files k' = swap_files k.
Proof.
  unfold return_frame_to_kernel. intros H. apply obind_Done in H as (u & _ & H).
  case_match; [|done]. by injection H as <-.
Qed.

Lemma remove_page_table_swap n e k k' :
  swap_named k -> remove_page_table pm fmt_p n e k = Done k' -> swap_files k' = swap_files k.
Proof.
  revert e k. induction n as [|n IH]; intros e k Hn H; cbn [remove_page_table] in H; [by injection H as ->|].
  apply obind_Done in H as (w & _ & H). apply obind_Done in H as (k1 & H1 & H).
  assert (Hk1 : swap_files k1 = swap_files k).
  { destruct (pte_present w); [|by injection H1 as ->].
    apply obind_Done in H1 as (fr & _ & H1). by apply return_frame_swap in H1. }
  assert (Hn1 : swap_named k1) by (unfold swap_named; by rewrite Hk1).
  pose proof (remove_swap_file_noop e k1 Hn1) as Hk2.
  rewrite <- Hk1, <- Hk2. apply (IH _ _) in H; [done|]. unfold swap_named. by rewrite Hk2.
Qed.

Lemma remove_page_directory_swap n e k k' :
  swap_named k -> remove_page_directory pm fmt_p n e k = Done k' -> swap_files k' = swap_files k.
Proof.
  revert e k. induction n as [|n IH]; intros e k Hn H; cbn [remove_page_directory] in H; [by injection H as ->|].
  apply obind_Done in H as (w & _ & H). apply obind_Done in H as (k1 & H1 & H).
  assert (Hk1 : swap_files k1 = swap_files k).
  { destruct (pte_present w); [|by injection H1 as ->].
    apply obind_Done in H1 as (pt & _ & H1). apply obind_Done in H1 as (k2 & H2 & H1).
    rewrite (return_frame_swap _ _ _ H1). by apply remove_page_table_swap in H2. }
  rewrite <- Hk1. apply (IH _ _ ) in H; [done|]. unfold swap_named. by rewrite Hk1.
Qed.

(** (code bug) [remove_swap_file] builds a name without the ".bin" suffix the
    pages are written under, so removing a process deletes none of its swapped
    pages: they stay on disk under entry addresses later processes will reuse. *)
Theorem mmu_remove_process_keeps_swap m k pid m' k' :
  swap_named k -> mmu_remove_process pm fmt_p m k pid = Done (m', k') -> swap_files k' = swap_files k.
Proof.
  intros Hn H. unfold mmu_remove_process in H. apply obind_Done in H as (u & _ & H).
  apply obind_Done in H as (k1 & H1 & H). injection H as _ <-.
  destruct (page_directory_of m pid =? 0); [by injection H1 as ->|].
  apply obind_Done in H1 as (k2 & H2 & H1).
  rewrite (return_frame_swap _ _ _ H1). by apply remove_page_directory_swap in H2.
Qed.

End Swap.

(** A pointer format for concrete runs. *)
Fixpoint xs (n : nat) : string := match n with O => "" | S n => String (Ascii.ascii_of_nat 120) (xs n) end.

Lemma xs_no_suffix n m : xs n <> xs m +:+ ".bin".
Proof.
  revert n. induction m as [|m IH]; intros [|n]; cbn; try discriminate.
  intros H. injection H as H. by apply (IH n).
Qed.

Lemma mmu_remove_process_keeps_swap_witness :
  let fmt := fun p => xs (Z.to_nat (p - 4096)) in
  let k := Kernel (fun _ => 0) (RESERVED :: replicate 249 0) {[ swap_file_name fmt 4100 := [7] ]} in
  let m := set_process mmu_create {[ 1 := 4096 ]} {[ 1 := initial_segments ]} in
  exists m' k', mmu_remove_process 4096 fmt m k 1 = Done (m', k') /\ swap_files k' !! swap_file_name fmt 4100 = Some [7].
Proof.
  cbv zeta. set (fmt := fun p => xs (Z.to_nat (p - 4096))). set (k := Kernel _ _ _). set (m := set_process _ _ _).
  exists (set_process mmu_create ∅ ∅), (Kernel (fun _ => 0) (replicate 250 0) (swap_files k)).
  assert (Hrun : mmu_remove_process 4096 fmt m k 1 = Done (set_process mmu_create ∅ ∅, Kernel (fun _ => 0) (replicate 250 0) (swap_files k)))
    by (vm_compute; reflexivity).
  split; [exact Hrun|].
  refine (eq_trans (f_equal (lookup _) (mmu_remove_process_keeps_swap 4096 fmt (fun p q => xs_no_suffix _ _) m k 1 _ _ _ Hrun)) _).
  - intros f c Hf. exists 4100. cbn in Hf. apply lookup_singleton_Some in Hf as [<- _]. reflexivity.
  - apply lookup_singleton_eq.
Defined.
