(* ===== verification/Scheduler.v ===== *)
(** * The job scheduler of [savvy_scheduler/]

    The priority queue of [libpriqueue/libpriqueue.c] and the six scheduling
    schemes of [libscheduler.c].  Jobs are identified by the address of their
    [job] structure; their [metadata] ([job_info]) lives in a store that the
    queue's comparer reads, so that changing the metadata of a queued job is
    visible to later comparisons, as in the code.  Times and priorities are
    [double]s in the source; the model is parametric in their type, with the
    operations the code uses as a class.  Queue entries and metadata are
    allocated with [malloc]/[calloc], taken to succeed (the code does not check). *)

From stdpp Require Import gmap.
From S2P Require Import Prelude.
Open Scope Z_scope.

(** Operations on [double]s. *)
Class TimeOps (T : Type) := {
  tlt : T -> T -> bool;
  teq : T -> T -> bool;
  tadd : T -> T -> T;
  tsub : T -> T -> T;
  tdiv : T -> Z -> T;
  tofZ : Z -> T;
}.

(** ** [libpriqueue.c] *)

Section Priqueue.

(** [comparer a b] may fault when an argument is not a valid object. *)
Variable comparer : Z -> Z -> outcome Z.

Record priqueue_t := Priqueue {
  size : Z;
  entries : list Z;
}.

Definition priqueue_init : priqueue_t := Priqueue 0 [].

(** The search from [leftentry] on, which is at index [retval - 1]. *)
Fixpoint offer_loop (value : Z) (leftentry : list Z) (retval : Z) : outcome (Z * list Z) :=
  match leftentry with
  | [] => Done (retval, [])
  | lft :: next =>
      let! cmpA := comparer lft value in
      match next with
      | [] => Done (retval, [lft; value])
      | rgt :: _ =>
          let! cmpB := comparer value rgt in
          if (cmpA <=? 0) && (cmpB <? 0) then Done (retval, lft :: value :: next)
          else
            let! (r, next') := offer_loop value next (s32 (retval + 1)) in
            Done (r, lft :: next')
      end
  end.

Definition priqueue_offer (q : priqueue_t) (ptr : Z) : outcome (Z * priqueue_t) :=
  let size' := s32 (size q + 1) in
  match entries q with
  | [] => Done (0, Priqueue size' [ptr])
  | head :: _ =>
      let! c := comparer ptr head in
      if c <? 0 then Done (0, Priqueue size' (ptr :: entries q))
      else
        let! (retval, es) := offer_loop ptr (entries q) 1 in
        Done (retval, Priqueue size' es)
  end.

(** Null pointers are 0. *)
Definition priqueue_peek (q : priqueue_t) : Z :=
  match entries q with [] => 0 | head :: _ => head end.

Definition priqueue_poll (q : priqueue_t) : Z * priqueue_t :=
  match entries q with
  | [] => (0, q)
  | prevhead :: next => (prevhead, Priqueue (size q - 1) next)
  end.

Definition priqueue_size (q : priqueue_t) : Z := size q.

(** Polls until a poll returns [NULL]. *)
Fixpoint priqueue_destroy_loop (fuel : nat) (q : priqueue_t) : outcome priqueue_t :=
  match fuel with
  | O => OutOfFuel
  | S fuel =>
      let (v, q) := priqueue_poll q in
      if v =? 0 then Done q else priqueue_destroy_loop fuel q
  end.

Definition priqueue_destroy (q : priqueue_t) : outcome priqueue_t :=
  priqueue_destroy_loop (S (length (entries q))) q.

End Priqueue.

(** ** [libscheduler.c] *)

Inductive scheme_t := FCFS | PPRI | PRI | PSRTF | RR | SJF.

Section Scheduler.

Context {T : Type} `{TimeOps T}.

Record job_info := JobInfo {
  id : Z;
  priority : T;
  running_time : T;
  start_time : T;
  arrival_time : T;
  remaining_time : T;
  next_time : T;
  start_after_preempt : T;
}.

Record scheduler_info := SchedulerInfo {
  si_running_time : T;
  si_priority : T;
}.

Definition set_start_time (i : job_info) (t : T) : job_info :=
  JobInfo (id i) (priority i) (running_time i) t (arrival_time i) (remaining_time i) (next_time i)
    (start_after_preempt i).
Definition set_remaining_time (i : job_info) (t : T) : job_info :=
  JobInfo (id i) (priority i) (running_time i) (start_time i) (arrival_time i) t (next_time i)
    (start_after_preempt i).
Definition set_next_time (i : job_info) (t : T) : job_info :=
  JobInfo (id i) (priority i) (running_time i) (start_time i) (arrival_time i) (remaining_time i) t
    (start_after_preempt i).
Definition set_start_after_preempt (i : job_info) (t : T) : job_info :=
  JobInfo (id i) (priority i) (running_time i) (start_time i) (arrival_time i) (remaining_time i)
    (next_time i) t.

Record scheduler := Sched {
  jobs : gmap Z job_info;
  pqueue : priqueue_t;
  pqueue_scheme : scheme_t;
  n_jobs : Z;
  turnaround_time : T;
  response_time : T;
  wait_time : T;
}.

Definition set_jobs (s : scheduler) (js : gmap Z job_info) : scheduler :=
  Sched js (pqueue s) (pqueue_scheme s) (n_jobs s) (turnaround_time s) (response_time s) (wait_time s).
Definition set_pqueue (s : scheduler) (q : priqueue_t) : scheduler :=
  Sched (jobs s) q (pqueue_scheme s) (n_jobs s) (turnaround_time s) (response_time s) (wait_time s).

Definition is_preemptive (s : scheme_t) : bool :=
  match s with PPRI | PSRTF | RR => true | _ => false end.

Section Comparers.

Variable js : gmap Z job_info.

Definition comparer_fcfs (a b : Z) : outcome Z :=
  let! j1_info := deref (js !! a) in
  let! j2_info := deref (js !! b) in
  if tlt (arrival_time j1_info) (arrival_time j2_info) then Done (-1)
  else if tlt (arrival_time j2_info) (arrival_time j1_info) then Done 1
  else Done 0.

Definition break_tie (a b : Z) : outcome Z := comparer_fcfs a b.

Definition comparer_pri (a b : Z) : outcome Z :=
  let! j1_info := deref (js !! a) in
  let! j2_info := deref (js !! b) in
  if tlt (priority j1_info) (priority j2_info) then Done (-1)
  else if tlt (priority j2_info) (priority j1_info) then Done 1
  else break_tie a b.

Definition comparer_ppri (a b : Z) : outcome Z := comparer_pri a b.

Definition comparer_psrtf (a b : Z) : outcome Z :=
  let! j1_info := deref (js !! a) in
  let! j2_info := deref (js !! b) in
  if tlt (remaining_time j1_info) (remaining_time j2_info) then Done (-1)
  else if tlt (remaining_time j2_info) (remaining_time j1_info) then Done 1
  else break_tie a b.

Definition comparer_rr (a b : Z) : outcome Z :=
  let! j1_info := deref (js !! a) in
  let! j2_info := deref (js !! b) in
  if tlt (next_time j1_info) (next_time j2_info) then Done (-1)
  else if tlt (next_time j2_info) (next_time j1_info) then Done 1
  else break_tie a b.

Definition comparer_sjf (a b : Z) : outcome Z :=
  let! j1_info := deref (js !! a) in
  let! j2_info := deref (js !! b) in
  if tlt (running_time j1_info) (running_time j2_info) then Done (-1)
  else if tlt (running_time j2_info) (running_time j1_info) then Done 1
  else break_tie a b.

(** The comparer [scheduler_start_up] installs for the scheme. *)
Definition comparision_func (s : scheme_t) : Z -> Z -> outcome Z :=
  match s with
  | FCFS => comparer_fcfs
  | PRI => comparer_pri
  | PPRI => comparer_ppri
  | PSRTF => comparer_psrtf
  | RR => comparer_rr
  | SJF => comparer_sjf
  end.

End Comparers.

Definition scheduler_start_up (js : gmap Z job_info) (s : scheme_t) : scheduler :=
  Sched js priqueue_init s 0 (tofZ 0) (tofZ 0) (tofZ 0).

Definition offer (s : scheduler) (j : Z) : outcome scheduler :=
  let! (_, q) := priqueue_offer (comparision_func (jobs s) (pqueue_scheme s)) (pqueue s) j in
  Done (set_pqueue s q).

Definition scheduler_new_job (s : scheduler) (newjob job_number : Z) (time : T) (sched_data : scheduler_info)
  : outcome scheduler :=
  let my_job := JobInfo job_number (si_priority sched_data) (si_running_time sched_data) (tofZ (-1)) time
                  (si_running_time sched_data) (tofZ (-1)) time in
  offer (set_jobs s (<[newjob := my_job]> (jobs s))) newjob.

(** Write through a job's metadata pointer. *)
Definition update_info (j : Z) (f : job_info -> job_info) (s : scheduler) : outcome scheduler :=
  let! i := deref (jobs s !! j) in Done (set_jobs s (<[j := f i]> (jobs s))).

(** Returns the next job (0 for [NULL]); [job_evicted = 0] when none is running. *)
Definition scheduler_quantum_expired (s : scheduler) (job_evicted : Z) (time : T) : outcome (Z * scheduler) :=
  let j := priqueue_peek (pqueue s) in
  if (j =? 0) && (job_evicted =? 0) then Done (0, s)
  else
    let! s :=
      if j =? 0 then Done s
      else
        let! j_info := deref (jobs s !! j) in
        if teq (start_time j_info) (tofZ (-1))
        then update_info j (fun i => set_start_time i time) s
        else Done s in
    if job_evicted =? 0 then
      let next_job := priqueue_peek (pqueue s) in
      let! s := update_info next_job (fun i => set_start_after_preempt i time) s in
      Done (next_job, s)
    else
      let! s := update_info job_evicted (fun i => set_next_time i time) s in
      if is_preemptive (pqueue_scheme s) then
        let (next_job, q) := priqueue_poll (pqueue s) in
        let s := set_pqueue s q in
        let! s := update_info next_job (fun i => set_start_after_preempt i time) s in
        let! s := offer s next_job in
        let! s := update_info job_evicted (fun i =>
          set_remaining_time i (tsub (remaining_time i) (tsub time (start_after_preempt i)))) s in
        Done (priqueue_peek (pqueue s), s)
      else Done (job_evicted, s).

Definition scheduler_job_finished (s : scheduler) (job_done : Z) (time : T) : outcome scheduler :=
  let! j_info := deref (jobs s !! job_done) in
  let (_, q) := priqueue_poll (pqueue s) in
  Done (Sched (delete job_done (jobs s)) q (pqueue_scheme s) (s32 (n_jobs s + 1))
    (tadd (turnaround_time s) (tsub time (arrival_time j_info)))
    (tadd (response_time s) (tsub (start_time j_info) (arrival_time j_info)))
    (tadd (wait_time s) (tsub (tsub time (arrival_time j_info)) (running_time j_info)))).

Definition scheduler_average_waiting_time (s : scheduler) : T := tdiv (wait_time s) (n_jobs s).
Definition scheduler_average_turnaround_time (s : scheduler) : T := tdiv (turnaround_time s) (n_jobs s).
Definition scheduler_average_response_time (s : scheduler) : T := tdiv (response_time s) (n_jobs s).

(** The statistics it prints are returned. *)
Definition scheduler_clean_up (s : scheduler) : outcome (scheduler * (T * T * T)) :=
  let! q := priqueue_destroy (pqueue s) in
  let s := set_pqueue s q in
  Done (s, (scheduler_average_turnaround_time s, scheduler_average_waiting_time s,
            scheduler_average_response_time s)).

End Scheduler.
Arguments job_info T : clear implicits.
Arguments scheduler T : clear implicits.
Arguments scheduler_info T : clear implicits.
