(* ===== verification/SchedulerSpec.v ===== *)
(** * Correctness of the scheduler

    The comparers are total preorders, [priqueue_offer] is a stable sorted
    insertion for any such comparer, and a scheduler whose sort key does not
    change while a job is queued always runs a job of least key.  The last part
    shows where the preemptive schemes deviate. *)

From Stdlib Require Import QArith.
From stdpp Require Import gmap sorting.
From S2P Require Import Prelude Scheduler.
Open Scope Z_scope.

(** The interface of [double]s the proofs rely on: [<] is a strict weak order
    (doubles other than NaN). *)
Class TimeOrder (T : Type) `{TimeOps T} : Prop := {
  tlt_irrefl : forall a, tlt a a = false;
  tlt_asym : forall a b, tlt a b = true -> tlt b a = false;
  tge_trans : forall a b c, tlt a b = false -> tlt b c = false -> tlt a c = false;
}.

(** Exact rational times, for concrete runs. *)
#[export] Instance Q_time : TimeOps Q := {
  tlt a b := negb (Qle_bool b a);
  teq := Qeq_bool;
  tadd := Qplus;
  tsub := Qminus;
  tdiv a n := Qdiv a (inject_Z n);
  tofZ := inject_Z;
}.

#[export] Instance Q_time_order : TimeOrder Q.
Proof.
  split; cbn; intros *; rewrite ?negb_true_iff, ?negb_false_iff.
  - apply Qle_bool_iff, Qle_refl.
  - intros Hab. destruct (Qlt_le_dec a b) as [Hl|Hl].
    + apply Qle_bool_iff. by apply Qlt_le_weak.
    + apply Qle_bool_iff in Hl. congruence.
  - rewrite !Qle_bool_iff. intros. by eapply Qle_trans.
Qed.

(** ** The priority queue, for any comparer that is a total preorder *)

(** What the queue asks of its comparer on the objects [D]. *)
Class Comparer (comparer : Z -> Z -> outcome Z) (cmp : Z -> Z -> Z) (D : Z -> Prop) : Prop := {
  cmp_defined : forall a b, D a -> D b -> comparer a b = Done (cmp a b);
  cmp_antisym : forall a b, D a -> D b -> cmp a b < 0 <-> 0 < cmp b a;
  cmp_trans : forall a b c, D a -> D b -> D c -> cmp a b <= 0 -> cmp b c <= 0 -> cmp a c <= 0;
}.

Lemma sorted_insert {A} (R : A -> A -> Prop) l1 l2 x :
  StronglySorted R (l1 ++ l2) -> Forall (fun y => R y x) l1 -> Forall (R x) l2 -> StronglySorted R (l1 ++ x :: l2).
Proof.
  induction l1 as [|y l1 IH]; cbn; intros Hs H1 H2; [by constructor|].
  apply StronglySorted_inv in Hs as [Hs Hy]. apply Forall_cons in H1 as [Hyx H1].
  constructor; [by apply IH|]. apply Forall_app in Hy as [Hy1 Hy2].
  apply Forall_app. split; [done|]. by constructor.
Qed.

Section Offer.

Context (comparer : Z -> Z -> outcome Z) (cmp : Z -> Z -> Z) (D : Z -> Prop).
Context `{HC : !Comparer comparer cmp D}.

Abbreviation le := (fun a b => cmp a b <= 0).

Lemma cmp_gt_le a b : D a -> D b -> ~ cmp a b < 0 -> cmp b a <= 0.
Proof. intros Ha Hb Hn. destruct (Z.le_gt_cases (cmp b a) 0); [done|]. by rewrite (cmp_antisym a b) in Hn. Qed.

Lemma cmp_lt_le a b c : D a -> D b -> D c -> cmp a b < 0 -> cmp b c <= 0 -> cmp a c < 0.
Proof.
  intros Ha Hb Hc Hab Hbc. destruct (Z.lt_ge_cases (cmp a c) 0) as [|Hge]; [done|]. exfalso.
  assert (Hca : cmp c a <= 0) by (apply cmp_gt_le; [done|done|lia]).
  pose proof (cmp_trans b c a Hb Hc Ha Hbc Hca). apply (cmp_antisym a b Ha Hb) in Hab. lia.
Qed.

Lemma cmp_le_lt a b c : D a -> D b -> D c -> cmp a b <= 0 -> cmp b c < 0 -> cmp a c < 0.
Proof.
  intros Ha Hb Hc Hab Hbc. destruct (Z.lt_ge_cases (cmp a c) 0) as [|Hge]; [done|]. exfalso.
  assert (Hca : cmp c a <= 0) by (apply cmp_gt_le; [done|done|lia]).
  pose proof (cmp_trans c a b Hc Ha Hb Hca Hab). apply (cmp_antisym b c Hb Hc) in Hbc. lia.
Qed.

Lemma offer_loop_spec x l r :
  D x -> Forall D l -> StronglySorted le l -> l <> [] -> (forall y, head l = Some y -> cmp y x <= 0) ->
  1 <= r -> r + Z.of_nat (length l) < 2147483648 ->
  exists l1 l2, l = l1 ++ l2 /\ offer_loop comparer x l r = Done (r + Z.of_nat (length l1) - 1, l1 ++ x :: l2)
    /\ Forall (fun y => cmp y x <= 0) l1 /\ Forall (fun y => cmp x y < 0) l2.
Proof.
  revert r. induction l as [|y l IH]; intros r Hx Hl Hs Hne Hhd Hr Hb; [done|].
  apply Forall_cons in Hl as [Hy Hl]. apply StronglySorted_inv in Hs as [Hs Hyl].
  pose proof (Hhd y eq_refl) as Hyx. cbn [offer_loop]. rewrite (cmp_defined y x Hy Hx). cbn [obind].
  destruct l as [|z l].
  - exists [y], []. split; [done|]. split; [|by split; [constructor|constructor]]. cbn. do 2 f_equal. lia.
  - pose proof Hl as Hl'. apply Forall_cons in Hl' as [Hz Hl'].
    rewrite (cmp_defined x z Hx Hz). cbn [obind]. rewrite (proj2 (Z.leb_le _ _)) by done. cbn [andb].
    destruct (cmp x z <? 0) eqn:E; bool_to_prop.
    + exists [y], (z :: l). split; [done|]. split; [cbn; do 2 f_equal; lia|]. split; [by constructor|].
      constructor; [done|]. apply StronglySorted_inv in Hs as [_ Hzl].
      rewrite Forall_forall in *. intros w Hw. apply (cmp_lt_le x z w); auto.
    + assert (Hzx : cmp z x <= 0) by (apply cmp_gt_le; [done|done|lia]).
      cbn [length] in Hb. rewrite (s32_small (r + 1)) by lia.
      destruct (IH (r + 1)) as (l1 & l2 & Heq & Hrun & H1 & H2); try done; [by intros y' [= <-]|lia|cbn [length]; lia|].
      rewrite Hrun. cbn [obind]. exists (y :: l1), l2. rewrite Heq. split; [done|].
      split; [|by split; [constructor|]]. cbn [length app]. do 2 f_equal. lia.
Qed.

Lemma offer_spec q x :
  D x -> Forall D (entries q) -> StronglySorted le (entries q) ->
  size q = Z.of_nat (length (entries q)) -> Z.of_nat (length (entries q)) < 2147483646 ->
  exists l1 l2, entries q = l1 ++ l2
    /\ priqueue_offer comparer q x = Done (Z.of_nat (length l1), Priqueue (size q + 1) (l1 ++ x :: l2))
    /\ Forall (fun y => cmp y x <= 0) l1 /\ Forall (fun y => cmp x y < 0) l2
    /\ StronglySorted le (l1 ++ x :: l2).
Proof.
  intros Hx Hd Hs Hsz Hb. unfold priqueue_offer. rewrite (s32_small (size q + 1)) by lia.
  assert (Hsorted : forall l1 l2, entries q = l1 ++ l2 -> Forall (fun y => cmp y x <= 0) l1 ->
    Forall (fun y => cmp x y < 0) l2 -> StronglySorted le (l1 ++ x :: l2)).
  { intros l1 l2 Heq H1 H2. apply sorted_insert; [by rewrite <- Heq|done|].
    eapply Forall_impl; [exact H2|]. cbn. lia. }
  destruct (entries q) as [|y l] eqn:Hq.
  - exists [], []. repeat split; try done. repeat constructor.
  - apply Forall_cons in Hd as Hd'. destruct Hd' as [Hy Hl]. rewrite (cmp_defined x y Hx Hy). cbn [obind].
    destruct (cmp x y <? 0) eqn:E; bool_to_prop.
    + exists [], (y :: l). split; [done|]. split; [done|].
      assert (H2 : Forall (fun z => cmp x z < 0) (y :: l)).
      { constructor; [done|]. apply StronglySorted_inv in Hs as [_ Hyl].
        rewrite Forall_forall in *. intros w Hw. apply (cmp_lt_le x y w); auto. }
      split; [constructor|]. split; [done|]. by apply Hsorted.
    + destruct (offer_loop_spec x (y :: l) 1) as (l1 & l2 & Heq & Hrun & H1 & H2); try done.
      { intros y' [= <-]. apply cmp_gt_le; [done|done|lia]. }
      { lia. }
      rewrite Hrun. cbn [obind]. exists l1, l2. split; [done|].
      split; [do 2 f_equal; lia|]. split; [done|]. split; [done|]. by apply Hsorted.
Qed.

(** Offer every element in turn; poll until the queue is empty. *)
Fixpoint offer_all (q : priqueue_t) (l : list Z) : outcome priqueue_t :=
  match l with
  | [] => Done q
  | x :: l => let! (_, q) := priqueue_offer comparer q x in offer_all q l
  end.

Fixpoint poll_all (fuel : nat) (q : priqueue_t) : list Z :=
  match fuel with
  | O => []
  | S fuel => let (v, q) := priqueue_poll q in if v =? 0 then [] else v :: poll_all fuel q
  end.

Lemma poll_all_entries fuel q : 0 ∉ entries q -> (length (entries q) <= fuel)%nat -> poll_all fuel q = entries q.
Proof.
  revert q. induction fuel as [|fuel IH]; intros [n [|x l]] H0 Hf; cbn in *; try done; [lia|].
  apply not_elem_of_cons in H0 as [Hx H0]. rewrite (proj2 (Z.eqb_neq _ _)) by done.
  f_equal. apply IH; [done|cbn; lia].
Qed.

(** The elements equivalent to [z]. *)
Abbreviation class z := (filter (fun y => cmp z y = 0)).

Lemma class_insert z x l1 l2 :
  D z -> D x -> Forall D l2 -> Forall (fun y => cmp x y < 0) l2 ->
  class z (l1 ++ x :: l2) = class z (l1 ++ l2) ++ class z [x].
Proof.
  intros Hz Hx Hd H2. rewrite !filter_app. change (x :: l2) with ([x] ++ l2). rewrite filter_app.
  destruct (decide (cmp z x = 0)) as [E|E].
  - assert (Hnil : class z l2 = []).
    { rewrite Forall_forall in *. assert (forall l, (forall y, y ∈ l -> cmp z y <> 0) -> class z l = []) as Hf.
      { induction l as [|y l IHl]; intros Hy; [done|]. rewrite filter_cons_False by (apply Hy; by left).
        apply IHl. intros; apply Hy; by right. }
      apply Hf. intros y Hy Hzy.
      assert (Hlt : cmp z y < 0) by (apply cmp_le_lt with x; auto; lia). lia. }
    rewrite Hnil, !app_nil_r. done.
  - rewrite (filter_cons_False _ x []) by done. cbn. by rewrite app_nil_r.
Qed.

Lemma offer_all_spec l q :
  Forall D l -> Forall D (entries q) -> StronglySorted le (entries q) ->
  size q = Z.of_nat (length (entries q)) -> Z.of_nat (length (entries q) + length l) < 2147483646 ->
  exists q', offer_all q l = Done q' /\ StronglySorted le (entries q') /\ entries q' ≡ₚ entries q ++ l
    /\ forall z, D z -> class z (entries q') = class z (entries q) ++ class z l.
Proof.
  revert q. induction l as [|x l IH]; intros q Hl Hd Hs Hsz Hb; cbn [offer_all].
  - exists q. rewrite app_nil_r. split; [done|]. split; [done|]. split; [done|]. intros. by rewrite app_nil_r.
  - apply Forall_cons in Hl as [Hx Hl]. cbn [length] in Hb.
    destruct (offer_spec q x Hx Hd Hs Hsz) as (l1 & l2 & Heq & -> & H1 & H2 & Hs'); [lia|]. cbn [obind].
    rewrite Heq in Hd, Hsz, Hb. apply Forall_app in Hd as [Hd1 Hd2]. rewrite length_app in *.
    destruct (IH (Priqueue (size q + 1) (l1 ++ x :: l2))) as (q' & -> & Hsq & Hp & Hcl); try done; cbn [entries Scheduler.size].
    { apply Forall_app. split; [done|]. by constructor. }
    { rewrite length_app. cbn. lia. }
    { rewrite length_app. cbn. lia. }
    exists q'. split; [done|]. split; [done|]. split.
    + rewrite Hp, Heq. cbn. solve_Permutation.
    + intros z Hz. rewrite Hcl by done. cbn [entries]. rewrite class_insert by done. rewrite Heq, <- app_assoc.
      f_equal. rewrite !filter_cons. destruct (decide _); done.
Qed.

(** Offering objects one by one and polling them all returns them sorted by the
    comparer, every one exactly once, and objects that compare equal in the order
    in which they were offered (the queue is first-in first-out on ties). *)
Theorem priqueue_sorts l :
  Forall D l -> 0 ∉ l -> Z.of_nat (length l) < 2147483646 ->
  exists q, offer_all priqueue_init l = Done q
    /\ StronglySorted le (poll_all (length l) q) /\ poll_all (length l) q ≡ₚ l
    /\ forall z, D z -> class z (poll_all (length l) q) = class z l.
Proof.
  intros Hl H0 Hb.
  destruct (offer_all_spec l priqueue_init Hl) as (q & Hrun & Hs & Hp & Hc); [constructor|constructor|done|done|].
  exists q. cbn in Hp, Hc.
  rewrite poll_all_entries by (rewrite ?Hp; done). done.
Qed.

End Offer.

(** ** The comparers of the schemes *)

Section Schemes.

Context {T : Type} `{HT : TimeOrder T}.

Abbreviation info := (job_info T).

(** The first sort key of each scheme; ties are broken by arrival. *)
Definition key (s : scheme_t) (i : info) : T :=
  match s with
  | FCFS => arrival_time i
  | PRI | PPRI => priority i
  | PSRTF => remaining_time i
  | RR => next_time i
  | SJF => running_time i
  end.

Definition three (a b : T) : Z := if tlt a b then -1 else if tlt b a then 1 else 0.

Definition cmp_info (s : scheme_t) (i1 i2 : info) : Z :=
  let c := three (key s i1) (key s i2) in
  if c =? 0 then three (arrival_time i1) (arrival_time i2) else c.

Definition dummy_info : info :=
  JobInfo 0 (tofZ 0) (tofZ 0) (tofZ 0) (tofZ 0) (tofZ 0) (tofZ 0) (tofZ 0).

Definition info_of (js : gmap Z info) (j : Z) : info := default dummy_info (js !! j).

Definition scheme_cmp (s : scheme_t) (js : gmap Z info) (a b : Z) : Z := cmp_info s (info_of js a) (info_of js b).

Definition has_info (js : gmap Z info) (j : Z) : Prop := is_Some (js !! j).

Lemma three_neg a b : three a b < 0 <-> tlt a b = true.
Proof. unfold three. repeat case_match; split; intros; try done; lia. Qed.

Lemma three_pos a b : 0 < three a b <-> tlt b a = true.
Proof.
  unfold three. destruct (tlt a b) eqn:E; [rewrite (tlt_asym a b E); lia|].
  destruct (tlt b a); split; intros; try done; lia.
Qed.

Lemma three_le a b : three a b <= 0 <-> tlt b a = false.
Proof. pose proof (three_pos a b). destruct (tlt b a); split; intros; try done; intuition lia. Qed.

Lemma three_trans a b c : three a b <= 0 -> three b c <= 0 -> three a c <= 0.
Proof. rewrite !three_le. intros Hab Hbc. by apply (tge_trans c b a). Qed.

Lemma three_sym a b : three b a = - three a b.
Proof.
  unfold three. destruct (tlt a b) eqn:E; [by rewrite (tlt_asym a b E)|]. by destruct (tlt b a).
Qed.

(** Reading [cmp_info]: key first, arrival on ties. *)
Lemma cmp_info_le s i1 i2 :
  cmp_info s i1 i2 <= 0 <->
  three (key s i1) (key s i2) < 0
  \/ (three (key s i1) (key s i2) = 0 /\ three (arrival_time i1) (arrival_time i2) <= 0).
Proof. unfold cmp_info. destruct (three (key s i1) (key s i2) =? 0) eqn:E; bool_to_prop; lia. Qed.

Lemma cmp_info_sym s i1 i2 : cmp_info s i2 i1 = - cmp_info s i1 i2.
Proof.
  unfold cmp_info. rewrite (three_sym (key s i1)), (three_sym (arrival_time i1)).
  destruct (three (key s i1) (key s i2) =? 0) eqn:E; bool_to_prop.
  - by rewrite E.
  - by rewrite (proj2 (Z.eqb_neq _ _)) by lia.
Qed.

Lemma cmp_info_trans s i1 i2 i3 : cmp_info s i1 i2 <= 0 -> cmp_info s i2 i3 <= 0 -> cmp_info s i1 i3 <= 0.
Proof.
  rewrite !cmp_info_le. intros H1 H2.
  assert (K12 : three (key s i1) (key s i2) <= 0) by lia. assert (K23 : three (key s i2) (key s i3) <= 0) by lia.
  pose proof (three_trans _ _ _ K12 K23) as K13.
  destruct (Z.eq_dec (three (key s i1) (key s i3)) 0) as [E|E]; [|lia]. right. split; [done|].
  pose proof (three_sym (key s i1) (key s i3)) as Hsym.
  assert (K31 : three (key s i3) (key s i1) <= 0) by lia.
  pose proof (three_trans _ _ _ K31 K12). pose proof (three_sym (key s i2) (key s i3)).
  pose proof (three_trans _ _ _ K23 K31). pose proof (three_sym (key s i1) (key s i2)).
  destruct H1 as [|[_ A12]]; [lia|]. destruct H2 as [|[_ A23]]; [lia|]. by eapply three_trans.
Qed.

(** Every comparer of [libscheduler.c] implements its key order. *)
#[export] Instance scheme_comparer s js :
  Comparer (comparision_func js s) (scheme_cmp s js) (has_info js).
Proof.
  split.
  - intros a b [i1 H1] [i2 H2]. unfold scheme_cmp, info_of. rewrite H1, H2.
    assert (Hf : forall k : info -> T,
      (let! j1_info := deref (js !! a) in let! j2_info := deref (js !! b) in
       if tlt (k j1_info) (k j2_info) then Done (-1)
       else if tlt (k j2_info) (k j1_info) then Done 1 else break_tie js a b)
      = Done (let c := three (k i1) (k i2) in
              if c =? 0 then three (arrival_time i1) (arrival_time i2) else c)).
    { intros k. unfold break_tie, comparer_fcfs. rewrite H1, H2. cbn [deref obind]. unfold three.
      destruct (tlt (k i1) (k i2)); [done|]. destruct (tlt (k i2) (k i1)); [done|]. cbn.
      by repeat case_match. }
    destruct s; cbn [comparision_func]; try apply Hf.
    unfold comparer_fcfs, cmp_info. cbn [key]. rewrite H1, H2.
    change (default dummy_info (Some i1)) with i1. change (default dummy_info (Some i2)) with i2.
    cbn [deref obind]. unfold three.
    destruct (tlt (arrival_time i1) (arrival_time i2)); [done|].
    by destruct (tlt (arrival_time i2) (arrival_time i1)).
  - intros a b _ _. unfold scheme_cmp. rewrite (cmp_info_sym s (info_of js a)). lia.
  - intros a b c _ _ _. apply cmp_info_trans.
Qed.

(** The ready queue is sorted by the scheme's order. *)
Definition queue_sorted (s : scheduler T) : Prop :=
  StronglySorted (fun a b => scheme_cmp (pqueue_scheme s) (jobs s) a b <= 0) (entries (pqueue s)).

Record sinv (s : scheduler T) : Prop := {
  s_nodup : NoDup (entries (pqueue s));
  s_nonnull : 0 ∉ entries (pqueue s);
  s_info : Forall (has_info (jobs s)) (entries (pqueue s));
  s_size : size (pqueue s) = Z.of_nat (length (entries (pqueue s)));
  s_bound : Z.of_nat (length (entries (pqueue s))) <= 2147483646;
  s_sorted : queue_sorted s;
}.

(** Schemes whose keys never change after [scheduler_new_job]. *)
Definition static_key (s : scheme_t) : bool :=
  match s with FCFS | PRI | PPRI | SJF => true | PSRTF | RR => false end.

Lemma sorted_ext {A} (R R' : A -> A -> Prop) l :
  (forall x y, x ∈ l -> y ∈ l -> R x y -> R' x y) -> StronglySorted R l -> StronglySorted R' l.
Proof.
  induction l as [|x l IH]; intros HR Hs; [constructor|]. apply StronglySorted_inv in Hs as [Hs Hx].
  constructor; [apply IH; [|done]; intros; apply HR; [by right|by right|done]|].
  rewrite Forall_forall in *. intros y Hy. apply HR; [by left|by right|by apply Hx].
Qed.

(** Changing metadata without touching the keys keeps the invariant. *)
Lemma update_info_inv s j f :
  sinv s -> has_info (jobs s) j ->
  (forall i, key (pqueue_scheme s) (f i) = key (pqueue_scheme s) i /\ arrival_time (f i) = arrival_time i) ->
  exists i, jobs s !! j = Some i /\ update_info j f s = Done (set_jobs s (<[j := f i]> (jobs s)))
    /\ sinv (set_jobs s (<[j := f i]> (jobs s)))
    /\ forall a b, scheme_cmp (pqueue_scheme s) (<[j := f i]> (jobs s)) a b = scheme_cmp (pqueue_scheme s) (jobs s) a b.
Proof.
  intros Hi [i Hj] Hf. exists i. split; [done|]. unfold update_info. rewrite Hj. cbn [deref obind].
  assert (Hcmp : forall a b, scheme_cmp (pqueue_scheme s) (<[j := f i]> (jobs s)) a b = scheme_cmp (pqueue_scheme s) (jobs s) a b).
  { assert (Hkey : forall a, key (pqueue_scheme s) (info_of (<[j := f i]> (jobs s)) a) = key (pqueue_scheme s) (info_of (jobs s) a)
       /\ arrival_time (info_of (<[j := f i]> (jobs s)) a) = arrival_time (info_of (jobs s) a)).
    { intros a. unfold info_of. destruct (decide (a = j)) as [->|Hne].
      - rewrite lookup_insert_eq, Hj. apply Hf.
      - by rewrite lookup_insert_ne by done. }
    intros a b. unfold scheme_cmp, cmp_info. destruct (Hkey a) as [-> ->]. destruct (Hkey b) as [-> ->]. done. }
  split; [done|]. split; [|done]. destruct Hi as [Hnd Hnn Hin Hsz Hbd Hso]. split; try done.
  - eapply Forall_impl; [exact Hin|]. intros a Ha. unfold has_info. cbn. apply lookup_insert_is_Some'. by right.
  - unfold queue_sorted in *. cbn. eapply sorted_ext; [|exact Hso]. intros a b _ _. cbn. by rewrite Hcmp.
Qed.

Lemma offer_inv s j :
  sinv s -> has_info (jobs s) j -> j <> 0 -> j ∉ entries (pqueue s) ->
  Z.of_nat (length (entries (pqueue s))) < 2147483646 ->
  exists l1 l2, entries (pqueue s) = l1 ++ l2
    /\ offer s j = Done (set_pqueue s (Priqueue (size (pqueue s) + 1) (l1 ++ j :: l2)))
    /\ Forall (fun y => scheme_cmp (pqueue_scheme s) (jobs s) y j <= 0) l1
    /\ Forall (fun y => scheme_cmp (pqueue_scheme s) (jobs s) j y < 0) l2
    /\ sinv (set_pqueue s (Priqueue (size (pqueue s) + 1) (l1 ++ j :: l2))).
Proof.
  intros [Hnd Hnn Hin Hsz Hbd Hso] Hj Hj0 Hjn Hb.
  destruct (offer_spec (comparision_func (jobs s) (pqueue_scheme s)) (scheme_cmp (pqueue_scheme s) (jobs s))
    (has_info (jobs s)) (pqueue s) j Hj Hin Hso Hsz Hb) as (l1 & l2 & Heq & Hrun & H1 & H2 & Hs).
  exists l1, l2. split; [done|]. unfold offer. rewrite Hrun. cbn [obind]. split; [done|]. split; [done|]. split; [done|].
  assert (Hp : j :: entries (pqueue s) ≡ₚ l1 ++ j :: l2) by (rewrite Heq; solve_Permutation).
  split; cbn.
  - rewrite <- Hp. by constructor.
  - rewrite <- Hp. rewrite not_elem_of_cons. done.
  - rewrite <- Hp. by constructor.
  - rewrite <- Hp. cbn. lia.
  - rewrite <- Hp. cbn. lia.
  - done.
Qed.

Lemma scheme_cmp_refl sc js a : scheme_cmp sc js a a = 0.
Proof. pose proof (cmp_info_sym sc (info_of js a) (info_of js a)). unfold scheme_cmp. lia. Qed.

Lemma head_minimal s h rest y :
  sinv s -> entries (pqueue s) = h :: rest -> y ∈ entries (pqueue s) -> scheme_cmp (pqueue_scheme s) (jobs s) h y <= 0.
Proof.
  intros Hi Hq Hy. pose proof (s_sorted s Hi) as Hs. unfold queue_sorted in Hs. rewrite Hq in *.
  apply StronglySorted_inv in Hs as [_ Hh]. apply elem_of_cons in Hy as [->|Hy]; [by rewrite scheme_cmp_refl|].
  rewrite Forall_forall in Hh. by apply Hh.
Qed.

Lemma poll_inv s h rest :
  sinv s -> entries (pqueue s) = h :: rest ->
  sinv (set_pqueue s (Priqueue (size (pqueue s) - 1) rest)) /\ has_info (jobs s) h /\ h <> 0 /\ h ∉ rest.
Proof.
  intros [Hnd Hnn Hin Hsz Hbd Hso] Hq. unfold queue_sorted in Hso. rewrite Hq in *.
  apply NoDup_cons in Hnd as [Hh Hnd]. apply Forall_cons in Hin as [Hhi Hin]. apply not_elem_of_cons in Hnn as [H0 Hnn].
  apply StronglySorted_inv in Hso as [Hso _]. cbn [length] in *. split; [split; cbn; try done; lia|]. done.
Qed.

(** The metadata of a job that is not queued does not matter. *)
Lemma update_outside_inv s j i :
  sinv s -> j ∉ entries (pqueue s) -> sinv (set_jobs s (<[j := i]> (jobs s))).
Proof.
  intros [Hnd Hnn Hin Hsz Hbd Hso] Hjn. split; try done.
  - eapply Forall_impl; [exact Hin|]. intros a Ha. unfold has_info. cbn. apply lookup_insert_is_Some'. by right.
  - unfold queue_sorted in *. cbn. eapply sorted_ext; [|exact Hso]. intros a b Ha Hb' Hab. cbn in *.
    unfold scheme_cmp, info_of in *. rewrite !lookup_insert_ne by congruence. done.
Qed.

Lemma new_job_ok s j n t d :
  sinv s -> j <> 0 -> j ∉ entries (pqueue s) -> Z.of_nat (length (entries (pqueue s))) < 2147483646 ->
  exists s', scheduler_new_job s j n t d = Done s' /\ sinv s' /\ pqueue_scheme s' = pqueue_scheme s
    /\ entries (pqueue s') ≡ₚ j :: entries (pqueue s).
Proof.
  intros Hi Hj0 Hjn Hb. unfold scheduler_new_job. set (my_job := JobInfo _ _ _ _ _ _ _ _).
  set (s1 := set_jobs s _).
  assert (Hi1 : sinv s1) by (by apply update_outside_inv).
  destruct (offer_inv s1 j Hi1) as (l1 & l2 & Heq & -> & _ & _ & Hi2).
  { unfold has_info. cbn. apply lookup_insert_is_Some'. by left. }
  { done. } { done. } { done. }
  eexists. split; [done|]. split; [done|]. split; [done|]. cbn. change (pqueue s) with (pqueue s1). rewrite Heq. solve_Permutation.
Qed.

(** The rest of [scheduler_quantum_expired] once a job was running. *)
Lemma preempt_ok s e t h rest :
  sinv s -> entries (pqueue s) = h :: rest -> has_info (jobs s) e -> pqueue_scheme s <> PSRTF ->
  exists r s', (let (next_job, q) := priqueue_poll (pqueue s) in
      let s := set_pqueue s q in
      let! s := update_info next_job (fun i => set_start_after_preempt i t) s in
      let! s := offer s next_job in
      let! s := update_info e (fun i =>
        set_remaining_time i (tsub (remaining_time i) (tsub t (start_after_preempt i)))) s in
      Done (priqueue_peek (pqueue s), s)) = Done (r, s')
    /\ sinv s' /\ pqueue_scheme s' = pqueue_scheme s /\ entries (pqueue s') ≡ₚ entries (pqueue s)
    /\ head (entries (pqueue s')) = Some r
    /\ forall a b, scheme_cmp (pqueue_scheme s) (jobs s') a b = scheme_cmp (pqueue_scheme s) (jobs s) a b.
Proof.
  intros Hi Hq He Hsc. unfold priqueue_poll. rewrite Hq. cbv zeta.
  destruct (poll_inv s h rest Hi Hq) as (Hi1 & Hh & Hh0 & Hhr). set (s1 := set_pqueue s _) in *.
  destruct (update_info_inv s1 h (fun i => set_start_after_preempt i t) Hi1 Hh) as (i1 & Hj1 & -> & Hi2 & Hc2);
    [by intros i; destruct (pqueue_scheme s1)|].
  set (s2 := set_jobs s1 _) in *. cbn [obind].
  pose proof (s_bound s Hi) as Hbd. rewrite Hq in Hbd. cbn [length] in Hbd.
  destruct (offer_inv s2 h Hi2) as (l1 & l2 & Heq & -> & _ & _ & Hi3); [|done|done|cbn in *; lia|].
  { unfold has_info. cbn. apply lookup_insert_is_Some'. by left. }
  cbn [obind]. set (s3 := set_pqueue s2 _) in *.
  assert (He3 : has_info (jobs s3) e) by (unfold has_info; cbn; apply lookup_insert_is_Some'; by right).
  destruct (update_info_inv s3 e (fun i => set_remaining_time i (tsub (remaining_time i) (tsub t (start_after_preempt i)))) Hi3 He3)
    as (i3 & Hj3 & -> & Hi4 & Hc4); [by intros i; cbn; destruct (pqueue_scheme s)|].
  cbn [obind]. set (s4 := set_jobs s3 _) in *. cbn in Heq.
  assert (Hhd : exists r, head (l1 ++ h :: l2) = Some r) by (destruct l1; by eexists).
  destruct Hhd as [r Hr]. eexists _, s4. split; [done|]. split; [done|]. split; [done|]. split; [|split].
  - cbn. rewrite Heq. solve_Permutation.
  - cbn. unfold priqueue_peek. cbn. by destruct l1.
  - intros a b. exact (eq_trans (Hc4 a b) (Hc2 a b)).
Qed.

(** [scheduler_quantum_expired] on a sorted queue with static keys. *)
Lemma quantum_ok s e t :
  sinv s -> static_key (pqueue_scheme s) = true -> (e = 0 \/ e ∈ entries (pqueue s)) ->
  exists r s', scheduler_quantum_expired s e t = Done (r, s') /\ sinv s' /\ pqueue_scheme s' = pqueue_scheme s
    /\ entries (pqueue s') ≡ₚ entries (pqueue s)
    /\ (if (e =? 0) || is_preemptive (pqueue_scheme s)
        then (entries (pqueue s) = [] /\ r = 0)
             \/ (head (entries (pqueue s')) = Some r /\ r ∈ entries (pqueue s)
                 /\ forall j, j ∈ entries (pqueue s) -> scheme_cmp (pqueue_scheme s) (jobs s) r j <= 0)
        else r = e).
Proof.
  intros Hi Hst He. unfold scheduler_quantum_expired, priqueue_peek.
  destruct (entries (pqueue s)) as [|h rest] eqn:Hq.
  { destruct He as [->|He]; [|by apply elem_of_nil in He].
    exists 0, s. rewrite Hq. split; [done|]. split; [done|]. split; [done|]. split; [done|]. by left. }
  destruct (poll_inv s h rest Hi Hq) as (_ & Hh & Hh0 & _).
  rewrite (proj2 (Z.eqb_neq h 0)) by done. cbn [andb].
  assert (Hfirst : exists s1, (let! j_info := deref (jobs s !! h) in
      if teq (start_time j_info) (tofZ (-1)) then update_info h (fun i => set_start_time i t) s else Done s) = Done s1
    /\ sinv s1 /\ pqueue s1 = pqueue s /\ pqueue_scheme s1 = pqueue_scheme s
    /\ (forall j, has_info (jobs s) j -> has_info (jobs s1) j)
    /\ forall a b, scheme_cmp (pqueue_scheme s) (jobs s1) a b = scheme_cmp (pqueue_scheme s) (jobs s) a b).
  { destruct Hh as [ih Hih]. rewrite Hih. cbn [deref obind]. destruct (teq _ _); [|by exists s].
    destruct (update_info_inv s h (fun i => set_start_time i t) Hi) as (i1 & Hj1 & -> & Hi1 & Hc1);
      [by exists ih|by intros i; destruct (pqueue_scheme s)|].
    eexists. split; [done|]. split; [done|]. split; [done|]. split; [done|]. split; [|done].
    intros j Hj. unfold has_info. cbn. apply lookup_insert_is_Some'. by right. }
  destruct Hfirst as (s1 & -> & Hi1 & Hq1 & Hs1 & Hinf & Hc1). cbn [obind].
  assert (Hq1' : entries (pqueue s1) = h :: rest) by (by rewrite Hq1).
  destruct (e =? 0) eqn:E; bool_to_prop.
  - rewrite Hq1'.
    destruct (update_info_inv s1 h (fun i => set_start_after_preempt i t) Hi1 (Hinf h Hh)) as (i2 & Hj2 & -> & Hi2 & Hc2);
      [by intros i; destruct (pqueue_scheme s1)|].
    cbn [obind]. eexists _, _. split; [done|]. split; [done|]. split; [done|]. cbn. rewrite Hq1'. split; [done|].
    right. split; [done|]. split; [by left|]. intros j Hj. apply (head_minimal s h rest j Hi Hq). by rewrite Hq.
  - destruct He as [->|He]; [done|].
    assert (Hei : has_info (jobs s) e) by (pose proof (s_info s Hi) as Hf; rewrite Forall_forall in Hf; apply Hf; by rewrite Hq).
    destruct (update_info_inv s1 e (fun i => set_next_time i t) Hi1 (Hinf e Hei)) as (i2 & Hj2 & -> & Hi2 & Hc2).
    { intros i. rewrite Hs1. destruct (pqueue_scheme s); done. }
    cbn [obind]. set (s2 := set_jobs s1 _) in *. cbn [orb].
    change (pqueue_scheme s2) with (pqueue_scheme s1). rewrite Hs1.
    destruct (is_preemptive (pqueue_scheme s)) eqn:Hpre.
    + destruct (preempt_ok s2 e t h rest Hi2 Hq1') as (r & s' & Hrun & Hi' & Hsc' & Hperm & Hhd & Hc').
      { unfold has_info. cbn. apply lookup_insert_is_Some'. by left. }
      { cbn. rewrite Hs1. by destruct (pqueue_scheme s). }
      exists r, s'. split; [done|]. split; [done|]. split; [cbn in *; congruence|].
      assert (Hp' : entries (pqueue s') ≡ₚ h :: rest) by (rewrite Hperm; cbn; by rewrite Hq1').
      split; [done|]. right.
      assert (Hr : r ∈ entries (pqueue s')) by (destruct (entries (pqueue s')); [done|]; injection Hhd as ->; by left).
      split; [done|]. split; [by rewrite <- Hp'|]. intros j Hj.
      destruct (entries (pqueue s')) as [|r' rest'] eqn:Hq'; [done|]. cbn in Hhd. injection Hhd as ->.
      assert (Hm : scheme_cmp (pqueue_scheme s') (jobs s') r j <= 0).
      { apply (head_minimal s' r rest' j Hi' Hq'). by rewrite Hq', Hp'. }
      assert (Hss : pqueue_scheme s' = pqueue_scheme s) by (cbn in *; congruence).
      rewrite Hss in Hm. cbn in Hc', Hc2. rewrite Hs1 in Hc', Hc2. rewrite Hc', Hc2, Hc1 in Hm. done.
    + eexists _, _. split; [done|]. split; [done|]. split; [done|]. cbn. rewrite Hq1'. done.
Qed.

Lemma finish_ok s h rest t :
  sinv s -> entries (pqueue s) = h :: rest ->
  exists s', scheduler_job_finished s h t = Done s' /\ sinv s' /\ pqueue_scheme s' = pqueue_scheme s
    /\ entries (pqueue s') = rest.
Proof.
  intros Hi Hq. destruct (poll_inv s h rest Hi Hq) as ([Hnd Hnn Hin Hsz Hbd Hso] & [i Hh] & Hh0 & Hhr).
  unfold scheduler_job_finished, priqueue_poll. rewrite Hh, Hq. cbn [deref obind].
  eexists. split; [done|]. split; [|done]. split; try done.
  - cbn in *. rewrite Forall_forall in *. intros j Hj. unfold has_info. rewrite lookup_delete_ne; [by apply Hin|].
    by intros ->.
  - unfold queue_sorted in *. cbn in *. eapply sorted_ext; [|exact Hso]. intros a b Ha Hb Hab. cbn in *.
    unfold scheme_cmp, info_of in *. rewrite !lookup_delete_ne; [done|by intros ->|by intros ->].
Qed.

(** ** Schedules *)

(** A scheduler and the job that runs (0 for none). *)
Abbreviation processor := (scheduler T * Z)%type.

(** What the thread library does with the scheduler: a new job, a quantum of the
    running job (or of none) that expires, the end of the running job, wherever it
    is in the queue. *)
Inductive sched_event :=
| New_job (j n : Z) (t : T) (d : scheduler_info T)
| Quantum (t : T)
| Finish (t : T).

Definition sched_step (e : sched_event) (c : processor) : outcome processor :=
  let (s, running) := c in
  match e with
  | New_job j n t d => let! s := scheduler_new_job s j n t d in Done (s, running)
  | Quantum t => let! (r, s) := scheduler_quantum_expired s running t in Done (s, r)
  | Finish t => let! s := scheduler_job_finished s running t in Done (s, 0)
  end.

(** A new job is not in the queue yet, and under FCFS did not arrive before the
    others.  Under the other schemes the job that ends is at the head of the queue:
    [scheduler_job_finished] polls it there ([finish_behind_head] shows what happens
    otherwise). *)
Definition orderly (e : sched_event) (c : processor) : Prop :=
  let (s, running) := c in
  match e with
  | New_job j _ t _ =>
      j <> 0 /\ (j ∉ entries (pqueue s)) /\ Z.of_nat (length (entries (pqueue s))) < 2147483646 /\
      (pqueue_scheme s = FCFS -> Forall (fun i => tlt t (arrival_time (info_of (jobs s) i)) = false) (entries (pqueue s)))
  | Quantum _ => True
  | Finish _ => running <> 0 /\ (pqueue_scheme s = FCFS \/ head (entries (pqueue s)) = Some running)
  end.

Inductive sched_run js sc : processor -> Prop :=
| run_start : sched_run js sc (scheduler_start_up js sc, 0)
| run_step e c c' : sched_run js sc c -> orderly e c -> sched_step e c = Done c' -> sched_run js sc c'.

Lemma start_inv js sc : sinv (scheduler_start_up js sc).
Proof. split; cbn; try done; try constructor. intros Hx. by apply elem_of_nil in Hx. Qed.

(** Without preemption the queue is only read when a quantum expires. *)
Lemma update_info_queue i f (s s' : scheduler T) : update_info i f s = Done s' -> pqueue s' = pqueue s.
Proof. unfold update_info. intros (i0 & _ & Hx)%obind_Done. by simplify_eq. Qed.

Lemma quantum_keeps_queue (s : scheduler T) e t r s' :
  is_preemptive (pqueue_scheme s) = false -> scheduler_quantum_expired s e t = Done (r, s') -> pqueue s' = pqueue s.
Proof.
  intros Hpre. unfold scheduler_quantum_expired. destruct ((priqueue_peek (pqueue s) =? 0) && (e =? 0)); [by intros; simplify_eq|].
  intros (s1 & H1 & Hx)%obind_Done.
  assert (Hs1 : pqueue s1 = pqueue s /\ pqueue_scheme s1 = pqueue_scheme s).
  { destruct (priqueue_peek (pqueue s) =? 0); [by simplify_eq|]. apply obind_Done in H1 as (i & _ & H1).
    destruct (teq _ _); [|by simplify_eq]. unfold update_info in H1. apply obind_Done in H1 as (i0 & _ & H1). by simplify_eq. }
  destruct Hs1 as [<- Hsc]. destruct (e =? 0).
  - apply obind_Done in Hx as (s2 & H2%update_info_queue & Hx). by simplify_eq.
  - apply obind_Done in Hx as (s2 & H2 & Hx). unfold update_info in H2. apply obind_Done in H2 as (i0 & _ & H2). simplify_eq.
    cbn [pqueue_scheme set_jobs] in Hx. rewrite Hsc, Hpre in Hx. by simplify_eq.
Qed.

(** Under FCFS the newest arrival goes to the back. *)
Lemma new_job_back s j n t d s' :
  sinv s -> j <> 0 -> j ∉ entries (pqueue s) -> Z.of_nat (length (entries (pqueue s))) < 2147483646 ->
  pqueue_scheme s = FCFS -> Forall (fun i => tlt t (arrival_time (info_of (jobs s) i)) = false) (entries (pqueue s)) ->
  scheduler_new_job s j n t d = Done s' -> entries (pqueue s') = entries (pqueue s) ++ [j].
Proof.
  intros Hi Hj0 Hjn Hb Hsc Hlate. unfold scheduler_new_job. set (my_job := JobInfo _ _ _ _ _ _ _ _).
  set (s1 := set_jobs s _).
  assert (Hi1 : sinv s1) by (by apply update_outside_inv).
  destruct (offer_inv s1 j Hi1) as (l1 & l2 & Heq & -> & _ & Hgt & _); [|done..|].
  { unfold has_info. cbn. apply lookup_insert_is_Some'. by left. }
  intros [= <-]. cbn in Heq. cbn. destruct l2 as [|y l2]; [by rewrite app_nil_r in Heq; subst l1|]. exfalso.
  apply Forall_cons in Hgt as [Hy _]. assert (Hin : y ∈ entries (pqueue s)) by (rewrite Heq; set_solver).
  rewrite Forall_forall in Hlate. specialize (Hlate y Hin). assert (y <> j) by (by intros ->).
  unfold scheme_cmp, info_of in Hy. cbn in Hy. rewrite Hsc, lookup_insert_eq, lookup_insert_ne in Hy by done.
  unfold cmp_info, three in Hy. cbn in Hy. unfold info_of in Hlate. rewrite Hlate in Hy. repeat case_match; lia.
Qed.

(** The running job is in the queue, at its head under FCFS. *)
Record proc_ok sc (c : processor) : Prop := ProcOk {
  po_inv : sinv c.1;
  po_scheme : pqueue_scheme c.1 = sc;
  po_running : c.2 = 0 \/ c.2 ∈ entries (pqueue c.1);
  po_fcfs : sc = FCFS -> c.2 = 0 \/ head (entries (pqueue c.1)) = Some c.2;
}.

Lemma sched_step_ok sc e c :
  static_key sc = true -> proc_ok sc c -> orderly e c -> exists c', sched_step e c = Done c' /\ proc_ok sc c'.
Proof.
  intros Hst [Hi Hsc Hrun Hf] Ho. destruct c as [s run]. cbn in Hi, Hsc, Hrun, Hf. destruct e as [j n t d|t|t]; cbn [sched_step].
  - destruct Ho as (Hj0 & Hjn & Hb & Hlate).
    destruct (new_job_ok s j n t d Hi Hj0 Hjn Hb) as (s' & Hnew & Hi' & Hsc' & Hp). rewrite Hnew. eexists. split; [done|].
    split; cbn; [done|congruence| |].
    + destruct Hrun as [|Hrun]; [by left|right]. rewrite Hp. by right.
    + intros ->. rewrite (new_job_back s j n t d s') by auto. destruct (Hf eq_refl) as [|Hh]; [by left|right].
      by destruct (entries (pqueue s)).
  - rewrite <- Hsc in Hst. destruct (quantum_ok s run t Hi Hst Hrun) as (r & s' & Hq & Hi' & Hsc' & Hp & Hcase). rewrite Hq.
    eexists. split; [done|]. split; cbn; [done|congruence| |].
    + rewrite Hp. destruct ((run =? 0) || is_preemptive (pqueue_scheme s)); [naive_solver|by subst].
    + intros ->. rewrite (quantum_keeps_queue s run t r s') by (by rewrite ?Hsc).
      rewrite Hsc in Hcase. cbn in Hcase. rewrite orb_false_r in Hcase. destruct (run =? 0).
      * destruct Hcase as [[_ ->]|(Hh & _)]; [by left|right]. by rewrite (quantum_keeps_queue s run t r s') in Hh by (by rewrite ?Hsc).
      * subst r. by apply Hf.
  - destruct Ho as [Hr0 Ho]. assert (Hh : head (entries (pqueue s)) = Some run).
    { destruct Ho as [Ho|]; [|done]. rewrite Hsc in Ho. by destruct (Hf Ho). }
    destruct (entries (pqueue s)) as [|h rest] eqn:Hq; [done|]. injection Hh as ->.
    destruct (finish_ok s run rest t Hi Hq) as (s' & Hfin & Hi' & Hsc' & _). rewrite Hfin. eexists. split; [done|].
    split; cbn; [done|congruence|by left|by left].
Qed.

Lemma sched_run_ok js sc c : static_key sc = true -> sched_run js sc c -> proc_ok sc c.
Proof.
  intros Hst. induction 1 as [|e c c' _ IH Ho Hs].
  - split; cbn; [apply start_inv|done|by left|by left].
  - destruct (sched_step_ok sc e c Hst IH Ho) as (c1 & Hs1 & Hok). rewrite Hs in Hs1. by injection Hs1 as <-.
Qed.

(** C19. Run the scheduler under FCFS, PRI, PPRI or SJF so that under FCFS the jobs
    arrive in order and under the others each job is at the head of the queue when it
    ends.  Then no call is undefined, and an expired quantum picks correctly: a running
    job keeps the processor under the non-preemptive schemes; otherwise the job
    returned is a least one of the whole queue for the scheme's key, ties broken by
    arrival. *)
Theorem schedule_picks_least js sc s running :
  static_key sc = true -> sched_run js sc (s, running) ->
  (forall e, orderly e (s, running) -> exists c, sched_step e (s, running) = Done c)
  /\ forall t, exists r s', scheduler_quantum_expired s running t = Done (r, s')
    /\ entries (pqueue s') ≡ₚ entries (pqueue s)
    /\ (if (running =? 0) || is_preemptive sc
        then (entries (pqueue s) = [] /\ r = 0)
             \/ (r ∈ entries (pqueue s) /\ forall j, j ∈ entries (pqueue s) -> scheme_cmp sc (jobs s) r j <= 0)
        else r = running).
Proof.
  intros Hst Hr%(sched_run_ok _ _ _ Hst). split.
  - intros e Ho. destruct (sched_step_ok sc e (s, running) Hst Hr Ho) as (c & Hc & _). by exists c.
  - intros t. destruct Hr as [Hi Hsc Hrun _]. cbn in *. rewrite <- Hsc in Hst.
    destruct (quantum_ok s running t Hi Hst Hrun) as (r & s' & Hq & _ & _ & Hp & Hcase).
    exists r, s'. split; [done|]. split; [done|]. rewrite <- Hsc.
    destruct ((running =? 0) || is_preemptive (pqueue_scheme s)); naive_solver.
Qed.

(** Under round robin, when the job at the head used up its quantum and every
    other job was queued before now, the queue rotates: the head goes to the
    back and the next job in line runs. *)
Theorem round_robin_rotates s j rest t :
  sinv s -> pqueue_scheme s = RR -> entries (pqueue s) = j :: rest ->
  Forall (fun y => tlt (next_time (info_of (jobs s) y)) t = true) rest ->
  exists r s', scheduler_quantum_expired s j t = Done (r, s')
    /\ entries (pqueue s') = rest ++ [j] /\ head (rest ++ [j]) = Some r.
Proof.
  intros Hi Hsc Hq Hlt. destruct (poll_inv s j rest Hi Hq) as (Hi1 & [ij Hj] & Hj0 & Hjr).
  assert (Hpk : priqueue_peek (pqueue s) = j) by (unfold priqueue_peek; by rewrite Hq).
  unfold scheduler_quantum_expired. rewrite Hpk.
  rewrite !(proj2 (Z.eqb_neq j 0)) by done. cbn [andb]. rewrite Hj. cbn [deref obind].
  set (m0 := if teq (start_time ij) (tofZ (-1)) then _ else _).
  assert (Hm0 : exists i0, m0 = Done (set_jobs s (<[j := i0]> (jobs s)))).
  { unfold m0, update_info. rewrite Hj. cbn [deref obind]. destruct (teq _ _); [by eexists|].
    exists ij. rewrite insert_id by done. by destruct s. }
  destruct Hm0 as [i0 ->]. cbn [obind]. unfold update_info at 1. cbn [jobs set_jobs].
  rewrite lookup_insert_eq. cbn [deref obind]. rewrite insert_insert_eq.
  cbn [pqueue_scheme set_jobs]. rewrite Hsc. cbn [is_preemptive]. unfold priqueue_poll. cbn [pqueue set_jobs]. rewrite Hq.
  unfold update_info at 1. cbn [jobs set_jobs set_pqueue]. rewrite lookup_insert_eq. cbn [deref obind]. rewrite insert_insert_eq.
  set (i1 := set_start_after_preempt _ t). set (s1 := set_pqueue s (Priqueue (size (pqueue s) - 1) rest)) in *.
  pose proof (update_outside_inv s1 j i1 Hi1 Hjr) as Hi2. set (s2 := set_jobs s1 (<[j := i1]> (jobs s1))) in *.
  match goal with |- context [offer ?x j] => change x with s2 end.
  pose proof (s_bound s Hi) as Hbd. rewrite Hq in Hbd. cbn [length] in Hbd.
  destruct (offer_inv s2 j Hi2) as (l1 & l2 & Heq & -> & _ & Hgt & Hi3); [|done|done|cbn; lia|].
  { unfold has_info. cbn. apply lookup_insert_is_Some'. by left. }
  cbn [obind]. assert (Hl2 : l2 = []).
  { destruct l2 as [|y l2]; [done|]. exfalso. apply Forall_cons in Hgt as [Hy _].
    cbn in Heq. assert (Hyr : y ∈ rest) by (rewrite Heq; set_solver).
    assert (Hyj : y <> j) by (by intros ->). rewrite Forall_forall in Hlt. specialize (Hlt y Hyr).
    unfold scheme_cmp, info_of in Hy. cbn in Hy. rewrite Hsc, lookup_insert_eq, lookup_insert_ne in Hy by done.
    unfold cmp_info, three in Hy. cbn in Hy. unfold info_of in Hlt.
    rewrite (tlt_asym _ _ Hlt), Hlt in Hy. cbn in Hy. lia. }
  subst l2. rewrite app_nil_r in Heq. cbn in Heq. subst l1. unfold update_info. cbn [jobs set_pqueue s2 set_jobs].
  rewrite lookup_insert_eq. cbn [deref obind]. eexists _, _. split; [done|]. cbn. split; [done|]. by destruct rest.
Qed.

Lemma offer_jobs s j s' : offer s j = Done s' -> jobs s' = jobs s.
Proof. unfold offer. intros Hx. apply obind_Done in Hx as ([r q] & _ & Hx). by injection Hx as <-. Qed.

(** (code bug) Under PSRTF the job at the head does not get its remaining time
    reduced when its quantum expires: [start_after_preempt] was just overwritten
    with the current time, so what is subtracted is [time - time], however long
    the job ran. *)
Theorem psrtf_head_keeps_remaining s j rest t i r s' :
  pqueue_scheme s = PSRTF -> entries (pqueue s) = j :: rest -> j <> 0 -> jobs s !! j = Some i ->
  scheduler_quantum_expired s j t = Done (r, s') ->
  exists i', jobs s' !! j = Some i' /\ remaining_time i' = tsub (remaining_time i) (tsub t t).
Proof.
  intros Hsc Hq Hj0 Hj Hrun. assert (Hpk : priqueue_peek (pqueue s) = j) by (unfold priqueue_peek; by rewrite Hq).
  unfold scheduler_quantum_expired in Hrun. rewrite Hpk in Hrun.
  rewrite !(proj2 (Z.eqb_neq j 0)) in Hrun by done. cbn [andb] in Hrun. rewrite Hj in Hrun. cbn [deref obind] in Hrun.
  apply obind_Done in Hrun as (s0 & H0 & Hrun).
  assert (Hs0 : exists i0, s0 = set_jobs s (<[j := i0]> (jobs s)) /\ remaining_time i0 = remaining_time i).
  { unfold update_info in H0. rewrite Hj in H0. cbn [deref obind] in H0. destruct (teq _ _); injection H0 as <-; [by eexists|].
    exists i. rewrite insert_id by done. by destruct s. }
  destruct Hs0 as (i0 & -> & Hr0). unfold update_info at 1 in Hrun. cbn [jobs set_jobs] in Hrun.
  rewrite lookup_insert_eq in Hrun. cbn [deref obind] in Hrun. rewrite insert_insert_eq in Hrun.
  cbn [pqueue_scheme set_jobs] in Hrun. rewrite Hsc in Hrun. cbn [is_preemptive] in Hrun.
  unfold priqueue_poll in Hrun. cbn [pqueue set_jobs] in Hrun. rewrite Hq in Hrun.
  unfold update_info at 1 in Hrun. cbn [jobs set_jobs set_pqueue] in Hrun. rewrite lookup_insert_eq in Hrun.
  cbn [deref obind] in Hrun. rewrite insert_insert_eq in Hrun.
  apply obind_Done in Hrun as (s1 & Hoff & Hrun). apply offer_jobs in Hoff. cbn in Hoff.
  apply obind_Done in Hrun as (s2 & Hup & Hrun). injection Hrun as _ <-.
  unfold update_info in Hup. rewrite Hoff, lookup_insert_eq in Hup. cbn [deref obind] in Hup. injection Hup as <-.
  cbn. rewrite lookup_insert_eq. eexists. split; [done|]. cbn. by rewrite Hr0.
Qed.

End Schemes.

(** ** Concrete runs *)

Definition qinfo (arr pri : Z) : job_info Q :=
  JobInfo 1 (inject_Z pri) (inject_Z 5) (inject_Z (-1)) (inject_Z arr) (inject_Z 5) (inject_Z (-1)) (inject_Z arr).

Definition sample_jobs : gmap Z (job_info Q) := {[ 11 := qinfo 0 2; 12 := qinfo 1 1; 13 := qinfo 2 2 ]}.

Lemma priqueue_sorts_witness :
  exists q, offer_all (comparision_func sample_jobs PRI) priqueue_init [13; 12; 11] = Done q
    /\ poll_all 3 q ≡ₚ [13; 12; 11].
Proof.
  destruct (priqueue_sorts (comparision_func sample_jobs PRI) (scheme_cmp PRI sample_jobs) (has_info sample_jobs) [13; 12; 11])
    as (q & H1 & _ & H2 & _).
  - repeat constructor; eexists; reflexivity.
  - intros Hin. repeat (apply elem_of_cons in Hin as [Hin|Hin]; [discriminate|]). by apply elem_of_nil in Hin.
  - cbn; lia.
  - exists q. split; assumption.
Defined.

Definition sample_data : scheduler_info Q := SchedulerInfo (inject_Z 5) (inject_Z 1).

Fixpoint play (es : list (sched_event (T := Q))) (c : scheduler Q * Z) : outcome (scheduler Q * Z) :=
  match es with
  | [] => Done c
  | e :: es => let! c := sched_step e c in play es c
  end.

Definition orderly_b (e : sched_event (T := Q)) (c : scheduler Q * Z) : bool :=
  let (s, running) := c in
  match e with
  | New_job j _ t _ =>
      negb (j =? 0) && bool_decide (j ∉ entries (pqueue s)) && (Z.of_nat (length (entries (pqueue s))) <? 2147483646)
      && forallb (fun i => negb (tlt t (arrival_time (info_of (jobs s) i)))) (entries (pqueue s))
  | Quantum _ => true
  | Finish _ => negb (running =? 0) && bool_decide (head (entries (pqueue s)) = Some running)
  end.

Lemma orderly_b_ok e c : orderly_b e c = true -> orderly e c.
Proof.
  destruct c as [s running], e as [j n t d|t|t]; cbn [orderly_b orderly]; [|done|].
  - rewrite !andb_true_iff, negb_true_iff, Z.eqb_neq, bool_decide_eq_true, Z.ltb_lt, forallb_forall.
    intros [[[? ?] ?] Hlate]. split; [done|]. split; [done|]. split; [done|]. intros _. apply Forall_forall.
    intros i Hi. apply negb_true_iff, Hlate. by apply list_elem_of_In.
  - rewrite andb_true_iff, negb_true_iff, Z.eqb_neq, bool_decide_eq_true. intros [? ?]. split; [done|by right].
Qed.

Fixpoint orderly_play (es : list (sched_event (T := Q))) (c : scheduler Q * Z) : bool :=
  match es with
  | [] => true
  | e :: es => orderly_b e c && match sched_step e c with Done c => orderly_play es c | _ => false end
  end.

Lemma play_run js sc es c c' : sched_run js sc c -> orderly_play es c = true -> play es c = Done c' -> sched_run js sc c'.
Proof.
  revert c. induction es as [|e es IH]; intros c Hr; cbn [orderly_play play]; [by intros _ [= <-]|].
  intros [Ho Hes]%andb_true_iff Hp. apply obind_Done in Hp as (c1 & Hs & Hp). rewrite Hs in Hes.
  apply (IH c1); [|done|done]. by eapply run_step; [done|apply orderly_b_ok|].
Qed.

(** A job runs, a longer one arrives and waits, the first is done. *)
Definition one_left_events : list (sched_event (T := Q)) :=
  [New_job 11 1 (inject_Z 0) sample_data; Quantum (inject_Z 1); New_job 12 2 (inject_Z 2) (SchedulerInfo (inject_Z 7) (inject_Z 1));
   Quantum (inject_Z 3); Finish (inject_Z 5)].

Definition one_left : scheduler Q * Z :=
  match play one_left_events (scheduler_start_up ∅ SJF, 0) with Done c => c | _ => (scheduler_start_up ∅ SJF, 0) end.

Lemma one_left_run : sched_run ∅ SJF (one_left.1, 0).
Proof. apply (play_run ∅ SJF one_left_events (scheduler_start_up ∅ SJF, 0)); [apply run_start|vm_compute; reflexivity..]. Qed.

Lemma schedule_picks_least_witness :
  exists r s', scheduler_quantum_expired one_left.1 0 (inject_Z 6) = Done (r, s') /\ r ∈ entries (pqueue one_left.1).
Proof.
  destruct (schedule_picks_least ∅ SJF one_left.1 0 eq_refl one_left_run) as [_ H].
  destruct (H (inject_Z 6)) as (r & s' & H1 & _ & H2).
  exists r, s'. split; [exact H1|]. destruct H2 as [[H2 _]|[H2 _]]; [discriminate H2|exact H2].
Defined.

(** (code bug) Under PRI a more urgent job arrives while another one runs, and gets in
    front of it.  When the running job ends, [scheduler_job_finished] frees its record
    but polls the job at the head: the new job is lost, the finished one stays in the
    queue, and the next quantum reads its freed record. *)
Example finish_behind_head :
  let run := play [New_job 11 1 (inject_Z 0) (SchedulerInfo (inject_Z 5) (inject_Z 2)); Quantum (inject_Z 1);
                   New_job 12 2 (inject_Z 2) (SchedulerInfo (inject_Z 5) (inject_Z 1)); Finish (inject_Z 3)] (scheduler_start_up ∅ PRI, 0) in
  (exists s, run = Done (s, 0) /\ entries (pqueue s) = [11] /\ dom (jobs s) = {[ 12 ]})
  /\ (let! c := run in sched_step (Quantum (inject_Z 4)) c) = Undef.
Proof. split; [eexists; split; [vm_compute; reflexivity|split; reflexivity]|vm_compute; reflexivity]. Qed.

(** Three jobs under round robin, each having run once. *)
Definition rr_info (arr nxt : Z) : job_info Q :=
  JobInfo 1 (inject_Z 1) (inject_Z 9) (inject_Z 0) (inject_Z arr) (inject_Z 9) (inject_Z nxt) (inject_Z nxt).

Definition rr_state : scheduler Q :=
  Sched {[ 11 := rr_info 0 4; 12 := rr_info 1 5; 13 := rr_info 2 6 ]} (Priqueue 3 [11; 12; 13]) RR 0
    (inject_Z 0) (inject_Z 0) (inject_Z 0).

Lemma rr_state_inv : sinv rr_state.
Proof.
  split.
  - apply (bool_decide_unpack _). vm_compute. exact I.
  - apply (bool_decide_unpack _). vm_compute. exact I.
  - repeat constructor; eexists; reflexivity.
  - reflexivity.
  - cbn. lia.
  - unfold queue_sorted. repeat constructor; vm_compute; discriminate.
Qed.

Lemma round_robin_rotates_witness :
  exists r s', scheduler_quantum_expired rr_state 11 (inject_Z 7) = Done (r, s')
    /\ entries (pqueue s') = [12; 13] ++ [11] /\ head ([12; 13] ++ [11]) = Some r.
Proof.
  apply (round_robin_rotates rr_state 11 [12; 13] (inject_Z 7)); [exact rr_state_inv|reflexivity|reflexivity|].
  repeat constructor.
Defined.

Definition psrtf_state : scheduler Q :=
  Sched (jobs rr_state) (pqueue rr_state) PSRTF 0 (inject_Z 0) (inject_Z 0) (inject_Z 0).

Lemma psrtf_head_keeps_remaining_witness :
  exists r s' i', scheduler_quantum_expired psrtf_state 11 (inject_Z 7) = Done (r, s')
    /\ jobs s' !! 11 = Some i' /\ remaining_time i' = tsub (inject_Z 9) (tsub (inject_Z 7) (inject_Z 7)).
Proof.
  eexists _, _.
  match goal with |- exists i', ?run = Done (?r, ?s) /\ _ =>
    let v := eval vm_compute in run in
    match v with Done (?r', ?s') =>
      assert (Hrun : run = Done (r', s')) by (vm_compute; reflexivity) end end.
  destruct (psrtf_head_keeps_remaining psrtf_state 11 [12; 13] (inject_Z 7) (rr_info 0 4) _ _ eq_refl eq_refl ltac:(lia) eq_refl Hrun)
    as (i' & H1 & H2).
  exists i'. split; [exact Hrun|]. split; [exact H1|exact H2].
Defined.

(** A new job arrives while the first job runs, and the next two quanta expire. *)
Definition rr_arrival : outcome (Z * Z) :=
  let! s := scheduler_new_job rr_state 14 4 (inject_Z 7) sample_data in
  let! (first, s) := scheduler_quantum_expired s 11 (inject_Z 8) in
  let! (second, s) := scheduler_quantum_expired s first (inject_Z 9) in
  Done (first, second).

(** (code bug) Round robin is not fair when a job arrives during a quantum: the
    running job is no longer at the head, its new queue time is written in place,
    the queue is not sorted any more, and after the newcomer it runs again ahead
    of the two jobs that were waiting. *)
Theorem round_robin_arrival_unfair :
  sinv rr_state /\ head (entries (pqueue rr_state)) = Some 11 /\ rr_arrival = Done (14, 11).
Proof. split; [exact rr_state_inv|]. split; [done|]. vm_compute. reflexivity. Qed.
