(* ===== verification/Sync.v ===== *)
(** * Blocking queue and semamore of [critical_concurrency/]

    Both follow the monitor pattern: lock, [while (blocked) pthread_cond_wait],
    change the state, broadcast, unlock.  [Monitor] is that pattern; an instance
    gives the waiting condition and the code after the loop of each operation,
    and [monitor_step] the interleavings of threads running them, with spurious
    wake-ups.  [queue.c] keeps its linked list of nodes in a node heap;
    [node_alloc] is [malloc]'s answer for a node. *)

From stdpp Require Import gmap.
From S2P Require Import Prelude.
Open Scope Z_scope.

(** ** Monitors *)

Class Monitor (St Op : Type) := {
  blocked : Op -> St -> bool;
  body : Op -> St -> outcome (Z * St);
}.

Inductive thread (Op : Type) :=
| Idle
| Ready (o : Op)
| Asleep (o : Op).
Arguments Idle {Op}.
Arguments Ready {Op} o.
Arguments Asleep {Op} o.

(** [pthread_cond_broadcast]. *)
Definition wake {Op} (t : thread Op) : thread Op :=
  match t with Asleep o => Ready o | t => t end.

(** The shared state, the threads, and the calls completed so far, latest last. *)
Record config (St Op : Type) := Config {
  shared : St;
  threads : list (thread Op);
  history : list (Op * Z);
}.
Arguments Config {St Op}.
Arguments shared {St Op}.
Arguments threads {St Op}.
Arguments history {St Op}.

Inductive monitor_step `{Monitor St Op} : config St Op -> config St Op -> Prop :=
| step_call s ts h i o :
    ts !! i = Some Idle -> monitor_step (Config s ts h) (Config s (<[i := Ready o]> ts) h)
| step_wait s ts h i o :
    ts !! i = Some (Ready o) -> blocked o s = true ->
    monitor_step (Config s ts h) (Config s (<[i := Asleep o]> ts) h)
| step_spurious s ts h i o :
    ts !! i = Some (Asleep o) -> monitor_step (Config s ts h) (Config s (<[i := Ready o]> ts) h)
| step_body s ts h i o r s' :
    ts !! i = Some (Ready o) -> blocked o s = false -> body o s = Done (r, s') ->
    monitor_step (Config s ts h) (Config s' (wake <$> <[i := Idle]> ts) (h ++ [(o, r)])).

(** ** [queue.c] *)

(** A node: its data and its [next] pointer. *)
Record queue := Queue {
  nodes : gmap Z (Z * Z);
  head : Z;
  tail : Z;
  size : Z;
  max_size : Z;
}.

Inductive queue_op := Push (data : Z) | Pull.

Section Queue.

Variable node_alloc : gmap Z (Z * Z) -> Z.

Definition queue_create (nodes : gmap Z (Z * Z)) (max_size : Z) : queue := Queue nodes 0 0 0 max_size.

Definition free_node (p : Z) (ns : gmap Z (Z * Z)) : outcome (gmap Z (Z * Z)) :=
  if p =? 0 then Done ns
  else match ns !! p with Some _ => Done (delete p ns) | None => Undef end.

(** [while (walk != this->tail)], then the tail itself. *)
Fixpoint queue_destroy_loop (fuel : nat) (walk tail : Z) (ns : gmap Z (Z * Z)) : outcome (gmap Z (Z * Z)) :=
  match fuel with
  | O => OutOfFuel
  | S fuel =>
      if walk =? tail then free_node walk ns
      else
        let! (data, next) := deref (ns !! walk) in
        let! ns := free_node walk (<[walk := (data, 0)]> ns) in
        queue_destroy_loop fuel next tail ns
  end.

(** Returns the node heap; the queue structure itself is freed. *)
Definition queue_destroy (q : queue) : outcome (gmap Z (Z * Z)) :=
  queue_destroy_loop (S (S (Z.to_nat (size q)))) (head q) (tail q) (nodes q).

Definition push_blocked (q : queue) : bool := (0 <? max_size q) && (size q =? max_size q).

(** [queue_push] after its waiting loop. *)
Definition queue_push (data : Z) (q : queue) : outcome queue :=
  let node := node_alloc (nodes q) in
  if node =? 0 then Undef
  else
    let ns := <[node := (data, 0)]> (nodes q) in
    if tail q =? 0 then Done (Queue ns node node (s64 (size q + 1)) (max_size q))
    else
      let! (d, _) := deref (ns !! tail q) in
      Done (Queue (<[tail q := (d, node)]> ns) (head q) node (s64 (size q + 1)) (max_size q)).

Definition pull_blocked (q : queue) : bool := size q =? 0.

(** [queue_pull] after its waiting loop. *)
Definition queue_pull (q : queue) : outcome (Z * queue) :=
  let! (data, next) := deref (nodes q !! head q) in
  let! ns := free_node (head q) (nodes q) in
  let sz := s64 (size q - 1) in
  if sz =? 0 then Done (data, Queue ns 0 0 sz (max_size q))
  else Done (data, Queue ns next (tail q) sz (max_size q)).

#[export] Instance queue_monitor : Monitor queue queue_op := {
  blocked o q := match o with Push _ => push_blocked q | Pull => pull_blocked q end;
  body o q :=
    match o with
    | Push d => let! q := queue_push d q in Done (0, q)
    | Pull => queue_pull q
    end;
}.

End Queue.

(** ** [semamore.c] *)

Record Semamore := SemamoreC {
  value : Z;
  max_val : Z;
}.

Inductive semm_op := Wait | Post.

Definition semm_init (v m : Z) : Semamore := SemamoreC v m.

Definition wait_blocked (s : Semamore) : bool := value s =? 0.

Definition semm_wait (s : Semamore) : Semamore := SemamoreC (s32 (value s - 1)) (max_val s).

Definition post_blocked (s : Semamore) : bool := value s =? max_val s.

Definition semm_post (s : Semamore) : Semamore := SemamoreC (s32 (value s + 1)) (max_val s).

#[export] Instance semamore_monitor : Monitor Semamore semm_op := {
  blocked o s := match o with Wait => wait_blocked s | Post => post_blocked s end;
  body o s := Done (0, match o with Wait => semm_wait s | Post => semm_post s end);
}.
