(* ===== verification/SyncSpec.v ===== *)
(** * Correctness of the blocking queue and the semamore

    For every monitor of this kind no wake-up is lost: a thread asleep is asleep
    because its condition still holds.  Whatever the interleaving, the queue is
    first-in first-out, bounded and leak-free, and the semamore's value stays
    between 0 and its maximum and counts the posts and waits. *)

From stdpp Require Import gmap.
From S2P Require Import Prelude Sync.
Open Scope Z_scope.

(** ** Any monitor *)

Section AnyMonitor.

Context {St Op : Type} `{M : Monitor St Op}.

(** An invariant of the shared state that every operation preserves holds in
    every interleaving, whatever the history. *)
Lemma monitor_invariant (I : St -> list (Op * Z) -> Prop) c0 c :
  (forall s h o r s', I s h -> blocked o s = false -> body o s = Done (r, s') -> I s' (h ++ [(o, r)])) ->
  rtc monitor_step c0 c -> I (shared c0) (history c0) -> I (shared c) (history c).
Proof.
  intros Hpres. induction 1 as [c|c c1 c2 Hstep _ IH]; intros H0; [done|].
  apply IH. destruct Hstep; cbn in *; eauto.
Qed.

Definition sleepers_blocked (c : config St Op) : Prop :=
  forall i o, threads c !! i = Some (Asleep o) -> blocked o (shared c) = true.

Lemma sleepers_blocked_step c c' : monitor_step c c' -> sleepers_blocked c -> sleepers_blocked c'.
Proof.
  intros Hstep Hc. destruct Hstep as [s ts h i o Hi|s ts h i o Hi Hb|s ts h i o Hi|s ts h i o r s' Hi Hb Hrun];
    intros j p Hj; cbn in *.
  - apply list_lookup_insert_Some in Hj as [(_ & Hp & _)|[_ Hj]]; [done|]. by apply (Hc j).
  - apply list_lookup_insert_Some in Hj as [(_ & Hp & _)|[_ Hj]]; [by injection Hp as <-|]. by apply (Hc j).
  - apply list_lookup_insert_Some in Hj as [(_ & Hp & _)|[_ Hj]]; [done|]. by apply (Hc j).
  - apply list_lookup_fmap_Some in Hj as (t & Ht & _). by destruct t.
Qed.

Lemma no_lost_wakeup c0 c :
  (forall i o, threads c0 !! i <> Some (Asleep o)) -> rtc monitor_step c0 c -> sleepers_blocked c.
Proof.
  intros H0 Hr. assert (Hc0 : sleepers_blocked c0) by (intros i o Hi; by apply H0 in Hi).
  clear H0. induction Hr as [c|c c1 c2 Hstep _ IH]; [done|]. by apply IH, (sleepers_blocked_step c).
Qed.

End AnyMonitor.

Lemma replicate_idle {Op} n i (o : Op) : replicate n (@Idle Op) !! i <> Some (Asleep o).
Proof. intros H. by apply lookup_replicate in H as [? _]. Qed.

(** ** The linked list of the queue *)

Abbreviation cells := (list (Z * Z)).

(** Where the list starts when it is followed by [e]. *)
Definition first (l : cells) (e : Z) : Z := match l with [] => e | (p, _) :: _ => p end.

(** The nodes holding the data [l] (addresses with data), linked, ending in [e]. *)
Fixpoint link (l : cells) (e : Z) : list (Z * (Z * Z)) :=
  match l with
  | [] => []
  | (p, d) :: l => (p, (d, first l e)) :: link l e
  end.

Lemma link_keys l e : (link l e).*1 = l.*1.
Proof. induction l as [|[p d] l IH]; cbn; [done|]. by rewrite IH. Qed.

Lemma first_app l p d e : first (l ++ [(p, d)]) e = first l p.
Proof. by destruct l as [|[]]. Qed.

Lemma link_app l p d e : link (l ++ [(p, d)]) e = link l p ++ [(p, (d, e))].
Proof. induction l as [|[q c] l IH]; cbn; [done|]. by rewrite first_app, IH. Qed.

Record qrep (F : gmap Z (Z * Z)) (q : queue) (l : cells) : Prop := {
  q_nodup : NoDup l.*1;
  q_nonnull : 0 ∉ l.*1;
  q_foreign : forall p, p ∈ l.*1 -> F !! p = None;
  q_nodes : nodes q = list_to_map (link l 0) ∪ F;
  q_head : head q = first l 0;
  q_tail : tail q = default 0 (fst <$> last l);
  q_size : size q = Z.of_nat (length l);
}.

Lemma create_rep F m : qrep F (queue_create F m) [].
Proof.
  split; cbn; try done; [constructor|apply not_elem_of_nil|by intros p Hp%elem_of_nil|by rewrite map_empty_union].
Qed.

Section QueueProofs.

Variable node_alloc : gmap Z (Z * Z) -> Z.
Hypothesis alloc_fresh : forall ns, node_alloc ns <> 0 /\ ns !! node_alloc ns = None.

Lemma push_ok F q l d :
  qrep F q l -> Z.of_nat (length l) < 2 ^ 62 ->
  exists q' n, queue_push node_alloc d q = Done q' /\ qrep F q' (l ++ [(n, d)]) /\ max_size q' = max_size q.
Proof.
  intros [Hnd Hnn Hf Hns Hhd Htl Hsz] Hb. unfold queue_push.
  destruct (alloc_fresh (nodes q)) as [Hn0 Hnone]. set (n := node_alloc (nodes q)) in *.
  rewrite (proj2 (Z.eqb_neq n 0)) by done. rewrite Hns in Hnone.
  apply lookup_union_None in Hnone as [Hn1 HnF]. apply not_elem_of_list_to_map_2 in Hn1.
  rewrite link_keys in Hn1.
  assert (Hbase : NoDup (l ++ [(n, d)]).*1 /\ (0 ∉ (l ++ [(n, d)]).*1) /\ (forall p, p ∈ ((l ++ [(n, d)]).*1) -> F !! p = None)).
  { rewrite fmap_app. split; [|split].
    - apply NoDup_app. split; [done|]. split; [|apply NoDup_singleton].
      intros p Hp Hq. apply list_elem_of_singleton in Hq as ->. done.
    - rewrite elem_of_app. intros [?|Hz%list_elem_of_singleton]; [done|cbn in Hz; congruence].
    - intros p. rewrite elem_of_app. intros [?|Hz%list_elem_of_singleton]; [by apply Hf|by subst]. }
  destruct Hbase as (HB1 & HB2 & HB3).
  destruct l as [|[t dt] l0 _] using rev_ind.
  - cbn in Htl. rewrite Htl. cbn. eexists _, n. split; [done|]. split; [|done].
    split; try done; cbn; [|rewrite Hsz; cbn; by wrap_simpl].
    rewrite Hns. cbn. by rewrite map_empty_union, insert_union_singleton_l.
  - rewrite last_snoc in Htl. cbn in Htl. rewrite Htl.
    assert (Ht0 : t <> 0) by (intros ->; apply Hnn; rewrite fmap_app; set_solver).
    assert (Htn : t <> n) by (intros ->; apply Hn1; rewrite fmap_app; set_solver).
    rewrite (proj2 (Z.eqb_neq t 0)) by done. rewrite lookup_insert_ne by done.
    rewrite fmap_app in Hnd. cbn in Hnd.
    assert (Ht : nodes q !! t = Some (dt, 0)).
    { rewrite Hns. apply lookup_union_Some_l. apply elem_of_list_to_map_1.
      - rewrite link_keys, fmap_app. done.
      - rewrite link_app. set_solver. }
    rewrite Ht. cbn [deref obind]. eexists _, n. split; [done|]. split; [|done].
    split; try done; cbn [nodes Sync.head Sync.tail Sync.size].
    + rewrite Hns, !link_app. rewrite !insert_union_l. f_equal.
      assert (HND : NoDup (t :: (link l0 t).*1)).
      { rewrite link_keys. apply NoDup_app in Hnd as (Ha & Hb' & _). constructor; [|done].
        intros Hin. apply (Hb' t Hin). set_solver. }
      rewrite (list_to_map_proper (link l0 t ++ [(t, (dt, 0))]) ((t, (dt, 0)) :: link l0 t)).
      2:{ rewrite fmap_app. cbn. rewrite link_keys. done. }
      2:{ solve_Permutation. }
      rewrite (list_to_map_proper ((link l0 t ++ [(t, (dt, n))]) ++ [(n, (d, 0))]) ((t, (dt, n)) :: (n, (d, 0)) :: link l0 t)).
      2:{ rewrite !fmap_app in HB1. rewrite !fmap_app, link_keys. cbn in *. done. }
      2:{ solve_Permutation. }
      cbn. rewrite (insert_insert_ne _ n t) by done. by rewrite insert_insert_eq.
    + rewrite Hhd. rewrite !first_app. done.
    + by rewrite last_snoc.
    + rewrite Hsz, !length_app in *. cbn. wrap_simpl. lia.
Qed.

Lemma pull_ok F q p d l :
  qrep F q ((p, d) :: l) -> Z.of_nat (length l) < 2 ^ 62 ->
  exists q', queue_pull q = Done (d, q') /\ qrep F q' l /\ max_size q' = max_size q.
Proof.
  intros [Hnd Hnn Hf Hns Hhd Htl Hsz] Hb. unfold queue_pull. cbn in Hhd. rewrite Hhd. cbn in Hnd, Hnn.
  apply NoDup_cons in Hnd as [Hpl Hnd]. apply not_elem_of_cons in Hnn as [Hp0 Hnn].
  assert (Hp : nodes q !! p = Some (d, first l 0)).
  { rewrite Hns. apply lookup_union_Some_l. cbn. apply lookup_insert_eq. }
  rewrite Hp. cbn [deref obind]. unfold free_node. rewrite (proj2 (Z.eqb_neq p 0)) by done. rewrite Hp. cbn [obind].
  assert (Hdel : delete p (nodes q) = list_to_map (link l 0) ∪ F).
  { rewrite Hns, delete_union. cbn. rewrite delete_insert_eq, (delete_id F) by (apply Hf; set_solver).
    rewrite delete_id; [done|]. apply not_elem_of_list_to_map_1. by rewrite link_keys. }
  cbn [length] in Hsz. rewrite Hsz. rewrite s64_small by lia.
  destruct (_ =? 0) eqn:E; bool_to_prop.
  - destruct l; [|cbn in E; lia]. eexists. split; [done|]. split; [|done]. split; cbn; try done; by intros p' Hp'%elem_of_nil.
  - eexists. split; [done|]. split; [|done]. split; try done; cbn.
    + intros p' Hp'. apply Hf. set_solver.
    + rewrite Htl. destruct l as [|c l]; [cbn in E; lia|]. done.
    + lia.
Qed.

Lemma queue_destroy_loop_ok F l p d fuel :
  NoDup (l ++ [(p, d)]).*1 -> 0 ∉ (l ++ [(p, d)]).*1 -> (forall x, x ∈ (l ++ [(p, d)]).*1 -> F !! x = None) ->
  (length l < fuel)%nat ->
  queue_destroy_loop fuel (first (l ++ [(p, d)]) 0) p (list_to_map (link (l ++ [(p, d)]) 0) ∪ F) = Done F.
Proof.
  revert fuel. induction l as [|[q c] l IH]; intros [|fuel] Hnd Hnn Hf Hl; try (cbn in Hl; lia); cbn [queue_destroy_loop].
  - cbn. rewrite Z.eqb_refl. unfold free_node. rewrite (proj2 (Z.eqb_neq p 0)) by set_solver.
    rewrite lookup_union_l'; [|by rewrite lookup_insert_eq]. rewrite lookup_insert_eq.
    rewrite delete_union, delete_insert_eq, (delete_id F) by (apply Hf; set_solver). by rewrite delete_empty, map_empty_union.
  - cbn in Hnd, Hnn. apply NoDup_cons in Hnd as [Hq Hnd]. apply not_elem_of_cons in Hnn as [Hq0 Hnn].
    cbn [app first link list_to_map].
    rewrite (proj2 (Z.eqb_neq q p)) by (intros ->; apply Hq; rewrite fmap_app; set_solver).
    cbn [fst snd]. change (list_to_map ((q, (c, first (l ++ [(p, d)]) 0)) :: link (l ++ [(p, d)]) 0))
      with (<[q := (c, first (l ++ [(p, d)]) 0)]> (list_to_map (link (l ++ [(p, d)]) 0)) : gmap Z (Z * Z)).
    rewrite lookup_union_l' by (by rewrite lookup_insert_eq). rewrite lookup_insert_eq. cbn [deref obind].
    unfold free_node. rewrite (proj2 (Z.eqb_neq q 0)) by done. rewrite lookup_insert_eq. cbn [obind].
    rewrite delete_insert_eq, delete_union, delete_insert_eq, (delete_id F) by (apply Hf; set_solver).
    rewrite delete_id by (apply not_elem_of_list_to_map_1; by rewrite link_keys).
    apply IH; [done|done|intros x Hx; apply Hf; cbn; set_solver|cbn in Hl; lia].
Qed.

Lemma destroy_rep_ok F q l : qrep F q l -> queue_destroy q = Done F.
Proof.
  intros [Hnd Hnn Hf Hns Hhd Htl Hsz]. unfold queue_destroy. rewrite Hsz, Hhd, Htl, Hns, Nat2Z.id.
  destruct l as [|[p d] l _] using rev_ind; [cbn; by rewrite map_empty_union|].
  rewrite last_snoc. apply queue_destroy_loop_ok; try done. rewrite length_app. cbn. lia.
Qed.

(** ** Every interleaving of producers and consumers *)

#[local] Instance the_queue : Monitor queue queue_op := queue_monitor node_alloc.

Abbreviation qconfig := (config queue queue_op).

Definition pushed (h : list (queue_op * Z)) : list Z :=
  omap (fun x => match x.1 with Push d => Some d | Pull => None end) h.

Definition pulled (h : list (queue_op * Z)) : list Z :=
  omap (fun x => match x.1 with Push _ => None | Pull => Some x.2 end) h.

Definition start (F : gmap Z (Z * Z)) (m : Z) (k : nat) : qconfig :=
  Config (queue_create F m) (replicate k Idle) [].

Definition fifo_inv F m (q : queue) (h : list (queue_op * Z)) : Prop :=
  Z.of_nat (length h) < 2 ^ 62 ->
  exists l, qrep F q l /\ max_size q = m /\ pushed h = pulled h ++ l.*2
    /\ (0 < m -> Z.of_nat (length l) <= m) /\ (length l <= length h)%nat.

Lemma fifo_step F m q h o r q' :
  fifo_inv F m q h -> blocked o q = false -> body o q = Done (r, q') -> fifo_inv F m q' (h ++ [(o, r)]).
Proof.
  intros HI Hb Hrun Hlen. rewrite length_app in Hlen. cbn in Hlen.
  destruct HI as (l & Hq & Hm & Hpp & Hbd & Hll); [lia|].
  unfold pushed, pulled in *. rewrite !omap_app. destruct o as [d|]; cbn in *.
  - destruct (push_ok F q l d Hq) as (q1 & n & Hp & Hq1 & Hm1); [lia|]. rewrite Hp in Hrun. injection Hrun as _ <-.
    exists (l ++ [(n, d)]). split; [done|]. split; [congruence|]. rewrite !length_app. cbn. split; [|split].
    + rewrite Hpp, fmap_app, app_nil_r, app_assoc. done.
    + intros Hpos. unfold push_blocked in Hb. rewrite (q_size _ _ _ Hq), Hm in Hb.
      rewrite (proj2 (Z.ltb_lt 0 m)) in Hb by done. cbn in Hb. bool_to_prop. specialize (Hbd Hpos). lia.
    + lia.
  - unfold pull_blocked in Hb. rewrite (q_size _ _ _ Hq) in Hb. destruct l as [|[p d] l]; [done|].
    cbn [length] in *. destruct (pull_ok F q p d l Hq) as (q1 & Hp & Hq1 & Hm1); [lia|].
    rewrite Hp in Hrun. injection Hrun as <- <-. exists l. split; [done|]. split; [congruence|].
    rewrite length_app. split; [|split; [intros; specialize (Hbd ltac:(done)); lia|cbn; lia]].
    rewrite Hpp, app_nil_r, <- app_assoc. done.
Qed.

Lemma fifo_reachable F m k c :
  rtc monitor_step (start F m k) c -> fifo_inv F m (shared c) (history c).
Proof.
  intros Hr. apply (monitor_invariant (fifo_inv F m) (start F m k) c); [|done|].
  - intros. by eapply fifo_step.
  - intros _. exists []. split; [apply create_rep|]. cbn. split; [done|]. split; [done|]. split; [lia|lia].
Qed.

(** C21. However pushes and pulls of any number of threads interleave, the values
    pulled so far followed by the values in the queue are exactly the values
    pushed, in order; a bounded queue never holds more than [max_size] values;
    and [queue_destroy] frees exactly the nodes the queue allocated. *)
Theorem queue_fifo F m k c :
  rtc monitor_step (start F m k) c -> Z.of_nat (length (history c)) < 2 ^ 62 ->
  exists l, pushed (history c) = pulled (history c) ++ l /\ size (shared c) = Z.of_nat (length l)
    /\ (0 < m -> size (shared c) <= m) /\ queue_destroy (shared c) = Done F.
Proof.
  intros Hr Hlen. destruct (fifo_reachable F m k c Hr Hlen) as (l & Hq & Hm & Hpp & Hbd & _).
  exists l.*2. rewrite (q_size _ _ _ Hq), length_fmap. split; [done|]. split; [done|]. split; [done|].
  by eapply destroy_rep_ok.
Qed.

(** C22. No deadlock: a thread awake in a call, once it has the lock, goes to sleep when
    its condition says so, and otherwise always completes the call itself, which wakes
    every sleeper; a producer asleep means the bounded queue is full, a consumer
    asleep that it is empty, so both never sleep at once. *)
Theorem queue_no_deadlock F m k c :
  rtc monitor_step (start F m k) c -> Z.of_nat (length (history c)) < 2 ^ 62 ->
  (forall i o, threads c !! i = Some (Ready o) ->
     if blocked o (shared c) then monitor_step c (Config (shared c) (<[i := Asleep o]> (threads c)) (history c))
     else exists r q', body o (shared c) = Done (r, q')
       /\ monitor_step c (Config q' (wake <$> <[i := Idle]> (threads c)) (history c ++ [(o, r)])))
  /\ (forall i d, threads c !! i = Some (Asleep (Push d)) -> 0 < m /\ size (shared c) = m)
  /\ (forall i, threads c !! i = Some (Asleep Pull) -> size (shared c) = 0)
  /\ (forall i j d, threads c !! i = Some (Asleep (Push d)) -> threads c !! j <> Some (Asleep Pull)).
Proof.
  intros Hr Hlen. destruct (fifo_reachable F m k c Hr Hlen) as (l & Hq & Hm & Hpp & Hbd & Hll).
  assert (Hsl : sleepers_blocked c) by (eapply no_lost_wakeup; [|exact Hr]; apply replicate_idle).
  assert (Hpush : forall i d, threads c !! i = Some (Asleep (Push d)) -> 0 < m /\ size (shared c) = m).
  { intros i d Hi%Hsl. cbn in Hi. unfold push_blocked in Hi. rewrite Hm in Hi. bool_to_prop. split; [done|].
    specialize (Hbd ltac:(done)). rewrite (q_size _ _ _ Hq) in *. lia. }
  assert (Hpull : forall i, threads c !! i = Some (Asleep Pull) -> size (shared c) = 0).
  { intros i Hi%Hsl. cbn in Hi. unfold pull_blocked in Hi. bool_to_prop. lia. }
  split; [|split; [done|split; [done|]]].
  - intros i o Hi. destruct c as [q ts h]. cbn [shared threads history] in *. destruct (blocked o q) eqn:Hb; [by eapply step_wait|].
    assert (Hrun : exists r q', body o q = Done (r, q')).
    { destruct o as [d|]; cbn in *.
      - destruct (push_ok F q l d Hq) as (q1 & n & -> & _); [lia|]. by eexists _, _.
      - unfold pull_blocked in Hb. rewrite (q_size _ _ _ Hq) in Hb. destruct l as [|[p d] l]; [done|].
        cbn [length] in *. destruct (pull_ok F q p d l Hq) as (q1 & -> & _); [lia|]. by eexists _, _. }
    destruct Hrun as (r & q' & Hrun). exists r, q'. split; [done|]. by eapply step_body.
  - intros i j d [? ?]%Hpush Hj%Hpull. lia.
Qed.

End QueueProofs.

(** ** The semamore *)

Definition count_op (w : semm_op) (h : list (semm_op * Z)) : Z :=
  foldr (fun x n => match x.1, w with Wait, Wait | Post, Post => n + 1 | _, _ => n end) 0 h.

Lemma count_op_app w h o r :
  count_op w (h ++ [(o, r)]) = count_op w h + (match o, w with Wait, Wait | Post, Post => 1 | _, _ => 0 end).
Proof.
  unfold count_op. induction h as [|[p x] h IH]; cbn in *; [by destruct o, w|]. rewrite IH. destruct p, w, o; lia.
Qed.

Definition semm_start (v m : Z) (k : nat) : config Semamore semm_op := Config (semm_init v m) (replicate k Idle) [].

(** C24. Started with a value between 0 and [max_val], a semamore never leaves that
    range, its value is the initial one plus the posts minus the waits completed,
    waiters sleep only at 0 and posters only at the maximum, hence (for a positive
    maximum) never both at once. *)
Theorem semamore_bounds v m k c :
  0 <= v <= m -> m < 2147483648 -> rtc monitor_step (semm_start v m k) c ->
  0 <= value (shared c) <= m
  /\ value (shared c) = v + count_op Post (history c) - count_op Wait (history c)
  /\ (forall i, threads c !! i = Some (Asleep Wait) -> value (shared c) = 0)
  /\ (forall i, threads c !! i = Some (Asleep Post) -> value (shared c) = m)
  /\ (0 < m -> forall i j, threads c !! i = Some (Asleep Wait) -> threads c !! j <> Some (Asleep Post)).
Proof.
  intros Hv Hm Hr.
  assert (HI : max_val (shared c) = m /\ 0 <= value (shared c) <= m
     /\ value (shared c) = v + count_op Post (history c) - count_op Wait (history c)).
  { apply (monitor_invariant (fun s h => max_val s = m /\ 0 <= value s <= m
       /\ value s = v + count_op Post h - count_op Wait h) (semm_start v m k) c); [|done|cbn; lia].
    intros s h o r s' (Hmx & Hr1 & Hr2) Hb Hrun. cbn in Hrun. injection Hrun as <- <-. rewrite !count_op_app.
    destruct o; cbn in *; unfold wait_blocked, post_blocked in Hb; bool_to_prop; rewrite s32_small by lia; lia. }
  destruct HI as (Hmx & Hrange & Hcount).
  assert (Hsl : sleepers_blocked c) by (eapply no_lost_wakeup; [|exact Hr]; apply replicate_idle).
  assert (Hw : forall i, threads c !! i = Some (Asleep Wait) -> value (shared c) = 0)
    by (intros i Hi; apply Hsl in Hi; cbn in Hi; unfold wait_blocked in Hi; bool_to_prop; done).
  assert (Hp : forall i, threads c !! i = Some (Asleep Post) -> value (shared c) = m)
    by (intros i Hi; apply Hsl in Hi; cbn in Hi; unfold post_blocked in Hi; bool_to_prop; congruence).
  split; [done|]. split; [done|]. split; [done|]. split; [done|].
  intros Hpos i j Hi Hj. apply Hw in Hi. apply Hp in Hj. lia.
Qed.

(** ** Concrete runs *)

Definition next_node (ns : gmap Z (Z * Z)) : Z := 1 + foldr Z.max 0 (map_to_list ns).*1.

Lemma next_node_fresh ns : next_node ns <> 0 /\ ns !! next_node ns = None.
Proof.
  unfold next_node.
  assert (Hge : forall l : list Z, 0 <= foldr Z.max 0 l /\ forall p, p ∈ l -> p <= foldr Z.max 0 l).
  { induction l as [|q l [IH0 IH]]; cbn; [split; [lia|by intros p Hp%elem_of_nil]|].
    split; [lia|]. intros p [->|Hp]%elem_of_cons; [lia|]. specialize (IH p Hp). lia. }
  destruct (Hge (map_to_list ns).*1) as [H0 Hin]. split; [lia|].
  destruct (ns !! (1 + foldr Z.max 0 (map_to_list ns).*1)) as [x|] eqn:E; [|done].
  apply elem_of_map_to_list in E. apply (list_elem_of_fmap_2 fst) in E. specialize (Hin _ E). cbn in Hin. lia.
Qed.

(** One producer has pushed a value into a queue of capacity 1. *)
Definition after_push : config queue queue_op :=
  Config (Queue {[ 1 := (42, 0) ]} 1 1 1 1) [Idle; Idle] [(Push 42, 0)].

Lemma after_push_reachable : rtc (@monitor_step _ _ (queue_monitor next_node)) (start ∅ 1 2) after_push.
Proof.
  eapply rtc_l; [apply (step_call _ _ _ 0%nat (Push 42)); reflexivity|]. cbn.
  eapply rtc_l; [|apply rtc_refl].
  refine (step_body _ _ _ 0%nat (Push 42) 0 _ _ _ _); [reflexivity|reflexivity|vm_compute; reflexivity].
Qed.

Lemma queue_fifo_witness :
  exists l, pushed (history after_push) = pulled (history after_push) ++ l
    /\ queue_destroy (shared after_push) = Done ∅.
Proof.
  destruct (queue_fifo next_node next_node_fresh ∅ 1 2 after_push after_push_reachable) as (l & H1 & _ & _ & H2); [cbn; lia|].
  exists l. split; assumption.
Defined.

(** The producer wants to push once more and sleeps, a consumer calls. *)
Definition full_queue : config queue queue_op :=
  Config (Queue {[ 1 := (42, 0) ]} 1 1 1 1) [Asleep (Push 43); Ready Pull] [(Push 42, 0)].

Lemma full_queue_reachable : rtc (@monitor_step _ _ (queue_monitor next_node)) (start ∅ 1 2) full_queue.
Proof.
  transitivity after_push; [exact after_push_reachable|].
  eapply rtc_l; [apply (step_call _ _ _ 0%nat (Push 43)); reflexivity|]. cbn.
  eapply rtc_l; [refine (step_wait _ _ _ 0%nat (Push 43) _ _); reflexivity|]. cbn.
  eapply rtc_l; [apply (step_call _ _ _ 1%nat Pull); reflexivity|]. cbn. apply rtc_refl.
Qed.

Lemma queue_no_deadlock_witness :
  rtc (@monitor_step _ _ (queue_monitor next_node)) (start ∅ 1 2) full_queue
  /\ (exists r q', queue_pull (shared full_queue) = Done (r, q')
        /\ @monitor_step _ _ (queue_monitor next_node) full_queue (Config q' [Ready (Push 43); Idle] [(Push 42, 0); (Pull, r)]))
  /\ size (shared full_queue) = 1.
Proof.
  split; [exact full_queue_reachable|].
  destruct (queue_no_deadlock next_node next_node_fresh ∅ 1 2 full_queue full_queue_reachable) as (H1 & H2 & _); [cbn; lia|].
  split; [exact (H1 1%nat Pull eq_refl)|exact (proj2 (H2 0%nat 43 eq_refl))].
Defined.

Lemma semamore_bounds_witness : 0 <= value (semm_init 1 2) <= 2.
Proof. apply (semamore_bounds 1 2 3 (semm_start 1 2 3)); [lia|lia|apply rtc_refl]. Defined.
