(* ===== verification/Barrier.v ===== *)
(** * The reusable barrier of [critical_concurrency/barrier.c]

    [barrier_wait] has two waiting loops.  A thread is outside, about to test the
    first loop ([Enter]), asleep in it, about to re-test the second ([Check]) or
    asleep in it; [calls] and [returns] count its calls of [barrier_wait] and
    their returns.  The code between two waits runs under the mutex and is one
    step.  Part 1 is the model, part 2 shows that the barrier separates rounds
    and cannot deadlock for two or more threads, and that it can for one. *)

From stdpp Require Import gmap.
From S2P Require Import Prelude.
Open Scope Z_scope.

Record barrier_t := Barrier {
  n_threads : Z;
  count : Z;
  times_used : Z;
}.

Definition barrier_init (num_threads : Z) : barrier_t := Barrier num_threads 0 1.

(** The condition of the first loop. *)
Definition enter_blocked (b : barrier_t) : bool := times_used b =? 0.

(** Arrival after the first loop: [true] when this thread opened the barrier. *)
Definition barrier_arrive (b : barrier_t) : barrier_t * bool :=
  let c := u32 (count b + 1) in
  if c =? n_threads b then (Barrier (n_threads b) (u32 (c - 1)) 0, true)
  else (Barrier (n_threads b) c (times_used b), false).

(** The condition of the second loop. *)
Definition must_wait (b : barrier_t) : bool := (count b <? n_threads b) && negb (times_used b =? 0).

Definition barrier_leave (b : barrier_t) : barrier_t :=
  let c := u32 (count b - 1) in
  Barrier (n_threads b) c (if c =? 0 then 1 else times_used b).

Inductive place := Outside | Enter | Asleep1 | Check | Asleep2.

#[export] Instance place_eq_dec : EqDecision place.
Proof. solve_decision. Defined.

Record thread := Thread {
  pc : place;
  calls : Z;
  returns : Z;
}.

Definition move (t : thread) (p : place) : thread := Thread p (calls t) (returns t).
Definition called (t : thread) : thread := Thread Enter (calls t + 1) (returns t).
Definition returned (t : thread) : thread := Thread Outside (calls t) (returns t + 1).

Definition wake (t : thread) : thread :=
  match pc t with Asleep1 => move t Enter | Asleep2 => move t Check | _ => t end.

Definition config : Type := barrier_t * list thread.

Inductive barrier_wait_step : config -> config -> Prop :=
| bw_call b ts i t :
    ts !! i = Some t -> pc t = Outside -> barrier_wait_step (b, ts) (b, <[i := called t]> ts)
| bw_sleep1 b ts i t :
    ts !! i = Some t -> pc t = Enter -> enter_blocked b = true ->
    barrier_wait_step (b, ts) (b, <[i := move t Asleep1]> ts)
| bw_last b ts i t b' :
    ts !! i = Some t -> pc t = Enter -> enter_blocked b = false -> barrier_arrive b = (b', true) ->
    barrier_wait_step (b, ts) (b', wake <$> <[i := returned t]> ts)
| bw_arrive b ts i t b' :
    ts !! i = Some t -> pc t = Enter -> enter_blocked b = false -> barrier_arrive b = (b', false) ->
    must_wait b' = true -> barrier_wait_step (b, ts) (b', <[i := move t Asleep2]> ts)
| bw_arrive_through b ts i t b' :
    ts !! i = Some t -> pc t = Enter -> enter_blocked b = false -> barrier_arrive b = (b', false) ->
    must_wait b' = false ->
    barrier_wait_step (b, ts) (barrier_leave b', wake <$> <[i := returned t]> ts)
| bw_sleep2 b ts i t :
    ts !! i = Some t -> pc t = Check -> must_wait b = true ->
    barrier_wait_step (b, ts) (b, <[i := move t Asleep2]> ts)
| bw_leave b ts i t :
    ts !! i = Some t -> pc t = Check -> must_wait b = false ->
    barrier_wait_step (b, ts) (barrier_leave b, wake <$> <[i := returned t]> ts)
| bw_spurious b ts i t :
    ts !! i = Some t -> pc t = Asleep1 \/ pc t = Asleep2 ->
    barrier_wait_step (b, ts) (b, <[i := wake t]> ts).

Definition initial (n : Z) (k : nat) : config := (barrier_init n, replicate k (Thread Outside 0 0)).

(** ** The invariant *)

Definition gathered (p : place) : bool := match p with Check | Asleep2 => true | _ => false end.

Definition num_gathered (ts : list thread) : Z :=
  foldr (fun t n => (if gathered (pc t) then 1 else 0) + n) 0 ts.

Lemma num_gathered_app ts ts' : num_gathered (ts ++ ts') = num_gathered ts + num_gathered ts'.
Proof. unfold num_gathered. induction ts as [|t ts IH]; cbn; [lia|]. rewrite IH. lia. Qed.

Lemma num_gathered_insert ts i t t' :
  ts !! i = Some t ->
  num_gathered (<[i := t']> ts)
  = num_gathered ts - (if gathered (pc t) then 1 else 0) + (if gathered (pc t') then 1 else 0).
Proof.
  intros Hi. rewrite insert_take_drop by (by eapply lookup_lt_Some).
  rewrite <- (take_drop_middle ts i t Hi) at 3. rewrite !num_gathered_app. cbn.
  fold (num_gathered (drop (S i) ts)). lia.
Qed.

Lemma wake_gathered t : gathered (pc (wake t)) = gathered (pc t).
Proof. unfold wake. destruct t as [p ? ?]; by destruct p. Qed.

Lemma num_gathered_wake ts : num_gathered (wake <$> ts) = num_gathered ts.
Proof.
  unfold num_gathered. induction ts as [|t ts IH]; [done|]. rewrite fmap_cons.
  change (foldr ?f 0 (?x :: ?l)) with (f x (foldr f 0 l)). cbn beta. by rewrite IH, wake_gathered.
Qed.

Lemma num_gathered_bounds ts : 0 <= num_gathered ts <= Z.of_nat (length ts).
Proof. unfold num_gathered. induction ts as [|t ts IH]; cbn; [lia|]. destruct (gathered (pc t)); lia. Qed.

#[local] Arguments num_gathered : simpl never.

(** Round [k] is gathering (the barrier is closed) or being released (open). *)
Definition thread_ok (opened : bool) (k : Z) (t : thread) : Prop :=
  match pc t with
  | Check => calls t = k + 1 /\ returns t = k
  | Asleep2 => calls t = k + 1 /\ returns t = k /\ opened = false
  | Outside => if opened then calls t = k + 1 /\ returns t = k + 1 else calls t = k /\ returns t = k
  | Enter => if opened then calls t = k + 2 /\ returns t = k + 1 else calls t = k + 1 /\ returns t = k
  | Asleep1 => opened = true /\ calls t = k + 2 /\ returns t = k + 1
  end.

Record binv (n : Z) (c : config) (opened : bool) (k : Z) : Prop := {
  b_n : n_threads c.1 = n;
  b_len : Z.of_nat (length c.2) = n;
  b_count : count c.1 = num_gathered c.2;
  b_used : times_used c.1 = if opened then 0 else 1;
  b_range : if opened then 1 <= count c.1 < n else count c.1 < n;
  b_threads : Forall (thread_ok opened k) c.2;
}.

Lemma thread_ok_insert opened k ts i t :
  Forall (thread_ok opened k) ts -> thread_ok opened k t -> Forall (thread_ok opened k) (<[i := t]> ts).
Proof. intros. by apply Forall_insert. Qed.

(** Opening the barrier wakes every gathered thread. *)
Lemma thread_ok_open k ts i t :
  Forall (thread_ok false k) ts -> ts !! i = Some t -> pc t = Enter ->
  num_gathered ts = Z.of_nat (length ts) - 1 ->
  Forall (thread_ok true k) (wake <$> <[i := returned t]> ts).
Proof.
  intros Hts Hi Hpc Hnum.
  assert (Hother : forall j u, ts !! j = Some u -> j <> i -> gathered (pc u) = true).
  { intros j u Hj Hji. destruct (gathered (pc u)) eqn:E; [done|]. exfalso.
    pose proof (num_gathered_insert ts i t (move t Check) Hi) as H1. rewrite Hpc in H1. cbn in H1.
    assert (Hj' : <[i := move t Check]> ts !! j = Some u) by (by rewrite list_lookup_insert_ne).
    pose proof (num_gathered_insert _ j u (move u Check) Hj') as H2. rewrite E in H2. cbn in H2.
    pose proof (num_gathered_bounds (<[j := move u Check]> (<[i := move t Check]> ts))) as H3.
    rewrite !length_insert in H3. lia. }
  rewrite Forall_lookup in *. intros j u Hj. apply list_lookup_fmap_Some in Hj as (v & -> & Hj).
  apply list_lookup_insert_Some in Hj as [(-> & <- & _)|[Hij Hj]].
  - specialize (Hts j t Hi). unfold thread_ok in *. rewrite Hpc in Hts. cbn. lia.
  - specialize (Hother j v Hj (not_eq_sym Hij)). specialize (Hts j v Hj). unfold thread_ok, wake in *.
    destruct v as [p c r]; destruct p; cbn in *; try done; lia.
Qed.

(** The last thread to leave closes the barrier and starts the next round. *)
Lemma thread_ok_close k ts i t :
  Forall (thread_ok true k) ts -> ts !! i = Some t -> pc t = Check -> num_gathered ts = 1 ->
  Forall (thread_ok false (k + 1)) (wake <$> <[i := returned t]> ts).
Proof.
  intros Hts Hi Hpc Hnum.
  assert (Hother : forall j u, ts !! j = Some u -> j <> i -> gathered (pc u) = false).
  { intros j u Hj Hji. destruct (gathered (pc u)) eqn:E; [|done]. exfalso.
    pose proof (num_gathered_insert ts i t (move t Outside) Hi) as H1. rewrite Hpc in H1. cbn in H1.
    assert (Hj' : <[i := move t Outside]> ts !! j = Some u) by (by rewrite list_lookup_insert_ne).
    pose proof (num_gathered_insert _ j u (move u Outside) Hj') as H2. rewrite E in H2. cbn in H2.
    pose proof (num_gathered_bounds (<[j := move u Outside]> (<[i := move t Outside]> ts))) as H3. lia. }
  rewrite Forall_lookup in *. intros j u Hj. apply list_lookup_fmap_Some in Hj as (v & -> & Hj).
  apply list_lookup_insert_Some in Hj as [(-> & <- & _)|[Hij Hj]].
  - specialize (Hts j t Hi). unfold thread_ok in *. rewrite Hpc in Hts. cbn. lia.
  - specialize (Hother j v Hj (not_eq_sym Hij)). specialize (Hts j v Hj). unfold thread_ok, wake in *.
    destruct v as [p c r]; destruct p; cbn in *; try done; lia.
Qed.

Lemma thread_ok_wake k ts : Forall (thread_ok true k) ts -> Forall (thread_ok true k) (wake <$> ts).
Proof.
  intros Hts. apply Forall_fmap. eapply Forall_impl; [exact Hts|]. intros t Ht. unfold thread_ok, wake in *.
  destruct t as [p c r]; destruct p; cbn in *; try done; lia.
Qed.

(** A step that only moves thread [i] and does not gather or release it. *)
Lemma binv_move n b ts o k i t t' :
  binv n (b, ts) o k -> ts !! i = Some t -> gathered (pc t') = gathered (pc t) -> thread_ok o k t' ->
  binv n (b, <[i := t']> ts) o k.
Proof.
  intros [Hn Hl Hc Hu Hr Ht] Hi Hg Hok. split; cbn in *; try done.
  - by rewrite length_insert.
  - rewrite (num_gathered_insert ts i t t' Hi), Hg. lia.
  - by apply thread_ok_insert.
Qed.

Lemma binv_step n c c' o k :
  2 <= n < 4294967296 -> binv n c o k -> barrier_wait_step c c' -> exists o' k', binv n c' o' k'.
Proof.
  intros Hn2 Hb Hstep.
  destruct Hstep as [b ts i t Hi Hpc|b ts i t Hi Hpc Hg|b ts i t b' Hi Hpc Hg Ha|b ts i t b' Hi Hpc Hg Ha Hw
    |b ts i t b' Hi Hpc Hg Ha Hw|b ts i t Hi Hpc Hw|b ts i t Hi Hpc Hw|b ts i t Hi Hpc];
    pose proof (Forall_lookup_1 _ _ _ _ (b_threads _ _ _ _ Hb) Hi) as Hok; cbn in Hok;
    pose proof Hb as [Hn Hl Hc Hu Hr Ht]; cbn in Hn, Hl, Hc, Hu, Hr, Ht;
    pose proof (num_gathered_bounds ts) as Hgb; unfold thread_ok in Hok; try rewrite Hpc in Hok.
  - exists o, k. eapply binv_move; [done|done|by rewrite Hpc|]. unfold thread_ok. cbn. destruct o; lia.
  - unfold enter_blocked in Hg. bool_to_prop. destruct o; [|lia].
    exists true, k. eapply binv_move; [done|done|by rewrite Hpc|]. unfold thread_ok. cbn. lia.
  - unfold enter_blocked in Hg. bool_to_prop. destruct o; [lia|].
    unfold barrier_arrive in Ha. rewrite (u32_small (count b + 1)) in Ha by lia.
    destruct (_ =? _) eqn:E; [|done]. bool_to_prop. injection Ha as <-. rewrite u32_small by lia.
    exists true, k. split; cbn; try done; try lia.
    + by rewrite length_fmap, length_insert.
    + rewrite num_gathered_wake, (num_gathered_insert ts i t _ Hi), Hpc. cbn. lia.
    + apply thread_ok_open; [done|done|done|lia].
  - unfold enter_blocked in Hg. bool_to_prop. destruct o; [lia|].
    unfold barrier_arrive in Ha. rewrite (u32_small (count b + 1)) in Ha by lia.
    destruct (_ =? _) eqn:E; [done|]. bool_to_prop. injection Ha as <-.
    exists false, k. split; cbn; try done; try lia.
    + by rewrite length_insert.
    + rewrite (num_gathered_insert ts i t _ Hi), Hpc. cbn. lia.
    + apply thread_ok_insert; [done|]. unfold thread_ok. cbn. lia.
  - unfold enter_blocked in Hg. bool_to_prop. destruct o; [lia|].
    unfold barrier_arrive in Ha. rewrite (u32_small (count b + 1)) in Ha by lia.
    destruct (_ =? _) eqn:E; [done|]. bool_to_prop. injection Ha as <-.
    unfold must_wait in Hw. cbn in Hw. rewrite Hu in Hw. rewrite (proj2 (Z.ltb_lt _ _)) in Hw by lia. done.
  - unfold must_wait in Hw. bool_to_prop. destruct o; [lia|].
    exists false, k. eapply binv_move; [done|done|by rewrite Hpc|]. unfold thread_ok. cbn. lia.
  - destruct o.
    2:{ unfold must_wait in Hw. rewrite Hu in Hw. rewrite (proj2 (Z.ltb_lt _ _)) in Hw by lia. done. }
    unfold barrier_leave. rewrite (u32_small (count b - 1)) by lia.
    destruct (count b - 1 =? 0) eqn:E; bool_to_prop.
    + exists false, (k + 1). split; cbn; try done; try lia.
      * by rewrite length_fmap, length_insert.
      * rewrite num_gathered_wake, (num_gathered_insert ts i t _ Hi), Hpc. cbn. lia.
      * apply thread_ok_close; [done|done|done|lia].
    + exists true, k. split; cbn; try done; try lia.
      * by rewrite length_fmap, length_insert.
      * rewrite num_gathered_wake, (num_gathered_insert ts i t _ Hi), Hpc. cbn. lia.
      * apply thread_ok_wake, thread_ok_insert; [done|]. unfold thread_ok. cbn. lia.
  - exists o, k. eapply binv_move; [done|done|by apply wake_gathered|].
    unfold thread_ok, wake in *. destruct Hpc as [Hpc|Hpc]; rewrite Hpc in *; cbn; destruct o; lia.
Qed.

Lemma binv_reachable n c :
  2 <= n < 4294967296 -> rtc barrier_wait_step (initial n (Z.to_nat n)) c -> exists o k, binv n c o k.
Proof.
  intros Hn Hr.
  assert (H0 : exists o k, binv n (initial n (Z.to_nat n)) o k).
  { exists false, 0. split; cbn; try done; try lia.
    - rewrite length_replicate. lia.
    - clear. induction (Z.to_nat n) as [|j IH]; [done|].
      change (num_gathered (replicate (S j) (Thread Outside 0 0))) with (0 + num_gathered (replicate j (Thread Outside 0 0))). lia.
    - apply Forall_replicate. unfold thread_ok. cbn. lia. }
  induction Hr as [c|c c1 c2 Hstep _ IH]; [done|]. apply IH.
  destruct H0 as (o & k & Hb). by eapply binv_step.
Qed.

(** C23. For two or more threads the barrier separates rounds: no thread returns from
    its k-th [barrier_wait] before every thread has called it k times, no thread
    is more than one round ahead, and when all threads are inside at least one of
    them is awake, so they never all sleep. *)
Theorem barrier_separates_rounds n c :
  2 <= n < 4294967296 -> rtc barrier_wait_step (initial n (Z.to_nat n)) c ->
  (forall t u, t ∈ c.2 -> u ∈ c.2 -> returns t <= calls u /\ returns t <= returns u + 1)
  /\ ((forall t, t ∈ c.2 -> pc t <> Outside) -> exists t, t ∈ c.2 /\ (pc t = Enter \/ pc t = Check)).
Proof.
  intros Hn Hr. destruct (binv_reachable n c Hn Hr) as (o & k & [Hbn Hl Hc Hu Hrg Ht]).
  rewrite Forall_forall in Ht. split.
  - intros t u Hti Hui. apply Ht in Hti, Hui. unfold thread_ok in *. destruct (pc t), (pc u), o; lia.
  - intros Hin. destruct (decide (Exists (fun t => pc t = Enter \/ pc t = Check) c.2)) as [He|He].
    + apply Exists_exists in He. exact He.
    + exfalso. assert (Hall : forall t, t ∈ c.2 -> gathered (pc t) = negb o).
      { intros t Hti. specialize (Ht t Hti). specialize (Hin t Hti).
        assert (Hna : ~ (pc t = Enter \/ pc t = Check)) by (intros Ha; apply He, Exists_exists; eauto).
        unfold thread_ok in Ht. destruct (pc t), o; naive_solver. }
      assert (Hnum : num_gathered c.2 = if o then 0 else Z.of_nat (length c.2)).
      { clear - Hall. destruct c as [b ts]. cbn in *. induction ts as [|t ts IH]; [by destruct o|].
        change (num_gathered (t :: ts)) with ((if gathered (pc t) then 1 else 0) + num_gathered ts).
        rewrite IH by (intros; apply Hall; by right). rewrite (Hall t) by (by left). destruct o; cbn; lia. }
      destruct o; lia.
Qed.

Lemma barrier_separates_rounds_witness :
  exists c, rtc barrier_wait_step (initial 2 (Z.to_nat 2)) c /\ forall t u, t ∈ c.2 -> u ∈ c.2 -> returns t <= calls u.
Proof.
  assert (Hr : rtc barrier_wait_step (initial 2 (Z.to_nat 2))
     (Barrier 2 1 0, [Thread Check 1 0; Thread Outside 1 1])).
  { eapply rtc_l; [apply (bw_call _ _ 0%nat (Thread Outside 0 0)); reflexivity|].
    eapply rtc_l; [apply (bw_arrive _ _ 0%nat (Thread Enter 1 0)); reflexivity|].
    eapply rtc_l; [apply (bw_call _ _ 1%nat (Thread Outside 0 0)); reflexivity|].
    eapply rtc_l; [apply (bw_last _ _ 1%nat (Thread Enter 1 0)); reflexivity|].
    apply rtc_refl. }
  eexists. split; [exact Hr|]. intros t u Ht Hu.
  apply (barrier_separates_rounds 2 _ ltac:(lia) Hr); assumption.
Defined.

(** ** One thread *)

Definition total_returns (ts : list thread) : Z := foldr (fun t n => returns t + n) 0 ts.

Lemma total_returns_insert ts i t t' :
  ts !! i = Some t -> total_returns (<[i := t']> ts) = total_returns ts - returns t + returns t'.
Proof.
  unfold total_returns. revert i. induction ts as [|u ts IH]; intros [|i] Hi; cbn in *; try done.
  - injection Hi as ->. lia.
  - rewrite IH by done. lia.
Qed.

Lemma total_returns_wake ts : total_returns (wake <$> ts) = total_returns ts.
Proof.
  unfold total_returns. induction ts as [|t ts IH]; cbn; [done|]. rewrite IH.
  f_equal. unfold wake. by destruct (pc t).
Qed.

#[local] Arguments total_returns : simpl never.

Record binv1 (c : config) : Prop := {
  b1_n : n_threads c.1 = 1;
  b1_count : count c.1 = 0;
  b1_state : (times_used c.1 = 1 /\ total_returns c.2 = 0) \/ (times_used c.1 = 0 /\ total_returns c.2 = 1);
  b1_threads : Forall (fun t => gathered (pc t) = false) c.2;
}.

Lemma binv1_move b ts i t t' :
  binv1 (b, ts) -> ts !! i = Some t -> gathered (pc t') = false -> returns t' = returns t ->
  binv1 (b, <[i := t']> ts).
Proof.
  intros [Hn Hc Hs Ht] Hi Hg Hr. split; cbn in *; try done.
  - rewrite (total_returns_insert ts i t t' Hi). replace (total_returns ts - returns t + returns t') with (total_returns ts) by lia. done.
  - by apply Forall_insert.
Qed.

Lemma binv1_step c c' : binv1 c -> barrier_wait_step c c' -> binv1 c'.
Proof.
  intros Hb Hstep.
  destruct Hstep as [b ts i t Hi Hpc|b ts i t Hi Hpc Hg|b ts i t b' Hi Hpc Hg Ha|b ts i t b' Hi Hpc Hg Ha Hw
    |b ts i t b' Hi Hpc Hg Ha Hw|b ts i t Hi Hpc Hw|b ts i t Hi Hpc Hw|b ts i t Hi Hpc];
    pose proof (Forall_lookup_1 _ _ _ _ (b1_threads _ Hb) Hi) as Hok; cbn in Hok;
    pose proof Hb as [Hn Hc Hs Ht]; cbn in Hn, Hc, Hs, Ht.
  - by eapply binv1_move.
  - by eapply binv1_move.
  - unfold enter_blocked in Hg. bool_to_prop. unfold barrier_arrive in Ha. rewrite Hc, Hn in Ha. cbn in Ha.
    injection Ha as <-. split; cbn; try done.
    + rewrite total_returns_wake, (total_returns_insert ts i t _ Hi). cbn. right. split; [done|]. lia.
    + apply Forall_fmap. apply Forall_insert; [|done].
      eapply Forall_impl; [exact Ht|]. intros u Hu. cbn. by rewrite wake_gathered.
  - unfold barrier_arrive in Ha. rewrite Hc, Hn in Ha. cbn in Ha. done.
  - unfold barrier_arrive in Ha. rewrite Hc, Hn in Ha. cbn in Ha. done.
  - rewrite Hpc in Hok. done.
  - rewrite Hpc in Hok. done.
  - destruct Hpc as [Hpc|Hpc]; rewrite Hpc in Hok; [|done].
    eapply binv1_move; [done|done|unfold wake; by rewrite Hpc|unfold wake; by rewrite Hpc].
Qed.

(** (code bug) A barrier for one thread works only once: the thread that opens it
    is the only one and never closes it again, so whatever happens at most one
    call of [barrier_wait] ever returns. *)
Theorem barrier_single_thread_once k c :
  rtc barrier_wait_step (initial 1 k) c -> total_returns c.2 <= 1.
Proof.
  intros Hr. assert (Hb : binv1 c).
  { assert (H0 : binv1 (initial 1 k)).
    { split; cbn; try done.
      - left. split; [done|]. clear. induction k as [|j IH]; [done|].
        change (total_returns (replicate (S j) (Thread Outside 0 0))) with (0 + total_returns (replicate j (Thread Outside 0 0))). lia.
      - by apply Forall_replicate. }
    induction Hr as [c|c c1 c2 Hstep _ IH]; [done|]. by apply IH, (binv1_step c). }
  destruct Hb as [_ _ Hs _]. lia.
Qed.

Lemma barrier_single_thread_once_witness :
  exists c, rtc barrier_wait_step (initial 1 1) c /\ total_returns c.2 = 1 /\ total_returns c.2 <= 1.
Proof.
  assert (Hr : rtc barrier_wait_step (initial 1 1) (Barrier 1 0 0, [Thread Outside 1 1])).
  { eapply rtc_l; [apply (bw_call _ _ 0%nat (Thread Outside 0 0)); reflexivity|].
    eapply rtc_l; [apply (bw_last _ _ 0%nat (Thread Enter 1 0)); reflexivity|]. apply rtc_refl. }
  eexists. split; [exact Hr|]. split; [reflexivity|]. apply (barrier_single_thread_once 1 _ Hr).
Defined.
