(* ===== verification/Drm.v ===== *)
(** * Deadlock-resistant mutexes: [deadlock_demolition/libdrm.c]

    The resource-allocation graph and the set used by the search come from
    prebuilt libraries; they are the classes [GraphLib] and [SetLib], with the
    behaviour their headers document as [GraphLaws] and [SetLaws].  A library call
    whose documented precondition fails is [Undef].  A drm and a thread are their
    addresses.  [drm_wait] releases the global lock while it blocks on the drm's
    mutex, so it is two steps; [drm_step] interleaves the calls of all threads. *)

From stdpp Require Import gmap.
From S2P Require Import Prelude.
Open Scope Z_scope.

Class GraphLib (G : Type) := {
  shallow_graph_create : G;
  graph_contains_vertex : G -> Z -> bool;
  graph_vertices : G -> list Z;
  graph_adjacent : G -> Z -> Z -> bool;
  graph_neighbors : G -> Z -> list Z;
  graph_add_vertex : Z -> G -> G;
  graph_remove_vertex : Z -> G -> G;
  graph_add_edge : Z -> Z -> G -> G;
  graph_remove_edge : Z -> Z -> G -> G;
}.

Class SetLib (V : Type) := {
  shallow_set_create : V;
  set_contains : V -> Z -> bool;
  set_add : Z -> V -> V;
}.

Section Drm.

Context {G V : Type} `{GraphLib G} `{SetLib V}.

(** The globals [g] and [visited], and which thread holds each drm's mutex. *)
Record drm_state := DrmState {
  g : option G;
  visited : option V;
  owner : gmap Z Z;
}.

Definition set_g (s : drm_state) (x : G) : drm_state := DrmState (Some x) (visited s) (owner s).
Definition set_visited (s : drm_state) (x : option V) : drm_state := DrmState (g s) x (owner s).
Definition set_owner (s : drm_state) (x : gmap Z Z) : drm_state := DrmState (g s) (visited s) x.

(** Library calls with their documented preconditions. *)
Definition adjacent (x : G) (a b : Z) : outcome bool :=
  if graph_contains_vertex x a && graph_contains_vertex x b then Done (graph_adjacent x a b) else Undef.

Definition neighbors (x : G) (a : Z) : outcome (list Z) :=
  if graph_contains_vertex x a then Done (graph_neighbors x a) else Undef.

Definition remove_edge (a b : Z) (x : G) : outcome G :=
  if graph_contains_vertex x a && graph_contains_vertex x b && graph_adjacent x a b
  then Done (graph_remove_edge a b x) else Undef.

(** [VECTOR_FOR_EACH]: descend into the neighbours not yet visited. *)
Fixpoint visit_neighbors (rec : V -> Z -> outcome (Z * V)) (neigh_vector : list Z) (visited : V) (was_visited : Z)
  : outcome (Z * V) :=
  match neigh_vector with
  | [] => Done (was_visited, visited)
  | neigh :: rest =>
      if negb (set_contains visited neigh) then
        let! (r, visited) := rec visited neigh in
        visit_neighbors rec rest visited (Z.lor was_visited r)
      else visit_neighbors rec rest visited was_visited
  end.

Fixpoint has_cycle_from (fuel : nat) (x : G) (visited : V) (node : Z) : outcome (Z * V) :=
  match fuel with
  | O => OutOfFuel
  | S fuel =>
      if set_contains visited node then Done (1, visited)
      else
        let visited := set_add node visited in
        let! neigh_vector := neighbors x node in
        visit_neighbors (has_cycle_from fuel x) neigh_vector visited 0
  end.

(** Lazy creation of [visited]; the depth is bounded by the number of vertices. *)
Definition has_cycle (s : drm_state) (x : G) (node : Z) : outcome (Z * drm_state) :=
  let v := match visited s with Some v => v | None => shallow_set_create end in
  let! (r, v) := has_cycle_from (S (S (length (graph_vertices x)))) x v node in
  Done (r, set_visited s (Some v)).

(** [drm] is the address [malloc] returned. *)
Definition drm_init (s : drm_state) (drm : Z) : drm_state :=
  let x := match g s with Some x => x | None => shallow_graph_create end in
  set_g s (graph_add_vertex drm x).

Definition drm_post (s : drm_state) (drm thread_id : Z) : outcome (Z * drm_state) :=
  let! x := deref (g s) in
  if negb (graph_contains_vertex x drm) || negb (graph_contains_vertex x thread_id) then Done (0, s)
  else
    let! adj := adjacent x drm thread_id in
    if adj then
      let! x := remove_edge drm thread_id x in
      (* unlocking a mutex the caller does not hold is undefined *)
      if bool_decide (owner s !! drm = Some thread_id)
      then Done (1, set_owner (set_g s x) (delete drm (owner s)))
      else Undef
    else Done (1, s).

(** [drm_wait] up to its blocking [pthread_mutex_lock(&drm->m)]: [Some 0] when it
    returns 0 before, [None] when it goes on to block. *)
Definition drm_wait_request (s : drm_state) (drm thread_id : Z) : outcome (option Z * drm_state) :=
  let! x := deref (g s) in
  let x := if graph_contains_vertex x thread_id then x else graph_add_vertex thread_id x in
  let s := set_g s x in
  let! adj := adjacent x drm thread_id in
  if adj then Done (Some 0, s)
  else
    let x := graph_add_edge thread_id drm x in
    let s := set_g s x in
    let! (c, s) := has_cycle s x thread_id in
    if negb (c =? 0) then
      let! x := remove_edge thread_id drm x in
      Done (Some 0, set_visited (set_g s x) None)
    else Done (None, s).

(** The rest of [drm_wait], once the mutex is locked and the global lock held. *)
Definition drm_wait_acquired (s : drm_state) (drm thread_id : Z) : outcome (Z * drm_state) :=
  let! x := deref (g s) in
  let! x := remove_edge thread_id drm x in
  let x := graph_add_edge drm thread_id x in
  Done (1, set_visited (set_g s x) None).

Definition drm_destroy (s : drm_state) (drm : Z) : outcome drm_state :=
  if drm =? 0 then Done s
  else
    let! x := deref (g s) in
    if graph_contains_vertex x drm then
      let s := set_g s (graph_remove_vertex drm x) in
      (* destroying a locked mutex is undefined *)
      match owner s !! drm with None => Done s | Some _ => Undef end
    else Undef.

(** ** Threads *)

Inductive place :=
| Running
| Blocked (drm : Z)   (* in [pthread_mutex_lock(&drm->m)] *)
| Locked (drm : Z).   (* holds [drm->m], waits for the global lock *)

(** [threads] gives the place of every thread; drms are the addresses [is_drm]. *)
Record system := System {
  sys : drm_state;
  threads : gmap Z place;
}.

Variable is_drm : Z -> Prop.

Inductive drm_step : system -> system -> Prop :=
| step_init s ts drm :
    is_drm drm -> (forall x, g s = Some x -> graph_contains_vertex x drm = false) ->
    drm_step (System s ts) (System (drm_init s drm) ts)
| step_post s ts drm t r s' :
    is_drm drm -> ts !! t = Some Running -> drm_post s drm t = Done (r, s') ->
    drm_step (System s ts) (System s' ts)
| step_refused s ts drm t r s' :
    is_drm drm -> ts !! t = Some Running -> drm_wait_request s drm t = Done (Some r, s') ->
    drm_step (System s ts) (System s' ts)
| step_request s ts drm t s' :
    is_drm drm -> ts !! t = Some Running -> drm_wait_request s drm t = Done (None, s') ->
    drm_step (System s ts) (System s' (<[t := Blocked drm]> ts))
| step_lock s ts drm t :
    ts !! t = Some (Blocked drm) -> owner s !! drm = None ->
    drm_step (System s ts) (System (set_owner s (<[drm := t]> (owner s))) (<[t := Locked drm]> ts))
| step_acquired s ts drm t r s' :
    ts !! t = Some (Locked drm) -> drm_wait_acquired s drm t = Done (r, s') ->
    drm_step (System s ts) (System s' (<[t := Running]> ts))
| step_destroy s ts drm s' :
    (* it changes the graph without the global lock and frees the drm: the caller
       makes sure that no thread is in a call *)
    is_drm drm -> (forall t p, ts !! t = Some p -> p = Running) -> drm_destroy s drm = Done s' ->
    drm_step (System s ts) (System s' ts).

End Drm.
Arguments drm_state G V : clear implicits.
Arguments system G V : clear implicits.
