(* ===== verification/DrmSpec.v ===== *)
(** * Correctness of the deadlock-resistant mutex

    The search [has_cycle] always terminates, and answers 1 exactly when its
    start node was visited before the call: it never finds a cycle.  The mutexes
    do exclude each other, and the graph's ownership edges agree with them; but
    the classical two-thread deadlock is not prevented. *)

From stdpp Require Import gmap.
From S2P Require Import Prelude Drm.
Open Scope Z_scope.

(** What graph.h and set.h document. *)
Class GraphLaws (G : Type) `{GraphLib G} : Prop := {
  vertices_spec : forall x v, graph_contains_vertex x v = true <-> v ∈ graph_vertices x;
  neighbors_spec : forall x a b, graph_contains_vertex x a = true -> b ∈ graph_neighbors x a <-> graph_adjacent x a b = true;
  edge_ends : forall x a b, graph_adjacent x a b = true -> graph_contains_vertex x a = true /\ graph_contains_vertex x b = true;
  create_empty : forall v, graph_contains_vertex (shallow_graph_create : G) v = false;
  add_vertex_contains : forall x v w, graph_contains_vertex (graph_add_vertex v x) w = bool_decide (v = w) || graph_contains_vertex x w;
  add_vertex_adjacent : forall x v a b, graph_adjacent (graph_add_vertex v x) a b = graph_adjacent x a b;
  add_edge_contains : forall x a b w, graph_contains_vertex x a = true -> graph_contains_vertex x b = true ->
    graph_contains_vertex (graph_add_edge a b x) w = graph_contains_vertex x w;
  add_edge_adjacent : forall x a b c d, graph_contains_vertex x a = true -> graph_contains_vertex x b = true ->
    graph_adjacent (graph_add_edge a b x) c d = bool_decide (a = c /\ b = d) || graph_adjacent x c d;
  remove_edge_contains : forall x a b w, graph_adjacent x a b = true ->
    graph_contains_vertex (graph_remove_edge a b x) w = graph_contains_vertex x w;
  remove_edge_adjacent : forall x a b c d, graph_adjacent x a b = true ->
    graph_adjacent (graph_remove_edge a b x) c d = negb (bool_decide (a = c /\ b = d)) && graph_adjacent x c d;
  remove_vertex_contains : forall x v w, graph_contains_vertex x v = true ->
    graph_contains_vertex (graph_remove_vertex v x) w = negb (bool_decide (v = w)) && graph_contains_vertex x w;
  remove_vertex_adjacent : forall x v a b, graph_contains_vertex x v = true ->
    graph_adjacent (graph_remove_vertex v x) a b = negb (bool_decide (v = a \/ v = b)) && graph_adjacent x a b;
}.

Class SetLaws (V : Type) `{SetLib V} : Prop := {
  set_create_empty : forall e, set_contains (shallow_set_create : V) e = false;
  set_add_contains : forall s x e, set_contains (set_add x s) e = bool_decide (x = e) || set_contains s e;
}.

(** ** The search *)

Section Search.

Context {G V : Type} `{HG : GraphLaws G} `{HV : SetLaws V}.

Definition unvisited (x : G) (v : V) : nat :=
  length (filter (fun n => set_contains v n = false) (graph_vertices x)).

Definition grows (v v' : V) : Prop := forall e, set_contains v e = true -> set_contains v' e = true.

Lemma unvisited_grows x v v' : grows v v' -> (unvisited x v' <= unvisited x v)%nat.
Proof.
  intros Hg. apply filter_length_le. intros e He. destruct (set_contains v e) eqn:E; [|done].
  apply Hg in E. congruence.
Qed.

Lemma unvisited_add x v n :
  graph_contains_vertex x n = true -> set_contains v n = false -> (unvisited x (set_add n v) < unvisited x v)%nat.
Proof.
  intros Hc Hn. apply (filter_length_lt _ _ _ n).
  - intros e. rewrite set_add_contains. by intros [_ ?]%orb_false_iff.
  - by apply vertices_spec.
  - done.
  - rewrite set_add_contains, bool_decide_eq_true_2 by done. done.
Qed.

Lemma grows_add v n : grows v (set_add n v).
Proof. intros e He. rewrite set_add_contains, He. by rewrite orb_true_r. Qed.

Lemma visit_neighbors_zero (rec : V -> Z -> outcome (Z * V)) l v :
  forall (bound : nat) (x : G),
  (forall v n, n ∈ l -> set_contains v n = false -> (unvisited x v <= bound)%nat ->
     exists v', rec v n = Done (0, v') /\ grows v v') ->
  (unvisited x v <= bound)%nat ->
  exists v', visit_neighbors rec l v 0 = Done (0, v') /\ grows v v'.
Proof.
  intros bound x Hrec. revert v. induction l as [|n l IH]; intros v Hv; cbn [visit_neighbors];
    [exists v; split; [done|by intros e]|].
  assert (Hl : forall v n, n ∈ l -> set_contains v n = false -> (unvisited x v <= bound)%nat ->
     exists v', rec v n = Done (0, v') /\ grows v v').
  { intros v0 n0 Hn0 Hv0 Hb0. apply (Hrec v0 n0); [by apply list_elem_of_further|done|done]. }
  destruct (set_contains v n) eqn:E; cbn [negb]; [by apply IH|].
  destruct (Hrec v n) as (v1 & -> & Hg1); [by left|done|done|]. cbn [obind]. rewrite Z.lor_diag.
  destruct (IH Hl v1) as (v2 & -> & Hg2); [pose proof (unvisited_grows x v v1 Hg1); lia|].
  exists v2. split; [done|]. intros e He. by apply Hg2, Hg1.
Qed.

Lemma has_cycle_from_zero fuel x v node :
  graph_contains_vertex x node = true -> set_contains v node = false -> (unvisited x v < fuel)%nat ->
  exists v', has_cycle_from fuel x v node = Done (0, v') /\ grows v v'.
Proof.
  revert v node. induction fuel as [|fuel IH]; intros v node Hc Hv Hf; [lia|]. cbn [has_cycle_from].
  rewrite Hv. unfold neighbors. rewrite Hc. cbn [obind].
  pose proof (unvisited_add x v node Hc Hv) as Hlt.
  destruct (visit_neighbors_zero (has_cycle_from fuel x) (graph_neighbors x node) (set_add node v)
    (unvisited x (set_add node v)) x) as (v' & -> & Hg).
  - intros v1 n Hn Hv1 Hle. apply IH; [|done|lia].
    apply neighbors_spec in Hn; [|done]. by apply edge_ends in Hn as [_ ?].
  - lia.
  - exists v'. split; [done|]. intros e He. by apply Hg, grows_add.
Qed.

Lemma has_cycle_fresh (s : drm_state G V) x node :
  graph_contains_vertex x node = true -> 
  (forall v, visited s = Some v -> set_contains v node = false) ->
  exists v', has_cycle s x node = Done (0, set_visited s (Some v')).
Proof.
  intros Hc Hv. unfold has_cycle.
  set (v := match visited s with Some v => v | None => shallow_set_create end).
  destruct (has_cycle_from_zero (S (S (length (graph_vertices x)))) x v node Hc) as (v' & -> & _).
  - unfold v. destruct (visited s) as [v0|] eqn:E; [by apply Hv|apply set_create_empty].
  - assert (Hle : (unvisited x v <= length (graph_vertices x))%nat) by apply length_filter. lia.
  - by exists v'.
Qed.

Lemma has_cycle_stale (s : drm_state G V) x node v :
  visited s = Some v -> set_contains v node = true -> has_cycle s x node = Done (1, s).
Proof.
  intros Hv Hn. unfold has_cycle. rewrite Hv. cbn [has_cycle_from]. rewrite Hn. cbn [obind].
  destruct s. cbn in *. by rewrite Hv.
Qed.

(** [has_cycle] terminates on every graph and returns 1 exactly when its start
    node is already in the [visited] set left by an earlier call.  In particular,
    with a fresh set it returns 0 also when the node lies on a cycle: the test
    "already visited" is made before recursing, never on the way back. *)
Theorem has_cycle_never_detects (s : drm_state G V) x node :
  graph_contains_vertex x node = true ->
  exists r s', has_cycle s x node = Done (r, s')
    /\ (r = 1 <-> exists v, visited s = Some v /\ set_contains v node = true)
    /\ (r = 0 \/ r = 1).
Proof.
  intros Hc. destruct (visited s) as [v|] eqn:Ev; [destruct (set_contains v node) eqn:En|].
  - exists 1, s. split; [by eapply has_cycle_stale|]. split; [|by right]. split; [intros _; by exists v|done].
  - destruct (has_cycle_fresh s x node Hc) as [v' Hrun]; [intros v0 Hv0; congruence|].
    exists 0. eexists. split; [exact Hrun|]. split; [|by left]. split; [done|].
    intros (v0 & Hv0 & Hn0). congruence.
  - destruct (has_cycle_fresh s x node Hc) as [v' Hrun]; [intros v0 Hv0; congruence|].
    exists 0. eexists. split; [exact Hrun|]. split; [|by left]. split; [done|].
    intros (v0 & Hv0 & Hn0). congruence.
Qed.

(** ** Mutual exclusion *)

Variable is_drm : Z -> Prop.

Definition adj (s : drm_state G V) (a b : Z) : Prop :=
  exists x, g s = Some x /\ graph_adjacent x a b = true.

Definition vertex (s : drm_state G V) (a : Z) : Prop :=
  exists x, g s = Some x /\ graph_contains_vertex x a = true.

Record sysinv (c : system G V) : Prop := {
  i_tids : forall t p, threads c !! t = Some p -> ~ is_drm t;
  i_edges : forall a b, adj (sys c) a b ->
    (is_drm a /\ owner (sys c) !! a = Some b /\ threads c !! b <> Some (Locked a))
    \/ (is_drm b /\ (threads c !! a = Some (Blocked b) \/ threads c !! a = Some (Locked b)));
  i_own : forall d t, owner (sys c) !! d = Some t ->
    is_drm d /\ (adj (sys c) d t \/ threads c !! t = Some (Locked d));
  i_wait : forall t d, threads c !! t = Some (Blocked d) \/ threads c !! t = Some (Locked d) -> is_drm d /\ adj (sys c) t d;
  i_locked : forall t d, threads c !! t = Some (Locked d) -> owner (sys c) !! d = Some t;
  i_holder : forall d t, owner (sys c) !! d = Some t -> ~ is_drm t;
}.

(** The invariant depends on the graph only through its edges. *)
Lemma sysinv_ext s s' ts :
  owner s' = owner s -> (forall a b, adj s' a b <-> adj s a b) -> sysinv (System s ts) -> sysinv (System s' ts).
Proof.
  intros Ho Ha [H1 H2 H3 H4 H5 H6]. split; cbn in *; rewrite ?Ho; try done.
  - intros a b. rewrite Ha. apply H2.
  - intros d t Hd. rewrite Ha. by apply H3.
  - intros t d Ht. rewrite Ha. by apply H4.
Qed.

Lemma adj_add_vertex (s : drm_state G V) x v a b :
  g s = Some x -> adj (set_g s (graph_add_vertex v x)) a b <-> adj s a b.
Proof.
  intros Hx. unfold adj. cbn. rewrite Hx. split.
  - intros (y & [= <-] & Hy). rewrite add_vertex_adjacent in Hy. by exists x.
  - intros (y & [= <-] & Hy). eexists. split; [done|]. by rewrite add_vertex_adjacent.
Qed.

(** What [drm_wait_request] does to the edges. *)
Lemma wait_request_spec s ts drm t r s' :
  sysinv (System s ts) -> is_drm drm -> ts !! t = Some Running -> drm_wait_request s drm t = Done (r, s') ->
  owner s' = owner s /\
  match r with
  | Some _ => forall a b, adj s' a b <-> adj s a b
  | None => forall a b, adj s' a b <-> (a = t /\ b = drm) \/ adj s a b
  end.
Proof.
  intros Hinv Hd Ht Hrun. unfold drm_wait_request in Hrun.
  apply obind_Done in Hrun as (x & Hx & Hrun). destruct (g s) as [x0|] eqn:Hg; [|done]. injection Hx as ->.
  set (x1 := if graph_contains_vertex x t then x else graph_add_vertex t x) in Hrun.
  assert (Hadj1 : forall a b, graph_adjacent x1 a b = graph_adjacent x a b)
    by (intros a b; unfold x1; destruct (graph_contains_vertex x t); [done|apply add_vertex_adjacent]).
  assert (Hsx : forall a b, adj s a b <-> graph_adjacent x a b = true).
  { intros a b. unfold adj. rewrite Hg. split; [by intros (y & [= <-] & ?)|eauto]. }
  assert (Hnot : graph_adjacent x t drm <> true).
  { intros Ha. apply Hsx, (i_edges _ Hinv) in Ha as [(Hdt & _)|(_ & [Hp|Hp])]; cbn in *; try congruence.
    by apply (i_tids _ Hinv t Running). }
  apply obind_Done in Hrun as (ad & Had & Hrun). unfold adjacent in Had. destruct (_ && _) eqn:Hv; [|done].
  apply andb_true_iff in Hv as [Hv1 Hv2]. injection Had as <-.
  destruct (graph_adjacent x1 drm t) eqn:Hdt.
  { injection Hrun as <- <-. split; [done|]. intros a b. rewrite Hsx. unfold adj. cbn. split.
    - intros (y & [= <-] & Hy). by rewrite <- Hadj1.
    - intros Hy. exists x1. by rewrite Hadj1. }
  apply obind_Done in Hrun as ([c s2] & Hcy & Hrun).
  assert (Hs2 : g s2 = Some (graph_add_edge t drm x1) /\ owner s2 = owner s).
  { unfold has_cycle in Hcy. apply obind_Done in Hcy as ([r2 v2] & _ & Hcy). by injection Hcy as _ <-. }
  destruct Hs2 as [Hg2 Ho2].
  assert (Hadj2 : forall a b, graph_adjacent (graph_add_edge t drm x1) a b = true <-> (a = t /\ b = drm) \/ graph_adjacent x a b = true).
  { intros a b. rewrite add_edge_adjacent by done. rewrite orb_true_iff, bool_decide_eq_true, Hadj1. naive_solver. }
  destruct (negb (c =? 0)).
  - apply obind_Done in Hrun as (x3 & Hx3 & Hrun). injection Hrun as <- <-. split; [done|].
    unfold remove_edge in Hx3. destruct (_ && _) eqn:Hv3; [|done]. apply andb_true_iff in Hv3 as [_ Hv3]. injection Hx3 as <-.
    intros a b. rewrite Hsx. unfold adj. cbn. split.
    + intros (y & [= <-] & Hy). rewrite remove_edge_adjacent in Hy by done. apply andb_true_iff in Hy as [Hne Hy].
      apply negb_true_iff, bool_decide_eq_false in Hne. apply Hadj2 in Hy. naive_solver.
    + intros Hy. eexists. split; [done|]. rewrite remove_edge_adjacent by done. apply andb_true_iff. split.
      * apply negb_true_iff, bool_decide_eq_false. intros [<- <-]. done.
      * apply Hadj2. by right.
  - injection Hrun as <- <-. split; [done|]. intros a b. rewrite Hsx. unfold adj. rewrite Hg2. split.
    + intros (y & [= <-] & Hy). by apply Hadj2.
    + intros Hy. eexists. split; [done|]. by apply Hadj2.
Qed.

Lemma sysinv_init s ts drm :
  sysinv (System s ts) -> is_drm drm -> (forall x, g s = Some x -> graph_contains_vertex x drm = false) ->
  sysinv (System (drm_init s drm) ts).
Proof.
  intros Hinv Hd Hnew.
  apply (sysinv_ext s); [done| |done]. intros a b. unfold drm_init. destruct (g s) as [x|] eqn:Hg.
    - by apply adj_add_vertex.
    - unfold adj. cbn. split; [|intros (y & Hy & _); congruence]. intros (y & [= <-] & Hy).
      rewrite add_vertex_adjacent in Hy. apply edge_ends in Hy as [Hy _]. by rewrite create_empty in Hy.
Qed.

Lemma sysinv_post s ts drm t r s' :
  sysinv (System s ts) -> is_drm drm -> ts !! t = Some Running -> drm_post s drm t = Done (r, s') ->
  sysinv (System s' ts).
Proof.
  intros Hinv Hd Ht Hrun.
  unfold drm_post in Hrun. apply obind_Done in Hrun as (x & Hx & Hrun).
    destruct (g s) as [x0|] eqn:Hg; [|done]. injection Hx as ->.
    destruct (_ || _); [by injection Hrun as _ <-|].
    apply obind_Done in Hrun as (ad & Had & Hrun). unfold adjacent in Had. destruct (_ && _); [|done]. injection Had as <-.
    destruct (graph_adjacent x drm t) eqn:Hdt; [|by injection Hrun as _ <-].
    apply obind_Done in Hrun as (x1 & Hx1 & Hrun). unfold remove_edge in Hx1. destruct (_ && _); [|done]. injection Hx1 as <-.
    case_bool_decide as Hown; [|done]. injection Hrun as _ <-.
    assert (Hadj : forall a b, adj (set_owner (set_g s (graph_remove_edge drm t x)) (delete drm (owner s))) a b
      <-> ~ (a = drm /\ b = t) /\ adj s a b).
    { intros a b. unfold adj. cbn. rewrite Hg. split.
      - intros (y & [= <-] & Hy). rewrite remove_edge_adjacent in Hy by done. apply andb_true_iff in Hy as [Hne Hy].
        apply negb_true_iff, bool_decide_eq_false in Hne. split; [naive_solver|by exists x].
      - intros (Hne & y & [= <-] & Hy). eexists. split; [done|]. rewrite remove_edge_adjacent by done.
        apply andb_true_iff. split; [|done]. apply negb_true_iff, bool_decide_eq_false. naive_solver. }
    destruct Hinv as [H1 H2 H3 H4 H5 H6]. cbn in *. split; cbn.
    - done.
    - intros a b [Hne Hab]%Hadj. destruct (H2 a b Hab) as [(? & Ho & ?)|?]; [left|by right].
      split; [done|]. split; [|done]. rewrite lookup_delete_ne; [done|]. intros <-. naive_solver congruence.
    - intros d t' [Hdd Ho]%lookup_delete_Some. destruct (H3 d t' Ho) as [? [?|?]]; [|by eauto].
      split; [done|]. left. apply Hadj. naive_solver.
    - intros t' d Hp. destruct (H4 t' d Hp) as [? Ha]. split; [done|]. apply Hadj. split; [|done].
      intros [-> ->]. destruct Hp as [Hp|Hp]; by apply (H1 _ _ Hp).
    - intros t' d Hp. pose proof (H5 t' d Hp) as Ho. rewrite lookup_delete_ne; [done|]. intros <-. congruence.
    - intros d t' [_ Ho]%lookup_delete_Some. by apply (H6 d).
Qed.

Lemma sysinv_refused s ts drm t r s' :
  sysinv (System s ts) -> is_drm drm -> ts !! t = Some Running -> drm_wait_request s drm t = Done (Some r, s') ->
  sysinv (System s' ts).
Proof.
  intros Hinv Hd Ht Hrun.
  destruct (wait_request_spec s ts drm t (Some r) s' Hinv Hd Ht Hrun) as [Ho Ha]. by apply (sysinv_ext s).
Qed.

Lemma sysinv_request s ts drm t s' :
  sysinv (System s ts) -> is_drm drm -> ts !! t = Some Running -> drm_wait_request s drm t = Done (None, s') ->
  sysinv (System s' (<[t := Blocked drm]> ts)).
Proof.
  intros Hinv Hd Ht Hrun.
  destruct (wait_request_spec s ts drm t None s' Hinv Hd Ht Hrun) as [Ho Ha].
    destruct Hinv as [H1 H2 H3 H4 H5 H6]. cbn in *. split; cbn; rewrite ?Ho.
    - intros t' p [[<- _]|[_ Hp]]%lookup_insert_Some; [by apply (H1 t Running)|by apply (H1 _ p)].
    - intros a b [[-> ->]|Hab]%Ha; [right; rewrite lookup_insert_eq; by eauto|].
      destruct (H2 a b Hab) as [(? & ? & Hnl)|[? Hp]]; [left|right; split; [done|]].
      + split; [done|]. split; [done|]. destruct (decide (t = b)) as [<-|]; [by rewrite lookup_insert_eq|by rewrite lookup_insert_ne].
      + destruct (decide (t = a)) as [<-|]; [rewrite Ht in Hp; naive_solver|by rewrite lookup_insert_ne].
    - intros d t' Hdt. destruct (H3 d t' Hdt) as [? [?|Hp]]; (split; [done|]); [left; apply Ha; by right|].
      right. destruct (decide (t = t')) as [<-|]; [rewrite Ht in Hp; done|by rewrite lookup_insert_ne].
    - intros t' d Hp. rewrite Ha. destruct (decide (t = t')) as [<-|Hne].
      + rewrite lookup_insert_eq in Hp. destruct Hp as [[= <-]|?]; [|done]. split; [done|by left].
      + rewrite lookup_insert_ne in Hp by done. destruct (H4 t' d Hp). split; [done|by right].
    - intros t' d Hp. destruct (decide (t = t')) as [<-|Hne]; [by rewrite lookup_insert_eq in Hp|].
      rewrite lookup_insert_ne in Hp by done. by apply H5.
    - done.
Qed.

Lemma sysinv_lock s ts drm t :
  sysinv (System s ts) -> ts !! t = Some (Blocked drm) -> owner s !! drm = None ->
  sysinv (System (set_owner s (<[drm := t]> (owner s))) (<[t := Locked drm]> ts)).
Proof.
  intros Hinv Ht Hfree.
  destruct Hinv as [H1 H2 H3 H4 H5 H6]. cbn in *. destruct (H4 t drm (or_introl Ht)) as [Hd Hta].
    split; cbn.
    - intros t' p [[<- _]|[_ Hp]]%lookup_insert_Some; [by apply (H1 _ _ Ht)|by apply (H1 _ p)].
    - intros a b Hab. change (adj s a b) in Hab. destruct (H2 a b Hab) as [(? & Ho & Hnl)|[? Hp]]; [left|right; split; [done|]].
      + assert (drm <> a) by congruence. split; [done|]. split; [by rewrite lookup_insert_ne|].
        destruct (decide (t = b)) as [<-|]; [rewrite lookup_insert_eq; congruence|by rewrite lookup_insert_ne].
      + destruct (decide (t = a)) as [<-|]; [rewrite lookup_insert_eq|by rewrite lookup_insert_ne].
        rewrite Ht in Hp. right. naive_solver congruence.
    - intros d t' [[<- <-]|[Hne Ho]]%lookup_insert_Some; [split; [done|]; right; apply lookup_insert_eq|].
      destruct (H3 d t' Ho) as [? [?|Hp]]; (split; [done|]); [by left|]. right.
      destruct (decide (t = t')) as [<-|]; [congruence|by rewrite lookup_insert_ne].
    - intros t' d Hp. destruct (decide (t = t')) as [<-|Hne].
      + rewrite lookup_insert_eq in Hp. destruct Hp as [?|[= <-]]; [done|]. by split.
      + rewrite !lookup_insert_ne in Hp by done. by apply H4.
    - intros t' d Hp. destruct (decide (t = t')) as [<-|Hne].
      + rewrite lookup_insert_eq in Hp. injection Hp as <-. apply lookup_insert_eq.
      + rewrite lookup_insert_ne in Hp by done. pose proof (H5 t' d Hp) as Ho.
        rewrite lookup_insert_ne; [done|]. congruence.
    - intros d t' [[<- <-]|[_ Ho]]%lookup_insert_Some; [by apply (H1 _ _ Ht)|by apply (H6 d)].
Qed.

Lemma sysinv_acquired s ts drm t r s' :
  sysinv (System s ts) -> ts !! t = Some (Locked drm) -> drm_wait_acquired s drm t = Done (r, s') ->
  sysinv (System s' (<[t := Running]> ts)).
Proof.
  intros Hinv Ht Hrun.
  unfold drm_wait_acquired in Hrun. apply obind_Done in Hrun as (x & Hx & Hrun).
    destruct (g s) as [x0|] eqn:Hg; [|done]. injection Hx as ->.
    apply obind_Done in Hrun as (x1 & Hx1 & Hrun). unfold remove_edge in Hx1.
    destruct (_ && _) eqn:Hv; [|done]. apply andb_true_iff in Hv as [[Hvt Hvd]%andb_true_iff Htd].
    injection Hx1 as <-. injection Hrun as _ <-.
    assert (Hadj : forall a b, adj (set_visited (set_g s (graph_add_edge drm t (graph_remove_edge t drm x))) None) a b
      <-> (a = drm /\ b = t) \/ (~ (a = t /\ b = drm) /\ adj s a b)).
    { intros a b. unfold adj. cbn. rewrite Hg.
      assert (He : graph_adjacent (graph_add_edge drm t (graph_remove_edge t drm x)) a b = true
        <-> (drm = a /\ t = b) \/ (~ (t = a /\ drm = b) /\ graph_adjacent x a b = true)).
      { rewrite add_edge_adjacent by (by rewrite remove_edge_contains). rewrite remove_edge_adjacent by done.
        rewrite orb_true_iff, andb_true_iff, negb_true_iff, bool_decide_eq_true, bool_decide_eq_false. done. }
      split.
      - intros (y & [= <-] & Hy). apply He in Hy. naive_solver.
      - intros Hy. eexists. split; [done|]. apply He. naive_solver. }
    destruct Hinv as [H1 H2 H3 H4 H5 H6]. cbn in *. pose proof (H5 t drm Ht) as Hot.
    destruct (H4 t drm (or_intror Ht)) as [Hd _]. split; cbn.
    - intros t' p [[<- _]|[_ Hp]]%lookup_insert_Some; [by apply (H1 _ _ Ht)|by apply (H1 _ p)].
    - intros a b [[-> ->]|[Hne Hab]]%Hadj; [left; rewrite lookup_insert_eq; done|].
      destruct (H2 a b Hab) as [(? & ? & Hnl)|[? Hp]]; [left|right; split; [done|]].
      + split; [done|]. split; [done|]. destruct (decide (t = b)) as [<-|]; [by rewrite lookup_insert_eq|by rewrite lookup_insert_ne].
      + destruct (decide (t = a)) as [<-|]; [rewrite Ht in Hp; naive_solver congruence|by rewrite lookup_insert_ne].
    - intros d t' Ho. destruct (H3 d t' Ho) as [? [?|Hp]]; (split; [done|]).
      + left. apply Hadj. right. split; [|done]. intros [-> ->]. by apply (H1 t (Locked drm)).
      + destruct (decide (t = t')) as [<-|]; [left; apply Hadj; left; naive_solver congruence|right; by rewrite lookup_insert_ne].
    - intros t' d Hp. destruct (decide (t = t')) as [<-|Hne]; [rewrite !lookup_insert_eq in Hp; naive_solver|].
      rewrite !lookup_insert_ne in Hp by done. destruct (H4 t' d Hp). split; [done|]. apply Hadj. right. naive_solver.
    - intros t' d Hp. destruct (decide (t = t')) as [<-|Hne]; [by rewrite lookup_insert_eq in Hp|].
      rewrite lookup_insert_ne in Hp by done. by apply H5.
    - done.
Qed.

(** With no thread in a call, no edge touches a drm that nobody owns. *)
Lemma no_edge s ts drm a b :
  sysinv (System s ts) -> is_drm drm -> (forall t p, ts !! t = Some p -> p = Running) -> owner s !! drm = None ->
  adj s a b -> drm <> a /\ drm <> b.
Proof.
  intros Hinv Hd Hts Ho Ha. destruct (i_edges _ Hinv a b Ha) as [(_ & Hab & _)|(_ & [Hp|Hp])]; cbn in *.
  - split; [congruence|]. intros ->. by apply (i_holder _ Hinv) in Hab.
  - by apply Hts in Hp.
  - by apply Hts in Hp.
Qed.

Lemma destroy_spec (s : drm_state G V) drm s' :
  drm_destroy s drm = Done s' ->
  s' = s \/ exists x, g s = Some x /\ graph_contains_vertex x drm = true /\ owner s !! drm = None /\ s' = set_g s (graph_remove_vertex drm x).
Proof.
  unfold drm_destroy. destruct (drm =? 0); [intros [= <-]; by left|]. intros (x & Hx & Hrun)%obind_Done.
  destruct (g s) as [x0|] eqn:Hg; [|done]. injection Hx as ->. destruct (graph_contains_vertex x drm) eqn:Hv; [|done].
  cbn in Hrun. destruct (owner s !! drm) eqn:Ho; [done|]. injection Hrun as <-. right. by exists x.
Qed.

Lemma sysinv_destroy s ts drm s' :
  sysinv (System s ts) -> is_drm drm -> (forall t p, ts !! t = Some p -> p = Running) -> drm_destroy s drm = Done s' ->
  sysinv (System s' ts).
Proof.
  intros Hinv Hd Hts [->|(x & Hg & Hv & Ho & ->)]%destroy_spec; [done|].
  apply (sysinv_ext s); [done| |done]. intros a b. split.
  - intros (y & [= <-] & Hy). rewrite remove_vertex_adjacent in Hy by done. apply andb_true_iff in Hy as [_ Hy]. by exists x.
  - intros Hab. destruct (no_edge s ts drm a b Hinv Hd Hts Ho Hab) as [Ha Hb]. destruct Hab as (y & Hy & Hadj).
    rewrite Hg in Hy. injection Hy as <-. eexists. split; [done|]. rewrite remove_vertex_adjacent by done.
    rewrite bool_decide_eq_false_2; [done|]. by intros [?|?].
Qed.

Lemma sysinv_step c c' : sysinv c -> drm_step is_drm c c' -> sysinv c'.
Proof.
  intros Hinv Hstep. destruct Hstep.
  - by apply sysinv_init.
  - by eapply sysinv_post.
  - by eapply sysinv_refused.
  - by eapply sysinv_request.
  - by apply sysinv_lock.
  - by eapply sysinv_acquired.
  - by eapply sysinv_destroy.
Qed.

(** No threads in a call, no drm yet. *)
Definition initial (ts : gmap Z place) : system G V := System (DrmState None None ∅) ts.

Lemma sysinv_reachable ts c :
  (forall t p, ts !! t = Some p -> p = Running /\ ~ is_drm t) -> rtc (drm_step is_drm) (initial ts) c -> sysinv c.
Proof.
  intros Hts Hr. assert (Hini : sysinv (initial ts)).
  { split; cbn.
    - intros t p Hp. by apply (Hts t p).
    - by intros a b (x & ? & _).
    - intros d t Hd. by rewrite lookup_empty in Hd.
    - intros t d [Hp|Hp]; by apply Hts in Hp as [? _].
    - intros t d Hp. by apply Hts in Hp as [? _].
    - intros d t Hd. by rewrite lookup_empty in Hd. }
  induction Hr as [c|c c1 c2 Hstep _ IH]; [done|]. by apply IH, (sysinv_step c).
Qed.

Lemma post_defined c t d :
  sysinv c -> threads c !! t = Some Running -> is_drm d -> vertex (sys c) d -> exists r s', drm_post (sys c) d t = Done (r, s').
Proof.
  intros Hinv Ht Hd (x & Hx & Hvd). unfold drm_post. rewrite Hx. cbn [deref obind]. rewrite Hvd. cbn [negb orb].
  destruct (graph_contains_vertex x t) eqn:Hvt; cbn [negb]; [|by eexists _, _].
  unfold adjacent. rewrite Hvd, Hvt. cbn [andb obind].
  destruct (graph_adjacent x d t) eqn:Ha; [|by eexists _, _].
  unfold remove_edge. rewrite Hvd, Hvt, Ha. cbn [andb obind].
  rewrite bool_decide_eq_true_2; [by eexists _, _|].
  destruct (i_edges c Hinv d t) as [(_ & ? & _)|(Hdt & _)]; [by exists x|done|].
  by apply (i_tids c Hinv) in Ht.
Qed.

Lemma wait_defined c t d :
  sysinv c -> is_drm d -> vertex (sys c) d -> exists r s', drm_wait_request (sys c) d t = Done (r, s').
Proof.
  intros Hinv Hd (x & Hx & Hvd). unfold drm_wait_request. rewrite Hx. cbn [deref obind].
  set (x1 := if graph_contains_vertex x t then x else graph_add_vertex t x).
  assert (Hv1 : graph_contains_vertex x1 d = true /\ graph_contains_vertex x1 t = true).
  { unfold x1. destruct (graph_contains_vertex x t) eqn:E; [done|]. rewrite !add_vertex_contains, Hvd, orb_true_r.
    by rewrite bool_decide_eq_true_2. }
  destruct Hv1 as [Hvd1 Hvt1]. unfold adjacent. rewrite Hvd1, Hvt1. cbn [andb obind].
  destruct (graph_adjacent x1 d t); [by eexists _, _|].
  set (x2 := graph_add_edge t d x1). set (s1 := set_g _ x2).
  destruct (visited s1) as [v|] eqn:Ev; [destruct (set_contains v t) eqn:En|].
  - rewrite (has_cycle_stale s1 x2 t v Ev En). cbn [obind negb Z.eqb]. unfold remove_edge.
    unfold x2. rewrite !add_edge_contains, add_edge_adjacent, Hvd1, Hvt1 by done.
    rewrite bool_decide_eq_true_2 by done. cbn. by eexists _, _.
  - destruct (has_cycle_fresh s1 x2 t) as [v' ->]; [unfold x2; by rewrite add_edge_contains|intros v0 Hv0; congruence|].
    by eexists _, _.
  - destruct (has_cycle_fresh s1 x2 t) as [v' ->]; [unfold x2; by rewrite add_edge_contains|intros v0 Hv0; congruence|].
    by eexists _, _.
Qed.

Lemma acquired_defined c t d :
  sysinv c -> threads c !! t = Some (Locked d) -> exists r s', drm_wait_acquired (sys c) d t = Done (r, s').
Proof.
  intros Hinv Ht. destruct (i_wait c Hinv t d (or_intror Ht)) as (_ & x & Hx & Ha).
  pose proof (edge_ends x t d Ha) as [H1 H2]. unfold drm_wait_acquired. rewrite Hx. cbn [deref obind].
  unfold remove_edge. rewrite H1, H2, Ha. cbn. by eexists _, _.
Qed.

Lemma destroy_defined (c : system G V) d :
  d <> 0 -> vertex (sys c) d -> owner (sys c) !! d = None ->
  exists s', drm_destroy (sys c) d = Done s' /\ ~ vertex s' d.
Proof.
  intros Hd (x & Hx & Hv) Ho. unfold drm_destroy. rewrite (proj2 (Z.eqb_neq d 0)), Hx by done. cbn [deref obind].
  rewrite Hv. cbn. rewrite Ho. eexists. split; [done|]. intros (y & [= <-] & Hy).
  rewrite remove_vertex_contains, bool_decide_eq_true_2 in Hy by done. done.
Qed.

(** C26. In every interleaving of [drm_init], [drm_post] and [drm_wait] calls, and of
    [drm_destroy] calls made while no thread is in a call, at most one thread owns a
    drm in the resource-allocation graph and that thread holds its mutex.  [drm_post]
    and [drm_wait] of a drm that is initialised and not destroyed are defined (in
    particular [drm_post] never unlocks a mutex its caller does not hold), and so is
    [drm_destroy] of one that nobody holds. *)
Theorem drm_mutual_exclusion ts c :
  (forall t p, ts !! t = Some p -> p = Running /\ ~ is_drm t) -> rtc (drm_step is_drm) (initial ts) c ->
  (forall d t1 t2, is_drm d -> adj (sys c) d t1 -> adj (sys c) d t2 -> t1 = t2 /\ owner (sys c) !! d = Some t1)
  /\ (forall d t, is_drm d -> vertex (sys c) d -> threads c !! t = Some Running ->
       (exists r s', drm_post (sys c) d t = Done (r, s')) /\ (exists r s', drm_wait_request (sys c) d t = Done (r, s')))
  /\ (forall d t, threads c !! t = Some (Locked d) -> exists r s', drm_wait_acquired (sys c) d t = Done (r, s'))
  /\ (forall d, d <> 0 -> vertex (sys c) d -> owner (sys c) !! d = None -> exists s', drm_destroy (sys c) d = Done s' /\ ~ vertex s' d).
Proof.
  intros Hts Hr. pose proof (sysinv_reachable ts c Hts Hr) as Hinv. split; [|split; [|split]].
  - assert (Howner : forall d t, is_drm d -> adj (sys c) d t -> owner (sys c) !! d = Some t).
    { intros d t Hd Ha. destruct (i_edges c Hinv d t Ha) as [(_ & ? & _)|(_ & [Hp|Hp])]; [done| |];
        by apply (i_tids c Hinv) in Hp. }
    intros d t1 t2 Hd H1 H2. apply Howner in H1, H2; [|done|done]. split; [congruence|done].
  - intros d t Hd Hv Ht. split; [by apply post_defined|by apply wait_defined].
  - intros d t Ht. by apply acquired_defined.
  - intros d. apply destroy_defined.
Qed.

(** (code bug) [drm_wait] refuses a request only when the thread already owns the
    drm or when the global [visited] set is stale; with a fresh set it goes on to
    block, whatever cycle the new edge closes. *)
Theorem drm_wait_misses_cycles (s : drm_state G V) x drm t :
  g s = Some x -> visited s = None -> graph_contains_vertex x drm = true ->
  graph_contains_vertex x t = true -> graph_adjacent x drm t = false ->
  exists s', drm_wait_request s drm t = Done (None, s') /\ g s' = Some (graph_add_edge t drm x).
Proof.
  intros Hx Hv Hd Ht Ha. unfold drm_wait_request. rewrite Hx. cbn [deref obind]. rewrite Ht.
  unfold adjacent. rewrite Hd, Ht. cbn [andb obind]. rewrite Ha.
  destruct (has_cycle_fresh (set_g (set_g s x) (graph_add_edge t drm x)) (graph_add_edge t drm x) t) as [v' ->].
  - by rewrite add_edge_contains.
  - cbn. congruence.
  - cbn. by eexists.
Qed.

End Search.

(** ** A concrete graph and set *)

Record list_graph := ListGraph { verts : list Z; edges : list (Z * Z) }.

#[export] Instance list_graph_lib : GraphLib list_graph := {
  shallow_graph_create := ListGraph [] [];
  graph_contains_vertex x v := bool_decide (v ∈ verts x);
  graph_vertices x := verts x;
  graph_adjacent x a b := bool_decide (a ∈ verts x) && bool_decide (b ∈ verts x) && bool_decide ((a, b) ∈ edges x);
  graph_neighbors x a := filter (fun b => (a, b) ∈ edges x) (verts x);
  graph_add_vertex v x := ListGraph (v :: verts x) (if bool_decide (v ∈ verts x) then edges x else filter (fun e => e.1 <> v /\ e.2 <> v) (edges x));
  graph_remove_vertex v x := ListGraph (filter (fun w => w <> v) (verts x)) (filter (fun e => e.1 <> v /\ e.2 <> v) (edges x));
  graph_add_edge a b x := ListGraph (verts x) ((a, b) :: edges x);
  graph_remove_edge a b x := ListGraph (verts x) (filter (fun e => e <> (a, b)) (edges x));
}.

Lemma list_adjacent x a b :
  graph_adjacent (x : list_graph) a b = true <-> a ∈ verts x /\ b ∈ verts x /\ (a, b) ∈ edges x.
Proof. cbn. rewrite !andb_true_iff, !bool_decide_eq_true. tauto. Qed.

Lemma bool_ext (p q : bool) : (p = true <-> q = true) -> p = q.
Proof. destruct p, q; intuition congruence. Qed.

#[export] Instance list_graph_laws : GraphLaws list_graph.
Proof.
  split.
  - intros x v. cbn. by rewrite bool_decide_eq_true.
  - intros x a b Ha. rewrite list_adjacent. cbn in *. rewrite bool_decide_eq_true in Ha. rewrite list_elem_of_filter. tauto.
  - intros x a b. rewrite list_adjacent. cbn. rewrite !bool_decide_eq_true. tauto.
  - intros v. cbn. apply bool_decide_eq_false, not_elem_of_nil.
  - intros x v w. apply bool_ext. cbn. rewrite orb_true_iff, !bool_decide_eq_true, elem_of_cons. intuition congruence.
  - intros x v a b. apply bool_ext. rewrite !list_adjacent. cbn. case_bool_decide as Hv.
    + rewrite !elem_of_cons. split; [|tauto]. intros ([->|?] & [->|?] & ?); auto.
    + rewrite !elem_of_cons, list_elem_of_filter. cbn. split; [|intros (? & ? & ?); repeat split; auto; congruence].
      intros (? & ? & (? & ?) & ?). naive_solver.
  - intros x a b w _ _. done.
  - intros x a b c d Ha Hb. cbn in Ha, Hb. rewrite bool_decide_eq_true in Ha, Hb. apply bool_ext.
    rewrite orb_true_iff, !list_adjacent, bool_decide_eq_true. cbn. rewrite elem_of_cons. naive_solver.
  - intros x a b w _. done.
  - intros x a b c d Hab. apply bool_ext. rewrite andb_true_iff, negb_true_iff, bool_decide_eq_false, !list_adjacent.
    cbn. rewrite list_elem_of_filter. split; [naive_solver|].
    intros (Hne & ? & ? & ?). repeat split; auto. intros [= -> ->]. apply Hne. done.
  - intros x v w _. apply bool_ext. cbn. rewrite andb_true_iff, negb_true_iff, bool_decide_eq_false, !bool_decide_eq_true, list_elem_of_filter.
    intuition congruence.
  - intros x v a b _. apply bool_ext. rewrite andb_true_iff, negb_true_iff, bool_decide_eq_false, !list_adjacent. cbn.
    rewrite !list_elem_of_filter. cbn. intuition congruence.
Qed.

#[export] Instance gset_set_lib : SetLib (list Z) := {
  shallow_set_create := [];
  set_contains s e := bool_decide (e ∈ s);
  set_add e s := e :: s;
}.

#[export] Instance gset_set_laws : SetLaws (list Z).
Proof.
  split.
  - intros e. cbn. apply bool_decide_eq_false, not_elem_of_nil.
  - intros s x e. apply bool_ext. cbn. rewrite orb_true_iff, !bool_decide_eq_true, elem_of_cons. intuition congruence.
Qed.

(** Threads 1 and 2, drms 11 and 12; each thread owns one and asks for the other. *)
Definition cyclic_graph : list_graph := ListGraph [1; 2; 11; 12] [(11, 1); (12, 2); (1, 12)].

Definition held : drm_state list_graph (list Z) := DrmState (Some cyclic_graph) None {[ 11 := 1; 12 := 2 ]}.

Lemma has_cycle_never_detects_witness :
  exists r s', has_cycle held (graph_add_edge 2 11 cyclic_graph) 2 = Done (r, s') /\ (r = 0 \/ r = 1).
Proof.
  destruct (has_cycle_never_detects held (graph_add_edge 2 11 cyclic_graph) 2) as (r & s' & H1 & _ & H2); [reflexivity|].
  exists r, s'. split; assumption.
Defined.

Lemma drm_wait_misses_cycles_witness :
  exists s', drm_wait_request held 11 2 = Done (None, s') /\ g s' = Some (graph_add_edge 2 11 cyclic_graph).
Proof. apply (drm_wait_misses_cycles held cyclic_graph 11 2); reflexivity. Defined.

(** Runs of three threads and three drms. *)
Definition is_lock (d : Z) : Prop := d = 11 \/ d = 12 \/ d = 13.

Definition three_threads : gmap Z place := {[ 1 := Running; 2 := Running; 3 := Running ]}.

Ltac lock_id := unfold is_lock; lia.
Ltac do_init d := eapply rtc_l; [apply (step_init is_lock _ _ d); [lock_id|by intros ? [= <-]]|].
Ltac do_request t d := eapply rtc_l; [eapply (step_request is_lock _ _ d t); [lock_id|reflexivity|vm_compute; reflexivity]|].
Ltac do_lock t d :=
  eapply rtc_l; [apply (step_lock is_lock _ _ d t); reflexivity|];
  eapply rtc_l; [eapply (step_acquired is_lock _ _ d t); [reflexivity|vm_compute; reflexivity]|].

(** (code bug) The classical deadlock is reachable: threads 1 and 2 each hold one
    drm and are blocked on the other's, and none of their calls was refused. *)
Theorem drm_deadlock_reachable :
  exists c : system list_graph (list Z), rtc (drm_step is_lock) (initial three_threads) c
    /\ threads c !! 1 = Some (Blocked 12) /\ owner (sys c) !! 12 = Some 2
    /\ threads c !! 2 = Some (Blocked 11) /\ owner (sys c) !! 11 = Some 1.
Proof.
  eexists. split.
  - do_init 11. do_init 12. do_init 13.
    do_request 1 11. do_lock 1 11. do_request 2 12. do_lock 2 12.
    do_request 1 12. do_request 3 13. do_lock 3 13. do_request 2 11.
    apply rtc_refl.
  - split; [reflexivity|]. split; [reflexivity|]. split; reflexivity.
Qed.

(** (code bug) [visited] is not reset before the global lock is released, so a
    harmless request is refused: thread 1 waits for drm 12, which thread 2 owns,
    and thread 2 asks for drm 13, which nobody owns or wants. *)
Theorem drm_spurious_refusal :
  exists (c : system list_graph (list Z)) s', rtc (drm_step is_lock) (initial three_threads) c
    /\ (forall t, ~ adj (sys c) 13 t) /\ owner (sys c) !! 13 = None
    /\ drm_wait_request (sys c) 13 2 = Done (Some 0, s').
Proof.
  eexists _, _. split; [|split; [|split]].
  - do_init 11. do_init 12. do_init 13. do_request 2 12. do_lock 2 12. do_request 1 12. apply rtc_refl.
  - cbn. intros t (x & [= <-] & Ha). apply list_adjacent in Ha as (_ & _ & Ha). cbn in Ha.
    repeat (apply elem_of_cons in Ha as [Ha|Ha]; [discriminate Ha|]). by apply elem_of_nil in Ha.
  - reflexivity.
  - vm_compute. reflexivity.
Qed.

(** A drm must not be destroyed while a thread waits for it: that thread goes on with
    an edge that is gone. *)
Example destroy_while_waited_for :
  let s : drm_state list_graph (list Z) := DrmState (Some (ListGraph [1; 11] [(1, 11)])) None ∅ in
  exists s', drm_destroy s 11 = Done s' /\ drm_wait_acquired (set_owner s' {[ 11 := 1 ]}) 11 1 = Undef.
Proof. eexists. split; reflexivity. Qed.

(** Drm 12 is destroyed, drm 11 is taken by thread 1. *)
Definition one_taken : system list_graph (list Z) :=
  System (DrmState (Some (ListGraph [1; 11] [(11, 1)])) None {[ 11 := 1 ]}) three_threads.

Lemma three_threads_running t p : three_threads !! t = Some p -> p = Running /\ ~ is_lock t.
Proof.
  unfold three_threads, is_lock. rewrite !lookup_insert_Some, lookup_singleton_Some.
  intros [[<- <-]|[_ [[<- <-]|[_ [<- <-]]]]]; (split; [done|lia]).
Qed.

Lemma one_taken_reachable : rtc (drm_step is_lock) (initial three_threads) one_taken.
Proof.
  do_init 11. do_init 12.
  eapply rtc_l; [apply (step_destroy is_lock _ _ 12); [lock_id|by intros t p [Hp _]%three_threads_running|vm_compute; reflexivity]|].
  do_request 1 11. do_lock 1 11. apply rtc_refl.
Qed.

Lemma drm_mutual_exclusion_witness :
  (exists r s', drm_post (sys one_taken) 11 1 = Done (r, s')) /\ (exists r s', drm_wait_request (sys one_taken) 11 2 = Done (r, s'))
  /\ owner (sys one_taken) !! 11 = Some 1.
Proof.
  destruct (drm_mutual_exclusion is_lock three_threads one_taken three_threads_running one_taken_reachable) as (Hown & Hcalls & _).
  assert (Hv : vertex (sys one_taken) 11) by (eexists; split; reflexivity).
  assert (Hd : is_lock 11) by lock_id.
  assert (Ha : adj (sys one_taken) 11 1) by (eexists; split; reflexivity).
  split; [exact (proj1 (Hcalls 11 1 Hd Hv eq_refl))|]. split; [exact (proj2 (Hcalls 11 2 Hd Hv eq_refl))|].
  exact (proj2 (Hown 11 1 1 Hd Ha Ha)).
Defined.
