(* ===== verification/Minixfs.v ===== *)
(** * The file system of [finding_filesystems/]

    [minixfs_utils.c], [minixfs_provided.c] and [minixfs.c].  A file system is
    its superblock, its inode table, its data blocks (one byte memory, block [b]
    at [b * 16384]) and its data map; an inode pointer is its index in the table.
    Paths and names are byte lists without terminator.  [rng] holds the answers of
    [rand() % 2] still to come, [now] what [clock_gettime] returns, [errno] the
    variable of that name.  Opening and closing the image file (mmap) is not
    modelled; [minixfs_mkfs] is the file system it writes. *)

From stdpp Require Import strings.
From S2P Require Import Prelude CString CMem.
Open Scope Z_scope.

Definition INODES_NUMBER : Z := 1024.
Definition DATA_NUMBER : Z := 2048.
Definition FILE_NAME_LENGTH : Z := 248.
Definition FILE_NAME_ENTRY : Z := 256.
Definition UNASSIGNED_NODE : Z := -1.
Definition NUM_DIRECT_BLOCKS : Z := 11.
Definition NUM_INDIRECT_BLOCKS : Z := 4096.
Definition RWX_BITS_NUMBER : Z := 9.
Definition BLOCK_SIZE : Z := 16384.
Definition TYPE_FILE : Z := 1.
Definition TYPE_DIRECTORY : Z := 2.
Definition ENOENT : Z := 2.
Definition ENOSPC : Z := 28.
Definition ENOTDIR : Z := 20.

Record superblock := Superblock {
  sb_size : Z;
  inode_count : Z;
  dblock_count : Z;
}.

Record inode := Inode {
  uid : Z;
  gid : Z;
  mode : Z;
  nlink : Z;
  atim : Z;
  mtim : Z;
  ctim : Z;
  size : Z;
  direct : list Z;
  indirect : Z;
}.

Record file_system := Fs {
  meta : superblock;
  inodes : list inode;
  data : memory;
  data_map : list Z;
  rng : list bool;
  now : Z;
  errno : Z;
}.

Definition set_inodes (fs : file_system) (x : list inode) : file_system :=
  Fs (meta fs) x (data fs) (data_map fs) (rng fs) (now fs) (errno fs).
Definition set_data (fs : file_system) (x : memory) : file_system :=
  Fs (meta fs) (inodes fs) x (data_map fs) (rng fs) (now fs) (errno fs).
Definition set_data_map (fs : file_system) (x : list Z) : file_system :=
  Fs (meta fs) (inodes fs) (data fs) x (rng fs) (now fs) (errno fs).
Definition set_rng (fs : file_system) (x : list bool) : file_system :=
  Fs (meta fs) (inodes fs) (data fs) (data_map fs) x (now fs) (errno fs).
Definition set_errno (fs : file_system) (x : Z) : file_system :=
  Fs (meta fs) (inodes fs) (data fs) (data_map fs) (rng fs) (now fs) x.

Definition with_mode (n : inode) (x : Z) : inode :=
  Inode (uid n) (gid n) x (nlink n) (atim n) (mtim n) (ctim n) (size n) (direct n) (indirect n).
Definition with_nlink (n : inode) (x : Z) : inode :=
  Inode (uid n) (gid n) (mode n) x (atim n) (mtim n) (ctim n) (size n) (direct n) (indirect n).
Definition with_owner (n : inode) (u g : Z) : inode :=
  Inode u g (mode n) (nlink n) (atim n) (mtim n) (ctim n) (size n) (direct n) (indirect n).
Definition with_times (n : inode) (a m c : Z) : inode :=
  Inode (uid n) (gid n) (mode n) (nlink n) a m c (size n) (direct n) (indirect n).
Definition with_size (n : inode) (x : Z) : inode :=
  Inode (uid n) (gid n) (mode n) (nlink n) (atim n) (mtim n) (ctim n) x (direct n) (indirect n).
Definition with_direct (n : inode) (x : list Z) : inode :=
  Inode (uid n) (gid n) (mode n) (nlink n) (atim n) (mtim n) (ctim n) (size n) x (indirect n).
Definition with_indirect (n : inode) (x : Z) : inode :=
  Inode (uid n) (gid n) (mode n) (nlink n) (atim n) (mtim n) (ctim n) (size n) (direct n) x.

(** Access through an inode pointer. *)
Definition load_inode (fs : file_system) (i : Z) : outcome inode :=
  if (0 <=? i) then deref (inodes fs !! Z.to_nat i) else Undef.

Definition update_inode (i : Z) (f : inode -> inode) (fs : file_system) : outcome file_system :=
  let! n := load_inode fs i in Done (set_inodes fs (<[Z.to_nat i := f n]> (inodes fs))).

(** Data blocks: [n] bytes at address [a] must lie in the data region. *)
Definition in_data (fs : file_system) (a n : Z) : bool :=
  (0 <=? a) && (a + n <=? dblock_count (meta fs) * BLOCK_SIZE).

Definition read_data (fs : file_system) (a n : Z) : outcome (list Z) :=
  if in_data fs a n then Done (mread (data fs) a (Z.to_nat n)) else Undef.

Definition write_data (a : Z) (bs : list Z) (fs : file_system) : outcome file_system :=
  if in_data fs a (Z.of_nat (length bs)) then Done (set_data fs (mwrite (data fs) a bs)) else Undef.

(** [blocks[i]] of an indirect block [b]. *)
Definition load_block_number (fs : file_system) (b i : Z) : outcome Z :=
  if in_data fs (b * BLOCK_SIZE + 4 * i) 4 then Done (s32 (ld32 (data fs) (b * BLOCK_SIZE + 4 * i))) else Undef.

Definition store_block_number (b i v : Z) (fs : file_system) : outcome file_system :=
  if in_data fs (b * BLOCK_SIZE + 4 * i) 4
  then Done (set_data fs (st32 (data fs) (b * BLOCK_SIZE + 4 * i) (u32 v))) else Undef.

(** [direct[i]]. *)
Definition load_direct (n : inode) (i : Z) : outcome Z :=
  if (0 <=? i) then deref (direct n !! Z.to_nat i) else Undef.

(** ** [minixfs_utils.c] *)

Definition set_data_used (data_number : Z) (used : bool) (fs : file_system) : file_system :=
  if (data_number <? 0) || (dblock_count (meta fs) <=? data_number) then fs
  else set_data_map fs (<[Z.to_nat data_number := if used then 1 else 0]> (data_map fs)).

Definition free_data_block (data_number : Z) (fs : file_system) : file_system :=
  set_data_used data_number false fs.

Definition get_data_used (fs : file_system) (data_number : Z) : outcome Z :=
  if (data_number <? 0) || (dblock_count (meta fs) <=? data_number) then Done UNASSIGNED_NODE
  else deref (data_map fs !! Z.to_nat data_number).

Fixpoint free_direct_blocks (blocks : list Z) (fs : file_system) : file_system :=
  match blocks with
  | [] => fs
  | b :: blocks => free_direct_blocks blocks (if b =? UNASSIGNED_NODE then fs else free_data_block b fs)
  end.

(** The second loop runs over the first [n] entries of the indirect block [b]. *)
Fixpoint free_indirect_blocks (n : nat) (b i : Z) (fs : file_system) : outcome file_system :=
  match n with
  | O => Done fs
  | S n =>
      let! x := load_block_number fs b i in
      free_indirect_blocks n b (i + 1) (if x =? UNASSIGNED_NODE then fs else free_data_block x fs)
  end.

Definition free_inode (i : Z) (fs : file_system) : outcome file_system :=
  let! fs := update_inode i (fun n => with_nlink n 0) fs in
  let! n := load_inode fs i in
  let fs := free_direct_blocks (take 11 (direct n)) fs in
  let! fs :=
    if indirect n =? UNASSIGNED_NODE then Done fs
    else free_indirect_blocks 11 (indirect n) 0 fs in
  Done (free_data_block (indirect n) fs).

(** [for (i = 1; i < INODES_NUMBER; ++i)]. *)
Fixpoint first_unused_inode_loop (n : nat) (i : Z) (fs : file_system) : outcome Z :=
  match n with
  | O => Done (-1)
  | S n =>
      let! x := load_inode fs i in
      if s32 (nlink x) =? 0 then Done i else first_unused_inode_loop n (i + 1) fs
  end.

Definition first_unused_inode (fs : file_system) : outcome Z :=
  first_unused_inode_loop (Z.to_nat (INODES_NUMBER - 1)) 1 fs.

(** One pass over the data map: a block found, or the number of used ones. *)
Fixpoint scan_data_map (n : nat) (i filled : Z) (fs : file_system) : outcome (Z * file_system + Z * file_system) :=
  match n with
  | O => Done (inr (filled, fs))
  | S n =>
      let! used := get_data_used fs i in
      if used =? 0 then
        match rng fs with
        | [] => OutOfFuel
        | true :: coins => Done (inl (i, set_rng fs coins))
        | false :: coins => scan_data_map n (i + 1) filled (set_rng fs coins)
        end
      else scan_data_map n (i + 1) (filled + 1) fs
  end.

Fixpoint first_unused_data_loop (fuel : nat) (filled : Z) (fs : file_system) : outcome (Z * file_system) :=
  match fuel with
  | O => OutOfFuel
  | S fuel =>
      if filled <? dblock_count (meta fs) then
        let! r := scan_data_map (Z.to_nat (dblock_count (meta fs))) 0 0 fs in
        match r with
        | inl (i, fs) => Done (i, fs)
        | inr (filled, fs) => first_unused_data_loop fuel filled fs
        end
      else Done (-1, fs)
  end.

(** A pass that finds nothing consumes a coin unless every block is used. *)
Definition first_unused_data (fs : file_system) : outcome (Z * file_system) :=
  first_unused_data_loop (S (S (length (rng fs)))) 0 fs.

Definition SLASH : Z := 47.

(** Index of the last ['/']. *)
Fixpoint last_slash (path : list Z) (i : nat) (found : option nat) : option nat :=
  match path with
  | [] => found
  | c :: path => last_slash path (S i) (if c =? SLASH then Some i else found)
  end.

(** [strtok(path, "/")] repeatedly: the non-empty components. *)
Fixpoint tokens (path cur : list Z) : list (list Z) :=
  match path with
  | [] => if decide (cur = []) then [] else [rev cur]
  | c :: path =>
      if c =? SLASH then (if decide (cur = []) then tokens path [] else rev cur :: tokens path [])
      else tokens path (c :: cur)
  end.

Definition valid_filename (filename : list Z) : bool :=
  match filename with
  | [] => false
  | _ => forallb (fun c => negb (c =? SLASH)) filename
  end.

Definition is_file (n : inode) : bool := Z.shiftr (mode n) RWX_BITS_NUMBER =? TYPE_FILE.
Definition is_directory (n : inode) : bool := Z.shiftr (mode n) RWX_BITS_NUMBER =? TYPE_DIRECTORY.

Definition u16 (x : Z) : Z := x `mod` 65536.

Definition init_inode (parent init : Z) (fs : file_system) : outcome file_system :=
  let! p := load_inode fs parent in
  update_inode init (fun _ =>
    Inode (uid p) (gid p) (u16 (Z.lor (Z.shiftl TYPE_FILE RWX_BITS_NUMBER) (Z.land (mode p) 511))) 1
      (now fs) (now fs) (now fs) 0 (replicate 11 UNASSIGNED_NODE) UNASSIGNED_NODE) fs.

(** *** Directory entries: 248 bytes of name, 8 hexadecimal digits *)

Definition hex_digit_value (c : Z) : option Z :=
  if (48 <=? c) && (c <=? 57) then Some (c - 48)
  else if (97 <=? c) && (c <=? 102) then Some (c - 87)
  else if (65 <=? c) && (c <=? 70) then Some (c - 55)
  else None.

Fixpoint hex_digits_value (bs : list Z) (acc : Z) : Z :=
  match bs with
  | [] => acc
  | c :: bs => match hex_digit_value c with Some d => hex_digits_value bs (acc * 16 + d) | None => acc end
  end.

Definition is_space (c : Z) : bool := (c =? 32) || ((9 <=? c) && (c <=? 13)).

Fixpoint skip_spaces (bs : list Z) : list Z :=
  match bs with
  | c :: bs' => if is_space c then skip_spaces bs' else bs
  | [] => []
  end.

(** [strtoll(s, NULL, 16)] on at most eight characters (no overflow). *)
Definition strtoll16 (bs : list Z) : Z :=
  let bs := skip_spaces bs in
  let (neg, bs) := match bs with
                   | 45 :: bs => (true, bs)
                   | 43 :: bs => (false, bs)
                   | _ => (false, bs)
                   end in
  let bs := match bs with
            | 48 :: x :: c :: bs' =>
                if ((x =? 120) || (x =? 88)) && (match hex_digit_value c with Some _ => true | None => false end)
                then c :: bs' else bs
            | _ => bs
            end in
  let v := hex_digits_value bs 0 in
  if neg then - v else v.

(** A directory entry: the address of its name and its inode number. *)
Record minixfs_dirent := Dirent {
  name_addr : Z;
  inode_num : Z;
}.

(** [to_fill] is left as it was when the number is 0 ([None]: not initialised). *)
Definition make_dirent_from_string (fs : file_system) (block : Z) (to_fill : option minixfs_dirent)
  : outcome (option minixfs_dirent) :=
  let! digits := read_data fs (block + FILE_NAME_LENGTH) 8 in
  let offset := strtoll16 digits in
  if offset =? 0 then Done to_fill else Done (Some (Dirent block (s32 offset))).

Definition hex_digit (d : Z) : Z := if d <? 10 then 48 + d else 87 + d.

(** The [n] low hexadecimal digits, most significant first. *)
Fixpoint hex_low (n : nat) (x : Z) : list Z :=
  match n with
  | O => []
  | S n => hex_low n (x / 16) ++ [hex_digit (x `mod` 16)]
  end.

(** [sprintf("%08zx")]: eight digits, or as many as the value needs. *)
Fixpoint hex_width (fuel : nat) (x : Z) : nat :=
  match fuel with
  | O => 0%nat
  | S fuel => if x =? 0 then 0%nat else S (hex_width fuel (x / 16))
  end.

Definition sprintf_08zx (x : Z) : list Z := hex_low (Nat.max 8 (hex_width 16 x)) x.

(** [sprintf] also stores the terminator, one byte past the entry. *)
Definition make_string_from_dirent (block : Z) (name : list Z) (num : Z) (fs : file_system) : outcome file_system :=
  let cpy := take 248 name ++ replicate (248 - length name) 0 in
  let! fs := write_data block cpy fs in
  write_data (block + FILE_NAME_LENGTH) (sprintf_08zx (u64 num) ++ [0]) fs.

(** [strcmp(name, s) == 0] for the string at address [a]. *)
Fixpoint strcmp_eq (fs : file_system) (name : list Z) (a : Z) : outcome bool :=
  let! c := read_data fs a 1 in
  match name with
  | [] => Done (bool_decide (c = [0]))
  | x :: name => if bool_decide (c = [x]) then strcmp_eq fs name (a + 1) else Done false
  end.

(** The entries of one block, [n] to go; the remaining directory size is kept. *)
Fixpoint scan_block (n : nat) (fs : file_system) (name : list Z) (block size : Z) (node : option minixfs_dirent)
  : outcome (option Z * Z * option minixfs_dirent) :=
  match n with
  | O => Done (None, size, node)
  | S n =>
      if 0 <? size then
        let! node := make_dirent_from_string fs block node in
        let! d := deref node in
        let! eq := strcmp_eq fs name (name_addr d) in
        if (eq : bool) then Done (Some (inode_num d), size, node)
        else scan_block n fs name (block + FILE_NAME_ENTRY) (u64 (size - FILE_NAME_ENTRY)) node
      else Done (None, size, node)
  end.

(** Block [count] of the current block array: the direct one, or the indirect
    block [b]. *)
Definition array_entry (fs : file_system) (root : inode) (array : option Z) (count : Z) : outcome Z :=
  match array with
  | None => load_direct root count
  | Some b => load_block_number fs b count
  end.

Fixpoint find_loop (fuel : nat) (fs : file_system) (root : inode) (name : list Z)
    (size count : Z) (array : option Z) (node : option minixfs_dirent) : outcome (option Z) :=
  match fuel with
  | O => OutOfFuel
  | S fuel =>
      if 0 <? size then
        let! first := load_direct root count in
        if first =? UNASSIGNED_NODE then Done None
        else
          let! b := array_entry fs root array count in
          let! (found, size, node) := scan_block 64 fs name (b * BLOCK_SIZE) size node in
          match found with
          | Some i => Done (Some i)
          | None =>
              let count := count + 1 in
              if count =? NUM_DIRECT_BLOCKS then
                if indirect root =? UNASSIGNED_NODE then Done None
                else find_loop fuel fs root name size 0 (Some (indirect root)) node
              else find_loop fuel fs root name size count array node
          end
      else Done None
  end.

(** Every round reads at least one entry of the directory. *)
Definition find_inode_named (fs : file_system) (root : Z) (name : list Z) : outcome (option Z) :=
  let! r := load_inode fs root in
  find_loop (S (S (Z.to_nat (size r / FILE_NAME_ENTRY)))) fs r name (size r) 0 None None.

Fixpoint walk_path (fs : file_system) (toks : list (list Z)) (node : Z) : outcome (option Z) :=
  match toks with
  | [] => Done (Some node)
  | tok :: toks =>
      let! n := load_inode fs node in
      if negb (is_directory n) then Done None
      else
        let! r := find_inode_named fs node tok in
        match r with
        | Some node => walk_path fs toks node
        | None => Done None
        end
  end.

(** The inode number, [None] for [NULL]. *)
Definition get_inode (fs : file_system) (path : list Z) : outcome (option Z) :=
  match path with
  | [] => Done (Some 0)
  | c :: _ => if negb (c =? SLASH) then Done None else walk_path fs (tokens path []) 0
  end.

(** The parent and the file name; without a slash the search runs off the string. *)
Definition parent_directory (fs : file_system) (path : list Z) : outcome (option Z * list Z) :=
  let! endptr := deref (last_slash path 0 None) in
  let! nody := get_inode fs (take (S endptr) path) in
  Done (nody, drop (S endptr) path).

Definition minixfs_mkfs (coins : list bool) (time : Z) : file_system :=
  let root := Inode 0 0 (Z.lor 493 (Z.shiftl TYPE_DIRECTORY RWX_BITS_NUMBER)) 1 time time time 0
                (replicate 11 UNASSIGNED_NODE) UNASSIGNED_NODE in
  let zero := Inode 0 0 0 0 0 0 0 0 (replicate 11 0) 0 in
  Fs (Superblock (24 + DATA_NUMBER + 120 * INODES_NUMBER + BLOCK_SIZE * DATA_NUMBER) INODES_NUMBER DATA_NUMBER)
    (root :: replicate 1023 zero) (fun _ => 0) (replicate 2048 0) coins time 0.

(** [NULL], or the rest of the path. *)
Definition is_virtual_path (path : list Z) : option (list Z) :=
  let v := bytes_of_string "/virtual" in
  if bool_decide (path = v) then Some []
  else if bool_decide (take 8 path = v) then
    match drop 8 path with
    | c :: rest => if c =? SLASH then Some rest else None
    | [] => None
    end
  else None.

(** ** [minixfs_provided.c], first part *)

(** Index of the first [-1] among the direct blocks. *)
Definition add_data_block_to_inode (node : Z) (fs : file_system) : outcome (Z * file_system) :=
  let! n := load_inode fs node in
  match list_find (fun b => b = -1) (take 11 (direct n)) with
  | None => Done (0, fs)
  | Some (i, _) =>
      let! (first_data, fs) := first_unused_data fs in
      if first_data =? -1 then Done (-1, fs)
      else
        let! fs := update_inode node (fun n => with_direct n (<[i := first_data]> (direct n))) fs in
        Done (first_data, set_data_used first_data true fs)
  end.

(** [n] entries of the indirect block [blocks] to go, from entry [i] on. *)
Fixpoint add_to_indirect_loop (n : nat) (blocks i : Z) (fs : file_system) : outcome (Z * file_system) :=
  match n with
  | O => Done (0, fs)
  | S n =>
      let! b := load_block_number fs blocks i in
      if b =? UNASSIGNED_NODE then
        let! (first_data, fs) := first_unused_data fs in
        if first_data =? -1 then Done (-1, fs)
        else
          let! fs := store_block_number blocks i first_data fs in
          Done (first_data, set_data_used first_data true fs)
      else add_to_indirect_loop n blocks (i + 1) fs
  end.

Definition add_data_block_to_indirect_block (blocks : Z) (fs : file_system) : outcome (Z * file_system) :=
  add_to_indirect_loop (Z.to_nat NUM_INDIRECT_BLOCKS) blocks 0 fs.

Definition add_single_indirect_block (node : Z) (fs : file_system) : outcome (Z * file_system) :=
  let! n := load_inode fs node in
  if negb (indirect n =? UNASSIGNED_NODE) then Done (0, fs)
  else
    let! (first_data, fs) := first_unused_data fs in
    if first_data =? -1 then Done (-1, fs)
    else
      let! fs := update_inode node (fun n => with_indirect n first_data) fs in
      let fs := set_data_used first_data true fs in
      let! fs := update_inode node (fun n => with_nlink n 1) fs in
      (* every entry becomes -1: all bytes 255 *)
      if in_data fs (first_data * BLOCK_SIZE) BLOCK_SIZE
      then Done (0, set_data fs (memset (data fs) (first_data * BLOCK_SIZE) 255 BLOCK_SIZE))
      else Undef.

(** ** [minixfs.c], first part *)

Definition get_min (x y : Z) : Z := if x <? y then x else y.
Definition get_max (x y : Z) : Z := if y <? x then x else y.

(** The block number the code finds for block [b_idx] of a file. *)
Definition block_of (fs : file_system) (n : inode) (b_idx : Z) : outcome Z :=
  if b_idx <? NUM_DIRECT_BLOCKS then load_direct n b_idx
  else load_block_number fs (indirect n) (b_idx - NUM_DIRECT_BLOCKS).

(** The address of the block. *)
Definition get_block (fs : file_system) (n : inode) (b_idx : Z) : outcome Z :=
  let! b := block_of fs n b_idx in Done (b * BLOCK_SIZE).

Definition minixfs_chmod (fs : file_system) (path : list Z) (new_permissions : Z) : outcome (Z * file_system) :=
  let! r := get_inode fs path in
  match r with
  | None => Done (-1, set_errno fs ENOENT)
  | Some i =>
      let! fs := update_inode i (fun n =>
        let type := Z.shiftr (mode n) RWX_BITS_NUMBER in
        with_mode n (u16 (Z.lor new_permissions (Z.shiftl type RWX_BITS_NUMBER)))) fs in
      let! fs := update_inode i (fun n => with_times n (atim n) (mtim n) (now fs)) fs in
      Done (0, fs)
  end.

Definition NO_ID : Z := 4294967295.

Definition minixfs_chown (fs : file_system) (path : list Z) (owner group : Z) : outcome (Z * file_system) :=
  let! r := get_inode fs path in
  match r with
  | None => Done (-1, set_errno fs ENOENT)
  | Some i =>
      let! fs := update_inode i (fun n =>
        with_owner n (if owner =? NO_ID then uid n else owner) (if group =? NO_ID then gid n else group)) fs in
      let! fs := update_inode i (fun n => with_times n (atim n) (mtim n) (now fs)) fs in
      Done (0, fs)
  end.

(** The block a new entry of the directory goes to ([-1]: none). *)
Definition entry_block (parent num_blocks rem : Z) (fs : file_system) : outcome (Z * file_system) :=
  let! p := load_inode fs parent in
  if negb (rem =? 0) then
    let! b := if indirect p =? UNASSIGNED_NODE then load_direct p num_blocks
              else load_block_number fs (indirect p) (num_blocks - NUM_DIRECT_BLOCKS) in
    Done (b, fs)
  else if indirect p =? UNASSIGNED_NODE then add_data_block_to_inode parent fs
  else add_data_block_to_indirect_block (indirect p) fs.

Definition minixfs_create_inode_for_path (path : list Z) (fs : file_system) : outcome (option Z * file_system) :=
  let! node := get_inode fs path in
  match node with
  | Some _ => Done (None, fs)
  | None =>
      let! new_node_idx := first_unused_inode fs in
      if new_node_idx =? -1 then Done (None, fs)
      else
        let! (parent, filename) := parent_directory fs path in
        if negb (valid_filename filename) then Done (None, fs)
        else
          let! parent := deref parent in
          let! p := load_inode fs parent in
          let num_blocks := s32 (size p / BLOCK_SIZE) in
          let rem := size p `mod` BLOCK_SIZE in
          let! (try_add_indirect, fs) :=
            if (NUM_DIRECT_BLOCKS <=? num_blocks) && (indirect p =? UNASSIGNED_NODE)
            then add_single_indirect_block parent fs else Done (0, fs) in
          if try_add_indirect =? -1 then Done (None, fs)
          else
            let! fs := init_inode parent new_node_idx fs in
            let! (req, fs) := entry_block parent num_blocks rem fs in
            if (rem =? 0) && (req =? -1) then Done (None, fs)
            else
              let! fs := make_string_from_dirent (req * BLOCK_SIZE) filename new_node_idx fs in
              let! fs := update_inode parent (fun n => with_size n (u64 (size n + FILE_NAME_ENTRY))) fs in
              Done (Some new_node_idx, fs)
  end.

(** ** [minixfs_provided.c], second part *)

(** Allocate and zero the missing ones among the first blocks, [n] to go. *)
Fixpoint fill_direct (n : nat) (i node : Z) (fs : file_system) : outcome (Z * file_system) :=
  match n with
  | O => Done (0, fs)
  | S n =>
      let! x := load_inode fs node in
      let! b := load_direct x i in
      if b =? -1 then
        let! (err, fs) := add_data_block_to_inode node fs in
        if err =? -1 then Done (-1, fs)
        else
          let! x := load_inode fs node in
          let! b := load_direct x i in
          if in_data fs (b * BLOCK_SIZE) BLOCK_SIZE then
            fill_direct n (i + 1) node (set_data fs (memset (data fs) (b * BLOCK_SIZE) 0 BLOCK_SIZE))
          else Undef
      else fill_direct n (i + 1) node fs
  end.

Fixpoint fill_indirect (n : nat) (i blocks : Z) (fs : file_system) : outcome (Z * file_system) :=
  match n with
  | O => Done (0, fs)
  | S n =>
      let! b := load_block_number fs blocks i in
      if b =? -1 then
        let! (err, fs) := add_data_block_to_indirect_block blocks fs in
        if err =? -1 then Done (-1, fs)
        else
          let! b := load_block_number fs blocks i in
          if in_data fs (b * BLOCK_SIZE) BLOCK_SIZE then
            fill_indirect n (i + 1) blocks (set_data fs (memset (data fs) (b * BLOCK_SIZE) 0 BLOCK_SIZE))
          else Undef
      else fill_indirect n (i + 1) blocks fs
  end.

Definition minixfs_min_blockcount (path : list Z) (block_count : Z) (fs : file_system) : outcome (Z * file_system) :=
  let! r := get_inode fs path in
  let! (r, fs) := match r with
                  | Some i => Done (Some i, fs)
                  | None => minixfs_create_inode_for_path path fs
                  end in
  match r with
  | None => Done (-1, fs)
  | Some node =>
      if block_count <? NUM_DIRECT_BLOCKS then fill_direct (Z.to_nat block_count) 0 node fs
      else
        let! (err, fs) := fill_direct 11 0 node fs in
        if err =? -1 then Done (-1, fs)
        else
          let! (err, fs) := add_single_indirect_block node fs in
          if err =? -1 then Done (-1, fs)
          else
            let! x := load_inode fs node in
            fill_indirect (Z.to_nat (block_count - NUM_DIRECT_BLOCKS)) 0 (indirect x) fs
  end.

Definition TEST (set flag : Z) : bool := Z.land set flag =? flag.
Definition O_CREAT : Z := 64.

Definition virtual_path_names : list (list Z) := [bytes_of_string "info"].

Definition is_virtual_name (p : list Z) : bool := existsb (fun n => bool_decide (p = n)) virtual_path_names.

Definition minixfs_open (fs : file_system) (path : list Z) (flags : Z) : outcome (Z * file_system) :=
  match is_virtual_path path with
  | Some [] => Done (0, fs)
  | Some v => Done (if is_virtual_name v then 0 else 1, fs)
  | None =>
      let! r := get_inode fs path in
      match r with
      | None =>
          let! (created, fs) :=
            if TEST flags O_CREAT then minixfs_create_inode_for_path path fs else Done (None, fs) in
          match created with
          | Some _ => Done (0, fs)
          | None => Done (-1, set_errno fs ENOENT)
          end
      | Some i =>
          let! fs := update_inode i (fun n => with_times n (now fs) (mtim n) (ctim n)) fs in
          Done (0, fs)
      end
  end.

Definition minixfs_access (fs : file_system) (path : list Z) (md : Z) : outcome Z :=
  let! r := get_inode fs path in
  match r with
  | None => Done (-1)
  | Some i =>
      let! n := load_inode fs i in
      if md =? 0 then Done 0
      else
        let orig_mode := Z.land (mode n) 511 in
        let denied r flag := TEST md r && negb (TEST orig_mode flag) in
        Done (if denied 4 256 || denied 2 128 || denied 1 64 then -1 else 0)
  end.

Definition minixfs_mkdir (path : list Z) (md : Z) (fs : file_system) : outcome (Z * file_system) :=
  let! (r, fs) := minixfs_create_inode_for_path path fs in
  match r with
  | None => Done (-1, fs)
  | Some i =>
      let! fs := update_inode i (fun n =>
        let oldbits := Z.land (mode n) 511 in
        with_mode n (u16 (Z.lor (Z.lor (Z.shiftl TYPE_DIRECTORY RWX_BITS_NUMBER) oldbits) md))) fs in
      Done (0, fs)
  end.

(** The inner loop of [minixfs_unlink] over a block at [blocky], from byte [temp]
    on: whether the entry was found (and moved over) and the bytes passed. *)
Fixpoint unlink_block (n : nat) (target_ino blocky temp size : Z) (dirents : option minixfs_dirent) (fs : file_system)
  : outcome (bool * Z * option minixfs_dirent * file_system) :=
  match n with
  | O => Done (false, temp, dirents, fs)
  | S n =>
      if (temp <? BLOCK_SIZE) && (temp <? size) then
        let! dirents := make_dirent_from_string fs (blocky + temp) dirents in
        let! d := deref dirents in
        if inode_num d =? target_ino then
          let! rest := read_data fs (blocky + temp + FILE_NAME_ENTRY) (BLOCK_SIZE - temp - FILE_NAME_ENTRY) in
          let! fs := write_data (blocky + temp) rest fs in
          Done (true, temp, dirents, fs)
        else unlink_block n target_ino blocky (temp + FILE_NAME_ENTRY) size dirents fs
      else Done (false, temp, dirents, fs)
  end.

(** The outer loop; after the direct blocks it goes on in the indirect block of
    the removed node itself. *)
Fixpoint unlink_loop (fuel : nat) (target_ino : Z) (parent node : inode) (size count : Z) (array : option Z)
    (dirents : option minixfs_dirent) (fs : file_system) : outcome file_system :=
  match fuel with
  | O => OutOfFuel
  | S fuel =>
      if 0 <? size then
        let! b := array_entry fs parent array count in
        let! (found, temp, dirents, fs) := unlink_block 64 target_ino (b * BLOCK_SIZE) 0 size dirents fs in
        if (found : bool) then Done fs
        else
          let count := count + 1 in
          let size := u64 (size - temp) in
          if count =? NUM_DIRECT_BLOCKS then
            if indirect node =? UNASSIGNED_NODE then Done fs
            else unlink_loop fuel target_ino parent node size 0 (Some (indirect node)) dirents fs
          else unlink_loop fuel target_ino parent node size count array dirents fs
      else Done fs
  end.

Definition minixfs_unlink (path : list Z) (fs : file_system) : outcome (Z * file_system) :=
  let! r := get_inode fs path in
  match r with
  | None => Done (-1, fs)
  | Some node =>
      let! n := load_inode fs node in
      let! (parent, _) := parent_directory fs path in
      let! parent := deref parent in
      let! p := load_inode fs parent in
      let! fs := unlink_loop (S (Z.to_nat (size p / FILE_NAME_ENTRY))) node p n (size p) 0 None None fs in
      let! fs := update_inode parent (fun p => with_size p (u64 (size p - FILE_NAME_ENTRY))) fs in
      let! fs := free_inode node fs in
      Done (0, fs)
  end.

Record stat := Stat {
  st_size : Z;
  st_blksize : Z;
  st_blocks : Z;
  st_nlink : Z;
  st_mode : Z;
  st_uid : Z;
  st_gid : Z;
  st_atim : Z;
  st_mtim : Z;
  st_ctim : Z;
  st_ino : Z;
  st_dev : Z;
}.

Definition S_IFDIR : Z := 16384.
Definition S_IFREG : Z := 32768.

Definition minixfs_stat_virtual : stat := Stat 0 0 0 0 (Z.lor 511 S_IFDIR) 0 0 0 0 0 0 0.
Definition minixfs_stat_virtual_path : stat := Stat 0 0 0 0 (Z.lor 511 S_IFREG) 0 0 0 0 0 0 0.

Definition minixfs_stat (fs : file_system) (path : list Z) : outcome (Z * option stat * file_system) :=
  match is_virtual_path path with
  | Some [] => Done (0, Some minixfs_stat_virtual, fs)
  | Some v =>
      if is_virtual_name v then Done (0, Some minixfs_stat_virtual_path, fs)
      else Done (1, None, set_errno fs ENOENT)
  | None =>
      let! r := get_inode fs path in
      match r with
      | None => Done (-1, None, fs)
      | Some i =>
          let! n := load_inode fs i in
          Done (0, Some (Stat (size n) BLOCK_SIZE (u64 (size n + BLOCK_SIZE - 1) / BLOCK_SIZE) (nlink n)
            (Z.lor (Z.land (mode n) 511) (if is_directory n then S_IFDIR else S_IFREG))
            (uid n) (gid n) (atim n) (mtim n) (ctim n) i 0), fs)
      end
  end.

(** *** Reading a directory; an entry is its inode number and name *)

Definition minixfs_readdir_virtual (virtual_path : list Z) : option (list (Z * list Z)) :=
  match virtual_path with
  | [] => Some (map (fun n => (0, n)) virtual_path_names)
  | _ => None
  end.

(** The name at [a], which must fit [d_name] with its terminator. *)
Definition entry_name (fs : file_system) (a : Z) : outcome (list Z) :=
  let! bs := read_data fs a 255 in
  let! s := deref (cstr_of bs) in
  Done (removelast s).

Fixpoint readdir_block (n : nat) (blocky temp size : Z) (dirents : option minixfs_dirent) (fs : file_system)
    (entries : list (Z * list Z)) : outcome (Z * option minixfs_dirent * list (Z * list Z)) :=
  match n with
  | O => Done (temp, dirents, entries)
  | S n =>
      if (temp <? BLOCK_SIZE) && (temp <? size) then
        let! dirents := make_dirent_from_string fs (blocky + temp) dirents in
        let! d := deref dirents in
        let! name := entry_name fs (name_addr d) in
        readdir_block n blocky (temp + FILE_NAME_ENTRY) size dirents fs (entries ++ [(inode_num d, name)])
      else Done (temp, dirents, entries)
  end.

Fixpoint readdir_loop (fuel : nat) (node : inode) (size count : Z) (array : option Z)
    (dirents : option minixfs_dirent) (fs : file_system) (entries : list (Z * list Z)) : outcome (list (Z * list Z)) :=
  match fuel with
  | O => OutOfFuel
  | S fuel =>
      if 0 <? size then
        let! b := array_entry fs node array count in
        let! (temp, dirents, entries) := readdir_block 64 (b * BLOCK_SIZE) 0 size dirents fs entries in
        let count := count + 1 in
        let size := u64 (size - temp) in
        if count =? NUM_DIRECT_BLOCKS then
          if indirect node =? UNASSIGNED_NODE then Done entries
          else readdir_loop fuel node size 0 (Some (indirect node)) dirents fs entries
        else readdir_loop fuel node size count array dirents fs entries
      else Done entries
  end.

Definition minixfs_readdir (fs : file_system) (path : list Z) : outcome (option (list (Z * list Z)) * file_system) :=
  match is_virtual_path path with
  | Some v =>
      match minixfs_readdir_virtual v with
      | Some es => Done (Some es, fs)
      | None => Done (None, set_errno fs ENOENT)
      end
  | None =>
      let! r := get_inode fs path in
      match r with
      | None => Done (None, set_errno fs ENOENT)
      | Some i =>
          let! fs := update_inode i (fun n => with_times n (now fs) (mtim n) (ctim n)) fs in
          let! n := load_inode fs i in
          if is_file n then Done (None, set_errno fs ENOTDIR)
          else
            let first := if bool_decide (path = [SLASH]) then [(0, bytes_of_string "virtual")] else [] in
            let! es := readdir_loop (S (S (Z.to_nat (size n / FILE_NAME_ENTRY)))) n (size n) 0 None None fs first in
            Done (Some es, fs)
      end
  end.

(** ** [minixfs.c], second part *)

Definition block_info_string (num_used_blocks : Z) : list Z :=
  let curr_free_blocks := DATA_NUMBER - num_used_blocks in
  bytes_of_string "Free blocks: " ++ decimal curr_free_blocks ++ [10]
  ++ bytes_of_string "Used blocks: " ++ decimal num_used_blocks ++ [10].

Definition blocks_used (fs : file_system) : Z :=
  Z.of_nat (length (filter (fun u => u = 1) (take (Z.to_nat (dblock_count (meta fs))) (data_map fs)))).

(** Returns the count, the bytes copied and the new offset; the copy must stay in
    the string ([block_info_str + *off] for [to_read] bytes, terminator included). *)
Definition minixfs_virtual_read (fs : file_system) (path : list Z) (count off : Z)
  : outcome (Z * list Z * Z * file_system) :=
  if bool_decide (path = bytes_of_string "info") then
    let block_info_str := block_info_string (blocks_used fs) in
    let len := Z.of_nat (length block_info_str) in
    let to_read := get_min (u64 (len - off)) count in
    if (0 <=? off) && (off + to_read <=? len + 1) then
      Done (to_read, take (Z.to_nat to_read) (drop (Z.to_nat off) (block_info_str ++ [0])), off + to_read, fs)
    else Undef
  else Done (-1, [], off, set_errno fs ENOENT).

Definition get_ceil (quotient dividend : Z) : Z :=
  Z.quot quotient dividend + (if Z.rem quotient dividend =? 0 then 0 else 1).

Definition MAX_SIZE : Z := (NUM_DIRECT_BLOCKS + NUM_INDIRECT_BLOCKS) * BLOCK_SIZE.

(** [memcpy(blk, buf, n)]. *)
Definition copy_in (blk : Z) (buf : list Z) (n : Z) (fs : file_system) : outcome file_system :=
  if Z.of_nat (length buf) <? n then Undef else write_data blk (take (Z.to_nat n) buf) fs.

Fixpoint write_loop (fuel : nat) (node : Z) (buf : list Z) (count bytes_wrote off b_idx : Z) (fs : file_system)
  : outcome (Z * Z * file_system) :=
  match fuel with
  | O => OutOfFuel
  | S fuel =>
      if bytes_wrote <? count then
        let! n := load_inode fs node in
        let! blk := get_block fs n b_idx in
        let to_write := get_min BLOCK_SIZE (count - bytes_wrote) in
        let! fs := copy_in blk buf to_write fs in
        write_loop fuel node buf count (bytes_wrote + to_write) (off + to_write) (b_idx + 1) fs
      else Done (bytes_wrote, off, fs)
  end.

(** Returns the count, the new offset and the file system. *)
Definition minixfs_write (fs : file_system) (path buf : list Z) (count off : Z) : outcome (Z * Z * file_system) :=
  if MAX_SIZE <? u64 (off + count) then Done (-1, off, set_errno fs ENOSPC)
  else
    let! node := get_inode fs path in
    let! (node, fs) := match node with
                       | Some i => Done (Some i, fs)
                       | None => minixfs_create_inode_for_path path fs
                       end in
    let blocks_required := get_ceil (s32 (off + count)) BLOCK_SIZE in
    let! (r, fs) := minixfs_min_blockcount path blocks_required fs in
    if r =? -1 then Done (-1, off, set_errno fs ENOSPC)
    else
      let! node := deref node in
      let b_idx := u64 off / BLOCK_SIZE in
      let b_off := u64 off `mod` BLOCK_SIZE in
      let to_write := get_min count (BLOCK_SIZE - b_off) in
      let! n := load_inode fs node in
      let! blk := get_block fs n b_idx in
      let! fs := copy_in (blk + b_off) buf to_write fs in
      let! (bytes_wrote, off, fs) :=
        write_loop (S (Z.to_nat (count / BLOCK_SIZE + 1))) node buf count to_write (off + to_write) (b_idx + 1) fs in
      let! fs := update_inode node (fun n => with_size n (get_max (size n) (u64 off))) fs in
      let! fs := update_inode node (fun n => with_times n (now fs) (now fs) (ctim n)) fs in
      Done (bytes_wrote, off, fs).

Fixpoint read_loop (fuel : nat) (fs : file_system) (n : inode) (count bytes_read off b_idx : Z) (buf : list Z)
  : outcome (Z * Z * list Z) :=
  match fuel with
  | O => OutOfFuel
  | S fuel =>
      if bytes_read <? count then
        let! blk := get_block fs n b_idx in
        let to_read := get_min BLOCK_SIZE (count - bytes_read) in
        let! bs := read_data fs blk to_read in
        read_loop fuel fs n count (bytes_read + to_read) (off + to_read) (b_idx + 1) (buf ++ bs)
      else Done (bytes_read, off, buf)
  end.

(** Returns the count, the bytes stored into the buffer, the new offset. *)
Definition minixfs_read (fs : file_system) (path : list Z) (count off : Z) : outcome (Z * list Z * Z * file_system) :=
  match is_virtual_path path with
  | Some v => minixfs_virtual_read fs v count off
  | None =>
      let! r := get_inode fs path in
      match r with
      | None => Done (-1, [], off, set_errno fs ENOENT)
      | Some i =>
          let! n := load_inode fs i in
          if size n <=? u64 off then Done (0, [], off, fs)
          else
            let count := get_min count (u64 (size n - off)) in
            let b_idx := u64 off / BLOCK_SIZE in
            let b_off := u64 off `mod` BLOCK_SIZE in
            let! blk := get_block fs n b_idx in
            let rem_to_read := BLOCK_SIZE - b_off in
            let to_read := get_min rem_to_read count in
            let! bs := read_data fs (blk + b_off) to_read in
            let! (bytes_read, off, buf) :=
              read_loop (S (Z.to_nat (count / BLOCK_SIZE + 1))) fs n count to_read (off + to_read) (b_idx + 1) bs in
            let! fs := update_inode i (fun n => with_times n (now fs) (mtim n) (ctim n)) fs in
            Done (bytes_read, buf, off, fs)
      end
  end.
