(* ===== verification/MinixfsSpec.v ===== *)
(** * Correctness of the file system

    A file is the sequence of bytes its blocks hold.  Reading returns exactly the
    bytes asked for; writing within one block replaces exactly the bytes given,
    while a write across blocks repeats the beginning of the buffer; a directory
    entry is read back as it was written; and creating a second file in a
    directory hides the first. *)

From stdpp Require Import strings.
From S2P Require Import Prelude CString CMem Minixfs.
Open Scope Z_scope.

(** ** Blocks of a file *)

(** The number of block [k] of the file ([-1] when the code would fault). *)
Definition block_num (fs : file_system) (n : inode) (k : Z) : Z :=
  match block_of fs n k with Done b => b | _ => -1 end.

(** The address of byte [o] of the file. *)
Definition byte_addr (fs : file_system) (n : inode) (o : Z) : Z :=
  block_num fs n (o / BLOCK_SIZE) * BLOCK_SIZE + o `mod` BLOCK_SIZE.

Fixpoint file_bytes (fs : file_system) (n : inode) (off : Z) (len : nat) : list Z :=
  match len with
  | O => []
  | S len => data fs (byte_addr fs n off) :: file_bytes fs n (off + 1) len
  end.

(** The file has its first [c] blocks: distinct data blocks, none of them the
    indirect block, which exists when it is needed. *)
Record has_blocks (fs : file_system) (n : inode) (c : Z) : Prop := {
  hb_max : 0 <= c <= 4107;
  hb_count : 0 <= dblock_count (meta fs);
  hb_valid : forall k, 0 <= k < c -> exists b, block_of fs n k = Done b /\ 0 <= b < dblock_count (meta fs) /\ b <> indirect n;
  hb_inj : forall k k', 0 <= k < c -> 0 <= k' < c -> block_num fs n k = block_num fs n k' -> k = k';
  hb_indirect : 11 <= c -> 0 <= indirect n < dblock_count (meta fs);
}.

Lemma block_num_ok fs n c k :
  has_blocks fs n c -> 0 <= k < c ->
  block_of fs n k = Done (block_num fs n k) /\ 0 <= block_num fs n k < dblock_count (meta fs) /\ block_num fs n k <> indirect n.
Proof. intros Hb Hk. destruct (hb_valid fs n c Hb k Hk) as (b & Hbo & Hr & Hi). unfold block_num. by rewrite Hbo. Qed.

Lemma block_in_data fs b a len :
  0 <= b < dblock_count (meta fs) -> 0 <= a -> 0 <= len -> a + len <= BLOCK_SIZE -> in_data fs (b * BLOCK_SIZE + a) len = true.
Proof.
  intros Hb Ha Hl Hs. unfold in_data, BLOCK_SIZE in *. apply andb_true_iff. split; apply Z.leb_le; nia.
Qed.

Lemma div_in_block off j : 0 <= off -> 0 <= j -> off `mod` BLOCK_SIZE + j < BLOCK_SIZE ->
  (off + j) / BLOCK_SIZE = off / BLOCK_SIZE /\ (off + j) `mod` BLOCK_SIZE = off `mod` BLOCK_SIZE + j.
Proof. unfold BLOCK_SIZE. intros. split; Z.div_mod_to_equations; lia. Qed.

(** Bytes of one block are contiguous in memory. *)
Lemma file_bytes_block fs n off len :
  0 <= off -> off `mod` BLOCK_SIZE + Z.of_nat len <= BLOCK_SIZE ->
  file_bytes fs n off len = mread (data fs) (byte_addr fs n off) len.
Proof.
  revert off. induction len as [|len IH]; intros off Ho Hl; [done|].
  change (mread ?m ?a (S len)) with (m a :: mread m (a + 1) len). cbn [file_bytes]. f_equal.
  destruct len as [|len]; [done|].
  destruct (div_in_block off 1 Ho ltac:(lia) ltac:(lia)) as [Hd Hm].
  rewrite IH by lia. f_equal. unfold byte_addr. rewrite Hd, Hm. lia.
Qed.

Lemma file_bytes_app fs n off a b :
  file_bytes fs n off (a + b) = file_bytes fs n off a ++ file_bytes fs n (off + Z.of_nat a) b.
Proof.
  revert off. induction a as [|a IH]; intros off; cbn [file_bytes Nat.add app]; [f_equal; lia|].
  f_equal. rewrite IH. f_equal. f_equal. lia.
Qed.

Lemma length_file_bytes fs n off len : length (file_bytes fs n off len) = len.
Proof. revert off. induction len as [|len IH]; intros off; cbn; [done|]. by rewrite IH. Qed.

Lemma get_min_min x y : get_min x y = Z.min x y.
Proof. unfold get_min. case_bool; lia. Qed.

Lemma get_max_max x y : get_max x y = Z.max x y.
Proof. unfold get_max. case_bool; lia. Qed.

(** ** Reading *)

Lemma read_loop_ok fuel fs n c count br off buf :
  has_blocks fs n c -> 0 <= br <= count -> 0 <= off -> off `mod` BLOCK_SIZE = 0 \/ br = count ->
  off + (count - br) <= c * BLOCK_SIZE -> (Z.to_nat ((count - br + BLOCK_SIZE - 1) / BLOCK_SIZE) < fuel)%nat ->
  read_loop fuel fs n count br off (off / BLOCK_SIZE) buf
  = Done (count, off + (count - br), buf ++ file_bytes fs n off (Z.to_nat (count - br))).
Proof.
  intros Hb. revert br off buf. induction fuel as [|fuel IH]; intros br off buf Hbr Ho Hm Hc Hf; [lia|].
  cbn [read_loop]. destruct (br <? count) eqn:E; bool_to_prop.
  - destruct Hm as [Hm|Hm]; [|lia]. rewrite get_min_min. set (t := Z.min BLOCK_SIZE (count - br)).
    assert (Ht : 0 < t <= BLOCK_SIZE) by (unfold t, BLOCK_SIZE in *; lia).
    assert (Hk : 0 <= off / BLOCK_SIZE < c) by (unfold BLOCK_SIZE in *; Z.div_mod_to_equations; lia).
    destruct (block_num_ok fs n c _ Hb Hk) as (Hbo & Hr & _). unfold get_block. rewrite Hbo. cbn [obind].
    unfold read_data. rewrite <- (Z.add_0_r (_ * BLOCK_SIZE)), block_in_data by (try done; lia). cbn [obind].
    rewrite Z.add_0_r.
    assert (Hchunk : mread (data fs) (block_num fs n (off / BLOCK_SIZE) * BLOCK_SIZE) (Z.to_nat t) = file_bytes fs n off (Z.to_nat t)).
    { rewrite file_bytes_block by lia. unfold byte_addr. rewrite Hm. f_equal. lia. }
    rewrite Hchunk.
    assert (Hnext : off / BLOCK_SIZE + 1 = (off + t) / BLOCK_SIZE \/ br + t = count).
    { unfold t, BLOCK_SIZE in *. destruct (Z.le_gt_cases 16384 (count - br)); [left|right; lia].
      rewrite Z.min_l by lia. Z.div_mod_to_equations. lia. }
    destruct (Z.eq_dec (br + t) count) as [Hend|Hmore].
    + destruct fuel as [|fuel].
      { exfalso. unfold BLOCK_SIZE in *. assert (1 <= (count - br + 16384 - 1) / 16384) by (apply Z.div_le_lower_bound; lia). lia. }
      cbn [read_loop]. rewrite (proj2 (Z.ltb_ge _ _)) by lia.
      replace (count - br) with t by lia. rewrite Hend. done.
    + destruct Hnext as [Hnext|]; [|done]. rewrite Hnext.
      assert (HtB : t = BLOCK_SIZE) by (unfold t in *; lia).
      rewrite IH.
      * replace (off + t + (count - (br + t))) with (off + (count - br)) by lia. do 2 f_equal.
        rewrite <- app_assoc. f_equal. replace (Z.to_nat (count - br)) with (Z.to_nat t + Z.to_nat (count - (br + t)))%nat by lia.
        rewrite file_bytes_app. f_equal. f_equal. lia.
      * lia.
      * lia.
      * left. rewrite HtB. unfold BLOCK_SIZE in *. Z.div_mod_to_equations; lia.
      * lia.
      * rewrite HtB. unfold BLOCK_SIZE in *.
        assert ((count - br + 16384 - 1) / 16384 = (count - (br + 16384) + 16384 - 1) / 16384 + 1) by (Z.div_mod_to_equations; lia).
        assert (0 <= (count - (br + 16384) + 16384 - 1) / 16384) by (apply Z.div_pos; lia). lia.
  - replace (count - br) with 0 by lia. cbn. rewrite app_nil_r, Z.add_0_r. f_equal. f_equal. f_equal. lia.
Qed.

(** The bytes read, and the time of the access. *)
Lemma minixfs_read_exact fs path i n count off :
  is_virtual_path path = None -> get_inode fs path = Done (Some i) -> load_inode fs i = Done n ->
  0 <= size n <= MAX_SIZE -> has_blocks fs n ((size n + BLOCK_SIZE - 1) / BLOCK_SIZE) ->
  0 <= off < 2 ^ 62 -> 0 <= count < 2 ^ 62 ->
  let len := Z.max 0 (Z.min count (size n - off)) in
  minixfs_read fs path count off = Done (len, file_bytes fs n off (Z.to_nat len), off + len,
    if size n <=? off then fs else set_inodes fs (<[Z.to_nat i := with_times n (now fs) (mtim n) (ctim n)]> (inodes fs))).
Proof.
  intros Hv Hg Hl Hs Hb Ho Hc len. unfold minixfs_read. rewrite Hv, Hg. cbn [obind]. rewrite Hl. cbn [obind].
  unfold MAX_SIZE, NUM_DIRECT_BLOCKS, NUM_INDIRECT_BLOCKS, BLOCK_SIZE in Hs.
  rewrite (u64_small off) by lia. destruct (size n <=? off) eqn:E; bool_to_prop.
  - replace len with 0 by (unfold len; lia). cbn. by rewrite Z.add_0_r.
  - rewrite (u64_small (size n - off)) by lia. rewrite !get_min_min.
    assert (Hlen : Z.min count (size n - off) = len) by (unfold len; lia). rewrite Hlen.
    set (t := Z.min (BLOCK_SIZE - off `mod` BLOCK_SIZE) len).
    assert (Hmod : 0 <= off `mod` BLOCK_SIZE < BLOCK_SIZE) by (apply Z.mod_pos_bound; done).
    assert (Hl0 : 0 <= len <= size n - off) by (unfold len; lia).
    assert (Hk : 0 <= off / BLOCK_SIZE < (size n + BLOCK_SIZE - 1) / BLOCK_SIZE)
      by (unfold BLOCK_SIZE in *; Z.div_mod_to_equations; lia).
    destruct (block_num_ok fs n _ _ Hb Hk) as (Hbo & Hr & _). unfold get_block. rewrite Hbo. cbn [obind].
    unfold read_data. rewrite block_in_data by (unfold t; lia). cbn [obind].
    assert (Hfirst : mread (data fs) (block_num fs n (off / BLOCK_SIZE) * BLOCK_SIZE + off `mod` BLOCK_SIZE) (Z.to_nat t)
      = file_bytes fs n off (Z.to_nat t)) by (rewrite file_bytes_block by (unfold t; lia); done).
    rewrite Hfirst.
    assert (Hloop : read_loop (S (Z.to_nat (len / BLOCK_SIZE + 1))) fs n len t (off + t) (off / BLOCK_SIZE + 1) (file_bytes fs n off (Z.to_nat t))
      = Done (len, off + len, file_bytes fs n off (Z.to_nat len))).
    { destruct (Z.eq_dec t len) as [Ht|Ht].
      - cbn [read_loop]. rewrite (proj2 (Z.ltb_ge _ _)) by lia. by rewrite Ht.
      - assert (Htv : t = BLOCK_SIZE - off `mod` BLOCK_SIZE) by (unfold t in *; lia).
        replace (off / BLOCK_SIZE + 1) with ((off + t) / BLOCK_SIZE)
          by (rewrite Htv; unfold BLOCK_SIZE in *; Z.div_mod_to_equations; lia).
        rewrite (read_loop_ok _ fs n _ _ _ _ _ Hb).
        + replace (off + t + (len - t)) with (off + len) by lia. do 2 f_equal.
          replace (Z.to_nat len) with (Z.to_nat t + Z.to_nat (len - t))%nat by (unfold t in *; lia).
          rewrite file_bytes_app. f_equal. f_equal. unfold t in *; lia.
        + unfold t in *; lia.
        + lia.
        + left. rewrite Htv. unfold BLOCK_SIZE in *. Z.div_mod_to_equations; lia.
        + unfold BLOCK_SIZE in *. Z.div_mod_to_equations; lia.
        + assert ((len - t + BLOCK_SIZE - 1) / BLOCK_SIZE <= len / BLOCK_SIZE + 1)
            by (unfold BLOCK_SIZE in *; Z.div_mod_to_equations; lia).
          assert (0 <= len / BLOCK_SIZE) by (apply Z.div_pos; unfold BLOCK_SIZE in *; lia). lia. }
    rewrite Hloop. cbn [obind]. unfold update_inode. rewrite Hl. done.
Qed.

(** C27. Reading an existing file returns exactly the bytes of the file between the
    offset and the end of the request or of the file, whichever comes first,
    advances the offset by as much, and changes no data. *)
Theorem minixfs_read_correct fs path i n count off :
  is_virtual_path path = None -> get_inode fs path = Done (Some i) -> load_inode fs i = Done n ->
  0 <= size n <= MAX_SIZE -> has_blocks fs n ((size n + BLOCK_SIZE - 1) / BLOCK_SIZE) ->
  0 <= off < 2 ^ 62 -> 0 <= count < 2 ^ 62 ->
  let len := Z.max 0 (Z.min count (size n - off)) in
  exists fs', minixfs_read fs path count off = Done (len, file_bytes fs n off (Z.to_nat len), off + len, fs')
    /\ data fs' = data fs.
Proof. intros. eexists. split; [by apply (minixfs_read_exact fs path i n)|]. by case_match. Qed.

(** ** Writing *)

(** [fs'] is [fs] with byte [src j] of [buf] stored at byte [off + j] of the file,
    for [j < cnt], and nothing else changed. *)
Record wrote (fs fs' : file_system) (n : inode) (c off cnt : Z) (buf : list Z) (src : Z -> Z) : Prop := {
  w_meta : meta fs' = meta fs;
  w_inodes : inodes fs' = inodes fs;
  w_now : now fs' = now fs;
  w_map : data_map fs' = data_map fs;
  w_rng : rng fs' = rng fs;
  w_blocks : forall k, 0 <= k < c -> block_of fs' n k = block_of fs n k;
  w_new : forall j, 0 <= j < cnt -> data fs' (byte_addr fs n (off + j)) = nth (Z.to_nat (src j)) buf 0;
  w_old : forall x, (forall j, 0 <= j < cnt -> x <> byte_addr fs n (off + j)) -> data fs' x = data fs x;
}.

Lemma byte_addr_inj fs n c o o' :
  has_blocks fs n c -> 0 <= o < c * BLOCK_SIZE -> 0 <= o' < c * BLOCK_SIZE -> byte_addr fs n o = byte_addr fs n o' -> o = o'.
Proof.
  intros Hb Ho Ho' Heq. unfold byte_addr in Heq.
  assert (Hm : 0 <= o `mod` BLOCK_SIZE < BLOCK_SIZE) by (by apply Z.mod_pos_bound).
  assert (Hm' : 0 <= o' `mod` BLOCK_SIZE < BLOCK_SIZE) by (by apply Z.mod_pos_bound).
  assert (Hk : 0 <= o / BLOCK_SIZE < c) by (unfold BLOCK_SIZE in *; Z.div_mod_to_equations; lia).
  assert (Hk' : 0 <= o' / BLOCK_SIZE < c) by (unfold BLOCK_SIZE in *; Z.div_mod_to_equations; lia).
  assert (Hnum : block_num fs n (o / BLOCK_SIZE) = block_num fs n (o' / BLOCK_SIZE)) by (unfold BLOCK_SIZE in *; lia).
  pose proof (hb_inj fs n c Hb _ _ Hk Hk' Hnum) as Hdiv.
  rewrite Hnum in Heq. rewrite (Z.div_mod o BLOCK_SIZE), (Z.div_mod o' BLOCK_SIZE) by done. lia.
Qed.

Lemma has_blocks_stable fs fs' n c :
  meta fs' = meta fs -> (forall k, 0 <= k < c -> block_of fs' n k = block_of fs n k) -> has_blocks fs n c -> has_blocks fs' n c.
Proof.
  intros Hm Hk [H1 H2 H3 H4 H5]. split; rewrite ?Hm; try done.
  - intros k Hkc. rewrite Hk by done. by apply H3.
  - intros k k' Hkc Hkc'. unfold block_num. rewrite !Hk by done. by apply H4.
Qed.

Lemma byte_addr_stable fs fs' n c o :
  (forall k, 0 <= k < c -> block_of fs' n k = block_of fs n k) -> 0 <= o < c * BLOCK_SIZE -> byte_addr fs' n o = byte_addr fs n o.
Proof.
  intros Hk Ho. unfold byte_addr, block_num. rewrite Hk; [done|]. unfold BLOCK_SIZE in *. Z.div_mod_to_equations; lia.
Qed.

(** Writing into another block leaves the entries of the indirect block alone. *)
Lemma load_block_number_stable fs b k i a bs :
  b <> k -> 0 <= a -> a + Z.of_nat (length bs) <= BLOCK_SIZE -> 0 <= i < 4096 ->
  load_block_number (set_data fs (mwrite (data fs) (b * BLOCK_SIZE + a) bs)) k i = load_block_number fs k i.
Proof.
  intros Hne Ha Hl Hi. unfold load_block_number, in_data. cbn [meta data set_data].
  destruct (_ && _); [|done]. do 2 f_equal. apply ld32_ext. intros x Hx. apply mwrite_ne. unfold BLOCK_SIZE in *. nia.
Qed.

Lemma copy_chunk fs n c off buf t :
  has_blocks fs n c -> 0 <= off -> off / BLOCK_SIZE < c -> 0 <= t -> off `mod` BLOCK_SIZE + t <= BLOCK_SIZE ->
  t <= Z.of_nat (length buf) ->
  exists fs', copy_in (block_num fs n (off / BLOCK_SIZE) * BLOCK_SIZE + off `mod` BLOCK_SIZE) buf t fs = Done fs'
    /\ wrote fs fs' n c off t buf (fun j => j).
Proof.
  intros Hb Ho Hk Ht Hfit Hbuf.
  assert (Hk0 : 0 <= off / BLOCK_SIZE < c) by (split; [apply Z.div_pos; [lia|done]|done]).
  assert (Hmod : 0 <= off `mod` BLOCK_SIZE < BLOCK_SIZE) by (by apply Z.mod_pos_bound).
  destruct (block_num_ok fs n c _ Hb Hk0) as (Hbo & Hr & Hni).
  unfold copy_in. rewrite (proj2 (Z.ltb_ge _ _)) by lia. unfold write_data.
  assert (Hlen : Z.of_nat (length (take (Z.to_nat t) buf)) = t) by (rewrite length_take; lia).
  rewrite Hlen, block_in_data by lia. eexists. split; [done|].
  set (a := block_num fs n (off / BLOCK_SIZE) * BLOCK_SIZE + off `mod` BLOCK_SIZE).
  assert (Haddr : forall j, 0 <= j < t -> byte_addr fs n (off + j) = a + j).
  { intros j Hj. destruct (div_in_block off j) as [Hd Hm]; [lia|lia|lia|]. unfold byte_addr. rewrite Hd, Hm. unfold a. lia. }
  split; try done.
  - intros k Hkc. unfold block_of. case_bool; [done|]. apply load_block_number_stable; [done|lia|lia|].
    unfold NUM_DIRECT_BLOCKS in *. pose proof (hb_max fs n c Hb). lia.
  - intros j Hj. rewrite Haddr by done. cbn. rewrite <- (Z2Nat.id j) at 1 by lia.
    destruct (lookup_lt_is_Some_2 buf (Z.to_nat j)) as [v Hv]; [lia|].
    rewrite (mwrite_in _ _ _ (Z.to_nat j) v); [by rewrite nth_lookup, Hv|]. by rewrite lookup_take_lt by lia.
  - intros x Hx. cbn. apply mwrite_ne. rewrite Hlen.
    destruct (Z.lt_ge_cases x a); [by left|]. destruct (Z.lt_ge_cases x (a + t)); [|by right].
    exfalso. apply (Hx (x - a)); [lia|]. rewrite Haddr by lia. lia.
Qed.

(** Two consecutive writes. *)
Lemma wrote_trans fs fs1 fs2 n c off t1 t2 buf f g :
  has_blocks fs n c -> 0 <= off -> 0 <= t1 -> 0 <= t2 -> off + t1 + t2 <= c * BLOCK_SIZE ->
  wrote fs fs1 n c off t1 buf f -> wrote fs1 fs2 n c (off + t1) t2 buf g ->
  wrote fs fs2 n c off (t1 + t2) buf (fun j => if j <? t1 then f j else g (j - t1)).
Proof.
  intros Hb Ho Ht1 Ht2 Hc [Am Ai An Aa Ar Ab Anew Aold] [Bm Bi Bn Ba Br Bb Bnew Bold].
  assert (Hst : forall o, 0 <= o < c * BLOCK_SIZE -> byte_addr fs1 n o = byte_addr fs n o)
    by (intros; by apply (byte_addr_stable fs fs1 n c)).
  split; try congruence.
  - intros k Hk. rewrite Bb, Ab by done. done.
  - intros j Hj. destruct (j <? t1) eqn:E; bool_to_prop.
    + rewrite Bold; [apply Anew; lia|]. intros j' Hj' Heq. rewrite Hst in Heq by lia.
      apply (byte_addr_inj fs n c _ _ Hb) in Heq; lia.
    + replace (off + j) with (off + t1 + (j - t1)) by lia. rewrite <- Hst by lia. apply Bnew. lia.
  - intros x Hx. rewrite Bold, Aold; [done| |].
    + intros j Hj. apply Hx. lia.
    + intros j Hj. rewrite Hst by lia. replace (off + t1 + j) with (off + (t1 + j)) by lia. apply Hx. lia.
Qed.

Lemma wrote_ext fs fs' n c off cnt buf f g :
  (forall j, 0 <= j < cnt -> f j = g j) -> wrote fs fs' n c off cnt buf f -> wrote fs fs' n c off cnt buf g.
Proof. intros Hfg [H1 H2 H3 H4 H5 H6 H7 H8]. split; try done. intros j Hj. rewrite <- Hfg by done. by apply H7. Qed.

Lemma wrote_refl fs n c off buf f : wrote fs fs n c off 0 buf f.
Proof. split; try done. intros; lia. Qed.

(** Every further block gets the beginning of the buffer. *)
Lemma write_loop_ok fuel fs node n c buf count bw off :
  has_blocks fs n c -> load_inode fs node = Done n -> 0 <= bw <= count -> 0 <= off ->
  off `mod` BLOCK_SIZE = 0 \/ bw = count -> off + (count - bw) <= c * BLOCK_SIZE -> count <= Z.of_nat (length buf) ->
  (Z.to_nat ((count - bw + BLOCK_SIZE - 1) / BLOCK_SIZE) < fuel)%nat ->
  exists fs', write_loop fuel node buf count bw off (off / BLOCK_SIZE) fs = Done (count, off + (count - bw), fs')
    /\ wrote fs fs' n c off (count - bw) buf (fun j => j `mod` BLOCK_SIZE).
Proof.
  revert fs bw off. induction fuel as [|fuel IH]; intros fs bw off Hb Hn Hbw Ho Hm Hc Hbuf Hf; [lia|].
  cbn [write_loop]. destruct (bw <? count) eqn:E; bool_to_prop.
  2:{ exists fs. replace (count - bw) with 0 by lia. split; [|apply wrote_refl]. assert (bw = count) as -> by lia. by rewrite Z.add_0_r. }
  destruct Hm as [Hm|Hm]; [|lia]. rewrite Hn. cbn [obind]. rewrite get_min_min.
  set (t := Z.min BLOCK_SIZE (count - bw)).
  assert (Ht : 0 < t <= BLOCK_SIZE) by (unfold t, BLOCK_SIZE in *; lia).
  assert (Hk : 0 <= off / BLOCK_SIZE < c) by (unfold BLOCK_SIZE in *; Z.div_mod_to_equations; lia).
  destruct (block_num_ok fs n c _ Hb Hk) as (Hbo & Hr & _). unfold get_block. rewrite Hbo. cbn [obind].
  destruct (copy_chunk fs n c off buf t Hb Ho) as (fs1 & Hcp & Hw1); [lia|lia|lia|unfold t; lia|].
  rewrite Hm, Z.add_0_r in Hcp. rewrite Hcp. cbn [obind].
  assert (Hb1 : has_blocks fs1 n c) by (eapply has_blocks_stable; [apply Hw1|apply Hw1|done]).
  assert (Hn1 : load_inode fs1 node = Done n) by (unfold load_inode in *; by rewrite (w_inodes _ _ _ _ _ _ _ _ Hw1)).
  assert (Hmodj : forall j, 0 <= j < t -> j `mod` BLOCK_SIZE = j) by (intros; apply Z.mod_small; lia).
  destruct (Z.eq_dec (bw + t) count) as [Hend|Hmore].
  - destruct fuel as [|fuel].
    { exfalso. unfold BLOCK_SIZE in *. assert (1 <= (count - bw + 16384 - 1) / 16384) by (apply Z.div_le_lower_bound; lia). lia. }
    cbn [write_loop]. rewrite (proj2 (Z.ltb_ge _ _)) by lia. exists fs1.
    replace (count - bw) with t by lia. rewrite Hend. split; [done|].
    eapply wrote_ext; [|exact Hw1]. intros j Hj. symmetry. by apply Hmodj.
  - assert (HtB : t = BLOCK_SIZE) by (unfold t in *; lia).
    replace (off / BLOCK_SIZE + 1) with ((off + t) / BLOCK_SIZE) by (rewrite HtB; unfold BLOCK_SIZE in *; Z.div_mod_to_equations; lia).
    destruct (IH fs1 (bw + t) (off + t)) as (fs2 & Hrun & Hw2); try done; try lia.
    { left. rewrite HtB. unfold BLOCK_SIZE in *. Z.div_mod_to_equations; lia. }
    { rewrite HtB. unfold BLOCK_SIZE in *.
      assert ((count - bw + 16384 - 1) / 16384 = (count - (bw + 16384) + 16384 - 1) / 16384 + 1) by (Z.div_mod_to_equations; lia).
      assert (0 <= (count - (bw + 16384) + 16384 - 1) / 16384) by (apply Z.div_pos; lia). lia. }
    exists fs2. rewrite Hrun. split; [by replace (off + t + (count - (bw + t))) with (off + (count - bw)) by lia|].
    replace (count - bw) with (t + (count - (bw + t))) by lia.
    eapply wrote_ext; [|eapply (wrote_trans fs fs1 fs2 n c off t); [done|lia|lia|lia|lia|exact Hw1|exact Hw2]].
    intros j Hj. cbn. destruct (j <? t) eqn:Ej; bool_to_prop; [symmetry; apply Hmodj; lia|].
    rewrite HtB. unfold BLOCK_SIZE. Z.div_mod_to_equations; lia.
Qed.

(** When the blocks are there, [minixfs_min_blockcount] changes nothing. *)
Lemma fill_direct_done k fs node n i :
  load_inode fs node = Done n -> 0 <= i -> i + Z.of_nat k <= NUM_DIRECT_BLOCKS ->
  (forall j, i <= j < i + Z.of_nat k -> exists b, block_of fs n j = Done b /\ 0 <= b) -> fill_direct k i node fs = Done (0, fs).
Proof.
  revert i. induction k as [|k IH]; intros i Hn Hi Hk Hb; [done|]. cbn [fill_direct]. rewrite Hn. cbn [obind].
  destruct (Hb i) as (b & Hbo & Hb0); [lia|]. unfold block_of in Hbo. rewrite (proj2 (Z.ltb_lt _ _)) in Hbo by lia.
  rewrite Hbo. cbn [obind]. rewrite (proj2 (Z.eqb_neq _ _)) by lia. apply IH; try done; try lia.
  intros j Hj. apply Hb. lia.
Qed.

Lemma fill_indirect_done k fs n i :
  0 <= i -> (forall j, i <= j < i + Z.of_nat k -> exists b, block_of fs n (NUM_DIRECT_BLOCKS + j) = Done b /\ 0 <= b) ->
  fill_indirect k i (indirect n) fs = Done (0, fs).
Proof.
  revert i. induction k as [|k IH]; intros i Hi Hb; [done|]. cbn [fill_indirect].
  destruct (Hb i) as (b & Hbo & Hb0); [lia|]. unfold block_of in Hbo. rewrite (proj2 (Z.ltb_ge _ _)) in Hbo by lia.
  replace (NUM_DIRECT_BLOCKS + i - NUM_DIRECT_BLOCKS) with i in Hbo by lia.
  rewrite Hbo. cbn [obind]. rewrite (proj2 (Z.eqb_neq _ _)) by lia. apply IH; [lia|]. intros j Hj. apply Hb. lia.
Qed.

Lemma min_blockcount_done fs path node n c :
  get_inode fs path = Done (Some node) -> load_inode fs node = Done n -> has_blocks fs n c ->
  minixfs_min_blockcount path c fs = Done (0, fs).
Proof.
  intros Hg Hn Hb. unfold minixfs_min_blockcount. rewrite Hg. cbn [obind].
  pose proof (hb_max fs n c Hb) as Hc.
  assert (Hbs : forall j, 0 <= j < c -> exists b, block_of fs n j = Done b /\ 0 <= b)
    by (intros j Hj; destruct (hb_valid fs n c Hb j Hj) as (b & Hbo & Hr & _); exists b; split; [done|lia]).
  destruct (c <? NUM_DIRECT_BLOCKS) eqn:E; bool_to_prop.
  - apply (fill_direct_done _ fs node n 0 Hn); [lia|lia|]. intros j Hj. apply Hbs. lia.
  - rewrite (fill_direct_done 11 fs node n 0 Hn); [|lia|done|intros j Hj; apply Hbs; unfold NUM_DIRECT_BLOCKS in E; lia].
    cbn [obind]. change (0 =? -1) with false. cbv iota. unfold add_single_indirect_block. rewrite Hn. cbn [obind].
    pose proof (hb_indirect fs n c Hb ltac:(unfold NUM_DIRECT_BLOCKS in E; lia)) as Hi.
    rewrite (proj2 (Z.eqb_neq (indirect n) UNASSIGNED_NODE)) by (unfold UNASSIGNED_NODE; lia).
    cbn [negb obind]. change (0 =? -1) with false. cbv iota. rewrite Hn. cbn [obind].
    apply fill_indirect_done; [lia|]. intros j Hj. apply Hbs. unfold NUM_DIRECT_BLOCKS in *. lia.
Qed.

(** Which byte of the buffer the code stores at byte [off + j] of the file. *)
Definition write_source (off j : Z) : Z :=
  let first := BLOCK_SIZE - off `mod` BLOCK_SIZE in
  if j <? first then j else (j - first) `mod` BLOCK_SIZE.

(** The file's inode after the write. *)
Definition written_inode (fs : file_system) (n : inode) (end_ : Z) : inode :=
  with_times (with_size n (Z.max (size n) end_)) (now fs) (now fs) (ctim n).

Lemma get_ceil_blocks x : 0 <= x -> get_ceil x BLOCK_SIZE = (x + BLOCK_SIZE - 1) / BLOCK_SIZE.
Proof.
  intros Hx. unfold get_ceil. rewrite Z.quot_div_nonneg, Z.rem_mod_nonneg by (unfold BLOCK_SIZE; lia).
  unfold BLOCK_SIZE. case_bool; Z.div_mod_to_equations; lia.
Qed.

Lemma update_inode_done fs i n f :
  load_inode fs i = Done n -> update_inode i f fs = Done (set_inodes fs (<[Z.to_nat i := f n]> (inodes fs))).
Proof. intros Hn. unfold update_inode. by rewrite Hn. Qed.

Lemma load_inode_set fs i n x :
  load_inode fs i = Done n -> load_inode (set_inodes fs (<[Z.to_nat i := x]> (inodes fs))) i = Done x.
Proof.
  unfold load_inode. destruct (0 <=? i); [|done]. destruct (inodes fs !! Z.to_nat i) eqn:E; [|done]. intros _. cbn.
  rewrite list_lookup_insert_eq; [done|]. by eapply lookup_lt_Some.
Qed.

(** What [minixfs_write] does once the blocks are there. *)
Definition write_rest (node : Z) (buf : list Z) (count off : Z) (fs : file_system) : outcome (Z * Z * file_system) :=
  let b_idx := u64 off / BLOCK_SIZE in
  let b_off := u64 off `mod` BLOCK_SIZE in
  let to_write := get_min count (BLOCK_SIZE - b_off) in
  let! n := load_inode fs node in
  let! blk := get_block fs n b_idx in
  let! fs := copy_in (blk + b_off) buf to_write fs in
  let! (bytes_wrote, off, fs) :=
    write_loop (S (Z.to_nat (count / BLOCK_SIZE + 1))) node buf count to_write (off + to_write) (b_idx + 1) fs in
  let! fs := update_inode node (fun n => with_size n (get_max (size n) (u64 off))) fs in
  let! fs := update_inode node (fun n => with_times n (now fs) (now fs) (ctim n)) fs in
  Done (bytes_wrote, off, fs).

Lemma minixfs_write_rest fs fs1 path node count off buf :
  get_inode fs path = Done (Some node) -> 0 <= off -> 0 < count -> off + count <= MAX_SIZE ->
  minixfs_min_blockcount path ((off + count + BLOCK_SIZE - 1) / BLOCK_SIZE) fs = Done (0, fs1) ->
  minixfs_write fs path buf count off = write_rest node buf count off fs1.
Proof.
  intros Hg Ho Hc Hmax Hmin. change MAX_SIZE with 67289088 in Hmax. unfold minixfs_write. rewrite (u64_small (off + count)) by lia.
  change MAX_SIZE with 67289088. rewrite (proj2 (Z.ltb_ge _ _)) by lia. rewrite Hg. cbn [obind].
  rewrite s32_small, get_ceil_blocks by lia. rewrite Hmin. cbn [obind deref]. by change (0 =? -1) with false.
Qed.

Lemma write_rest_exact fs node n count off buf :
  load_inode fs node = Done n ->
  0 <= off -> 0 < count -> off + count <= MAX_SIZE -> count <= Z.of_nat (length buf) -> 0 <= size n ->
  has_blocks fs n ((off + count + BLOCK_SIZE - 1) / BLOCK_SIZE) ->
  exists fs1, write_rest node buf count off fs
      = Done (count, off + count, set_inodes fs1 (<[Z.to_nat node := written_inode fs n (off + count)]> (inodes fs)))
    /\ wrote fs fs1 n ((off + count + BLOCK_SIZE - 1) / BLOCK_SIZE) off count buf (write_source off).
Proof.
  intros Hn Ho Hc Hmax Hbuf Hsz. set (c := (off + count + BLOCK_SIZE - 1) / BLOCK_SIZE). intros Hb.
  change MAX_SIZE with 67289088 in Hmax. unfold write_rest. rewrite (u64_small off), get_min_min, Hn by lia. cbn [obind].
  set (b := off `mod` BLOCK_SIZE). set (t := Z.min count (BLOCK_SIZE - b)).
  assert (Hmod : 0 <= b < BLOCK_SIZE) by (by apply Z.mod_pos_bound).
  assert (Ht0 : 0 < t <= count) by (unfold t; lia).
  assert (Hcb : off + count <= c * BLOCK_SIZE) by (unfold c, BLOCK_SIZE; Z.div_mod_to_equations; lia).
  assert (Hk : 0 <= off / BLOCK_SIZE < c) by (unfold BLOCK_SIZE in *; Z.div_mod_to_equations; lia).
  destruct (block_num_ok fs n c _ Hb Hk) as (Hbo & Hr & _). unfold get_block. rewrite Hbo. cbn [obind].
  destruct (copy_chunk fs n c off buf t Hb Ho) as (fs1 & Hcp & Hw1); [lia|unfold t; lia|unfold t, b; lia|unfold t; lia|].
  fold b in Hcp. rewrite Hcp. cbn [obind].
  assert (Hb1 : has_blocks fs1 n c) by (eapply has_blocks_stable; [apply Hw1|apply Hw1|done]).
  assert (Hn1 : load_inode fs1 node = Done n) by (unfold load_inode in *; by rewrite (w_inodes _ _ _ _ _ _ _ _ Hw1)).
  assert (Hloop : exists fs2, write_loop (S (Z.to_nat (count / BLOCK_SIZE + 1))) node buf count t (off + t) (off / BLOCK_SIZE + 1) fs1
    = Done (count, off + count, fs2) /\ wrote fs1 fs2 n c (off + t) (count - t) buf (fun j => j `mod` BLOCK_SIZE)).
  { destruct (Z.eq_dec t count) as [->|Ht].
    { exists fs1. cbn [write_loop]. rewrite (proj2 (Z.ltb_ge _ _)), Z.sub_diag by lia. split; [done|apply wrote_refl]. }
    assert (Htv : t = BLOCK_SIZE - b) by (unfold t in *; lia).
    assert (Hal : (off + t) `mod` BLOCK_SIZE = 0 /\ off / BLOCK_SIZE + 1 = (off + t) / BLOCK_SIZE)
      by (rewrite Htv; unfold b, BLOCK_SIZE in *; split; Z.div_mod_to_equations; lia).
    destruct Hal as [Hal ->].
    destruct (write_loop_ok (S (Z.to_nat (count / BLOCK_SIZE + 1))) fs1 node n c buf count t (off + t)) as (fs2 & Hrun & Hw2);
      try done; try lia.
    { assert ((count - t + BLOCK_SIZE - 1) / BLOCK_SIZE <= count / BLOCK_SIZE + 1)
        by (assert (0 < t) by lia; unfold BLOCK_SIZE in *; Z.div_mod_to_equations; lia).
      assert (0 <= count / BLOCK_SIZE) by (apply Z.div_pos; unfold BLOCK_SIZE in *; lia). lia. }
    exists fs2. rewrite Hrun. split; [|done]. by replace (off + t + (count - t)) with (off + count) by lia. }
  destruct Hloop as (fs2 & Hrun & Hw2). rewrite Hrun. cbn [obind].
  assert (Hw : wrote fs fs2 n c off count buf (write_source off)).
  { replace count with (t + (count - t)) by lia.
    eapply wrote_ext; [|eapply (wrote_trans fs fs1 fs2 n c off t (count - t)); try done; unfold t; lia].
    intros j Hj. unfold write_source. fold b. cbn.
    destruct (Z.ltb_spec j t), (Z.ltb_spec j (BLOCK_SIZE - b)); try done; unfold t in *; try lia.
    by replace (Z.min count (BLOCK_SIZE - b)) with (BLOCK_SIZE - b) by lia. }
  assert (Hn2 : load_inode fs2 node = Done n) by (unfold load_inode in *; by rewrite (w_inodes _ _ _ _ _ _ _ _ Hw)).
  rewrite (update_inode_done _ _ _ _ Hn2). cbn [obind]. rewrite (update_inode_done _ _ _ _ (load_inode_set _ _ _ _ Hn2)). cbn [obind].
  exists fs2. split; [|done]. rewrite get_max_max, (u64_small (off + count)) by lia.
  do 2 f_equal. unfold set_inodes. cbn. rewrite list_insert_insert_eq.
  by rewrite (w_inodes _ _ _ _ _ _ _ _ Hw), (w_now _ _ _ _ _ _ _ _ Hw).
Qed.

Lemma minixfs_write_exact fs path node n count off buf :
  get_inode fs path = Done (Some node) -> load_inode fs node = Done n ->
  0 <= off -> 0 < count -> off + count <= MAX_SIZE -> count <= Z.of_nat (length buf) -> 0 <= size n ->
  has_blocks fs n ((off + count + BLOCK_SIZE - 1) / BLOCK_SIZE) ->
  exists fs1, minixfs_write fs path buf count off
      = Done (count, off + count, set_inodes fs1 (<[Z.to_nat node := written_inode fs n (off + count)]> (inodes fs)))
    /\ wrote fs fs1 n ((off + count + BLOCK_SIZE - 1) / BLOCK_SIZE) off count buf (write_source off).
Proof.
  intros Hg Hn Ho Hc Hmax Hbuf Hsz Hb. rewrite (minixfs_write_rest fs fs path node) by (try done; by eapply min_blockcount_done). by apply write_rest_exact.
Qed.

(** A write that stays within one block of an existing file stores exactly the
    bytes given at the offset, leaves every other byte of every block alone, and
    sets the size to the end of the write when that is larger. *)
Theorem minixfs_write_in_block fs path node n count off buf :
  get_inode fs path = Done (Some node) -> load_inode fs node = Done n ->
  0 <= off -> 0 < count -> off + count <= MAX_SIZE -> count <= Z.of_nat (length buf) -> 0 <= size n ->
  has_blocks fs n ((off + count + BLOCK_SIZE - 1) / BLOCK_SIZE) ->
  off `mod` BLOCK_SIZE + count <= BLOCK_SIZE ->
  exists fs', minixfs_write fs path buf count off = Done (count, off + count, fs')
    /\ inodes fs' = <[Z.to_nat node := written_inode fs n (off + count)]> (inodes fs)
    /\ mread (data fs') (byte_addr fs n off) (Z.to_nat count) = take (Z.to_nat count) buf
    /\ file_bytes fs' n off (Z.to_nat count) = take (Z.to_nat count) buf
    /\ agree_out (fun x => byte_addr fs n off <= x < byte_addr fs n off + count) (data fs) (data fs').
Proof.
  intros Hg Hn Ho Hc Hmax Hbuf Hsz Hb Hone.
  destruct (minixfs_write_exact fs path node n count off buf) as (fs1 & Hrun & Hw); try done.
  assert (Haddr : forall j, 0 <= j < count -> byte_addr fs n (off + j) = byte_addr fs n off + j).
  { intros j Hj. destruct (div_in_block off j) as [Hd Hm]; [lia|lia|lia|]. unfold byte_addr. rewrite Hd, Hm. lia. }
  assert (Hread : mread (data fs1) (byte_addr fs n off) (Z.to_nat count) = take (Z.to_nat count) buf).
  { apply list_eq. intros i. destruct (decide (i < Z.to_nat count)%nat) as [Hi|Hi].
    - rewrite mread_lookup, lookup_take_lt, <- Haddr, (w_new _ _ _ _ _ _ _ _ Hw) by lia.
      unfold write_source. rewrite (proj2 (Z.ltb_lt _ _)), Nat2Z.id by lia.
      destruct (lookup_lt_is_Some_2 buf i) as [v Hv]; [lia|]. by rewrite Hv, nth_lookup, Hv.
    - rewrite !lookup_ge_None_2; [done|rewrite length_take; lia|rewrite length_mread; lia]. }
  eexists. split; [exact Hrun|]. split; [done|]. split; [exact Hread|]. split.
  - rewrite file_bytes_block by lia. rewrite <- Hread. cbn. f_equal.
    rewrite <- (byte_addr_stable fs fs1 n _ off (w_blocks _ _ _ _ _ _ _ _ Hw)); [done|].
    unfold BLOCK_SIZE; Z.div_mod_to_equations; lia.
  - intros x Hx. cbn. apply (w_old _ _ _ _ _ _ _ _ Hw). intros j Hj Heq. apply Hx. rewrite Heq, Haddr by lia. lia.
Qed.

(** A write that crosses into further blocks stores the beginning of the buffer
    in each of them: past the first block, byte [j] of the request is byte
    [(j - first) mod BLOCK_SIZE] of the buffer instead of byte [j]. *)
Theorem minixfs_write_repeats_buffer fs path node n count off buf :
  get_inode fs path = Done (Some node) -> load_inode fs node = Done n ->
  0 <= off -> 0 < count -> off + count <= MAX_SIZE -> count <= Z.of_nat (length buf) -> 0 <= size n ->
  has_blocks fs n ((off + count + BLOCK_SIZE - 1) / BLOCK_SIZE) ->
  let first := BLOCK_SIZE - off `mod` BLOCK_SIZE in
  exists fs', minixfs_write fs path buf count off = Done (count, off + count, fs')
    /\ forall j, first <= j < count ->
         data fs' (byte_addr fs n (off + j)) = nth (Z.to_nat ((j - first) `mod` BLOCK_SIZE)) buf 0.
Proof.
  intros Hg Hn Ho Hc Hmax Hbuf Hsz Hb first.
  destruct (minixfs_write_exact fs path node n count off buf) as (fs1 & Hrun & Hw); try done.
  eexists. split; [exact Hrun|]. intros j Hj. cbn. assert (0 <= off `mod` BLOCK_SIZE < BLOCK_SIZE) by (by apply Z.mod_pos_bound).
  rewrite (w_new _ _ _ _ _ _ _ _ Hw) by lia. unfold write_source. fold first. by rewrite (proj2 (Z.ltb_ge _ _)) by lia.
Qed.

(** ** Directory entries *)

Lemma hex_digit_round d : 0 <= d < 16 -> hex_digit_value (hex_digit d) = Some d.
Proof.
  intros Hd. unfold hex_digit, hex_digit_value. destruct (d <? 10) eqn:E; bool_to_prop.
  - rewrite (proj2 (andb_true_iff _ _)) by lia. f_equal. lia.
  - rewrite (proj2 (andb_false_iff _ _)) by lia. rewrite (proj2 (andb_true_iff _ _)) by lia. f_equal. lia.
Qed.

Lemma hex_digits_value_low n x rest acc :
  0 <= x -> hex_digits_value (hex_low n x ++ rest) acc = hex_digits_value rest (acc * 16 ^ Z.of_nat n + x `mod` 16 ^ Z.of_nat n).
Proof.
  revert x rest acc. induction n as [|n IH]; intros x rest acc Hx.
  - cbn. rewrite Z.mod_1_r. f_equal. lia.
  - cbn [hex_low]. rewrite <- app_assoc, IH by (apply Z.div_pos; lia). cbn [app hex_digits_value].
    rewrite hex_digit_round by (apply Z.mod_pos_bound; lia). f_equal.
    rewrite Nat2Z.inj_succ, Z.pow_succ_r by lia. rewrite Z.rem_mul_r by lia. lia.
Qed.

Lemma hex_low_digits n x c : c ∈ hex_low n x -> exists d, 0 <= d < 16 /\ c = hex_digit d.
Proof.
  revert x. induction n as [|n IH]; intros x; cbn; [by intros ?%not_elem_of_nil|].
  intros [Hc|Hc]%elem_of_app; [eauto|]. apply list_elem_of_singleton in Hc as ->. eexists. split; [|done]. apply Z.mod_pos_bound. lia.
Qed.

Lemma hex_width_le fuel x k : 0 <= x < 16 ^ Z.of_nat k -> (hex_width fuel x <= k)%nat.
Proof.
  revert x k. induction fuel as [|fuel IH]; intros x k Hx; cbn [hex_width]; [lia|].
  destruct (x =? 0) eqn:E; bool_to_prop; [lia|]. destruct k as [|k]; [cbn in Hx; lia|].
  rewrite Nat2Z.inj_succ, Z.pow_succ_r in Hx by lia.
  apply le_n_S, IH. split; [apply Z.div_pos; lia|apply Z.div_lt_upper_bound; lia].
Qed.

Lemma hex_low_length n x : length (hex_low n x) = n.
Proof. revert x. induction n as [|n IH]; intros x; cbn; [done|]. rewrite length_app, IH. cbn. lia. Qed.

Lemma sprintf_08zx_length x : 0 <= x < 2 ^ 32 -> sprintf_08zx x = hex_low 8 x.
Proof. intros Hx. unfold sprintf_08zx. pose proof (hex_width_le 16 x 8 ltac:(cbn; lia)). by rewrite Nat.max_l by lia. Qed.

Lemma hex_digit_range d : 0 <= d < 16 -> 48 <= hex_digit d <= 57 \/ 97 <= hex_digit d <= 102.
Proof. intros. unfold hex_digit. case_bool; lia. Qed.

(** Digits only: no sign, no space, no [0x]. *)
Lemma strtoll16_digits a b l :
  (forall c, c ∈ a :: b :: l -> 48 <= c <= 57 \/ 97 <= c <= 102) -> strtoll16 (a :: b :: l) = hex_digits_value (a :: b :: l) 0.
Proof.
  intros Hd. assert (Ha : 48 <= a <= 57 \/ 97 <= a <= 102) by (apply Hd; left).
  assert (Hb : 48 <= b <= 57 \/ 97 <= b <= 102) by (apply Hd; right; left).
  assert (Hs : skip_spaces (a :: b :: l) = a :: b :: l).
  { cbn [skip_spaces]. unfold is_space. by replace ((a =? 32) || (9 <=? a) && (a <=? 13)) with false by lia. }
  assert (Hx : (b =? 120) || (b =? 88) = false) by lia.
  unfold strtoll16. rewrite Hs.
  assert (Hsign : match a :: b :: l with 45 :: bs => (true, bs) | 43 :: bs => (false, bs) | _ => (false, a :: b :: l) end
    = (false, a :: b :: l)).
  { destruct Ha as [Ha|Ha]; [|destruct a as [|p|p]; try lia; do 7 (destruct p as [p|p|]; try done; try lia)].
    destruct a as [|p|p]; try lia. do 7 (destruct p as [p|p|]; try done; try lia). }
  rewrite Hsign. destruct (decide (a = 48)) as [->|Hne].
  - destruct l as [|c l]; [done|]. by rewrite Hx.
  - destruct a as [|p|p]; try lia. do 7 (destruct p as [p|p|]; try done; try lia).
Qed.

Lemma strtoll16_sprintf x : 0 <= x < 2 ^ 32 -> strtoll16 (sprintf_08zx x) = x.
Proof.
  intros Hx. rewrite sprintf_08zx_length by done.
  pose proof (hex_low_length 8 x) as Hlen. pose proof (hex_low_digits 8 x) as Hd.
  destruct (hex_low 8 x) as [|a [|b l]] eqn:E; try (cbn in Hlen; lia).
  rewrite strtoll16_digits by (intros c Hc; destruct (Hd c Hc) as (d & Hd0 & ->); by apply hex_digit_range).
  rewrite <- E, <- (app_nil_r (hex_low 8 x)), hex_digits_value_low by lia. cbn [hex_digits_value].
  rewrite Z.mod_small by (cbn; lia). lia.
Qed.

Lemma mread_take m a k n : take k (mread m a n) = mread m a (Nat.min k n).
Proof.
  revert a k. induction n as [|n IH]; intros a [|k]; try done.
  change (m a :: take k (mread m (a + 1) n) = m a :: mread m (a + 1) (Nat.min k n)). by rewrite IH.
Qed.

(** A string comparison reads the name up to its terminator. *)
Lemma strcmp_eq_spec fs name a stored rest :
  (forall c, c ∈ name -> c <> 0) -> (forall c, c ∈ stored -> c <> 0) ->
  mread (data fs) a (length stored + S rest) = stored ++ replicate (S rest) 0 ->
  in_data fs a (Z.of_nat (length stored + S rest)) = true ->
  strcmp_eq fs name a = Done (bool_decide (name = stored)).
Proof.
  revert name a. induction stored as [|y stored IH]; intros name a Hn Hs Hm Hin;
    assert (Hin1 : in_data fs a 1 = true) by (unfold in_data in *; bool_to_prop; cbn [length Nat.add] in *; apply andb_true_iff; split; apply Z.leb_le; lia);
    cbn [length Nat.add mread replicate app] in Hm; injection Hm as Hm0 Hm.
  - destruct name as [|x name]; cbn [strcmp_eq]; unfold read_data; rewrite Hin1; cbn [obind];
      change (mread (data fs) a (Z.to_nat 1)) with [data fs a]; rewrite Hm0; [done|].
    rewrite !bool_decide_eq_false_2; [done|done|]. intros [= <-]. by apply (Hn 0); [left|].
  - destruct name as [|x name]; cbn [strcmp_eq]; unfold read_data; rewrite Hin1; cbn [obind];
      change (mread (data fs) a (Z.to_nat 1)) with [data fs a]; rewrite Hm0.
    { rewrite !bool_decide_eq_false_2; [done|done|]. intros [= ->]. by apply (Hs 0); [left|]. }
    destruct (decide (y = x)) as [->|Hne].
    + rewrite bool_decide_eq_true_2 by done. rewrite IH.
      * f_equal. apply bool_decide_ext. naive_solver.
      * intros c Hc. apply Hn. by right.
      * intros c Hc. apply Hs. by right.
      * done.
      * unfold in_data in *. bool_to_prop. cbn [length Nat.add] in *. apply andb_true_iff; split; apply Z.leb_le; lia.
    + rewrite !bool_decide_eq_false_2; [done| |]; naive_solver.
Qed.

(** A directory entry written by [make_string_from_dirent] is read back by
    [make_dirent_from_string] with its number, and its name compares equal to the
    name written and to no other; nothing outside the 257 bytes of the entry and
    [sprintf]'s terminator changes. *)
Theorem dirent_roundtrip fs block name num to_fill :
  0 < num < 2 ^ 31 -> (length name < 248)%nat -> (forall c, c ∈ name -> c <> 0) -> in_data fs block 257 = true ->
  exists fs', make_string_from_dirent block name num fs = Done fs'
    /\ make_dirent_from_string fs' block to_fill = Done (Some (Dirent block num))
    /\ (forall name', (forall c, c ∈ name' -> c <> 0) -> strcmp_eq fs' name' block = Done (bool_decide (name' = name)))
    /\ inodes fs' = inodes fs /\ agree_out (fun x => block <= x < block + 257) (data fs) (data fs').
Proof.
  intros Hnum Hlen Hnz Hin. unfold make_string_from_dirent.
  set (cpy := take 248 name ++ replicate (248 - length name) 0).
  assert (Hcpy : cpy = name ++ replicate (248 - length name) 0) by (unfold cpy; by rewrite take_ge by lia).
  assert (Hcl : length cpy = 248%nat) by (rewrite Hcpy, length_app, length_replicate; lia).
  assert (Hsub : forall a n fs', meta fs' = meta fs -> block <= a -> 0 <= n -> a + n <= block + 257 -> in_data fs' a n = true).
  { intros a n fs' Hm Ha Hn Han. unfold in_data in *. rewrite Hm. bool_to_prop. apply andb_true_iff; split; apply Z.leb_le; lia. }
  unfold write_data. rewrite Hsub by (rewrite ?Hcl; lia || done). cbn [obind].
  rewrite u64_small, sprintf_08zx_length by lia.
  assert (Hdl : length (hex_low 8 num ++ [0]) = 9%nat) by (by rewrite length_app, hex_low_length).
  unfold FILE_NAME_LENGTH. rewrite Hsub by (rewrite ?Hdl; lia || done). eexists. split; [done|].
  assert (Hdig : mread (mwrite (mwrite (data fs) block cpy) (block + 248) (hex_low 8 num ++ [0])) (block + 248) 8 = hex_low 8 num).
  { set (m1 := mwrite (data fs) block cpy).
    transitivity (take 8 (mread (mwrite m1 (block + 248) (hex_low 8 num ++ [0])) (block + 248) (length (hex_low 8 num ++ [0])))).
    { by rewrite mread_take, Hdl. }
    rewrite mread_mwrite, take_app_le by (by rewrite hex_low_length).
    apply take_ge. by rewrite hex_low_length. }
  split; [|split; [|split; [done|]]].
  - unfold make_dirent_from_string, read_data. rewrite Hsub by (try done; unfold FILE_NAME_LENGTH; lia).
    cbn [obind]. change (mread ?m (block + FILE_NAME_LENGTH) (Z.to_nat 8)) with (mread m (block + 248) 8).
    cbn [data set_data]. rewrite Hdig, <- sprintf_08zx_length, strtoll16_sprintf by lia.
    rewrite (proj2 (Z.eqb_neq _ _)) by lia. by rewrite s32_small by lia.
  - intros name' Hn'. apply (strcmp_eq_spec _ name' block name (247 - length name)); try done.
    + replace (length name + S (247 - length name))%nat with 248%nat by lia.
      replace (S (247 - length name)) with (248 - length name)%nat by lia. cbn [data set_data].
      rewrite mread_mwrite_ne by lia. rewrite <- Hcpy, <- Hcl. apply mread_mwrite.
    + apply Hsub; [done|lia|lia|lia].
  - intros x Hx. cbn [data set_data]. rewrite !mwrite_ne; [done|rewrite Hcl; lia|rewrite Hdl; lia].
Qed.

(** ** Concrete runs *)

(** A root directory holding a file ["a"] of two blocks with its first [n] bytes
    in use. *)
Definition demo_fs (n : Z) : file_system :=
  let root := Inode 0 0 (Z.lor 493 (Z.shiftl TYPE_DIRECTORY RWX_BITS_NUMBER)) 1 0 0 0 256 (0 :: replicate 10 (-1)) (-1) in
  let file := Inode 0 0 (Z.lor 493 (Z.shiftl TYPE_FILE RWX_BITS_NUMBER)) 1 0 0 0 n (2 :: 1 :: replicate 9 (-1)) (-1) in
  let empty := Fs (Superblock 0 2 3) [root; file] (fun x => if x <? 16384 then 0 else x `mod` 251) [1; 1; 1] [] 7 0 in
  match make_string_from_dirent 0 (bytes_of_string "a") 1 empty with Done fs => fs | _ => empty end.

Definition demo_inode (n : Z) : inode :=
  Inode 0 0 (Z.lor 493 (Z.shiftl TYPE_FILE RWX_BITS_NUMBER)) 1 0 0 0 n (2 :: 1 :: replicate 9 (-1)) (-1).

Lemma demo_blocks n c : 0 <= c <= 2 -> has_blocks (demo_fs n) (demo_inode n) c.
Proof.
  intros Hc. split; [lia|done| | |lia].
  - intros k Hk. assert (k = 0 \/ k = 1) as [-> | ->] by lia; eexists; (split; [reflexivity|split; [split; [done|reflexivity]|done]]).
  - intros k k' Hk Hk'. assert (k = 0 \/ k = 1) as [-> | ->] by lia;
      assert (k' = 0 \/ k' = 1) as [-> | ->] by lia; intros E; first [reflexivity | discriminate E].
Qed.

Lemma demo_get n : 0 <= n < 2 ^ 64 -> get_inode (demo_fs n) (bytes_of_string "/a") = Done (Some 1).
Proof. intros _. vm_compute. reflexivity. Qed.

Lemma minixfs_read_correct_witness :
  exists fs', minixfs_read (demo_fs 16400) (bytes_of_string "/a") 100 16380
    = Done (20, file_bytes (demo_fs 16400) (demo_inode 16400) 16380 20, 16400, fs').
Proof.
  destruct (minixfs_read_correct (demo_fs 16400) (bytes_of_string "/a") 1 (demo_inode 16400) 100 16380) as (fs' & H & _);
    [reflexivity|by apply demo_get|reflexivity|done|by apply demo_blocks|lia|lia|].
  exists fs'. exact H.
Defined.

Lemma minixfs_write_in_block_witness :
  exists fs', minixfs_write (demo_fs 10) (bytes_of_string "/a") [5; 6; 7] 3 9 = Done (3, 12, fs')
    /\ file_bytes fs' (demo_inode 10) 9 3 = [5; 6; 7].
Proof.
  destruct (minixfs_write_in_block (demo_fs 10) (bytes_of_string "/a") 1 (demo_inode 10) 3 9 [5; 6; 7]) as (fs' & H & _ & _ & Hb & _);
    [by apply demo_get|reflexivity|lia|lia|done|cbn; lia|cbn; lia|by apply demo_blocks|done|].
  exists fs'. split; [exact H|exact Hb].
Defined.

(** Bytes 4 and 5 of the request are stored as bytes 0 and 1 of the buffer. *)
Lemma minixfs_write_repeats_buffer_witness :
  exists fs', minixfs_write (demo_fs 10) (bytes_of_string "/a") [1; 2; 3; 4; 5; 6] 6 16380 = Done (6, 16386, fs')
    /\ data fs' (byte_addr (demo_fs 10) (demo_inode 10) 16384) = 1.
Proof.
  destruct (minixfs_write_repeats_buffer (demo_fs 10) (bytes_of_string "/a") 1 (demo_inode 10) 6 16380 [1; 2; 3; 4; 5; 6]) as (fs' & H & Hb);
    [by apply demo_get|reflexivity|lia|lia|done|cbn; lia|cbn; lia|by apply demo_blocks|].
  exists fs'. split; [exact H|]. exact (Hb 4 ltac:(vm_compute; split; congruence)).
Defined.

Lemma dirent_roundtrip_witness :
  exists fs', make_string_from_dirent 512 (bytes_of_string "notes") 300 (demo_fs 0) = Done fs'
    /\ make_dirent_from_string fs' 512 None = Done (Some (Dirent 512 300)).
Proof.
  destruct (dirent_roundtrip (demo_fs 0) 512 (bytes_of_string "notes") 300 None) as (fs' & H & Hd & _);
    [lia|vm_compute; lia| |reflexivity|].
  - intros c Hc. vm_compute in Hc. set_solver.
  - exists fs'. split; [exact H|exact Hd].
Defined.

(** On a fresh file system, creating ["/a"] and then ["/b"] loses ["/a"]: the
    second entry is written over the first, and looking ["/a"] up then reads an
    entry of zeros and finds nothing. *)
Theorem second_create_hides_first :
  exists fs1 fs2,
    minixfs_open (minixfs_mkfs [true] 0) (bytes_of_string "/a") O_CREAT = Done (0, fs1)
    /\ get_inode fs1 (bytes_of_string "/a") = Done (Some 1)
    /\ minixfs_open fs1 (bytes_of_string "/b") O_CREAT = Done (0, fs2)
    /\ get_inode fs2 (bytes_of_string "/b") = Done (Some 2)
    /\ get_inode fs2 (bytes_of_string "/a") = Done None
    /\ minixfs_access fs2 (bytes_of_string "/a") 0 = Done (-1).
Proof.
  eexists _, _.
  do 5 (split; [vm_compute; reflexivity|]). vm_compute. reflexivity.
Qed.
