(* ===== verification/MinixfsInv.v ===== *)
(** * Blocks and their owners

    Every block of an inode in use is marked in the data map and belongs to that inode
    alone.  Allocation and writing keep this, so a file grows without disturbing any
    other, and paths lead where they led before. *)

From stdpp Require Import strings.
From S2P Require Import Prelude CString CMem Minixfs MinixfsSpec.
Open Scope Z_scope.

(** ** Finding a free block *)

Definition heads (coins : list bool) : nat := length (filter (eq true) coins).

Definition free_at (fs : file_system) (b : Z) : Prop := 0 <= b < dblock_count (meta fs) /\ data_map fs !! Z.to_nat b = Some 0.

(** The free blocks among [n] from [i] on. *)
Definition free_in (fs : file_system) (i : Z) (n : nat) : nat := length (filter (eq 0) (take n (drop (Z.to_nat i) (data_map fs)))).

Definition free_blocks (fs : file_system) : nat := free_in fs 0 (Z.to_nat (dblock_count (meta fs))).

Definition map_ok (fs : file_system) : Prop := 0 <= dblock_count (meta fs) /\ Z.of_nat (length (data_map fs)) = dblock_count (meta fs).

Lemma get_data_used_at fs i : map_ok fs -> 0 <= i < dblock_count (meta fs) -> exists x, data_map fs !! Z.to_nat i = Some x /\ get_data_used fs i = Done x.
Proof.
  intros [H0 Hl] Hi. destruct (lookup_lt_is_Some_2 (data_map fs) (Z.to_nat i)) as [x Hx]; [lia|]. exists x. split; [done|]. unfold get_data_used.
  rewrite (proj2 (orb_false_iff _ _)) by (split; [apply Z.ltb_ge|apply Z.leb_gt]; lia). by rewrite Hx.
Qed.

Lemma free_in_S fs i n x : data_map fs !! Z.to_nat i = Some x -> 0 <= i -> free_in fs i (S n) = ((if decide (x = 0%Z) then 1 else 0) + free_in fs (i + 1)%Z n)%nat.
Proof.
  intros Hx Hi. unfold free_in. rewrite (drop_S _ _ _ Hx). cbn [take]. replace (Z.to_nat (i + 1)) with (S (Z.to_nat i)) by lia. rewrite filter_cons. repeat case_decide; subst; try done; congruence.
Qed.

Lemma set_rng_rng fs : set_rng fs (rng fs) = fs.
Proof. by destruct fs. Qed.

(** A pass takes a coin for every free block until one says yes. *)
Lemma scan_data_map_ok n i filled fs : map_ok fs -> 0 <= i -> i + Z.of_nat n = dblock_count (meta fs) -> (0 < heads (rng fs))%nat ->
  (exists b coins, scan_data_map n i filled fs = Done (inl (b, set_rng fs coins)) /\ free_at fs b /\ S (heads coins) = heads (rng fs))
  \/ (exists coins, scan_data_map n i filled fs = Done (inr (filled + Z.of_nat n - Z.of_nat (free_in fs i n), set_rng fs coins)) /\ heads coins = heads (rng fs)
      /\ (length coins + free_in fs i n = length (rng fs))%nat).
Proof.
  revert i filled fs. induction n as [|n IH]; intros i filled fs Hm Hi Hn Hh; cbn [scan_data_map].
  - right. exists (rng fs). rewrite set_rng_rng. split; [|split; [done|by rewrite Nat.add_0_r]]. do 3 f_equal. assert (free_in fs i 0 = 0%nat) as -> by done. lia.
  - destruct (get_data_used_at fs i Hm) as (x & Hx & ->); [lia|]. cbn [obind]. rewrite (free_in_S fs i n x Hx Hi). destruct (Z.eqb_spec x 0) as [->|Hne].
    + rewrite decide_True by done. destruct (rng fs) as [|[] coins] eqn:Hr; [cbn in Hh; lia| |].
      * left. exists i, coins. split; [done|]. split; [split; [lia|done]|]. done.
      * destruct (IH (i + 1) filled (set_rng fs coins)) as [(b & cs & -> & Hb & Hc)|(cs & -> & Hc & Hl)]; [done|lia|cbn; lia|done| |].
        -- left. exists b, cs. split; [done|]. split; [done|]. done.
        -- right. exists cs. split; [do 3 f_equal; unfold free_in; cbn [data_map set_rng]; lia|]. split; [done|]. cbn [rng set_rng length] in *. unfold free_in in *. cbn in Hl. lia.
    + rewrite decide_False by done. destruct (IH (i + 1) (filled + 1) fs) as [(b & cs & -> & Hb & Hc)|(cs & -> & Hc & Hl)]; [done|lia|lia|done| |].
      * left. by exists b, cs.
      * right. exists cs. split; [do 3 f_equal; lia|]. done.
Qed.

Lemma free_in_le fs i n : (free_in fs i n <= n)%nat.
Proof. unfold free_in. etrans; [apply length_filter|]. rewrite length_take. lia. Qed.

(** With a free block and a coin that says yes, a free block is found. *)
Lemma first_unused_data_ok fs : map_ok fs -> (0 < free_blocks fs)%nat -> (0 < heads (rng fs))%nat ->
  exists b coins, first_unused_data fs = Done (b, set_rng fs coins) /\ free_at fs b /\ S (heads coins) = heads (rng fs).
Proof.
  intros Hm Hf Hh. unfold first_unused_data. set (D := dblock_count (meta fs)).
  assert (Hgo : forall fuel filled fs', map_ok fs' -> meta fs' = meta fs -> data_map fs' = data_map fs -> (0 < heads (rng fs'))%nat -> (length (rng fs') < fuel)%nat -> filled < D ->
    exists b coins, first_unused_data_loop fuel filled fs' = Done (b, set_rng fs' coins) /\ free_at fs' b /\ S (heads coins) = heads (rng fs')).
  { induction fuel as [|fuel IH]; intros filled fs' Hm' Hme Hd Hh' Hl Hfill; [lia|]. cbn [first_unused_data_loop]. rewrite Hme. fold D. rewrite (proj2 (Z.ltb_lt _ _)) by done.
    assert (Hfree : free_in fs' 0 (Z.to_nat D) = free_blocks fs) by (unfold free_blocks, free_in; by rewrite Hd).
    destruct (scan_data_map_ok (Z.to_nat D) 0 0 fs') as [(b & cs & -> & Hb & Hc)|(cs & -> & Hc & Hcl)]; [done|lia|rewrite Hme; fold D; destruct Hm; unfold D; lia|done| |]; cbn [obind].
    - by exists b, cs.
    - rewrite Hfree in *. destruct (IH (0 + Z.of_nat (Z.to_nat D) - Z.of_nat (free_blocks fs)) (set_rng fs' cs)) as (b & cs' & -> & Hb & Hc'); [done|done|done|cbn [rng set_rng]; lia|cbn [rng set_rng]; lia|destruct Hm; unfold D in *; lia|].
      exists b, cs'. split; [done|]. split; [done|]. cbn [rng set_rng] in Hc'. lia. }
  apply Hgo; [done..|lia|]. pose proof (free_in_le fs 0 (Z.to_nat D)). unfold free_blocks in Hf. fold D in Hf. destruct Hm. unfold D in *. lia.
Qed.

(** ** Slots: where an inode may have a block *)

(** Slot -1 is the indirect block itself, 11 and above are its entries. *)
Definition slot_num (fs : file_system) (n : inode) (s : Z) : outcome Z :=
  if s =? -1 then Done (indirect n)
  else if s <? NUM_DIRECT_BLOCKS then load_direct n s
  else if indirect n =? UNASSIGNED_NODE then Done UNASSIGNED_NODE
  else load_block_number fs (indirect n) (s - NUM_DIRECT_BLOCKS).

Definition slot (s : Z) : Prop := -1 <= s < 4107.

Definition in_use (n : inode) : Prop := nlink n <> 0 \/ is_directory n = true.

(** Inode [i] is in use and has block [b] in slot [s]. *)
Definition holds (fs : file_system) (i : nat) (s b : Z) : Prop :=
  exists n, inodes fs !! i = Some n /\ in_use n /\ slot s /\ slot_num fs n s = Done b /\ b <> -1.

Record fs_ok (fs : file_system) : Prop := FsOk {
  ok_map : map_ok fs;
  ok_small : dblock_count (meta fs) < 2147483648;
  ok_used : forall i s b, holds fs i s b -> 0 <= b < dblock_count (meta fs) /\ data_map fs !! Z.to_nat b = Some 1;
  ok_own : forall i i' s s' b, holds fs i s b -> holds fs i' s' b -> i = i' /\ s = s';
  ok_direct : forall i n, inodes fs !! i = Some n -> in_use n -> length (direct n) = 11%nat;
}.

Lemma free_not_held fs b : fs_ok fs -> free_at fs b -> forall i s, ~ holds fs i s b.
Proof. intros H [_ Hb] i s Hh. apply (ok_used fs H) in Hh as [_ Hh]. congruence. Qed.

(** [m] and [m'] have the same bytes in block [b]. *)
Definition same_block (m m' : memory) (b : Z) : Prop := forall x, b * BLOCK_SIZE <= x < (b + 1) * BLOCK_SIZE -> m' x = m x.

Lemma same_block_refl m b : same_block m m b.
Proof. done. Qed.

Lemma same_block_trans m1 m2 m3 b : same_block m1 m2 b -> same_block m2 m3 b -> same_block m1 m3 b.
Proof. intros H1 H2 x Hx. by rewrite H2, H1. Qed.

Lemma load_block_number_same fs fs' b k : meta fs' = meta fs -> same_block (data fs) (data fs') b -> 0 <= k < 4096 -> load_block_number fs' b k = load_block_number fs b k.
Proof.
  intros Hm Hs Hk. unfold load_block_number, in_data. rewrite Hm. destruct (_ && _); [|done]. do 2 f_equal. apply ld32_ext. intros x Hx. apply Hs. unfold BLOCK_SIZE in *. lia.
Qed.

Lemma slot_same fs fs' n s : meta fs' = meta fs -> (indirect n <> -1 -> same_block (data fs) (data fs') (indirect n)) -> slot s -> slot_num fs' n s = slot_num fs n s.
Proof.
  intros Hm Hs Hsl. unfold slot_num. destruct (s =? -1) eqn:E1; [done|]. destruct (s <? NUM_DIRECT_BLOCKS) eqn:E2; [done|]. destruct (indirect n =? UNASSIGNED_NODE) eqn:E3; [done|].
  bool_to_prop. unfold slot, NUM_DIRECT_BLOCKS, UNASSIGNED_NODE in *. apply load_block_number_same; [done|by apply Hs|lia].
Qed.

Lemma holds_indirect fs i n : inodes fs !! i = Some n -> in_use n -> indirect n <> -1 -> holds fs i (-1) (indirect n).
Proof. intros Hi Hu Hn. exists n. split; [done|]. split; [done|]. split; [unfold slot; lia|done]. Qed.

(** ** A step at one inode

    Inode [i] goes from [n] to [n'], every other inode and the blocks of those in use
    stay, and the file system remains well-formed. *)

Record keeps (fs fs' : file_system) (i : nat) (n n' : inode) : Prop := Keeps {
  kp_meta : meta fs' = meta fs;
  kp_now : now fs' = now fs;
  kp_inodes : inodes fs' = <[i := n']> (inodes fs);
  kp_blocks : forall d s b, d <> i -> holds fs d s b -> same_block (data fs) (data fs') b;
  kp_ok : fs_ok fs';
}.

Lemma keeps_other fs fs' i n n' d m : keeps fs fs' i n n' -> d <> i -> inodes fs !! d = Some m -> inodes fs' !! d = Some m.
Proof. intros H Hd Hm. rewrite (kp_inodes _ _ _ _ _ H). by rewrite list_lookup_insert_ne. Qed.

Lemma keeps_slot fs fs' i n n' d m s : keeps fs fs' i n n' -> d <> i -> inodes fs !! d = Some m -> in_use m -> slot s -> slot_num fs' m s = slot_num fs m s.
Proof.
  intros H Hd Hm Hu Hs. apply slot_same; [apply (kp_meta _ _ _ _ _ H)| |done]. intros Hi. apply (kp_blocks _ _ _ _ _ H d (-1)); [done|]. by apply holds_indirect.
Qed.

Lemma keeps_holds fs fs' i n n' d s b : keeps fs fs' i n n' -> d <> i -> holds fs d s b -> holds fs' d s b.
Proof.
  intros H Hd (m & Hm & Hu & Hs & Hn & Hb). exists m. split; [by apply (keeps_other fs fs' i n n')|]. split; [done|]. split; [done|]. split; [|done].
  by rewrite (keeps_slot fs fs' i n n' d m).
Qed.

Lemma keeps_trans fs fs1 fs2 i n n1 n2 : keeps fs fs1 i n n1 -> keeps fs1 fs2 i n1 n2 -> keeps fs fs2 i n n2.
Proof.
  intros H1 H2. split.
  - by rewrite (kp_meta _ _ _ _ _ H2), (kp_meta _ _ _ _ _ H1).
  - by rewrite (kp_now _ _ _ _ _ H2), (kp_now _ _ _ _ _ H1).
  - by rewrite (kp_inodes _ _ _ _ _ H2), (kp_inodes _ _ _ _ _ H1), list_insert_insert_eq.
  - intros d s b Hd Hh. eapply same_block_trans; [by apply (kp_blocks _ _ _ _ _ H1 d s)|]. apply (kp_blocks _ _ _ _ _ H2 d s); [done|]. by apply (keeps_holds fs fs1 i n n1).
  - apply (kp_ok _ _ _ _ _ H2).
Qed.

(** Block [b] is free and becomes slot [s0] of inode [i]. *)
Lemma claim fs fs' i n n' b s0 : fs_ok fs -> inodes fs !! i = Some n -> in_use n -> free_at fs b ->
  meta fs' = meta fs -> now fs' = now fs -> data_map fs' = <[Z.to_nat b := 1]> (data_map fs) -> inodes fs' = <[i := n']> (inodes fs) ->
  in_use n' -> length (direct n') = 11%nat -> slot s0 -> slot_num fs' n' s0 = Done b ->
  (forall s, slot s -> s <> s0 -> slot_num fs' n' s = slot_num fs n s) ->
  (forall d s x, d <> i -> holds fs d s x -> same_block (data fs) (data fs') x) -> keeps fs fs' i n n'.
Proof.
  intros Hok Hi Hu [Hb Hfree] Hm Hnow Hd Hin Hu' Hl Hs0 Hslot Hrest Hblocks. pose proof Hok as [[H0 Hlen] Hsmall Hused Hown Hdir].
  pose proof (lookup_lt_Some _ _ _ Hi) as Hlt. pose proof (lookup_lt_Some _ _ _ Hfree) as Hbl.
  assert (Hcases : forall d s x, holds fs' d s x -> (d = i /\ s = s0 /\ x = b) \/ holds fs d s x).
  { intros d s x (m & Hdm & Hum & Hs & Hx & Hne). rewrite Hin in Hdm. destruct (decide (d = i)) as [->|Hdi].
    - rewrite list_lookup_insert_eq in Hdm by done. injection Hdm as <-. destruct (decide (s = s0)) as [->|Hss]; [left; rewrite Hslot in Hx; by injection Hx|].
      right. exists n. rewrite Hrest in Hx by done. done.
    - rewrite list_lookup_insert_ne in Hdm by done. right. exists m. split; [done|]. split; [done|]. split; [done|]. split; [|done]. rewrite <- Hx. symmetry. apply slot_same; [done| |done].
      intros Hind. apply (Hblocks d (-1)); [done|]. by apply holds_indirect. }
  assert (Hnb : forall d s, ~ holds fs d s b) by (by apply free_not_held).
  split; try done. split.
  - unfold map_ok. rewrite Hm, Hd, length_insert. done.
  - by rewrite Hm.
  - intros d s x Hh. rewrite Hm, Hd. apply Hcases in Hh as [(-> & -> & ->)|Hh]; [split; [done|by apply list_lookup_insert_eq]|].
    destruct (Hused d s x Hh) as [Hr Hx]. split; [done|]. destruct (decide (x = b)) as [->|Hne]; [by destruct (Hnb d s)|]. by rewrite list_lookup_insert_ne by lia.
  - intros d d' s s' x Hh Hh'. apply Hcases in Hh as [(-> & -> & ->)|Hh]; apply Hcases in Hh' as [(-> & -> & ?)|Hh'].
    + done.
    + by destruct (Hnb d' s').
    + subst. by destruct (Hnb d s).
    + by apply (Hown d d' s s' x).
  - intros d m Hdm Hum. rewrite Hin in Hdm. destruct (decide (d = i)) as [->|Hdi]; [rewrite list_lookup_insert_eq in Hdm by done; by injection Hdm as <-|].
    rewrite list_lookup_insert_ne in Hdm by done. by apply (Hdir d).
Qed.

(** ** Growing by one block *)

(** What an allocation does not change. *)
Definition same_meta (n n' : inode) : Prop :=
  uid n' = uid n /\ gid n' = gid n /\ mode n' = mode n /\ atim n' = atim n /\ mtim n' = mtim n /\ ctim n' = ctim n /\ size n' = size n.

(** Slot [s0] of inode [i], empty before, has a block. *)
Record grew (fs fs' : file_system) (i : nat) (n n' : inode) (s0 : Z) : Prop := Grew {
  g_keeps : keeps fs fs' i n n';
  g_slot : exists b, slot_num fs' n' s0 = Done b /\ b <> -1;
  g_rest : forall s, slot s -> s <> s0 -> slot_num fs' n' s = slot_num fs n s;
  g_own : forall s x, s <> -1 -> holds fs i s x -> same_block (data fs) (data fs') x;
  g_meta : same_meta n n';
  g_use : in_use n -> in_use n';
  g_free : S (free_blocks fs') = free_blocks fs;
  g_heads : S (heads (rng fs')) = heads (rng fs);
}.

Lemma free_blocks_used fs fs' b : map_ok fs -> free_at fs b -> meta fs' = meta fs -> data_map fs' = <[Z.to_nat b := 1]> (data_map fs) -> S (free_blocks fs') = free_blocks fs.
Proof.
  intros [H0 Hl] [Hb Hx] Hm Hd. unfold free_blocks, free_in. rewrite Hm, Hd. change (Z.to_nat 0) with 0%nat. rewrite !drop_0, !take_ge by (rewrite ?length_insert; lia).
  pose proof (lookup_lt_Some _ _ _ Hx) as Hlt. rewrite insert_take_drop by done. rewrite <- (take_drop_middle _ _ _ Hx) at 3.
  rewrite !filter_app, !length_app, !filter_cons. repeat case_decide; try done; cbn [length]; lia.
Qed.

Lemma load_inode_at fs i n : load_inode fs (Z.of_nat i) = Done n <-> inodes fs !! i = Some n.
Proof. unfold load_inode. rewrite (proj2 (Z.leb_le _ _)), Nat2Z.id by lia. destruct (inodes fs !! i); cbn; split; congruence. Qed.

Lemma slot_direct fs n k : 0 <= k < 11 -> slot_num fs n k = load_direct n k.
Proof. intros Hk. unfold slot_num, NUM_DIRECT_BLOCKS. rewrite (proj2 (Z.eqb_neq k (-1))), (proj2 (Z.ltb_lt k 11)) by lia. done. Qed.

Lemma slot_entry fs n k : indirect n <> -1 -> 0 <= k -> slot_num fs n (11 + k) = load_block_number fs (indirect n) k.
Proof.
  intros Hi Hk. unfold slot_num, NUM_DIRECT_BLOCKS, UNASSIGNED_NODE. rewrite (proj2 (Z.eqb_neq (11 + k) (-1))), (proj2 (Z.ltb_ge (11 + k) 11)), (proj2 (Z.eqb_neq _ _)) by lia. f_equal. lia.
Qed.

Lemma load_direct_at n (k : nat) b : direct n !! k = Some b -> load_direct n (Z.of_nat k) = Done b.
Proof. intros H. unfold load_direct. by rewrite (proj2 (Z.leb_le _ _)), Nat2Z.id, H by lia. Qed.

Lemma load_direct_done n k b : load_direct n k = Done b -> 0 <= k /\ direct n !! Z.to_nat k = Some b.
Proof. unfold load_direct. destruct (0 <=? k) eqn:E; [|done]. bool_to_prop. destruct (direct n !! Z.to_nat k); [|done]. intros [= ->]. done. Qed.

Lemma update_inode_at fs i n f : inodes fs !! i = Some n -> update_inode (Z.of_nat i) f fs = Done (set_inodes fs (<[i := f n]> (inodes fs))).
Proof. intros H. unfold update_inode. rewrite (proj2 (load_inode_at fs i n) H). cbn. by rewrite Nat2Z.id. Qed.

Lemma set_data_used_at fs b : 0 <= b < dblock_count (meta fs) -> set_data_used b true fs = set_data_map fs (<[Z.to_nat b := 1]> (data_map fs)).
Proof. intros Hb. unfold set_data_used. by rewrite (proj2 (orb_false_iff _ _)) by (split; [apply Z.ltb_ge|apply Z.leb_gt]; lia). Qed.

Lemma memset_same_block m b v x : b <> x -> same_block m (memset m (b * BLOCK_SIZE) v BLOCK_SIZE) x.
Proof. intros Hne y Hy. apply memset_ne. unfold BLOCK_SIZE in *. lia. Qed.

Lemma whole_block fs b : 0 <= b < dblock_count (meta fs) -> in_data fs (b * BLOCK_SIZE) BLOCK_SIZE = true.
Proof. intros Hb. rewrite <- (Z.add_0_r (b * BLOCK_SIZE)). apply block_in_data; [done|lia|unfold BLOCK_SIZE; lia|lia]. Qed.

(** A direct block. *)
Lemma fill_direct_one fs i n (k : nat) : fs_ok fs -> inodes fs !! i = Some n -> in_use n -> (k < 11)%nat ->
  slot_num fs n (Z.of_nat k) = Done (-1) -> (forall s, 0 <= s < Z.of_nat k -> exists b, slot_num fs n s = Done b /\ b <> -1) ->
  (0 < free_blocks fs)%nat -> (0 < heads (rng fs))%nat ->
  exists fs' n', fill_direct 1 (Z.of_nat k) (Z.of_nat i) fs = Done (0, fs') /\ grew fs fs' i n n' (Z.of_nat k) /\ indirect n' = indirect n.
Proof.
  intros Hok Hi Hu Hk Hslot Hbelow Hfree Hheads. pose proof (ok_map fs Hok) as Hm. pose proof (ok_direct fs Hok i n Hi Hu) as Hlen. pose proof (lookup_lt_Some _ _ _ Hi) as Hlt.
  rewrite slot_direct in Hslot by lia. pose proof (load_direct_done _ _ _ Hslot) as [_ Hdk]. rewrite Nat2Z.id in Hdk.
  destruct (first_unused_data_ok fs Hm Hfree Hheads) as (b & coins & Hun & Hb & Hc). pose proof Hb as [Hbr Hbm].
  assert (Hfind : list_find (fun x => x = -1) (take 11 (direct n)) = Some (k, -1)).
  { apply list_find_Some. rewrite take_ge by lia. split; [done|]. split; [done|]. intros s y Hy Hs. destruct (Hbelow (Z.of_nat s)) as (x & Hx & Hne); [lia|].
    rewrite slot_direct in Hx by lia. rewrite (load_direct_at n s y Hy) in Hx. congruence. }
  cbn [fill_direct]. rewrite (proj2 (load_inode_at fs i n) Hi). cbn [obind]. rewrite Hslot. cbn [obind]. rewrite Z.eqb_refl. unfold add_data_block_to_inode.
  rewrite (proj2 (load_inode_at fs i n) Hi). cbn [obind]. rewrite Hfind, Hun. cbn [obind]. rewrite (proj2 (Z.eqb_neq b (-1))) by lia. set (n' := with_direct n (<[k := b]> (direct n))).
  rewrite (update_inode_at (set_rng fs coins) i n) by done. cbn [obind]. fold n'. rewrite set_data_used_at by done. cbn [obind]. rewrite (proj2 (Z.eqb_neq b (-1))) by lia.
  set (fs1 := set_data_map _ _). assert (Hi1 : inodes fs1 !! i = Some n') by (cbn; by rewrite list_lookup_insert_eq). rewrite (proj2 (load_inode_at fs1 i n') Hi1). cbn [obind].
  assert (Hd : load_direct n' (Z.of_nat k) = Done b) by (apply load_direct_at; cbn; apply list_lookup_insert_eq; lia). rewrite Hd. cbn [obind]. rewrite whole_block by done.
  eexists _, n'. split; [done|]. split; [|done]. assert (Hkeep : forall d s x, holds fs d s x -> same_block (data fs) (memset (data fs) (b * BLOCK_SIZE) 0 BLOCK_SIZE) x).
  { intros d s x Hh. apply memset_same_block. intros ->. by apply (free_not_held fs x Hok Hb d s). }
  assert (Hrest : forall s, slot s -> s <> Z.of_nat k -> slot_num (set_data fs1 (memset (data fs1) (b * BLOCK_SIZE) 0 BLOCK_SIZE)) n' s = slot_num fs n s).
  { intros s Hs Hne. destruct (decide (0 <= s < 11)) as [Hd'|Hd'].
    - rewrite !slot_direct by done. unfold load_direct. destruct (0 <=? s) eqn:E; [|done]. cbn. by rewrite list_lookup_insert_ne by lia.
    - transitivity (slot_num fs n' s).
      + apply slot_same; [done| |done]. intros Hind. apply (Hkeep i (-1)). by apply (holds_indirect fs i n).
      + unfold slot_num, NUM_DIRECT_BLOCKS. destruct (s =? -1) eqn:E0; [done|]. destruct (s <? 11) eqn:E; [|done]. bool_to_prop. unfold slot in Hs. lia. }
  split.
  - apply (claim fs _ i n n' b (Z.of_nat k)); try done; [by cbn; rewrite length_insert|unfold slot; lia|by rewrite slot_direct by lia|]. intros d s x _. apply Hkeep.
  - exists b. split; [by rewrite slot_direct by lia|lia].
  - done.
  - intros s x _. apply Hkeep.
  - done.
  - done.
  - by apply (free_blocks_used fs _ b).
  - exact Hc.
Qed.

(** The indirect block; its entries are all [-1] then. *)
Lemma add_indirect_one fs i n : fs_ok fs -> inodes fs !! i = Some n -> in_use n -> indirect n = -1 ->
  (0 < free_blocks fs)%nat -> (0 < heads (rng fs))%nat ->
  exists fs' n', add_single_indirect_block (Z.of_nat i) fs = Done (0, fs') /\ grew fs fs' i n n' (-1) /\ indirect n' <> -1.
Proof.
  intros Hok Hi Hu Hind Hfree Hheads. pose proof (ok_map fs Hok) as Hm. pose proof (ok_direct fs Hok i n Hi Hu) as Hlen. pose proof (lookup_lt_Some _ _ _ Hi) as Hlt.
  destruct (first_unused_data_ok fs Hm Hfree Hheads) as (b & coins & Hun & Hb & Hc). pose proof Hb as [Hbr Hbm].
  unfold add_single_indirect_block. rewrite (proj2 (load_inode_at fs i n) Hi). cbn [obind]. unfold UNASSIGNED_NODE. rewrite Hind, Z.eqb_refl. cbn [negb]. rewrite Hun. cbn [obind].
  rewrite (proj2 (Z.eqb_neq b (-1))) by lia. rewrite (update_inode_at (set_rng fs coins) i n) by done. cbn [obind]. rewrite set_data_used_at by done.
  set (fs1 := set_data_map _ _). assert (Hi1 : inodes fs1 !! i = Some (with_indirect n b)) by (cbn; by rewrite list_lookup_insert_eq).
  rewrite (update_inode_at fs1 i _ _ Hi1). cbn [obind]. cbn [inodes fs1 set_data_map set_inodes]. rewrite list_insert_insert_eq. set (n' := with_nlink (with_indirect n b) 1).
  rewrite whole_block by done. eexists _, n'. split; [done|]. set (fs2 := set_data _ _).
  assert (Hkeep : forall d s x, holds fs d s x -> same_block (data fs) (data fs2) x).
  { intros d s x Hh. apply memset_same_block. intros ->. by apply (free_not_held fs x Hok Hb d s). }
  assert (Hrest : forall s, slot s -> s <> -1 -> slot_num fs2 n' s = slot_num fs n s).
  { intros s Hs Hne. unfold slot_num. rewrite (proj2 (Z.eqb_neq s (-1))) by done. destruct (s <? NUM_DIRECT_BLOCKS) eqn:E; [done|]. bool_to_prop. unfold slot, NUM_DIRECT_BLOCKS, UNASSIGNED_NODE in *.
    rewrite Hind, Z.eqb_refl. cbn [indirect n' with_nlink with_indirect]. rewrite (proj2 (Z.eqb_neq b (-1))) by lia. unfold load_block_number.
    rewrite (block_in_data fs2 b) by (try done; unfold BLOCK_SIZE; lia). do 2 f_equal. transitivity (s32 4294967295); [|done]. f_equal. unfold ld32, ld_le. cbn [data fs2 set_data].
    rewrite !memset_in by (unfold BLOCK_SIZE; lia). done. }
  split; [|cbn; lia]. split.
  - apply (claim fs _ i n n' b (-1)); try done; [by left|]. intros d s x _. apply Hkeep.
  - exists b. split; [done|lia].
  - done.
  - intros s x _. apply Hkeep.
  - done.
  - by left.
  - by apply (free_blocks_used fs _ b).
  - exact Hc.
Qed.

Lemma s32_u32 b : 0 <= b < 2147483648 -> s32 (u32 b) = b.
Proof. intros Hb. rewrite u32_small by lia. by rewrite s32_small by lia. Qed.

(** The first [k] entries are taken. *)
Lemma add_to_indirect_skip (k m : nat) blocks i fs : (forall s, i <= s < i + Z.of_nat k -> exists b, load_block_number fs blocks s = Done b /\ b <> -1) ->
  add_to_indirect_loop (k + m) blocks i fs = add_to_indirect_loop m blocks (i + Z.of_nat k) fs.
Proof.
  revert i. induction k as [|k IH]; intros i H; [cbn; f_equal; lia|]. cbn [Nat.add add_to_indirect_loop]. destruct (H i) as (b & -> & Hne); [lia|]. cbn [obind].
  unfold UNASSIGNED_NODE. rewrite (proj2 (Z.eqb_neq b (-1))) by done. rewrite IH by (intros s Hs; apply H; lia). f_equal. lia.
Qed.

(** A block that the indirect block names. *)
Lemma fill_indirect_one fs i n (k : nat) : fs_ok fs -> inodes fs !! i = Some n -> in_use n -> (k < 4096)%nat -> indirect n <> -1 ->
  slot_num fs n (11 + Z.of_nat k) = Done (-1) -> (forall s, 11 <= s < 11 + Z.of_nat k -> exists b, slot_num fs n s = Done b /\ b <> -1) ->
  (0 < free_blocks fs)%nat -> (0 < heads (rng fs))%nat ->
  exists fs', fill_indirect 1 (Z.of_nat k) (indirect n) fs = Done (0, fs') /\ grew fs fs' i n n (11 + Z.of_nat k).
Proof.
  intros Hok Hi Hu Hk Hind Hslot Hbelow Hfree Hheads. pose proof (ok_map fs Hok) as Hm. pose proof (ok_direct fs Hok i n Hi Hu) as Hlen.
  destruct (first_unused_data_ok fs Hm Hfree Hheads) as (b & coins & Hun & Hb & Hc). pose proof Hb as [Hbr Hbm]. pose proof (ok_small fs Hok) as Hsmall.
  pose proof (holds_indirect fs i n Hi Hu Hind) as Hhi. destruct (ok_used fs Hok _ _ _ Hhi) as [Hir _]. assert (Hbi : b <> indirect n) by (intros ->; by apply (free_not_held fs _ Hok Hb i (-1))).
  rewrite slot_entry in Hslot by (done || lia). cbn [fill_indirect]. rewrite Hslot. cbn [obind]. rewrite Z.eqb_refl. unfold add_data_block_to_indirect_block, NUM_INDIRECT_BLOCKS.
  replace (Z.to_nat 4096) with (k + S (Z.to_nat 4096 - S k))%nat by lia. rewrite add_to_indirect_skip.
  2:{ intros s Hs. destruct (Hbelow (11 + s)) as (x & Hx & Hne); [lia|]. rewrite slot_entry in Hx by (done || lia). by exists x. }
  cbn [add_to_indirect_loop]. rewrite Z.add_0_l, Hslot. cbn [obind]. unfold UNASSIGNED_NODE. rewrite Z.eqb_refl, Hun. cbn [obind]. rewrite (proj2 (Z.eqb_neq b (-1))) by lia.
  unfold store_block_number. assert (Hin : in_data fs (indirect n * BLOCK_SIZE + 4 * Z.of_nat k) 4 = true) by (apply block_in_data; unfold BLOCK_SIZE; lia).
  change (in_data (set_rng fs coins)) with (in_data fs). rewrite Hin. cbn [obind]. rewrite set_data_used_at by done. rewrite (proj2 (Z.eqb_neq b (-1))) by lia.
  set (m1 := st32 (data (set_rng fs coins)) _ _). set (fs1 := set_data_map _ _).
  assert (Hld : load_block_number fs1 (indirect n) (Z.of_nat k) = Done b).
  { unfold load_block_number. change (in_data fs1) with (in_data fs). rewrite Hin. cbn [data fs1 set_data_map set_data]. unfold m1. rewrite ld32_st32 by apply u32_range. by rewrite s32_u32 by lia. }
  rewrite Hld. cbn [obind]. rewrite whole_block by done. eexists. split; [done|]. set (fs2 := set_data _ _).
  assert (Hout : forall x, x <> indirect n -> same_block (data fs) m1 x).
  { intros x Hx y Hy. unfold m1. apply st32_ne. unfold BLOCK_SIZE in *. lia. }
  assert (Hkeep : forall d s x, holds fs d s x -> x <> indirect n -> same_block (data fs) (data fs2) x).
  { intros d s x Hh Hx. eapply same_block_trans; [by apply Hout|]. apply memset_same_block. intros ->. by apply (free_not_held fs x Hok Hb d s). }
  assert (Hld2 : forall s, 0 <= s < 4096 -> load_block_number fs2 (indirect n) s = load_block_number fs1 (indirect n) s).
  { intros s Hs. apply load_block_number_same; [done| |done]. by apply memset_same_block. }
  assert (Hrest : forall s, slot s -> s <> 11 + Z.of_nat k -> slot_num fs2 n s = slot_num fs n s).
  { intros s Hs Hne. unfold slot_num. destruct (s =? -1) eqn:E1; [done|]. destruct (s <? NUM_DIRECT_BLOCKS) eqn:E2; [done|]. destruct (indirect n =? UNASSIGNED_NODE); [done|]. bool_to_prop.
    unfold slot, NUM_DIRECT_BLOCKS in *. rewrite Hld2 by lia. unfold load_block_number. change (in_data fs1) with (in_data fs).
    destruct (in_data fs (indirect n * BLOCK_SIZE + 4 * (s - 11)) 4); [|done]. do 2 f_equal. cbn [data fs1 set_data_map set_data]. apply ld32_st32_ne. lia. }
  assert (Hnew : slot_num fs2 n (11 + Z.of_nat k) = Done b) by (rewrite slot_entry, Hld2 by (done || lia); done).
  split.
  - apply (claim fs _ i n n b (11 + Z.of_nat k)); try done; [cbn; by rewrite list_insert_id|unfold slot; lia|]. intros d s x Hd Hh. apply (Hkeep d s x Hh). intros ->.
    destruct (ok_own fs Hok _ _ _ _ _ Hh Hhi). done.
  - exists b. split; [done|lia].
  - done.
  - intros s x Hs Hh. apply (Hkeep i s x Hh). intros ->. destruct (ok_own fs Hok _ _ _ _ _ Hh Hhi). done.
  - done.
  - done.
  - by apply (free_blocks_used fs _ b).
  - exact Hc.
Qed.

(** ** Growing a file *)

(** A file has its first [c] blocks and no other. *)
Record file_ok (fs : file_system) (n : inode) (c : Z) : Prop := FileOk {
  fo_count : 0 <= c <= 4107;
  fo_have : forall k, 0 <= k < c -> exists b, slot_num fs n k = Done b /\ b <> -1;
  fo_none : forall k, c <= k < 4107 -> slot_num fs n k = Done (-1);
  fo_indirect : indirect n = -1 <-> c < 11;
}.

(** The blocks that a file of [c] data blocks takes. *)
Definition blocks_for (c : Z) : nat := Z.to_nat c + (if c <? 11 then 0 else 1).

Definition room (fs : file_system) (k : nat) : Prop := (k <= free_blocks fs)%nat /\ (k <= heads (rng fs))%nat.

Lemma block_of_slot fs n k : 0 <= k -> (11 <= k -> indirect n <> -1) -> block_of fs n k = slot_num fs n k.
Proof.
  intros Hk Hi. unfold block_of, slot_num. rewrite (proj2 (Z.eqb_neq k (-1))) by lia. destruct (k <? NUM_DIRECT_BLOCKS) eqn:E; [done|]. bool_to_prop.
  unfold NUM_DIRECT_BLOCKS, UNASSIGNED_NODE in *. by rewrite (proj2 (Z.eqb_neq _ _)) by auto.
Qed.

Lemma file_holds fs i n c k : inodes fs !! i = Some n -> in_use n -> file_ok fs n c -> 0 <= k < c -> exists b, block_of fs n k = Done b /\ holds fs i k b.
Proof.
  intros Hi Hu Hf Hk. destruct (fo_have _ _ _ Hf k Hk) as (b & Hb & Hne). pose proof (fo_count _ _ _ Hf). exists b. split.
  - rewrite block_of_slot; [done|lia|]. intros H11 Hin. apply (fo_indirect _ _ _ Hf) in Hin. lia.
  - exists n. split; [done|]. split; [done|]. split; [unfold slot; lia|done].
Qed.

Lemma file_has_blocks fs i n c c' : fs_ok fs -> inodes fs !! i = Some n -> in_use n -> file_ok fs n c -> 0 <= c' <= c -> has_blocks fs n c'.
Proof.
  intros Hok Hi Hu Hf Hc. pose proof (fo_count _ _ _ Hf).
  assert (Hblock : forall k, 0 <= k < c' -> exists b, block_of fs n k = Done b /\ holds fs i k b) by (intros k Hk; apply (file_holds fs i n c); [done..|lia]).
  assert (Hind : 11 <= c' -> indirect n <> -1) by (intros H11 Hin; apply (fo_indirect _ _ _ Hf) in Hin; lia).
  split.
  - lia.
  - apply (ok_map fs Hok).
  - intros k Hk. destruct (Hblock k Hk) as (b & Hb & Hh). destruct (ok_used fs Hok _ _ _ Hh) as [Hr _]. exists b. split; [done|]. split; [done|]. intros ->.
    destruct (ok_own fs Hok _ _ _ _ _ Hh (holds_indirect fs i n Hi Hu ltac:(lia))). lia.
  - intros k k' Hk Hk' He. destruct (Hblock k Hk) as (b & Hb & Hh). destruct (Hblock k' Hk') as (b' & Hb' & Hh'). unfold block_num in He. rewrite Hb, Hb' in He. subst b'.
    by destruct (ok_own fs Hok _ _ _ _ _ Hh Hh').
  - intros H11. apply (ok_used fs Hok i (-1)). apply holds_indirect; auto.
Qed.

(** The file of inode [i] goes from [c] to [c'] blocks; its bytes stay. *)
Record extended (fs fs' : file_system) (i : nat) (n n' : inode) (c c' : Z) : Prop := Extended {
  x_keeps : keeps fs fs' i n n';
  x_file : file_ok fs' n' c';
  x_meta : same_meta n n';
  x_use : in_use n';
  x_blocks : forall k, 0 <= k < c -> block_of fs' n' k = block_of fs n k;
  x_bytes : forall k b, 0 <= k < c -> holds fs i k b -> same_block (data fs) (data fs') b;
  x_free : (free_blocks fs' + blocks_for c' = free_blocks fs + blocks_for c)%nat;
  x_heads : (heads (rng fs') + blocks_for c' = heads (rng fs) + blocks_for c)%nat;
}.

Lemma keeps_refl fs i n : fs_ok fs -> inodes fs !! i = Some n -> keeps fs fs i n n.
Proof. intros Hok Hi. split; try done. by rewrite list_insert_id. Qed.

Lemma extended_refl fs i n c : fs_ok fs -> inodes fs !! i = Some n -> in_use n -> file_ok fs n c -> extended fs fs i n n c c.
Proof. intros Hok Hi Hu Hf. split; try done; by apply keeps_refl. Qed.

Lemma grew_inode fs fs' i n n' s0 : inodes fs !! i = Some n -> grew fs fs' i n n' s0 -> inodes fs' !! i = Some n'.
Proof. intros Hi H. rewrite (kp_inodes _ _ _ _ _ (g_keeps _ _ _ _ _ _ H)). apply list_lookup_insert_eq. by eapply lookup_lt_Some. Qed.

(** A data block in the next slot, other than the eleventh. *)
Lemma grew_extended fs fs' i n n' c : fs_ok fs -> inodes fs !! i = Some n -> in_use n -> file_ok fs n c -> c < 4107 -> c <> 10 -> grew fs fs' i n n' c -> (indirect n' = indirect n) ->
  extended fs fs' i n n' c (c + 1).
Proof.
  intros Hok Hi Hu Hf Hc H10 [Hk (b & Hb & Hne) Hr Ho Hm Hu' Hfr Hh] Hind. pose proof (fo_count _ _ _ Hf). assert (Hin : indirect n = -1 <-> c < 11) by apply (fo_indirect _ _ _ Hf).
  split; try done.
  - split; [lia| | |rewrite Hind; lia].
    + intros k Hk'. destruct (decide (k = c)) as [->|Hkc]; [by exists b|]. rewrite Hr by (unfold slot; lia). apply (fo_have _ _ _ Hf). lia.
    + intros k Hk'. rewrite Hr by (unfold slot; lia). apply (fo_none _ _ _ Hf). lia.
  - by apply Hu'.
  - intros k Hk'. rewrite !block_of_slot by lia. apply Hr; [unfold slot; lia|lia].
  - intros k x Hk' Hx. apply (Ho k x); [lia|done].
  - unfold blocks_for. destruct (c <? 11) eqn:E1, (c + 1 <? 11) eqn:E2; bool_to_prop; lia.
  - unfold blocks_for. destruct (c <? 11) eqn:E1, (c + 1 <? 11) eqn:E2; bool_to_prop; lia.
Qed.

Lemma fill_direct_skip (k m : nat) fs node n i : load_inode fs node = Done n -> 0 <= i -> i + Z.of_nat k <= 11 ->
  (forall s, i <= s < i + Z.of_nat k -> exists b, slot_num fs n s = Done b /\ b <> -1) -> fill_direct (k + m) i node fs = fill_direct m (i + Z.of_nat k) node fs.
Proof.
  revert i. induction k as [|k IH]; intros i Hn Hi Hk Hb; [cbn; f_equal; lia|]. cbn [Nat.add fill_direct]. rewrite Hn. cbn [obind].
  destruct (Hb i) as (b & Hs & Hne); [lia|]. rewrite slot_direct in Hs by lia. rewrite Hs. cbn [obind]. rewrite (proj2 (Z.eqb_neq b (-1))) by done.
  rewrite IH by (try done; try lia; intros s Hs'; apply Hb; lia). f_equal. lia.
Qed.

Lemma fill_indirect_skip (k m : nat) fs blocks i : (forall s, i <= s < i + Z.of_nat k -> exists b, load_block_number fs blocks s = Done b /\ b <> -1) ->
  fill_indirect (k + m) i blocks fs = fill_indirect m (i + Z.of_nat k) blocks fs.
Proof.
  revert i. induction k as [|k IH]; intros i Hb; [cbn; f_equal; lia|]. cbn [Nat.add fill_indirect]. destruct (Hb i) as (b & -> & Hne); [lia|]. cbn [obind].
  rewrite (proj2 (Z.eqb_neq b (-1))) by done. rewrite IH by (intros s Hs'; apply Hb; lia). f_equal. lia.
Qed.

(** The eleventh block comes with the indirect block. *)
Lemma extend_eleven fs i n : fs_ok fs -> inodes fs !! i = Some n -> in_use n -> file_ok fs n 10 -> room fs 2 ->
  exists fs1 n1 fs2 n2, fill_direct 1 10 (Z.of_nat i) fs = Done (0, fs1) /\ inodes fs1 !! i = Some n1
    /\ add_single_indirect_block (Z.of_nat i) fs1 = Done (0, fs2) /\ inodes fs2 !! i = Some n2 /\ extended fs fs2 i n n2 10 11.
Proof.
  intros Hok Hi Hu Hf [Hfree Hheads]. pose proof (fo_indirect _ _ _ Hf) as Hind.
  destruct (fill_direct_one fs i n 10 Hok Hi Hu) as (fs1 & n1 & H1 & G1 & I1); [lia|apply (fo_none _ _ _ Hf); lia|intros s Hs; apply (fo_have _ _ _ Hf); lia|lia|lia|].
  pose proof (grew_inode _ _ _ _ _ _ Hi G1) as Hi1. destruct G1 as [K1 (b & Hb & Hne) R1 O1 M1 U1 F1 E1]. pose proof (kp_ok _ _ _ _ _ K1) as Hok1.
  destruct (add_indirect_one fs1 i n1 Hok1 Hi1 (U1 Hu)) as (fs2 & n2 & H2 & G2 & I2); [rewrite I1; apply Hind; lia|lia|lia|].
  pose proof (grew_inode _ _ _ _ _ _ Hi1 G2) as Hi2. destruct G2 as [K2 (b2 & Hb2 & Hne2) R2 O2 M2 U2 F2 E2].
  exists fs1, n1, fs2, n2. split; [done|]. split; [done|]. split; [done|]. split; [done|].
  assert (Hslot : forall s, 0 <= s < 4107 -> s <> 10 -> slot_num fs2 n2 s = slot_num fs n s) by (intros s Hs Hs'; rewrite R2, R1 by (unfold slot; lia); done).
  split; try done.
  - by apply (keeps_trans fs fs1 fs2 i n n1 n2).
  - split; [lia| | |split; [done|lia]].
    + intros k Hk. destruct (decide (k = 10)) as [->|Hk']; [rewrite R2 by (unfold slot; lia); by exists b|]. rewrite Hslot by lia. apply (fo_have _ _ _ Hf). lia.
    + intros k Hk. rewrite Hslot by lia. apply (fo_none _ _ _ Hf). lia.
  - destruct M1 as (? & ? & ? & ? & ? & ? & ?), M2 as (? & ? & ? & ? & ? & ? & ?). repeat split; congruence.
  - by apply U2, U1.
  - intros k Hk. rewrite !block_of_slot by lia. apply Hslot; lia.
  - intros k x Hk Hx. eapply same_block_trans; [apply (O1 k x); [lia|done]|]. apply (O2 k x); [lia|]. destruct Hx as (m & Hm & Hum & Hs & Hx & Hxn). rewrite Hi in Hm. injection Hm as <-.
    exists n1. split; [done|]. split; [by apply U1|]. split; [done|]. split; [|done]. rewrite R1 by (done || lia). done.
  - unfold blocks_for. cbn. lia.
  - unfold blocks_for. cbn. lia.
Qed.

Lemma blocks_for_one c : 0 <= c -> c <> 10 -> (blocks_for (c + 1) - blocks_for c)%nat = 1%nat.
Proof. intros Hc Hne. unfold blocks_for. destruct (c <? 11) eqn:E1, (c + 1 <? 11) eqn:E2; bool_to_prop; lia. Qed.

(** What [minixfs_min_blockcount] does for a file that needs one block more at most. *)
Lemma min_blockcount_extends fs path i n c c' : fs_ok fs -> get_inode fs path = Done (Some (Z.of_nat i)) -> inodes fs !! i = Some n -> in_use n -> file_ok fs n c ->
  0 <= c' <= c + 1 -> c' <= 4107 -> room fs (blocks_for c' - blocks_for c) ->
  exists fs' n', minixfs_min_blockcount path c' fs = Done (0, fs') /\ inodes fs' !! i = Some n' /\ extended fs fs' i n n' c (Z.max c c').
Proof.
  intros Hok Hg Hi Hu Hf Hc' Hmax Hroom. destruct (decide (c' <= c)) as [Hle|Hgt].
  { exists fs, n. rewrite Z.max_l by done. split; [|split; [done|by apply extended_refl]]. apply (min_blockcount_done fs path (Z.of_nat i) n); [done|by apply load_inode_at|apply (file_has_blocks fs i n c); [done..|lia]]. }
  assert (c' = c + 1) as -> by lia. rewrite Z.max_r by lia. pose proof (fo_count _ _ _ Hf) as Hc. pose proof (fo_indirect _ _ _ Hf) as Hind.
  pose proof (proj2 (load_inode_at fs i n) Hi) as Hload. unfold minixfs_min_blockcount. rewrite Hg. cbn [obind]. unfold NUM_DIRECT_BLOCKS.
  destruct (decide (c < 10)) as [H10|H10].
  - rewrite (proj2 (Z.ltb_lt (c + 1) 11)) by lia. replace (Z.to_nat (c + 1)) with (Z.to_nat c + 1)%nat by lia.
    rewrite (fill_direct_skip (Z.to_nat c) 1 fs (Z.of_nat i) n 0) by (try done; try lia; intros s Hs; apply (fo_have _ _ _ Hf); lia). rewrite Z.add_0_l.
    assert (Hr : room fs 1) by (rewrite <- (blocks_for_one c); [done|lia|lia]).
    destruct (fill_direct_one fs i n (Z.to_nat c) Hok Hi Hu) as (fs1 & n1 & H1 & G1 & I1);
      [lia|rewrite Z2Nat.id by lia; apply (fo_none _ _ _ Hf); lia|intros s Hs; apply (fo_have _ _ _ Hf); lia|destruct Hr; lia|destruct Hr; lia|].
    rewrite Z2Nat.id in * by lia. exists fs1, n1. split; [done|]. split; [by apply (grew_inode fs fs1 i n n1 c)|]. apply grew_extended; try done; lia.
  - rewrite (proj2 (Z.ltb_ge (c + 1) 11)) by lia. destruct (decide (c = 10)) as [->|Hne].
    + change 11%nat with (10 + 1)%nat. rewrite (fill_direct_skip 10 1 fs (Z.of_nat i) n 0) by (try done; try lia; intros s Hs; apply (fo_have _ _ _ Hf); lia). change (0 + Z.of_nat 10) with 10.
      destruct (extend_eleven fs i n Hok Hi Hu Hf Hroom) as (fs1 & n1 & fs2 & n2 & -> & _ & H2 & Hi2 & Hx). cbn [obind]. change (0 =? -1) with false. cbv iota. rewrite H2. cbn [obind].
      change (0 =? -1) with false. cbv iota. rewrite (proj2 (load_inode_at fs2 i n2) Hi2). cbn [obind]. exists fs2, n2. split; [done|]. by split.
    + assert (Hin : indirect n <> -1) by (intros E; apply Hind in E; lia). change 11%nat with (11 + 0)%nat.
      rewrite (fill_direct_skip 11 0 fs (Z.of_nat i) n 0) by (try done; try lia; intros s Hs; apply (fo_have _ _ _ Hf); lia). cbn [fill_direct obind]. change (0 =? -1) with false. cbv iota.
      unfold add_single_indirect_block. rewrite Hload. cbn [obind]. unfold UNASSIGNED_NODE. rewrite (proj2 (Z.eqb_neq (indirect n) (-1))) by done. cbn [negb obind]. change (0 =? -1) with false. cbv iota.
      rewrite Hload. cbn [obind]. replace (Z.to_nat (c + 1 - 11)) with (Z.to_nat (c - 11) + 1)%nat by lia.
      rewrite fill_indirect_skip by (intros s Hs; rewrite <- slot_entry by (done || lia); apply (fo_have _ _ _ Hf); lia). rewrite Z.add_0_l.
      assert (Hr : room fs 1) by (rewrite <- (blocks_for_one c); [done|lia|lia]).
      assert (Hk : 11 + Z.of_nat (Z.to_nat (c - 11)) = c) by lia.
      destruct (fill_indirect_one fs i n (Z.to_nat (c - 11)) Hok Hi Hu) as (fs1 & H1 & G1);
        [lia|done|rewrite Hk; apply (fo_none _ _ _ Hf); lia|intros s Hs; apply (fo_have _ _ _ Hf); lia|destruct Hr; lia|destruct Hr; lia|].
      rewrite Hk in G1. exists fs1, n. split; [done|]. split; [by apply (grew_inode fs fs1 i n n c)|]. apply grew_extended; try done; lia.
Qed.

(** ** Writing *)

(** The inode and data bytes of [i] change, its blocks do not. *)
Lemma rewrite_keeps fs fs' i n n' : fs_ok fs -> inodes fs !! i = Some n -> in_use n -> in_use n' -> direct n' = direct n -> indirect n' = indirect n ->
  meta fs' = meta fs -> now fs' = now fs -> data_map fs' = data_map fs -> inodes fs' = <[i := n']> (inodes fs) ->
  (forall d s x, holds fs d s x -> d <> i \/ s = -1 -> same_block (data fs) (data fs') x) ->
  keeps fs fs' i n n' /\ forall s, slot s -> slot_num fs' n' s = slot_num fs n s.
Proof.
  intros Hok Hi Hu Hu' Hd Hin Hm Hnow Hmap Hino Hblocks. pose proof (lookup_lt_Some _ _ _ Hi) as Hlt. pose proof Hok as [[H0 Hlen] Hsmall Hused Hown Hdir].
  assert (Hslot : forall s, slot s -> slot_num fs' n' s = slot_num fs n s).
  { intros s Hs. transitivity (slot_num fs n' s); [|unfold slot_num, load_direct; by rewrite Hd, Hin]. apply slot_same; [done| |done].
    intros Hne. rewrite Hin in *. apply (Hblocks i (-1)); [by apply holds_indirect|by right]. }
  split; [|done].
  assert (Hcases : forall d s x, holds fs' d s x -> holds fs d s x).
  { intros d s x (m & Hdm & Hum & Hs & Hx & Hne). rewrite Hino in Hdm. destruct (decide (d = i)) as [->|Hdi].
    - rewrite list_lookup_insert_eq in Hdm by done. injection Hdm as <-. exists n. rewrite Hslot in Hx by done. done.
    - rewrite list_lookup_insert_ne in Hdm by done. exists m. split; [done|]. split; [done|]. split; [done|]. split; [|done]. rewrite <- Hx. symmetry. apply slot_same; [done| |done].
      intros Hind. apply (Hblocks d (-1)); [by apply holds_indirect|by left]. }
  split; try done.
  - intros d s b Hdi Hh. apply (Hblocks d s b Hh). by left.
  - split.
    + unfold map_ok. by rewrite Hm, Hmap.
    + by rewrite Hm.
    + intros d s x Hh. rewrite Hm, Hmap. by apply (Hused d s x), Hcases.
    + intros d d' s s' x Hh Hh'. by apply (Hown d d' s s' x); apply Hcases.
    + intros d m Hdm Hum. rewrite Hino in Hdm. destruct (decide (d = i)) as [->|Hdi]; [rewrite list_lookup_insert_eq in Hdm by done; injection Hdm as <-; rewrite Hd; by apply (Hdir i n)|].
      rewrite list_lookup_insert_ne in Hdm by done. by apply (Hdir d).
Qed.

(** The bytes of a file. *)
Definition content (fs : file_system) (n : inode) : list Z := file_bytes fs n 0 (Z.to_nat (size n)).

Definition overwrite (l : list Z) (off : nat) (bs : list Z) : list Z := take off l ++ bs ++ drop (off + length bs) l.

Lemma file_bytes_lookup fs n off len j : (j < len)%nat -> file_bytes fs n off len !! j = Some (data fs (byte_addr fs n (off + Z.of_nat j))).
Proof.
  revert off j. induction len as [|len IH]; intros off j Hj; [lia|]. destruct j as [|j]; cbn [file_bytes lookup list_lookup]; [by rewrite Z.add_0_r|].
  rewrite IH by lia. do 3 f_equal. lia.
Qed.

Lemma overwrite_lookup l off bs (j : nat) : (off <= length l)%nat ->
  overwrite l off bs !! j = if decide (off <= j < off + length bs)%nat then bs !! (j - off)%nat else l !! j.
Proof.
  intros Ho. unfold overwrite. case_decide as Hj.
  - rewrite lookup_app_r by (rewrite length_take; lia). rewrite length_take, Nat.min_l, lookup_app_l by lia. done.
  - destruct (decide (j < off)%nat).
    + rewrite lookup_app_l by (rewrite length_take; lia). by rewrite lookup_take_lt by lia.
    + rewrite lookup_app_r, length_take, Nat.min_l, lookup_app_r, lookup_drop by (rewrite ?length_take; lia). f_equal. lia.
Qed.

Lemma length_overwrite l off bs : (off <= length l)%nat -> length (overwrite l off bs) = Nat.max (length l) (off + length bs).
Proof. intros Ho. unfold overwrite. rewrite !length_app, length_take, length_drop. lia. Qed.

Lemma overwrite_end l off bs : length l = off -> overwrite l off bs = l ++ bs.
Proof. intros <-. unfold overwrite. rewrite take_ge, drop_ge by lia. by rewrite app_nil_r. Qed.

Definition blocks_of_size (x : Z) : Z := (x + BLOCK_SIZE - 1) / BLOCK_SIZE.

Lemma block_index x y : 0 <= x < y -> 0 <= x / BLOCK_SIZE < blocks_of_size y.
Proof. intros H. unfold blocks_of_size, BLOCK_SIZE. Z.div_mod_to_equations. lia. Qed.

(** A byte of a block the file has. *)
Lemma byte_in_block fs i n c o : inodes fs !! i = Some n -> in_use n -> file_ok fs n c -> 0 <= o -> o / BLOCK_SIZE < c ->
  exists b, holds fs i (o / BLOCK_SIZE) b /\ block_of fs n (o / BLOCK_SIZE) = Done b /\ byte_addr fs n o = b * BLOCK_SIZE + o `mod` BLOCK_SIZE /\ b * BLOCK_SIZE <= byte_addr fs n o < (b + 1) * BLOCK_SIZE.
Proof.
  intros Hi Hu Hf Ho Hc. assert (0 <= o / BLOCK_SIZE) by (apply Z.div_pos; [done|unfold BLOCK_SIZE; lia]).
  destruct (file_holds fs i n c (o / BLOCK_SIZE) Hi Hu Hf) as (b & Hb & Hh); [lia|]. exists b. split; [done|]. split; [done|].
  assert (Hba : byte_addr fs n o = b * BLOCK_SIZE + o `mod` BLOCK_SIZE) by (unfold byte_addr, block_num; by rewrite Hb). split; [done|]. rewrite Hba.
  assert (0 <= o `mod` BLOCK_SIZE < BLOCK_SIZE) by by apply Z.mod_pos_bound. unfold BLOCK_SIZE in *. lia.
Qed.

Lemma extended_byte fs fs' i n n' c c' o : inodes fs !! i = Some n -> in_use n -> file_ok fs n c -> extended fs fs' i n n' c c' -> 0 <= o -> o / BLOCK_SIZE < c ->
  byte_addr fs' n' o = byte_addr fs n o /\ data fs' (byte_addr fs n o) = data fs (byte_addr fs n o).
Proof.
  intros Hi Hu Hf Hx Ho Hc. destruct (byte_in_block fs i n c o Hi Hu Hf Ho Hc) as (b & Hh & Hb & Ha & Hr). pose proof (Z.div_pos o BLOCK_SIZE Ho ltac:(unfold BLOCK_SIZE; lia)) as Hk. split.
  - unfold byte_addr, block_num. by rewrite (x_blocks _ _ _ _ _ _ _ Hx) by lia.
  - apply (x_bytes _ _ _ _ _ _ _ Hx (o / BLOCK_SIZE) b); [lia|done|done].
Qed.

(** ** Reading another file, or a directory, after a step at [i] *)

Lemma keeps_file fs fs' i n n' d m c : keeps fs fs' i n n' -> d <> i -> inodes fs !! d = Some m -> in_use m -> file_ok fs m c -> file_ok fs' m c.
Proof.
  intros H Hd Hm Hu [Hc Hh Hn Hi]. assert (Hs : forall k, 0 <= k < 4107 -> slot_num fs' m k = slot_num fs m k) by (intros k Hk; apply (keeps_slot fs fs' i n n' d m k); try done; unfold slot; lia).
  split; [done| | |done]; intros k Hk; rewrite Hs by lia; auto.
Qed.

Lemma keeps_content fs fs' i n n' d m : keeps fs fs' i n n' -> d <> i -> inodes fs !! d = Some m -> in_use m -> 0 <= size m -> file_ok fs m (blocks_of_size (size m)) ->
  content fs' m = content fs m.
Proof.
  intros H Hd Hm Hu Hs Hf. pose proof (fo_count _ _ _ Hf) as Hc. unfold content. apply list_eq. intros j. destruct (decide (j < Z.to_nat (size m))%nat) as [Hj|Hj].
  2:{ by rewrite !lookup_ge_None_2 by (rewrite length_file_bytes; lia). }
  rewrite !file_bytes_lookup by done. f_equal. rewrite Z.add_0_l.
  destruct (block_index (Z.of_nat j) (size m)) as [Hk0 Hk]; [lia|]. destruct (byte_in_block fs d m _ (Z.of_nat j) Hm Hu Hf) as (b & Hh & Hb & Ha & Hr); [lia|lia|].
  assert (byte_addr fs' m (Z.of_nat j) = byte_addr fs m (Z.of_nat j)) as ->.
  { unfold byte_addr, block_num. assert (Hin : 11 <= Z.of_nat j / BLOCK_SIZE -> indirect m <> -1) by (intros H11 E; apply (fo_indirect _ _ _ Hf) in E; lia).
    rewrite !block_of_slot by (done || lia). by rewrite (keeps_slot fs fs' i n n' d m) by (try done; unfold slot; lia). }
  by apply (kp_blocks _ _ _ _ _ H d _ b Hd Hh).
Qed.

(** ** Writing at the end or inside *)

(** A byte written is a byte of the file. *)
Lemma byte_of_file n off count c o : blocks_of_size (Z.max (size n) (off + count)) = c -> 0 <= o < Z.max (size n) (off + count) -> 0 <= o / BLOCK_SIZE < c.
Proof. intros <- Ho. by apply block_index. Qed.

(** The bytes go where the file's blocks are; nothing else changes. *)
Lemma write_rest_keeps fs i n c count off buf : fs_ok fs -> inodes fs !! i = Some n -> in_use n -> file_ok fs n c -> 0 <= size n -> blocks_of_size (Z.max (size n) (off + count)) = c ->
  0 <= off -> 0 < count -> off + count <= MAX_SIZE -> count <= Z.of_nat (length buf) -> off `mod` BLOCK_SIZE + count <= BLOCK_SIZE ->
  let n' := written_inode fs n (off + count) in
  exists fs', write_rest (Z.of_nat i) buf count off fs = Done (count, off + count, fs') /\ keeps fs fs' i n n' /\ file_ok fs' n' c /\ data_map fs' = data_map fs /\ rng fs' = rng fs
    /\ forall o, 0 <= o < Z.max (size n) (off + count) -> byte_addr fs' n' o = byte_addr fs n o
         /\ data fs' (byte_addr fs n o) = if decide (off <= o < off + count) then nth (Z.to_nat (o - off)) buf 0 else data fs (byte_addr fs n o).
Proof.
  intros Hok Hi Hu Hf Hsz Hcs Ho Hc Hmax Hbuf Hone n'. pose proof (fo_count _ _ _ Hf) as Hc0.
  assert (Hcw : 0 <= (off + count + BLOCK_SIZE - 1) / BLOCK_SIZE <= c) by (rewrite <- Hcs; unfold blocks_of_size, BLOCK_SIZE; Z.div_mod_to_equations; lia).
  destruct (write_rest_exact fs (Z.of_nat i) n count off buf) as (fs1 & Hrun & Hw); try done; [by apply load_inode_at|by apply (file_has_blocks fs i n c)|].
  rewrite Nat2Z.id in Hrun. fold n' in Hrun. eexists. split; [exact Hrun|]. set (fs' := set_inodes fs1 _).
  assert (Haddr : forall o, 0 <= o < Z.max (size n) (off + count) -> exists b, holds fs i (o / BLOCK_SIZE) b /\ block_of fs n (o / BLOCK_SIZE) = Done b
    /\ b * BLOCK_SIZE <= byte_addr fs n o < (b + 1) * BLOCK_SIZE).
  { intros o Hoo. pose proof (byte_of_file n off count c o Hcs Hoo). destruct (byte_in_block fs i n c o) as (b & Hh & Hb & _ & Hr); try done; [lia..|]. by exists b. }
  destruct (rewrite_keeps fs fs' i n n') as [Hk Hslot]; try done.
  { apply (w_meta _ _ _ _ _ _ _ _ Hw). } { apply (w_now _ _ _ _ _ _ _ _ Hw). } { apply (w_map _ _ _ _ _ _ _ _ Hw). }
  { intros d s x Hh Hds y Hy. apply (w_old _ _ _ _ _ _ _ _ Hw). intros j Hj ->. destruct (Haddr (off + j)) as (b & Hhb & _ & Hr); [lia|].
    assert (b = x) as -> by (unfold BLOCK_SIZE in *; lia). destruct (ok_own fs Hok _ _ _ _ _ Hh Hhb) as [-> Hs].
    assert (0 <= (off + j) / BLOCK_SIZE) by (apply Z.div_pos; [lia|done]). destruct Hds; [done|lia]. }
  split; [done|]. split.
  { destruct Hf as [Hf1 Hf2 Hf3 Hf4]. split; [done| | |done]; intros k Hkk; rewrite Hslot by (unfold slot; lia); auto. }
  split; [apply (w_map _ _ _ _ _ _ _ _ Hw)|]. split; [apply (w_rng _ _ _ _ _ _ _ _ Hw)|].
  intros o Hoo. pose proof (byte_of_file n off count c o Hcs Hoo) as Hkc. split.
  { unfold byte_addr, block_num. assert (Hin : 11 <= o / BLOCK_SIZE -> indirect n <> -1) by (intros H11 E; apply (fo_indirect _ _ _ Hf) in E; lia).
    rewrite !block_of_slot by (done || lia). rewrite Hslot by (unfold slot; lia). done. }
  cbn [data fs' set_inodes]. case_decide as Hin.
  - replace o with (off + (o - off)) at 1 by lia. rewrite (w_new _ _ _ _ _ _ _ _ Hw) by lia. unfold write_source. by rewrite (proj2 (Z.ltb_lt _ _)) by lia.
  - apply (w_old _ _ _ _ _ _ _ _ Hw). intros j Hj Heq. apply Hin. apply (byte_addr_inj fs n c) in Heq; [lia|apply (file_has_blocks fs i n c); [done..|lia]| |];
    rewrite <- Hcs; unfold blocks_of_size, BLOCK_SIZE; Z.div_mod_to_equations; lia.
Qed.

(** ** Paths after a step at a regular file *)

Definition entry_same (fs fs' : file_system) (a : Z) : Prop := forall x, a <= x < a + FILE_NAME_ENTRY -> data fs' x = data fs x.

Definition node_same (fs fs' : file_system) (node : option minixfs_dirent) : Prop := forall d, node = Some d -> entry_same fs fs' (name_addr d).

(** No name of the path is longer than a directory entry. *)
Definition short (path : list Z) : Prop := Forall (fun t => (length t < 256)%nat) (tokens path []).

Lemma mread_same m m' a n : (forall x, a <= x < a + Z.of_nat n -> m' x = m x) -> mread m' a n = mread m a n.
Proof.
  revert a. induction n as [|n IH]; intros a H; [done|]. change (m' a :: mread m' (a + 1) n = m a :: mread m (a + 1) n). f_equal; [apply H; lia|]. apply IH. intros x Hx. apply H. lia.
Qed.

Lemma read_data_same fs fs' a k e : meta fs' = meta fs -> entry_same fs fs' e -> e <= a -> a + k <= e + FILE_NAME_ENTRY -> 0 <= k -> read_data fs' a k = read_data fs a k.
Proof. intros Hm He Ha Hk Hk0. unfold read_data, in_data. rewrite Hm. destruct (_ && _); [|done]. f_equal. apply mread_same. intros x Hx. apply He. lia. Qed.

Lemma strcmp_eq_same fs fs' e name (k : nat) : meta fs' = meta fs -> entry_same fs fs' e -> Z.of_nat k + Z.of_nat (length name) < 256 ->
  strcmp_eq fs' name (e + Z.of_nat k) = strcmp_eq fs name (e + Z.of_nat k).
Proof.
  intros Hm He. revert k. induction name as [|c name IH]; intros k Hk; cbn [strcmp_eq length] in *; rewrite (read_data_same fs fs' _ _ e) by (try done; unfold FILE_NAME_ENTRY; lia); [done|].
  destruct (read_data fs (e + Z.of_nat k) 1) as [v| | |]; cbn [obind]; [|done..]. case_bool_decide; [|done]. replace (e + Z.of_nat k + 1) with (e + Z.of_nat (S k)) by lia. apply IH. lia.
Qed.

Lemma make_dirent_same fs fs' e node : meta fs' = meta fs -> entry_same fs fs' e -> node_same fs fs' node ->
  make_dirent_from_string fs' e node = make_dirent_from_string fs e node /\ forall node', make_dirent_from_string fs e node = Done node' -> node_same fs fs' node'.
Proof.
  intros Hm He Hn. unfold make_dirent_from_string. rewrite (read_data_same fs fs' _ _ e) by (try done; unfold FILE_NAME_LENGTH, FILE_NAME_ENTRY; lia). split; [done|].
  destruct (read_data fs (e + FILE_NAME_LENGTH) 8) as [v| | |]; cbn [obind]; [|done..]. intros node'. destruct (strtoll16 v =? 0); intros [= <-]; [done|]. by intros d [= <-].
Qed.

Lemma scan_block_same n fs fs' name block sz node : meta fs' = meta fs -> (length name < 256)%nat -> (forall k, 0 <= k < Z.of_nat n -> entry_same fs fs' (block + k * FILE_NAME_ENTRY)) ->
  node_same fs fs' node -> scan_block n fs' name block sz node = scan_block n fs name block sz node
    /\ forall r, scan_block n fs name block sz node = Done r -> node_same fs fs' r.2.
Proof.
  intros Hm Hl. revert block sz node. induction n as [|n IH]; intros block sz node He Hn; cbn [scan_block]; [split; [done|by intros r [= <-]]|].
  destruct (0 <? sz); [|split; [done|by intros r [= <-]]]. destruct (make_dirent_same fs fs' block node) as [-> Hnode]; [done|rewrite <- (Z.add_0_r block); apply (He 0); lia|done|].
  destruct (make_dirent_from_string fs block node) as [node'| | |] eqn:E; cbn [obind]; [|done..]. specialize (Hnode node' eq_refl). destruct node' as [d|]; cbn [deref obind]; [|done].
  assert (strcmp_eq fs' name (name_addr d) = strcmp_eq fs name (name_addr d)) as ->.
  { pose proof (strcmp_eq_same fs fs' (name_addr d) name 0 Hm (Hnode d eq_refl) ltac:(lia)) as Hc. by rewrite Z.add_0_r in Hc. }
  destruct (strcmp_eq fs name (name_addr d)) as [[]| | |]; cbn [obind]; [split; [done|by intros r [= <-]]| |done..].
  apply IH; [|done]. intros k Hk. replace (block + FILE_NAME_ENTRY + k * FILE_NAME_ENTRY) with (block + (k + 1) * FILE_NAME_ENTRY) by lia. apply He. lia.
Qed.

Section lookup.
Context (fs fs' : file_system) (i : nat) (n n' : inode) (Hok : fs_ok fs) (H : keeps fs fs' i n n').

(** The entries of a block that directory [d] has. *)
Lemma block_entries d s b k : d <> i -> holds fs d s b -> 0 <= k < 64 -> entry_same fs fs' (b * BLOCK_SIZE + k * FILE_NAME_ENTRY).
Proof. intros Hd Hh Hk x Hx. apply (kp_blocks _ _ _ _ _ H d s b Hd Hh). unfold BLOCK_SIZE, FILE_NAME_ENTRY in *. lia. Qed.

Lemma scan_held d s b name sz node : d <> i -> holds fs d s b -> (length name < 256)%nat -> node_same fs fs' node ->
  scan_block 64 fs' name (b * BLOCK_SIZE) sz node = scan_block 64 fs name (b * BLOCK_SIZE) sz node
    /\ forall r, scan_block 64 fs name (b * BLOCK_SIZE) sz node = Done r -> node_same fs fs' r.2.
Proof. intros Hd Hh Hl Hn. apply scan_block_same; [apply (kp_meta _ _ _ _ _ H)|done| |done]. intros k Hk. apply (block_entries d s); [done..|lia]. Qed.

(** A block number of -1 leaves the data region. *)
Lemma scan_nowhere f m name sz node : 0 < sz -> scan_block (S m) f name (-1 * BLOCK_SIZE) sz node = Undef.
Proof. intros Hs. cbn [scan_block]. by rewrite (proj2 (Z.ltb_lt _ _)) by done. Qed.

Lemma find_loop_same fuel d m name sz count array node : d <> i -> inodes fs !! d = Some m -> in_use m -> (length name < 256)%nat ->
  array = None \/ (array = Some (indirect m) /\ indirect m <> -1) -> node_same fs fs' node ->
  find_loop fuel fs' m name sz count array node = find_loop fuel fs m name sz count array node.
Proof.
  intros Hd Hm Hu Hl. revert sz count array node. induction fuel as [|fuel IH]; intros sz count array node Ha Hn; [done|]. cbn [find_loop].
  destruct (0 <? sz) eqn:Esz; [|done]. bool_to_prop. destruct (load_direct m count) as [first| | |] eqn:Ef; cbn [obind]; [|done..]. destruct (first =? UNASSIGNED_NODE) eqn:E1; [done|]. bool_to_prop.
  apply load_direct_done in Ef as Hf. destruct Hf as [Hc0 Hf]. apply lookup_lt_Some in Hf as Hc. rewrite (ok_direct fs Hok d m Hm Hu) in Hc.
  set (s := match array with None => count | Some _ => 11 + count end).
  assert (Hs : array_entry fs m array count = slot_num fs m s /\ array_entry fs' m array count = slot_num fs' m s).
  { unfold s. destruct Ha as [-> | [-> Hi]]; cbn [array_entry]; [by rewrite !slot_direct by lia|by rewrite !slot_entry by done]. }
  destruct Hs as [-> ->]. assert (Hsl : slot s) by (unfold s, slot; destruct array; lia). rewrite (keeps_slot fs fs' i n n' d m s) by done.
  destruct (slot_num fs m s) as [b| | |] eqn:Eb; cbn [obind]; [|done..].
  assert (Hscan : scan_block 64 fs' name (b * BLOCK_SIZE) sz node = scan_block 64 fs name (b * BLOCK_SIZE) sz node
    /\ forall r, scan_block 64 fs name (b * BLOCK_SIZE) sz node = Done r -> node_same fs fs' r.2).
  { destruct (decide (b = -1)) as [->|Hb]; [by rewrite !(scan_nowhere _ 63)|]. apply (scan_held d s b); try done. by exists m. }
  destruct Hscan as [-> Hr]. destruct (scan_block 64 fs name (b * BLOCK_SIZE) sz node) as [[[found sz'] node']| | |]; cbn [obind]; [|done..]. specialize (Hr _ eq_refl).
  destruct found; [done|]. destruct (count + 1 =? NUM_DIRECT_BLOCKS); [|by apply IH]. destruct (indirect m =? UNASSIGNED_NODE) eqn:Ei; [done|]. bool_to_prop. apply IH; [by right|done].
Qed.

Lemma load_inode_other j : j <> Z.of_nat i -> load_inode fs' j = load_inode fs j.
Proof. intros Hj. unfold load_inode. destruct (0 <=? j) eqn:E; [|done]. bool_to_prop. rewrite (kp_inodes _ _ _ _ _ H), list_lookup_insert_ne by lia. done. Qed.

Lemma walk_path_same toks j : inodes fs !! i = Some n -> is_directory n = false -> is_directory n' = false -> Forall (fun t => (length t < 256)%nat) toks ->
  walk_path fs' toks j = walk_path fs toks j.
Proof.
  intros Hi Hn Hn' Ht. revert j. induction Ht as [|t toks Ht _ IH]; intros j; [done|]. cbn [walk_path]. destruct (decide (j = Z.of_nat i)) as [->|Hj].
  - rewrite (proj2 (load_inode_at fs i n) Hi). assert (load_inode fs' (Z.of_nat i) = Done n') as ->.
    { apply load_inode_at. rewrite (kp_inodes _ _ _ _ _ H). apply list_lookup_insert_eq. by eapply lookup_lt_Some. }
    cbn [obind]. by rewrite Hn, Hn'.
  - unfold find_inode_named. rewrite load_inode_other by done. destruct (load_inode fs j) as [m| | |] eqn:Em; cbn [obind]; [|done..]. destruct (is_directory m) eqn:Ed; [cbn [negb]|done].
    assert (Hj' : exists d, j = Z.of_nat d) by (exists (Z.to_nat j); unfold load_inode in Em; destruct (0 <=? j) eqn:E0; [bool_to_prop; lia|done]). destruct Hj' as [d ->].
    apply load_inode_at in Em. rewrite (find_loop_same _ d m) by (done || lia || (by right) || by left).
    destruct (find_loop _ fs m t (size m) 0 None None) as [[]| | |]; cbn [obind]; [apply IH|done..].
Qed.

(** Every path leads where it led. *)
Lemma get_inode_same path : inodes fs !! i = Some n -> is_directory n = false -> is_directory n' = false -> short path -> get_inode fs' path = get_inode fs path.
Proof. intros Hi Hn Hn' Hs. unfold get_inode. destruct path as [|c path]; [done|]. destruct (negb _); [done|]. by apply walk_path_same. Qed.
End lookup.

(** ** Files *)

(** [path] leads to the regular file [n], inode [i] of a well-formed file system. *)
Record regular_file (fs : file_system) (path : list Z) (i : nat) (n : inode) : Prop := Regular {
  rf_ok : fs_ok fs;
  rf_short : short path;
  rf_path : get_inode fs path = Done (Some (Z.of_nat i));
  rf_inode : inodes fs !! i = Some n;
  rf_link : nlink n <> 0;
  rf_file : is_directory n = false;
  rf_size : 0 <= size n;
  rf_blocks : file_ok fs n (blocks_of_size (size n));
}.

Lemma regular_other fs fs' i n n' path j m : inodes fs !! i = Some n -> is_directory n = false -> is_directory n' = false -> keeps fs fs' i n n' ->
  regular_file fs path j m -> j <> i -> regular_file fs' path j m /\ content fs' m = content fs m.
Proof.
  intros Hi Hd Hd' Hk [Hok Hsh Hp Hj Hl Hf Hs Hb] Hji. assert (Hu : in_use m) by by left. split; [|by apply (keeps_content fs fs' i n n' j m)]. split; try done.
  - apply (kp_ok _ _ _ _ _ Hk).
  - by rewrite (get_inode_same fs fs' i n n').
  - by apply (keeps_other fs fs' i n n').
  - by apply (keeps_file fs fs' i n n' j).
Qed.

(** The files other than inode [i] keep their paths and bytes. *)
Definition others_kept (fs fs' : file_system) (i : nat) : Prop :=
  forall path j m, j <> i -> regular_file fs path j m -> regular_file fs' path j m /\ content fs' m = content fs m.

(** The blocks a write of [count] bytes at [off] has to find. *)
Definition blocks_needed (sz off count : Z) : nat := blocks_for (blocks_of_size (Z.max sz (off + count))) - blocks_for (blocks_of_size sz).

Lemma blocks_for_mono c c' : 0 <= c <= c' -> (blocks_for c <= blocks_for c')%nat.
Proof. intros H. unfold blocks_for. destruct (c <? 11) eqn:E, (c' <? 11) eqn:E'; bool_to_prop; lia. Qed.

Lemma length_content fs n : length (content fs n) = Z.to_nat (size n).
Proof. apply length_file_bytes. Qed.

(** The bytes of the file after the write, from where each of them is. *)
Lemma content_written fs fs1 fs' i n n1 n' off count buf : inodes fs !! i = Some n -> in_use n -> file_ok fs n (blocks_of_size (size n)) -> 0 <= size n ->
  0 <= off <= size n -> 0 < count -> count <= Z.of_nat (length buf) -> size n' = Z.max (size n) (off + count) ->
  (forall o, 0 <= o < size n -> byte_addr fs1 n1 o = byte_addr fs n o /\ data fs1 (byte_addr fs n o) = data fs (byte_addr fs n o)) ->
  (forall o, 0 <= o < size n' -> byte_addr fs' n' o = byte_addr fs1 n1 o
     /\ data fs' (byte_addr fs1 n1 o) = if decide (off <= o < off + count) then nth (Z.to_nat (o - off)) buf 0 else data fs1 (byte_addr fs1 n1 o)) ->
  content fs' n' = overwrite (content fs n) (Z.to_nat off) (take (Z.to_nat count) buf).
Proof.
  intros Hi Hu Hf Hs Ho Hc Hbuf Hsz Hold Hnew. assert (Hlt : length (take (Z.to_nat count) buf) = Z.to_nat count) by (rewrite length_take; lia). apply list_eq. intros j.
  destruct (decide (j < Z.to_nat (size n'))%nat) as [Hj|Hj].
  2:{ rewrite !lookup_ge_None_2; [done|rewrite length_overwrite; rewrite length_content, ?Hlt; lia|rewrite length_content; lia]. }
  rewrite overwrite_lookup, Hlt by (rewrite length_content; lia). unfold content at 1. rewrite file_bytes_lookup, Z.add_0_l by done. destruct (Hnew (Z.of_nat j)) as [-> ->]; [lia|].
  repeat case_decide; try lia.
  - rewrite lookup_take_lt by lia. replace (Z.to_nat (Z.of_nat j - off)) with (j - Z.to_nat off)%nat by lia. destruct (lookup_lt_is_Some_2 buf (j - Z.to_nat off)) as [v Hv]; [lia|]. by rewrite nth_lookup, Hv.
  - unfold content. rewrite file_bytes_lookup, Z.add_0_l by lia. destruct (Hold (Z.of_nat j)) as [-> ->]; [lia|done].
Qed.

(** A write within one block, at the inode. *)
Lemma write_step fs path i n count off buf :
  regular_file fs path i n -> 0 <= off <= size n -> 0 < count -> off `mod` BLOCK_SIZE + count <= BLOCK_SIZE -> off + count <= MAX_SIZE ->
  count <= Z.of_nat (length buf) -> room fs (blocks_needed (size n) off count) ->
  exists fs' n', minixfs_write fs path buf count off = Done (count, off + count, fs')
    /\ regular_file fs' path i n'
    /\ content fs' n' = overwrite (content fs n) (Z.to_nat off) (take (Z.to_nat count) buf)
    /\ others_kept fs fs' i
    /\ (free_blocks fs' + blocks_needed (size n) off count = free_blocks fs)%nat
    /\ (heads (rng fs') + blocks_needed (size n) off count = heads (rng fs))%nat.
Proof.
  intros [Hok Hsh Hp Hi Hl Hd Hs Hb] Ho Hc Hone Hmax Hbuf Hroom. assert (Hu : in_use n) by by left. change MAX_SIZE with 67289088 in *.
  pose proof (fo_count _ _ _ Hb) as Hc0. set (c := blocks_of_size (size n)) in *. set (c' := blocks_of_size (Z.max (size n) (off + count))).
  assert (Hcc : blocks_of_size (off + count) <= c + 1 /\ 0 <= blocks_of_size (off + count) <= 4107 /\ c' = Z.max c (blocks_of_size (off + count))).
  { unfold c', c, blocks_of_size, BLOCK_SIZE in *. Z.div_mod_to_equations. lia. }
  destruct Hcc as (H1 & H2 & H3). assert (Hn : blocks_needed (size n) off count = (blocks_for (blocks_of_size (off + count)) - blocks_for c)%nat \/ c' = c).
  { unfold blocks_needed. fold c c'. rewrite H3. destruct (Z.max_spec c (blocks_of_size (off + count))) as [[_ ->]|[_ ->]]; auto. }
  destruct (min_blockcount_extends fs path i n c (blocks_of_size (off + count))) as (fs1 & n1 & Hmin & Hi1 & Hx); try done; [lia|lia| |].
  { destruct Hn as [<- | Hn]; [done|]. assert (blocks_of_size (off + count) <= c) by lia. pose proof (blocks_for_mono (blocks_of_size (off + count)) c). unfold room. lia. }
  rewrite <- H3 in Hx. pose proof Hx as [Hk1 Hf1 (_ & _ & Hmo1 & _ & _ & _ & Hsz1) Hu1 Hbl Hby Hfr Hhd].
  destruct (write_rest_keeps fs1 i n1 c' count off buf) as (fs2 & Hrun & Hk2 & Hf2 & Hmap & Hrng & Hbytes); try done; [apply (kp_ok _ _ _ _ _ Hk1)|lia|by rewrite Hsz1|lia|].
  set (n2 := written_inode fs1 n1 (off + count)) in *. pose proof (keeps_trans _ _ _ _ _ _ _ Hk1 Hk2) as Hk.
  assert (Hd2 : is_directory n2 = false) by (unfold is_directory in *; cbn [n2 written_inode mode with_times with_size]; by rewrite Hmo1).
  exists fs2, n2. rewrite (minixfs_write_rest fs fs1 path (Z.of_nat i)) by (try done; lia). split; [done|].
  assert (Hsz2 : size n2 = Z.max (size n) (off + count)) by (cbn; by rewrite Hsz1).
  split.
  { split; try done; [apply (kp_ok _ _ _ _ _ Hk2)|by rewrite (get_inode_same fs fs2 i n n2)| | |lia|by rewrite Hsz2].
    - rewrite (kp_inodes _ _ _ _ _ Hk). apply list_lookup_insert_eq. by eapply lookup_lt_Some.
    - destruct Hu1 as [Hl1|Hd1]; [done|]. unfold is_directory in *. rewrite Hmo1 in Hd1. congruence. }
  split.
  { apply (content_written fs fs1 fs2 i n n1 n2); try done. intros o Hoo. apply (extended_byte fs fs1 i n n1 c c'); try done; [lia|]. by apply block_index. }
  split; [intros path' j m Hj Hr; by apply (regular_other fs fs2 i n n2)|].
  unfold blocks_needed. fold c c'. pose proof (blocks_for_mono c c' ltac:(lia)). assert (free_blocks fs2 = free_blocks fs1) as -> by (unfold free_blocks, free_in; by rewrite Hmap, (kp_meta _ _ _ _ _ Hk2)).
  rewrite Hrng. lia.
Qed.

(** [path] leads to the regular file of inode [i], whose bytes are [c]. *)
Definition has_file (fs : file_system) (path : list Z) (i : nat) (c : list Z) : Prop := exists n, regular_file fs path i n /\ content fs n = c.

Lemma size_content fs path i n c : regular_file fs path i n -> content fs n = c -> size n = Z.of_nat (length c).
Proof. intros Hr <-. rewrite length_content. pose proof (rf_size _ _ _ _ Hr). lia. Qed.

Lemma kept_file fs fs' i path j c : others_kept fs fs' i -> j <> i -> has_file fs path j c -> has_file fs' path j c.
Proof. intros H Hj (n & Hr & Hc). destruct (H path j n Hj Hr) as [Hr' Hc']. exists n. split; [done|congruence]. Qed.

(** C28. A write that stays within one block, inside the file or at its end, makes the
    file's bytes those of before with the bytes given in their place, allocating
    the blocks (and the indirect block) that are missing; every block of an inode in
    use still belongs to it alone and is marked used, every other file keeps its
    path and its bytes, and exactly the blocks needed are taken. *)
Theorem minixfs_write_grows fs path i c count off buf :
  has_file fs path i c -> 0 <= off <= Z.of_nat (length c) -> 0 < count -> off `mod` BLOCK_SIZE + count <= BLOCK_SIZE -> off + count <= MAX_SIZE ->
  count <= Z.of_nat (length buf) -> room fs (blocks_needed (Z.of_nat (length c)) off count) ->
  exists fs', minixfs_write fs path buf count off = Done (count, off + count, fs')
    /\ has_file fs' path i (overwrite c (Z.to_nat off) (take (Z.to_nat count) buf))
    /\ (forall path' j c', j <> i -> has_file fs path' j c' -> has_file fs' path' j c')
    /\ (free_blocks fs' + blocks_needed (Z.of_nat (length c)) off count = free_blocks fs)%nat
    /\ (heads (rng fs') + blocks_needed (Z.of_nat (length c)) off count = heads (rng fs))%nat.
Proof.
  intros (n & Hr & Hc) Ho. rewrite <- (size_content fs path i n c Hr Hc) in *. intros Hc0 Hone Hmax Hbuf Hroom.
  destruct (write_step fs path i n count off buf) as (fs' & n' & Hw & Hr' & Hc' & Hk & Hf & Hh); [done..|]. exists fs'. split; [done|]. split; [exists n'; by rewrite <- Hc|].
  split; [|done]. intros path' j c' Hj. by apply (kept_file fs fs' i).
Qed.

(** ** A full disk *)

Lemma scan_data_map_full n i filled fs : map_ok fs -> 0 <= i -> i + Z.of_nat n = dblock_count (meta fs) -> free_in fs i n = 0%nat ->
  scan_data_map n i filled fs = Done (inr (filled + Z.of_nat n, fs)).
Proof.
  revert i filled. induction n as [|n IH]; intros i filled Hm Hi Hn Hf; cbn [scan_data_map]; [do 3 f_equal; lia|]. destruct (get_data_used_at fs i Hm) as (x & Hx & ->); [lia|]. cbn [obind].
  rewrite (free_in_S fs i n x Hx Hi) in Hf. case_decide; [lia|]. rewrite (proj2 (Z.eqb_neq x 0)) by done. rewrite IH by (done || lia). do 3 f_equal. lia.
Qed.

Lemma first_unused_data_full fs : map_ok fs -> free_blocks fs = 0%nat -> first_unused_data fs = Done (-1, fs).
Proof.
  intros Hm Hf. pose proof Hm as [H0 _]. unfold first_unused_data. cbn [first_unused_data_loop]. destruct (Z.ltb_spec 0 (dblock_count (meta fs))); [|done].
  rewrite scan_data_map_full by (done || (unfold free_blocks in Hf; done) || lia). cbn [obind]. rewrite Z.add_0_l, Z2Nat.id, Z.ltb_irrefl by done. done.
Qed.

(** The first missing block is not found and the function fails. *)
Lemma fill_direct_full fs i n (k m : nat) : fs_ok fs -> inodes fs !! i = Some n -> (k < 11)%nat -> (k + S m <= 11)%nat -> slot_num fs n (Z.of_nat k) = Done (-1) ->
  (forall s, 0 <= s < Z.of_nat k -> exists b, slot_num fs n s = Done b /\ b <> -1) -> in_use n -> free_blocks fs = 0%nat -> fill_direct (k + S m) 0 (Z.of_nat i) fs = Done (-1, fs).
Proof.
  intros Hok Hi Hk Hm Hslot Hbelow Hu Hfree. pose proof (ok_direct fs Hok i n Hi Hu) as Hlen. pose proof (proj2 (load_inode_at fs i n) Hi) as Hload.
  rewrite (fill_direct_skip k (S m) fs (Z.of_nat i) n 0) by (done || lia || (intros; apply Hbelow; lia)). cbn [fill_direct]. rewrite Z.add_0_l, Hload. cbn [obind].
  rewrite slot_direct in Hslot by lia. rewrite Hslot. cbn [obind]. rewrite Z.eqb_refl. unfold add_data_block_to_inode. rewrite Hload. cbn [obind].
  assert (Hfind : list_find (fun x => x = -1) (take 11 (direct n)) = Some (k, -1)).
  { apply load_direct_done in Hslot as [_ Hdk]. rewrite Nat2Z.id in Hdk. apply list_find_Some. rewrite take_ge by lia. split; [done|]. split; [done|]. intros s y Hy Hs.
    destruct (Hbelow (Z.of_nat s)) as (x & Hx & Hne); [lia|]. rewrite slot_direct in Hx by lia. rewrite (load_direct_at n s y Hy) in Hx. congruence. }
  rewrite Hfind, first_unused_data_full by (done || apply (ok_map fs Hok)). done.
Qed.

Lemma min_blockcount_full fs path i n c b : fs_ok fs -> get_inode fs path = Done (Some (Z.of_nat i)) -> inodes fs !! i = Some n -> in_use n -> file_ok fs n c -> c < b <= 4107 -> free_blocks fs = 0%nat ->
  minixfs_min_blockcount path b fs = Done (-1, fs).
Proof.
  intros Hok Hg Hi Hu Hf [Hneed Hmax] Hfree. pose proof (fo_count _ _ _ Hf) as Hc. pose proof (fo_indirect _ _ _ Hf) as Hind. pose proof (proj2 (load_inode_at fs i n) Hi) as Hload.
  unfold minixfs_min_blockcount. rewrite Hg. cbn [obind]. unfold NUM_DIRECT_BLOCKS. destruct (decide (c < 11)) as [H11|H11].
  - assert (Hfull : forall m, (Z.to_nat c + S m <= 11)%nat -> fill_direct (Z.to_nat c + S m) 0 (Z.of_nat i) fs = Done (-1, fs)).
    { intros m Hm. apply (fill_direct_full fs i n); try done; [lia| |]; rewrite Z2Nat.id by lia; [apply (fo_none _ _ _ Hf); lia|intros s Hs; apply (fo_have _ _ _ Hf); lia]. }
    destruct (Z.ltb_spec b 11).
    + replace (Z.to_nat b) with (Z.to_nat c + S (Z.to_nat (b - c - 1)))%nat by lia. apply Hfull. lia.
    + replace 11%nat with (Z.to_nat c + S (Z.to_nat (10 - c)))%nat by lia. rewrite Hfull by lia. done.
  - rewrite (proj2 (Z.ltb_ge b 11)) by lia. assert (Hin : indirect n <> -1) by (intros E; apply Hind in E; lia). change 11%nat with (11 + 0)%nat.
    rewrite (fill_direct_skip 11 0 fs (Z.of_nat i) n 0) by (try done; try lia; intros s Hs; apply (fo_have _ _ _ Hf); lia). cbn [fill_direct obind]. change (0 =? -1) with false. cbv iota.
    unfold add_single_indirect_block. rewrite Hload. cbn [obind]. unfold UNASSIGNED_NODE. rewrite (proj2 (Z.eqb_neq (indirect n) (-1))) by done. cbn [negb obind]. change (0 =? -1) with false. cbv iota.
    rewrite Hload. cbn [obind]. replace (Z.to_nat (b - 11)) with (Z.to_nat (c - 11) + S (Z.to_nat (b - c - 1)))%nat by lia.
    rewrite fill_indirect_skip by (intros s Hs; rewrite <- slot_entry by (done || lia); apply (fo_have _ _ _ Hf); lia). rewrite Z.add_0_l, Z2Nat.id by lia.
    pose proof (fo_none _ _ _ Hf c ltac:(lia)) as Hslot. replace c with (11 + (c - 11)) in Hslot by lia. rewrite slot_entry in Hslot by (done || lia). cbn [fill_indirect]. rewrite Hslot. cbn [obind]. rewrite Z.eqb_refl.
    unfold add_data_block_to_indirect_block, NUM_INDIRECT_BLOCKS. replace (Z.to_nat 4096) with (Z.to_nat (c - 11) + S (Z.to_nat 4096 - S (Z.to_nat (c - 11))))%nat by lia.
    rewrite add_to_indirect_skip by (intros s Hs; rewrite <- slot_entry by (done || lia); apply (fo_have _ _ _ Hf); lia). cbn [add_to_indirect_loop]. rewrite Z.add_0_l, Z2Nat.id by lia. rewrite Hslot. cbn [obind].
    unfold UNASSIGNED_NODE. rewrite Z.eqb_refl, first_unused_data_full by (done || apply (ok_map fs Hok)). done.
Qed.

(** C29. A write that would end beyond the largest size of a file fails with -1 and
    [ENOSPC] and leaves the file system and the offset as they were, whatever the path;
    so does a write of any length, at any offset, to an existing file when the disk is
    full and the bytes need more blocks than the file has.  (A path that does not exist
    is created first, and blocks that are still free are taken before the disk is found
    to be full: these failures do change the file system.) *)
Theorem minixfs_write_errors fs path count off buf :
  0 <= off -> 0 < count -> off + count < 2 ^ 64 ->
  (MAX_SIZE < off + count -> minixfs_write fs path buf count off = Done (-1, off, set_errno fs ENOSPC)) /\
  (forall i c, has_file fs path i c -> blocks_of_size (Z.of_nat (length c)) < blocks_of_size (off + count) -> free_blocks fs = 0%nat ->
     minixfs_write fs path buf count off = Done (-1, off, set_errno fs ENOSPC)).
Proof.
  intros Ho Hcount H64. unfold minixfs_write. rewrite u64_small by lia. destruct (Z.ltb_spec MAX_SIZE (off + count)) as [|Hmax]; [done|].
  split; [lia|]. intros i c (n & Hr & Hc) Hneed Hfull. rewrite <- (size_content fs path i n c Hr Hc) in *. pose proof Hr as [Hok _ Hp Hi Hl _ Hs Hb]. rewrite Hp. cbn [obind].
  change MAX_SIZE with 67289088 in Hmax. rewrite s32_small, get_ceil_blocks by lia. fold (blocks_of_size (off + count)).
  rewrite (min_blockcount_full fs path i n (blocks_of_size (size n))) by (done || (by left) || (split; [done|]; unfold blocks_of_size, BLOCK_SIZE in *; Z.div_mod_to_equations; lia)). done.
Qed.

(** Setting times changes no file. *)
Lemma touch_regular fs path i n a m c : regular_file fs path i n ->
  let fs' := set_inodes fs (<[i := with_times n a m c]> (inodes fs)) in
  regular_file fs' path i (with_times n a m c) /\ content fs' (with_times n a m c) = content fs n /\ others_kept fs fs' i.
Proof.
  intros [Hok Hsh Hp Hi Hl Hd Hs Hb] fs'. set (n' := with_times n a m c). assert (Hu : in_use n) by by left.
  destruct (rewrite_keeps fs fs' i n n') as [Hk Hslot]; try done. split; [|split].
  - split; try done; [apply (kp_ok _ _ _ _ _ Hk)|by rewrite (get_inode_same fs fs' i n n')| |].
    + rewrite (kp_inodes _ _ _ _ _ Hk). apply list_lookup_insert_eq. by eapply lookup_lt_Some.
    + destruct Hb as [H1 H2 H3 H4]. split; [done| | |done]; intros k Hkk; rewrite Hslot by (unfold slot; cbn in *; lia); auto.
  - unfold content. apply list_eq. intros k. destruct (decide (k < Z.to_nat (size n))%nat) as [Hlt|Hge]; [by rewrite !file_bytes_lookup by done|].
    by rewrite !lookup_ge_None_2 by (rewrite length_file_bytes; cbn; lia).
  - intros path' j y Hj Hr. by apply (regular_other fs fs' i n n').
Qed.

(** ** A concrete run *)

(** A root directory with the file ["a"], one full block; one free block and one
    coin that takes it. *)
Definition full_file : inode := Inode 0 0 (Z.lor 493 (Z.shiftl TYPE_FILE RWX_BITS_NUMBER)) 1 0 0 0 16384 (2 :: replicate 10 (-1)) (-1).

Definition grow_fs : file_system :=
  let root := Inode 0 0 (Z.lor 493 (Z.shiftl TYPE_DIRECTORY RWX_BITS_NUMBER)) 1 0 0 0 256 (0 :: replicate 10 (-1)) (-1) in
  let empty := Fs (Superblock 0 2 3) [root; full_file] (fun x => if x <? 16384 then 0 else x `mod` 251) [1; 0; 1] [false; true] 7 0 in
  match make_string_from_dirent 0 (bytes_of_string "a") 1 empty with Done fs => fs | _ => empty end.

Lemma slot_one_block fs n b s : direct n = b :: replicate 10 (-1) -> indirect n = -1 -> slot s -> slot_num fs n s = Done (if s =? 0 then b else -1).
Proof.
  intros Hd Hi Hs. unfold slot_num. rewrite Hi. unfold UNASSIGNED_NODE. rewrite Z.eqb_refl. destruct (s =? -1) eqn:E1; bool_to_prop; [by subst|]. unfold NUM_DIRECT_BLOCKS. destruct (s <? 11) eqn:E2; bool_to_prop.
  - unfold slot in Hs. unfold load_direct. rewrite (proj2 (Z.leb_le _ _)), Hd by lia. destruct (Z.to_nat s) as [|k] eqn:Ek; [by assert (s = 0) as -> by lia|]. 
    change ((b :: ?l) !! S k) with (l !! k). rewrite lookup_replicate_2 by lia. by rewrite (proj2 (Z.eqb_neq s 0)) by lia.
  - by rewrite (proj2 (Z.eqb_neq s 0)) by lia.
Qed.

(** A file system whose inodes have one block each, or none. *)
Lemma one_block_ok fs (bs : list Z) : map_ok fs -> dblock_count (meta fs) < 2147483648 -> length (inodes fs) = length bs ->
  (forall i n b, inodes fs !! i = Some n -> bs !! i = Some b -> direct n = b :: replicate 10 (-1) /\ indirect n = -1) ->
  Forall (fun b => b = -1 \/ (0 <= b < dblock_count (meta fs) /\ data_map fs !! Z.to_nat b = Some 1)) bs ->
  (forall i j b, bs !! i = Some b -> bs !! j = Some b -> b <> -1 -> i = j) -> fs_ok fs.
Proof.
  intros Hm Hs Hl Hone Hused Hdis.
  assert (Hh : forall i s b, holds fs i s b -> s = 0 /\ bs !! i = Some b /\ b <> -1).
  { intros i s b (n & Hn & _ & Hsl & Hb & Hne). destruct (lookup_lt_is_Some_2 bs i) as [x Hx]; [rewrite <- Hl; by eapply lookup_lt_Some|]. destruct (Hone i n x Hn Hx) as [Hd Hi].
    rewrite (slot_one_block _ _ x) in Hb by done. injection Hb as <-. destruct (s =? 0) eqn:E; bool_to_prop; [done|congruence]. }
  split; [done|done| | |].
  - intros i s b Hb. destruct (Hh i s b Hb) as (_ & Hx & Hne). rewrite Forall_lookup in Hused. by destruct (Hused i b Hx).
  - intros i j s t b Hb Hb'. destruct (Hh i s b Hb) as (-> & Hx & Hne), (Hh j t b Hb') as (-> & Hy & _). split; [by apply (Hdis i j b)|done].
  - intros i n Hn _. destruct (lookup_lt_is_Some_2 bs i) as [x Hx]; [rewrite <- Hl; by eapply lookup_lt_Some|]. by destruct (Hone i n x Hn Hx) as [-> _].
Qed.

Lemma one_block_file fs n b c : direct n = b :: replicate 10 (-1) -> indirect n = -1 -> c = (if b =? -1 then 0 else 1) -> file_ok fs n c.
Proof.
  intros Hd Hi ->. split; [by destruct (b =? -1)| | |by rewrite Hi; destruct (b =? -1)]; intros k Hk; rewrite (slot_one_block _ _ b) by (done || (unfold slot; destruct (b =? -1); lia)).
  - exists b. destruct (b =? -1) eqn:E; bool_to_prop; [lia|]. by assert (k = 0) as -> by lia.
  - destruct (b =? -1) eqn:E; bool_to_prop; [subst; by destruct (k =? 0)|]. by rewrite (proj2 (Z.eqb_neq k 0)) by lia.
Qed.

Lemma grow_regular : regular_file grow_fs (bytes_of_string "/a") 1 full_file.
Proof.
  split; try done; [|by repeat constructor; vm_compute; lia|by apply (one_block_file _ _ 2)]. apply (one_block_ok grow_fs [0; 2]); try done.
  - intros [|[|i]] n b Hn Hb; [| |done]; by injection Hn as <-; injection Hb as <-.
  - by repeat apply Forall_cons_2; try apply Forall_nil_2; right.
  - intros [|[|i]] [|[|j]] b Hi Hj _; by simplify_eq/=.
Qed.

Lemma minixfs_write_grows_witness :
  exists fs', minixfs_write grow_fs (bytes_of_string "/a") [5; 6; 7] 3 16384 = Done (3, 16387, fs')
    /\ has_file fs' (bytes_of_string "/a") 1 (overwrite (content grow_fs full_file) (Z.to_nat 16384) [5; 6; 7]).
Proof.
  assert (Hl : Z.of_nat (length (content grow_fs full_file)) = 16384) by by rewrite length_content.
  destruct (minixfs_write_grows grow_fs (bytes_of_string "/a") 1 (content grow_fs full_file) 3 16384 [5; 6; 7]) as (fs' & Hw & Hr & _);
    [by exists full_file; split; [apply grow_regular|]|by rewrite Hl|done|done|done|done|rewrite Hl; vm_compute; lia|].
  exists fs'. split; [exact Hw|exact Hr].
Defined.

(** The disk of [grow_fs] without its free block. *)
Definition full_fs : file_system := set_data_map grow_fs [1; 1; 1].

Lemma full_regular : regular_file full_fs (bytes_of_string "/a") 1 full_file.
Proof.
  split; [|by repeat constructor; vm_compute; lia|vm_compute; reflexivity|done|done|done|done|by apply (one_block_file _ _ 2)]. apply (one_block_ok full_fs [0; 2]); try done.
  - intros [|[|i]] n b Hn Hb; [| |done]; by injection Hn as <-; injection Hb as <-.
  - by repeat apply Forall_cons_2; try apply Forall_nil_2; right.
  - intros [|[|i]] [|[|j]] b Hi Hj _; by simplify_eq/=.
Qed.

Lemma minixfs_write_errors_witness :
  minixfs_write full_fs (bytes_of_string "/a") (replicate (200 * 200) 5) 40000 20000 = Done (-1, 20000, set_errno full_fs ENOSPC)
  /\ minixfs_write full_fs (bytes_of_string "/b") [] MAX_SIZE 1 = Done (-1, 1, set_errno full_fs ENOSPC).
Proof.
  assert (Hl : Z.of_nat (length (content full_fs full_file)) = 16384) by by rewrite length_content.
  split.
  - apply (proj2 (minixfs_write_errors full_fs (bytes_of_string "/a") 40000 20000 (replicate (200 * 200) 5) ltac:(done) ltac:(done) ltac:(done))
      1%nat (content full_fs full_file)).
    + exists full_file. split; [apply full_regular|reflexivity].
    + rewrite Hl. vm_compute. reflexivity.
    + vm_compute. reflexivity.
  - apply (minixfs_write_errors full_fs (bytes_of_string "/b") MAX_SIZE 1 []); done.
Defined.
