(* ===== verification/Memcheck.v ===== *)
(** * The leak checker of [mini_memcheck/mini_memcheck.c]

    Every allocation carries a 32-byte [meta_data] header and is linked into the
    list [head].  [nodes] maps the address of a live header to its fields and to
    the size of the block [malloc] returned for it; the bytes after the header
    are in [mem].  The answers of [malloc] and [realloc] (0 for [NULL]) are
    parameters of the operations.  An access through a pointer that is not a live
    header, or outside the block, is [Undef]. *)

From stdpp Require Import gmap.
From S2P Require Import Prelude CMem.
Open Scope Z_scope.

Record meta_data := Meta {
  request_size : Z;
  filename : Z;
  instruction : Z;
  next : Z;
}.

Definition META : Z := 32.

Record memcheck := Memcheck {
  head : Z;
  nodes : gmap Z (meta_data * Z);
  mem : memory;
  total_memory_requested : Z;
  total_memory_freed : Z;
  invalid_addresses : Z;
}.

Definition set_head (st : memcheck) (h : Z) : memcheck :=
  Memcheck h (nodes st) (mem st) (total_memory_requested st) (total_memory_freed st) (invalid_addresses st).
Definition set_nodes (st : memcheck) (n : gmap Z (meta_data * Z)) : memcheck :=
  Memcheck (head st) n (mem st) (total_memory_requested st) (total_memory_freed st) (invalid_addresses st).
Definition set_mem (st : memcheck) (m : memory) : memcheck :=
  Memcheck (head st) (nodes st) m (total_memory_requested st) (total_memory_freed st) (invalid_addresses st).
Definition add_requested (st : memcheck) (n : Z) : memcheck :=
  Memcheck (head st) (nodes st) (mem st) (u64 (total_memory_requested st + n)) (total_memory_freed st) (invalid_addresses st).
Definition add_freed (st : memcheck) (n : Z) : memcheck :=
  Memcheck (head st) (nodes st) (mem st) (total_memory_requested st) (u64 (total_memory_freed st + n)) (invalid_addresses st).
Definition add_invalid (st : memcheck) : memcheck :=
  Memcheck (head st) (nodes st) (mem st) (total_memory_requested st) (total_memory_freed st) (u64 (invalid_addresses st + 1)).

(** [p->...] as an rvalue; the header must lie within the block. *)
Definition load_meta (st : memcheck) (p : Z) : outcome meta_data :=
  let! (m, blk) := deref (nodes st !! p) in
  if META <=? blk then Done m else Undef.

(** A store to fields of [*p]. *)
Definition store_meta (p : Z) (f : meta_data -> meta_data) (st : memcheck) : outcome memcheck :=
  let! (m, blk) := deref (nodes st !! p) in
  if META <=? blk then Done (set_nodes st (<[p := (f m, blk)]> (nodes st))) else Undef.

Definition with_size (n : Z) (m : meta_data) : meta_data := Meta n (filename m) (instruction m) (next m).
Definition with_next (n : Z) (m : meta_data) : meta_data := Meta (request_size m) (filename m) (instruction m) n.

(** The block [malloc(n)] returned at [a]; its header has no definite value yet. *)
Definition c_malloc (a n : Z) (st : memcheck) : memcheck := set_nodes st (<[a := (Meta 0 0 0 0, n)]> (nodes st)).

Definition c_free (p : Z) (st : memcheck) : outcome memcheck :=
  let! _ := deref (nodes st !! p) in Done (set_nodes st (delete p (nodes st))).

(** [realloc(p, n)] that answered [a]: the block moves with its contents; on
    failure nothing changes. *)
Definition c_realloc (p n a : Z) (st : memcheck) : outcome memcheck :=
  if a =? 0 then Done st
  else
    let! (m, blk) := deref (nodes st !! p) in
    Done (set_mem (set_nodes st (<[a := (m, n)]> (delete p (nodes st))))
            (memcpy (mem st) (a + META) (p + META) (Z.min blk n - META))).

(** [while (walk)] over the list. *)
Fixpoint valid_ptr (fuel : nat) (st : memcheck) (walk ptr : Z) : outcome Z :=
  match fuel with
  | O => OutOfFuel
  | S fuel =>
      if walk =? 0 then Done 0
      else if walk + META =? ptr then Done walk
      else let! m := load_meta st walk in valid_ptr fuel st (next m) ptr
  end.

Fixpoint before_node_loop (fuel : nat) (st : memcheck) (before walk ptr : Z) : outcome Z :=
  match fuel with
  | O => OutOfFuel
  | S fuel =>
      if walk =? 0 then Done 0
      else if walk =? ptr then Done before
      else let! m := load_meta st walk in before_node_loop fuel st walk (next m) ptr
  end.

(** A list visits every live header at most once. *)
Definition list_fuel (st : memcheck) : nat := S (size (nodes st)).

Definition before_node (st : memcheck) (walk ptr : Z) : outcome Z :=
  let! m := load_meta st walk in before_node_loop (list_fuel st) st walk (next m) ptr.

Section Operations.

(** What [malloc] and [realloc] answer. *)
Variable malloc : Z -> Z.
Variable realloc : Z -> Z -> Z.

Definition mini_malloc (size fname instr : Z) (st : memcheck) : outcome (Z * memcheck) :=
  if size =? 0 then Done (0, st)
  else
    let n := u64 (META + size) in
    let node := malloc n in
    if node =? 0 then Done (0, st)
    else
      let st := add_requested (c_malloc node n st) size in
      let! st := store_meta node (fun _ => Meta size fname instr (head st)) st in
      Done (node + META, set_head st node).

(** [memset(memory, 0, n)] on the bytes after the header of [node]. *)
Definition clear_payload (node n : Z) (st : memcheck) : outcome memcheck :=
  let! (_, blk) := deref (nodes st !! node) in
  if META + n <=? blk then Done (set_mem st (memset (mem st) (node + META) 0 n)) else Undef.

Definition mini_calloc (num_elements element_size fname instr : Z) (st : memcheck) : outcome (Z * memcheck) :=
  if (num_elements =? 0) || (element_size =? 0) then Done (0, st)
  else
    let size := u64 (num_elements * element_size) in
    let n := u64 (META + size) in
    let node := malloc n in
    if node =? 0 then Done (0, st)
    else
      let st := add_requested (c_malloc node n st) size in
      let! st := store_meta node (fun _ => Meta size fname instr (head st)) st in
      let! st := clear_payload node size (set_head st node) in
      Done (node + META, st).

Definition mini_free (payload : Z) (st : memcheck) : outcome memcheck :=
  if payload =? 0 then Done st
  else
    let! node := valid_ptr (list_fuel st) st (head st) payload in
    if node =? 0 then Done (add_invalid st)
    else if node =? head st then
      let! h := load_meta st (head st) in
      let st := set_head st (next h) in
      let! m := load_meta st node in
      c_free node (add_freed st (request_size m))
    else
      let! before := before_node st (head st) node in
      let! m := load_meta st node in
      let! st := store_meta before (with_next (next m)) st in
      let! m := load_meta st node in
      c_free node (add_freed st (request_size m)).

Definition mini_realloc (payload size fname instr : Z) (st : memcheck) : outcome (Z * memcheck) :=
  if (payload =? 0) && (size =? 0) then Done (0, st)
  else if payload =? 0 then mini_malloc size fname instr st
  else if size =? 0 then let! st := mini_free payload st in Done (0, st)
  else
    let! node := valid_ptr (list_fuel st) st (head st) payload in
    if node =? 0 then Done (0, add_invalid st)
    else
      let! m := load_meta st node in
      let prev_size := request_size m in
      let st := if prev_size <? size then add_requested st (u64 (size - prev_size))
                else add_freed st (u64 (prev_size - size)) in
      let actual_size := u64 (size + META) in
      let new := realloc node actual_size in
      if node =? head st then
        let! st := c_realloc node actual_size new st in
        let! st := store_meta new (with_size size) st in
        Done (new + META, set_head st new)
      else
        let! before := before_node st (head st) node in
        let! st := c_realloc node actual_size new st in
        let! st := store_meta new (with_size size) st in
        let! st := store_meta before (with_next new) st in
        Done (new + META, st).

End Operations.

Definition memcheck_start (m : memory) : memcheck := Memcheck 0 ∅ m 0 0 0.
