(* ===== verification/MemcheckSpec.v ===== *)
(** * Correctness of the leak checker

    The list of headers is a ledger of the live allocations.  Whatever calls a
    program makes, the code behaves as the ledger does: it recognises exactly the
    payloads it handed out, counts every invalid call, and the difference of its
    two totals is the number of bytes still allocated. *)

From stdpp Require Import gmap.
From S2P Require Import Prelude CMem Memcheck.
Open Scope Z_scope.

(** ** The ledger *)

Record entry := Entry {
  e_addr : Z;
  e_size : Z;
  e_file : Z;
  e_instr : Z;
}.

Record ledger := Ledger {
  live : list entry;
  requested : Z;
  freed : Z;
  invalid : Z;
}.

Inductive op :=
| OMalloc (size fname instr answer : Z)
| OCalloc (num_elements element_size fname instr answer : Z)
| ORealloc (payload size fname instr answer : Z)
| OFree (payload : Z).

Definition find_payload (p : Z) (l : list entry) : option (nat * entry) := list_find (fun e => e_addr e + META = p) l.

Definition ledger_alloc (size fname instr a : Z) (L : ledger) : Z * ledger :=
  if a =? 0 then (0, L)
  else (a + META, Ledger (Entry a size fname instr :: live L) (u64 (requested L + size)) (freed L) (invalid L)).

Definition ledger_free (p : Z) (L : ledger) : ledger :=
  if p =? 0 then L
  else match find_payload p (live L) with
       | None => Ledger (live L) (requested L) (freed L) (u64 (invalid L + 1))
       | Some (i, e) => Ledger (delete i (live L)) (requested L) (u64 (freed L + e_size e)) (invalid L)
       end.

Definition ledger_realloc (p size a : Z) (L : ledger) : Z * ledger :=
  match find_payload p (live L) with
  | None => (0, Ledger (live L) (requested L) (freed L) (u64 (invalid L + 1)))
  | Some (i, e) =>
      let l := <[i := Entry a size (e_file e) (e_instr e)]> (live L) in
      (a + META, if e_size e <? size then Ledger l (u64 (requested L + (size - e_size e))) (freed L) (invalid L)
                 else Ledger l (requested L) (u64 (freed L + (e_size e - size))) (invalid L))
  end.

Definition spec_op (o : op) (L : ledger) : Z * ledger :=
  match o with
  | OMalloc size f i a => if size =? 0 then (0, L) else ledger_alloc size f i a L
  | OCalloc n m f i a => if (n =? 0) || (m =? 0) then (0, L) else ledger_alloc (n * m) f i a L
  | OFree p => (0, ledger_free p L)
  | ORealloc p size f i a =>
      if p =? 0 then (if size =? 0 then (0, L) else ledger_alloc size f i a L)
      else if size =? 0 then (0, ledger_free p L)
      else ledger_realloc p size a L
  end.

Definition run_op (o : op) (st : memcheck) : outcome (Z * memcheck) :=
  match o with
  | OMalloc size f i a => mini_malloc (fun _ => a) size f i st
  | OCalloc n m f i a => mini_calloc (fun _ => a) n m f i st
  | ORealloc p size f i a => mini_realloc (fun _ => a) (fun _ _ => a) p size f i st
  | OFree p => let! st := mini_free p st in Done (0, st)
  end.

Definition addrs (l : list entry) : list Z := e_addr <$> l.

(** What the allocator promises (a block it returns is not a live one, unless
    [realloc] answers with the block itself) and what the code assumes: the size
    with its header fits in a [size_t], and [realloc] succeeds. *)
Definition size_ok (size : Z) : Prop := 0 <= size /\ size + META < 2 ^ 64.

Definition op_ok (o : op) (L : ledger) : Prop :=
  match o with
  | OMalloc size _ _ a => size_ok size /\ a ∉ addrs (live L)
  | OCalloc n m _ _ a => 0 <= n /\ 0 <= m /\ size_ok (n * m) /\ a ∉ addrs (live L)
  | OFree p => True
  | ORealloc p size _ _ a =>
      size_ok size
      /\ (if p =? 0 then a ∉ addrs (live L) else size <> 0 -> a <> 0 /\ (a ∉ addrs (live L) \/ a + META = p))
  end.

(** ** The list of headers *)

Definition head_or (l : list entry) (h : Z) : Z := match l with [] => h | e :: _ => e_addr e end.

Definition meta_of (e : entry) (h : Z) : meta_data := Meta (e_size e) (e_file e) (e_instr e) h.

(** The headers of [l], the last one linked to [h]. *)
Fixpoint chain_to (l : list entry) (h : Z) : list (Z * (meta_data * Z)) :=
  match l with
  | [] => []
  | e :: l => (e_addr e, (meta_of e (head_or l h), META + e_size e)) :: chain_to l h
  end.

Definition entry_ok (e : entry) : Prop := e_addr e <> 0 /\ 0 < e_size e /\ e_size e + META < 2 ^ 64.

Record rep (st : memcheck) (l : list entry) : Prop := {
  rep_head : head st = head_or l 0;
  rep_nodes : nodes st = list_to_map (chain_to l 0);
  rep_nodup : NoDup (addrs l);
  rep_ok : Forall entry_ok l;
}.

Lemma headers_app l1 l2 h : chain_to (l1 ++ l2) h = chain_to l1 (head_or l2 h) ++ chain_to l2 h.
Proof. induction l1 as [|e l1 IH]; cbn; [done|]. rewrite IH. destruct l1; done. Qed.

Lemma chain_fst l h : (chain_to l h).*1 = addrs l.
Proof. induction l as [|e l IH]; cbn; [done|]. by rewrite IH. Qed.

Lemma chain_length l h : length (chain_to l h) = length l.
Proof. induction l as [|e l IH]; cbn; [done|]. by rewrite IH. Qed.

(** The map seen from one of its headers. *)
Definition others (l1 : list entry) (a : Z) (l2 : list entry) : gmap Z (meta_data * Z) :=
  list_to_map (chain_to l1 a ++ chain_to l2 0).

Lemma nodes_split l1 e l2 :
  NoDup (addrs (l1 ++ e :: l2)) ->
  list_to_map (M := gmap Z (meta_data * Z)) (chain_to (l1 ++ e :: l2) 0)
  = <[e_addr e := (meta_of e (head_or l2 0), META + e_size e)]> (others l1 (e_addr e) l2).
Proof.
  intros Hnd. rewrite headers_app. cbn [head_or chain_to]. unfold others. rewrite <- list_to_map_cons.
  apply list_to_map_proper.
  - rewrite fmap_app. cbn. rewrite !chain_fst. revert Hnd. unfold addrs. by rewrite fmap_app.
  - by rewrite Permutation_middle.
Qed.

Lemma others_fresh l1 a l2 b : b ∉ addrs (l1 ++ l2) -> others l1 a l2 !! b = None.
Proof.
  intros Hb. unfold others. apply not_elem_of_list_to_map. rewrite fmap_app, !chain_fst.
  revert Hb. unfold addrs. by rewrite fmap_app.
Qed.

Lemma nodup_mid l1 e l2 :
  NoDup (addrs (l1 ++ e :: l2)) -> (e_addr e ∉ addrs (l1 ++ l2)) /\ NoDup (addrs (l1 ++ l2)).
Proof.
  unfold addrs. rewrite !fmap_app. cbn. rewrite <- Permutation_middle. by intros [? ?]%NoDup_cons.
Qed.

Lemma rep_lookup st l1 e l2 :
  rep st (l1 ++ e :: l2) -> nodes st !! e_addr e = Some (meta_of e (head_or l2 0), META + e_size e).
Proof. intros [_ Hn Hnd _]. by rewrite Hn, nodes_split, lookup_insert_eq. Qed.

Lemma load_meta_ok st l1 e l2 :
  rep st (l1 ++ e :: l2) -> load_meta st (e_addr e) = Done (meta_of e (head_or l2 0)).
Proof.
  intros Hr. unfold load_meta. rewrite (rep_lookup _ _ _ _ Hr). cbn. destruct Hr as [_ _ _ Hok].
  rewrite (proj2 (Z.leb_le _ _)); [done|].
  apply Forall_app in Hok as [_ Hok]. apply Forall_cons in Hok as [(_ & ? & _) _]. unfold META. lia.
Qed.

Lemma rep_fuel st l : rep st l -> list_fuel st = S (length l).
Proof.
  intros [_ Hn Hnd _]. unfold list_fuel. rewrite Hn, map_size_list_to_map by (by rewrite chain_fst).
  by rewrite chain_length.
Qed.

Lemma valid_ptr_ok fuel st l1 l2 p :
  rep st (l1 ++ l2) -> (length l2 < fuel)%nat ->
  valid_ptr fuel st (head_or l2 0) p = Done (match find_payload p l2 with Some (_, e) => e_addr e | None => 0 end).
Proof.
  revert l1 l2. induction fuel as [|fuel IH]; intros l1 l2 Hr Hf; [lia|].
  destruct l2 as [|e l2]; cbn [valid_ptr head_or]; [done|].
  assert (Hne : e_addr e <> 0).
  { pose proof (rep_ok _ _ Hr) as Hok. apply Forall_app in Hok as [_ Hok]. by apply Forall_cons in Hok as [(? & _) _]. }
  rewrite (proj2 (Z.eqb_neq _ _)) by done. unfold find_payload. cbn [list_find].
  destruct (Z.eqb_spec (e_addr e + META) p) as [Heq|Hneq].
  - by rewrite decide_True by done.
  - rewrite decide_False by done. rewrite (load_meta_ok st l1 e l2) by done. cbn [obind next meta_of].
    rewrite (IH (l1 ++ [e]) l2); [|by rewrite <- app_assoc|cbn in Hf; lia].
    unfold find_payload. destruct (list_find _ l2) as [[i e']|]; done.
Qed.

Lemma before_loop_ok fuel st l1 b s1 e s2 :
  rep st (l1 ++ b :: s1 ++ e :: s2) -> (length s1 < fuel)%nat ->
  before_node_loop fuel st (e_addr b) (head_or (s1 ++ e :: s2) 0) (e_addr e) = Done (e_addr (List.last (b :: s1) b)).
Proof.
  revert l1 b s1. induction fuel as [|fuel IH]; intros l1 b s1 Hr Hf; [lia|].
  assert (Hnz : forall x, x ∈ l1 ++ b :: s1 ++ e :: s2 -> e_addr x <> 0).
  { intros x Hx. pose proof (rep_ok _ _ Hr) as Hok. rewrite Forall_forall in Hok. by destruct (Hok x Hx). }
  destruct s1 as [|c s1]; cbn [app head_or before_node_loop].
  - rewrite (proj2 (Z.eqb_neq _ _)), Z.eqb_refl by (apply Hnz; set_solver). done.
  - rewrite (proj2 (Z.eqb_neq _ _)) by (apply Hnz; set_solver).
    rewrite (proj2 (Z.eqb_neq (e_addr c) (e_addr e))).
    2:{ pose proof (rep_nodup _ _ Hr) as Hnd. replace (l1 ++ b :: (c :: s1) ++ e :: s2) with ((l1 ++ [b]) ++ c :: (s1 ++ e :: s2)) in Hnd
          by (by rewrite <- app_assoc). apply nodup_mid in Hnd as [Hc _]. intros Heq. apply Hc. rewrite Heq.
        unfold addrs. apply list_elem_of_fmap. exists e. split; [done|]. set_solver. }
    assert (Hr' : rep st ((l1 ++ [b]) ++ c :: (s1 ++ e :: s2))) by (by rewrite <- app_assoc).
    rewrite (load_meta_ok st (l1 ++ [b]) c (s1 ++ e :: s2) Hr'). cbn [obind next meta_of].
    rewrite (IH (l1 ++ [b]) c s1 Hr'); [|cbn in Hf; lia]. f_equal. f_equal. destruct s1; [done|]. cbn [List.last].
    clear. revert e0 s1. intros x s1. revert x. induction s1 as [|y s1 IH]; intros x; [done|]. apply IH.
Qed.

Lemma before_node_ok st l1 b e l2 :
  rep st (l1 ++ b :: e :: l2) -> before_node st (head st) (e_addr e) = Done (e_addr b).
Proof.
  intros Hr. unfold before_node. rewrite (rep_head _ _ Hr), (rep_fuel _ _ Hr). destruct l1 as [|c l1]; cbn [app head_or].
  - rewrite (load_meta_ok st [] b (e :: l2) Hr). cbn [obind next meta_of].
    by rewrite (before_loop_ok _ st [] b [] e l2 Hr) by (cbn; lia).
  - rewrite (load_meta_ok st [] c (l1 ++ b :: e :: l2) Hr). cbn [obind next meta_of].
    assert (Hr' : rep st ([] ++ c :: (l1 ++ [b]) ++ e :: l2)) by (by rewrite <- app_assoc).
    replace (l1 ++ b :: e :: l2) with ((l1 ++ [b]) ++ e :: l2) by (by rewrite <- app_assoc).
    rewrite (before_loop_ok _ st [] c (l1 ++ [b]) e l2 Hr') by (cbn; rewrite !length_app; cbn; lia).
    do 2 f_equal. rewrite app_comm_cons. by rewrite List.last_last.
Qed.

Lemma find_payload_split p l i e :
  find_payload p l = Some (i, e) ->
  e_addr e + META = p /\ l = take i l ++ e :: drop (S i) l /\ delete i l = take i l ++ drop (S i) l
  /\ forall e', <[i := e']> l = take i l ++ e' :: drop (S i) l.
Proof.
  intros (Hi & Hp & _)%list_find_Some. split; [done|]. split; [by rewrite take_drop_middle|].
  split; [by rewrite delete_take_drop|]. intros e'. apply insert_take_drop. by eapply lookup_lt_Some.
Qed.

(** ** The three ways the code changes the list *)

Lemma rep_push st l e st' :
  rep st l -> entry_ok e -> e_addr e ∉ addrs l ->
  head st' = e_addr e -> nodes st' = <[e_addr e := (meta_of e (head st), META + e_size e)]> (nodes st) -> rep st' (e :: l).
Proof.
  intros [Hh Hn Hnd Hok] He Hf Hh' Hn'. split; [done| | |].
  - rewrite Hn', Hn, Hh. done.
  - cbn. by constructor.
  - by constructor.
Qed.

Lemma rep_pop st e l st' :
  rep st (e :: l) -> head st' = head_or l 0 -> nodes st' = delete (e_addr e) (nodes st) -> rep st' l.
Proof.
  intros [Hh Hn Hnd Hok] Hh' Hn'. pose proof (nodup_mid [] e l Hnd) as [Hf Hnd']. split; [done| |done|by inversion Hok].
  rewrite Hn', Hn. cbn [chain_to]. rewrite list_to_map_cons, delete_insert_id; [done|].
  apply not_elem_of_list_to_map. by rewrite chain_fst.
Qed.

Lemma rep_unlink st l1 b e l2 st' :
  rep st (l1 ++ b :: e :: l2) -> head st' = head st ->
  nodes st' = delete (e_addr e) (<[e_addr b := (meta_of b (head_or l2 0), META + e_size b)]> (nodes st)) -> rep st' (l1 ++ b :: l2).
Proof.
  intros [Hh Hn Hnd Hok] Hh' Hn'.
  assert (Hnd2 : NoDup (addrs (l1 ++ b :: l2)) /\ e_addr e ∉ addrs (l1 ++ b :: l2)).
  { pose proof (nodup_mid (l1 ++ [b]) e l2) as Hm. rewrite <- !app_assoc in Hm. by destruct (Hm Hnd). }
  destruct Hnd2 as [Hnd2 He]. split; [|  |done|].
  - rewrite Hh', Hh. by destruct l1.
  - rewrite Hn', Hn. rewrite (nodes_split l1 b (e :: l2)), (nodes_split l1 b l2), insert_insert_eq by done.
    assert (Hbe : e_addr b <> e_addr e) by (intros Heq; apply He; unfold addrs; rewrite fmap_app; set_solver).
    rewrite delete_insert_ne by done. f_equal. unfold others. cbn [chain_to].
    rewrite !list_to_map_app. rewrite list_to_map_cons. apply map_eq. intros a.
    destruct (decide (a = e_addr e)) as [->|Hne].
    + rewrite lookup_delete_eq. symmetry. rewrite <- list_to_map_app. apply others_fresh.
      intros Hin. apply He. revert Hin. unfold addrs. rewrite !fmap_app. set_solver.
    + rewrite lookup_delete_ne by done. rewrite !lookup_union. by rewrite lookup_insert_ne by done.
  - apply Forall_app in Hok as [? Hok]. apply Forall_cons in Hok as [? Hok]. apply Forall_cons in Hok as [_ ?].
    apply Forall_app. split; [done|]. by constructor.
Qed.

(** A header moved to a new address (or not), with its predecessor relinked. *)
Definition relink (l1 : list entry) (a : Z) (m : gmap Z (meta_data * Z)) : gmap Z (meta_data * Z) :=
  match List.rev l1 with
  | [] => m
  | b :: _ => <[e_addr b := (meta_of b a, META + e_size b)]> m
  end.

Lemma rep_move st l1 e l2 e' st' :
  rep st (l1 ++ e :: l2) -> entry_ok e' -> e_addr e' ∉ addrs (l1 ++ l2) ->
  head st' = head_or (l1 ++ e' :: l2) 0 ->
  nodes st' = relink l1 (e_addr e')
    (<[e_addr e' := (meta_of e' (head_or l2 0), META + e_size e')]> (delete (e_addr e) (nodes st))) ->
  rep st' (l1 ++ e' :: l2).
Proof.
  intros [Hh Hn Hnd Hok] He' Hf Hh' Hn'. destruct (nodup_mid _ _ _ Hnd) as [Hfe Hnd'].
  assert (Hnd2 : NoDup (addrs (l1 ++ e' :: l2))).
  { unfold addrs in *. rewrite fmap_app in *. cbn. rewrite <- Permutation_middle. by constructor. }
  split; [done| |done|].
  - rewrite Hn', Hn, nodes_split by done. rewrite delete_insert_id by (by apply others_fresh).
    rewrite nodes_split by done. unfold relink. destruct (rev l1) as [|b r] eqn:Er.
    { apply (f_equal (@rev _)) in Er. rewrite rev_involutive in Er. by subst l1. }
    apply (f_equal (@rev _)) in Er. rewrite rev_involutive in Er. cbn in Er. subst l1. set (l0 := rev r) in *.
    assert (Hbe : e_addr b <> e_addr e') by (intros Heq; apply Hf; unfold addrs; rewrite !fmap_app; set_solver).
    rewrite insert_insert_ne by done. f_equal. unfold others. rewrite !headers_app, <- !app_assoc. cbn [chain_to app head_or].
    assert (Hb : e_addr b ∉ addrs l0) by (revert Hnd'; unfold addrs; rewrite !fmap_app; cbn; rewrite <- app_assoc; intros (_ & Hd & _)%NoDup_app Hin; specialize (Hd _ Hin); set_solver).
    rewrite !list_to_map_app, !list_to_map_cons.
    apply map_eq. intros x. destruct (decide (x = e_addr b)) as [->|Hne].
    + rewrite lookup_insert_eq, lookup_union, lookup_insert_eq.
      rewrite (not_elem_of_list_to_map_1 (chain_to l0 (e_addr b))) by (by rewrite chain_fst). done.
    + rewrite lookup_insert_ne by done. rewrite !lookup_union. by rewrite !lookup_insert_ne by done.
  - apply Forall_app in Hok as [? Hok]. apply Forall_cons in Hok as [_ ?]. apply Forall_app. split; [done|]. by constructor.
Qed.

(** ** Simulation *)

Record sim (st : memcheck) (L : ledger) : Prop := {
  sim_rep : rep st (live L);
  sim_requested : total_memory_requested st = requested L;
  sim_freed : total_memory_freed st = freed L;
  sim_invalid : invalid_addresses st = invalid L;
}.

Lemma store_fresh st a n m f :
  META <= n -> store_meta a f (add_requested (c_malloc a n st) m)
  = Done (set_nodes (add_requested st m) (<[a := (f (Meta 0 0 0 0), n)]> (nodes st))).
Proof.
  intros Hn. unfold store_meta, c_malloc. cbn. rewrite lookup_insert_eq. cbn. rewrite (proj2 (Z.leb_le _ _)) by done.
  by rewrite insert_insert_eq.
Qed.

Lemma sim_alloc st L size f i a :
  sim st L -> size <> 0 -> size_ok size -> a <> 0 -> a ∉ addrs (live L) ->
  sim (set_head (set_nodes (add_requested st size) (<[a := (Meta size f i (head st), META + size)]> (nodes st))) a)
    (snd (ledger_alloc size f i a L)).
Proof.
  intros [Hr H1 H2 H3] Hs [Hs0 Hs1] Ha Hf. unfold ledger_alloc. rewrite (proj2 (Z.eqb_neq _ _)) by done. cbn [snd].
  split; cbn; try congruence.
  eapply (rep_push st (live L) (Entry a size f i)); try done. split; [done|]. cbn. lia.
Qed.

Lemma mini_malloc_ok st L size f i a :
  sim st L -> size_ok size -> a ∉ addrs (live L) ->
  exists st', mini_malloc (fun _ => a) size f i st = Done (fst (spec_op (OMalloc size f i a) L), st')
    /\ sim st' (snd (spec_op (OMalloc size f i a) L)).
Proof.
  intros Hsim Hs Hf. unfold mini_malloc, spec_op. destruct (Z.eqb_spec size 0) as [->|Hne]; [by eexists|].
  unfold ledger_alloc at 1. destruct (Z.eqb_spec a 0) as [->|Ha].
  { eexists. split; [done|]. unfold ledger_alloc. done. }
  destruct Hs as [Hs0 Hs1]. unfold META in *. rewrite u64_small by lia.
  rewrite store_fresh by (unfold META; lia). cbn [obind fst]. eexists. split; [done|]. by apply (sim_alloc st L size f i a Hsim).
Qed.

Lemma mini_calloc_ok st L n m f i a :
  sim st L -> 0 <= n -> 0 <= m -> size_ok (n * m) -> a ∉ addrs (live L) ->
  exists st', mini_calloc (fun _ => a) n m f i st = Done (fst (spec_op (OCalloc n m f i a) L), st')
    /\ sim st' (snd (spec_op (OCalloc n m f i a) L)).
Proof.
  intros Hsim Hn0 Hm0 Hs Hf. unfold mini_calloc, spec_op.
  destruct ((n =? 0) || (m =? 0)) eqn:E; [by eexists|]. bool_to_prop.
  unfold ledger_alloc at 1. destruct (Z.eqb_spec a 0) as [->|Ha].
  { eexists. split; [done|]. unfold ledger_alloc. done. }
  pose proof Hs as [Hs0 Hs1]. unfold META in *. rewrite !u64_small by (rewrite ?u64_small; lia).
  rewrite store_fresh by (unfold META; lia). cbn [obind fst]. unfold clear_payload. cbn [nodes set_head set_nodes].
  rewrite lookup_insert_eq. cbn [deref obind]. unfold META. rewrite (proj2 (Z.leb_le _ _)) by lia. cbn [obind].
  eexists. split; [done|].
  destruct (sim_alloc st L (n * m) f i a Hsim) as [[] ? ? ?]; try done; nia.
Qed.

Lemma find_ok st L p :
  sim st L -> valid_ptr (list_fuel st) st (head st) p
    = Done (match find_payload p (live L) with Some (_, e) => e_addr e | None => 0 end).
Proof.
  intros [Hr _ _ _]. rewrite (rep_head _ _ Hr). apply (valid_ptr_ok _ st [] (live L)); [done|].
  rewrite (rep_fuel _ _ Hr). lia.
Qed.

Lemma rep_mid_ok st l1 e l2 : rep st (l1 ++ e :: l2) -> entry_ok e.
Proof. intros [_ _ _ Hok]. apply Forall_app in Hok as [_ Hok]. by apply Forall_cons in Hok as [? _]. Qed.

Lemma rep_mid_head st l1 b e l2 : rep st ((l1 ++ [b]) ++ e :: l2) -> e_addr e <> head st.
Proof.
  intros Hr. destruct (nodup_mid _ _ _ (rep_nodup _ _ Hr)) as [Hf _]. rewrite (rep_head _ _ Hr). intros Heq. apply Hf.
  rewrite Heq. unfold addrs. rewrite !fmap_app. destruct l1; set_solver.
Qed.

Lemma mini_free_ok st L p :
  sim st L -> exists st', mini_free p st = Done st' /\ sim st' (ledger_free p L).
Proof.
  intros Hsim. unfold mini_free, ledger_free. destruct (p =? 0); [by eexists|].
  rewrite (find_ok st L p Hsim). cbn [obind]. pose proof Hsim as [Hr H1 H2 H3].
  destruct (find_payload p (live L)) as [[i e]|] eqn:Ef.
  2:{ cbn. eexists. split; [done|]. destruct Hr. split; cbn; try congruence. by split. }
  destruct (find_payload_split p (live L) i e Ef) as (Hp & Hl & Hd & _). rewrite Hd. rewrite Hl in Hr.
  set (l1 := take i (live L)) in *. set (l2 := drop (S i) (live L)) in *. clearbody l1 l2.
  rewrite (proj2 (Z.eqb_neq _ _)) by (by apply (rep_mid_ok st l1 e l2)).
  destruct l1 as [|b l1 _] using rev_ind.
  - cbn [app] in *. assert (Hh : head st = e_addr e) by apply Hr. rewrite Hh, Z.eqb_refl, (load_meta_ok st [] e l2 Hr). cbn [obind next meta_of].
    change (load_meta (set_head st (head_or l2 0)) (e_addr e)) with (load_meta st (e_addr e)).
    rewrite (load_meta_ok st [] e l2 Hr). cbn [obind]. unfold c_free. cbn [nodes add_freed set_head].
    rewrite (rep_lookup st [] e l2 Hr). cbn [deref obind]. eexists. split; [done|]. split; cbn; try congruence. by eapply rep_pop.
  - rewrite (proj2 (Z.eqb_neq (e_addr e) (head st))) by (by eapply rep_mid_head).
    assert (Hload := load_meta_ok st (l1 ++ [b]) e l2 Hr). assert (Hlook := rep_lookup st (l1 ++ [b]) e l2 Hr).
    rewrite <- app_assoc in Hr. rewrite (before_node_ok st l1 b e l2 Hr). cbn [obind]. rewrite Hload. cbn [obind next meta_of].
    assert (Hb := rep_mid_ok _ _ _ _ Hr). assert (Hblk : META <= META + e_size b) by (destruct Hb; lia).
    assert (Hstore : store_meta (e_addr b) (with_next (head_or l2 0)) st
      = Done (set_nodes st (<[e_addr b := (meta_of b (head_or l2 0), META + e_size b)]> (nodes st)))).
    { unfold store_meta. rewrite (rep_lookup _ _ _ _ Hr). cbn [deref obind].
      by rewrite (proj2 (Z.leb_le _ _)). }
    rewrite Hstore. cbn [obind]. set (st1 := set_nodes st _).
    assert (Hbe : e_addr b <> e_addr e).
    { intros Heq. destruct (nodup_mid _ _ _ (rep_nodup _ _ Hr)) as [Hf _]. apply Hf. rewrite Heq. unfold addrs. rewrite fmap_app. set_solver. }
    assert (Hload1 : load_meta st1 (e_addr e) = load_meta st (e_addr e)) by (unfold load_meta; cbn; by rewrite lookup_insert_ne).
    rewrite Hload1, Hload. cbn [obind]. unfold c_free.
    unfold st1. cbn [nodes add_freed set_nodes]. rewrite lookup_insert_ne, Hlook by done. cbn [deref obind]. eexists. split; [done|]. split; cbn; try congruence.
    rewrite <- app_assoc. cbn [app]. by apply (rep_unlink st l1 b e l2 _ Hr).
Qed.

(** The counters after [realloc], and the block it moved. *)
Lemma sim_counters st L l1 e l2 size :
  sim st L -> rep st (l1 ++ e :: l2) -> size_ok size ->
  let st1 := if e_size e <? size then add_requested st (u64 (size - e_size e)) else add_freed st (u64 (e_size e - size)) in
  forall l st', rep st' l -> total_memory_requested st' = total_memory_requested st1 ->
    total_memory_freed st' = total_memory_freed st1 -> invalid_addresses st' = invalid_addresses st1 ->
    sim st' (if e_size e <? size then Ledger l (u64 (requested L + (size - e_size e))) (freed L) (invalid L)
             else Ledger l (requested L) (u64 (freed L + (e_size e - size))) (invalid L)).
Proof.
  intros [_ H1 H2 H3] Hr [Hs0 Hs1] st1 l st' Hr' E1 E2 E3. destruct (rep_mid_ok _ _ _ _ Hr) as (_ & He0 & He1).
  unfold META in *. unfold st1 in *. clear st1. destruct (e_size e <? size) eqn:E; bool_to_prop; cbn in E1, E2, E3.
  - rewrite (u64_small (size - e_size e)) in E1 by lia. split; cbn; [done|congruence|congruence|congruence].
  - rewrite (u64_small (e_size e - size)) in E2 by lia. split; cbn; [done|congruence|congruence|congruence].
Qed.

Lemma moved_store st1 p n a m blk size :
  a <> 0 -> META <= n -> nodes st1 !! p = Some (m, blk) ->
  exists st2, c_realloc p n a st1 = Done st2
    /\ exists st3, store_meta a (with_size size) st2 = Done st3
    /\ head st3 = head st1 /\ nodes st3 = <[a := (with_size size m, n)]> (delete p (nodes st1))
    /\ total_memory_requested st3 = total_memory_requested st1 /\ total_memory_freed st3 = total_memory_freed st1
    /\ invalid_addresses st3 = invalid_addresses st1.
Proof.
  intros Ha Hn Hp. unfold c_realloc. rewrite (proj2 (Z.eqb_neq _ _)) by done. rewrite Hp. cbn [deref obind].
  eexists. split; [done|]. unfold store_meta. cbn [nodes set_mem set_nodes]. rewrite lookup_insert_eq. cbn [deref obind].
  rewrite (proj2 (Z.leb_le _ _)) by done. eexists. split; [done|]. cbn. by rewrite insert_insert_eq.
Qed.

Lemma mini_realloc_ok st L p size f i a :
  sim st L -> op_ok (ORealloc p size f i a) L ->
  exists st', run_op (ORealloc p size f i a) st = Done (fst (spec_op (ORealloc p size f i a) L), st')
    /\ sim st' (snd (spec_op (ORealloc p size f i a) L)).
Proof.
  intros Hsim [Hs Hok]. cbn [run_op spec_op]. unfold mini_realloc. destruct (Z.eqb_spec p 0) as [->|Hp].
  { cbn [andb]. pose proof (mini_malloc_ok st L size f i a Hsim Hs Hok) as Hm. cbn [spec_op] in Hm.
    destruct (size =? 0) eqn:E; [by eexists|done]. }
  cbn [andb]. destruct (Z.eqb_spec size 0) as [->|Hs0].
  { destruct (mini_free_ok st L p Hsim) as (st' & -> & Hsim'). cbn [obind]. by eexists. }
  destruct (Hok Hs0) as [Ha Hf]. rewrite (find_ok st L p Hsim). cbn [obind]. pose proof Hsim as [Hr H1 H2 H3].
  unfold ledger_realloc. destruct (find_payload p (live L)) as [[j e]|] eqn:Ef.
  2:{ cbn. eexists. split; [done|]. destruct Hr. split; cbn; try congruence. by split. }
  destruct (find_payload_split p (live L) j e Ef) as (Hpe & Hl & _ & Hi). rewrite Hi. cbn [fst snd].
  rewrite Hl in Hr, Hf. set (l1 := take j (live L)) in *. set (l2 := drop (S j) (live L)) in *. clearbody l1 l2.
  pose proof (rep_mid_ok st l1 e l2 Hr) as He. rewrite (proj2 (Z.eqb_neq _ _)) by apply He.
  rewrite (load_meta_ok st l1 e l2 Hr). cbn [obind request_size meta_of].
  set (st1 := if e_size e <? size then _ else _). set (e' := Entry a size (e_file e) (e_instr e)).
  assert (Hr1 : rep st1 (l1 ++ e :: l2)) by (destruct Hr; unfold st1; destruct (_ <? _); by split).
  assert (He' : entry_ok e') by (split; [done|]; cbn; destruct Hs; lia).
  assert (Hfr : e_addr e' ∉ addrs (l1 ++ l2)).
  { destruct (nodup_mid _ _ _ (rep_nodup _ _ Hr)) as [Hne _]. destruct Hf as [Hf|Hf].
    - intros Hin. apply Hf. revert Hin. unfold addrs. rewrite !fmap_app. set_solver.
    - by replace (e_addr e') with (e_addr e) by (cbn; lia). }
  assert (Hn : u64 (size + META) = META + size) by (destruct Hs; unfold META in *; rewrite u64_small; lia). rewrite Hn.
  assert (Hnb : META <= META + size) by (destruct Hs; lia).
  destruct (moved_store st1 (e_addr e) (META + size) a _ _ size Ha Hnb (rep_lookup st1 l1 e l2 Hr1)) as (st2 & Hc & st3 & Hst & G1 & G2 & G3 & G4 & G5).
  destruct l1 as [|b l1 _] using rev_ind.
  - assert (Hh : head st1 = e_addr e) by apply Hr1. rewrite Hh, Z.eqb_refl, Hc. cbn [obind]. rewrite Hst. cbn [obind].
    eexists. split; [done|]. eapply (sim_counters st L []); try done. by apply (rep_move st1 [] e l2 e' _ Hr1).
  - rewrite (proj2 (Z.eqb_neq (e_addr e) (head st1))) by (by eapply rep_mid_head).
    assert (Hr2 := Hr1). rewrite <- app_assoc in Hr2. rewrite (before_node_ok st1 l1 b e l2 Hr2). cbn [obind].
    rewrite Hc. cbn [obind]. rewrite Hst. cbn [obind].
    assert (Hbe : e_addr b <> e_addr e /\ e_addr b <> a).
    { destruct (nodup_mid _ _ _ (rep_nodup _ _ Hr)) as [Hne _]. revert Hne Hfr. unfold addrs. rewrite !fmap_app. set_solver. }
    assert (Hb : nodes st3 !! e_addr b = Some (meta_of b (e_addr e), META + e_size b)).
    { rewrite G2, lookup_insert_ne, lookup_delete_ne by (intros ?; destruct Hbe; congruence).
      exact (rep_lookup st1 l1 b (e :: l2) Hr2). }
    unfold store_meta. rewrite Hb. cbn [deref obind]. rewrite (proj2 (Z.leb_le _ _)) by (destruct (rep_mid_ok _ _ _ _ Hr2); lia).
    cbn [obind]. eexists. split; [done|]. eapply (sim_counters st L (l1 ++ [b])); try done.
    eapply (rep_move st1 (l1 ++ [b]) e l2 e' _ Hr1); try done.
    + cbn. rewrite G1, (rep_head _ _ Hr1). by destruct l1.
    + cbn [nodes set_nodes]. unfold relink. rewrite rev_unit. by rewrite G2.
Qed.

(** ** The checker follows the ledger *)

Fixpoint run_ops (ops : list op) (st : memcheck) : outcome (list Z * memcheck) :=
  match ops with
  | [] => Done ([], st)
  | o :: ops =>
      let! (r, st) := run_op o st in
      let! (rs, st) := run_ops ops st in
      Done (r :: rs, st)
  end.

Fixpoint spec_ops (ops : list op) (L : ledger) : list Z * ledger :=
  match ops with
  | [] => ([], L)
  | o :: ops => let '(r, L) := spec_op o L in let '(rs, L) := spec_ops ops L in (r :: rs, L)
  end.

Fixpoint ops_ok (ops : list op) (L : ledger) : Prop :=
  match ops with
  | [] => True
  | o :: ops => op_ok o L /\ ops_ok ops (snd (spec_op o L))
  end.

Fixpoint sum_sizes (l : list entry) : Z :=
  match l with
  | [] => 0
  | e :: l => e_size e + sum_sizes l
  end.

(** Bytes requested, minus bytes freed, are the bytes still allocated. *)
Definition balanced (L : ledger) : Prop := exists k, requested L - freed L = sum_sizes (live L) + k * 2 ^ 64.

Lemma u64_cong x : exists k, u64 x = x + k * 2 ^ 64.
Proof. exists (- (x / 2 ^ 64)). unfold u64. change 18446744073709551616 with (2 ^ 64). rewrite Z.mod_eq by lia. lia. Qed.

Lemma sum_sizes_app l1 l2 : sum_sizes (l1 ++ l2) = sum_sizes l1 + sum_sizes l2.
Proof. induction l1 as [|e l1 IH]; cbn; [done|]. rewrite IH. lia. Qed.

Ltac balance := repeat match goal with |- context [u64 ?x] => destruct (u64_cong x) as [? ->] end.

Lemma ledger_alloc_balanced size f i a L : balanced L -> balanced (snd (ledger_alloc size f i a L)).
Proof.
  intros [k Hk]. unfold ledger_alloc, balanced. destruct (a =? 0); [by exists k|]. cbn. balance.
  exists (k + x). lia.
Qed.

Lemma ledger_free_balanced p L : balanced L -> balanced (ledger_free p L).
Proof.
  intros [k Hk]. unfold ledger_free, balanced. destruct (p =? 0); [by exists k|].
  destruct (find_payload p (live L)) as [[i e]|] eqn:Ef; [|by exists k].
  destruct (find_payload_split _ _ _ _ Ef) as (_ & Hl & Hd & _). cbn [live requested freed]. rewrite Hd. rewrite Hl, !sum_sizes_app in Hk.
  cbn [sum_sizes] in Hk. rewrite sum_sizes_app. balance. exists (k - x). lia.
Qed.

Lemma spec_op_balanced o L : balanced L -> balanced (snd (spec_op o L)).
Proof.
  intros Hb. destruct o as [size f i a|n m f i a|p size f i a|p]; cbn [spec_op].
  - destruct (size =? 0); [done|]. by apply ledger_alloc_balanced.
  - destruct (_ || _); [done|]. by apply ledger_alloc_balanced.
  - destruct (p =? 0); [destruct (size =? 0); [done|by apply ledger_alloc_balanced]|].
    destruct (size =? 0); [by apply ledger_free_balanced|]. unfold ledger_realloc.
    destruct (find_payload p (live L)) as [[j e]|] eqn:Ef; [|done].
    destruct (find_payload_split _ _ _ _ Ef) as (_ & Hl & _ & Hi). cbn [snd]. destruct Hb as [k Hk].
    rewrite Hl, !sum_sizes_app in Hk. cbn [sum_sizes] in Hk.
    destruct (e_size e <? size); unfold balanced; cbn [live requested freed]; rewrite Hi, sum_sizes_app; cbn [sum_sizes e_size]; balance;
      [exists (k + x)|exists (k - x)]; lia.
  - by apply ledger_free_balanced.
Qed.

Lemma run_op_ok o st L :
  sim st L -> op_ok o L -> exists st', run_op o st = Done (fst (spec_op o L), st') /\ sim st' (snd (spec_op o L)).
Proof.
  intros Hsim Hok. destruct o as [size f i a|n m f i a|p size f i a|p].
  - destruct Hok. by apply mini_malloc_ok.
  - destruct Hok as (? & ? & ? & ?). by apply mini_calloc_ok.
  - by apply mini_realloc_ok.
  - destruct (mini_free_ok st L p Hsim) as (st' & Hf & Hsim'). cbn. rewrite Hf. by eexists.
Qed.

Lemma run_ops_ok ops st L :
  sim st L -> balanced L -> ops_ok ops L ->
  exists st', run_ops ops st = Done (fst (spec_ops ops L), st') /\ sim st' (snd (spec_ops ops L)) /\ balanced (snd (spec_ops ops L)).
Proof.
  revert st L. induction ops as [|o ops IH]; intros st L Hsim Hb Hok; cbn [run_ops spec_ops]; [by eexists|].
  destruct Hok as [Ho Hok]. destruct (run_op_ok o st L Hsim Ho) as (st1 & -> & Hsim1). cbn [obind].
  pose proof (spec_op_balanced o L Hb) as Hb1. destruct (spec_op o L) as [r L1]. cbn [fst snd] in *.
  destruct (IH st1 L1 Hsim1 Hb1 Hok) as (st2 & -> & Hsim2 & Hb2). cbn [obind].
  destruct (spec_ops ops L1) as [rs L2]. cbn. by eexists.
Qed.

Definition ledger_start : ledger := Ledger [] 0 0 0.

(** Whatever calls of [mini_malloc], [mini_calloc], [mini_realloc] and
    [mini_free] a program makes (with sizes that fit and a [realloc] that does
    not fail), none is undefined; each returns what the ledger says; afterwards
    the list holds exactly the headers of the live allocations, a pointer is
    recognised exactly when it is the payload of one of them, the invalid calls
    have been counted, and the requested bytes minus the freed bytes are the
    bytes still allocated. *)
Theorem memcheck_accounting m ops :
  ops_ok ops ledger_start ->
  let L := snd (spec_ops ops ledger_start) in
  exists st, run_ops ops (memcheck_start m) = Done (fst (spec_ops ops ledger_start), st)
    /\ head st = head_or (live L) 0 /\ nodes st = list_to_map (chain_to (live L) 0)
    /\ (forall p, valid_ptr (list_fuel st) st (head st) p
          = Done (match find_payload p (live L) with Some (_, e) => e_addr e | None => 0 end))
    /\ invalid_addresses st = invalid L
    /\ u64 (total_memory_requested st - total_memory_freed st) = u64 (sum_sizes (live L)).
Proof.
  intros Hok L. destruct (run_ops_ok ops (memcheck_start m) ledger_start) as (st & Hrun & Hsim & [k Hk]); [| |done|].
  - split; try done. split; try done. constructor.
  - by exists 0.
  - exists st. split; [done|]. split; [apply Hsim|]. split; [apply Hsim|]. split; [intros p; by apply find_ok|].
    split; [apply Hsim|]. fold L in Hk, Hsim. rewrite (sim_requested _ _ Hsim), (sim_freed _ _ Hsim), Hk.
    unfold u64. change 18446744073709551616 with (2 ^ 64). by rewrite Z.mod_add by lia.
Qed.

(** Two allocations, a growing [realloc] that moves the first block, a valid
    [free], a double [free]. *)
Lemma memcheck_accounting_witness :
  exists st, run_ops [OMalloc 10 0 0 1000; OCalloc 2 4 0 0 2000; ORealloc 1032 50 0 0 3000; OFree 2032; OFree 2032]
      (memcheck_start (fun _ => 0)) = Done ([1032; 2032; 3032; 0; 0], st)
    /\ invalid_addresses st = 1 /\ u64 (total_memory_requested st - total_memory_freed st) = 50.
Proof.
  destruct (memcheck_accounting (fun _ => 0)
    [OMalloc 10 0 0 1000; OCalloc 2 4 0 0 2000; ORealloc 1032 50 0 0 3000; OFree 2032; OFree 2032]) as (st & Hrun & _ & _ & _ & Hi & Hb).
  - cbn. repeat split; try lia; try set_solver; try (left; cbn; set_solver).
  - exists st. split; [exact Hrun|]. split; [exact Hi|exact Hb].
Defined.

(** Freeing the same payload twice is counted, and changes nothing else. *)
Lemma double_free_counted st L p :
  sim st L -> p <> 0 -> find_payload p (live L) = None ->
  mini_free p st = Done (add_invalid st).
Proof.
  intros Hsim Hp Hf. unfold mini_free. rewrite (proj2 (Z.eqb_neq _ _)) by done.
  rewrite (find_ok st L p Hsim), Hf. done.
Qed.
