(* ===== verification/Hooks.v ===== *)
(** * [mini_memcheck/mini_hacks.c]: the hooks around the leak checker

    The replaced [malloc], [calloc], [realloc] and [free] of the program call the
    checker while [hooks_active] is set and go to the C library otherwise, so the
    checker's own allocations are not counted; at the end [print_leak_info] reports.
    What the library's functions answer, who the caller is and which pointers
    [__libc_freeres] gives back are parameters; the resolution of symbols and the
    layout of the messages are left out. *)

From stdpp Require Import gmap.
From S2P Require Import Prelude CMem Memcheck MemcheckSpec.
Open Scope Z_scope.

Record hooked := Hooked {
  hooks_active : bool;
  checker : memcheck;
}.

(** [ALLOC_FUNC_SETUP], the checker's function, [ALLOC_FUNC_TEARDOWN]: while it runs,
    its calls of [malloc] and [realloc] are passed to the library. *)
Definition hook_alloc (mini : memcheck -> outcome (Z * memcheck)) (real : Z) (s : hooked) : outcome (Z * hooked) :=
  if negb (hooks_active s) then Done (real, s)
  else
    let s := Hooked false (checker s) in
    let! (ptr, st) := mini (checker s) in
    Done (ptr, Hooked true st).

(** [real] is the answer of the library. *)
Definition hook_malloc (request_size filename instruction real : Z) : hooked -> outcome (Z * hooked) :=
  hook_alloc (mini_malloc (fun _ => real) request_size filename instruction) real.

Definition hook_calloc (num_elements element_size filename instruction real : Z) : hooked -> outcome (Z * hooked) :=
  hook_alloc (mini_calloc (fun _ => real) num_elements element_size filename instruction) real.

Definition hook_realloc (ptr request_size filename instruction real : Z) : hooked -> outcome (Z * hooked) :=
  hook_alloc (mini_realloc (fun _ => real) (fun _ _ => real) ptr request_size filename instruction) real.

(** [real_free] of a block that the checker knows releases its header. *)
Definition real_free (p : Z) (st : memcheck) : outcome memcheck := if decide (is_Some (nodes st !! p)) then c_free p st else Done st.

Definition hook_free (ptr : Z) (s : hooked) : outcome hooked :=
  if negb (hooks_active s) then let! st := real_free ptr (checker s) in Done (Hooked false st)
  else
    let s := Hooked false (checker s) in
    let! st := mini_free ptr (checker s) in
    Done (Hooked true st).

Fixpoint free_all (ptrs : list Z) (s : hooked) : outcome hooked :=
  match ptrs with
  | [] => Done s
  | p :: ptrs => let! s := hook_free p s in free_all ptrs s
  end.

Definition set_invalid (st : memcheck) (n : Z) : memcheck :=
  Memcheck (head st) (nodes st) (mem st) (total_memory_requested st) (total_memory_freed st) n.

(** [__libc_freeres] frees [ptrs]; they must not count as bad calls. *)
Definition finalize (ptrs : list Z) (s : hooked) : outcome hooked :=
  let invalid_addresses_temp := invalid_addresses (checker s) in
  let! s := free_all ptrs s in
  let st := set_invalid (checker s) invalid_addresses_temp in
  Done (Hooked false st).

(** One leak: its origin, its size, its address. *)
Record leak := Leak {
  origin_file : Z;
  origin_instr : Z;
  leak_size : Z;
  leak_addr : Z;
}.

Record report := Report {
  leaks : list leak;
  bad_calls : Z;
  requested_bytes : Z;
  freed_bytes : Z;
  total_leak : Z;
}.

(** [while (leak_info != NULL)]: the leaks, the sum, and the list released. *)
Fixpoint leak_loop (fuel : nat) (leak_info total_leak : Z) (s : hooked) : outcome (list leak * Z * hooked) :=
  match fuel with
  | O => OutOfFuel
  | S fuel =>
      if leak_info =? 0 then Done ([], total_leak, s)
      else
        let! m := load_meta (checker s) leak_info in
        let total_leak := u64 (total_leak + request_size m) in
        let l := Leak (filename m) (instruction m) (request_size m) (leak_info + META) in
        let! s := hook_free leak_info s in
        let! (ls, total_leak, s) := leak_loop fuel (next m) total_leak s in
        Done (l :: ls, total_leak, s)
  end.

(** The destructor; the assertion at its end can stop the program. *)
Definition print_leak_info (libc_ptrs : list Z) (s : hooked) : outcome (report * hooked) :=
  let! s := finalize libc_ptrs s in
  let st := checker s in
  let! (ls, total_leak, s) := leak_loop (list_fuel st) (head st) 0 s in
  let r := Report ls (invalid_addresses (checker s)) (total_memory_requested (checker s)) (total_memory_freed (checker s)) total_leak in
  if total_leak =? u64 (total_memory_requested (checker s) - total_memory_freed (checker s)) then Done (r, s) else Abort.

(** ** A program: its calls, then its end *)

Definition hook_op (o : op) (s : hooked) : outcome (Z * hooked) :=
  match o with
  | OMalloc size f i a => hook_malloc size f i a s
  | OCalloc n m f i a => hook_calloc n m f i a s
  | ORealloc p size f i a => hook_realloc p size f i a s
  | OFree p => let! s := hook_free p s in Done (0, s)
  end.

Fixpoint hook_ops (ops : list op) (s : hooked) : outcome (list Z * hooked) :=
  match ops with
  | [] => Done ([], s)
  | o :: ops =>
      let! (r, s) := hook_op o s in
      let! (rs, s) := hook_ops ops s in
      Done (r :: rs, s)
  end.

Definition program (ops : list op) (libc_ptrs : list Z) (m : memory) : outcome (list Z * report * hooked) :=
  let! (rs, s) := hook_ops ops (Hooked true (memcheck_start m)) in
  let! (r, s) := print_leak_info libc_ptrs s in
  Done (rs, r, s).

(** ** The hooks are transparent *)

Lemma hook_op_active o st : hook_op o (Hooked true st) = (let! (r, st) := run_op o st in Done (r, Hooked true st)).
Proof.
  destruct o; cbn [hook_op run_op]; unfold hook_malloc, hook_calloc, hook_realloc, hook_alloc, hook_free; cbn [hooks_active negb checker]; try done.
  by destruct (mini_free payload st) as [st'| | |].
Qed.

Lemma hook_ops_active ops st : hook_ops ops (Hooked true st) = (let! (rs, st) := run_ops ops st in Done (rs, Hooked true st)).
Proof.
  revert st. induction ops as [|o ops IH]; intros st; [done|]. cbn [hook_ops run_ops]. rewrite hook_op_active.
  destruct (run_op o st) as [[r st1]| | |]; cbn [obind]; try done. rewrite IH. by destruct (run_ops ops st1) as [[rs st2]| | |].
Qed.

(** What [free] of library pointers does to the ledger. *)
Definition ledger_frees (ptrs : list Z) (L : ledger) : ledger := foldl (fun L p => ledger_free p L) L ptrs.

Lemma free_all_ok ptrs st L : sim st L -> balanced L ->
  exists st', free_all ptrs (Hooked true st) = Done (Hooked true st') /\ sim st' (ledger_frees ptrs L) /\ balanced (ledger_frees ptrs L).
Proof.
  revert st L. induction ptrs as [|p ptrs IH]; intros st L Hs Hb; cbn [free_all ledger_frees foldl]; [by exists st|].
  unfold hook_free. cbn [hooks_active negb checker]. destruct (mini_free_ok st L p Hs) as (st1 & -> & Hs1). cbn [obind].
  apply IH; [done|by apply ledger_free_balanced].
Qed.

Definition leak_of (e : entry) : leak := Leak (e_file e) (e_instr e) (e_size e) (e_addr e + META).

(** The loop reports the list from its head on and leaves no header; [head] itself keeps
    pointing to the first one. *)
Lemma leak_loop_ok l : forall st fuel t, nodes st = list_to_map (chain_to l 0) -> NoDup (addrs l) -> Forall entry_ok l -> (length l < fuel)%nat ->
  exists st', leak_loop fuel (head_or l 0) t (Hooked false st) = Done (leak_of <$> l, foldl (fun t e => u64 (t + e_size e)) t l, Hooked false st')
    /\ nodes st' = ∅ /\ total_memory_requested st' = total_memory_requested st /\ total_memory_freed st' = total_memory_freed st /\ invalid_addresses st' = invalid_addresses st.
Proof.
  induction l as [|e l IH]; intros st fuel t Hn Hnd Hok Hf; (destruct fuel as [|fuel]; [cbn in Hf; lia|]); cbn [leak_loop head_or]; [by exists st|].
  apply NoDup_cons in Hnd as [Hfr Hnd]. apply Forall_cons in Hok as [(H0 & He & _) Hok]. rewrite (proj2 (Z.eqb_neq _ _)) by done. cbn [checker].
  assert (Hlook : nodes st !! e_addr e = Some (meta_of e (head_or l 0), META + e_size e)) by (rewrite Hn; cbn [chain_to]; by rewrite list_to_map_cons, lookup_insert_eq).
  unfold load_meta at 1. rewrite Hlook. cbn [deref obind]. rewrite (proj2 (Z.leb_le _ _)) by lia. cbn [obind request_size filename instruction next meta_of].
  unfold hook_free. cbn [hooks_active negb checker]. unfold real_free, c_free. rewrite decide_True by (rewrite Hlook; by eexists). rewrite Hlook. cbn [deref obind].
  destruct (IH (set_nodes st (delete (e_addr e) (nodes st))) fuel (u64 (t + e_size e))) as (st' & -> & Hst'); [|done|done|cbn in Hf; lia|].
  - cbn [nodes set_nodes]. rewrite Hn. cbn [chain_to]. rewrite list_to_map_cons, delete_insert_id; [done|]. apply not_elem_of_list_to_map. by rewrite chain_fst.
  - cbn [obind]. by exists st'.
Qed.

Lemma sum_wraps l t : foldl (fun t e => u64 (t + e_size e)) (u64 t) l = u64 (t + sum_sizes l).
Proof.
  revert t. induction l as [|e l IH]; intros t; cbn [foldl sum_sizes]; [by rewrite Z.add_0_r|].
  replace (u64 (u64 t + e_size e)) with (u64 (t + e_size e)) by (unfold u64; by rewrite Zplus_mod_idemp_l). rewrite IH. f_equal. lia.
Qed.

(** The program that makes [ops] and ends, from the ledger's point of view. *)
Definition ledger_report (L : ledger) (bad : Z) : report := Report (leak_of <$> live L) bad (requested L) (freed L) (u64 (sum_sizes (live L))).

(** C30. A program under the leak checker runs to its end: its calls return what the ledger
    of its allocations says, the hooks are active between them, the assertion of
    the report never fails, and the report lists exactly the allocations that are still live, newest
    first, each with its size, address and origin, the number of bad calls of the
    program (those of the library's clean-up do not count) and the totals; all headers
    are then released. *)
Theorem leak_report_correct m ops libc_ptrs (Hok : ops_ok ops ledger_start) :
  let L := snd (spec_ops ops ledger_start) in
  exists s, program ops libc_ptrs m = Done (fst (spec_ops ops ledger_start), ledger_report (ledger_frees libc_ptrs L) (invalid L), s)
    /\ hooks_active s = false /\ nodes (checker s) = ∅.
Proof.
  intros L. destruct (run_ops_ok ops (memcheck_start m) ledger_start) as (st & Hrun & Hsim & Hb); [by (split; try done; split; try done; constructor)|by exists 0|done|]. fold L in Hsim, Hb.
  unfold program. rewrite hook_ops_active, Hrun. cbn [obind]. unfold print_leak_info, finalize. cbn [checker].
  destruct (free_all_ok libc_ptrs st L Hsim Hb) as (st1 & -> & Hsim1 & Hb1). cbn [obind checker]. set (L1 := ledger_frees libc_ptrs L) in *. rewrite (sim_invalid _ _ Hsim).
  destruct Hsim1 as [Hr H1 H2 _]. set (st2 := set_invalid st1 (invalid L)). rewrite (rep_head _ _ Hr : head st2 = _). change (list_fuel st2) with (list_fuel st1). rewrite (rep_fuel _ _ Hr).
  destruct (leak_loop_ok (live L1) st2 (S (length (live L1))) 0) as (st3 & -> & Hn & E1 & E2 & E3); [apply Hr|apply Hr|apply Hr|lia|]. cbn [obind checker].
  rewrite E1, E2, E3. cbn [total_memory_requested total_memory_freed invalid_addresses st2 set_invalid]. rewrite H1, H2.
  change 0 with (u64 0) at 1 2. rewrite !sum_wraps, Z.add_0_l. destruct Hb1 as [k Hk].
  replace (u64 (requested L1 - freed L1)) with (u64 (sum_sizes (live L1))) by (rewrite Hk; unfold u64; change 18446744073709551616 with (2 ^ 64); by rewrite Z.mod_add by lia).
  rewrite Z.eqb_refl. by exists (Hooked false st3).
Qed.

Lemma leak_report_correct_witness :
  exists s, program [OMalloc 10 7 70 1000; OCalloc 2 4 8 80 2000; ORealloc 1032 50 9 90 3000; OFree 77] [2032; 99] (fun _ => 0)
    = Done ([1032; 2032; 3032; 0], Report [Leak 7 70 50 3032] 1 58 8 50, s) /\ nodes (checker s) = ∅.
Proof.
  destruct (leak_report_correct (fun _ => 0) [OMalloc 10 7 70 1000; OCalloc 2 4 8 80 2000; ORealloc 1032 50 9 90 3000; OFree 77] [2032; 99]) as (s & Hrun & _ & Hn).
  - cbn. repeat split; try lia; try set_solver; try (left; cbn; set_solver).
  - exists s. split; [exact Hrun|exact Hn].
Defined.
