(* ===== verification/CamelCaser.v ===== *)
(** * The camel-caser of [extreme_edge_cases/camelCaser.c]

    String objects are the bytes of their allocation, terminator included;
    tables of strings are arrays of pointers (0 for [NULL]).  Every allocation
    succeeds and is fresh ([malloc]'s result is not tested by the code);
    [realloc] of a table moves it.  A read outside an object, or of a string
    without terminator, is [Undef].  The character classes are those of the C
    locale. *)

From stdpp Require Import gmap.
From S2P Require Import Prelude.
Open Scope Z_scope.

(** ** [ctype.h] *)

Definition isupper (c : Z) : bool := (65 <=? c) && (c <=? 90).
Definition islower (c : Z) : bool := (97 <=? c) && (c <=? 122).
Definition isalpha (c : Z) : bool := isupper c || islower c.
Definition isdigit (c : Z) : bool := (48 <=? c) && (c <=? 57).
Definition isspace (c : Z) : bool := (c =? 32) || ((9 <=? c) && (c <=? 13)).
Definition ispunct (c : Z) : bool := (33 <=? c) && (c <=? 126) && negb (isalpha c) && negb (isdigit c).
Definition tolower (c : Z) : Z := if isupper c then c + 32 else c.
Definition toupper (c : Z) : Z := if islower c then c - 32 else c.

(** ** The heap *)

Record heap := Heap {
  next_ptr : Z;
  strings : gmap Z (list Z);
  tables : gmap Z (list Z);
}.

Definition new_string (bs : list Z) (h : heap) : Z * heap :=
  (next_ptr h, Heap (next_ptr h + 1) (<[next_ptr h := bs]> (strings h)) (tables h)).

Definition set_string (p : Z) (bs : list Z) (h : heap) : heap := Heap (next_ptr h) (<[p := bs]> (strings h)) (tables h).

(** [realloc(t, (n + 1) * sizeof(char* ))] of a table of [n] entries and the store
    of [x] in the new entry. *)
Definition table_append (t x : Z) (h : heap) : outcome (Z * heap) :=
  let! old := if t =? 0 then Done [] else deref (tables h !! t) in
  Done (next_ptr h, Heap (next_ptr h + 1) (strings h) (<[next_ptr h := old ++ [x]]> (delete t (tables h)))).

Definition free_string (p : Z) (h : heap) : outcome heap :=
  let! _ := deref (strings h !! p) in Done (Heap (next_ptr h) (delete p (strings h)) (tables h)).

Definition free_table (t : Z) (h : heap) : outcome heap :=
  let! _ := deref (tables h !! t) in Done (Heap (next_ptr h) (strings h) (delete t (tables h))).

(** [strlen] of the string starting an object. *)
Fixpoint strlen (bs : list Z) : outcome nat :=
  match bs with
  | [] => Undef
  | c :: bs => if c =? 0 then Done 0%nat else let! n := strlen bs in Done (S n)
  end.

(** ** Splitting into sentences *)

(** The inner loop: the first punctuation mark from [j] on, [n] characters to go. *)
Fixpoint find_punct (n : nat) (s : list Z) (j : nat) : option nat :=
  match n with
  | O => None
  | S n => match s !! j with
           | Some c => if ispunct c then Some j else find_punct n s (S j)
           | None => None
           end
  end.

Fixpoint split_loop (fuel : nat) (s : list Z) (input_len i : nat) (splitted : Z) (h : heap) : outcome (Z * heap) :=
  match fuel with
  | O => OutOfFuel
  | S fuel =>
      if (i <? input_len)%nat then
        match find_punct (input_len - i) s i with
        | Some j =>
            let nbytes := (j - i)%nat in
            let (str, h) := new_string (take nbytes (drop i s) ++ [0]) h in
            let! (splitted, h) := table_append splitted str h in
            split_loop fuel s input_len (S j) splitted h
        | None => split_loop fuel s input_len (S input_len) splitted h
        end
      else Done (splitted, h)
  end.

Definition split_str (input_str : list Z) (h : heap) : outcome (Z * heap) :=
  let! input_len := strlen input_str in
  let! (splitted, h) := split_loop (S (S input_len)) input_str input_len 0 0 h in
  table_append splitted 0 h.

(** ** Camel-casing *)

(** From a position of the string on; the result is the rest of the object. *)
Fixpoint camel_case_word (word : list Z) (first_letter first_word : bool) : outcome (list Z) :=
  match word with
  | [] => Undef
  | c :: rest =>
      if c =? 0 then Done word
      else
        let '(c, first_letter) :=
          if isalpha c then
            if negb first_letter then (if first_word then tolower c else toupper c, true)
            else (tolower c, first_letter)
          else (c, first_letter) in
        let! rest := camel_case_word rest first_letter first_word in
        Done (c :: rest)
  end.

(** [camel_case_word(str + i, i == 0)]. *)
Definition camel_case_at (str : list Z) (i : nat) : outcome (list Z) :=
  let! w := camel_case_word (drop i str) false (i =? 0)%nat in
  Done (take i str ++ w).

(** The inner loop, [n] characters to go: the string, [j] and [first_word_seen]
    when it ends. *)
Fixpoint camel_scan (n : nat) (str : list Z) (str_len i j : nat) (first_word_seen : bool)
  : outcome (list Z * nat * bool) :=
  match n with
  | O => Done (str, j, first_word_seen)
  | S n =>
      let! c := deref (str !! j) in
      if negb (isspace c) && negb first_word_seen then camel_scan n str str_len i (S j) true
      else if isspace c && first_word_seen then
        let! str := camel_case_at (<[j := 0]> str) i in
        Done (<[j := 32]> str, j, first_word_seen)
      else if (j =? str_len - 1)%nat then
        let! str := camel_case_at str i in
        Done (str, j, first_word_seen)
      else camel_scan n str str_len i (S j) first_word_seen
  end.

Fixpoint camel_case_loop (fuel : nat) (str : list Z) (str_len i : nat) (first_word_seen : bool) : outcome (list Z) :=
  match fuel with
  | O => OutOfFuel
  | S fuel =>
      if (i <? str_len)%nat then
        let! (str, j, first_word_seen) := camel_scan (str_len - i) str str_len i i first_word_seen in
        camel_case_loop fuel str str_len (S j) first_word_seen
      else Done str
  end.

Definition camel_case_str (str : list Z) : outcome (list Z) :=
  let! str_len := strlen str in
  camel_case_loop (S str_len) str str_len 0 false.

(** ** Removing the blanks *)

(** A byte that [malloc] returns and nobody has written. *)
Definition INDETERMINATE : Z := -1.

(** [str[i]] as an rvalue and as an lvalue: outside the object it is undefined. *)
Definition char_at (str : Z) (i : nat) (h : heap) : outcome Z :=
  let! bs := deref (strings h !! str) in deref (bs !! i).

Definition set_char (str : Z) (i : nat) (c : Z) (h : heap) : outcome heap :=
  let! bs := deref (strings h !! str) in
  if (i <? length bs)%nat then Done (set_string str (<[i := c]> bs) h) else Undef.

(** The loop, [n] characters to go: [new_str_len] when it ends. *)
Fixpoint remove_loop (n : nat) (str new_str : Z) (i new_str_len : nat) (h : heap) : outcome (nat * heap) :=
  match n with
  | O => Done (new_str_len, h)
  | S n =>
      let! c := char_at str i h in
      if negb (isspace c) then
        let! h := set_char new_str new_str_len c h in
        remove_loop n str new_str (S i) (S new_str_len) h
      else remove_loop n str new_str (S i) new_str_len h
  end.

(** From character [i] on, [n] to go; behind the terminator of the source the rest is
    filled with zeros. *)
Fixpoint strncpy (n : nat) (dst src : Z) (i : nat) (ended : bool) (h : heap) : outcome heap :=
  match n with
  | O => Done h
  | S n =>
      let! c := if ended then Done 0 else char_at src i h in
      let! h := set_char dst i c h in
      strncpy n dst src (S i) (ended || (c =? 0)) h
  end.

Definition remove_whitespaces_str (str : Z) (h : heap) : outcome heap :=
  let! bs := deref (strings h !! str) in
  let! str_len := strlen bs in
  let (new_str, h) := new_string (replicate (str_len + 1) INDETERMINATE) h in
  let! (new_str_len, h) := remove_loop str_len str new_str 0 0 h in
  let! h := set_char new_str new_str_len 0 h in
  let! h := strncpy new_str_len str new_str 0 false h in
  let! h := set_char str new_str_len 0 h in
  free_string new_str h.


(** [while ( *walk)] over the entries of the table. *)
Fixpoint camel_caser_loop (walk : list Z) (h : heap) : outcome heap :=
  match walk with
  | [] => Undef
  | p :: walk =>
      if p =? 0 then Done h
      else
        let! str := deref (strings h !! p) in
        let! str := camel_case_str str in
        let! h := remove_whitespaces_str p (set_string p str h) in
        camel_caser_loop walk h
  end.

(** [None] is the null pointer. *)
Definition camel_caser (input_str : option (list Z)) (h : heap) : outcome (Z * heap) :=
  match input_str with
  | None => Done (0, h)
  | Some input_str =>
      let! (splitted, h) := split_str input_str h in
      let! entries := deref (tables h !! splitted) in
      let! h := camel_caser_loop entries h in
      Done (splitted, h)
  end.

Fixpoint destroy_loop (walk : list Z) (h : heap) : outcome heap :=
  match walk with
  | [] => Undef
  | p :: walk => if p =? 0 then Done h else let! h := free_string p h in destroy_loop walk h
  end.

Definition destroy (result : Z) (h : heap) : outcome heap :=
  if result =? 0 then Done h
  else
    let! entries := deref (tables h !! result) in
    let! h := destroy_loop entries h in
    free_table result h.
