(* ===== verification/CamelCaserSpec.v ===== *)
(** * Correctness of the camel-caser

    The sentences of the input are its maximal parts ended by a punctuation mark;
    the camel-cased sentence is its first word in lower case followed by its
    other words capitalised.  [camel_caser] returns the table of the camel-cased
    sentences, except for sentences whose only character is their last one, and
    [destroy] frees exactly what it allocated. *)

From stdpp Require Import gmap strings.
From S2P Require Import Prelude CamelCaser.
Open Scope Z_scope.

(** ** What is to be computed *)

(** The parts ended by a punctuation mark; [cur] is the part read so far. *)
Fixpoint sentences (s cur : list Z) : list (list Z) :=
  match s with
  | [] => []
  | c :: s => if ispunct c then cur :: sentences s [] else sentences s (cur ++ [c])
  end.

Fixpoint words (s cur : list Z) : list (list Z) :=
  match s with
  | [] => if decide (cur = []) then [] else [cur]
  | c :: s =>
      if isspace c then (if decide (cur = []) then words s [] else cur :: words s [])
      else words s (cur ++ [c])
  end.

(** A word with its first letter in upper case ([first_word]: lower) and the
    others in lower case; [seen]: the first letter has passed. *)
Fixpoint case_word (seen first_word : bool) (w : list Z) : list Z :=
  match w with
  | [] => []
  | c :: w =>
      (if isalpha c then if seen then tolower c else if first_word then tolower c else toupper c else c)
      :: case_word (seen || isalpha c) first_word w
  end.

Definition camel (s : list Z) : list Z :=
  match words s [] with
  | [] => []
  | w :: ws => case_word false true w ++ concat (case_word false false <$> ws)
  end.

(** ** Words *)

Lemma isspace_not_alpha c : isspace c = true -> isalpha c = false.
Proof. unfold isspace, isalpha, isupper, islower. lia. Qed.

Lemma case_word_app seen fw u v :
  case_word seen fw (u ++ v) = case_word seen fw u ++ case_word (seen || existsb isalpha u) fw v.
Proof.
  revert seen. induction u as [|c u IH]; intros seen; cbn; [by rewrite orb_false_r|]. rewrite IH, orb_assoc. done.
Qed.

Lemma case_word_length seen fw u : length (case_word seen fw u) = length u.
Proof. revert seen. induction u as [|c u IH]; intros seen; cbn; [done|]. by rewrite IH. Qed.

(** The function stops at the terminator. *)
Lemma camel_case_word_ok w junk seen fw :
  0 ∉ w -> camel_case_word (w ++ 0 :: junk) seen fw = Done (case_word seen fw w ++ 0 :: junk).
Proof.
  revert seen. induction w as [|c w IH]; intros seen Hw; cbn [app camel_case_word]; [done|].
  apply not_elem_of_cons in Hw as [Hc Hw]. rewrite (proj2 (Z.eqb_neq _ _)) by done.
  destruct (isalpha c) eqn:Ea, seen; cbn [negb]; rewrite IH by done; cbn; rewrite Ea; destruct fw; done.
Qed.

(** What the string looks like after the outer loop, past the first word. *)
Fixpoint case_rest (seen : bool) (s : list Z) : list Z :=
  match s with
  | [] => []
  | c :: s =>
      if isspace c then 32 :: case_rest false s
      else (if isalpha c then if seen then tolower c else toupper c else c) :: case_rest (seen || isalpha c) s
  end.

Definition nonspace (w : list Z) : Prop := forall c, c ∈ w -> isspace c = false.

Lemma case_rest_app seen w s :
  nonspace w -> case_rest seen (w ++ s) = case_word seen false w ++ case_rest (seen || existsb isalpha w) s.
Proof.
  revert seen. induction w as [|c w IH]; intros seen Hw; cbn; [by rewrite orb_false_r|].
  rewrite (Hw c) by (by left). rewrite IH, orb_assoc by (intros x Hx; apply Hw; by right). done.
Qed.

Lemma case_rest_word seen w : nonspace w -> case_rest seen w = case_word seen false w.
Proof. intros Hw. pose proof (case_rest_app seen w [] Hw) as Happ. cbn in Happ. by rewrite !app_nil_r in Happ. Qed.

Lemma case_rest_length seen s : length (case_rest seen s) = length s.
Proof. revert seen. induction s as [|c s IH]; intros seen; cbn; [done|]. destruct (isspace c); cbn; by rewrite IH. Qed.

Definition keep (s : list Z) : list Z := base.filter (fun c => isspace c = false) s.

Lemma keep_app s t : keep (s ++ t) = keep s ++ keep t.
Proof. apply filter_app. Qed.

Lemma isspace_case c seen fw :
  isspace c = false -> isspace (if isalpha c then if seen : bool then tolower c else if fw : bool then tolower c else toupper c else c) = false.
Proof.
  unfold isalpha, tolower, toupper, isspace, isupper, islower. intros Hc.
  destruct seen, fw; repeat case_bool; lia.
Qed.

Lemma keep_cons_false c s : isspace c = false -> keep (c :: s) = c :: keep s.
Proof. intros H. unfold keep. by rewrite filter_cons_True. Qed.

Lemma keep_cons_true c s : isspace c = true -> keep (c :: s) = keep s.
Proof. intros H. unfold keep. rewrite filter_cons_False; [done|congruence]. Qed.

Lemma keep_case_word seen fw w : nonspace w -> keep (case_word seen fw w) = case_word seen fw w.
Proof.
  revert seen. induction w as [|c w IH]; intros seen Hw; [done|]. cbn [case_word].
  rewrite keep_cons_false by (apply isspace_case, Hw; by left). f_equal. apply IH. intros x Hx. apply Hw. by right.
Qed.

(** Removing the blanks leaves the capitalised words. *)
Lemma keep_case_rest s cur :
  nonspace cur ->
  concat (case_word false false <$> words s cur) = case_word false false cur ++ keep (case_rest (existsb isalpha cur) s).
Proof.
  revert cur. induction s as [|c s IH]; intros cur Hcur; cbn [words case_rest].
  - destruct (decide (cur = [])) as [->|]; cbn; [done|]. done.
  - destruct (isspace c) eqn:Es.
    + rewrite keep_cons_true by done. assert (Hnil := IH [] ltac:(by intros ? ?%not_elem_of_nil)). cbn [case_word existsb app] in Hnil.
      destruct (decide (cur = [])) as [->|]; [by rewrite Hnil|]. cbn. by rewrite Hnil.
    + rewrite IH.
      * rewrite keep_cons_false, case_word_app, existsb_app by (apply (isspace_case c _ false); done).
        cbn. rewrite orb_false_r, <- app_assoc. done.
      * intros x [Hx|Hx]%elem_of_app; [by apply Hcur|]. apply list_elem_of_singleton in Hx as ->. done.
Qed.

(** ** The loops of [camel_case_str] *)

Definition all_space (w : list Z) : Prop := forall c, c ∈ w -> isspace c = true.

Lemma first_space s : nonspace s \/ exists v sp t, s = v ++ sp :: t /\ nonspace v /\ isspace sp = true.
Proof.
  induction s as [|c s IH]; [by left; intros ? ?%not_elem_of_nil|]. destruct (isspace c) eqn:Ec.
  - right. exists [], c, s. split; [done|]. split; [by intros ? ?%not_elem_of_nil|done].
  - destruct IH as [Hs|(v & sp & t & -> & Hv & Hsp)].
    + left. intros x [->|Hx]%elem_of_cons; [done|by apply Hs].
    + right. exists (c :: v), sp, t. split; [done|]. split; [|done]. intros x [->|Hx]%elem_of_cons; [done|by apply Hv].
Qed.

Lemma leading_space s : all_space s \/ exists u c t, s = u ++ c :: t /\ all_space u /\ isspace c = false.
Proof.
  induction s as [|c s IH]; [by left; intros ? ?%not_elem_of_nil|]. destruct (isspace c) eqn:Ec.
  - destruct IH as [Hs|(u & d & t & -> & Hu & Hd)].
    + left. intros x [->|Hx]%elem_of_cons; [done|by apply Hs].
    + right. exists (c :: u), d, t. split; [done|]. split; [|done]. intros x [->|Hx]%elem_of_cons; [done|by apply Hu].
  - right. exists [], c, s. split; [done|]. split; [by intros ? ?%not_elem_of_nil|done].
Qed.

Lemma camel_case_at_ok pre w junk :
  0 ∉ w -> camel_case_at (pre ++ w ++ 0 :: junk) (length pre) = Done (pre ++ case_word false (length pre =? 0)%nat w ++ 0 :: junk).
Proof.
  intros Hw. unfold camel_case_at. rewrite drop_app_length, camel_case_word_ok by done. cbn [obind].
  by rewrite take_app_length.
Qed.

(** The scan of a word that a blank ends. *)
Lemma scan_word_space pre u v sp t str_len k :
  nonspace v -> isspace sp = true -> 0 ∉ u ++ v -> (length pre + length u + length v < str_len)%nat ->
  camel_scan (length v + S k) (pre ++ u ++ v ++ sp :: t) str_len (length pre) (length pre + length u) true
  = Done (pre ++ case_word false (length pre =? 0)%nat (u ++ v) ++ 32 :: t, (length pre + length u + length v)%nat, true).
Proof.
  revert u. induction v as [|c v IH]; intros u Hv Hsp Hz Hl; cbn [length Nat.add camel_scan].
  - cbn [app]. assert (Hlook : (pre ++ u ++ sp :: t) !! (length pre + length u)%nat = Some sp).
    { rewrite app_assoc. apply list_lookup_middle. by rewrite length_app. }
    rewrite Hlook. cbn [deref obind]. rewrite Hsp. cbn [negb andb].
    assert (Hins : forall x y, <[(length pre + length u)%nat := x]> (pre ++ u ++ y :: t) = pre ++ u ++ x :: t).
    { intros x y. rewrite !(app_assoc pre). rewrite <- (Nat.add_0_r (_ + _)), <- length_app. by rewrite insert_app_r. }
    rewrite Hins. rewrite app_nil_r in *. rewrite camel_case_at_ok by done. cbn [obind]. rewrite Nat.add_0_r.
    rewrite <- (case_word_length false (length pre =? 0)%nat u) at 1. do 3 f_equal.
    rewrite !(app_assoc pre). rewrite <- (Nat.add_0_r (_ + _)), <- length_app. by rewrite insert_app_r.
  - assert (Hlook : (pre ++ u ++ (c :: v) ++ sp :: t) !! (length pre + length u)%nat = Some c).
    { rewrite app_assoc. apply list_lookup_middle. by rewrite length_app. }
    rewrite Hlook. cbn [deref obind]. rewrite (Hv c) by (by left). cbn [negb andb].
    cbn [length] in Hl. rewrite (proj2 (Nat.eqb_neq _ _)) by lia.
    replace (pre ++ u ++ (c :: v) ++ sp :: t) with (pre ++ (u ++ [c]) ++ v ++ sp :: t) by (by rewrite <- app_assoc).
    replace (S (length pre + length u)) with (length pre + length (u ++ [c]))%nat by (rewrite length_app; cbn; lia).
    rewrite IH.
    + rewrite <- app_assoc. cbn [app]. do 2 f_equal. f_equal. rewrite length_app. cbn. lia.
    + intros x Hx. apply Hv. by right.
    + done.
    + by rewrite <- app_assoc.
    + rewrite length_app. cbn. lia.
Qed.

(** The scan of the last word. *)
Lemma scan_word_end pre u v junk :
  nonspace v -> v <> [] -> 0 ∉ u ++ v ->
  camel_scan (length v) (pre ++ u ++ v ++ 0 :: junk) (length pre + length u + length v) (length pre) (length pre + length u) true
  = Done (pre ++ case_word false (length pre =? 0)%nat (u ++ v) ++ 0 :: junk, (length pre + length u + length v - 1)%nat, true).
Proof.
  revert u. induction v as [|c v IH]; intros u Hv Hne Hz; [done|]. cbn [length camel_scan].
  assert (Hlook : (pre ++ u ++ (c :: v) ++ 0 :: junk) !! (length pre + length u)%nat = Some c).
  { rewrite app_assoc. apply list_lookup_middle. by rewrite length_app. }
  rewrite Hlook. cbn [deref obind]. rewrite (Hv c) by (by left). cbn [negb andb]. destruct v as [|d v].
  - cbn [length]. rewrite (proj2 (Nat.eqb_eq _ _)) by lia.
    replace (pre ++ u ++ [c] ++ 0 :: junk) with (pre ++ (u ++ [c]) ++ 0 :: junk) by (by rewrite <- app_assoc).
    rewrite camel_case_at_ok by done. cbn [obind]. do 2 f_equal. f_equal. lia.
  - rewrite (proj2 (Nat.eqb_neq _ _)) by (cbn; lia).
    replace (pre ++ u ++ (c :: d :: v) ++ 0 :: junk) with (pre ++ (u ++ [c]) ++ (d :: v) ++ 0 :: junk) by (by rewrite <- app_assoc).
    replace (S (length pre + length u)) with (length pre + length (u ++ [c]))%nat by (rewrite length_app; cbn; lia).
    replace (length pre + length u + S (length (d :: v)))%nat with (length pre + length (u ++ [c]) + length (d :: v))%nat
      by (rewrite length_app; cbn; lia).
    rewrite IH.
    + by rewrite <- app_assoc.
    + intros x Hx. apply Hv. by right.
    + done.
    + by rewrite <- app_assoc.
Qed.

(** The outer loop after the first word. *)
Lemma camel_loop_rest fuel pre s junk :
  pre <> [] -> 0 ∉ s -> (length s < fuel)%nat ->
  camel_case_loop fuel (pre ++ s ++ 0 :: junk) (length pre + length s) (length pre) true = Done (pre ++ case_rest false s ++ 0 :: junk).
Proof.
  revert pre s. induction fuel as [|fuel IH]; intros pre s Hpre Hz Hf; [lia|]. cbn [camel_case_loop].
  assert (Hp0 : (length pre =? 0)%nat = false) by (destruct pre; done).
  assert (Hstop : forall str n i b, (n <= i)%nat -> (0 < fuel)%nat -> camel_case_loop fuel str n i b = Done str).
  { intros str n i b Hni Hf0. destruct fuel; [lia|]. cbn [camel_case_loop]. by rewrite (proj2 (Nat.ltb_ge _ _)). }
  destruct (decide (s = [])) as [->|Hs]; [rewrite (proj2 (Nat.ltb_ge _ _)) by (cbn; lia); done|].
  assert (0 < length s)%nat by (destruct s; [done|cbn; lia]).
  rewrite (proj2 (Nat.ltb_lt _ _)) by lia. replace (length pre + length s - length pre)%nat with (length s) by lia.
  destruct (first_space s) as [Hn|(v & sp & t & -> & Hv & Hsp)].
  - pose proof (scan_word_end pre [] s junk Hn Hs Hz) as Hscan. cbn [app length] in Hscan. rewrite !Nat.add_0_r in Hscan.
    rewrite Hscan. cbn [obind]. rewrite Hstop by lia. by rewrite Hp0, case_rest_word.
  - pose proof (scan_word_space pre [] v sp (t ++ 0 :: junk) (length pre + length (v ++ sp :: t)) (length t)) as Hscan.
    cbn [app length] in Hscan. rewrite !Nat.add_0_r in Hscan. rewrite <- app_assoc. cbn [app].
    rewrite length_app at 1. cbn [length]. rewrite Hscan; try done.
    2:{ intros Hin. apply Hz. apply elem_of_app. by left. }
    2:{ rewrite length_app. cbn. lia. }
    cbn [obind]. rewrite Hp0.
    replace (pre ++ case_word false false v ++ 32 :: t ++ 0 :: junk) with ((pre ++ case_word false false v ++ [32]) ++ t ++ 0 :: junk)
      by (by rewrite <- !app_assoc).
    replace (S (length pre + length v)) with (length (pre ++ case_word false false v ++ [32]))
      by (rewrite !length_app, case_word_length; cbn; lia).
    replace (length pre + length (v ++ sp :: t))%nat with (length (pre ++ case_word false false v ++ [32%Z]) + length t)%nat
      by (rewrite !length_app, case_word_length; cbn; lia).
    rewrite IH.
    + rewrite case_rest_app by done. cbn [case_rest]. rewrite Hsp. by rewrite <- !app_assoc.
    + destruct pre; done.
    + intros Hin. apply Hz. apply elem_of_app. right. by right.
    + rewrite length_app in Hf. cbn in Hf. lia.
Qed.

(** The scan of leading blanks. *)
Lemma scan_blank u sps t str_len k :
  all_space sps -> (length u + length sps < str_len)%nat ->
  camel_scan (length sps + k) (u ++ sps ++ t) str_len 0 (length u) false
  = camel_scan k (u ++ sps ++ t) str_len 0 (length u + length sps) false.
Proof.
  revert u. induction sps as [|c sps IH]; intros u Hs Hl; [by rewrite Nat.add_0_r|]. cbn [length Nat.add camel_scan].
  assert (Hlook : (u ++ (c :: sps) ++ t) !! length u = Some c) by (by apply list_lookup_middle).
  rewrite Hlook. cbn [deref obind]. rewrite (Hs c) by (by left). cbn [negb andb].
  cbn [length] in Hl. rewrite (proj2 (Nat.eqb_neq _ _)) by lia.
  replace (u ++ (c :: sps) ++ t) with ((u ++ [c]) ++ sps ++ t) by (by rewrite <- app_assoc).
  replace (S (length u)) with (length (u ++ [c])) by (rewrite length_app; cbn; lia).
  rewrite IH; [|intros x Hx; apply Hs; by right|rewrite length_app; cbn; lia].
  f_equal. rewrite length_app. cbn. lia.
Qed.

Lemma case_word_space u fw : all_space u -> case_word false fw u = u /\ existsb isalpha u = false.
Proof.
  induction u as [|c u IH]; intros Hu; [done|]. cbn. rewrite isspace_not_alpha by (apply Hu; by left).
  destruct IH as [-> ->]; [intros x Hx; apply Hu; by right|]. done.
Qed.

Lemma keep_space u : all_space u -> keep u = [].
Proof.
  induction u as [|c u IH]; intros Hu; [done|]. rewrite keep_cons_true by (apply Hu; by left). apply IH.
  intros x Hx. apply Hu. by right.
Qed.

Lemma words_space u s : all_space u -> words (u ++ s) [] = words s [].
Proof.
  induction u as [|c u IH]; intros Hu; [done|]. cbn. rewrite (Hu c) by (by left). apply IH. intros x Hx. apply Hu. by right.
Qed.

Lemma words_word w s cur : nonspace w -> words (w ++ s) cur = words s (cur ++ w).
Proof.
  revert cur. induction w as [|c w IH]; intros cur Hw; cbn; [by rewrite app_nil_r|].
  rewrite (Hw c) by (by left). rewrite IH by (intros x Hx; apply Hw; by right). by rewrite <- app_assoc.
Qed.

Lemma case_char_nonzero c seen fw :
  c <> 0 -> (if isalpha c then if seen : bool then tolower c else if fw : bool then tolower c else toupper c else c) <> 0.
Proof. unfold isalpha, tolower, toupper, isupper, islower. intros Hc. destruct seen, fw; repeat case_bool; lia. Qed.

Lemma case_word_nonzero seen fw w : 0 ∉ w -> 0 ∉ case_word seen fw w.
Proof.
  revert seen. induction w as [|c w IH]; intros seen Hw; [done|]. apply not_elem_of_cons in Hw as [Hc Hw]. cbn [case_word].
  apply not_elem_of_cons. split; [|by apply IH]. intros Heq. symmetry in Heq. revert Heq. by apply case_char_nonzero.
Qed.

Lemma case_rest_nonzero seen s : 0 ∉ s -> 0 ∉ case_rest seen s.
Proof.
  revert seen. induction s as [|c s IH]; intros seen Hs; [done|]. apply not_elem_of_cons in Hs as [Hc Hs]. cbn [case_rest].
  destruct (isspace c); apply not_elem_of_cons; (split; [|by apply IH]); [done|].
  intros Heq. symmetry in Heq. revert Heq. by apply (case_char_nonzero c seen false).
Qed.

(** A sentence that is blanks and one last character. *)
Definition lone (s : list Z) : Prop := exists u c, s = u ++ [c] /\ all_space u /\ isspace c = false.

Lemma strlen_ok s junk : 0 ∉ s -> strlen (s ++ 0 :: junk) = Done (length s).
Proof.
  induction s as [|c s IH]; intros Hs; [done|]. apply not_elem_of_cons in Hs as [Hc Hs]. cbn [app strlen].
  rewrite (proj2 (Z.eqb_neq _ _)) by done. by rewrite IH.
Qed.

Lemma camel_loop_stop fuel str n i b : (n <= i)%nat -> camel_case_loop (S fuel) str n i b = Done str.
Proof. intros H. cbn [camel_case_loop]. by rewrite (proj2 (Nat.ltb_ge _ _)). Qed.

Lemma keep_first u w : all_space u -> nonspace w -> keep (case_word false true (u ++ w)) = case_word false true w.
Proof.
  intros Hu Hw. destruct (case_word_space u true Hu) as [Heq Hex]. rewrite case_word_app, Heq, Hex. cbn [orb].
  rewrite keep_app, keep_space by done. by apply keep_case_word.
Qed.

Lemma camel_loop_step fuel str n i b :
  (i < n)%nat -> camel_case_loop (S fuel) str n i b
  = let! (str, j, b) := camel_scan (n - i) str n i i b in camel_case_loop fuel str n (S j) b.
Proof. intros H. cbn [camel_case_loop]. by rewrite (proj2 (Nat.ltb_lt _ _)). Qed.

(** A sentence of blanks. *)
Lemma camel_str_blank s junk : all_space s -> 0 ∉ s -> camel_case_str (s ++ 0 :: junk) = Done (s ++ 0 :: junk).
Proof.
  intros Hs Hz. unfold camel_case_str. rewrite strlen_ok by done. cbn [obind].
  destruct s as [|c s _] using rev_ind; [done|].
  assert (Hc : isspace c = true) by (apply Hs; set_solver).
  replace (length (s ++ [c])) with (S (length s)) by (rewrite length_app; cbn; lia).
  rewrite camel_loop_step, Nat.sub_0_r by lia.
  pose proof (scan_blank [] s ([c] ++ 0 :: junk) (S (length s)) 1) as Hb. cbn [app length] in Hb.
  rewrite Nat.add_1_r, Nat.add_0_l in Hb.
  replace ((s ++ [c]) ++ 0 :: junk) with (s ++ c :: 0 :: junk) by (by rewrite <- app_assoc).
  rewrite Hb; [|intros x Hx; apply Hs; set_solver|lia]. cbn [camel_scan].
  rewrite list_lookup_middle by done. cbn [deref obind]. rewrite Hc. cbn [negb andb].
  rewrite (proj2 (Nat.eqb_eq _ _)) by lia.
  pose proof (camel_case_at_ok [] (s ++ [c]) junk Hz) as Hat. rewrite <- app_assoc in Hat. cbn [app length] in Hat.
  rewrite Hat. cbn [obind]. rewrite camel_loop_stop by lia. rewrite (proj1 (case_word_space _ _ Hs)). by rewrite <- app_assoc.
Qed.

(** The first nonblank character: the scan goes on behind it. *)
Lemma camel_str_first u c t junk :
  all_space u -> isspace c = false -> 0 ∉ u ++ c :: t ->
  camel_case_str (u ++ c :: t ++ 0 :: junk)
  = let! (str, j, b) := camel_scan (length t) (u ++ c :: t ++ 0 :: junk) (length (u ++ c :: t)) 0 (S (length u)) true in
    camel_case_loop (length (u ++ c :: t)) str (length (u ++ c :: t)) (S j) b.
Proof.
  intros Hu Hc Hz. unfold camel_case_str.
  replace (u ++ c :: t ++ 0 :: junk) with ((u ++ c :: t) ++ 0 :: junk) by (by rewrite <- app_assoc).
  rewrite strlen_ok by done. cbn [obind]. rewrite <- app_assoc. cbn [app].
  assert (Hlen : length (u ++ c :: t) = (length u + S (length t))%nat) by (rewrite length_app; done).
  rewrite camel_loop_step by lia. rewrite Nat.sub_0_r, Hlen.
  pose proof (scan_blank [] u (c :: t ++ 0 :: junk) (length u + S (length t)) (S (length t)) Hu) as Hb. cbn [app length] in Hb.
  rewrite Hb by lia. cbn [camel_scan Nat.add]. rewrite list_lookup_middle by done. cbn [deref obind]. by rewrite Hc.
Qed.

(** One word, of at least two characters. *)
Lemma camel_str_word u c v junk :
  all_space u -> isspace c = false -> nonspace v -> v <> [] -> 0 ∉ u ++ c :: v ->
  camel_case_str (u ++ c :: v ++ 0 :: junk) = Done (case_word false true (u ++ c :: v) ++ 0 :: junk).
Proof.
  intros Hu Hc Hv Hne Hz. rewrite camel_str_first by done.
  pose proof (scan_word_end [] (u ++ [c]) v junk Hv Hne) as Hs. rewrite <- !app_assoc in Hs. cbn [app length] in Hs.
  replace (0 + length (u ++ [c]))%nat with (S (length u)) in Hs by (rewrite length_app; cbn; lia).
  replace (S (length u) + length v)%nat with (length (u ++ c :: v)) in Hs by (rewrite length_app; cbn; lia).
  rewrite Hs by done. cbn [obind]. assert (Hpos : (0 < length (u ++ c :: v))%nat) by (rewrite length_app; cbn; lia).
  destruct (length (u ++ c :: v)) as [|k] eqn:E; [lia|]. by rewrite camel_loop_stop by lia.
Qed.

(** A first word and more. *)
Lemma camel_str_words u c v sp t junk :
  all_space u -> isspace c = false -> nonspace v -> isspace sp = true -> 0 ∉ u ++ c :: v ++ sp :: t ->
  camel_case_str (u ++ c :: (v ++ sp :: t) ++ 0 :: junk)
  = Done ((case_word false true (u ++ c :: v) ++ 32 :: case_rest false t) ++ 0 :: junk).
Proof.
  intros Hu Hc Hv Hsp Hz. rewrite camel_str_first by done. set (n := length (u ++ c :: v ++ sp :: t)).
  assert (Hn : n = (S (length u) + length v + S (length t))%nat) by (unfold n; rewrite length_app; cbn; rewrite length_app; cbn; lia).
  pose proof (scan_word_space [] (u ++ [c]) v sp (t ++ 0 :: junk) n (length t) Hv Hsp) as Hs.
  rewrite <- !app_assoc in Hs. cbn [app length] in Hs.
  replace (0 + length (u ++ [c]))%nat with (S (length u)) in Hs by (rewrite length_app; cbn; lia).
  rewrite <- app_assoc. cbn [app]. replace (length (v ++ sp :: t)) with (length v + S (length t))%nat by (rewrite length_app; done).
  rewrite Hs; [|set_solver|lia]. cbn [obind Nat.eqb].
  pose proof (camel_loop_rest n (case_word false true (u ++ c :: v) ++ [32]) t junk) as Hr.
  rewrite <- app_assoc in Hr. cbn [app] in Hr.
  replace (length (case_word false true (u ++ c :: v) ++ [32])) with (S (S (length u) + length v)) in Hr
    by (rewrite length_app, case_word_length, length_app; cbn; lia).
  replace (S (S (length u) + length v) + length t)%nat with n in Hr by lia. rewrite Hr.
  - by rewrite <- !app_assoc.
  - intros Hnil. by apply app_nil in Hnil as [_ ?].
  - set_solver.
  - lia.
Qed.

Lemma not_lone u c t : isspace c = false -> t <> [] -> ~ lone (u ++ c :: t).
Proof.
  intros Hc Ht (u' & c' & Heq & Hu' & _). destruct t as [|z t _] using rev_ind; [done|].
  rewrite app_comm_cons, app_assoc in Heq. apply app_inj_tail in Heq as [<- _].
  rewrite (Hu' c) in Hc by set_solver. done.
Qed.

Lemma blank_not_lone s : all_space s -> ~ lone s.
Proof. intros Hs (u & c & -> & _ & Hc). rewrite (Hs c) in Hc by set_solver. done. Qed.

(** What [camel_case_str] leaves in the string: once the blanks are removed, the
    camel-cased sentence, unless the sentence is one lone last character. *)
Lemma camel_case_str_ok s junk :
  0 ∉ s -> exists s', camel_case_str (s ++ 0 :: junk) = Done (s' ++ 0 :: junk) /\ (0 ∉ s')
    /\ (~ lone s -> keep s' = camel s) /\ (lone s -> s' = s).
Proof.
  intros Hz. destruct (leading_space s) as [Hs|(u & c & t & -> & Hu & Hc)].
  { exists s. rewrite camel_str_blank by done. split; [done|]. split; [done|].
    split; [|intros Hl; by apply (blank_not_lone s) in Hl].
    intros _. rewrite keep_space by done. unfold camel. by rewrite <- (app_nil_r s), words_space. }
  rewrite <- app_assoc. cbn [app]. destruct (decide (t = [])) as [->|Ht].
  { exists (u ++ [c]). split; [|split; [done|split; [|done]]].
    - pose proof (camel_str_first u c [] junk Hu Hc Hz) as Hf. cbn [app camel_scan length obind] in Hf. cbn [app]. rewrite Hf.
      destruct (length (u ++ [c])) as [|k] eqn:E; [rewrite length_app in E; cbn in E; lia|].
      rewrite camel_loop_stop by (rewrite length_app in E; cbn in E; lia). by rewrite <- app_assoc.
    - intros Hl. exfalso. apply Hl. by exists u, c. }
  pose proof (not_lone u c t Hc Ht) as Hnl.
  assert (Hcv : forall v, nonspace v -> nonspace (c :: v)) by (intros v Hv x [->|Hx]%elem_of_cons; [done|by apply Hv]).
  destruct (first_space t) as [Hv|(v & sp & t' & -> & Hv & Hsp)].
  - exists (case_word false true (u ++ c :: t)). rewrite camel_str_word by done. split; [done|].
    split; [by apply case_word_nonzero|]. split; [|done]. intros _. rewrite keep_first by auto.
    unfold camel. rewrite words_space by done. rewrite <- (app_nil_r (c :: t)) at 2. rewrite words_word by auto. cbn [app words].
    destruct (decide (c :: t = [])); [done|]. by rewrite app_nil_r.
  - eexists. rewrite camel_str_words by done. split; [done|].
    split.
    { intros [Hin|[?|Hin]%elem_of_cons]%elem_of_app; [|done|].
      - revert Hin. apply case_word_nonzero. set_solver.
      - revert Hin. apply case_rest_nonzero. set_solver. }
    split; [|done]. intros _. rewrite keep_app, keep_first, keep_cons_true by auto.
    unfold camel. rewrite words_space by done. rewrite app_comm_cons, words_word by auto. cbn [app words].
    rewrite Hsp. destruct (decide (c :: v = [])); [done|].
    f_equal. rewrite (keep_case_rest t' []) by (by intros ? ?%not_elem_of_nil). done.
Qed.

(** *** Writing into an object *)

Lemma set_string_id p bs h : strings h !! p = Some bs -> set_string p bs h = h.
Proof. intros Hp. unfold set_string. rewrite insert_id by done. by destruct h. Qed.

Lemma set_string_twice p a b h : set_string p b (set_string p a h) = set_string p b h.
Proof. unfold set_string. cbn. by rewrite insert_insert_eq. Qed.

Lemma set_string_lookup p bs h : strings (set_string p bs h) !! p = Some bs.
Proof. apply lookup_insert_eq. Qed.

Lemma set_string_other p q bs h : p <> q -> strings (set_string p bs h) !! q = strings h !! q.
Proof. intros Hpq. by apply lookup_insert_ne. Qed.

Lemma char_at_ok p a c b h : strings h !! p = Some (a ++ c :: b) -> char_at p (length a) h = Done c.
Proof. intros Hp. unfold char_at. rewrite Hp. cbn [deref obind]. by rewrite list_lookup_middle. Qed.

Lemma set_char_ok p a c b h x : strings h !! p = Some (a ++ c :: b) -> set_char p (length a) x h = Done (set_string p (a ++ x :: b) h).
Proof.
  intros Hp. unfold set_char. rewrite Hp. cbn [deref obind]. destruct (Nat.ltb_spec (length a) (length (a ++ c :: b))) as [|Hlt].
  - by rewrite insert_app_r_alt, Nat.sub_diag by lia.
  - rewrite length_app in Hlt. cbn in Hlt. lia.
Qed.

(** The loop copies what is no blank into the new string, which has room for it. *)
Lemma remove_loop_ok str new rest : forall pre tl kept room h,
  str <> new -> strings h !! str = Some (pre ++ rest ++ tl) -> strings h !! new = Some (kept ++ room) -> (length rest < length room)%nat ->
  exists c room', remove_loop (length rest) str new (length pre) (length kept) h
    = Done (length (kept ++ keep rest), set_string new ((kept ++ keep rest) ++ c :: room') h).
Proof.
  induction rest as [|x rest IH]; intros pre tl kept room h Hne Hs Hn Hr.
  - destruct room as [|c room]; [cbn in Hr; lia|]. exists c, room. cbn [length remove_loop]. change (keep []) with (@nil Z). rewrite app_nil_r. by rewrite set_string_id.
  - destruct room as [|c room]; [cbn in Hr; lia|]. cbn [length remove_loop app] in *. rewrite (char_at_ok str pre x (rest ++ tl)) by done. cbn [obind].
    assert (Hpre : forall h, strings h !! str = Some (pre ++ x :: rest ++ tl) -> strings h !! str = Some ((pre ++ [x]) ++ rest ++ tl)) by (intros h' ->; by rewrite <- app_assoc).
    replace (S (length pre)) with (length (pre ++ [x])) by (rewrite length_app; cbn; lia).
    destruct (isspace x) eqn:E; cbn [negb].
    + rewrite keep_cons_true by done. by apply (IH (pre ++ [x]) tl kept (c :: room)); [|apply Hpre| |cbn; lia].
    + rewrite (set_char_ok new kept c room h x) by done. cbn [obind]. rewrite keep_cons_false by done.
      replace (S (length kept)) with (length (kept ++ [x])) by (rewrite length_app; cbn; lia).
      destruct (IH (pre ++ [x]) tl (kept ++ [x]) room (set_string new (kept ++ x :: room) h)) as (d & room' & ->); [done| | |lia|].
      * apply Hpre. by rewrite set_string_other.
      * rewrite set_string_lookup. by rewrite <- app_assoc.
      * exists d, room'. by rewrite set_string_twice, <- !app_assoc.
Qed.

Lemma strncpy_ok dst src a : forall pre old tl room h,
  dst <> src -> 0 ∉ a -> length old = length a -> strings h !! dst = Some (pre ++ old ++ tl) -> strings h !! src = Some (pre ++ a ++ room) ->
  strncpy (length a) dst src (length pre) false h = Done (set_string dst (pre ++ a ++ tl) h).
Proof.
  induction a as [|x a IH]; intros pre old tl room h Hne Hz Hl Hd Hs.
  - destruct old; [|done]. cbn. by rewrite set_string_id.
  - destruct old as [|y old]; [done|]. cbn [length strncpy app] in *. apply not_elem_of_cons in Hz as [Hx Hz].
    rewrite (char_at_ok src pre x (a ++ room)) by done. cbn [obind]. rewrite (set_char_ok dst pre y (old ++ tl)) by done. cbn [obind].
    rewrite (proj2 (Z.eqb_neq x 0)) by done. cbn [orb]. replace (S (length pre)) with (length (pre ++ [x])) by (rewrite length_app; cbn; lia).
    rewrite (IH (pre ++ [x]) old tl room); [|done|done|lia| |].
    + by rewrite set_string_twice, <- app_assoc.
    + rewrite set_string_lookup. by rewrite <- app_assoc.
    + rewrite set_string_other by done. by rewrite <- app_assoc.
Qed.

(** The blanks are gone, the new string has been given back, nothing else changed. *)
Lemma remove_whitespaces_ok p s junk h :
  0 ∉ s -> strings h !! p = Some (s ++ 0 :: junk) -> strings h !! next_ptr h = None ->
  exists junk', remove_whitespaces_str p h = Done (Heap (next_ptr h + 1) (<[p := keep s ++ 0 :: junk']> (strings h)) (tables h)).
Proof.
  intros Hz Hp Hfresh. unfold remove_whitespaces_str. rewrite Hp. cbn [deref obind]. rewrite strlen_ok by done. cbn [obind new_string].
  set (q := next_ptr h). assert (Hne : p <> q) by (intros ->; unfold q in Hp; congruence).
  set (h1 := Heap _ _ _). assert (Hp1 : strings h1 !! p = Some (s ++ 0 :: junk)) by (unfold h1; cbn; by rewrite lookup_insert_ne).
  destruct (remove_loop_ok p q s [] (0 :: junk) [] (replicate (length s + 1) INDETERMINATE) h1) as (c & room & Hrun); [done|done| | |].
  { unfold h1. cbn. by rewrite lookup_insert_eq. }
  { rewrite length_replicate. lia. }
  cbn [app length] in Hrun. rewrite Hrun. cbn [obind].
  rewrite (set_char_ok q (keep s) c room) by apply set_string_lookup. cbn [obind]. rewrite set_string_twice.
  set (h2 := set_string q _ h1). assert (Hp2 : strings h2 !! p = Some (s ++ 0 :: junk)) by (unfold h2; by rewrite set_string_other).
  assert (Hle : (length (keep s) <= length s)%nat) by apply length_filter.
  assert (Hd : exists d tl, s ++ 0 :: junk = take (length (keep s)) s ++ d :: tl).
  { destruct (drop (length (keep s)) s) as [|d tl] eqn:E.
    - exists 0, junk. rewrite <- (take_drop (length (keep s)) s) at 1. by rewrite E, app_nil_r.
    - exists d, (tl ++ 0 :: junk). rewrite <- (take_drop (length (keep s)) s) at 1. by rewrite E, <- app_assoc. }
  destruct Hd as (d & tl & Hd). rewrite Hd in Hp2.
  pose proof (strncpy_ok p q (keep s) [] (take (length (keep s)) s) (d :: tl) (0 :: room) h2) as Hcpy.
  cbn [length] in Hcpy. rewrite Hcpy; [|done|by intros [_ ?]%list_elem_of_filter|rewrite length_take; lia|done|apply set_string_lookup].
  cbn [obind app]. rewrite (set_char_ok p (keep s) d tl) by apply set_string_lookup. cbn [obind]. rewrite set_string_twice.
  unfold free_string. rewrite set_string_other by done. unfold h2 at 1. rewrite set_string_lookup. cbn [deref obind].
  exists tl. f_equal. unfold h2, h1, set_string. cbn. f_equal. rewrite delete_insert_ne by done. f_equal.
  by rewrite insert_insert_eq, delete_insert_id.
Qed.

(** The string a sentence ends up as. *)
Definition result_of (s : list Z) (buf : list Z) : Prop :=
  exists s' junk, buf = s' ++ 0 :: junk /\ (~ lone s -> s' = camel s) /\ (lone s -> s' = keep s).

Lemma process_ok p s junk h :
  0 ∉ s -> p <> next_ptr h -> strings h !! next_ptr h = None ->
  exists buf, (let! str := camel_case_str (s ++ 0 :: junk) in remove_whitespaces_str p (set_string p str h))
      = Done (Heap (next_ptr h + 1) (<[p := buf]> (strings h)) (tables h)) /\ result_of s buf.
Proof.
  intros Hz Hp Hfresh. destruct (camel_case_str_ok s junk Hz) as (s' & -> & Hz' & Hnl & Hl). cbn [obind].
  destruct (remove_whitespaces_ok p s' junk (set_string p (s' ++ 0 :: junk) h) Hz') as (junk' & ->).
  { apply set_string_lookup. }
  { cbn [next_ptr set_string]. by rewrite set_string_other. }
  exists (keep s' ++ 0 :: junk'). split; [by cbn; rewrite insert_insert_eq|].
  exists (keep s'), junk'. split; [done|]. split; [done|]. intros H. by rewrite (Hl H).
Qed.

(** ** The table *)

Record heap_ok (h : heap) : Prop := {
  ok_next : 0 < next_ptr h;
  ok_strings : forall p, is_Some (strings h !! p) -> 0 < p < next_ptr h;
  ok_tables : forall p, is_Some (tables h !! p) -> 0 < p < next_ptr h;
}.

Definition objects : Type := list (Z * list Z).

(** [h] is [h0] with the new strings [objs] and the table [t] of [entries]. *)
Record built (h0 h : heap) (t : Z) (objs : objects) (entries : list Z) : Prop := {
  b_strings : strings h = list_to_map objs ∪ strings h0;
  b_tables : (t = 0 /\ entries = [] /\ tables h = tables h0)
    \/ (t <> 0 /\ tables h0 !! t = None /\ tables h = <[t := entries]> (tables h0));
  b_nodup : NoDup objs.*1;
  b_range : Forall (fun p => next_ptr h0 <= p < next_ptr h) objs.*1;
  b_next : next_ptr h0 <= next_ptr h;
}.

Lemma fresh_none {A} (m : gmap Z A) n p : (forall q, is_Some (m !! q) -> 0 < q < n) -> p = 0 \/ n <= p -> m !! p = None.
Proof. intros Hm Hp. destruct (m !! p) eqn:E; [|done]. assert (0 < p < n) by (apply Hm; by eexists). lia. Qed.

Lemma new_string_ok h0 h t objs entries bs p h' :
  built h0 h t objs entries -> new_string bs h = (p, h') -> built h0 h' t (objs ++ [(p, bs)]) entries /\ p = next_ptr h.
Proof.
  intros [Hs Ht Hnd Hr Hn] [= <- <-]. split; [|done].
  assert (Hf : next_ptr h ∉ objs.*1) by (intros Hin; rewrite Forall_forall in Hr; specialize (Hr _ Hin); lia).
  split; cbn; try done; try lia.
  - by rewrite Hs, list_to_map_snoc, insert_union_l by done.
  - rewrite fmap_app. apply NoDup_app. split; [done|]. split; [|apply NoDup_singleton].
    intros x Hx Hx'. apply list_elem_of_singleton in Hx' as ->. done.
  - rewrite fmap_app. apply Forall_app. split; [|constructor; [cbn; lia|constructor]].
    eapply Forall_impl; [exact Hr|]. cbn. lia.
Qed.

Lemma table_append_ok h0 h t objs entries x :
  heap_ok h0 -> built h0 h t objs entries ->
  exists t' h', table_append t x h = Done (t', h') /\ built h0 h' t' objs (entries ++ [x]).
Proof.
  intros Hok [Hs Ht Hnd Hr Hn]. unfold table_append.
  assert (Hnew : forall m, m = tables h0 -> built h0 (Heap (next_ptr h + 1) (strings h) (<[next_ptr h := entries ++ [x]]> m)) (next_ptr h) objs (entries ++ [x])).
  { intros m ->. split; cbn; try done; [|eapply Forall_impl; [exact Hr|cbn; lia]|lia]. right.
    pose proof (ok_next _ Hok). split; [lia|]. split; [|done].
    eapply fresh_none; [apply Hok|lia]. }
  destruct Ht as [(-> & -> & Ht)|(Ht0 & Hnone & Ht)].
  - cbn. rewrite Ht, delete_id; [by eauto|]. eapply fresh_none; [apply Hok|by left].
  - rewrite (proj2 (Z.eqb_neq _ _)) by done. rewrite Ht, lookup_insert_eq. cbn [deref obind].
    rewrite delete_insert_id by done. by eauto.
Qed.

Definition nonpunct (w : list Z) : Prop := forall c, c ∈ w -> ispunct c = false.

Lemma first_punct s : nonpunct s \/ exists w p t, s = w ++ p :: t /\ nonpunct w /\ ispunct p = true.
Proof.
  induction s as [|c s IH]; [by left; intros ? ?%not_elem_of_nil|]. destruct (ispunct c) eqn:Ec.
  - right. exists [], c, s. split; [done|]. split; [by intros ? ?%not_elem_of_nil|done].
  - destruct IH as [Hs|(v & sp & t & -> & Hv & Hsp)].
    + left. intros x [->|Hx]%elem_of_cons; [done|by apply Hs].
    + right. exists (c :: v), sp, t. split; [done|]. split; [|done]. intros x [->|Hx]%elem_of_cons; [done|by apply Hv].
Qed.

Lemma find_punct_skip pre w r k :
  nonpunct w -> find_punct (length w + k) (pre ++ w ++ r) (length pre) = find_punct k (pre ++ w ++ r) (length pre + length w).
Proof.
  revert pre. induction w as [|c w IH]; intros pre Hw; [by rewrite Nat.add_0_r|]. cbn [length Nat.add find_punct].
  cbn [app]. rewrite list_lookup_middle, (Hw c) by (done || by left).
  replace (pre ++ c :: w ++ r) with ((pre ++ [c]) ++ w ++ r) by (by rewrite <- app_assoc).
  replace (S (length pre)) with (length (pre ++ [c])) by (rewrite length_app; cbn; lia).
  rewrite IH by (intros x Hx; apply Hw; by right). f_equal. rewrite length_app. cbn. lia.
Qed.

Lemma sentences_skip w s cur : nonpunct w -> sentences (w ++ s) cur = sentences s (cur ++ w).
Proof.
  revert cur. induction w as [|c w IH]; intros cur Hw; cbn; [by rewrite app_nil_r|].
  rewrite (Hw c) by (by left). rewrite IH by (intros x Hx; apply Hw; by right). by rewrite <- app_assoc.
Qed.

Lemma split_sentences_ok fuel pre s junk h0 h t objs :
  heap_ok h0 -> built h0 h t objs objs.*1 -> (length s + 1 < fuel)%nat ->
  exists t' h' objs', split_loop fuel (pre ++ s ++ 0 :: junk) (length pre + length s) (length pre) t h = Done (t', h')
    /\ built h0 h' t' (objs ++ objs') (objs ++ objs').*1 /\ objs'.*2 = (fun w => w ++ [0]) <$> sentences s [].
Proof.
  intros Hok. revert pre s h t objs. induction fuel as [|fuel IH]; intros pre s h t objs Hb Hf; [lia|]. cbn [split_loop].
  destruct (Nat.ltb_spec (length pre) (length pre + length s)) as [Hlt|Hge].
  2:{ destruct s; [|cbn in Hge; lia]. exists t, h, []. rewrite app_nil_r. done. }
  replace (length pre + length s - length pre)%nat with (length s) by lia.
  destruct (first_punct s) as [Hn|(w & p & r & -> & Hw & Hp)].
  - pose proof (find_punct_skip pre s (0 :: junk) 0 Hn) as Hnone. rewrite Nat.add_0_r in Hnone. cbn [find_punct] in Hnone.
    rewrite Hnone.
    destruct fuel as [|fuel]; [lia|]. cbn [split_loop]. destruct (Nat.ltb_spec (S (length pre + length s)) (length pre + length s)); [lia|].
    exists t, h, []. rewrite app_nil_r. split; [done|]. split; [done|].
    rewrite <- (app_nil_r s), sentences_skip by done. done.
  - replace (find_punct (length (w ++ p :: r)) (pre ++ (w ++ p :: r) ++ 0 :: junk) (length pre))
      with (find_punct (length w + S (length r)) (pre ++ w ++ p :: r ++ 0 :: junk) (length pre))
      by (rewrite length_app, <- app_assoc; done).
    rewrite find_punct_skip by done. rewrite <- app_assoc. cbn [find_punct app].
    replace ((pre ++ w ++ p :: r ++ 0 :: junk) !! (length pre + length w)%nat) with (Some p)
      by (rewrite app_assoc; symmetry; apply list_lookup_middle; by rewrite length_app).
    rewrite Hp, drop_app_length. replace (length pre + length w - length pre)%nat with (length w) by lia. rewrite take_app_length.
    destruct (new_string (w ++ [0]) h) as [q h1] eqn:En.
    destruct (new_string_ok h0 h t objs _ _ _ _ Hb En) as [Hb1 _].
    destruct (table_append_ok h0 h1 t _ _ q Hok Hb1) as (t2 & h2 & Hta & Hb2). rewrite Hta. cbn [obind].
    replace (pre ++ w ++ p :: r ++ 0 :: junk) with ((pre ++ w ++ [p]) ++ r ++ 0 :: junk) by (by rewrite <- !app_assoc).
    replace (S (length pre + length w)) with (length (pre ++ w ++ [p])) by (rewrite !length_app; cbn; lia).
    replace (length pre + length (w ++ p :: r))%nat with (length (pre ++ w ++ [p]) + length r)%nat by (rewrite !length_app; cbn; lia).
    destruct (IH (pre ++ w ++ [p]) r h2 t2 (objs ++ [(q, w ++ [0])])) as (t3 & h3 & objs' & Hrun & Hb3 & Hobj).
    { rewrite fmap_app. exact Hb2. }
    { rewrite length_app in Hf. cbn in Hf. lia. }
    exists t3, h3, ((q, w ++ [0]) :: objs'). split; [done|]. rewrite <- app_assoc in Hb3. split; [exact Hb3|].
    rewrite sentences_skip by done. cbn. rewrite Hp. cbn. by rewrite Hobj.
Qed.

Lemma objs_lookup a p x b (S0 : gmap Z (list Z)) :
  NoDup (a ++ (p, x) :: b).*1 -> (list_to_map (a ++ (p, x) :: b) ∪ S0) !! p = Some x.
Proof.
  intros Hnd. apply lookup_union_Some_l. apply elem_of_list_to_map_1; [done|]. apply elem_of_app. right. by left.
Qed.

Lemma objs_update a p x y b (S0 : gmap Z (list Z)) :
  NoDup (a ++ (p, x) :: b).*1 ->
  <[p := y]> (list_to_map (a ++ (p, x) :: b) ∪ S0) = list_to_map (a ++ (p, y) :: b) ∪ S0.
Proof.
  intros Hnd. rewrite insert_union_l. f_equal.
  assert (Hnd' : NoDup (a ++ (p, y) :: b).*1) by (revert Hnd; by rewrite !fmap_app).
  rewrite (list_to_map_proper (a ++ (p, x) :: b) ((p, x) :: a ++ b)), (list_to_map_proper (a ++ (p, y) :: b) ((p, y) :: a ++ b));
    try done; try (by rewrite Permutation_middle). cbn. by rewrite insert_insert_eq.
Qed.

(** The loop of [camel_caser]: [a] done, [b] to do. *)
Lemma camel_caser_loop_ok ss a b h (S0 : gmap Z (list Z)) :
  strings h = list_to_map (a ++ b) ∪ S0 -> NoDup (a ++ b).*1 -> Forall (fun p => p <> 0) b.*1 ->
  b.*2 = (fun w => w ++ [0]) <$> ss -> Forall (fun w => 0 ∉ w) ss -> (forall p, is_Some (strings h !! p) -> p < next_ptr h) ->
  exists b' n, camel_caser_loop (b.*1 ++ [0]) h = Done (Heap n (list_to_map (a ++ b') ∪ S0) (tables h))
    /\ b'.*1 = b.*1 /\ Forall2 result_of ss b'.*2.
Proof.
  revert a b h. induction ss as [|w ss IH]; intros a b h Hs Hnd Hz Hb Hw Hlt.
  - destruct b; [|done]. exists [], (next_ptr h). split; [|by split; [|constructor]]. cbn. rewrite <- Hs. by destruct h.
  - destruct b as [|[p x] b]; [done|]. cbn in Hb. injection Hb as -> Hb. apply Forall_cons in Hz as [Hp Hz].
    apply Forall_cons in Hw as [Hw Hws]. cbn [fmap list_fmap fst app camel_caser_loop] in *.
    rewrite (proj2 (Z.eqb_neq _ _)) by done. rewrite Hs, objs_lookup by done. cbn [deref obind].
    assert (Hpl : strings h !! p = Some (w ++ [0])) by (rewrite Hs; by apply objs_lookup).
    destruct (process_ok p w [] h Hw) as (buf & Hrun & Hres).
    { specialize (Hlt p ltac:(by eexists)). lia. }
    { destruct (strings h !! next_ptr h) eqn:E; [|done]. specialize (Hlt _ (ex_intro _ _ E)). lia. }
    destruct (camel_case_str (w ++ [0])) as [str| | |]; try discriminate Hrun. cbn [obind] in Hrun |- *.
    rewrite Hrun. cbn [obind]. set (h1 := Heap _ _ _).
    destruct (IH (a ++ [(p, buf)]) b h1) as (b' & n & Hl & Hf & H2); try done.
    { unfold h1. cbn. rewrite Hs, objs_update by done. by rewrite <- app_assoc. }
    { revert Hnd. rewrite <- app_assoc, !fmap_app. done. }
    { intros q. unfold h1. cbn. intros Hq. destruct (decide (p = q)) as [<-|]; [specialize (Hlt p ltac:(by eexists)); lia|].
      rewrite lookup_insert_ne in Hq by done. specialize (Hlt q Hq). lia. }
    exists ((p, buf) :: b'), n. rewrite Hl. split; [by rewrite <- app_assoc|]. cbn. split; [by rewrite Hf|]. by constructor.
Qed.

Lemma destroy_table_ok objs h (S0 : gmap Z (list Z)) :
  strings h = list_to_map objs ∪ S0 -> NoDup objs.*1 -> Forall (fun p => p <> 0 /\ S0 !! p = None) objs.*1 ->
  destroy_loop (objs.*1 ++ [0]) h = Done (Heap (next_ptr h) S0 (tables h)).
Proof.
  revert h. induction objs as [|[p x] objs IH]; intros h Hs Hnd Hf.
  - cbn. cbn in Hs. rewrite map_empty_union in Hs. rewrite <- Hs. by destruct h.
  - apply Forall_cons in Hf as [[Hp HS] Hf]. cbn [fmap list_fmap fst app destroy_loop] in *.
    pose proof (objs_lookup [] p x objs S0 Hnd) as Hlook. cbn [app] in Hlook.
    rewrite (proj2 (Z.eqb_neq _ _)) by done. unfold free_string. rewrite Hs, Hlook. cbn [deref obind].
    rewrite IH; [done| |by inversion Hnd|done]. cbn.
    rewrite delete_union, delete_insert_id; [by rewrite (delete_id S0)|].
    apply not_elem_of_list_to_map_1. by inversion Hnd.
Qed.

Lemma sentences_nonzero s cur : 0 ∉ s -> 0 ∉ cur -> Forall (fun w => 0 ∉ w) (sentences s cur).
Proof.
  revert cur. induction s as [|c s IH]; intros cur Hs Hcur; cbn; [done|]. apply not_elem_of_cons in Hs as [Hc Hs].
  destruct (ispunct c).
  - constructor; [done|]. apply IH; [done|]. by intros ?%not_elem_of_nil.
  - apply IH; [done|]. intros [?|Hin]%elem_of_app; [done|]. apply list_elem_of_singleton in Hin. done.
Qed.

(** C32. For every input string, [camel_caser] returns a NULL-terminated table of new
    strings, one per sentence of the input in order: the first word in lower
    case followed by the other words capitalised, or, for a sentence that is
    blanks followed by one last character, that character as it is.  Every read and
    write is inside its object, no other object changes or is left behind, and [destroy] gives back exactly the heap there was. *)
Theorem camel_caser_correct h s junk :
  heap_ok h -> 0 ∉ s ->
  exists t h' objs, camel_caser (Some (s ++ 0 :: junk)) h = Done (t, h')
    /\ t <> 0 /\ tables h !! t = None /\ tables h' = <[t := objs.*1 ++ [0]]> (tables h)
    /\ strings h' = list_to_map objs ∪ strings h
    /\ Forall (fun p => p <> 0 /\ strings h !! p = None) objs.*1 /\ NoDup objs.*1
    /\ Forall2 result_of (sentences s []) objs.*2
    /\ exists h'', destroy t h' = Done h'' /\ strings h'' = strings h /\ tables h'' = tables h.
Proof.
  intros Hok Hz. unfold camel_caser, split_str. rewrite strlen_ok by done. cbn [obind].
  assert (Hb0 : built h h 0 [] []).
  { split; [cbn; by rewrite map_empty_union|by left|constructor|constructor|lia]. }
  destruct (split_sentences_ok (S (S (length s))) [] s junk h h 0 [] Hok Hb0) as (t1 & h1 & objs & Hsp & Hb1 & Hobjs); [lia|].
  cbn [app length Nat.add] in Hsp, Hb1. rewrite Hsp. cbn [obind].
  destruct (table_append_ok h h1 t1 objs objs.*1 0 Hok Hb1) as (t & h2 & Hta & [Hs2 Ht2 Hnd2 Hr2 Hn2]). rewrite Hta. cbn [obind].
  destruct Ht2 as [(_ & Hnil & _)|(Ht & Hnone & Ht2)]; [by destruct (objs.*1)|]. rewrite Ht2, lookup_insert_eq. cbn [deref obind].
  assert (Hnz : forall p, p ∈ objs.*1 -> p <> 0 /\ strings h !! p = None).
  { rewrite Forall_forall in Hr2. intros p Hp. specialize (Hr2 p Hp). pose proof (ok_next _ Hok). split; [lia|].
    eapply fresh_none; [apply Hok|lia]. }
  destruct (camel_caser_loop_ok (sentences s []) [] objs h2 (strings h)) as (objs' & n & Hcl & Hfst & Hres); try done.
  { apply Forall_forall. intros p Hp. by apply Hnz. }
  { apply sentences_nonzero; [done|]. by intros ?%not_elem_of_nil. }
  { intros p. rewrite Hs2, lookup_union_is_Some. intros [Hp|Hp%(ok_strings _ Hok)]; [|lia].
    destruct Hp as [x Hp%elem_of_list_to_map_2]. apply (list_elem_of_fmap_2 fst) in Hp. rewrite Forall_forall in Hr2. by apply Hr2 in Hp as []. }
  rewrite Hcl. cbn [obind app]. exists t, (Heap n (list_to_map objs' ∪ strings h) (tables h2)), objs'.
  assert (Hf' : Forall (fun p => p <> 0 /\ strings h !! p = None) objs'.*1) by (rewrite Hfst; by apply Forall_forall).
  assert (Hnd' : NoDup objs'.*1) by (by rewrite Hfst).
  split; [done|]. split; [done|]. split; [done|]. split; [by rewrite Hfst|]. do 4 (split; [done|]).
  unfold destroy. cbn [tables]. rewrite (proj2 (Z.eqb_neq _ _)) by done. rewrite Ht2, lookup_insert_eq. cbn [deref obind].
  rewrite <- Hfst, (destroy_table_ok objs' _ (strings h)) by done. cbn [obind]. unfold free_table. cbn [tables].
  rewrite lookup_insert_eq. cbn [deref obind]. eexists. split; [done|]. cbn. split; [done|]. by rewrite delete_insert_id.
Qed.

Lemma camel_caser_correct_witness :
  exists t h' (objs : objects), camel_caser (Some (bytes_of_string "hello big WORLD. bye" ++ 0 :: [])) (Heap 1 ∅ ∅) = Done (t, h')
    /\ Forall2 result_of [bytes_of_string "hello big WORLD"] objs.*2
    /\ camel (bytes_of_string "hello big WORLD") = bytes_of_string "helloBigWorld"
    /\ exists h'', destroy t h' = Done h'' /\ strings h'' = ∅.
Proof.
  destruct (camel_caser_correct (Heap 1 ∅ ∅) (bytes_of_string "hello big WORLD. bye") []) as (t & h' & objs & Hrun & _ & _ & _ & _ & _ & _ & Hres & h'' & Hd & Hs & _).
  - split; cbn; [lia| |]; intros p Hp; rewrite lookup_empty in Hp; destruct Hp as [? Hp]; discriminate Hp.
  - intros Hin. vm_compute in Hin. set_solver.
  - exists t, h', objs. split; [exact Hrun|]. split; [exact Hres|]. split; [reflexivity|]. exists h''. split; [exact Hd|exact Hs].
Defined.

(** A sentence of one upper-case letter keeps its case. *)
Example lone_letter_kept :
  camel_case_str (bytes_of_string "A" ++ [0]) = Done (bytes_of_string "A" ++ [0]) /\ camel (bytes_of_string "A") = bytes_of_string "a".
Proof. split; reflexivity. Qed.
