(* ===== verification/Sstring.v ===== *)
(** * The strings of [vector/sstring.c]

    An [sstring] is a structure holding a pointer to a character buffer:
    [structs] maps structure addresses to that pointer, [bufs] buffer addresses
    to their bytes.  [alloc] and [alloc_struct] give the address an allocation
    returns (0 for [NULL]).  Bytes that were allocated but not written are 0 here;
    a read of a string without terminator, or outside a buffer, is [Undef].  The
    vector a split returns is the list of the strings pushed onto it, which
    [vector_push_back] copies ([Vector], [Callbacks]). *)

From stdpp Require Import gmap.
From S2P Require Import Prelude CString Callbacks.
Open Scope Z_scope.

Record sheap := Sheap {
  structs : gmap Z Z;
  bufs : objects;
}.

Definition set_structs (h : sheap) (s : gmap Z Z) : sheap := Sheap s (bufs h).
Definition set_bufs (h : sheap) (b : objects) : sheap := Sheap (structs h) b.

(** The characters of the string at the start of [bs], without terminator. *)
Fixpoint chars (bs : list Z) : outcome (list Z) :=
  match bs with
  | [] => Undef
  | c :: bs => if c =? 0 then Done [] else let! s := chars bs in Done (c :: s)
  end.

(** The string at a pointer, and at an offset from it. *)
Definition c_string (h : sheap) (p : Z) : outcome (list Z) := let! bs := deref (bufs h !! p) in chars bs.

(** [strncpy]'s [n] bytes: padded with zeros after the terminator. *)
Fixpoint strncpy_bytes (n : nat) (src : list Z) : outcome (list Z) :=
  match n with
  | O => Done []
  | S k =>
      match src with
      | [] => Undef
      | c :: src => if c =? 0 then Done (replicate n 0) else let! bs := strncpy_bytes k src in Done (c :: bs)
      end
  end.

(** [strncpy(dst + pos, src, n)] within the buffer [dst]. *)
Definition strncpy (dst : list Z) (pos : nat) (src : list Z) (n : nat) : outcome (list Z) :=
  let! bs := strncpy_bytes n src in
  if (pos + n <=? length dst)%nat then Done (take pos dst ++ bs ++ drop (pos + n) dst) else Undef.

(** Index of the first [c] in the string, its terminator included. *)
Fixpoint strchr (bs : list Z) (c : Z) : outcome (option nat) :=
  match bs with
  | [] => Undef
  | x :: bs =>
      if x =? c then Done (Some 0%nat)
      else if x =? 0 then Done None
      else let! r := strchr bs c in Done (option_map S r)
  end.

Section Sstring.

Variable alloc : objects -> Z -> Z.
Variable alloc_struct : gmap Z Z -> Z.

Definition strdup (p : Z) (h : sheap) : outcome (Z * sheap) :=
  let! s := c_string h p in
  let q := alloc (bufs h) (Z.of_nat (length s) + 1) in
  if q =? 0 then Done (0, h) else Done (q, set_bufs h (<[q := s ++ [0]]> (bufs h))).

Definition cstr_to_sstring (input : Z) (h : sheap) : outcome (Z * sheap) :=
  let sstr := alloc_struct (structs h) in
  let! (str, h) := strdup input h in
  if sstr =? 0 then Undef else Done (sstr, set_structs h (<[sstr := str]> (structs h))).

Definition sstring_to_cstr (input : Z) (h : sheap) : outcome (Z * sheap) :=
  let! _ := c_assert (negb (input =? 0)) in
  let! str := deref (structs h !! input) in
  let! _ := c_assert (negb (str =? 0)) in
  strdup str h.

(** [realloc(p, n)]: the bytes move; on failure the result is [NULL]. *)
Definition c_realloc (p n : Z) (h : sheap) : outcome (Z * sheap) :=
  let! bs := deref (bufs h !! p) in
  let q := alloc (delete p (bufs h)) n in
  if q =? 0 then Done (0, h)
  else Done (q, set_bufs h (<[q := take (Z.to_nat n) (bs ++ replicate (Z.to_nat n - length bs) 0)]> (delete p (bufs h)))).

(** [strcat(dst, src)]: the strings must not overlap and the result must fit. *)
Definition strcat (dst src : Z) (h : sheap) : outcome sheap :=
  if dst =? src then Undef
  else
    let! s := c_string h src in
    let! buf := deref (bufs h !! dst) in
    let! d := chars buf in
    if (length d + length s + 1 <=? length buf)%nat
    then Done (set_bufs h (<[dst := d ++ s ++ [0] ++ drop (length d + length s + 1) buf]> (bufs h)))
    else Undef.

Definition sstring_append (this addition : Z) (h : sheap) : outcome (Z * sheap) :=
  let! this_str := deref (structs h !! this) in
  let! addition_str := deref (structs h !! addition) in
  let! s := c_string h this_str in
  let! a := c_string h addition_str in
  let! (p, h) := c_realloc this_str (u64 (Z.of_nat (length s) + 1 + Z.of_nat (length a) + 1)) h in
  let h := set_structs h (<[this := p]> (structs h)) in
  let! addition_str := deref (structs h !! addition) in
  let! h := strcat p addition_str h in
  let! s := c_string h p in
  Done (s32 (Z.of_nat (length s)), h).

(** The loop of [sstring_split], [str] and [end_] as offsets in the buffer. *)
Fixpoint split_loop (fuel : nat) (buf : list Z) (delimiter : Z) (str end_ : nat) (v : list (list Z))
  : outcome (list Z * list (list Z)) :=
  match fuel with
  | O => OutOfFuel
  | S fuel =>
      if (str <? end_)%nat then
        let! r := strchr (drop str buf) delimiter in
        match r with
        | None =>
            let! s := chars (drop str buf) in
            split_loop fuel buf delimiter end_ end_ (v ++ [s])
        | Some k =>
            let substr_end := (str + k)%nat in
            let! aux := deref (buf !! substr_end) in
            let buf := <[substr_end := 0]> buf in
            let! s := chars (drop str buf) in
            let v := v ++ [s] in
            let buf := <[substr_end := aux]> buf in
            let v := if (substr_end =? end_ - 1)%nat && (aux =? delimiter) then v ++ [[]] else v in
            split_loop fuel buf delimiter (S substr_end) end_ v
        end
      else Done (buf, v)
  end.

Definition sstring_split (this delimiter : Z) (h : sheap) : outcome (list (list Z) * sheap) :=
  let! str := deref (structs h !! this) in
  let! buf := deref (bufs h !! str) in
  let! s := chars buf in
  let! (buf, v) := split_loop (S (length s)) buf delimiter 0 (length s) [] in
  Done (v, set_bufs h (<[str := buf]> (bufs h))).

(** The loop of [obsolete_sstring_append]: [walk] is the rest of the string, [work] the
    buffer, which doubles when it is full (its new part shown as zeros). *)
Fixpoint obsolete_loop (walk : list Z) (delimiter : Z) (work : list Z) (i : nat) (v : list (list Z)) : outcome (list (list Z)) :=
  match walk with
  | [] => Done v
  | c :: rest =>
      let work := if (length work <=? i)%nat then work ++ replicate (length work) 0 else work in
      if (length work <=? i)%nat then Undef
      else if negb (c =? delimiter) then obsolete_loop rest delimiter (<[i := c]> work) (S i) v
      else obsolete_loop rest delimiter (replicate (length work) 0) 0 (v ++ [walk])
  end.

(** What is pushed at a delimiter is the rest of the string, not the part collected. *)
Definition obsolete_sstring_append (this delimiter : Z) (h : sheap) : outcome (list (list Z)) :=
  let! str := deref (structs h !! this) in
  let! s := c_string h str in
  obsolete_loop s delimiter (replicate (Z.to_nat 1024) 0) 0 [].

Definition sstring_substitute (this : Z) (offset : Z) (target substitution : Z) (h : sheap) : outcome (Z * sheap) :=
  let! str := deref (structs h !! this) in
  let! buf := deref (bufs h !! str) in
  let! from := if Z.of_nat (length buf) <? offset then Undef else chars (drop (Z.to_nat offset) buf) in
  let! t := c_string h target in
  match strstr from t with
  | None => Done (-1, h)
  | Some k =>
      let next := (Z.to_nat offset + k)%nat in
      let! s := chars buf in
      let! sub := c_string h substitution in
      let total_nbytes := u64 (Z.of_nat (length s) + 1 - Z.of_nat (length t) + Z.of_nat (length sub)) in
      let aux := alloc (bufs h) total_nbytes in
      if aux =? 0 then Undef
      else
        let new := replicate (Z.to_nat total_nbytes) 0 in
        let! new := strncpy new 0 buf next in
        let! new := strncpy new next (sub ++ [0]) (length sub) in
        let remaining_nbytes := u64 (total_nbytes - Z.of_nat next - Z.of_nat (length sub)) in
        let! new := strncpy new (next + length sub) (drop (next + length t) buf) (Z.to_nat remaining_nbytes) in
        let new := <[Z.to_nat (total_nbytes - 1) := 0]> new in
        let! b := c_free str (<[aux := new]> (bufs h)) in
        Done (0, Sheap (<[this := aux]> (structs h)) b)
  end.

Definition sstring_slice (this start end_ : Z) (h : sheap) : outcome (Z * sheap) :=
  let! str := deref (structs h !! this) in
  let! buf := deref (bufs h !! str) in
  let nbytes_copied := u64 (s32 (end_ - start)) in
  let n := u64 (nbytes_copied + 1) in
  let q := alloc (bufs h) n in
  if (q =? 0) || (start <? 0) || (Z.of_nat (length buf) <? start) || (n <? nbytes_copied) then Undef
  else
    let! new := strncpy (replicate (Z.to_nat n) 0) 0 (drop (Z.to_nat start) buf) (Z.to_nat nbytes_copied) in
    Done (q, set_bufs h (<[q := <[Z.to_nat nbytes_copied := 0]> new]> (bufs h))).

Definition sstring_destroy (this : Z) (h : sheap) : outcome sheap :=
  let! _ := c_assert (negb (this =? 0)) in
  let! str := deref (structs h !! this) in
  let! b := c_free str (bufs h) in
  Done (Sheap (delete this (structs h)) b).

End Sstring.
