(* ===== verification/SstringSpec.v ===== *)
(** * Correctness of the strings

    Splitting cuts a string exactly at its delimiters (joining the parts gives the
    string back), substituting replaces the first occurrence from the offset on
    and nothing else, and no operation leaks or frees a buffer twice. *)

From stdpp Require Import gmap strings.
From S2P Require Import Prelude CString Callbacks Sstring.
Open Scope Z_scope.

(** ** C strings *)

Lemma chars_ok s junk : 0 ∉ s -> chars (s ++ 0 :: junk) = Done s.
Proof.
  induction s as [|c s IH]; intros Hs; [done|]. apply not_elem_of_cons in Hs as [Hc Hs]. cbn [app chars].
  rewrite (proj2 (Z.eqb_neq _ _)) by done. by rewrite IH.
Qed.

Lemma strchr_none s junk d : 0 ∉ s -> d ∉ s -> d <> 0 -> strchr (s ++ 0 :: junk) d = Done None.
Proof.
  induction s as [|c s IH]; intros Hs Hd H0; cbn [app strchr].
  - by rewrite (proj2 (Z.eqb_neq _ _)) by done.
  - apply not_elem_of_cons in Hs as [Hc Hs]. apply not_elem_of_cons in Hd as [Hcd Hd].
    rewrite !(proj2 (Z.eqb_neq _ _)) by done. by rewrite IH.
Qed.

Lemma strchr_some w r d : 0 ∉ w -> d ∉ w -> strchr (w ++ d :: r) d = Done (Some (length w)).
Proof.
  induction w as [|c w IH]; intros Hs Hd; cbn [app strchr].
  - by rewrite Z.eqb_refl.
  - apply not_elem_of_cons in Hs as [Hc Hs]. apply not_elem_of_cons in Hd as [Hcd Hd].
    rewrite !(proj2 (Z.eqb_neq _ _)) by done. by rewrite IH.
Qed.

Lemma first_in (d : Z) s : d ∉ s \/ exists w r, s = w ++ d :: r /\ d ∉ w.
Proof.
  destruct (decide (d ∈ s)) as [Hin|]; [right|by left].
  apply list_elem_of_split_l in Hin as (w & r & -> & Hw). by exists w, r.
Qed.

(** ** Splitting *)

Fixpoint parts (d : Z) (s cur : list Z) : list (list Z) :=
  match s with
  | [] => [cur]
  | c :: s => if c =? d then cur :: parts d s [] else parts d s (cur ++ [c])
  end.

Definition split_on (d : Z) (s : list Z) : list (list Z) := match s with [] => [] | _ => parts d s [] end.

Fixpoint join (d : Z) (l : list (list Z)) : list Z :=
  match l with
  | [] => []
  | [x] => x
  | x :: l => x ++ d :: join d l
  end.

Lemma parts_skip d w s cur : d ∉ w -> parts d (w ++ s) cur = parts d s (cur ++ w).
Proof.
  revert cur. induction w as [|c w IH]; intros cur Hw; cbn; [by rewrite app_nil_r|].
  apply not_elem_of_cons in Hw as [Hc Hw]. rewrite (proj2 (Z.eqb_neq _ _)) by done. rewrite IH by done. by rewrite <- app_assoc.
Qed.

Lemma parts_join d s cur : join d (parts d s cur) = cur ++ s.
Proof.
  revert cur. induction s as [|c s IH]; intros cur; cbn; [by rewrite app_nil_r|].
  destruct (Z.eqb_spec c d) as [->|].
  - specialize (IH []). destruct (parts d s []) as [|x l] eqn:E.
    2:{ change (cur ++ d :: join d (x :: l) = cur ++ d :: s). by rewrite IH. }
    exfalso. revert E. clear. generalize (@nil Z). induction s as [|c s IH]; intros cur; cbn; [done|]. destruct (c =? d); [done|apply IH].
  - rewrite IH. by rewrite <- app_assoc.
Qed.

Lemma parts_free d s cur : d ∉ cur -> Forall (fun x => d ∉ x) (parts d s cur).
Proof.
  revert cur. induction s as [|c s IH]; intros cur Hc; cbn; [by repeat constructor|].
  destruct (Z.eqb_spec c d) as [->|Hne]; [constructor; [done|]; apply IH; by intros ?%not_elem_of_nil|].
  apply IH. intros [?|Hin]%elem_of_app; [done|]. apply list_elem_of_singleton in Hin. congruence.
Qed.

Lemma split_loop_ok fuel pre s junk d v :
  0 ∉ s -> d <> 0 -> (length s < fuel)%nat ->
  split_loop fuel (pre ++ s ++ 0 :: junk) d (length pre) (length pre + length s) v = Done (pre ++ s ++ 0 :: junk, v ++ split_on d s).
Proof.
  revert pre s v. induction fuel as [|fuel IH]; intros pre s v Hz Hd Hf; [lia|]. cbn [split_loop].
  destruct (decide (s = [])) as [->|Hs]; [rewrite (proj2 (Nat.ltb_ge _ _)) by (cbn; lia); by rewrite app_nil_r|].
  assert (0 < length s)%nat by (destruct s; [done|cbn; lia]).
  assert (Hsp : split_on d s = parts d s []) by (by destruct s). rewrite Hsp.
  rewrite (proj2 (Nat.ltb_lt _ _)), drop_app_length by lia. destruct (first_in d s) as [Hnin|(w & r & -> & Hw)].
  - rewrite strchr_none by done. cbn [obind]. rewrite chars_ok by done. cbn [obind].
    destruct fuel as [|fuel]; [lia|]. cbn [split_loop]. rewrite (proj2 (Nat.ltb_ge _ _)) by lia.
    pose proof (parts_skip d s [] [] Hnin) as Hps. rewrite app_nil_r in Hps. by rewrite Hps.
  - assert (Hzw : 0 ∉ w) by set_solver. assert (Hzr : 0 ∉ r) by set_solver.
    replace ((w ++ d :: r) ++ 0 :: junk) with (w ++ d :: r ++ 0 :: junk) by (by rewrite <- app_assoc).
    rewrite strchr_some by done. cbn [obind]. rewrite (app_assoc pre w), list_lookup_middle by (by rewrite length_app).
    cbn [deref obind].
    assert (Hins : forall x y, <[(length pre + length w)%nat := x]> ((pre ++ w) ++ y :: r ++ 0 :: junk) = (pre ++ w) ++ x :: r ++ 0 :: junk).
    { intros x y. rewrite <- (Nat.add_0_r (_ + _)), <- length_app. by rewrite insert_app_r. }
    rewrite !Hins, <- !app_assoc, drop_app_length, chars_ok by done. cbn [obind].
    rewrite Z.eqb_refl, andb_true_r, parts_skip by done. cbn [parts app]. rewrite Z.eqb_refl.
    replace (pre ++ w ++ d :: r ++ 0 :: junk) with ((pre ++ w ++ [d]) ++ r ++ 0 :: junk) by (by rewrite <- !app_assoc).
    replace (S (length pre + length w)) with (length (pre ++ w ++ [d])) by (rewrite !length_app; cbn; lia).
    replace (length pre + length (w ++ d :: r))%nat with (length (pre ++ w ++ [d]) + length r)%nat by (rewrite !length_app; cbn; lia).
    rewrite length_app in Hf. cbn in Hf. rewrite IH by (done || lia). f_equal. f_equal.
    rewrite !length_app. cbn [length]. destruct r as [|x r].
    + rewrite (proj2 (Nat.eqb_eq _ _)) by (cbn; lia). cbn. by rewrite app_nil_r, <- app_assoc.
    + rewrite (proj2 (Nat.eqb_neq _ _)) by (cbn; lia). by rewrite <- app_assoc.
Qed.

(** The structure [this] holds the string [s]. *)
Definition holds (h : sheap) (this : Z) (s : list Z) : Prop :=
  exists p junk, structs h !! this = Some p /\ p <> 0 /\ bufs h !! p = Some (s ++ 0 :: junk) /\ 0 ∉ s.

(** Splitting returns the parts between delimiters: joined with the delimiter
    they are the string, and none contains it; the empty string has no part.
    The string itself is unchanged. *)
Theorem sstring_split_correct h this s d :
  holds h this s -> d <> 0 ->
  exists v, sstring_split this d h = Done (v, h)
    /\ (s = [] -> v = []) /\ (s <> [] -> v <> []) /\ join d v = s /\ Forall (fun x => d ∉ x) v.
Proof.
  intros (p & junk & Hp & _ & Hb & Hz) Hd. unfold sstring_split. rewrite Hp. cbn [deref obind]. rewrite Hb. cbn [deref obind].
  rewrite chars_ok by done. cbn [obind].
  pose proof (split_loop_ok (S (length s)) [] s junk d [] Hz Hd) as Hl. cbn [app length Nat.add] in Hl. rewrite Hl by lia.
  cbn [obind]. rewrite insert_id by done. exists (split_on d s). split; [by destruct h|].
  destruct s as [|c s]; [by repeat split|]. cbn [split_on]. split; [done|].
  pose proof (parts_join d (c :: s) []) as Hj. split; [intros _ Hnil; by rewrite Hnil in Hj|]. split; [done|].
  apply parts_free. by intros ?%not_elem_of_nil.
Qed.

Definition sample_heap : sheap :=
  Sheap {[ 1 := 10 ]} {[ 10 := bytes_of_string "a,b,,c," ++ [0]; 20 := bytes_of_string "," ++ [0]; 30 := bytes_of_string " and " ++ [0] ]}.

Lemma sstring_split_correct_witness :
  exists v, sstring_split 1 44 sample_heap = Done (v, sample_heap) /\ join 44 v = bytes_of_string "a,b,,c,"
    /\ v = map bytes_of_string ["a"; "b"; ""; "c"; ""].
Proof.
  destruct (sstring_split_correct sample_heap 1 (bytes_of_string "a,b,,c,") 44) as (v & Hv & _ & _ & Hj & _).
  - exists 10, []. split; [reflexivity|]. split; [done|]. split; [reflexivity|]. vm_compute. set_solver.
  - done.
  - exists v. split; [exact Hv|]. split; [exact Hj|].
    assert (Hc : sstring_split 1 44 sample_heap = Done (map bytes_of_string ["a"; "b"; ""; "c"; ""], sample_heap)) by (vm_compute; reflexivity).
    rewrite Hc in Hv. injection Hv as <-. reflexivity.
Defined.

(** ** Creating, appending, slicing, destroying *)

Section Basics.

Variable alloc : objects -> Z -> Z.
Variable alloc_struct : gmap Z Z -> Z.
Hypothesis alloc_fresh : forall o n, alloc o n <> 0 /\ o !! alloc o n = None.
Hypothesis struct_fresh : forall m, alloc_struct m <> 0 /\ m !! alloc_struct m = None.

Lemma strdup_ok h p s :
  c_string h p = Done s ->
  strdup alloc p h = Done (alloc (bufs h) (Z.of_nat (length s) + 1), set_bufs h (<[alloc (bufs h) (Z.of_nat (length s) + 1) := s ++ [0]]> (bufs h))).
Proof.
  intros Hs. unfold strdup. rewrite Hs. cbn [obind]. by rewrite (proj2 (Z.eqb_neq _ _)) by apply alloc_fresh.
Qed.

Lemma chars_nonzero bs s : chars bs = Done s -> 0 ∉ s.
Proof.
  revert s. induction bs as [|c bs IH]; intros s; cbn [chars]; [done|].
  destruct (Z.eqb_spec c 0); [intros [= <-]; by intros ?%not_elem_of_nil|].
  intros (s' & Hs' & [= <-])%obind_Done. apply not_elem_of_cons. split; [done|by apply IH].
Qed.

(** A string made from a C string holds its characters, reads back as them, and
    destroying it gives the heap back. *)
Lemma sstring_create_ok h input s :
  c_string h input = Done s ->
  exists this h', cstr_to_sstring alloc alloc_struct input h = Done (this, h') /\ holds h' this s
    /\ (exists q h'', sstring_to_cstr alloc this h' = Done (q, h'') /\ bufs h'' !! q = Some (s ++ [0]))
    /\ sstring_destroy this h' = Done h.
Proof.
  intros Hs. assert (Hz : 0 ∉ s) by (unfold c_string in Hs; destruct (bufs h !! input); [apply (chars_nonzero _ _ Hs)|discriminate Hs]).
  unfold cstr_to_sstring. rewrite (strdup_ok h input s Hs). cbn [obind].
  set (q := alloc (bufs h) _). destruct (alloc_fresh (bufs h) (Z.of_nat (length s) + 1)) as [Hq0 Hq]. fold q in Hq0, Hq.
  destruct (struct_fresh (structs h)) as [Ht0 Ht]. set (this := alloc_struct (structs h)) in *.
  rewrite (proj2 (Z.eqb_neq this 0)) by done. exists this. eexists. split; [done|].
  split; [|split].
  - exists q, []. cbn. by rewrite !lookup_insert_eq.
  - unfold sstring_to_cstr. rewrite (proj2 (Z.eqb_neq this 0)) by done. cbn [negb c_assert obind structs set_structs set_bufs].
    rewrite lookup_insert_eq. cbn [deref obind]. rewrite (proj2 (Z.eqb_neq q 0)) by done. cbn [negb c_assert obind].
    eexists _, _. split; [apply strdup_ok|cbn; by rewrite lookup_insert_eq].
    unfold c_string. cbn. rewrite lookup_insert_eq. cbn. by apply chars_ok.
  - unfold sstring_destroy. rewrite (proj2 (Z.eqb_neq this 0)) by done. cbn [negb c_assert obind structs set_structs set_bufs bufs].
    rewrite lookup_insert_eq. cbn [deref obind]. unfold c_free. rewrite (proj2 (Z.eqb_neq q 0)), lookup_insert_eq by done. cbn [obind].
    rewrite !delete_insert_id by done. by destruct h.
Qed.

(** Appending another string stores the concatenation and returns its length;
    appending a string to itself is undefined ([strcat] on overlapping strings). *)
Lemma sstring_append_ok h this addition s a p pa :
  holds h this s -> holds h addition a -> structs h !! this = Some p -> structs h !! addition = Some pa -> p <> pa ->
  this <> addition -> Z.of_nat (length s) + Z.of_nat (length a) + 2 < 2 ^ 31 ->
  exists h', sstring_append alloc this addition h = Done (Z.of_nat (length s + length a), h')
    /\ holds h' this (s ++ a) /\ holds h' addition a.
Proof.
  intros (p' & js & Hp' & Hp0 & Hb & Hz) (pa' & ja & Hpa' & Hpa0 & Hba & Hza) Hp Hpa Hne Hta Hlen.
  rewrite Hp in Hp'. injection Hp' as <-. rewrite Hpa in Hpa'. injection Hpa' as <-.
  unfold sstring_append, c_string. rewrite Hp, Hpa. cbn [deref obind]. rewrite Hb, Hba. cbn [deref obind].
  rewrite !chars_ok by done. cbn [obind]. rewrite u64_small by lia. unfold c_realloc. rewrite Hb. cbn [deref obind].
  set (n := Z.of_nat (length s) + 1 + Z.of_nat (length a) + 1). set (q := alloc (delete p (bufs h)) n).
  destruct (alloc_fresh (delete p (bufs h)) n) as [Hq0 Hq]. fold q in Hq0, Hq. rewrite (proj2 (Z.eqb_neq q 0)) by done.
  cbn [obind structs set_structs set_bufs]. rewrite lookup_insert_ne by done. rewrite Hpa. cbn [deref obind]. unfold strcat.
  assert (Hqa : q <> pa). { intros Heq. rewrite Heq, lookup_delete_ne in Hq by done. congruence. }
  rewrite (proj2 (Z.eqb_neq q pa)) by done. unfold c_string. cbn [bufs set_structs set_bufs].
  rewrite lookup_insert_ne, lookup_delete_ne, Hba by done. cbn [deref obind]. rewrite chars_ok by done. cbn [obind].
  rewrite lookup_insert_eq. cbn [deref obind].
  assert (Hbuf : exists pad, take (Z.to_nat n) ((s ++ 0 :: js) ++ replicate (Z.to_nat n - length (s ++ 0 :: js)) 0) = s ++ 0 :: pad
    /\ (length s + 1 + length pad = Z.to_nat n)%nat).
  { rewrite <- app_assoc, take_app_ge by (unfold n; lia). cbn [app].
    replace (Z.to_nat n - length s)%nat with (S (length a + 1)) by (unfold n; lia).
    exists (take (length a + 1) (js ++ replicate (Z.to_nat n - length (s ++ 0 :: js)) 0)). split; [done|].
    rewrite length_take, length_app, length_replicate, length_app. cbn [length]. unfold n. lia. }
  destruct Hbuf as (pad & -> & Hpad). rewrite chars_ok by done. cbn [obind].
  rewrite (proj2 (Nat.leb_le _ _)) by (rewrite length_app; cbn [length]; unfold n in Hpad; lia). cbn [obind bufs set_bufs].
  rewrite lookup_insert_eq. cbn [deref obind]. rewrite app_assoc. cbn [app].
  assert (Hzsa : 0 ∉ s ++ a) by (intros [?|?]%elem_of_app; done). rewrite chars_ok by done. cbn [obind].
  rewrite s32_small, length_app by (rewrite length_app; lia). eexists. split; [done|]. split.
  - exists q. eexists. cbn. rewrite !lookup_insert_eq. done.
  - exists pa, ja. cbn. rewrite lookup_insert_ne by done. rewrite !lookup_insert_ne, lookup_delete_ne by done. done.
Qed.

(** A slice is a new C string of the characters between the two positions. *)
Lemma sstring_slice_ok h this s start end_ :
  holds h this s -> 0 <= start <= end_ -> end_ <= Z.of_nat (length s) -> Z.of_nat (length s) < 2 ^ 31 ->
  exists q, sstring_slice alloc this start end_ h
    = Done (q, set_bufs h (<[q := take (Z.to_nat (end_ - start)) (drop (Z.to_nat start) s) ++ [0]]> (bufs h)))
    /\ bufs h !! q = None.
Proof.
  intros (p & junk & Hp & Hp0 & Hb & Hz) Hse He Hl. unfold sstring_slice. rewrite Hp. cbn [deref obind]. rewrite Hb. cbn [deref obind].
  rewrite s32_small by lia. rewrite (u64_small (end_ - start)) by lia. rewrite u64_small by lia.
  destruct (alloc_fresh (bufs h) (end_ - start + 1)) as [Hq0 Hq]. set (q := alloc (bufs h) (end_ - start + 1)) in *.
  rewrite (proj2 (Z.eqb_neq q 0)), (proj2 (Z.ltb_ge start 0)), (proj2 (Z.ltb_ge (Z.of_nat _) start)), (proj2 (Z.ltb_ge _ (end_ - start)))
    by (rewrite ?length_app; lia || done).
  cbn [orb]. set (k := Z.to_nat (end_ - start)). set (w := take k (drop (Z.to_nat start) s)).
  assert (Hw : length w = k) by (unfold w; rewrite length_take, length_drop; lia).
  assert (Hcopy : strncpy (replicate (Z.to_nat (end_ - start + 1)) 0) 0 (drop (Z.to_nat start) (s ++ 0 :: junk)) k = Done (w ++ [0])).
  { unfold strncpy. rewrite drop_app_le by lia. replace (drop (Z.to_nat start) s) with (w ++ drop k (drop (Z.to_nat start) s)) by apply take_drop.
    assert (Hbs : strncpy_bytes k ((w ++ drop k (drop (Z.to_nat start) s)) ++ 0 :: junk) = Done w).
    { clear -Hw Hz. rewrite <- app_assoc. generalize (drop k (drop (Z.to_nat start) s) ++ 0 :: junk). intros r.
      assert (Hzw : 0 ∉ w).
      { intros Hin. apply Hz. rewrite <- (take_drop (Z.to_nat start) s). apply elem_of_app. right.
        rewrite <- (take_drop k). apply elem_of_app. by left. }
      clear Hz. revert Hzw. rewrite <- Hw. clear Hw. induction w as [|c v IH]; intros Hzw; [by destruct r|].
      apply not_elem_of_cons in Hzw as [Hc Hv]. cbn [length strncpy_bytes app]. rewrite (proj2 (Z.eqb_neq _ _)) by done. by rewrite IH. }
    rewrite Hbs. cbn [obind]. rewrite (proj2 (Nat.leb_le _ _)) by (rewrite length_replicate; lia). cbn [take app Nat.add].
    rewrite drop_replicate. by replace (Z.to_nat (end_ - start + 1) - k)%nat with 1%nat by lia. }
  rewrite Hcopy. cbn [obind]. exists q. split; [|done]. rewrite list_insert_id; [done|].
  rewrite lookup_app_r by lia. by rewrite Hw, Nat.sub_diag.
Qed.

End Basics.

(** ** Substituting *)

Lemma strncpy_bytes_in w r n : 0 ∉ w -> length w = n -> strncpy_bytes n (w ++ r) = Done w.
Proof.
  revert n. induction w as [|c w IH]; intros n Hz Hn; subst n; [by destruct r|]. apply not_elem_of_cons in Hz as [Hc Hz].
  cbn [length strncpy_bytes app]. rewrite (proj2 (Z.eqb_neq _ _)) by done. by rewrite IH.
Qed.

Lemma strncpy_bytes_end w r n : 0 ∉ w -> n = S (length w) -> strncpy_bytes n (w ++ 0 :: r) = Done (w ++ [0]).
Proof.
  revert n. induction w as [|c w IH]; intros n Hz ->; [done|]. apply not_elem_of_cons in Hz as [Hc Hz].
  cbn [length]. remember (S (length w)) as k eqn:Hk. cbn [strncpy_bytes app].
  rewrite (proj2 (Z.eqb_neq _ _)) by done. by rewrite (IH k).
Qed.

(** A copy to the end of what has been written. *)
Lemma strncpy_append a m src n bs :
  strncpy_bytes n src = Done bs -> length bs = n -> (n <= m)%nat ->
  strncpy (a ++ replicate m 0) (length a) src n = Done ((a ++ bs) ++ replicate (m - n) 0).
Proof.
  intros Hb Hl Hn. unfold strncpy. rewrite Hb. cbn [obind].
  rewrite (proj2 (Nat.leb_le _ _)) by (rewrite length_app, length_replicate; lia).
  rewrite take_app_length, drop_app_ge by lia. replace (length a + n - length a)%nat with n by lia.
  by rewrite drop_replicate, app_assoc.
Qed.

Section Substitute.

Variable alloc : objects -> Z -> Z.
(** [malloc] succeeds and returns fresh memory. *)
Hypothesis alloc_fresh : forall o n, alloc o n <> 0 /\ o !! alloc o n = None.

(** The buffer built from the three copies. *)
Lemma substitute_copies (s t u junk : list Z) k :
  0 ∉ s -> 0 ∉ u -> (k + length t <= length s)%nat ->
  let total := (length s + 1 - length t + length u)%nat in
  exists a b, strncpy (replicate total 0) 0 (s ++ 0 :: junk) k = Done a /\ strncpy a k (u ++ [0]) (length u) = Done b
    /\ strncpy b (k + length u) (drop (k + length t) (s ++ 0 :: junk)) (total - k - length u)
       = Done ((take k s ++ u ++ drop (k + length t) s) ++ [0]).
Proof.
  intros Hs Hu Hk total. assert (Hlk : length (take k s) = k) by (rewrite length_take; lia).
  assert (Hzt : 0 ∉ take k s) by (intros Hin; apply Hs; rewrite <- (take_drop k s); apply elem_of_app; by left).
  assert (Hzd : 0 ∉ drop (k + length t) s) by (intros Hin; apply Hs; rewrite <- (take_drop (k + length t) s); apply elem_of_app; by right).
  pose proof (strncpy_append [] total (s ++ 0 :: junk) k (take k s)) as H1. cbn [app length] in H1.
  pose proof (strncpy_append (take k s) (total - k) (u ++ [0]) (length u) u) as H2. rewrite Hlk in H2.
  pose proof (strncpy_append (take k s ++ u) (total - k - length u) (drop (k + length t) (s ++ 0 :: junk)) (total - k - length u)
    (drop (k + length t) s ++ [0])) as H3. rewrite (length_app (take k s)), Hlk in H3.
  eexists _, _. split; [apply H1; [|done|unfold total; lia]|split; [apply H2; [|done|unfold total; lia]|]].
  - replace (s ++ 0 :: junk) with (take k s ++ drop k s ++ 0 :: junk) by (by rewrite app_assoc, take_drop).
    by apply strncpy_bytes_in.
  - by apply strncpy_bytes_in.
  - rewrite H3.
    + rewrite Nat.sub_diag. cbn [replicate]. by rewrite app_nil_r, <- !app_assoc.
    + rewrite drop_app_le by lia. apply strncpy_bytes_end; [done|]. rewrite length_drop. unfold total. lia.
    + rewrite length_app, length_drop. cbn. unfold total. lia.
    + done.
Qed.

(** Substituting replaces the first occurrence of the target from the offset on:
    the structure then holds what precedes it, the substitution and what follows,
    in a new buffer, and the old buffer is freed, nothing else changes; without
    an occurrence the result is -1 and nothing changes. *)
Theorem sstring_substitute_correct h this (s : list Z) p offset target (t : list Z) substitution (u : list Z) :
  holds h this s -> structs h !! this = Some p -> c_string h target = Done t -> c_string h substitution = Done u ->
  (offset <= length s)%nat -> Z.of_nat (length s) + Z.of_nat (length u) + 1 < 2 ^ 64 -> (0 ∉ u) ->
  (exists k q, (offset <= k <= length s)%nat /\ occurs s t k /\ (forall j, (offset <= j < k)%nat -> ~ occurs s t j)
     /\ bufs h !! q = None
     /\ sstring_substitute alloc this (Z.of_nat offset) target substitution h
        = Done (0, Sheap (<[this := q]> (structs h)) (<[q := (take k s ++ u ++ drop (k + length t) s) ++ [0]]> (delete p (bufs h)))))
  \/ ((forall k, (offset <= k <= length s)%nat -> ~ occurs s t k)
     /\ sstring_substitute alloc this (Z.of_nat offset) target substitution h = Done (-1, h)).
Proof.
  intros (p' & junk & Hp' & Hp0 & Hb & Hz) Hp Ht Hu Ho Hlen Hzu. rewrite Hp in Hp'. injection Hp' as <-.
  unfold sstring_substitute. rewrite Hp. cbn [deref obind]. rewrite Hb. cbn [deref obind].
  rewrite (proj2 (Z.ltb_ge _ _)) by (rewrite length_app; lia). rewrite Nat2Z.id, drop_app_le by lia. rewrite chars_ok.
  2:{ intros Hin. apply Hz. rewrite <- (take_drop offset s). apply elem_of_app. by right. }
  cbn [obind]. rewrite Ht. cbn [obind]. destruct (strstr (drop offset s) t) as [k0|] eqn:Ek.
  2:{ right. split; [|done]. intros k Hk Hoc. apply (strstr_none _ _ Ek (k - offset)%nat); [rewrite length_drop; lia|].
      unfold occurs in *. rewrite drop_drop. by replace (offset + (k - offset))%nat with k by lia. }
  left. destruct (strstr_some _ _ _ Ek) as (Hk0 & Hoc & Hfirst). unfold occurs in Hoc. rewrite drop_drop in Hoc.
  rewrite length_drop in Hk0. rewrite chars_ok by done. cbn [obind]. rewrite Hu. cbn [obind].
  set (k := (offset + k0)%nat) in *.
  assert (Hfit : (k + length t <= length s)%nat).
  { apply (f_equal length) in Hoc. rewrite length_take, length_drop in Hoc. destruct (decide (k <= length s)%nat); [lia|unfold k in *; lia]. }
  assert (Htot : u64 (Z.of_nat (length s) + 1 - Z.of_nat (length t) + Z.of_nat (length u)) = Z.of_nat (length s + 1 - length t + length u))
    by (rewrite u64_small; lia).
  rewrite Htot. set (q := alloc (bufs h) _). destruct (alloc_fresh (bufs h) (Z.of_nat (length s + 1 - length t + length u))) as [Hq0 Hq].
  fold q in Hq0, Hq. rewrite (proj2 (Z.eqb_neq _ _)), Nat2Z.id by done.
  destruct (substitute_copies s t u junk k Hz Hzu Hfit) as (a & b & Ha & Hb' & Hc). rewrite Ha. cbn [obind]. rewrite Hb'. cbn [obind].
  replace (Z.to_nat (u64 (Z.of_nat (length s + 1 - length t + length u) - Z.of_nat k - Z.of_nat (length u))))
    with (length s + 1 - length t + length u - k - length u)%nat by (rewrite u64_small; lia).
  rewrite Hc. cbn [obind].
  exists k, q. split; [unfold k; lia|]. split; [done|].
  split. { intros j Hj Hocj. apply (Hfirst (j - offset)%nat); [unfold k in Hj; lia|]. unfold occurs in *. rewrite drop_drop.
           by replace (offset + (j - offset))%nat with j by lia. }
  split; [done|]. rewrite list_insert_id.
  2:{ rewrite lookup_app_r by (rewrite !length_app, length_take, length_drop; lia).
      replace (_ - _)%nat with 0%nat by (rewrite !length_app, length_take, length_drop; lia). done. }
  unfold c_free. rewrite (proj2 (Z.eqb_neq _ _)) by done. assert (Hpq : q <> p) by (intros ->; congruence).
  rewrite lookup_insert_ne, Hb by done. cbn [obind]. by rewrite delete_insert_ne by done.
Qed.

End Substitute.

Lemma sstring_substitute_correct_witness :
  exists q, sstring_substitute next_address 1 2 20 30 sample_heap
    = Done (0, Sheap {[ 1 := q ]} (<[q := bytes_of_string "a,b and ,c," ++ [0]]> (delete 10 (bufs sample_heap)))).
Proof.
  destruct (sstring_substitute_correct next_address next_address_fresh sample_heap 1 (bytes_of_string "a,b,,c,") 10 2 20
    (bytes_of_string ",") 30 (bytes_of_string " and ")) as [(k & q & Hk & Hoc & Hfirst & _ & Hrun)|[Hno _]].
  - exists 10, []. split; [reflexivity|]. split; [done|]. split; [reflexivity|]. vm_compute. set_solver.
  - reflexivity.
  - reflexivity.
  - reflexivity.
  - vm_compute. lia.
  - vm_compute. reflexivity.
  - vm_compute. set_solver.
  - assert (k = 3)%nat as ->.
    { destruct (decide (k < 3)%nat) as [Hlt|Hge].
      - assert (k = 2)%nat as -> by lia. vm_compute in Hoc. discriminate Hoc.
      - destruct (decide (k = 3)%nat); [done|]. exfalso. apply (Hfirst 3%nat); [lia|reflexivity]. }
    exists q. exact Hrun.
  - exfalso. apply (Hno 3%nat); [vm_compute; lia|reflexivity].
Defined.

(** "a,b" is not split into "a" and "b". *)
Example obsolete_append_pushes_rest : obsolete_sstring_append 8 44 (Sheap {[ 8 := 16 ]} {[ 16 := [97; 44; 98; 0] ]}) = Done [[44; 98]].
Proof. reflexivity. Qed.
