(* ===== verification/Sockets.v ===== *)
(** * Socket I/O of [charming_chatroom/utils.c] and [nonstop_networking/common.c]

    A socket is the bytes still to be received, the bytes sent, and the schedule
    of what the kernel does at the next calls: transfer at most so many bytes,
    fail with [EINTR], fail with another error, or (for [write]) accept nothing.
    At the end of the schedule a call transfers as much as it can; [read] returns
    0 exactly when nothing is left to receive.  Both files hold the same two
    transfer loops. *)

From S2P Require Import Prelude.
Open Scope Z_scope.

Inductive event :=
| Transfer (k : nat)   (* at most [k + 1] bytes *)
| Interrupt
| Fail_call
| Nothing.

Record socket := Socket {
  incoming : list Z;
  outgoing : list Z;
  schedule : list event;
}.

(** What a call returns: bytes transferred, or -1 with [errno = EINTR] or not. *)
Inductive result := Transferred (n : nat) | Interrupted | Failed.

(** How many of [n] bytes the next call transfers, out of [avail]. *)
Definition next_call (avail : nat) (n : Z) (s : list event) : result * list event :=
  let most := Nat.min avail (Z.to_nat n) in
  match s with
  | [] => (Transferred most, [])
  | Transfer k :: s => (Transferred (Nat.min (S k) most), s)
  | Interrupt :: s => (Interrupted, s)
  | Fail_call :: s => (Failed, s)
  | Nothing :: s => (Transferred most, s)
  end.

(** [read(socket, buffer + pos, n)]. *)
Definition c_read (sk : socket) (buffer : list Z) (pos : nat) (n : Z) : outcome (result * list Z * socket) :=
  let (r, sch) := next_call (length (incoming sk)) n (schedule sk) in
  match r with
  | Transferred k =>
      if (pos + k <=? length buffer)%nat then
        Done (r, take pos buffer ++ take k (incoming sk) ++ drop (pos + k) buffer,
              Socket (drop k (incoming sk)) (outgoing sk) sch)
      else Undef
  | _ => Done (r, buffer, Socket (incoming sk) (outgoing sk) sch)
  end.

(** [write(socket, buffer + pos, n)]. *)
Definition c_write (sk : socket) (buffer : list Z) (pos : nat) (n : Z) : outcome (result * socket) :=
  let (r, sch) := match schedule sk with
                  | Nothing :: s => (Transferred 0, s)
                  | s => next_call (Z.to_nat n) n s
                  end in
  match r with
  | Transferred k =>
      if (pos + k <=? length buffer)%nat then
        Done (r, Socket (incoming sk) (outgoing sk ++ take k (drop pos buffer)) sch)
      else Undef
  | _ => Done (r, Socket (incoming sk) (outgoing sk) sch)
  end.

(** ** The transfer loops; the result is the count or -1 *)

Fixpoint read_loop (fuel : nat) (sk : socket) (buffer : list Z) (bytes_read count : Z) : outcome (Z * list Z * socket) :=
  match fuel with
  | O => OutOfFuel
  | S fuel =>
      if bytes_read <? count then
        let remaining_bytes_to_read := u64 (s32 (count - bytes_read)) in
        let! (newly, buffer, sk) := c_read sk buffer (Z.to_nat bytes_read) remaining_bytes_to_read in
        match newly with
        | Transferred O => Done (bytes_read, buffer, sk)
        | Transferred k => read_loop fuel sk buffer (bytes_read + Z.of_nat k) count
        | Interrupted => read_loop fuel sk buffer bytes_read count
        | Failed => Done (-1, buffer, sk)
        end
      else Done (bytes_read, buffer, sk)
  end.

(** A round uses up an event, or the schedule is empty and the loop ends soon. *)
Definition read_from_socket (sk : socket) (buffer : list Z) (count : Z) : outcome (Z * list Z * socket) :=
  read_loop (length (schedule sk) + 3) sk buffer 0 count.

Definition read_all_from_socket := read_from_socket.

Fixpoint write_loop (fuel : nat) (sk : socket) (buffer : list Z) (bytes_wrote count : Z) : outcome (Z * socket) :=
  match fuel with
  | O => OutOfFuel
  | S fuel =>
      if bytes_wrote <? count then
        let remaining_bytes_to_write := u64 (s32 (count - bytes_wrote)) in
        let! (newly, sk) := c_write sk buffer (Z.to_nat bytes_wrote) remaining_bytes_to_write in
        match newly with
        | Transferred O => Done (bytes_wrote, sk)
        | Transferred k => write_loop fuel sk buffer (bytes_wrote + Z.of_nat k) count
        | Interrupted => write_loop fuel sk buffer bytes_wrote count
        | Failed => Done (-1, sk)
        end
      else Done (bytes_wrote, sk)
  end.

Definition write_to_socket (sk : socket) (buffer : list Z) (count : Z) : outcome (Z * socket) :=
  write_loop (length (schedule sk) + 2) sk buffer 0 count.

Definition write_all_to_socket := write_to_socket.

(** ** Message sizes *)

Definition MESSAGE_SIZE_DIGITS : Z := 4.

(** The bytes of a 32-bit value on a little-endian host, and back. *)
Definition le32 (x : Z) : list Z := [x `mod` 256; (x / 256) `mod` 256; (x / 65536) `mod` 256; (x / 16777216) `mod` 256].

Definition le32_value (bs : list Z) : Z :=
  match bs with
  | [a; b; c; d] => a + 256 * b + 65536 * c + 16777216 * d
  | _ => 0
  end.

(** [htonl] and [ntohl]: the bytes reversed. *)
Definition htonl (x : Z) : Z := le32_value (rev (le32 x)).

(** A short read leaves [size] partly unset. *)
Definition get_message_size (sk : socket) : outcome (Z * socket) :=
  let! (read_bytes, bs, sk) := read_all_from_socket sk [0; 0; 0; 0] MESSAGE_SIZE_DIGITS in
  if (read_bytes =? 0) || (read_bytes =? -1) then Done (read_bytes, sk)
  else if read_bytes <? MESSAGE_SIZE_DIGITS then Undef
  else Done (htonl (le32_value bs), sk).

Definition write_message_size (size : Z) (sk : socket) : outcome (Z * socket) :=
  let network_size := htonl (u32 size) in
  write_all_to_socket sk (le32 network_size ++ [0; 0; 0; 0]) MESSAGE_SIZE_DIGITS.

(** [sprintf(msg, "%s: %s", name, message)] into the zeroed buffer: the name, two
    characters, the message and the terminator. *)
Definition create_message (name message : list Z) : outcome (list Z) :=
  let size := (length message + length name + 4)%nat in
  let msg := name ++ [58; 32] ++ message ++ [0] in
  if (length msg <=? size)%nat then Done (msg ++ replicate (size - length msg) 0) else Undef.

(** ** Headers *)

(** [buffer[strlen(buffer) - 1]]. *)
Fixpoint last_char (buffer : list Z) (prev : option Z) : outcome Z :=
  match buffer with
  | [] => Undef
  | c :: buffer => if c =? 0 then deref prev else last_char buffer (Some c)
  end.

Fixpoint header_loop (fuel : nat) (sk : socket) (buffer : list Z) (bytes_read count : Z) : outcome (Z * list Z * socket) :=
  match fuel with
  | O => OutOfFuel
  | S fuel =>
      if bytes_read <? count then
        let! (newly, buffer, sk) := c_read sk buffer (Z.to_nat bytes_read) 1 in
        match newly with
        | Transferred O => Done (bytes_read, buffer, sk)
        | _ =>
            let! c := last_char buffer None in
            if c =? 10 then Done (bytes_read, buffer, sk)
            else match newly with
                 | Transferred k => header_loop fuel sk buffer (bytes_read + Z.of_nat k) count
                 | Interrupted => header_loop fuel sk buffer bytes_read count
                 | Failed => Done (-1, buffer, sk)
                 end
        end
      else Done (bytes_read, buffer, sk)
  end.

Definition read_header_from_socket (sk : socket) (buffer : list Z) (count : Z) : outcome (Z * list Z * socket) :=
  header_loop (length (schedule sk) + Z.to_nat count + 2) sk buffer 0 count.

(** The error printed, if any. *)
Inductive size_error := Connection_closed | Too_little_data | Received_too_much_data.

Definition is_error (read_bytes buffer_size : Z) : option size_error :=
  if (read_bytes =? 0) && negb (read_bytes =? buffer_size) then Some Connection_closed
  else if read_bytes <? buffer_size then Some Too_little_data
  else if buffer_size <? read_bytes then Some Received_too_much_data
  else None.

Definition get_min (x y : Z) : Z := if x <=? y then x else y.
