(* ===== verification/SocketsSpec.v ===== *)
(** * Correctness of the socket I/O

    Whatever sizes the kernel transfers and however often a call is interrupted,
    the loops move exactly the bytes asked for, or all there are, in order; a
    message size written by one side is read back by the other; a header is read
    up to its newline. *)

From stdpp Require Import strings.
From S2P Require Import Prelude Sockets.
Open Scope Z_scope.

(** ** Reading *)

(** [k] bytes have arrived in the buffer at [pos]. *)
Definition received (buffer : list Z) (pos : nat) (sk : socket) (k : nat) : list Z :=
  take pos buffer ++ take k (incoming sk) ++ drop (pos + k) buffer.

Definition after_read (sk : socket) (k : nat) (sch : list event) : socket :=
  Socket (drop k (incoming sk)) (outgoing sk) sch.

Lemma received_0 buffer pos sk : (pos <= length buffer)%nat -> received buffer pos sk 0 = buffer.
Proof. intros. unfold received. rewrite Nat.add_0_r, take_0. apply take_drop. Qed.

Lemma received_length buffer pos sk k :
  (pos + k <= length buffer)%nat -> (k <= length (incoming sk))%nat -> length (received buffer pos sk k) = length buffer.
Proof. intros. unfold received. rewrite !length_app, !length_take, length_drop. lia. Qed.

Lemma received_more buffer pos sk k j sch :
  (pos + k + j <= length buffer)%nat -> (k + j <= length (incoming sk))%nat ->
  received (received buffer pos sk k) (pos + k) (after_read sk k sch) j = received buffer pos sk (k + j).
Proof.
  intros Hb Hi. unfold received, after_read. cbn [incoming].
  assert (Hl1 : length (take pos buffer) = pos) by (rewrite length_take; lia).
  assert (Hl2 : length (take k (incoming sk)) = k) by (rewrite length_take; lia).
  rewrite take_app_ge, Hl1 by (rewrite Hl1; lia). replace (pos + k - pos)%nat with k by lia.
  rewrite take_app_le, take_take, Nat.min_id by (rewrite Hl2; lia).
  rewrite drop_app_ge, Hl1 by (rewrite Hl1; lia). rewrite drop_app_ge, Hl2 by (rewrite Hl2; lia). rewrite drop_drop.
  replace (pos + k + (pos + k + j - pos - k))%nat with (pos + (k + j))%nat by lia.
  rewrite <- (take_take_drop _ k j), <- !app_assoc. done.
Qed.

Lemma after_read_more sk k j sch sch' : after_read (after_read sk k sch) j sch' = after_read sk (k + j) sch'.
Proof. unfold after_read. cbn. by rewrite drop_drop. Qed.

Lemma c_read_ok sk buffer pos n k sch :
  next_call (length (incoming sk)) n (schedule sk) = (Transferred k, sch) -> (pos + k <= length buffer)%nat ->
  c_read sk buffer pos n = Done (Transferred k, received buffer pos sk k, after_read sk k sch).
Proof. intros Hn Hl. unfold c_read. rewrite Hn. by rewrite (proj2 (Nat.leb_le _ _)). Qed.

Lemma next_call_bound avail n s k sch :
  next_call avail n s = (Transferred k, sch) ->
  (k <= avail)%nat /\ (k <= Z.to_nat n)%nat /\ (k = 0%nat -> avail = 0%nat \/ n <= 0)
  /\ (length sch <= length s)%nat /\ (s <> [] -> (length sch < length s)%nat)
  /\ (s = [] -> k = Nat.min avail (Z.to_nat n)).
Proof.
  unfold next_call. assert (Hm : exists m, m = Nat.min avail (Z.to_nat n)) by eauto. destruct Hm as [m Hm]. rewrite <- Hm.
  destruct s as [|[i| | |] s]; intros [= <- <-]; destruct m; cbn [length]; repeat split; intros; first [lia | done].
Qed.

(** How a read loop ends: it failed, or it got all it could. *)
Definition read_outcome (sk : socket) (buffer : list Z) (br count : Z) (o : outcome (Z * list Z * socket)) : Prop :=
  (exists b sk', o = Done (-1, b, sk') /\ Fail_call ∈ schedule sk)
  \/ (let k := Nat.min (Z.to_nat (count - br)) (length (incoming sk)) in
      exists sch, sch ⊆ schedule sk /\ o = Done (br + Z.of_nat k, received buffer (Z.to_nat br) sk k, after_read sk k sch)).

(** One transfer followed by the rest of the loop. *)
Lemma read_outcome_more sk buffer br count k sch o :
  0 <= br -> br + Z.of_nat k <= count -> (k <= length (incoming sk))%nat -> (Z.to_nat count <= length buffer)%nat ->
  (forall e, e ∈ sch -> e ∈ schedule sk) ->
  read_outcome (after_read sk k sch) (received buffer (Z.to_nat br) sk k) (br + Z.of_nat k) count o -> read_outcome sk buffer br count o.
Proof.
  intros Hbr Hk Hi Hb Hs [(b & sk' & -> & Hf)|(sch' & Hsub & ->)]; [left; exists b, sk'; split; [done|]; by apply Hs|right].
  exists sch'. split; [by etrans|]. cbn [incoming after_read]. rewrite length_drop, after_read_more.
  replace (Z.to_nat (br + Z.of_nat k)) with (Z.to_nat br + k)%nat by lia.
  set (j := Nat.min _ _). rewrite received_more by lia.
  replace (Nat.min (Z.to_nat (count - br)) (length (incoming sk))) with (k + j)%nat by lia.
  by replace (br + Z.of_nat k + Z.of_nat j) with (br + Z.of_nat (k + j)) by lia.
Qed.

Lemma read_outcome_end sk buffer br count :
  0 <= br <= count -> (Z.to_nat count <= length buffer)%nat -> br = count \/ incoming sk = [] ->
  forall sch, sch ⊆ schedule sk -> read_outcome sk buffer br count (Done (br, buffer, after_read sk 0 sch)).
Proof.
  intros Hbr Hb He sch Hs. right. exists sch. split; [done|].
  replace (Nat.min (Z.to_nat (count - br)) (length (incoming sk))) with 0%nat by (destruct He as [-> | ->]; cbn; lia).
  by rewrite received_0, Z.add_0_r by lia.
Qed.

(** Calls still needed: one per event, and two with the schedule used up. *)
Definition calls_left (sk : socket) (br count : Z) : nat :=
  length (schedule sk) + (if decide (br = count \/ incoming sk = []) then 0 else 1).

Lemma socket_read_loop_ok fuel sk buffer br count :
  0 <= br <= count -> count < 2 ^ 31 -> (Z.to_nat count <= length buffer)%nat -> (calls_left sk br count + 1 < fuel)%nat ->
  read_outcome sk buffer br count (read_loop fuel sk buffer br count).
Proof.
  revert sk buffer br. induction fuel as [|fuel IH]; intros sk buffer br Hbr Hc Hb Hf; [lia|]. cbn [read_loop].
  destruct (Z.ltb_spec br count) as [Hlt|Hge].
  2:{ replace sk with (after_read sk 0 (schedule sk)) at 2 by (by destruct sk). apply read_outcome_end; [done|done|left; lia|done]. }
  rewrite s32_small, u64_small by lia.
  destruct (next_call (length (incoming sk)) (count - br) (schedule sk)) as [[k| |] sch] eqn:En.
  - destruct (next_call_bound _ _ _ _ _ En) as (Hk1 & Hk2 & Hk0 & Hs1 & Hs2 & Hs3).
    rewrite (c_read_ok sk buffer (Z.to_nat br) (count - br) k sch En) by lia. cbn [obind].
    assert (Hsub : forall e, e ∈ sch -> e ∈ schedule sk).
    { destruct (schedule sk) as [|[] s]; cbn in En; injection En as _ <-; set_solver. }
    destruct k as [|k]; [|].
    + destruct Hk0 as [Hk0|]; [done| |lia]. rewrite received_0 by lia. apply read_outcome_end; [lia|done| |exact Hsub].
      right. by apply nil_length_inv.
    + eapply (read_outcome_more sk buffer br count (S k) sch); [lia|lia|lia|done|done|]. apply IH; [lia|done|rewrite received_length; lia|].
      unfold calls_left in *. cbn [schedule incoming after_read]. destruct (schedule sk) as [|e s] eqn:Es.
      * cbn [length] in *. assert (length sch = 0)%nat as -> by lia.
        rewrite decide_False in Hf by (intros [?|Hnil]; [lia|rewrite Hnil in Hk1; cbn in Hk1; lia]).
        destruct (decide _) as [|Hno]; [lia|]. exfalso. apply Hno. specialize (Hs3 eq_refl).
        destruct (decide (br + Z.of_nat (S k) = count)); [by left|right]. apply nil_length_inv. rewrite length_drop. lia.
      * assert (length sch < length (e :: s))%nat by (by apply Hs2).
        rewrite (decide_False (P := br = count \/ incoming sk = [])) in Hf by (intros [?|Hnil]; [lia|rewrite Hnil in Hk1; cbn in Hk1; lia]).
        destruct (decide _); lia.
  - unfold c_read. rewrite En. cbn [obind].
    eapply (read_outcome_more sk buffer br count 0 sch); try done; try lia.
    + destruct (schedule sk) as [|[] s]; cbn in En; try discriminate En. injection En as <-. set_solver.
    + rewrite Z.add_0_r, received_0 by lia. change (after_read sk 0 sch) with (Socket (incoming sk) (outgoing sk) sch).
      apply IH; try done. unfold calls_left in *. cbn [schedule incoming].
      destruct (schedule sk) as [|[] s]; cbn in En; try discriminate En. injection En as <-. cbn [length] in Hf. lia.
  - unfold c_read. rewrite En. cbn [obind]. left. eexists _, _. split; [done|].
    destruct (schedule sk) as [|[] s]; cbn in En; try discriminate En. left.
Qed.

(** Whatever the kernel does, reading [count] bytes into a large enough buffer
    ends: with -1 only when a call failed with an error other than an
    interruption, and otherwise with the next [count] bytes of the stream, or all
    of them when the peer closed earlier, at the start of the buffer, the rest of
    which is untouched; exactly these bytes are gone from the stream. *)
Theorem read_from_socket_correct sk buffer count :
  0 <= count < 2 ^ 31 -> (Z.to_nat count <= length buffer)%nat ->
  (exists b sk', read_from_socket sk buffer count = Done (-1, b, sk') /\ Fail_call ∈ schedule sk)
  \/ (let k := Nat.min (Z.to_nat count) (length (incoming sk)) in
      exists sch, read_from_socket sk buffer count
        = Done (Z.of_nat k, take k (incoming sk) ++ drop k buffer, Socket (drop k (incoming sk)) (outgoing sk) sch)).
Proof.
  intros Hc Hb. unfold read_from_socket.
  destruct (socket_read_loop_ok (length (schedule sk) + 3) sk buffer 0 count) as [H|(sch & _ & H)]; [lia|lia|done| |by left|].
  - unfold calls_left. destruct (decide _); lia.
  - right. rewrite Z.sub_0_r in H. exists sch. rewrite H. done.
Qed.

Lemma read_from_socket_correct_witness :
  exists sch, read_from_socket (Socket [1; 2; 3; 4; 5] [] [Transfer 0; Interrupt; Transfer 1]) [0; 0; 0; 0; 9] 4
    = Done (4, [1; 2; 3; 4; 9], Socket [5] [] sch).
Proof.
  destruct (read_from_socket_correct (Socket [1; 2; 3; 4; 5] [] [Transfer 0; Interrupt; Transfer 1]) [0; 0; 0; 0; 9] 4)
    as [(b & sk' & _ & Hf)|[sch H]]; [lia|cbn; lia| |].
  - exfalso. cbn in Hf. set_solver.
  - exists sch. exact H.
Defined.

(** ** Writing *)

Definition sent (sk : socket) (buffer : list Z) (pos k : nat) (sch : list event) : socket :=
  Socket (incoming sk) (outgoing sk ++ take k (drop pos buffer)) sch.

(** How a write loop ends. *)
Definition write_outcome (sk : socket) (buffer : list Z) (bw count : Z) (o : outcome (Z * socket)) : Prop :=
  exists r k sch, o = Done (r, sent sk buffer (Z.to_nat bw) k sch) /\ bw + Z.of_nat k <= count /\ sch ⊆ schedule sk
    /\ ((r = -1 /\ Fail_call ∈ schedule sk)
        \/ (r = bw + Z.of_nat k /\ (bw + Z.of_nat k = count \/ Nothing ∈ schedule sk))).

Lemma sent_0 sk buffer pos : sent sk buffer pos 0 (schedule sk) = sk.
Proof. unfold sent. rewrite take_0, app_nil_r. by destruct sk. Qed.

Lemma sent_more sk buffer pos k j sch sch' :
  sent (sent sk buffer pos k sch) buffer (pos + k) j sch' = sent sk buffer pos (k + j) sch'.
Proof. unfold sent. cbn. by rewrite <- app_assoc, <- drop_drop, take_take_drop. Qed.

Lemma write_outcome_more sk buffer bw count k sch o :
  0 <= bw -> (forall e, e ∈ sch -> e ∈ schedule sk) ->
  write_outcome (sent sk buffer (Z.to_nat bw) k sch) buffer (bw + Z.of_nat k) count o -> write_outcome sk buffer bw count o.
Proof.
  intros Hbw Hs (r & j & sch' & -> & Hle & Hsub & Hr). exists r, (k + j)%nat, sch'.
  replace (Z.to_nat (bw + Z.of_nat k)) with (Z.to_nat bw + k)%nat by lia. rewrite sent_more. split; [done|].
  cbn [schedule sent] in Hr, Hsub. split; [lia|]. split; [by etrans|]. destruct Hr as [[-> Hf]|[-> Hr]]; [left; split; [done|by apply Hs]|right].
  split; [lia|]. destruct Hr as [Hr|Hn]; [left; lia|right; by apply Hs].
Qed.

Lemma socket_write_loop_ok fuel sk buffer bw count :
  0 <= bw <= count -> count < 2 ^ 31 -> (Z.to_nat count <= length buffer)%nat ->
  (length (schedule sk) + (if decide (bw = count) then 0 else 1) < fuel)%nat ->
  write_outcome sk buffer bw count (write_loop fuel sk buffer bw count).
Proof.
  revert sk bw. induction fuel as [|fuel IH]; intros sk bw Hbw Hc Hb Hf; [lia|]. cbn [write_loop].
  destruct (Z.ltb_spec bw count) as [Hlt|Hge].
  2:{ exists bw, 0%nat, (schedule sk). rewrite sent_0. split; [done|]. split; [lia|]. split; [done|]. right. split; [lia|left; lia]. }
  rewrite decide_False in Hf by lia. rewrite s32_small, u64_small by lia. set (n := Z.to_nat (count - bw)).
  assert (Hstep : forall (k : nat) (sch : list event), (k <= n)%nat -> (forall e, e ∈ sch -> e ∈ schedule sk) ->
      (length sch + (if decide (bw + Z.of_nat k = count)%Z then 0 else 1) < fuel)%nat ->
      write_outcome sk buffer bw count (write_loop fuel (sent sk buffer (Z.to_nat bw) k sch) buffer (bw + Z.of_nat k) count)).
  { intros k sch Hk Hs Hfk. apply (write_outcome_more sk buffer bw count k sch); [lia|done|]. by apply IH; [lia| | |]. }
  assert (Hfit : forall k, (k <= n)%nat -> (Z.to_nat bw + k <=? length buffer)%nat = true) by (intros; apply Nat.leb_le; lia).
  unfold c_write. fold n. destruct (schedule sk) as [|e s] eqn:Es.
  - unfold next_call. fold n. rewrite Nat.min_id, Hfit by lia. cbn [obind]. fold (sent sk buffer (Z.to_nat bw) n []).
    destruct n as [|n'] eqn:En; [lia|]. apply Hstep; [lia|done|]. rewrite decide_True by lia. cbn [length] in *. lia.
  - assert (Hsub : forall x, x ∈ s -> x ∈ e :: s) by (intros; by right). cbn [length] in Hf.
    destruct e as [i| | |]; unfold next_call; fold n.
    + rewrite Nat.min_id. set (k := Nat.min (S i) n). rewrite Hfit by lia. cbn [obind]. fold (sent sk buffer (Z.to_nat bw) k s).
      destruct k as [|k'] eqn:Ek; [lia|]. apply Hstep; [lia|done|]. destruct (decide _); lia.
    + cbn [obind]. specialize (Hstep 0%nat s). unfold sent in Hstep. rewrite take_0, app_nil_r, Z.add_0_r in Hstep.
      apply Hstep; [lia|done|]. destruct (decide _); lia.
    + cbn [obind]. exists (-1), 0%nat, s. unfold sent. rewrite take_0, app_nil_r. split; [done|]. split; [lia|]. split; [by rewrite Es|].
      left. split; [done|]. rewrite Es. by left.
    + rewrite Hfit by lia. cbn [obind]. exists bw, 0%nat, s. split; [by rewrite ?Z.add_0_r|]. split; [lia|]. split; [by rewrite Es|].
      right. split; [lia|]. right. rewrite Es. by left.
Qed.

(** Writing sends a prefix of the data, in order: all of it unless a call failed
    with an error other than an interruption (the result is then -1) or accepted
    nothing (the result is then the number of bytes sent). *)
Theorem write_to_socket_correct sk buffer count :
  0 <= count < 2 ^ 31 -> (Z.to_nat count <= length buffer)%nat ->
  exists r k sk', write_to_socket sk buffer count = Done (r, sk') /\ Z.of_nat k <= count
    /\ incoming sk' = incoming sk /\ outgoing sk' = outgoing sk ++ take k buffer
    /\ ((r = -1 /\ Fail_call ∈ schedule sk) \/ (r = Z.of_nat k /\ (r = count \/ Nothing ∈ schedule sk))).
Proof.
  intros Hc Hb. destruct (socket_write_loop_ok (length (schedule sk) + 2) sk buffer 0 count) as (r & k & sch & Hrun & Hk & _ & Hr); [lia|lia|done| |].
  - destruct (decide _); lia.
  - exists r, k, (sent sk buffer 0 k sch). split; [exact Hrun|]. split; [lia|]. split; [done|]. split; [done|].
    destruct Hr as [Hr|[-> Hr]]; [by left|right]. split; [lia|]. destruct Hr; [left; lia|by right].
Qed.

Lemma write_to_socket_correct_witness :
  exists r k sk', write_to_socket (Socket [] [] [Transfer 0; Interrupt]) [7; 8; 9] 3 = Done (r, sk')
    /\ outgoing sk' = take k [7; 8; 9] /\ r = 3.
Proof.
  destruct (write_to_socket_correct (Socket [] [] [Transfer 0; Interrupt]) [7; 8; 9] 3) as (r & k & sk' & H & Hk & _ & Ho & Hr); [lia|cbn; lia|].
  exists r, k, sk'. split; [exact H|]. split; [exact Ho|]. destruct Hr as [[_ Hf]|[_ [Hr|Hn]]]; [|exact Hr|]; exfalso; cbn in *; set_solver.
Defined.

(** ** Message sizes *)

Lemma le32_round a b c d :
  0 <= a < 256 -> 0 <= b < 256 -> 0 <= c < 256 -> 0 <= d < 256 -> le32 (le32_value [a; b; c; d]) = [a; b; c; d].
Proof. intros. unfold le32, le32_value. repeat f_equal; Z.div_mod_to_equations; lia. Qed.

Lemma le32_value_round x : 0 <= x < 2 ^ 32 -> le32_value (le32 x) = x.
Proof. intros. unfold le32, le32_value. Z.div_mod_to_equations; lia. Qed.

Lemma le32_bytes x c : c ∈ le32 x -> 0 <= c < 256.
Proof. unfold le32. intros Hc. repeat (apply elem_of_cons in Hc as [->|Hc]; [by apply Z.mod_pos_bound|]). by apply elem_of_nil in Hc. Qed.

Lemma le32_htonl x : le32 (htonl x) = rev (le32 x).
Proof. unfold htonl. cbn [rev app le32]. apply le32_round; by apply Z.mod_pos_bound. Qed.

Lemma htonl_htonl x : 0 <= x < 2 ^ 32 -> htonl (htonl x) = x.
Proof. intros Hx. unfold htonl at 1. rewrite le32_htonl, rev_involutive. by apply le32_value_round. Qed.

(** The size one side writes is the size the other side reads, whatever the
    transfers, and the four bytes are gone from the stream. *)
Theorem message_size_roundtrip size rest s1 s2 :
  0 <= size < 2 ^ 32 -> Fail_call ∉ s1 -> Nothing ∉ s1 -> Fail_call ∉ s2 ->
  exists sk sch, write_message_size size (Socket [] [] s1) = Done (4, sk)
    /\ get_message_size (Socket (outgoing sk ++ rest) [] s2) = Done (size, Socket rest [] sch).
Proof.
  intros Hs Hf1 Hn1 Hf2. unfold write_message_size, write_all_to_socket, MESSAGE_SIZE_DIGITS.
  rewrite (u32_small size) by lia. set (n := htonl size).
  destruct (socket_write_loop_ok (length s1 + 2) (Socket [] [] s1) (le32 n ++ [0; 0; 0; 0]) 0 4) as (r & k & sch & Hrun & Hk & _ & Hr);
    [lia|lia|cbn; lia|cbn [schedule]; destruct (decide _); lia|].
  cbn [schedule] in Hr. destruct Hr as [[_ Hf]|[-> [Hr|Hn]]]; [done| |done].
  assert (k = 4%nat) as -> by lia. exists (sent (Socket [] [] s1) (le32 n ++ [0; 0; 0; 0]) 0 4 sch).
  assert (Hout : outgoing (sent (Socket [] [] s1) (le32 n ++ [0; 0; 0; 0]) 0 4 sch) = le32 n) by done. rewrite Hout.
  unfold get_message_size, read_all_from_socket, MESSAGE_SIZE_DIGITS.
  destruct (socket_read_loop_ok (length s2 + 3) (Socket (le32 n ++ rest) [] s2) [0; 0; 0; 0] 0 4) as [(b & sk' & _ & Hf)|(sch' & _ & Hread)];
    [lia|lia|done| |done|].
  { unfold calls_left. cbn [schedule]. destruct (decide _); lia. }
  exists sch'. split; [exact Hrun|]. unfold read_from_socket. cbn [schedule]. rewrite Hread.
  cbn [incoming]. replace (Nat.min (Z.to_nat (4 - 0)) (length (le32 n ++ rest))) with 4%nat by (rewrite length_app; cbn; lia).
  cbn [obind]. change (0 + Z.of_nat 4 =? 0) with false. change (0 + Z.of_nat 4 =? -1) with false. change (0 + Z.of_nat 4 <? 4) with false.
  cbn [orb]. assert (Hbuf : received [0; 0; 0; 0] (Z.to_nat 0) (Socket (le32 n ++ rest) [] s2) 4 = le32 n) by done. rewrite Hbuf.
  assert (Hn32 : 0 <= n < 2 ^ 32).
  { unfold n, htonl. pose proof (le32_bytes size) as Hb. cbn [rev app le32 le32_value] in *. set_unfold.
    pose proof (Hb (size `mod` 256)). pose proof (Hb ((size / 256) `mod` 256)). pose proof (Hb ((size / 65536) `mod` 256)). pose proof (Hb ((size / 16777216) `mod` 256)). lia. }
  rewrite le32_value_round by done. unfold n at 1. by rewrite htonl_htonl.
Qed.

Lemma message_size_roundtrip_witness :
  exists sk sch, write_message_size 1000 (Socket [] [] [Transfer 1; Interrupt]) = Done (4, sk)
    /\ get_message_size (Socket (outgoing sk ++ [65]) [] [Transfer 0; Transfer 0]) = Done (1000, Socket [65] [] sch).
Proof. apply (message_size_roundtrip 1000 [65]); [lia|set_solver|set_solver|set_solver]. Defined.

(** ** Headers *)

Lemma last_char_ok s junk prev : 0 ∉ s -> s <> [] -> last_char (s ++ 0 :: junk) prev = deref (last s).
Proof.
  revert prev. induction s as [|c s IH]; intros prev Hz Hne; [done|].
  apply not_elem_of_cons in Hz as [Hc Hz]. cbn [app last_char]. rewrite (proj2 (Z.eqb_neq _ _)) by done.
  destruct s as [|d s]; [done|]. by rewrite IH.
Qed.

(** The next call transfers one byte. *)
Definition one_byte (s s1 : list event) : Prop :=
  forall avail, (0 < avail)%nat -> next_call avail 1 s = (Transferred 1, s1).

Lemma one_byte_cases s :
  Fail_call ∉ s -> (exists s1, one_byte s s1 /\ (length s1 <= length s)%nat /\ (forall e, e ∈ s1 -> e ∈ s) /\ (s = [] -> s1 = []) /\ (s <> [] -> (length s1 < length s)%nat))
    \/ (exists s1, s = Interrupt :: s1).
Proof.
  assert (Hmin : forall avail, (0 < avail)%nat -> Nat.min avail (Z.to_nat 1) = 1%nat) by lia.
  destruct s as [|[i| | |] s]; intros Hf; [left; exists []|left; exists s|right; by exists s|set_solver|left; exists s];
    (split; [intros avail Ha; unfold next_call; rewrite (Hmin avail Ha); try done; by destruct i|]); cbn [length]; repeat split; try done; try lia; set_solver.
Qed.

Lemma replicate_zero m : (1 < m)%nat -> replicate (m - 1) 0 = 0 :: replicate (m - 2) 0.
Proof. intros Hm. by replace (m - 1)%nat with (S (m - 2)) by lia. Qed.

Lemma buffer_next got z x : (1 < z)%nat ->
  take (length got) (got ++ replicate z 0) ++ [x] ++ drop (length got + 1) (got ++ replicate z 0) = (got ++ [x]) ++ 0 :: replicate (z - 2) 0.
Proof.
  intros Hz. rewrite take_app_length, drop_app_ge by lia. replace (length got + 1 - length got)%nat with 1%nat by lia.
  by rewrite drop_replicate, replicate_zero, <- app_assoc.
Qed.

(** One round of the loop that reads the byte [x]. *)
Lemma header_step fuel got x rest out s s1 z count :
  0 ∉ got ++ [x] -> one_byte s s1 -> (1 < z)%nat -> Z.of_nat (length got) < count ->
  header_loop (S fuel) (Socket (x :: rest) out s) (got ++ replicate z 0) (Z.of_nat (length got)) count
  = if x =? 10 then Done (Z.of_nat (length got), (got ++ [x]) ++ replicate (z - 1) 0, Socket rest out s1)
    else header_loop fuel (Socket rest out s1) ((got ++ [x]) ++ replicate (z - 1) 0) (Z.of_nat (length (got ++ [x]))) count.
Proof.
  intros Hx Hone Hz Hc. cbn [header_loop]. rewrite (proj2 (Z.ltb_lt _ _)), Nat2Z.id by lia. unfold c_read. cbn [incoming schedule outgoing].
  rewrite Hone by (cbn; lia). rewrite (proj2 (Nat.leb_le _ _)) by (rewrite length_app, length_replicate; lia). cbn [obind].
  change (take 1 (x :: rest)) with [x]. rewrite buffer_next by done. change (drop 1 (x :: rest)) with rest.
  rewrite last_char_ok, last_snoc by (done || by destruct got). cbn [deref obind]. rewrite replicate_zero by done.
  by replace (Z.of_nat (length got) + Z.of_nat 1) with (Z.of_nat (length (got ++ [x]))) by (rewrite length_app; cbn; lia).
Qed.

(** The bytes [got] are in the zeroed buffer, [line] and the newline to come. *)
Lemma header_loop_ok fuel got line rest out s z count :
  0 ∉ got ++ line -> 10 ∉ got ++ line -> Fail_call ∉ s -> (got = [] -> Interrupt ∉ take 1 s) ->
  Z.of_nat (length got + length line) < count -> (length line + 1 < z)%nat -> (length s + length line + 1 < fuel)%nat ->
  exists s', s' ⊆ s /\ header_loop fuel (Socket (line ++ 10 :: rest) out s) (got ++ replicate z 0) (Z.of_nat (length got)) count
    = Done (Z.of_nat (length got + length line), (got ++ line ++ [10]) ++ replicate (z - length line - 1) 0, Socket rest out s').
Proof.
  revert got line s z. induction fuel as [|fuel IH]; intros got line s z Hz Hn Hf Hi Hc Hlz Hfu; [lia|].
  destruct (one_byte_cases s Hf) as [(s1 & Hone & Hle & Hsub & Hnil & Hlt)|[s1 ->]].
  - destruct line as [|x line]; cbn [app length] in *.
    + rewrite (header_step fuel got 10 rest out s s1 z count); [|set_solver|done|lia|lia]. cbn [Z.eqb Pos.eqb].
      exists s1. split; [exact Hsub|]. by rewrite Nat.add_0_r, Nat.sub_0_r.
    + rewrite (header_step fuel got x (line ++ 10 :: rest) out s s1 z count); [|set_solver|done|lia|lia].
      rewrite (proj2 (Z.eqb_neq x 10)) by set_solver.
      destruct (IH (got ++ [x]) line s1 (z - 1)%nat) as (s' & Hsub' & Hrun).
      * by rewrite <- app_assoc.
      * by rewrite <- app_assoc.
      * intros Hin. by apply Hf, Hsub.
      * by destruct got.
      * rewrite length_app. cbn. lia.
      * lia.
      * lia.
      * exists s'. split; [by etrans|]. rewrite Hrun, <- !app_assoc. cbn [app]. f_equal. rewrite length_app. cbn [length].
        replace (length got + 1 + length line)%nat with (length got + S (length line))%nat by lia.
        replace (z - 1 - length line - 1)%nat with (z - S (length line) - 1)%nat by lia. by rewrite <- app_assoc.
  - cbn [header_loop]. rewrite (proj2 (Z.ltb_lt _ _)), Nat2Z.id by lia.
    unfold c_read. cbn [incoming schedule outgoing next_call obind].
    destruct got as [|g got]; [exfalso; apply Hi; [done|cbn; set_solver]|].
    assert (Hrep : replicate z 0 = 0 :: replicate (z - 1) 0) by (destruct z; [lia|]; cbn; by rewrite Nat.sub_0_r).
    assert (Hlast : last_char ((g :: got) ++ replicate z 0) None = deref (last (g :: got)))
      by (rewrite Hrep; apply last_char_ok; [set_solver|done]).
    rewrite Hlast. destruct (last (g :: got)) as [c|] eqn:El; [|by apply last_None in El]. cbn [deref obind].
    assert (c ∈ g :: got) by (by apply last_Some_elem_of in El). rewrite (proj2 (Z.eqb_neq c 10)) by set_solver.
    destruct (IH (g :: got) line s1 z) as (s' & Hsub & Hrun); try done; [set_solver|cbn in *; lia|]. exists s'. split; [set_solver|exact Hrun].
Qed.

(** Reading a header line shorter than the buffer stops behind its newline: the
    result is the length of the line, the buffer holds the line with its newline,
    and the stream goes on with what follows. *)
Theorem read_header_correct line rest out s z count :
  0 ∉ line -> 10 ∉ line -> Fail_call ∉ s -> Interrupt ∉ take 1 s ->
  Z.of_nat (length line) < count -> (length line + 1 < z)%nat ->
  exists s', read_header_from_socket (Socket (line ++ 10 :: rest) out s) (replicate z 0) count
    = Done (Z.of_nat (length line), (line ++ [10]) ++ replicate (z - length line - 1) 0, Socket rest out s').
Proof.
  intros Hz Hn Hf Hi Hc Hl. destruct (header_loop_ok (length s + Z.to_nat count + 2) [] line rest out s z count) as (s' & _ & H); try done; [lia|]. by exists s'.
Qed.

Lemma read_header_correct_witness :
  exists s', read_header_from_socket (Socket (bytes_of_string "GET a" ++ 10 :: [7]) [] [Transfer 5; Interrupt]) (replicate 10 0) 9
    = Done (5, (bytes_of_string "GET a" ++ [10]) ++ replicate 4 0, Socket [7] [] s').
Proof.
  apply (read_header_correct (bytes_of_string "GET a") [7] [] [Transfer 5; Interrupt] 10 9); try (vm_compute; set_solver); vm_compute; lia.
Defined.

(** An interruption before the first byte reads before the buffer. *)
Example header_first_interrupt : read_header_from_socket (Socket [65; 10] [] [Interrupt]) (replicate 10 0) 9 = Undef.
Proof. reflexivity. Qed.
