(* ===== verification/Server.v ===== *)
(** * [nonstop_networking/server.c] and [client.c]

    The server's connection state machine: [server] is its state, [server_event]
    one event [epoll_wait] reports, handled as the loop in [setup_epoll] does.
    Dictionaries come from a prebuilt library, the class [Dict]; the temporary
    directory, reached through stdio and [remove], is the class [TempDir], whose
    paths are the file names behind ["%s/%s"].  The client is a function of the
    socket and of the local file. *)

From stdpp Require Import gmap strings.
From S2P Require Import Prelude CString Callbacks Sockets.
Open Scope Z_scope.

Abbreviation key := (list Z).

Class Dict (K A D : Type) := {
  dictionary_create : D;
  dictionary_at : D -> K -> option A;
  dictionary_set : K -> A -> D -> D;
  dictionary_delete : K -> D -> D;
}.

(** Getting or removing a key that is absent is undefined. *)
Definition dictionary_get {K A D} `{Dict K A D} (d : D) (k : K) : outcome A := deref (dictionary_at d k).

Definition dictionary_remove {K A D} `{Dict K A D} (k : K) (d : D) : outcome D :=
  let! _ := dictionary_get d k in Done (dictionary_delete k d).

(** [fopen_r] gives the bytes a handle opened for reading delivers, [fopen_w]
    creates or truncates, [fwrite_close] is what the handle has written when it is
    closed; [None] is a failure. *)
Class TempDir (F : Type) := {
  fopen_r : F -> key -> option key;
  fopen_w : key -> F -> option F;
  fwrite_close : key -> key -> F -> F;
  remove : key -> F -> option F;
}.

(** ** Constants and sizes *)

Definition MAX_HEADER_LEN : Z := 1024.
Definition MAX_FILENAME : nat := 256.
Definition MAX_ERROR_LEN : Z := 32.

Definition OK : list Z := [79; 75; 10].
Definition ERROR : list Z := [69; 82; 82; 79; 82; 10].
Definition err_bad_request : list Z := [66; 97; 100; 32; 114; 101; 113; 117; 101; 115; 116; 10].
Definition err_bad_file_size : list Z := [66; 97; 100; 32; 102; 105; 108; 101; 32; 115; 105; 122; 101; 10].
Definition err_no_such_file : list Z := [78; 111; 32; 115; 117; 99; 104; 32; 102; 105; 108; 101; 10].

Inductive verb := GET | PUT | DELETE | LIST | V_UNKNOWN.

Definition verb_eqb (a b : verb) : bool :=
  match a, b with
  | GET, GET | PUT, PUT | DELETE, DELETE | LIST, LIST | V_UNKNOWN, V_UNKNOWN => true
  | _, _ => false
  end.

Definition zeroed (n : Z) : list Z := replicate (Z.to_nat n) 0.

(** The bytes of a [size_t] on a little-endian host, and back. *)
Definition le64 (x : Z) : list Z := le32 (x `mod` 4294967296) ++ le32 (x / 4294967296).

Definition le64_value (bs : list Z) : Z := le32_value (take 4 bs) + 4294967296 * le32_value (take 4 (drop 4 bs)).

(** [write_to_socket(fd, s, strlen(s))], the result ignored. *)
Definition send (bs : list Z) (sk : socket) : outcome socket :=
  let! (_, sk) := write_to_socket sk bs (Z.of_nat (length bs)) in Done sk.

(** [strncmp(header, s, strlen(s)) == 0] and [strcmp(header, s) == 0]. *)
Definition has_prefix (s header : list Z) : bool := bool_decide (take (length s) header = s).

Definition cstr_eq (header s : list Z) : bool := bool_decide (until_zero header = s).

(** ** Connections *)

Record client_info := ClientInfo {
  state : Z;
  cmd : verb;
  filename : key;
  header : list Z;
}.

Definition set_state (c : client_info) (st : Z) : client_info := ClientInfo st (cmd c) (filename c) (header c).

(** [calloc(1, sizeof(client_info_t))]. *)
Definition zero_info : client_info := ClientInfo 0 GET [] (zeroed MAX_HEADER_LEN).

Section Server.

Context {SD CD F : Type} {LS : Dict key Z SD} {LC : Dict Z Z CD} {LF : TempDir F}.

(** The files: [file_list], [file_size] and the directory. *)
Record shelf := Shelf {
  file_list : list key;
  file_size : SD;
  temp_dir : F;
}.

(** ** [PUT] *)

Fixpoint put_loop (fuel : nat) (sk : socket) (written : list Z) (bytes_read size : Z) : outcome (Z * list Z * socket) :=
  match fuel with
  | O => OutOfFuel
  | S fuel =>
      if bytes_read <? u64 (size + 1) then
        let bytes_to_read := get_min (u64 (size + 1 - bytes_read)) MAX_HEADER_LEN in
        let! (bytes_read_from_socket, buffer, sk) := read_from_socket sk (zeroed (MAX_HEADER_LEN + 1)) bytes_to_read in
        if bytes_read_from_socket =? -1 then put_loop fuel sk written bytes_read size
        else if bytes_read_from_socket =? 0 then Done (bytes_read, written, sk)
        else put_loop fuel sk (written ++ take (Z.to_nat bytes_read_from_socket) buffer) (u64 (bytes_read + bytes_read_from_socket)) size
      else Done (bytes_read, written, sk)
  end.

(** True on failure.  A round uses up an event or bytes. *)
Definition read_put_from_client (name : key) (sk : socket) (s : shelf) : outcome (bool * socket * shelf) :=
  let read_file := fopen_r (temp_dir s) name in
  match fopen_w name (temp_dir s) with
  | None => Done (true, sk, s)
  | Some dir =>
      let! (_, bytes, sk) := read_from_socket sk (zeroed 8) 8 in
      let size := le64_value bytes in
      let! (bytes_read, written, sk) := put_loop (length (schedule sk) + length (incoming sk) + 2) sk [] 0 size in
      let dir := fwrite_close name written dir in
      match is_error bytes_read size with
      | Some _ => Done (true, sk, Shelf (file_list s) (file_size s) (match remove name dir with Some dir => dir | None => dir end))
      | None =>
          Done (false, sk, Shelf (match read_file with None => file_list s ++ [name] | Some _ => file_list s end)
                             (dictionary_set name size (file_size s)) dir)
      end
  end.

(** ** Reading the header; [test] is the uninitialised array of
    [read_after_newline] *)

Definition read_after_newline (test : list Z) (sk : socket) : outcome (bool * socket) :=
  let! (try_one_more, _, sk) := read_header_from_socket sk test 1 in
  Done (negb (try_one_more =? 0), sk).

(** [strcpy(filename, header + skip)], then the last character dropped. *)
Definition take_filename (skip : nat) (header : list Z) : outcome key :=
  let rest := drop skip header in
  let name := until_zero rest in
  if (length name <? length rest)%nat && (length name <? MAX_FILENAME)%nat then
    match name with [] => Undef | _ => Done (removelast name) end
  else Undef.

Definition read_header (test : list Z) (c : client_info) (sk : socket) (s : shelf) : outcome (client_info * socket * shelf) :=
  let! (bytes_read, header, sk) := read_header_from_socket sk (header c) MAX_HEADER_LEN in
  let c := ClientInfo (state c) (cmd c) (filename c) header in
  if bytes_read =? 1024 then Done (set_state c (-1), sk, s)
  else if has_prefix [71; 69; 84; 32] header then
    let! name := take_filename 4 header in
    let! (more, sk) := read_after_newline test sk in
    Done (ClientInfo (if more then -1 else 1) GET name header, sk, s)
  else if has_prefix [80; 85; 84; 32] header then
    let! name := take_filename 4 header in
    let! (err_put, sk, s) := read_put_from_client name sk s in
    Done (ClientInfo (if err_put then -2 else 1) PUT name header, sk, s)
  else if has_prefix [68; 69; 76; 69; 84; 69; 32] header then
    let! name := take_filename 7 header in
    let! (more, sk) := read_after_newline test sk in
    Done (ClientInfo (if more then -1 else 1) DELETE name header, sk, s)
  else if cstr_eq header [76; 73; 83; 84; 10] then
    let! (more, sk) := read_after_newline test sk in
    Done (ClientInfo (if more then -1 else 1) LIST (filename c) header, sk, s)
  else Done (set_state c (-1), sk, s).

(** ** Executing a request; true is an early return, the connection is kept *)

(** [fread] leaves the rest of the zeroed buffer when the file is too short. *)
Fixpoint write_get_loop (fuel : nat) (sk : socket) (bytes_wrote size : Z) (read_file : list Z) : outcome socket :=
  match fuel with
  | O => OutOfFuel
  | S fuel =>
      if bytes_wrote <? size then
        let new_bytes_wrote := get_min (size - bytes_wrote) MAX_HEADER_LEN in
        let data := take (Z.to_nat new_bytes_wrote) read_file in
        let buffer := data ++ replicate (Z.to_nat new_bytes_wrote - length data) 0 in
        let! sk := send buffer sk in
        write_get_loop fuel sk (bytes_wrote + new_bytes_wrote) size (drop (Z.to_nat new_bytes_wrote) read_file)
      else Done sk
  end.

Definition write_get_to_client (sk : socket) (size : Z) (read_file : list Z) : outcome socket :=
  write_get_loop (S (Z.to_nat (size / MAX_HEADER_LEN + 1))) sk 0 size read_file.

Definition exec_get (c : client_info) (sk : socket) (s : shelf) : outcome (bool * client_info * socket) :=
  match fopen_r (temp_dir s) (filename c) with
  | None => Done (true, set_state c (-3), sk)
  | Some read_file =>
      let! sk := send OK sk in
      match filename c with
      | [] => Done (true, set_state c (-1), sk)
      | _ =>
          let! size := dictionary_get (file_size s) (filename c) in
          let! sk := send (le64 size) sk in
          let! sk := write_get_to_client sk size read_file in
          Done (false, c, sk)
      end
  end.

Fixpoint send_names (names : list key) (sk : socket) : outcome socket :=
  match names with
  | [] => Done sk
  | [name] => send name sk
  | name :: names => let! sk := send name sk in let! sk := send [10] sk in send_names names sk
  end.

Definition exec_list (sk : socket) (s : shelf) : outcome socket :=
  let! sk := send OK sk in
  let size := fold_left (fun size name => u64 (size + Z.of_nat (length name) + 1)) (file_list s) 0 in
  let size := if size =? 0 then size else size - 1 in
  let! sk := send (le64 size) sk in
  send_names (file_list s) sk.

(** The position of a name, or the number of names. *)
Fixpoint find_name (name : key) (l : list key) : nat :=
  match l with
  | [] => O
  | n :: l => if strcmp n name =? 0 then O else S (find_name name l)
  end.

Definition exec_delete (c : client_info) (sk : socket) (s : shelf) : outcome (bool * client_info * socket * shelf) :=
  match remove (filename c) (temp_dir s) with
  | None => Done (true, set_state c (-3), sk, s)
  | Some dir =>
      let id := find_name (filename c) (file_list s) in
      if (id =? length (file_list s))%nat then Done (true, set_state c (-3), sk, Shelf (file_list s) (file_size s) dir)
      else
        let! sk := send OK sk in
        let! sizes := dictionary_remove (filename c) (file_size s) in
        Done (false, c, sk, Shelf (take id (file_list s) ++ drop (S id) (file_list s)) sizes dir)
  end.

(** True when the connection is kept for [handle_errors]. *)
Definition exec_cmd (c : client_info) (sk : socket) (s : shelf) : outcome (bool * client_info * socket * shelf) :=
  match cmd c with
  | GET => let! (err, c, sk) := exec_get c sk s in Done (err, c, sk, s)
  | PUT => let! sk := send OK sk in Done (false, c, sk, s)
  | LIST => let! sk := exec_list sk s in Done (false, c, sk, s)
  | DELETE => exec_delete c sk s
  | V_UNKNOWN => Done (false, c, sk, s)
  end.

Definition handle_errors (c : client_info) (sk : socket) : outcome socket :=
  let! sk := send ERROR sk in
  send (if state c =? -1 then err_bad_request else if state c =? -2 then err_bad_file_size else err_no_such_file) sk.

(** ** The event loop *)

(** What [epoll] watches a descriptor for. *)
Inductive watched := EPOLLIN | EPOLLOUT.

(** [client_dict] maps a descriptor to the address of its [client_info_t] in [heap];
    [closed] are the connections closed, each with all that was sent on it. *)
Record server := Server {
  files : shelf;
  client_dict : CD;
  heap : gmap Z client_info;
  sockets : gmap Z socket;
  interest : gmap Z watched;
  closed : list (Z * list Z);
}.

Definition clean_client (fd p : Z) (sk : socket) (s : server) : outcome server :=
  if decide (is_Some (heap s !! p)) then
    let! clients := dictionary_remove fd (client_dict s) in
    Done (Server (files s) clients (delete p (heap s)) (delete fd (sockets s)) (delete fd (interest s)) (closed s ++ [(fd, outgoing sk)]))
  else Undef.

Definition run_client (test : list Z) (fd : Z) (s : server) : outcome server :=
  let! p := dictionary_get (client_dict s) fd in
  let! c := deref (heap s !! p) in
  let! sk := deref (sockets s !! fd) in
  if state c =? 0 then
    let! (c, sk, files) := read_header test c sk (files s) in
    Done (Server files (client_dict s) (<[p := c]> (heap s)) (<[fd := sk]> (sockets s)) (<[fd := EPOLLOUT]> (interest s)) (closed s))
  else if state c =? 1 then
    let! (err, c, sk, files) := exec_cmd c sk (files s) in
    let s := Server files (client_dict s) (<[p := c]> (heap s)) (<[fd := sk]> (sockets s)) (interest s) (closed s) in
    if err then Done s else clean_client fd p sk s
  else
    let! sk := handle_errors c sk in
    clean_client fd p sk s.

(** The listening socket is ready and [accept] returns [fd], on which [sk] will
    arrive; or a connection is ready. *)
Inductive server_event_kind :=
| Connect (fd : Z) (sk : socket)
| Ready (fd : Z).

Definition server_event (test : list Z) (e : server_event_kind) (s : server) : outcome server :=
  match e with
  | Connect fd sk =>
      let p := next_address (heap s) 0 in
      Done (Server (files s) (dictionary_set fd p (client_dict s)) (<[p := zero_info]> (heap s))
              (<[fd := sk]> (sockets s)) (<[fd := EPOLLIN]> (interest s)) (closed s))
  | Ready fd => run_client test fd s
  end.

Fixpoint server_run (test : list Z) (es : list server_event_kind) (s : server) : outcome server :=
  match es with
  | [] => Done s
  | e :: es => let! s := server_event test e s in server_run test es s
  end.

(** [setup_global_variables] and [setup_dir]. *)
Definition server_start (dir : F) : server :=
  Server (Shelf [] dictionary_create dir) dictionary_create ∅ ∅ ∅ [].

End Server.
