(* ===== verification/ServerSpec.v ===== *)
(** * The file server refines an abstract store

    Whatever the sizes of the transfers and the interleaving of the connections, the
    server answers well-formed requests as a map from names to contents would, with
    [PUT] taking effect when its data has been read and [GET], [LIST] and [DELETE]
    when they are answered; it keeps no connection and no memory behind. *)

From stdpp Require Import gmap strings.
From S2P Require Import Prelude CString Callbacks Sockets SocketsSpec Server.
Open Scope Z_scope.

(** ** Calls that are neither interrupted nor fail *)

Definition smooth (s : list event) : Prop := forall e, e ∈ s -> exists k, e = Transfer k.

Lemma smooth_sub s s' : smooth s -> s' ⊆ s -> smooth s'.
Proof. intros H Hs e He. by apply H, Hs. Qed.

Lemma smooth_not e s : smooth s -> match e with Transfer _ => True | _ => e ∉ s end.
Proof. intros H. destruct e; try done; intros Hin; by destruct (H _ Hin). Qed.

Lemma smooth_call avail n s : smooth s -> exists k sch, next_call avail n s = (Transferred k, sch) /\ smooth sch.
Proof.
  intros Hs. destruct s as [|e s]; [by eexists _, []|]. destruct (Hs e) as [k ->]; [by left|].
  eexists _, s. split; [done|]. intros e He. apply Hs. by right.
Qed.

Lemma write_ok bs sk : smooth (schedule sk) -> Z.of_nat (length bs) < 2 ^ 31 ->
  exists sch, write_to_socket sk bs (Z.of_nat (length bs)) = Done (Z.of_nat (length bs), Socket (incoming sk) (outgoing sk ++ bs) sch) /\ smooth sch.
Proof.
  intros Hs Hl. unfold write_to_socket.
  destruct (socket_write_loop_ok (length (schedule sk) + 2) sk bs 0 (Z.of_nat (length bs))) as (r & k & sch & -> & Hk & Hsub & Hr); [lia|lia|lia| |].
  { destruct (decide _); lia. }
  exists sch. split; [|by eapply smooth_sub]. unfold sent. rewrite drop_0.
  destruct Hr as [[_ Hf]|[-> [Hr|Hn]]]; [by destruct (smooth_not Fail_call _ Hs Hf)| |by destruct (smooth_not Nothing _ Hs Hn)].
  rewrite Hr, take_ge by lia. done.
Qed.

Lemma send_ok bs sk : smooth (schedule sk) -> Z.of_nat (length bs) < 2 ^ 31 ->
  exists sch, send bs sk = Done (Socket (incoming sk) (outgoing sk ++ bs) sch) /\ smooth sch.
Proof. intros Hs Hl. unfold send. destruct (write_ok bs sk Hs Hl) as (sch & -> & H). by exists sch. Qed.

Lemma sock_read_ok sk buffer count : smooth (schedule sk) -> 0 <= count < 2 ^ 31 -> count <= Z.of_nat (length buffer) ->
  let k := Nat.min (Z.to_nat count) (length (incoming sk)) in
  exists sch, read_from_socket sk buffer count = Done (Z.of_nat k, take k (incoming sk) ++ drop k buffer, Socket (drop k (incoming sk)) (outgoing sk) sch)
    /\ smooth sch.
Proof.
  intros Hs Hc Hb k. unfold read_from_socket.
  destruct (socket_read_loop_ok (length (schedule sk) + 3) sk buffer 0 count) as [(b & sk' & _ & Hf)|(sch & Hsub & Hrun)]; [lia|lia|lia| | |].
  { unfold calls_left. destruct (decide _); lia. }
  { by destruct (smooth_not Fail_call _ Hs Hf). }
  exists sch. split; [|by eapply smooth_sub]. rewrite Hrun, Z.sub_0_r. done.
Qed.

Lemma line_ok line rest out s : smooth s -> 0 ∉ line -> 10 ∉ line -> (length line < 1000)%nat ->
  exists s', read_header_from_socket (Socket (line ++ 10 :: rest) out s) (zeroed MAX_HEADER_LEN) MAX_HEADER_LEN
    = Done (Z.of_nat (length line), (line ++ [10]) ++ replicate (Z.to_nat 1024 - length line - 1) 0, Socket rest out s') /\ smooth s'.
Proof.
  intros Hs H0 H10 Hl. unfold read_header_from_socket, MAX_HEADER_LEN, zeroed. cbn [schedule].
  destruct (header_loop_ok (length s + Z.to_nat 1024 + 2) [] line rest out s (Z.to_nat 1024) 1024) as (s' & Hsub & Hrun); try done; try lia.
  - exact (smooth_not Fail_call s Hs).
  - intros _ Hin. apply (smooth_not Interrupt s Hs). by apply elem_of_take in Hin as (i & Hi%list_elem_of_lookup_2 & _).
  - cbn [length]. lia.
  - exists s'. split; [exact Hrun|by eapply smooth_sub].
Qed.

(** Nothing follows the line. *)
Lemma no_more_ok test out s : smooth s -> exists s', read_after_newline test (Socket [] out s) = Done (false, Socket [] out s') /\ smooth s'.
Proof.
  intros Hs. unfold read_after_newline, read_header_from_socket. cbn [schedule].
  replace (length s + Z.to_nat 1 + 2)%nat with (S (length s + 2)) by lia. cbn [header_loop]. rewrite (proj2 (Z.ltb_lt 0 1)) by lia.
  unfold c_read. cbn [incoming schedule length outgoing].
  destruct (smooth_call 0 1 s Hs) as (k & sch & Hn & Hsch). rewrite Hn. destruct (next_call_bound _ _ _ _ _ Hn) as (Hk & _). assert (k = 0)%nat as -> by lia.
  rewrite (proj2 (Nat.leb_le _ _)) by (cbn; lia). cbn [obind]. exists sch. split; [|done]. by rewrite drop_nil.
Qed.

(** ** Sizes *)

Lemma length_le64 x : length (le64 x) = 8%nat.
Proof. done. Qed.

Lemma le64_value_round x : 0 <= x < 2 ^ 64 -> le64_value (le64 x) = x.
Proof.
  intros Hx. unfold le64, le64_value. rewrite take_app_length' by done. rewrite drop_app_length' by done. rewrite take_ge by done.
  rewrite !le32_value_round by (Z.div_mod_to_equations; lia). Z.div_mod_to_equations; lia.
Qed.

(** The loop reads the data, but at most one byte more than announced. *)
Lemma put_loop_ok fuel d out s got size : smooth s -> 0 <= size < 2 ^ 63 -> Z.of_nat (length got) <= size + 1 -> (length d + 1 < fuel)%nat ->
  let k := Nat.min (length d) (Z.to_nat (size + 1) - length got) in
  exists s', put_loop fuel (Socket d out s) got (Z.of_nat (length got)) size
    = Done (Z.of_nat (length got + k), got ++ take k d, Socket (drop k d) out s') /\ smooth s'.
Proof.
  revert d s got. induction fuel as [|fuel IH]; intros d s got Hs Hsize Hlen Hf k; [lia|]. cbn [put_loop].
  rewrite (u64_small (size + 1)) by lia. destruct (Z.ltb_spec (Z.of_nat (length got)) (size + 1)) as [Hlt|Hge].
  2:{ replace k with 0%nat by lia. exists s. by rewrite take_0, drop_0, app_nil_r, Nat.add_0_r. }
  rewrite u64_small by lia. set (n := get_min (size + 1 - Z.of_nat (length got)) MAX_HEADER_LEN).
  assert (Hn : 1 <= n <= 1024 /\ n <= size + 1 - Z.of_nat (length got)) by (unfold n, get_min, MAX_HEADER_LEN; case_bool; lia).
  destruct (sock_read_ok (Socket d out s) (zeroed (MAX_HEADER_LEN + 1)) n) as (s' & -> & Hs'); [done|lia|unfold zeroed, MAX_HEADER_LEN; rewrite length_replicate; lia|].
  cbn [obind incoming outgoing]. set (j := Nat.min (Z.to_nat n) (length d)). rewrite (proj2 (Z.eqb_neq (Z.of_nat j) (-1))) by lia.
  destruct (Z.eqb_spec (Z.of_nat j) 0) as [Hj|Hj].
  - assert (d = []) as -> by (apply nil_length_inv; lia). unfold k, j. cbn [length Nat.min]. rewrite drop_nil, take_nil, app_nil_r, Nat.add_0_r. by exists s'.
  - rewrite u64_small by lia. rewrite Nat2Z.id, take_app_le, take_take, Nat.min_id by (rewrite length_take; lia).
    assert (Hl : length (take j d) = j) by (rewrite length_take; lia).
    destruct (IH (drop j d) s' (got ++ take j d)) as (s'' & Hrun & Hs''); [done|done|rewrite length_app, Hl; lia|rewrite length_drop; lia|].
    rewrite length_app, Hl, length_drop, Nat2Z.inj_add in Hrun. rewrite Hrun. exists s''. split; [|done].
    set (i := Nat.min _ _). replace k with (j + i)%nat by lia. rewrite <- app_assoc, take_take_drop, drop_drop. by rewrite Nat.add_assoc.
Qed.

(** A file of the recorded size is sent whole. *)
Lemma write_get_loop_ok fuel sk bw file : smooth (schedule sk) -> 0 <= bw -> bw + Z.of_nat (length file) < 2 ^ 63 ->
  Z.of_nat (length file) <= 1024 * (Z.of_nat fuel - 1) ->
  exists sch, write_get_loop fuel sk bw (bw + Z.of_nat (length file)) file = Done (Socket (incoming sk) (outgoing sk ++ file) sch) /\ smooth sch.
Proof.
  revert sk bw file. induction fuel as [|fuel IH]; intros sk bw file Hs Hbw Hl Hf; [lia|]. cbn [write_get_loop].
  destruct (Z.ltb_spec bw (bw + Z.of_nat (length file))) as [Hlt|Hge].
  - set (n := get_min (bw + Z.of_nat (length file) - bw) MAX_HEADER_LEN).
    assert (Hn : 1 <= n <= 1024 /\ n <= Z.of_nat (length file) /\ (n = 1024 \/ n = Z.of_nat (length file))) by (unfold n, get_min, MAX_HEADER_LEN; case_bool; lia).
    assert (Hlt' : length (take (Z.to_nat n) file) = Z.to_nat n) by (rewrite length_take; lia). rewrite Hlt', Nat.sub_diag, app_nil_r.
    destruct (send_ok (take (Z.to_nat n) file) sk) as (sch & -> & Hsch); [done|lia|]. cbn [obind].
    destruct (IH (Socket (incoming sk) (outgoing sk ++ take (Z.to_nat n) file) sch) (bw + n) (drop (Z.to_nat n) file)) as (sch' & Hrun & Hsch'); [done|lia|rewrite length_drop; lia|rewrite length_drop; lia|].
    exists sch'. replace (bw + n + Z.of_nat (length (drop (Z.to_nat n) file))) with (bw + Z.of_nat (length file)) in Hrun by (rewrite length_drop; lia).
    rewrite Hrun. cbn [incoming outgoing]. by rewrite <- app_assoc, take_drop.
  - assert (file = []) as -> by (apply nil_length_inv; lia). exists (schedule sk). rewrite app_nil_r. by destruct sk.
Qed.

Lemma write_get_ok sk file : smooth (schedule sk) -> Z.of_nat (length file) < 2 ^ 63 ->
  exists sch, write_get_to_client sk (Z.of_nat (length file)) file = Done (Socket (incoming sk) (outgoing sk ++ file) sch) /\ smooth sch.
Proof.
  intros Hs Hl. unfold write_get_to_client, MAX_HEADER_LEN.
  destruct (write_get_loop_ok (S (Z.to_nat (Z.of_nat (length file) / 1024 + 1))) sk 0 file Hs) as (sch & H); [lia|lia| |by exists sch].
  Z.div_mod_to_equations; lia.
Qed.

(** The names with newlines in between. *)
Fixpoint lines (names : list key) : list Z :=
  match names with
  | [] => []
  | [name] => name
  | name :: names => name ++ [10] ++ lines names
  end.

Lemma send_names_ok names sk : smooth (schedule sk) -> (forall n, n ∈ names -> (length n < 1000)%nat) ->
  exists sch, send_names names sk = Done (Socket (incoming sk) (outgoing sk ++ lines names) sch) /\ smooth sch.
Proof.
  revert sk. induction names as [|n names IH]; intros sk Hs Hl.
  { exists (schedule sk). cbn. rewrite app_nil_r. by destruct sk. }
  destruct (send_ok n sk) as (s1 & Hsend & H1); [done|pose proof (Hl n ltac:(by left)); lia|]. destruct names as [|n' names].
  { cbn [send_names]. rewrite Hsend. by exists s1. }
  change (send_names (n :: n' :: names) sk) with (let! sk := send n sk in let! sk := send [10] sk in send_names (n' :: names) sk).
  rewrite Hsend. cbn [obind]. destruct (send_ok [10] (Socket (incoming sk) (outgoing sk ++ n) s1)) as (s2 & -> & H2); [done|cbn; lia|]. cbn [obind incoming outgoing].
  destruct (IH (Socket (incoming sk) ((outgoing sk ++ n) ++ [10]) s2)) as (s3 & -> & H3); [done|intros m Hm; apply Hl; by right|].
  exists s3. split; [|done]. cbn [incoming outgoing]. by rewrite <- !app_assoc.
Qed.

Lemma find_name_spec n l : ((n ∉ l) /\ find_name n l = length l)
  \/ exists l1 l2, l = l1 ++ n :: l2 /\ find_name n l = length l1.
Proof.
  induction l as [|m l IH]; cbn [find_name]; [left; split; [set_solver|done]|]. destruct (Z.eqb_spec (strcmp m n) 0) as [E|E].
  - apply strcmp_zero in E as ->. right. by exists [], l.
  - assert (n <> m) by (intros ->; by rewrite strcmp_refl in E). destruct IH as [[Hn ->]|(l1 & l2 & -> & ->)].
    + left. split; [set_solver|done].
    + right. by exists (m :: l1), l2.
Qed.

(** ** Requests *)

(** A name of a file in the directory itself that fits [filename] with the newline. *)
Definition plain (n : key) : Prop := n <> [] /\ (0 ∉ n) /\ (10 ∉ n) /\ (47 ∉ n) /\ n <> [46] /\ n <> [46; 46] /\ (length n <= 254)%nat.

Inductive request :=
| RGet (n : key)
| RPut (n d : key)
| RList
| RDelete (n : key).

Definition valid (r : request) : Prop :=
  match r with
  | RGet n | RDelete n => plain n
  | RPut n d => plain n /\ Z.of_nat (length d) < 2 ^ 62
  | RList => True
  end.

Definition verb_of (r : request) : verb :=
  match r with RGet _ => GET | RPut _ _ => PUT | RList => LIST | RDelete _ => DELETE end.

Definition name_of (r : request) : key :=
  match r with RGet n | RPut n _ | RDelete n => n | RList => [] end.

(** "GET ", "PUT ", "DELETE " and "LIST". *)
Definition word (v : verb) : list Z :=
  match v with
  | GET => [71; 69; 84; 32]
  | PUT => [80; 85; 84; 32]
  | DELETE => [68; 69; 76; 69; 84; 69; 32]
  | LIST | V_UNKNOWN => [76; 73; 83; 84]
  end.

Definition body (r : request) : list Z := match r with RPut _ d => le64 (Z.of_nat (length d)) ++ d | _ => [] end.

Definition request_bytes (r : request) : list Z := (word (verb_of r) ++ name_of r) ++ 10 :: body r.

Lemma take_filename_ok w n junk : 0 ∉ n -> (length n <= 254)%nat -> take_filename (length w) ((w ++ n ++ [10]) ++ 0 :: junk) = Done n.
Proof.
  intros H0 Hl. unfold take_filename. rewrite <- app_assoc, drop_app_length. rewrite until_zero_app by set_solver.
  rewrite !length_app. cbn [length]. rewrite (proj2 (Nat.ltb_lt _ _)) by lia. rewrite (proj2 (Nat.ltb_lt _ _)) by (unfold MAX_FILENAME; lia).
  cbn [andb]. destruct (n ++ [10]) eqn:E; [by destruct n|]. rewrite <- E. by rewrite removelast_last.
Qed.

(** ** The abstract store *)

(** A connection: its request is on its way, is to be answered, or has failed. *)
Inductive phase := Asked (r : request) | Answering (r : request) | Failing.

Record spec := Spec {
  names : list key;
  contents : gmap key key;
  pending : gmap Z phase;
  answers : list (Z * list Z);
}.

Definition list_size (l : list key) : Z :=
  let size := fold_left (fun size name => u64 (size + Z.of_nat (length name) + 1)) l 0 in
  if size =? 0 then size else size - 1.

Definition answer (t : spec) (r : request) : option (list Z) :=
  match r with
  | RGet n => d ← contents t !! n; Some (OK ++ le64 (Z.of_nat (length d)) ++ d)
  | RPut _ _ => Some OK
  | RList => Some (OK ++ le64 (list_size (names t)) ++ lines (names t))
  | RDelete n => d ← contents t !! n; Some OK
  end.

Definition no_such_file : list Z := ERROR ++ err_no_such_file.

Definition set_phase (fd : Z) (p : phase) (t : spec) : spec := Spec (names t) (contents t) (<[fd := p]> (pending t)) (answers t).

Definition finish (fd : Z) (a : list Z) (t : spec) : spec := Spec (names t) (contents t) (delete fd (pending t)) (answers t ++ [(fd, a)]).

Definition asked (r : request) (t : spec) : spec :=
  match r with
  | RPut n d => Spec (if decide (n ∈ names t) then names t else names t ++ [n]) (<[n := d]> (contents t)) (pending t) (answers t)
  | _ => t
  end.

Definition answered (r : request) (t : spec) : spec :=
  match r with
  | RDelete n => Spec (filter (fun m => m <> n) (names t)) (delete n (contents t)) (pending t) (answers t)
  | _ => t
  end.

(** The events of the network: a connection on which [r] will arrive, or the server's
    turn on a connection. *)
Inductive net_event :=
| NConnect (fd : Z) (r : request) (sch : list event)
| NReady (fd : Z).

Definition spec_event (e : net_event) (t : spec) : spec :=
  match e with
  | NConnect fd r _ => set_phase fd (Asked r) t
  | NReady fd =>
      match pending t !! fd with
      | Some (Asked r) => set_phase fd (Answering r) (asked r t)
      | Some (Answering r) => match answer t r with Some a => finish fd a (answered r t) | None => set_phase fd Failing t end
      | Some Failing => finish fd no_such_file t
      | None => t
      end
  end.

Definition to_server (e : net_event) : server_event_kind :=
  match e with
  | NConnect fd r sch => Connect fd (Socket (request_bytes r) [] sch)
  | NReady fd => Ready fd
  end.

(** New descriptors are fresh, requests well formed, and only open connections become ready. *)
Definition allowed (e : net_event) (t : spec) : Prop :=
  match e with
  | NConnect fd r sch => pending t !! fd = None /\ valid r /\ smooth sch
  | NReady fd => is_Some (pending t !! fd)
  end.

Fixpoint allowed_run (es : list net_event) (t : spec) : Prop :=
  match es with
  | [] => True
  | e :: es => allowed e t /\ allowed_run es (spec_event e t)
  end.

Fixpoint spec_run (es : list net_event) (t : spec) : spec :=
  match es with
  | [] => t
  | e :: es => spec_run es (spec_event e t)
  end.

Definition spec_start : spec := Spec [] ∅ ∅ [].

(** ** What the libraries and the file system document *)

Class DictLaws (K A D : Type) `{EqDecision K} `{Dict K A D} : Prop := {
  dict_create_at : forall k, dictionary_at dictionary_create k = None;
  dict_set_at : forall d k a j, dictionary_at (dictionary_set k a d) j = if decide (j = k) then Some a else dictionary_at d j;
  dict_delete_at : forall d k j, dictionary_at (dictionary_delete k d) j = if decide (j = k) then None else dictionary_at d j;
}.

(** The server may create and remove files in its directory; what is written to a
    file is what is read from it. *)
Class TempDirLaws (F : Type) `{TempDir F} : Prop := {
  fopen_w_plain : forall (d : F) n, plain n -> exists d', fopen_w n d = Some d';
  written_read : forall (d d' : F) n bs m, plain n -> plain m -> fopen_w n d = Some d' ->
    fopen_r (fwrite_close n bs d') m = if decide (m = n) then Some bs else fopen_r d m;
  remove_absent : forall (d : F) n, plain n -> fopen_r d n = None -> remove n d = None;
  remove_present : forall (d : F) n, plain n -> is_Some (fopen_r d n) ->
    exists d', remove n d = Some d' /\ forall m, plain m -> fopen_r d' m = if decide (m = n) then None else fopen_r d m;
}.

Section Refinement.

Context {SD CD F : Type} {LS : Dict key Z SD} {LC : Dict Z Z CD} {LF : TempDir F}.
Context {HS : DictLaws key Z SD} {HC : DictLaws Z Z CD} {HF : TempDirLaws F}.

Abbreviation shelf := (shelf (SD := SD) (F := F)).
Abbreviation server := (server (SD := SD) (CD := CD) (F := F)).

(** ** The simulation *)

(** The files are the store. *)
Record shelved (s : shelf) (t : spec) : Prop := {
  sh_names : file_list s = names t;
  sh_nodup : NoDup (names t);
  sh_dom n : n ∈ names t <-> is_Some (contents t !! n);
  sh_plain n : n ∈ names t -> plain n;
  sh_length n d : contents t !! n = Some d -> Z.of_nat (length d) < 2 ^ 62;
  sh_dir n : plain n -> fopen_r (temp_dir s) n = contents t !! n;
  sh_size n : plain n -> dictionary_at (file_size s) n = (fun d => Z.of_nat (length d)) <$> contents t !! n;
}.

(** A connection in the given phase. *)
Definition phase_ok (ph : phase) (c : client_info) (sk : socket) (w : watched) : Prop :=
  smooth (schedule sk) /\ outgoing sk = [] /\
  match ph with
  | Asked r => valid r /\ c = zero_info /\ incoming sk = request_bytes r /\ w = EPOLLIN
  | Answering r => valid r /\ state c = 1 /\ cmd c = verb_of r /\ filename c = name_of r /\ w = EPOLLOUT
  | Failing => state c = -3 /\ w = EPOLLOUT
  end.

(** The open connections are the pending ones, each with an object of its own; there
    are no other objects. *)
Record connected (s : server) (t : spec) : Prop := {
  cn_open fd ph : pending t !! fd = Some ph -> exists p c sk w,
    dictionary_at (client_dict s) fd = Some p /\ heap s !! p = Some c /\ sockets s !! fd = Some sk /\ interest s !! fd = Some w /\ phase_ok ph c sk w;
  cn_none fd : pending t !! fd = None -> dictionary_at (client_dict s) fd = None /\ sockets s !! fd = None /\ interest s !! fd = None;
  cn_inj fd fd' p : dictionary_at (client_dict s) fd = Some p -> dictionary_at (client_dict s) fd' = Some p -> fd = fd';
  cn_heap p : is_Some (heap s !! p) -> exists fd, dictionary_at (client_dict s) fd = Some p;
  cn_log : closed s = answers t;
}.

(** *** Connections *)

Lemma connected_files s t f nm ct : connected s t ->
  connected (Server f (client_dict s) (heap s) (sockets s) (interest s) (closed s)) (Spec nm ct (pending t) (answers t)).
Proof. intros [H1 H2 H3 H4 H5]. by split. Qed.

Lemma open_pending s t fd p : connected s t -> dictionary_at (client_dict s) fd = Some p -> is_Some (pending t !! fd).
Proof. intros Hc Hp. destruct (pending t !! fd) eqn:E; [eauto|]. destruct (cn_none _ _ Hc fd E) as [H _]. congruence. Qed.

(** One connection changes. *)
Lemma connected_update s t fd p c sk w ph : connected s t -> dictionary_at (client_dict s) fd = Some p -> is_Some (heap s !! p) -> phase_ok ph c sk w ->
  connected (Server (files s) (client_dict s) (<[p := c]> (heap s)) (<[fd := sk]> (sockets s)) (<[fd := w]> (interest s)) (closed s)) (set_phase fd ph t).
Proof.
  intros Hc Hp Hh Hph. split; cbn.
  - intros fd' ph'. destruct (decide (fd' = fd)) as [->|Hne].
    + rewrite !lookup_insert_eq. intros [= <-]. exists p, c, sk, w. by rewrite lookup_insert_eq.
    + rewrite !lookup_insert_ne by done. intros Hpd. destruct (cn_open _ _ Hc fd' ph' Hpd) as (p' & c' & sk' & w' & H1 & H2 & H3 & H4 & H5).
      exists p', c', sk', w'. rewrite lookup_insert_ne; [done|]. intros <-. apply Hne. by eapply cn_inj.
  - intros fd' Hn. apply lookup_insert_None in Hn as [Hn Hne]. rewrite !lookup_insert_ne by done. by apply (cn_none _ _ Hc).
  - apply (cn_inj _ _ Hc).
  - intros p' Hp'. destruct (decide (p' = p)) as [->|Hne]; [by exists fd|]. rewrite lookup_insert_ne in Hp' by done. by apply (cn_heap _ _ Hc).
  - apply (cn_log _ _ Hc).
Qed.

Lemma clean_client_ok s t fd p sk : connected s t -> dictionary_at (client_dict s) fd = Some p ->
  exists s', clean_client fd p sk s = Done s' /\ files s' = files s /\ connected s' (finish fd (outgoing sk) t).
Proof.
  intros Hc Hp. destruct (open_pending s t fd p Hc Hp) as [ph Hph]. destruct (cn_open _ _ Hc fd ph Hph) as (p' & c & sk' & w & Hp' & Hh & _).
  assert (p' = p) as -> by congruence. unfold clean_client. rewrite decide_True by (by exists c).
  unfold dictionary_remove, dictionary_get. rewrite Hp. cbn [deref obind]. eexists. split; [done|]. split; [done|]. split; cbn.
  - intros fd' ph'. intros [Hne Hpd]%lookup_delete_Some. destruct (cn_open _ _ Hc fd' ph' Hpd) as (q & cq & skq & wq & H1 & H2 & H3 & H4 & H5).
    exists q, cq, skq, wq. rewrite dict_delete_at, decide_False, !lookup_delete_ne; [done|by intros ->|by intros ->|intros <-|by intros ->]. apply Hne. by eapply cn_inj.
  - intros fd' Hn. rewrite dict_delete_at. case_decide as E; [by subst; rewrite !lookup_delete_eq|]. rewrite !lookup_delete_ne in * by done. by apply (cn_none _ _ Hc).
  - intros fd1 fd2 q. rewrite !dict_delete_at. repeat case_decide; try done. apply (cn_inj _ _ Hc).
  - intros q [Hne Hq]%lookup_delete_is_Some. destruct (cn_heap _ _ Hc q Hq) as [fd' Hfd]. exists fd'. rewrite dict_delete_at, decide_False; [done|congruence].
  - by rewrite (cn_log _ _ Hc).
Qed.

Lemma connect_ok s t fd r sch : connected s t -> pending t !! fd = None -> valid r -> smooth sch ->
  connected (Server (files s) (dictionary_set fd (next_address (heap s) 0) (client_dict s)) (<[next_address (heap s) 0 := zero_info]> (heap s))
    (<[fd := Socket (request_bytes r) [] sch]> (sockets s)) (<[fd := EPOLLIN]> (interest s)) (closed s)) (set_phase fd (Asked r) t).
Proof.
  intros Hc Hn Hv Hs. destruct (next_address_fresh (heap s) 0) as [_ Hfresh]. set (p := next_address (heap s) 0) in *. split; cbn.
  - intros fd' ph'. rewrite dict_set_at. destruct (decide (fd' = fd)) as [->|Hne].
    + rewrite !lookup_insert_eq. intros [= <-]. eexists p, _, _, _. by rewrite lookup_insert_eq.
    + rewrite !lookup_insert_ne by done. intros Hpd. destruct (cn_open _ _ Hc fd' ph' Hpd) as (p' & c' & sk' & w' & H1 & H2 & H3 & H4 & H5).
      exists p', c', sk', w'. rewrite lookup_insert_ne; [done|]. congruence.
  - intros fd' Hn'. apply lookup_insert_None in Hn' as [Hn' Hne]. rewrite dict_set_at, decide_False, !lookup_insert_ne by done. by apply (cn_none _ _ Hc).
  - assert (Hp : forall fd', dictionary_at (client_dict s) fd' = Some p -> False).
    { intros fd' Hd. destruct (open_pending _ _ _ _ Hc Hd) as [ph Hph]. destruct (cn_open _ _ Hc _ _ Hph) as (p' & c & ? & ? & H1 & H2 & _). congruence. }
    intros fd1 fd2 q. rewrite !dict_set_at. repeat case_decide; intros H1 H2; subst; try done;
      [injection H1 as <-; by destruct (Hp fd2)|injection H2 as <-; by destruct (Hp fd1)|by eapply cn_inj].
  - intros q Hq. destruct (decide (q = p)) as [->|Hne]; [exists fd; by rewrite dict_set_at, decide_True|].
    rewrite lookup_insert_ne in Hq by done. destruct (cn_heap _ _ Hc q Hq) as [fd' Hfd]. exists fd'. rewrite dict_set_at, decide_False; [done|].
    intros ->. destruct (cn_none _ _ Hc fd Hn) as [H _]. congruence.
  - apply (cn_log _ _ Hc).
Qed.

(** *** Reading a request *)

Lemma has_prefix_same w l l' : has_prefix w ((w ++ l) ++ l') = true.
Proof. unfold has_prefix. apply bool_decide_eq_true. by rewrite <- app_assoc, take_app_length. Qed.

Lemma has_prefix_other c w c' l : c <> c' -> has_prefix (c :: w) (c' :: l) = false.
Proof. intros H. unfold has_prefix. apply bool_decide_eq_false. cbn [length take]. congruence. Qed.

Lemma read_put_ok n d sch s t : valid (RPut n d) -> smooth sch -> shelved s t ->
  exists sch' s', read_put_from_client n (Socket (le64 (Z.of_nat (length d)) ++ d) [] sch) s = Done (false, Socket [] [] sch', s')
    /\ smooth sch' /\ shelved s' (asked (RPut n d) t).
Proof.
  intros [Hn Hd] Hs [Hnames Hnd Hdom Hpl Hlen Hdir Hsize]. unfold read_put_from_client.
  destruct (fopen_w_plain (temp_dir s) n Hn) as [dir Hdir']. rewrite Hdir'.
  destruct (sock_read_ok (Socket (le64 (Z.of_nat (length d)) ++ d) [] sch) (zeroed 8) 8) as (s1 & Hrun & H1); [done|lia|done|].
  cbn [incoming outgoing] in Hrun. replace (Nat.min (Z.to_nat 8) (length (le64 (Z.of_nat (length d)) ++ d))) with 8%nat in Hrun by (rewrite length_app, length_le64; lia).
  rewrite Hrun. cbn [obind]. rewrite take_app_length', drop_app_length' by done. change (drop 8 (zeroed 8)) with (@nil Z). rewrite app_nil_r, le64_value_round by lia.
  cbn [schedule incoming]. destruct (put_loop_ok (length s1 + length d + 2) d [] s1 [] (Z.of_nat (length d))) as (s2 & Hput & H2); [done|lia|cbn; lia|lia|].
  cbn [length] in Hput. replace (Nat.min (length d) (Z.to_nat (Z.of_nat (length d) + 1) - 0)) with (length d) in Hput by lia. rewrite take_ge, drop_ge in Hput by lia.
  change (Z.of_nat 0) with 0 in Hput. rewrite Hput. cbn [obind app Nat.add]. unfold is_error. rewrite Z.eqb_refl, Z.ltb_irrefl. cbn [negb]. rewrite andb_false_r.
  assert (Hin : n ∈ names t <-> is_Some (fopen_r (temp_dir s) n)) by (by rewrite Hdir, Hdom).
  eexists s2, _. split; [done|]. split; [done|]. split; cbn.
  - rewrite Hnames. case_decide as E; [apply Hin in E as [x ->]; done|]. destruct (fopen_r (temp_dir s) n); [by destruct E; apply Hin; eauto|done].
  - case_decide as E; [done|]. apply NoDup_app. split; [done|]. split; [set_solver|apply NoDup_singleton].
  - intros m. destruct (decide (m = n)) as [->|Hne].
    + rewrite lookup_insert_eq. split; [eauto|]. intros _. case_decide; [done|set_solver].
    + rewrite lookup_insert_ne, <- Hdom by done. case_decide; set_solver.
  - intros m Hm. case_decide; [by apply Hpl|]. apply elem_of_app in Hm as [Hm|Hm%list_elem_of_singleton]; [by apply Hpl|by subst].
  - intros m e. destruct (decide (m = n)) as [->|Hne]; [rewrite lookup_insert_eq; by intros [= <-]|]. rewrite lookup_insert_ne by done. apply Hlen.
  - intros m Hm. rewrite (written_read _ dir _ _ _ Hn Hm Hdir'). case_decide; [subst; by rewrite lookup_insert_eq|]. rewrite lookup_insert_ne by done. by apply Hdir.
  - intros m Hm. rewrite dict_set_at. case_decide; [subst; by rewrite lookup_insert_eq|]. rewrite lookup_insert_ne by done. by apply Hsize.
Qed.

(** What [read_header] does once the line has been read. *)
Lemma line_read test r sch s t : valid r -> smooth sch ->
  (forall n d, r = RPut n d -> exists sch' s', read_put_from_client n (Socket (body r) [] sch) s = Done (false, Socket [] [] sch', s') /\ smooth sch' /\ shelved s' (asked r t)) ->
  forall sk0 bytes_read junk, read_header_from_socket sk0 (header zero_info) MAX_HEADER_LEN
    = Done (bytes_read, (word (verb_of r) ++ name_of r ++ [10]) ++ 0 :: junk, Socket (body r) [] sch) -> bytes_read <> 1024 ->
  shelved s t ->
  exists c sk s', read_header test zero_info sk0 s = Done (c, sk, s') /\ phase_ok (Answering r) c sk EPOLLOUT /\ shelved s' (asked r t).
Proof.
  intros Hv Hs Hput sk0 bytes_read junk Hrun Hb Hsh. unfold read_header. rewrite Hrun. cbn [obind]. rewrite (proj2 (Z.eqb_neq _ 1024)) by done.
  destruct r as [n|n d| |n]; cbn [verb_of word name_of body] in *.
  - rewrite has_prefix_same. destruct (id Hv) as (_ & H0 & _ & _ & _ & _ & Hl). pose proof (take_filename_ok [71; 69; 84; 32] n junk H0 Hl) as Hf. cbn [length] in Hf. rewrite Hf.
    destruct (no_more_ok test [] sch Hs) as (s2 & Hm & H2). cbn [obind]. rewrite Hm. cbn [obind]. eexists _, _, _. split; [done|]. done.
  - change (has_prefix [71; 69; 84; 32] _) with false. rewrite has_prefix_same. destruct (id Hv) as [(_ & H0 & _ & _ & _ & _ & Hl) Hd]. pose proof (take_filename_ok [80; 85; 84; 32] n junk H0 Hl) as Hf. cbn [length] in Hf. rewrite Hf.
    cbn [obind]. destruct (Hput n d eq_refl) as (s2 & s' & Hp & H2 & Hsh'). rewrite Hp. cbn [obind]. eexists _, _, _. split; [done|]. done.
  - change (has_prefix [71; 69; 84; 32] _) with false. change (has_prefix [80; 85; 84; 32] _) with false. change (has_prefix [68; 69; 76; 69; 84; 69; 32] _) with false.
    change (cstr_eq _ [76; 73; 83; 84; 10]) with true. destruct (no_more_ok test [] sch Hs) as (s2 & Hm & H2). rewrite Hm. cbn [obind]. eexists _, _, _. split; [done|]. done.
  - change (has_prefix [71; 69; 84; 32] _) with false. change (has_prefix [80; 85; 84; 32] _) with false. rewrite has_prefix_same.
    destruct (id Hv) as (_ & H0 & _ & _ & _ & _ & Hl). pose proof (take_filename_ok [68; 69; 76; 69; 84; 69; 32] n junk H0 Hl) as Hf. cbn [length] in Hf. rewrite Hf.
    destruct (no_more_ok test [] sch Hs) as (s2 & Hm & H2). cbn [obind]. rewrite Hm. cbn [obind]. eexists _, _, _. split; [done|]. done.
Qed.

Lemma word_clean v : (0 ∉ word v) /\ (10 ∉ word v).
Proof. destruct v; split; apply (bool_decide_unpack _); vm_compute; exact I. Qed.

Lemma read_header_ok test r sch s t : valid r -> smooth sch -> shelved s t ->
  exists c sk s', read_header test zero_info (Socket (request_bytes r) [] sch) s = Done (c, sk, s')
    /\ phase_ok (Answering r) c sk EPOLLOUT /\ shelved s' (asked r t).
Proof.
  intros Hv Hs Hsh. set (line := word (verb_of r) ++ name_of r).
  assert (Hname : (0 ∉ name_of r) /\ (10 ∉ name_of r) /\ (length (name_of r) <= 254)%nat).
  { assert (Hp : forall n, plain n -> (0 ∉ n) /\ (10 ∉ n) /\ (length n <= 254)%nat) by (by intros n (? & ? & ? & ? & ? & ? & ?)).
    destruct r; cbn in *; [by apply Hp|destruct Hv; by apply Hp|split; [|split]; [apply not_elem_of_nil|apply not_elem_of_nil|lia]|by apply Hp]. }
  destruct Hname as (H0 & H10 & Hl). assert (Hll : (length line <= 261)%nat) by (unfold line; rewrite length_app; destruct r; cbn in *; lia).
  destruct (line_ok line (body r) [] sch) as (s1 & Hrun & H1); [done|unfold line; rewrite not_elem_of_app; by destruct (word_clean (verb_of r))|unfold line; rewrite not_elem_of_app; by destruct (word_clean (verb_of r))|lia|].
  replace (Z.to_nat 1024 - length line - 1)%nat with (S (Z.to_nat 1024 - length line - 2)) in Hrun by lia. unfold line in Hrun. rewrite <- (app_assoc (word (verb_of r)) (name_of r) [10]) in Hrun.
  eapply line_read; [done|exact H1| |exact Hrun|unfold line in *; lia|done].
  intros n d ->. cbn [body]. apply read_put_ok; done.
Qed.

(** *** Answering *)

Lemma list_names_short s t n : shelved s t -> n ∈ names t -> (length n < 1000)%nat.
Proof. intros Hsh Hn. destruct (sh_plain _ _ Hsh n Hn) as (? & ? & ? & ? & ? & ? & ?). lia. Qed.

Lemma filter_other (n : key) (l : list key) : n ∉ l -> filter (fun m => m <> n) l = l.
Proof.
  induction l as [|m l IH]; [done|]. intros [Hm Hl]%not_elem_of_cons. rewrite filter_cons_True by (by intros ->). by rewrite IH.
Qed.

(** Erasing the one occurrence of a name. *)
Lemma erase_name (n : key) l1 l2 l : l = l1 ++ n :: l2 -> NoDup l -> take (length l1) l ++ drop (S (length l1)) l = filter (fun m => m <> n) l.
Proof.
  intros -> Hnd. rewrite take_app_length, (cons_middle n l1 l2), app_assoc, drop_app_length' by (rewrite length_app; cbn; lia).
  apply NoDup_app in Hnd as (_ & Hd1 & [Hn2 _]%NoDup_cons). assert (Hn1 : n ∉ l1) by (intros H; apply (Hd1 n H); by left).
  rewrite <- app_assoc. cbn [app]. by rewrite filter_app, filter_cons_False, !filter_other by naive_solver.
Qed.

Lemma exec_cmd_ok r c sk s t : phase_ok (Answering r) c sk EPOLLOUT -> shelved s t ->
  exists err c' sk' s', exec_cmd c sk s = Done (err, c', sk', s') /\
    match answer t r with
    | Some a => err = false /\ outgoing sk' = a /\ shelved s' (answered r t)
    | None => err = true /\ phase_ok Failing c' sk' EPOLLOUT /\ shelved s' t
    end.
Proof.
  intros (Hs & Ho & Hv & Hst & Hcmd & Hfn & _) Hsh. unfold exec_cmd. rewrite Hcmd. destruct r as [n|n d| |n]; cbn [verb_of name_of] in *.
  - unfold exec_get. rewrite Hfn, (sh_dir _ _ Hsh n Hv). cbn [answer]. destruct (contents t !! n) as [d|] eqn:Ed; cbn [mbind option_bind].
    + destruct (send_ok OK sk) as (s1 & -> & H1); [done|cbn; lia|]. cbn [obind]. destruct n as [|x n]; [by destruct Hv|].
      unfold dictionary_get. rewrite (sh_size _ _ Hsh _ Hv), Ed. cbn [fmap option_fmap option_map deref obind].
      destruct (send_ok (le64 (Z.of_nat (length d))) (Socket (incoming sk) (outgoing sk ++ OK) s1)) as (s2 & -> & H2); [done|by rewrite length_le64|]. cbn [obind incoming outgoing].
      pose proof (sh_length _ _ Hsh _ _ Ed). edestruct (write_get_ok (Socket (incoming sk) ((outgoing sk ++ OK) ++ le64 (Z.of_nat (length d))) s2) d) as (s3 & -> & H3); [done|lia|].
      cbn [obind]. eexists _, _, _, _. split; [done|]. split; [done|]. split; [cbn [outgoing]; by rewrite Ho, <- app_assoc|done].
    + eexists _, _, _, _. split; [done|]. done.
  - destruct (send_ok OK sk) as (s1 & -> & H1); [done|cbn; lia|]. cbn [obind answer]. eexists _, _, _, _. split; [done|]. split; [done|]. cbn. by rewrite Ho.
  - unfold exec_list. destruct (send_ok OK sk) as (s1 & -> & H1); [done|cbn; lia|]. cbn [obind]. rewrite (sh_names _ _ Hsh). fold (list_size (names t)).
    destruct (send_ok (le64 (list_size (names t))) (Socket (incoming sk) (outgoing sk ++ OK) s1)) as (s2 & -> & H2); [done|by rewrite length_le64|]. cbn [obind incoming outgoing].
    edestruct (send_names_ok (names t) (Socket (incoming sk) ((outgoing sk ++ OK) ++ le64 (list_size (names t))) s2)) as (s3 & -> & H3); [done|intros; by eapply list_names_short|].
    cbn [obind answer]. eexists _, _, _, _. split; [done|]. split; [done|]. cbn [outgoing]. rewrite Ho. split; [by rewrite <- app_assoc|done].
  - unfold exec_delete. rewrite Hfn. cbn [answer]. destruct (contents t !! n) as [d|] eqn:Ed; cbn [mbind option_bind].
    + destruct (remove_present (temp_dir s) n Hv) as (dir & -> & Hdir); [by rewrite (sh_dir _ _ Hsh n Hv), Ed|].
      assert (Hin : n ∈ names t) by (apply (sh_dom _ _ Hsh); by rewrite Ed). rewrite (sh_names _ _ Hsh).
      destruct (find_name_spec n (names t)) as [[Hno _]|(l1 & l2 & Heq & ->)]; [done|]. rewrite (proj2 (Nat.eqb_neq _ _)) by (rewrite Heq, length_app; cbn; lia).
      destruct (send_ok OK sk) as (s1 & -> & H1); [done|cbn; lia|]. cbn [obind]. unfold dictionary_remove, dictionary_get. rewrite (sh_size _ _ Hsh n Hv), Ed. cbn [fmap option_fmap option_map deref obind].
      eexists _, _, _, _. split; [done|]. split; [done|]. split; [cbn; by rewrite Ho|]. pose proof (sh_nodup _ _ Hsh) as Hnd.
      rewrite (erase_name n l1 l2 (names t) Heq Hnd). destruct Hsh as [Hnames _ Hdom Hpl Hlen Hdr Hsz]. split; cbn.
      * done.
      * by apply NoDup_filter.
      * intros m. rewrite list_elem_of_filter, Hdom. destruct (decide (m = n)) as [->|Hne]; [rewrite lookup_delete_eq; split; [by intros [? _]|by intros [? ?]]|].
        rewrite lookup_delete_ne by done. naive_solver.
      * intros m [_ Hm]%list_elem_of_filter. by apply Hpl.
      * intros m e [_ He]%lookup_delete_Some. by eapply Hlen.
      * intros m Hm. rewrite Hdir by done. case_decide; [subst; by rewrite lookup_delete_eq|]. rewrite lookup_delete_ne by done. by apply Hdr.
      * intros m Hm. rewrite dict_delete_at. case_decide; [subst; by rewrite lookup_delete_eq|]. rewrite lookup_delete_ne by done. by apply Hsz.
    + rewrite (remove_absent (temp_dir s) n Hv) by (by rewrite (sh_dir _ _ Hsh n Hv)). eexists _, _, _, _. split; [done|]. done.
Qed.

Lemma handle_errors_ok c sk : phase_ok Failing c sk EPOLLOUT -> exists sk', handle_errors c sk = Done sk' /\ outgoing sk' = no_such_file.
Proof.
  intros (Hs & Ho & Hst & _). unfold handle_errors. rewrite Hst. destruct (send_ok ERROR sk) as (s1 & -> & H1); [done|cbn; lia|].
  cbn [obind]. change (-3 =? -1) with false. change (-3 =? -2) with false. cbn iota.
  edestruct (send_ok err_no_such_file (Socket (incoming sk) (outgoing sk ++ ERROR) s1)) as (s2 & -> & H2); [done|cbn; lia|].
  eexists. split; [done|]. cbn [outgoing]. by rewrite Ho.
Qed.

(** A [PUT] whose data is not as long as announced. *)
Lemma read_put_bad n size d sch s t : plain n -> smooth sch -> shelved s t -> 0 <= size < 2 ^ 63 -> Z.of_nat (length d) <> size ->
  exists sk s', read_put_from_client n (Socket (le64 size ++ d) [] sch) s = Done (true, sk, s')
    /\ smooth (schedule sk) /\ outgoing sk = [] /\ file_list s' = file_list s /\ file_size s' = file_size s
    /\ forall m, plain m -> fopen_r (temp_dir s') m = if decide (m = n) then None else fopen_r (temp_dir s) m.
Proof.
  intros Hn Hs Hsh Hsz Hd. unfold read_put_from_client. destruct (fopen_w_plain (temp_dir s) n Hn) as [dir Hdir']. rewrite Hdir'.
  destruct (sock_read_ok (Socket (le64 size ++ d) [] sch) (zeroed 8) 8) as (s1 & Hrun & H1); [done|lia|done|].
  cbn [incoming outgoing] in Hrun. replace (Nat.min (Z.to_nat 8) (length (le64 size ++ d))) with 8%nat in Hrun by (rewrite length_app, length_le64; lia).
  rewrite Hrun. cbn [obind]. rewrite take_app_length', drop_app_length' by done. change (drop 8 (zeroed 8)) with (@nil Z). rewrite app_nil_r, le64_value_round by lia.
  cbn [schedule incoming]. destruct (put_loop_ok (length s1 + length d + 2) d [] s1 [] size) as (s2 & Hput & H2); [done|lia|cbn; lia|lia|].
  cbn [length] in Hput. change (Z.of_nat 0) with 0 in Hput. rewrite Hput. cbn [obind app Nat.add]. set (k := Nat.min _ _) in *.
  assert (He : is_error (Z.of_nat k) size <> None) by (unfold is_error; repeat case_bool; cbn; try done; lia).
  destruct (is_error _ _) as [e|]; [|done]. destruct (remove_present (fwrite_close n (take k d) dir) n Hn) as (dir2 & -> & Hrd);
    [rewrite (written_read _ dir _ _ _ Hn Hn Hdir'), decide_True by done; by eexists|].
  eexists _, _. split; [done|]. split; [done|]. split; [done|]. split; [done|]. split; [done|]. cbn [temp_dir]. intros m Hm.
  rewrite Hrd by done. case_decide; [done|]. by rewrite (written_read _ dir _ _ _ Hn Hm Hdir'), decide_False.
Qed.

(** *** Events *)

Definition sim (s : server) (t : spec) : Prop := shelved (files s) t /\ connected s t.

Lemma shelved_pending s t p a : shelved s t -> shelved s (Spec (names t) (contents t) p a).
Proof. by intros [H1 H2 H3 H4 H5 H6 H7]. Qed.

Lemma clean_client_update fd p sk c sk' f cd h sks i cl : is_Some (h !! p) ->
  clean_client fd p sk (Server f cd (<[p := c]> h) (<[fd := sk']> sks) i cl) = clean_client fd p sk (Server f cd h sks i cl : server).
Proof.
  intros Hp. unfold clean_client. cbn [heap client_dict files sockets interest closed]. rewrite !decide_True by (done || by rewrite lookup_insert_eq).
  by rewrite !delete_insert_eq.
Qed.

Lemma server_event_ok test e s t : allowed e t -> sim s t -> exists s', server_event test (to_server e) s = Done s' /\ sim s' (spec_event e t).
Proof.
  intros Ha [Hsh Hc]. destruct e as [fd r sch|fd]; cbn [to_server server_event spec_event].
  { destruct Ha as (Hn & Hv & Hs). eexists. split; [done|]. split; [by apply shelved_pending|by apply connect_ok]. }
  destruct Ha as [ph Hph]. rewrite Hph. destruct (cn_open _ _ Hc fd ph Hph) as (p & c & sk & w & Hp & Hh & Hk & Hw & Hok).
  unfold run_client, dictionary_get. rewrite Hp. cbn [deref obind]. rewrite Hh. cbn [deref obind]. rewrite Hk. cbn [deref obind]. destruct ph as [r|r|].
  - destruct Hok as (Hs & Ho & Hv & -> & Hi & ->). change (state zero_info =? 0) with true. cbn iota.
    destruct (read_header_ok test r (schedule sk) (files s) t Hv Hs Hsh) as (c' & sk' & f' & Hrun & Hok' & Hsh').
    replace (Socket (request_bytes r) [] (schedule sk)) with sk in Hrun by (destruct sk; cbn in *; congruence). rewrite Hrun. cbn [obind].
    eexists. split; [done|]. split; [apply shelved_pending; exact Hsh'|].
    pose proof (connected_update s t fd p c' sk' EPOLLOUT (Answering r) Hc Hp (ex_intro _ _ Hh) Hok') as Hcu.
    destruct r; exact (connected_files _ _ f' _ _ Hcu).
  - assert (Hst : state c = 1) by (by destruct Hok as (_ & _ & _ & ? & _)). assert (w = EPOLLOUT) as -> by (by destruct Hok as (_ & _ & _ & _ & _ & _ & ?)).
    rewrite Hst. change (1 =? 0) with false. change (1 =? 1) with true. cbn iota.
    destruct (exec_cmd_ok r c sk (files s) t Hok Hsh) as (err & c' & sk' & f' & Hrun & Hans). rewrite Hrun. cbn [obind].
    pose proof (connected_update s t fd p c' sk') as Hcu. destruct (answer t r) as [a|] eqn:Ea.
    + destruct Hans as (-> & Ho & Hsh'). rewrite clean_client_update by (by exists c).
      pose proof (connected_files s t f' (names t) (contents t) Hc) as Hc1. set (s1 := Server f' _ _ _ _ _) in *.
      destruct (clean_client_ok s1 _ fd p sk' Hc1 Hp) as (s' & -> & Hf & Hc'). rewrite Ho in Hc'. eexists. split; [done|].
      split; [rewrite Hf; apply shelved_pending; exact Hsh'|]. destruct Hc' as [H1 H2 H3 H4 H5]. destruct r; by split.
    + destruct Hans as (-> & Hok' & Hsh'). eexists. split; [done|]. split; [apply shelved_pending; exact Hsh'|].
      specialize (Hcu EPOLLOUT Failing Hc Hp (ex_intro _ _ Hh) Hok'). apply (connected_files _ _ f' (names t) (contents t)) in Hcu.
      cbn in Hcu. by rewrite (insert_id (interest s) fd EPOLLOUT Hw) in Hcu.
  - destruct Hok as (Hs & Ho & Hst & ->). rewrite Hst. change (-3 =? 0) with false. change (-3 =? 1) with false. cbn iota.
    destruct (handle_errors_ok c sk) as (sk' & -> & Ho'); [done|]. cbn [obind].
    destruct (clean_client_ok s t fd p sk' Hc Hp) as (s' & -> & Hf & Hc'). rewrite Ho' in Hc'.
    eexists. split; [done|]. split; [rewrite Hf; by apply shelved_pending|exact Hc'].
Qed.

Lemma server_run_ok test es s t : allowed_run es t -> sim s t ->
  exists s', server_run test (to_server <$> es) s = Done s' /\ sim s' (spec_run es t).
Proof.
  revert s t. induction es as [|e es IH]; intros s t Ha Hs; cbn [fmap list_fmap server_run spec_run]; [by exists s|].
  destruct Ha as [Ha Has]. destruct (server_event_ok test e s t Ha Hs) as (s1 & -> & H1). cbn [obind]. by apply IH.
Qed.

Lemma server_start_ok dir : (forall n, plain n -> fopen_r dir n = None) -> sim (server_start dir) spec_start.
Proof.
  intros Hd. split; split; cbn.
  - done.
  - constructor.
  - intros n. rewrite lookup_empty. split; [by intros ?%elem_of_nil|by intros []].
  - by intros n ?%elem_of_nil.
  - intros n d. by rewrite lookup_empty.
  - intros n Hn. rewrite lookup_empty. by apply Hd.
  - intros n Hn. by rewrite lookup_empty, dict_create_at.
  - intros fd ph. by rewrite lookup_empty.
  - intros fd _. by rewrite dict_create_at, !lookup_empty.
  - intros fd fd' p. by rewrite dict_create_at.
  - intros p. rewrite lookup_empty. by intros [].
  - done.
Qed.

Lemma server_run_app test es es' (s : server) : server_run test (es ++ es') s = let! s := server_run test es s in server_run test es' s.
Proof.
  revert s. induction es as [|e es IH]; intros s; [done|]. cbn [app server_run]. destruct (server_event test e s); cbn [obind]; [apply IH|done..].
Qed.

(** The header of a [PUT] whose data turns out wrong. *)
Lemma read_header_bad test n size d sch s t : plain n -> smooth sch -> shelved s t -> 0 <= size < 2 ^ 63 -> Z.of_nat (length d) <> size ->
  exists c sk s', read_header test zero_info (Socket ((word PUT ++ n) ++ 10 :: le64 size ++ d) [] sch) s = Done (c, sk, s')
    /\ state c = -2 /\ smooth (schedule sk) /\ outgoing sk = [] /\ file_list s' = file_list s
    /\ forall m, plain m -> fopen_r (temp_dir s') m = if decide (m = n) then None else fopen_r (temp_dir s) m.
Proof.
  intros Hn Hs Hsh Hsz Hd. destruct (id Hn) as (_ & H0 & H10 & _ & _ & _ & Hl). destruct (word_clean PUT) as [Hw0 Hw10]. set (line := word PUT ++ n).
  assert (Hll : (length line <= 261)%nat) by (unfold line; rewrite length_app; cbn; lia).
  destruct (line_ok line (le64 size ++ d) [] sch) as (s1 & Hrun & H1); [done|by unfold line; rewrite not_elem_of_app|by unfold line; rewrite not_elem_of_app|lia|].
  replace (Z.to_nat 1024 - length line - 1)%nat with (S (Z.to_nat 1024 - length line - 2)) in Hrun by lia. cbn [replicate] in Hrun. set (junk := replicate _ 0) in Hrun. clearbody junk.
  unfold line in Hrun |- *. rewrite <- (app_assoc (word PUT) n [10]) in Hrun.
  unfold read_header. change (header zero_info) with (zeroed MAX_HEADER_LEN). rewrite Hrun. cbn [obind]. rewrite (proj2 (Z.eqb_neq _ 1024)) by (unfold line in *; lia).
  change (has_prefix [71; 69; 84; 32] _) with false. rewrite has_prefix_same.
  pose proof (take_filename_ok [80; 85; 84; 32] n junk H0 Hl) as Hf. cbn [length] in Hf. cbn [word] in *. rewrite Hf. cbn [obind].
  destruct (read_put_bad n size d s1 s t Hn H1 Hsh Hsz Hd) as (sk & s' & -> & Hsk & Ho & Hfl & _ & Hrd). cbn [obind]. eexists _, sk, s'. by split.
Qed.

(** C10. For any sequence of well-formed requests on any number of connections, in any
    interleaving and with transfers of any size, every step of the server is
    defined, the connections get the answers of the abstract store, the directory
    and the list of files are the store's contents, and when no connection is open
    the server holds no connection object. *)
Theorem server_refines_store test dir es :
  (forall n, plain n -> fopen_r dir n = None) -> allowed_run es spec_start ->
  let t := spec_run es spec_start in
  exists s, server_run test (to_server <$> es) (server_start dir) = Done s
    /\ closed s = answers t
    /\ file_list (files s) = names t
    /\ (forall n, plain n -> fopen_r (temp_dir (files s)) n = contents t !! n)
    /\ (pending t = ∅ -> heap s = ∅).
Proof.
  intros Hd Ha t. destruct (server_run_ok test es _ _ Ha (server_start_ok dir Hd)) as (s & Hrun & [Hsh Hc]). exists s.
  split; [exact Hrun|]. split; [apply (cn_log _ _ Hc)|]. split; [apply (sh_names _ _ Hsh)|]. split; [apply (sh_dir _ _ Hsh)|].
  intros He. apply map_eq. intros p. rewrite lookup_empty. destruct (heap s !! p) as [c|] eqn:E; [|done].
  destruct (cn_heap _ _ Hc p) as [fd Hfd]; [by rewrite E|]. destruct (open_pending _ _ _ _ Hc Hfd) as [ph Hph]. unfold t in He. by rewrite He, lookup_empty in Hph.
Qed.

(** A [PUT] whose data is shorter or longer than it announces is answered "Bad file
    size" and leaves no file of that name, not even one that was there before, while
    the list of files is unchanged. *)
Theorem server_rejects_wrong_size test dir es fd n size d sch :
  (forall n, plain n -> fopen_r dir n = None) -> allowed_run es spec_start ->
  let t := spec_run es spec_start in
  pending t !! fd = None -> plain n -> smooth sch -> 0 <= size < 2 ^ 63 -> Z.of_nat (length d) <> size ->
  exists s, server_run test ((to_server <$> es) ++ [Connect fd (Socket ((word PUT ++ n) ++ 10 :: le64 size ++ d) [] sch); Ready fd; Ready fd]) (server_start dir) = Done s
    /\ closed s = answers t ++ [(fd, ERROR ++ err_bad_file_size)]
    /\ file_list (files s) = names t
    /\ forall m, plain m -> fopen_r (temp_dir (files s)) m = if decide (m = n) then None else contents t !! m.
Proof.
  intros Hd Ha t Hfd Hn Hs Hsz Hlen. destruct (server_run_ok test es _ _ Ha (server_start_ok dir Hd)) as (s & Hrun & [Hsh Hc]). fold t in Hsh, Hc.
  rewrite server_run_app, Hrun. cbn [obind server_run server_event]. set (p := next_address (heap s) 0).
  unfold run_client at 1, dictionary_get. cbn [client_dict heap sockets files]. rewrite dict_set_at, decide_True by done. cbn [deref obind].
  rewrite lookup_insert_eq. cbn [deref obind]. rewrite lookup_insert_eq. cbn [deref obind]. change (state zero_info =? 0) with true. cbn iota.
  destruct (read_header_bad test n size d sch (files s) t Hn Hs Hsh Hsz Hlen) as (c & sk & f & -> & Hst & Hsk & Ho & Hfl & Hrd). cbn [obind].
  unfold run_client, dictionary_get. cbn [client_dict heap sockets files interest closed]. rewrite dict_set_at, decide_True by done. cbn [deref obind].
  rewrite lookup_insert_eq. cbn [deref obind]. rewrite lookup_insert_eq. cbn [deref obind]. rewrite Hst. change (-2 =? 0) with false. change (-2 =? 1) with false. cbn iota.
  unfold handle_errors. rewrite Hst. change (-2 =? -1) with false. change (-2 =? -2) with true. cbn iota.
  destruct (send_ok ERROR sk) as (s1 & -> & H1); [done|cbn; lia|]. cbn [obind].
  edestruct (send_ok err_bad_file_size (Socket (incoming sk) (outgoing sk ++ ERROR) s1)) as (s2 & -> & H2); [done|cbn; lia|]. cbn [obind incoming outgoing].
  unfold clean_client. cbn [client_dict heap sockets files interest closed]. rewrite decide_True by (by rewrite lookup_insert_eq). unfold dictionary_remove, dictionary_get.
  rewrite dict_set_at, decide_True by done. cbn [deref obind]. eexists. split; [done|]. cbn [closed files]. rewrite Ho, (cn_log _ _ Hc), Hfl. split; [done|]. split; [apply (sh_names _ _ Hsh)|].
  intros m Hm. rewrite Hrd by done. case_decide; [done|]. by apply (sh_dir _ _ Hsh).
Qed.

End Refinement.

(** ** An implementation of the libraries *)

#[export] Instance gmap_dict {K A} `{Countable K} : Dict K A (gmap K A) := {
  dictionary_create := ∅;
  dictionary_at d k := d !! k;
  dictionary_set k a d := <[k := a]> d;
  dictionary_delete k d := delete k d;
}.

#[export] Instance gmap_dict_laws {K A} `{Countable K} : DictLaws K A (gmap K A).
Proof.
  split; cbn.
  - intros k. apply lookup_empty.
  - intros d k a j. case_decide; [subst; apply lookup_insert_eq|by apply lookup_insert_ne].
  - intros d k j. case_decide; [subst; apply lookup_delete_eq|by apply lookup_delete_ne].
Qed.

(** The directory as a map; the empty name is the directory itself. *)
#[export] Instance gmap_dir : TempDir (gmap key key) := {
  fopen_r d n := match n with [] => Some [] | _ => d !! n end;
  fopen_w n d := match n with [] => None | _ => Some (<[n := []]> d) end;
  fwrite_close n bs d := <[n := bs]> d;
  remove n d := match n with [] => None | _ => if d !! n is Some _ then Some (delete n d) else None end;
}.

#[export] Instance gmap_dir_laws : TempDirLaws (gmap key key).
Proof.
  assert (Hr : forall (d : gmap key key) n, plain n -> fopen_r d n = d !! n) by (intros d n [Hn _]; by destruct n).
  split.
  - intros d n [Hn _]. destruct n; [done|]. by eexists.
  - intros d d' n bs m Hn Hm Hd. rewrite !Hr by done. destruct n as [|x n]; [by destruct Hn|]. injection Hd as <-. cbn.
    case_decide; [subst; by rewrite lookup_insert_eq|]. by rewrite !lookup_insert_ne.
  - intros d n Hn. rewrite Hr by done. destruct n as [|x n]; [done|]. cbn. by intros ->.
  - intros d n Hn. rewrite Hr by done. destruct n as [|x n]; [by destruct Hn|]. cbn. intros [bs ->]. eexists. split; [done|].
    intros m Hm. transitivity (delete (x :: n) d !! m); [by apply (Hr (delete (x :: n) d))|]. case_decide; [subst; apply lookup_delete_eq|].
    rewrite lookup_delete_ne by done. symmetry. by apply (Hr d).
Qed.

Abbreviation start := (server_start (SD := gmap key Z) (CD := gmap Z Z) (∅ : gmap key key)).

(** Two connections: "a" is stored on the first while the second lists and a third
    asks for a missing file. *)
Definition session : list net_event :=
  [NConnect 5 (RPut [97] [1; 2; 3]) [Transfer 0; Transfer 1]; NConnect 6 RList []; NReady 5; NReady 6; NReady 6; NReady 5;
   NConnect 5 (RGet [98]) []; NReady 5; NReady 5; NReady 5; NConnect 7 (RGet [97]) [Transfer 2]; NReady 7; NReady 7].

Lemma plain_letter c : (97 <=? c) && (c <=? 122) = true -> plain [c].
Proof.
  intros [H1%Z.leb_le H2%Z.leb_le]%andb_true_iff.
  assert (Hn : forall x, x <> c -> x ∉ [c]) by (by intros x Hx ->%list_elem_of_singleton).
  split; [done|]. split; [apply Hn; lia|]. split; [apply Hn; lia|]. split; [apply Hn; lia|]. split; [intros [= ->]; lia|]. split; [done|cbn; lia].
Qed.

Lemma smooth_transfers ks : smooth (Transfer <$> ks).
Proof. intros e (k & -> & _)%list_elem_of_fmap. by exists k. Qed.

Lemma session_allowed : allowed_run session spec_start.
Proof.
  assert (Ha : plain [97]) by (by apply plain_letter). assert (Hb : plain [98]) by (by apply plain_letter).
  pose proof (smooth_transfers [0%nat; 1%nat]) as H1. pose proof (smooth_transfers []) as H2. pose proof (smooth_transfers [2%nat]) as H3.
  cbn in H1, H2, H3. unfold session. cbn [allowed_run allowed valid]. repeat split; done || (apply (bool_decide_unpack _); vm_compute; exact I).
Qed.

Lemma start_empty n : plain n -> fopen_r (∅ : gmap key key) n = None.
Proof. intros [Hn _]. by destruct n. Qed.

Lemma server_refines_store_witness : exists s, server_run [0; 0] (to_server <$> session) start = Done s
  /\ closed s = [(6, OK ++ le64 1 ++ [97]); (5, OK); (5, ERROR ++ err_no_such_file); (7, OK ++ le64 3 ++ [1; 2; 3])] /\ heap s = ∅.
Proof.
  destruct (server_refines_store (SD := gmap key Z) (CD := gmap Z Z) [0; 0] ∅ session start_empty session_allowed) as (s & H1 & H2 & _ & _ & H3).
  exists s. split; [exact H1|]. split; [rewrite H2; vm_compute; reflexivity|apply H3; vm_compute; reflexivity].
Defined.

Lemma server_rejects_wrong_size_witness : exists s,
  server_run [0; 0] ((to_server <$> session) ++ [Connect 9 (Socket ((word PUT ++ [97]) ++ 10 :: le64 4 ++ [7; 8]) [] []); Ready 9; Ready 9]) start = Done s
  /\ file_list (files s) = [[97]] /\ fopen_r (temp_dir (files s)) [97] = None.
Proof.
  assert (Ha : plain [97]) by (by apply plain_letter).
  destruct (server_rejects_wrong_size (SD := gmap key Z) (CD := gmap Z Z) [0; 0] ∅ session 9 [97] 4 [7; 8] [] start_empty session_allowed) as (s & H1 & _ & H2 & H3);
    [vm_compute; reflexivity|exact Ha|exact (smooth_transfers [])|lia|cbn; lia|].
  exists s. split; [exact H1|]. split; [rewrite H2; vm_compute; reflexivity|]. rewrite H3 by exact Ha. by rewrite decide_True.
Defined.

(** The name of a file whose replacement failed stays in the list, so storing the file
    again lists it twice. *)
Example listed_twice :
  match server_run [0; 0] ([Connect 5 (Socket (request_bytes (RPut [97] [1])) [] []); Ready 5; Ready 5;
      Connect 5 (Socket ((word PUT ++ [97]) ++ 10 :: le64 4 ++ [7; 8]) [] []); Ready 5; Ready 5;
      Connect 5 (Socket (request_bytes (RPut [97] [1])) [] []); Ready 5; Ready 5; Connect 5 (Socket (request_bytes RList) [] []); Ready 5; Ready 5]) start with
  | Done s => file_list (files s) = [[97]; [97]] /\ last (closed s) = Some (5, OK ++ le64 3 ++ [97; 10; 97])
  | _ => False
  end.
Proof. vm_compute. auto. Qed.

(** A request whose name is empty is answered "OK" and then "ERROR". *)
Example empty_name :
  match server_run [0; 0] [Connect 5 (Socket [71; 69; 84; 32; 10] [] []); Ready 5; Ready 5; Ready 5] start with
  | Done s => closed s = [(5, OK ++ ERROR ++ err_bad_request)]
  | _ => False
  end.
Proof. vm_compute. reflexivity. Qed.

(** Bytes behind the header of a [GET] are looked at with an uninitialised byte next
    to them. *)
Example trailing_bytes :
  server_run [77; 77] [Connect 5 (Socket [71; 69; 84; 32; 97; 10; 98] [] []); Ready 5] start = Undef.
Proof. vm_compute. reflexivity. Qed.
