(* ===== verification/Client.v ===== *)
(** * [nonstop_networking/client.c]

    The request the client writes and how it reads the response, as functions of
    the socket and of the local file.  Connecting and the arguments' usage messages
    are left out. *)

From S2P Require Import Prelude CString Sockets Server.
Open Scope Z_scope.

(** What the client prints. *)
Inductive message :=
| Print_size_error (e : size_error)
| Print_success
| Print_list (size : Z) (bytes : list Z)
| Print_error_message (err : list Z)
| Print_invalid_response.

(** ** The request *)

Definition toupper (c : Z) : Z := if (97 <=? c) && (c <=? 122) then c - 32 else c.

(** The method of the command line, in upper case. *)
Definition parse_method (arg : list Z) : list Z := map toupper arg.

(** [check_args], given how many of [remote] and [local] there are; [None] is a
    usage message and the end of the program. *)
Definition check_args (command : list Z) (remote local : option (list Z)) : option verb :=
  if bool_decide (command = [76; 73; 83; 84]) then Some LIST
  else if bool_decide (command = [71; 69; 84]) then
    match remote, local with Some _, Some _ => Some GET | _, _ => None end
  else if bool_decide (command = [68; 69; 76; 69; 84; 69]) then
    match remote with Some _ => Some DELETE | None => None end
  else if bool_decide (command = [80; 85; 84]) then
    match remote, local with Some _, Some _ => Some PUT | _, _ => None end
  else None.

(** What [perform_put] finds: the size [stat] gives and the bytes the file delivers. *)
Record local_file := LocalFile {
  local_size : option Z;
  local_bytes : option (list Z);
}.

(** -1 on failure.  A short [fread] would send bytes that were never set. *)
Fixpoint put_write_loop (fuel : nat) (sk : socket) (bytes_wrote size : Z) (bytes : list Z) : outcome (Z * list message * socket) :=
  match fuel with
  | O => OutOfFuel
  | S fuel =>
      if bytes_wrote <? size then
        let new_bytes_wrote := get_min (size - bytes_wrote) MAX_HEADER_LEN in
        let buffer := take (Z.to_nat new_bytes_wrote) bytes in
        if (length buffer <? Z.to_nat new_bytes_wrote)%nat then Undef
        else
          let! (wrote, sk) := write_to_socket sk buffer new_bytes_wrote in
          if u64 wrote <? new_bytes_wrote then Done (-1, [Print_size_error Connection_closed], sk)
          else put_write_loop fuel sk (bytes_wrote + new_bytes_wrote) size (drop (Z.to_nat new_bytes_wrote) bytes)
      else Done (0, [], sk)
  end.

Definition perform_put (local : local_file) (sk : socket) : outcome (Z * list message * socket) :=
  match local_size local with
  | None => Done (-1, [], sk)
  | Some size =>
      let! sk := send (le64 size) sk in
      match local_bytes local with
      | None => Done (-1, [], sk)
      | Some bytes => put_write_loop (S (Z.to_nat (size / MAX_HEADER_LEN + 1))) sk 0 size bytes
      end
  end.

Definition request_line (req : verb) (cmd remote : list Z) : list Z :=
  match req with
  | LIST => cmd ++ [10]
  | _ => cmd ++ [32] ++ remote ++ [10]
  end.

Definition run_client_request (req : verb) (cmd remote : list Z) (local : local_file) (sk : socket) : outcome (Z * list message * socket) :=
  let client_request := request_line req cmd remote in
  let bytes_to_write := Z.of_nat (length client_request) in
  let! (bytes_wrote, sk) := write_to_socket sk client_request bytes_to_write in
  if u64 bytes_wrote <? bytes_to_write then Done (-1, [Print_size_error Connection_closed], sk)
  else match req with
       | PUT => perform_put local sk
       | _ => Done (0, [], sk)
       end.

(** ** The response *)

(** The result, what is printed, and the bytes written to the local file when it
    was opened. *)
Record response := Response {
  result : Z;
  printed : list message;
  written : option (list Z);
  rest : socket;
}.

(** A read error counts as [SIZE_MAX] bytes, which [fwrite] takes from a buffer of
    1025. *)
Fixpoint get_loop (fuel : nat) (sk : socket) (file : list Z) (bytes_read size : Z) : outcome (Z * list Z * socket) :=
  match fuel with
  | O => OutOfFuel
  | S fuel =>
      if bytes_read <? u64 (size + 1) then
        let new_bytes_read := get_min (u64 (size + 1 - bytes_read)) MAX_HEADER_LEN in
        let! (bytes_read_from_socket, buffer, sk) := read_from_socket sk (zeroed (MAX_HEADER_LEN + 1)) new_bytes_read in
        if bytes_read_from_socket =? -1 then Undef
        else if bytes_read_from_socket =? 0 then Done (bytes_read, file, sk)
        else get_loop fuel sk (file ++ take (Z.to_nat bytes_read_from_socket) buffer) (u64 (bytes_read + bytes_read_from_socket)) size
      else Done (bytes_read, file, sk)
  end.

(** [opened] and [chmodded]: whether [fopen] and [chmod] of the local file succeed. *)
Definition read_get (opened chmodded : bool) (sk : socket) : outcome response :=
  if negb opened then Undef
  else if negb chmodded then Done (Response (-1) [] (Some []) sk)
  else
    let! (_, bytes, sk) := read_from_socket sk (zeroed 8) 8 in
    let size := le64_value bytes in
    let! (bytes_read, file, sk) := get_loop (length (schedule sk) + length (incoming sk) + 2) sk [] 0 size in
    match is_error bytes_read size with
    | Some e => Done (Response (-1) [Print_size_error e] (Some file) sk)
    | None => Done (Response 0 [] (Some file) sk)
    end.

Definition read_list (sk : socket) : outcome response :=
  let! (_, bytes, sk) := read_from_socket sk (zeroed 8) 8 in
  let size := le64_value bytes in
  let! (status_bytes_read, buffer, sk) := read_from_socket sk (zeroed (u64 (size + 2))) (u64 (size + 1)) in
  match is_error (u64 status_bytes_read) size with
  | Some e => Done (Response (-1) [Print_size_error e] None sk)
  | None => Done (Response 0 [Print_list size (until_zero buffer)] None sk)
  end.

(** The rest of a response that does not start with [OK]. *)
Definition read_error (status_bytes_read : Z) (response_bytes : list Z) (sk : socket) : outcome response :=
  let start := Z.to_nat status_bytes_read in
  if status_bytes_read <? 0 then Undef
  else
    let err_response := until_zero response_bytes ++ replicate (7 - length (until_zero response_bytes)) 0 in
    let! (_, tail, sk) := read_from_socket sk (drop start err_response) (6 - status_bytes_read) in
    if cstr_eq (take start err_response ++ tail) ERROR then
      let! (read_error, error_msg, sk) := read_from_socket sk (zeroed (MAX_ERROR_LEN + 1)) MAX_ERROR_LEN in
      Done (Response 0 ((if read_error =? 0 then [Print_size_error Connection_closed] else []) ++ [Print_error_message (until_zero error_msg)]) None sk)
    else Done (Response 0 [Print_invalid_response] None sk).

Definition read_server_response (req : verb) (opened chmodded : bool) (sk : socket) : outcome response :=
  let! (status_bytes_read, response_bytes, sk) := read_from_socket sk (zeroed 4) 3 in
  if cstr_eq response_bytes OK then
    match req with
    | PUT | DELETE => Done (Response 0 [Print_success] None sk)
    | LIST => read_list sk
    | GET => read_get opened chmodded sk
    | V_UNKNOWN => Done (Response 0 [] None sk)
    end
  else read_error status_bytes_read response_bytes sk.
