(* ===== verification/ClientSpec.v ===== *)
(** * The client speaks the server's protocol

    The client's requests are those the server's theorems are about, and it reads
    every answer of the server as what it means; a file stored by one client and
    fetched by another is the same. *)

From stdpp Require Import gmap strings.
From S2P Require Import Prelude CString Sockets Server ServerSpec Client.
Open Scope Z_scope.

(** The method on the command line, in upper case. *)
Definition method (v : verb) : list Z :=
  match v with
  | GET => [71; 69; 84]
  | PUT => [80; 85; 84]
  | DELETE => [68; 69; 76; 69; 84; 69]
  | LIST | V_UNKNOWN => [76; 73; 83; 84]
  end.

(** The local file of a [PUT]. *)
Definition local_of (r : request) : local_file :=
  match r with RPut _ d => LocalFile (Some (Z.of_nat (length d))) (Some d) | _ => LocalFile None None end.

Definition client_request (r : request) (sk : socket) := run_client_request (verb_of r) (method (verb_of r)) (name_of r) (local_of r) sk.

(** ** Requests *)

Lemma put_write_loop_ok fuel sk bw bytes : smooth (schedule sk) -> 0 <= bw -> bw + Z.of_nat (length bytes) < 2 ^ 63 ->
  Z.of_nat (length bytes) <= 1024 * (Z.of_nat fuel - 1) ->
  exists sch, put_write_loop fuel sk bw (bw + Z.of_nat (length bytes)) bytes = Done (0, [], Socket (incoming sk) (outgoing sk ++ bytes) sch) /\ smooth sch.
Proof.
  revert sk bw bytes. induction fuel as [|fuel IH]; intros sk bw bytes Hs Hbw Hl Hf; [lia|]. cbn [put_write_loop].
  destruct (Z.ltb_spec bw (bw + Z.of_nat (length bytes))) as [Hlt|Hge].
  - set (n := get_min (bw + Z.of_nat (length bytes) - bw) MAX_HEADER_LEN).
    assert (Hn : 1 <= n <= 1024 /\ n <= Z.of_nat (length bytes) /\ (n = 1024 \/ n = Z.of_nat (length bytes))) by (unfold n, get_min, MAX_HEADER_LEN; case_bool; lia).
    assert (Hlt' : length (take (Z.to_nat n) bytes) = Z.to_nat n) by (rewrite length_take; lia). rewrite Hlt', Nat.ltb_irrefl.
    destruct (write_ok (take (Z.to_nat n) bytes) sk) as (sch & Hw & Hsch); [done|lia|]. rewrite Hlt', Z2Nat.id in Hw by lia. rewrite Hw. cbn [obind].
    rewrite u64_small, Z.ltb_irrefl by lia.
    destruct (IH (Socket (incoming sk) (outgoing sk ++ take (Z.to_nat n) bytes) sch) (bw + n) (drop (Z.to_nat n) bytes)) as (sch' & Hrun & Hsch'); [done|lia|rewrite length_drop; lia|rewrite length_drop; lia|].
    exists sch'. replace (bw + n + Z.of_nat (length (drop (Z.to_nat n) bytes))) with (bw + Z.of_nat (length bytes)) in Hrun by (rewrite length_drop; lia).
    rewrite Hrun. cbn [incoming outgoing]. by rewrite <- app_assoc, take_drop.
  - assert (bytes = []) as -> by (apply nil_length_inv; lia). exists (schedule sk). rewrite app_nil_r. by destruct sk.
Qed.

Lemma request_line_ok r : request_line (verb_of r) (method (verb_of r)) (name_of r) = (word (verb_of r) ++ name_of r) ++ [10].
Proof. destruct r; cbn; rewrite ?app_nil_r; done. Qed.

(** Whatever arrives later on the connection stays unread. *)
Lemma client_request_sent r i sch : valid r -> smooth sch ->
  exists sch', client_request r (Socket i [] sch) = Done (0, [], Socket i (request_bytes r) sch') /\ smooth sch'.
Proof.
  intros Hv Hs. assert (Hl : (length (name_of r) <= 254)%nat).
  { destruct r; cbn in *; [|destruct Hv as [Hv _]| |]; try (by destruct Hv as (_ & _ & _ & _ & _ & _ & ?)). lia. }
  unfold client_request, run_client_request. rewrite request_line_ok. set (line := (word (verb_of r) ++ name_of r) ++ [10]).
  assert (Hll : (length line <= 262)%nat) by (unfold line; rewrite !length_app; destruct r; cbn in *; lia).
  destruct (write_ok line (Socket i [] sch)) as (s1 & -> & H1); [done|lia|]. cbn [obind incoming outgoing app]. rewrite u64_small, Z.ltb_irrefl by lia.
  assert (Hbare : request_bytes r = line ++ body r) by (unfold line, request_bytes; by rewrite <- !app_assoc). rewrite Hbare.
  destruct r as [n|n d| |n]; cbn [verb_of local_of body]; try (eexists; split; [by rewrite app_nil_r|done]).
  unfold perform_put. cbn [local_size local_bytes]. destruct (send_ok (le64 (Z.of_nat (length d))) (Socket i line s1)) as (s2 & -> & H2); [done|by rewrite length_le64|].
  cbn [obind incoming outgoing]. destruct Hv as [_ Hd]. unfold MAX_HEADER_LEN.
  destruct (put_write_loop_ok (S (Z.to_nat (Z.of_nat (length d) / 1024 + 1))) (Socket i (line ++ le64 (Z.of_nat (length d))) s2) 0 d) as (s3 & Hrun & H3); [done|lia|lia|Z.div_mod_to_equations; lia|].
  rewrite Z.add_0_l in Hrun. rewrite Hrun. cbn [incoming outgoing]. rewrite <- app_assoc. by eexists.
Qed.

Lemma client_request_ok r sch : valid r -> smooth sch ->
  exists sk, client_request r (Socket [] [] sch) = Done (0, [], sk) /\ outgoing sk = request_bytes r.
Proof. intros Hv Hs. destruct (client_request_sent r [] sch Hv Hs) as (sch' & H & _). by eexists. Qed.

(** ** Answers *)

(** Without read errors the client's loop is the server's. *)
Lemma get_loop_put fuel d out s got br size : smooth s -> get_loop fuel (Socket d out s) got br size = put_loop fuel (Socket d out s) got br size.
Proof.
  revert d s got br. induction fuel as [|fuel IH]; intros d s got br Hs; [done|]. cbn [get_loop put_loop]. case_match; [|done].
  set (n := get_min _ MAX_HEADER_LEN). assert (Hn : 0 <= n <= 1024) by (unfold n, get_min, MAX_HEADER_LEN; pose proof (u64_range (size + 1 - br)); case_bool; lia).
  destruct (sock_read_ok (Socket d out s) (zeroed (MAX_HEADER_LEN + 1)) n) as (s' & -> & Hs'); [done|lia|unfold zeroed, MAX_HEADER_LEN; rewrite length_replicate; lia|].
  cbn [obind incoming outgoing]. rewrite (proj2 (Z.eqb_neq _ (-1))) by lia. case_match; [done|]. by apply IH.
Qed.

(** The first bytes of an answer, into a zeroed buffer. *)
Lemma read_zeroed_ok bs rest out s count : smooth s -> 0 <= count < 2 ^ 31 -> Z.of_nat (length bs) = count \/ (Z.of_nat (length bs) <= count /\ rest = []) ->
  forall size, count <= size ->
  exists s', read_from_socket (Socket (bs ++ rest) out s) (zeroed size) count
    = Done (Z.of_nat (length bs), bs ++ replicate (Z.to_nat size - length bs) 0, Socket rest out s') /\ smooth s'.
Proof.
  intros Hs Hc Hl size Hsz. destruct (sock_read_ok (Socket (bs ++ rest) out s) (zeroed size) count) as (s' & -> & Hs');
    [done|lia|unfold zeroed; rewrite length_replicate; lia|].
  cbn [incoming outgoing]. rewrite length_app. assert (Hk : Nat.min (Z.to_nat count) (length bs + length rest) = length bs) by (destruct Hl as [?|[? ->]]; cbn; lia).
  rewrite Hk, take_app_length, drop_app_length. unfold zeroed. rewrite drop_replicate. by exists s'.
Qed.

Lemma read_size_ok x rest out s : smooth s -> 0 <= x < 2 ^ 64 ->
  exists s', read_from_socket (Socket (le64 x ++ rest) out s) (zeroed 8) 8 = Done (8, le64 x, Socket rest out s') /\ smooth s'.
Proof.
  intros Hs Hx. destruct (read_zeroed_ok (le64 x) rest out s 8 Hs) with (size := 8) as (s' & H & Hs'); [lia|by left|lia|].
  exists s'. split; [|done]. rewrite length_le64 in H. cbn [replicate Nat.sub Z.to_nat] in H. change (Z.to_nat 8 - 8)%nat with 0%nat in H. cbn [replicate] in H. by rewrite app_nil_r in H.
Qed.

(** What a client finds in an answer. *)
Definition meaning (t : spec) (r : request) : list message * option (list Z) :=
  match r with
  | RPut _ _ => ([Print_success], None)
  | RGet n => match contents t !! n with Some d => ([], Some d) | None => ([Print_error_message err_no_such_file], None) end
  | RDelete n => match contents t !! n with Some _ => ([Print_success], None) | None => ([Print_error_message err_no_such_file], None) end
  | RList => ([Print_list (Z.of_nat (length (lines (names t)))) (lines (names t))], None)
  end.

(** Sizes the client's [int] arithmetic copes with, and names that are C strings. *)
Definition readable (t : spec) : Prop :=
  (forall n d, contents t !! n = Some d -> Z.of_nat (length d) < 2 ^ 62)
  /\ Z.of_nat (length (lines (names t))) < 2 ^ 30 /\ (forall n, n ∈ names t -> (n <> []) /\ (0 ∉ n)).

Lemma lines_length names : names <> [] -> S (length (lines names)) = sum_list_with (fun n => S (length n)) names.
Proof.
  intros Hne. induction names as [|n names IH]; [done|]. destruct names as [|n' names]; [cbn; lia|].
  change (lines (n :: n' :: names)) with (n ++ [10] ++ lines (n' :: names)). rewrite !length_app. cbn [length sum_list_with] in *. specialize (IH ltac:(done)). lia.
Qed.

Lemma list_size_ok names : Z.of_nat (length (lines names)) < 2 ^ 30 -> list_size names = Z.of_nat (length (lines names)).
Proof.
  intros Hl. destruct names as [|n names]; [done|]. pose proof (lines_length (n :: names) ltac:(done)) as Hs. revert Hl Hs. generalize (n :: names) as l. intros l Hl Hs.
  assert (H : forall l acc, 0 <= acc -> acc + Z.of_nat (sum_list_with (fun n => S (length n)) l) < 2 ^ 32 ->
    fold_left (fun size name => u64 (size + Z.of_nat (length name) + 1)) l acc = acc + Z.of_nat (sum_list_with (fun n : list Z => S (length n)) l)).
  { clear. intros l. induction l as [|m l IH]; intros acc Ha Hb; cbn [fold_left sum_list_with] in *; [lia|]. rewrite u64_small by lia. rewrite IH by lia. lia. }
  unfold list_size. rewrite H by lia. case_bool; lia.
Qed.

Lemma lines_chars names : (forall n, n ∈ names -> (n <> []) /\ (0 ∉ n)) -> 0 ∉ lines names.
Proof.
  induction names as [|n names IH]; intros Hn; [apply not_elem_of_nil|]. destruct (Hn n) as [_ H0]; [by left|]. destruct names as [|n' names]; [done|].
  change (lines (n :: n' :: names)) with (n ++ [10] ++ lines (n' :: names)). rewrite !not_elem_of_app. split; [done|]. split; [by intros ?%list_elem_of_singleton|].
  apply IH. intros m Hm. apply Hn. by right.
Qed.

Lemma read_no_such_file req opened chmodded out s : smooth s ->
  exists res, read_server_response req opened chmodded (Socket no_such_file out s) = Done res /\ result res = 0 /\ printed res = [Print_error_message err_no_such_file] /\ written res = None.
Proof.
  intros Hs. unfold read_server_response.
  destruct (read_zeroed_ok [69; 82; 82] ([79; 82; 10] ++ err_no_such_file) out s 3 Hs) with (size := 4) as (s1 & Hrun & H1); [lia|by left|lia|].
  change ([69; 82; 82] ++ [79; 82; 10] ++ err_no_such_file) with no_such_file in Hrun. rewrite Hrun. cbn [obind]. change (cstr_eq _ OK) with false. cbn iota.
  unfold read_error. change (Z.of_nat (length [69; 82; 82])) with 3. change (3 <? 0) with false. cbn iota. change (6 - 3) with 3.
  change (drop (Z.to_nat 3) _) with (zeroed 4).
  destruct (read_zeroed_ok [79; 82; 10] err_no_such_file out s1 3 H1) with (size := 4) as (s2 & Hrun2 & H2); [lia|by left|lia|].
  change ([79; 82; 10] ++ err_no_such_file) with (79 :: 82 :: 10 :: err_no_such_file) in *. rewrite Hrun2. cbn [obind]. change (cstr_eq _ ERROR) with true. cbn iota.
  destruct (read_zeroed_ok err_no_such_file [] out s2 MAX_ERROR_LEN H2) with (size := MAX_ERROR_LEN + 1) as (s3 & Hrun3 & H3); [unfold MAX_ERROR_LEN; lia|right; split; [cbn; unfold MAX_ERROR_LEN; lia|done]|lia|].
  rewrite app_nil_r in Hrun3. rewrite Hrun3. eexists. split; [done|]. split; [done|]. split; [vm_compute; reflexivity|done].
Qed.

Lemma read_ok_word req opened chmodded rest out s : smooth s -> exists s', smooth s' /\
  read_server_response req opened chmodded (Socket (OK ++ rest) out s) =
    match req with
    | PUT | DELETE => Done (Response 0 [Print_success] None (Socket rest out s'))
    | LIST => read_list (Socket rest out s')
    | GET => read_get opened chmodded (Socket rest out s')
    | V_UNKNOWN => Done (Response 0 [] None (Socket rest out s'))
    end.
Proof.
  intros Hs. unfold read_server_response. destruct (read_zeroed_ok OK rest out s 3 Hs) with (size := 4) as (s1 & -> & H1); [lia|by left|lia|].
  cbn [obind]. change (cstr_eq _ OK) with true. cbn iota. by exists s1.
Qed.

Lemma read_get_ok d out s : smooth s -> Z.of_nat (length d) < 2 ^ 62 ->
  exists sk, read_get true true (Socket (le64 (Z.of_nat (length d)) ++ d) out s) = Done (Response 0 [] (Some d) sk).
Proof.
  intros Hs Hd. unfold read_get. cbn [negb]. destruct (read_size_ok (Z.of_nat (length d)) d out s Hs) as (s1 & -> & H1); [lia|]. cbn [obind].
  rewrite le64_value_round by lia. rewrite get_loop_put by done. cbn [schedule incoming].
  destruct (put_loop_ok (length s1 + length d + 2) d out s1 [] (Z.of_nat (length d))) as (s2 & Hput & H2); [done|lia|cbn; lia|lia|].
  cbn [length] in Hput. replace (Nat.min (length d) (Z.to_nat (Z.of_nat (length d) + 1) - 0)) with (length d) in Hput by lia. rewrite take_ge, drop_ge in Hput by lia.
  change (Z.of_nat 0) with 0 in Hput. rewrite Hput. cbn [obind app Nat.add]. unfold is_error. rewrite Z.eqb_refl, Z.ltb_irrefl. cbn [negb]. rewrite andb_false_r. by eexists.
Qed.

Lemma read_list_ok l out s : smooth s -> Z.of_nat (length l) < 2 ^ 30 -> 0 ∉ l ->
  exists sk, read_list (Socket (le64 (Z.of_nat (length l)) ++ l) out s) = Done (Response 0 [Print_list (Z.of_nat (length l)) l] None sk).
Proof.
  intros Hs Hl H0. unfold read_list. destruct (read_size_ok (Z.of_nat (length l)) l out s Hs) as (s1 & -> & H1); [lia|]. cbn [obind].
  rewrite le64_value_round by lia. rewrite !u64_small by lia.
  destruct (read_zeroed_ok l [] out s1 (Z.of_nat (length l) + 1) H1) with (size := Z.of_nat (length l) + 2) as (s2 & Hrun & H2); [lia|right; split; [lia|done]|lia|].
  rewrite app_nil_r in Hrun. rewrite Hrun. cbn [obind]. rewrite u64_small by lia. unfold is_error. rewrite Z.eqb_refl, Z.ltb_irrefl. cbn [negb]. rewrite andb_false_r.
  replace (Z.to_nat (Z.of_nat (length l) + 2) - length l)%nat with 2%nat by lia. cbn [replicate]. rewrite until_zero_app by done. by eexists.
Qed.

Lemma read_answer_ok t r out s : readable t -> smooth s ->
  exists res, read_server_response (verb_of r) true true (Socket (default no_such_file (answer t r)) out s) = Done res
    /\ result res = 0 /\ (printed res, written res) = meaning t r.
Proof.
  intros (Hlen & Hl & Hn) Hs.
  assert (Hmissing : exists res, read_server_response (verb_of r) true true (Socket no_such_file out s) = Done res /\ result res = 0 /\ (printed res, written res) = ([Print_error_message err_no_such_file], None)).
  { destruct (read_no_such_file (verb_of r) true true out s Hs) as (res & H1 & H2 & H3 & H4). exists res. by rewrite H3, H4. }
  destruct r as [n|n d| |n]; cbn [answer meaning verb_of].
  - destruct (contents t !! n) as [d|] eqn:Ed; cbn [mbind option_bind from_option id]; [|exact Hmissing].
    destruct (read_ok_word GET true true (le64 (Z.of_nat (length d)) ++ d) out s Hs) as (s1 & H1 & ->).
    destruct (read_get_ok d out s1 H1) as (sk & ->); [by eapply Hlen|]. by eexists.
  - destruct (read_ok_word PUT true true [] out s Hs) as (s1 & H1 & Hr). cbn [from_option id]. change OK with (OK ++ []). rewrite Hr. by eexists.
  - cbn [from_option id]. destruct (read_ok_word LIST true true (le64 (list_size (names t)) ++ lines (names t)) out s Hs) as (s1 & H1 & ->).
    rewrite list_size_ok by done. destruct (read_list_ok (lines (names t)) out s1 H1 Hl) as (sk & ->); [by apply lines_chars|]. by eexists.
  - destruct (contents t !! n) as [d|] eqn:Ed; cbn [mbind option_bind from_option id]; [|exact Hmissing].
    destruct (read_ok_word DELETE true true [] out s Hs) as (s1 & H1 & Hr). change OK with (OK ++ []). rewrite Hr. by eexists.
Qed.

(** ** Client and server *)

(** The client writes exactly the request the server expects, and reads every answer
    of the server as what it means for the store: the file's contents, the list of
    names, success, or that there is no such file. *)
Theorem client_server_agree t r out s1 s2 :
  valid r -> readable t -> smooth s1 -> smooth s2 ->
  (exists sk, client_request r (Socket [] [] s1) = Done (0, [], sk) /\ outgoing sk = request_bytes r)
  /\ exists res, read_server_response (verb_of r) true true (Socket (default no_such_file (answer t r)) out s2) = Done res
       /\ result res = 0 /\ (printed res, written res) = meaning t r.
Proof. intros Hv Ht H1 H2. split; [by apply client_request_ok|by apply read_answer_ok]. Qed.

Section Roundtrip.

Context {SD CD F : Type} {LS : Dict key Z SD} {LC : Dict Z Z CD} {LF : TempDir F}.
Context {HS : DictLaws key Z SD} {HC : DictLaws Z Z CD} {HF : TempDirLaws F}.

Lemma spec_run_app es es' t : spec_run (es ++ es') t = spec_run es' (spec_run es t).
Proof. revert t. induction es as [|e es IH]; intros t; [done|]. cbn. apply IH. Qed.

Lemma allowed_app es es' t : allowed_run es t -> allowed_run es' (spec_run es t) -> allowed_run (es ++ es') t.
Proof. revert t. induction es as [|e es IH]; intros t; [done|]. cbn. intros [Ha Has] H. split; [done|]. by apply IH. Qed.

(** A store and a fetch on the same descriptor, one after the other. *)
Definition put_get (fd : Z) (n d : key) (s1 s2 : list event) : list net_event :=
  [NConnect fd (RPut n d) s1; NReady fd; NReady fd; NConnect fd (RGet n) s2; NReady fd; NReady fd].

Lemma put_get_run fd n d s1 s2 t : pending t !! fd = None -> plain n -> Z.of_nat (length d) < 2 ^ 62 -> smooth s1 -> smooth s2 ->
  allowed_run (put_get fd n d s1 s2) t
  /\ last (answers (spec_run (put_get fd n d s1 s2) t)) = Some (fd, OK ++ le64 (Z.of_nat (length d)) ++ d).
Proof.
  intros Hfd Hn Hd H1 H2. unfold put_get. cbn [allowed_run spec_run allowed spec_event].
  repeat (rewrite ?lookup_insert_eq, ?lookup_delete_eq; cbn [asked answer set_phase finish answered pending contents names answers mbind option_bind]).
  rewrite last_snoc. repeat match goal with |- _ /\ _ => split end; try done; by eexists.
Qed.

(** C9. Data stored by one client and fetched by another comes back unchanged, whatever
    well-formed requests other connections made before, whatever sizes the transfers
    have, and whether or not the file existed. *)
Theorem put_get_roundtrip test dir es fd n d s1 s2 s3 s4 s5 :
  (forall n, plain n -> fopen_r dir n = None) -> allowed_run es spec_start -> pending (spec_run es spec_start) !! fd = None ->
  plain n -> Z.of_nat (length d) < 2 ^ 62 -> smooth s1 -> smooth s2 -> smooth s3 -> smooth s4 -> smooth s5 ->
  exists sk1 sk2 s a res,
    client_request (RPut n d) (Socket [] [] s1) = Done (0, [], sk1)
    /\ client_request (RGet n) (Socket [] [] s2) = Done (0, [], sk2)
    /\ server_run test ((to_server <$> es) ++ [Connect fd (Socket (outgoing sk1) [] s3); Ready fd; Ready fd; Connect fd (Socket (outgoing sk2) [] s4); Ready fd; Ready fd])
         (server_start (SD := SD) (CD := CD) dir) = Done s
    /\ last (closed s) = Some (fd, a)
    /\ read_server_response GET true true (Socket a [] s5) = Done res
    /\ result res = 0 /\ written res = Some d.
Proof.
  intros Hdir Ha Hfd Hn Hd H1 H2 H3 H4 H5.
  destruct (client_request_ok (RPut n d) s1) as (sk1 & Hc1 & Ho1); [done|done|]. destruct (client_request_ok (RGet n) s2) as (sk2 & Hc2 & Ho2); [done|done|].
  destruct (put_get_run fd n d s3 s4 _ Hfd Hn Hd H3 H4) as [Hal Hlast].
  destruct (server_run_ok test (es ++ put_get fd n d s3 s4) _ _ (allowed_app _ _ _ Ha Hal) (server_start_ok (SD := SD) (CD := CD) dir Hdir)) as (s & Hrun & [_ Hc]).
  destruct (read_ok_word GET true true (le64 (Z.of_nat (length d)) ++ d) [] s5 H5) as (s6 & H6 & Hread). destruct (read_get_ok d [] s6 H6 Hd) as (sk & Hget).
  exists sk1, sk2, s, (OK ++ le64 (Z.of_nat (length d)) ++ d). eexists. split; [exact Hc1|]. split; [exact Hc2|]. split; [rewrite Ho1, Ho2; rewrite fmap_app in Hrun; exact Hrun|].
  split; [rewrite (cn_log _ _ Hc), spec_run_app; exact Hlast|]. split; [rewrite Hread; exact Hget|done].
Qed.

End Roundtrip.

(** ** Witnesses *)

Lemma client_server_agree_witness :
  exists res, read_server_response LIST true true (Socket (default no_such_file (answer (spec_run session spec_start) RList)) [] [Transfer 0; Transfer 3]) = Done res
    /\ result res = 0 /\ printed res = [Print_list 1 [97]].
Proof.
  destruct (client_server_agree (spec_run session spec_start) RList [] [] [Transfer 0; Transfer 3]) as [_ (res & H1 & H2 & H3)].
  - exact I.
  - assert (Hc : contents (spec_run session spec_start) = {[ [97] := [1; 2; 3] ]}) by (vm_compute; reflexivity).
    assert (Hn : names (spec_run session spec_start) = [[97]]) by (vm_compute; reflexivity). unfold readable. rewrite Hc, Hn. split; [|split; [cbn; lia|]].
    + intros n d [_ <-]%lookup_singleton_Some. cbn. lia.
    + intros n ->%list_elem_of_singleton. split; [done|]. by intros ?%list_elem_of_singleton.
  - exact (smooth_transfers []).
  - exact (smooth_transfers [0%nat; 3%nat]).
  - exists res. split; [exact H1|]. split; [exact H2|]. transitivity (fst (meaning (spec_run session spec_start) RList)); [exact (f_equal fst H3)|vm_compute; reflexivity].
Defined.

Lemma put_get_roundtrip_witness : exists s a res,
  server_run [0; 0] ((to_server <$> session) ++ [Connect 5 (Socket (request_bytes (RPut [97] [9; 9])) [] []); Ready 5; Ready 5;
    Connect 5 (Socket (request_bytes (RGet [97])) [] []); Ready 5; Ready 5]) start = Done s
  /\ last (closed s) = Some (5, a) /\ read_server_response GET true true (Socket a [] [Transfer 1]) = Done res /\ written res = Some [9; 9].
Proof.
  assert (Ha : plain [97]) by (by apply plain_letter). pose proof (smooth_transfers []) as H0. pose proof (smooth_transfers [1%nat]) as H1.
  destruct (put_get_roundtrip (SD := gmap key Z) (CD := gmap Z Z) [0; 0] ∅ session 5 [97] [9; 9] [] [] [] [] [Transfer 1] start_empty session_allowed)
    as (sk1 & sk2 & s & a & res & Hc1 & Hc2 & Hrun & Hlast & Hread & _ & Hw); [vm_compute; reflexivity|exact Ha|cbn; lia|exact H0|exact H0|exact H0|exact H0|exact H1|].
  exists s, a, res. split; [|split; [exact Hlast|split; [exact Hread|exact Hw]]].
  vm_compute in Hc1, Hc2. injection Hc1 as <-. injection Hc2 as <-. exact Hrun.
Defined.
