(* ===== verification/Startup.v ===== *)
(** * The programs of [nonstop_networking/] and the connections of [charming_chatroom/]

    How the network programs start and end: the calls that set a socket up, with the
    answers of the kernel and of the resolver as [kernel]; the server from its
    command line over the rounds of its [epoll] loop to [close_server]; the client
    from its command line to its exit status.  A [SIGINT] is delivered between two
    rounds. *)

From stdpp Require Import gmap strings.
From S2P Require Import Prelude CString Sockets Server Client.
Open Scope Z_scope.

(** ** Processes *)

(** What the calls return; [mkdtemp] is the path it makes of its template, and
    [a_address] the address of a host (empty for none) and a port. *)
Record kernel := Kernel {
  a_sigpipe : Z;
  a_sigint : Z;
  a_mkdtemp : option (list Z);
  a_socket : Z;
  a_getaddrinfo : Z;
  a_reuse_addr : Z;
  a_reuse_port : Z;
  a_bind : Z;
  a_listen : Z;
  a_connect : Z;
  a_epoll_create : Z;
  a_epoll_ctl : Z;
  a_address : list Z -> list Z -> list Z;
}.

(** The descriptors of sockets and of [epoll] a process has open, the address lists it
    has not freed, whether it listens, and the socket it has connected with the address
    it is connected to. *)
Record proc := Proc {
  open_fds : list Z;
  addrinfos : nat;
  listening : bool;
  connected_to : option (Z * list Z);
}.

Definition proc_start : proc := Proc [] 0 false None.

(** A call goes on with a value or ends the process. *)
Inductive step A := Goes (a : A) (p : proc) | Exits (code : Z) (p : proc).
Arguments Goes {A} _ _.
Arguments Exits {A} _ _.

Definition Run (A : Type) : Type := proc -> outcome (step A).

#[export] Instance Run_ret : MRet Run := fun A a p => Done (Goes a p).
#[export] Instance Run_bind : MBind Run := fun A B f m p =>
  let! s := m p in
  match s with
  | Goes a p => f a p
  | Exits code p => Done (Exits code p)
  end.

Definition exit {A} (code : Z) : Run A := fun p => Done (Exits code p).

(** A call on a descriptor that is not open fails. *)
Definition call_on (fd answer : Z) : Run Z := fun p => Done (Goes (if decide (fd ∈ open_fds p) then answer else -1) p).

Definition socket (answer : Z) : Run Z := fun p => Done (Goes answer (if answer =? -1 then p else Proc (answer :: open_fds p) (addrinfos p) (listening p) (connected_to p))).

(** On success [res] is set; on failure it keeps no definite value. *)
Definition getaddrinfo (answer : Z) (address : list Z) : Run (Z * option (list Z)) := fun p =>
  if answer =? 0 then Done (Goes (0, Some address) (Proc (open_fds p) (S (addrinfos p)) (listening p) (connected_to p)))
  else Done (Goes (answer, None) p).

Definition freeaddrinfo (res : option (list Z)) : Run unit := fun p =>
  match res, addrinfos p with
  | Some _, S n => Done (Goes tt (Proc (open_fds p) n (listening p) (connected_to p)))
  | _, _ => Undef
  end.

Definition listen (fd answer : Z) : Run Z := fun p =>
  if decide (fd ∈ open_fds p) then Done (Goes answer (if answer =? -1 then p else Proc (open_fds p) (addrinfos p) true (connected_to p))) else Done (Goes (-1) p).

(** [connect(fd, res->ai_addr, res->ai_addrlen)]. *)
Definition connect (fd : Z) (res : option (list Z)) (answer : Z) : Run Z := fun p =>
  let! address := deref res in
  if decide (fd ∈ open_fds p) then Done (Goes answer (if answer =? -1 then p else Proc (open_fds p) (addrinfos p) (listening p) (Some (fd, address)))) else Done (Goes (-1) p).

Definition close (fd : Z) : Run unit := fun p => Done (Goes tt (Proc (filter (fun d => d <> fd) (open_fds p)) (addrinfos p) (listening p) (connected_to p))).

(** ** [charming_chatroom] *)

(** The part of [run_server] before it accepts; the result of [socket] is not tested
    by itself. *)
Definition chat_run_server (a : kernel) (port : list Z) : Run Z :=
  sock_fd ← socket (a_socket a);
  r ← call_on sock_fd (a_reuse_addr a);
  if r <? 0 then exit 1
  else
    r ← call_on sock_fd (a_reuse_port a);
    if r <? 0 then exit 1
    else
      err ← getaddrinfo (a_getaddrinfo a) (a_address a [] port);
      if negb (err.1 =? 0) then freeaddrinfo err.2;; exit 1
      else
        bind_err ← call_on sock_fd (a_bind a);
        if bind_err =? -1 then freeaddrinfo err.2;; exit 1
        else
          freeaddrinfo err.2;;
          listen_err ← listen sock_fd (a_listen a);
          if listen_err =? -1 then exit 1 else mret sock_fd.

Definition chat_connect_to_server (a : kernel) (host port : list Z) : Run Z :=
  err ← getaddrinfo (a_getaddrinfo a) (a_address a host port);
  if negb (err.1 =? 0) then freeaddrinfo err.2;; exit 1
  else
    sock_fd ← socket (a_socket a);
    if sock_fd =? -1 then freeaddrinfo err.2;; exit 1
    else
      conn_err ← connect sock_fd err.2 (a_connect a);
      if conn_err =? -1 then freeaddrinfo err.2;; exit 1
      else
        freeaddrinfo err.2;;
        mret sock_fd.

(** ** [nonstop_networking/client.c] *)

(** -1 on failure; then the address list and the socket stay. *)
Definition connect_to_server (a : kernel) (host port : list Z) : Run Z :=
  gai ← getaddrinfo (a_getaddrinfo a) (a_address a host port);
  if negb (gai.1 =? 0) then mret (-1)
  else
    sock_fd ← socket (a_socket a);
    if sock_fd =? -1 then mret (-1)
    else
      conn ← connect sock_fd gai.2 (a_connect a);
      if conn =? -1 then mret (-1)
      else
        freeaddrinfo gai.2;;
        mret sock_fd.

(** [args]: host, port, method, remote and local name. *)
Record parsed := Parsed {
  host : list Z;
  port : list Z;
  command : list Z;
  remote : option (list Z);
  local : option (list Z);
}.

(** The words of the command line behind the name of the program. *)
Definition parse_args (argv : list (list Z)) : option parsed :=
  match argv with
  | address :: cmd :: rest =>
      match strtok 58 address [] with
      | host :: port :: _ => Some (Parsed host port (parse_method cmd) (rest !! 0%nat) (rest !! 1%nat))
      | _ => None
      end
  | _ => None
  end.

Definition cleanup_resources (fd : Z) : Run unit := close fd.

(** How the program ended, what it printed, what was sent, and the local file of a
    [GET]. *)
Record client_end := ClientEnd {
  e_code : Z;
  e_printed : list message;
  e_sent : list Z;
  e_written : option (list Z);
  e_proc : proc;
}.

(** [main]: [local_data] is what a [PUT] finds, [opened] and [chmodded] the local file
    of a [GET], [shut] the answer of [shutdown], [sk] the connection once there is one;
    what [check_args] and [main] print of their own is left out.  Reading the
    response sends nothing. *)
Definition client_main (argv : list (list Z)) (a : kernel) (local_data : local_file) (opened chmodded : bool) (shut : Z) (sk : Sockets.socket) : outcome client_end :=
  let over code p := Done (ClientEnd code [] [] None p) in
  match parse_args argv with
  | None => over 1 proc_start
  | Some args =>
      match check_args (command args) (remote args) (local args) with
      | None => over 1 proc_start
      | Some req =>
          let! s := connect_to_server a (host args) (port args) proc_start in
          match s with
          | Exits code p => over code p
          | Goes server_fd p =>
              if server_fd =? -1 then over 1 p
              else
                let! (r, msgs, sk) := run_client_request req (command args) (default [] (remote args)) local_data sk in
                if (r =? -1) || (shut =? -1) then Done (ClientEnd 1 msgs (outgoing sk) None p)
                else
                  let! res := read_server_response req opened chmodded sk in
                  if result res =? -1 then Done (ClientEnd 1 (msgs ++ printed res) (outgoing sk) (written res) p)
                  else
                    let! s := cleanup_resources server_fd p in
                    match s with Goes _ p | Exits _ p => Done (ClientEnd 0 (msgs ++ printed res) (outgoing sk) (written res) p) end
          end
      end
  end.

(** ** [nonstop_networking/server.c]: removing a directory *)

Inductive tree := File | Dir (entries : list (list Z * tree)).

Definition slash (dir_path name : list Z) : list Z := dir_path ++ 47 :: name.

(** [sprintf(buff, "%s/%s", dir_path, name)] into [2 * MAX_FILENAME + 1] bytes. *)
Definition sprintf_path (dir_path name : list Z) : outcome (list Z) :=
  if (length (slash dir_path name) <? 2 * MAX_FILENAME + 1)%nat then Done (slash dir_path name) else Undef.

(** What is left where the directory was.  [readdir] also gives "." and "..", for
    which only the path is built; [rmdir] removes a directory that is empty. *)
Fixpoint rm_unempty_dir (dir_path : list Z) (t : tree) : outcome (option tree) :=
  match t with
  | File => Undef
  | Dir entries =>
      let! _ := sprintf_path dir_path [46] in
      let! _ := sprintf_path dir_path [46; 46] in
      let! kept :=
        (fix loop (es : list (list Z * tree)) : outcome (list (list Z * tree)) :=
           match es with
           | [] => Done []
           | (name, e) :: es =>
               let! buff := sprintf_path dir_path name in
               let! e' := match e with File => Done None | Dir _ => rm_unempty_dir buff e end in
               let! es' := loop es in
               Done (match e' with Some e' => (name, e') :: es' | None => es' end)
           end) entries in
      Done (if decide (length kept = 0%nat) then None else Some (Dir kept))
  end.

(** ** The server *)

Section Server_main.

Context {SD CD F : Type} {LS : Dict key Z SD} {LC : Dict Z Z CD} {LF : TempDir F}.

(** [dictionary_values], and the entries of the temporary directory. *)
Variable dictionary_values : CD -> list Z.
Variable dir_entries : F -> list (list Z * tree).

Abbreviation server := (Server.server (SD := SD) (CD := CD) (F := F)).

Fixpoint free_infos (c_infos : list Z) (h : gmap Z client_info) : outcome (gmap Z client_info) :=
  match c_infos with
  | [] => Done h
  | p :: c_infos => if decide (is_Some (h !! p)) then free_infos c_infos (delete p h) else Undef
  end.

(** How the process ends: the status, the answers given, the connection objects that
    are left and what is left of the directory, [None] when it is gone. *)
Record server_end := ServerEnd {
  x_code : Z;
  x_closed : list (Z * list Z);
  x_heap : gmap Z client_info;
  x_dir : option tree;
  x_proc : proc;
}.

(** [_exit(1)], on every path; the listening socket and the connections are not
    closed. *)
Definition close_server (epoll_fd : Z) (dir_path : list Z) (s : server) (p : proc) : outcome server_end :=
  let fds := if epoll_fd =? -1 then open_fds p else filter (fun d => d <> epoll_fd) (open_fds p) in
  let! h := free_infos (dictionary_values (client_dict s)) (heap s) in
  let entries := dir_entries (temp_dir (files s)) in
  let! d := match entries with [] => Done None | _ => rm_unempty_dir dir_path (Dir entries) end in
  Done (ServerEnd 1 (closed s) h d (Proc fds (addrinfos p) (listening p) (connected_to p))).

(** [exit(code)] leaves everything as it is. *)
Definition exit_as_is (code : Z) (s : server) (p : proc) : server_end :=
  ServerEnd code (closed s) (heap s) (Some (Dir (dir_entries (temp_dir (files s))))) p.

(** The descriptor of the listening socket, or the end. *)
Definition setup_server_conn (a : kernel) (g_port dir_path : list Z) (s : server) (p : proc) : outcome (Z * proc + server_end) :=
  let fail p := let! e := close_server (-1) dir_path s p in Done (inr e) in
  let calls : Run (option Z) :=
    sock_fd ← socket (a_socket a);
    if sock_fd =? -1 then mret None
    else
      gai ← getaddrinfo (a_getaddrinfo a) (a_address a [] g_port);
      if negb (gai.1 =? 0) then mret None
      else
        r ← call_on sock_fd (a_reuse_addr a);
        if r <? 0 then mret None
        else
          r ← call_on sock_fd (a_reuse_port a);
          if r <? 0 then mret None
          else
            r ← call_on sock_fd (a_bind a);
            if r =? -1 then mret None
            else
              r ← listen sock_fd (a_listen a);
              if r =? -1 then mret None
              else
                freeaddrinfo gai.2;;
                mret (Some sock_fd) in
  let! st := calls p in
  match st with
  | Goes (Some fd) p => Done (inl (fd, p))
  | Goes None p | Exits _ p => fail p
  end.

(** One round of the loop: [epoll_wait] fails, or reports these events (none after a
    timeout); accepting a connection and watching it can fail. *)
Inductive arrival := Event (e : server_event_kind) | Accept_fails | Watch_fails.

Inductive round := Wait_fails | Wait (es : list arrival) | Sigint.

(** What a round does to the descriptors: [accept] opens one, and that of a connection
    that has been served is closed ([clean_client]). *)
Definition track (e : server_event_kind) (s : server) (p : proc) : proc :=
  let fds :=
    match e with
    | Connect fd _ => fd :: open_fds p
    | Ready fd => if decide (is_Some (sockets s !! fd)) then open_fds p else filter (fun d => d <> fd) (open_fds p)
    end in
  Proc fds (addrinfos p) (listening p) (connected_to p).

Fixpoint handle_arrivals (test : list Z) (es : list arrival) (s : server) (p : proc) : outcome (server * proc * bool) :=
  match es with
  | [] => Done (s, p, true)
  | Event e :: es => let! s := server_event test e s in handle_arrivals test es s (track e s p)
  | (Accept_fails | Watch_fails) :: es => Done (s, p, false)
  end.

(** [inl]: still in the loop after all rounds. *)
Fixpoint epoll_loop (test : list Z) (epoll_fd : Z) (dir_path : list Z) (rs : list round) (s : server) (p : proc) : outcome (server + server_end) :=
  match rs with
  | [] => Done (inl s)
  | Wait_fails :: _ => Done (inr (exit_as_is 1 s p))
  | Sigint :: _ => let! e := close_server epoll_fd dir_path s p in Done (inr e)
  | Wait es :: rs =>
      let! (s, p, goes_on) := handle_arrivals test es s p in
      if goes_on then epoll_loop test epoll_fd dir_path rs s p else Done (inr (exit_as_is 1 s p))
  end.

Definition setup_epoll (a : kernel) (test : list Z) (dir_path : list Z) (rs : list round) (s : server) (p : proc) : outcome (server + server_end) :=
  let epoll_fd := a_epoll_create a in
  if epoll_fd =? -1 then Done (inr (exit_as_is 1 s p))
  else
    let p := Proc (epoll_fd :: open_fds p) (addrinfos p) (listening p) (connected_to p) in
    if a_epoll_ctl a =? -1 then Done (inr (exit_as_is 1 s p))
    else epoll_loop test epoll_fd dir_path rs s p.

(** True when both handlers are installed. *)
Definition setup_handlers (a : kernel) : bool := negb (a_sigpipe a <? 0) && negb (a_sigint a <? 0).

(** [strdup(NULL)] when [mkdtemp] fails is undefined. *)
Definition setup_dir (a : kernel) : outcome (list Z) := deref (a_mkdtemp a).

(** [main], given the words behind the program's name and the empty directory that
    [mkdtemp] makes; before [setup_global_variables] nothing is left to clean up but
    that directory. *)
Definition server_main (argv : list (list Z)) (a : kernel) (dir : F) (test : list Z) (rs : list round) : outcome (server + server_end) :=
  let early code := Done (inr (ServerEnd code [] ∅ None proc_start)) in
  match argv with
  | [] => early 1
  | g_port :: _ =>
      if negb (setup_handlers a) then early 1
      else
        let! dir_path := setup_dir a in
        let s := server_start dir in
        let! c := setup_server_conn a g_port dir_path s proc_start in
        match c with
        | inr e => Done (inr e)
        | inl (_, p) => setup_epoll a test dir_path rs s p
        end
  end.

End Server_main.
