(* ===== verification/StartupSpec.v ===== *)
(** * Starting and ending: the theorems

    Sockets are set up exactly when every call succeeds; removing a directory removes
    the whole tree or overflows its path buffer; the life of the server and of a
    client from the command line to the exit status. *)

From stdpp Require Import gmap strings.
From S2P Require Import Prelude CString Sockets Server ServerSpec Client ClientSpec Startup.
Open Scope Z_scope.

(** ** Setting up *)

(** The answers of calls that all succeed. *)
Definition socket_good (a : kernel) : Prop := a_getaddrinfo a = 0 /\ a_socket a <> -1.

Definition listen_good (a : kernel) : Prop :=
  socket_good a /\ 0 <= a_reuse_addr a /\ 0 <= a_reuse_port a /\ a_bind a <> -1 /\ a_listen a <> -1.

Lemma socket_run fd p : fd <> -1 -> socket fd p = Done (Goes fd (Proc (fd :: open_fds p) (addrinfos p) (listening p) (connected_to p))).
Proof. intros H. unfold socket. by rewrite (proj2 (Z.eqb_neq _ _)). Qed.

Lemma call_on_run fd r p : fd ∈ open_fds p -> call_on fd r p = Done (Goes r p).
Proof. intros H. unfold call_on. by rewrite decide_True. Qed.

Lemma run_bind_goes {A B} (m : Run A) (f : A -> Run B) p a p' : m p = Done (Goes a p') -> mbind f m p = f a p'.
Proof. intros H. unfold mbind, Run_bind. by rewrite H. Qed.

Lemma chat_run_server_ok a port : listen_good a -> chat_run_server a port proc_start = Done (Goes (a_socket a) (Proc [a_socket a] 0 true None)).
Proof.
  intros ((Hg & Hs) & H1 & H2 & H3 & H4). unfold chat_run_server. rewrite (run_bind_goes _ _ _ _ _ (socket_run _ _ Hs)). cbn [open_fds proc_start addrinfos listening connected_to].
  erewrite run_bind_goes by (apply call_on_run; by left). rewrite (proj2 (Z.ltb_ge _ _)) by done.
  erewrite run_bind_goes by (apply call_on_run; by left). rewrite (proj2 (Z.ltb_ge _ _)) by done.
  unfold getaddrinfo. rewrite Hg. unfold mbind, Run_bind. cbn [Z.eqb obind fst snd negb open_fds addrinfos listening connected_to].
  rewrite call_on_run by (by left). cbn [obind]. rewrite (proj2 (Z.eqb_neq _ _)) by done. cbn [freeaddrinfo addrinfos obind open_fds listening connected_to].
  unfold listen. cbn [open_fds]. rewrite decide_True by (by left). cbn [obind addrinfos listening connected_to]. by rewrite (proj2 (Z.eqb_neq _ _)) by done.
Qed.

(** When the address cannot be resolved a pointer without a value is freed. *)
Lemma chat_unresolved_undefined a host port : a_socket a <> -1 -> 0 <= a_reuse_addr a -> 0 <= a_reuse_port a -> a_getaddrinfo a <> 0 ->
  chat_run_server a port proc_start = Undef /\ chat_connect_to_server a host port proc_start = Undef.
Proof.
  intros Hs H1 H2 Hg. assert (Hgai : forall ad p, getaddrinfo (a_getaddrinfo a) ad p = Done (Goes (a_getaddrinfo a, None) p)) by (intros ad p; unfold getaddrinfo; by rewrite (proj2 (Z.eqb_neq _ _))). split.
  - unfold chat_run_server. rewrite (run_bind_goes _ _ _ _ _ (socket_run _ _ Hs)). cbn [open_fds proc_start addrinfos listening connected_to].
    erewrite run_bind_goes by (apply call_on_run; by left). rewrite (proj2 (Z.ltb_ge _ _)) by done.
    erewrite run_bind_goes by (apply call_on_run; by left). rewrite (proj2 (Z.ltb_ge _ _)) by done.
    rewrite (run_bind_goes _ _ _ _ _ (Hgai _ _)). cbn [fst snd]. by rewrite (proj2 (Z.eqb_neq _ _)).
  - unfold chat_connect_to_server. rewrite (run_bind_goes _ _ _ _ _ (Hgai _ _)). cbn [fst snd]. by rewrite (proj2 (Z.eqb_neq _ _)).
Qed.

Lemma connect_succeeds a host port : socket_good a -> a_connect a <> -1 ->
  connect_to_server a host port proc_start = Done (Goes (a_socket a) (Proc [a_socket a] 0 false (Some (a_socket a, a_address a host port))))
  /\ chat_connect_to_server a host port proc_start = Done (Goes (a_socket a) (Proc [a_socket a] 0 false (Some (a_socket a, a_address a host port)))).
Proof.
  intros (Hg & Hs) Hc. unfold connect_to_server, chat_connect_to_server, getaddrinfo. rewrite Hg. unfold mbind, Run_bind. cbn [Z.eqb obind fst snd negb open_fds addrinfos listening connected_to proc_start].
  rewrite socket_run by done. cbn [obind open_fds addrinfos listening connected_to]. rewrite (proj2 (Z.eqb_neq _ _)) by done.
  unfold connect. cbn [open_fds deref obind]. rewrite decide_True by (by left). cbn [obind addrinfos listening connected_to]. rewrite (proj2 (Z.eqb_neq (a_connect a) _)) by done.
  done.
Qed.

(** ** Removing a directory *)

(** Every path below a directory whose own path has [n] bytes fits the buffer. *)
Fixpoint fits (n : nat) (t : tree) : bool :=
  match t with
  | File => true
  | Dir entries => (n + 3 <=? 512)%nat && forallb (fun e => (n + 1 + length e.1 <=? 512)%nat && fits (n + 1 + length e.1) e.2) entries
  end.

Fixpoint tree_size (t : tree) : nat := match t with File => 1 | Dir es => S (sum_list_with (fun e => tree_size e.2) es) end.

Lemma sprintf_path_run dir_path name : sprintf_path dir_path name = if (length dir_path + 1 + length name <=? 512)%nat then Done (slash dir_path name) else Undef.
Proof.
  unfold sprintf_path, slash. rewrite length_app. cbn [length]. destruct (Nat.leb_spec (length dir_path + 1 + length name) 512) as [H|H].
  - by rewrite (proj2 (Nat.ltb_lt _ _)) by (unfold MAX_FILENAME; lia).
  - by rewrite (proj2 (Nat.ltb_ge _ _)) by (unfold MAX_FILENAME; lia).
Qed.

(** All of the tree is removed, or some path is too long for the buffer. *)
Lemma rm_unempty_dir_ok es : forall dir_path, rm_unempty_dir dir_path (Dir es) = if fits (length dir_path) (Dir es) then Done None else Undef.
Proof.
  enough (H : forall k es, (tree_size (Dir es) <= k)%nat -> forall dir_path, rm_unempty_dir dir_path (Dir es) = if fits (length dir_path) (Dir es) then Done None else Undef) by (by eapply H).
  clear es. induction k as [|k IH]; intros es Hk dir_path; [cbn in Hk; lia|]. cbn [rm_unempty_dir fits]. rewrite !sprintf_path_run. cbn [length].
  destruct (Nat.leb_spec (length dir_path + 3) 512) as [H3|H3]; cbn [andb].
  2: { destruct (Nat.leb_spec (length dir_path + 1 + 1) 512); cbn [obind]; [|done]. by rewrite (proj2 (Nat.leb_gt _ _)) by lia. }
  rewrite !(proj2 (Nat.leb_le _ _)) by lia. cbn [obind]. match goal with |- (let! _ := ?loop es in _) = _ => set (go := loop) end.
  assert (Hgo : go es = if forallb (fun e => (length dir_path + 1 + length e.1 <=? 512)%nat && fits (length dir_path + 1 + length e.1) e.2) es then Done [] else Undef); [|rewrite Hgo; by destruct (forallb _ es)].
  cbn [tree_size] in Hk. assert (Hk' : (sum_list_with (fun e => tree_size e.2) es <= k)%nat) by lia. clear Hk. induction es as [|[name e] es IHes]; [done|]. cbn [forallb fst snd]. cbn [sum_list_with snd] in Hk'.
  unfold go; fold go. rewrite sprintf_path_run. destruct (length dir_path + 1 + length name <=? 512)%nat; cbn [obind andb]; [|done].
  assert (He : match e with File => Done None | Dir _ => rm_unempty_dir (slash dir_path name) e end = if fits (length dir_path + 1 + length name) e then Done None else Undef).
  { destruct e as [|es']; [done|]. rewrite IH by lia. unfold slash. rewrite length_app. cbn [length]. by replace (length dir_path + S (length name))%nat with (length dir_path + 1 + length name)%nat by lia. }
  rewrite He. destruct (fits _ e); cbn [obind andb]; [|done]. rewrite IHes by lia. by destruct (forallb _ es).
Qed.

Example deep_overflows : rm_unempty_dir (replicate 256 97) (Dir [(replicate 255 98, Dir [])]) = Undef.
Proof. rewrite rm_unempty_dir_ok. reflexivity. Qed.

(** ** The client *)

Lemma strtok_part s c cur : c ∉ s -> forall t, strtok c (s ++ c :: t) cur = if decide (rev s ++ cur = []) then strtok c t [] else rev (rev s ++ cur) :: strtok c t [].
Proof.
  revert cur. induction s as [|x s IH]; intros cur H t; cbn [app strtok rev]; [by rewrite Z.eqb_refl|].
  apply not_elem_of_cons in H as [Hx Hs]. rewrite (proj2 (Z.eqb_neq x c)) by done. rewrite IH by done. by rewrite <- app_assoc.
Qed.

Lemma strtok_last s c cur : c ∉ s -> strtok c s cur = if decide (rev s ++ cur = []) then [] else [rev (rev s ++ cur)].
Proof.
  revert cur. induction s as [|x s IH]; intros cur H; cbn [strtok rev app]; [done|].
  apply not_elem_of_cons in H as [Hx Hs]. rewrite (proj2 (Z.eqb_neq x c)) by done. rewrite IH by done. by rewrite <- app_assoc.
Qed.

Lemma strtok_two c s t : s <> [] -> t <> [] -> c ∉ s -> c ∉ t -> strtok c (s ++ c :: t) [] = [s; t].
Proof.
  intros Hs Ht Hc1 Hc2. rewrite strtok_part by done. rewrite decide_False by (rewrite app_nil_r; intros E; apply Hs; by rewrite <- (rev_involutive s), E).
  rewrite strtok_last by done. rewrite decide_False by (rewrite app_nil_r; intros E; apply Ht; by rewrite <- (rev_involutive t), E).
  by rewrite !app_nil_r, !rev_involutive.
Qed.

(** The words behind the method: the name, and the local file where there is one. *)
Definition arguments (r : request) (file : list Z) : list (list Z) :=
  match r with
  | RGet n | RPut n _ => [n; file]
  | RDelete n => [n]
  | RList => []
  end.

Lemma check_args_ok r file : check_args (method (verb_of r)) (arguments r file !! 0%nat) (arguments r file !! 1%nat) = Some (verb_of r).
Proof. by destruct r. Qed.

Lemma arguments_name r file : default [] (arguments r file !! 0%nat) = name_of r.
Proof. by destruct r. Qed.

(** C39. The client from the command line to its exit: [host:port], a method in any mix of
    cases and its arguments make it connect its socket to the address [host] and [port]
    resolve to, send exactly the request, and, when the
    server answers as the store [t], print and write what the answer means; it exits
    with 0, the connection closed and the address list freed. *)
Theorem client_main_correct t r h p m file a chunks :
  h <> [] -> p <> [] -> 58 ∉ h -> 58 ∉ p -> parse_method m = method (verb_of r) ->
  socket_good a -> a_connect a <> -1 -> valid r -> readable t -> smooth chunks ->
  let arriving := default no_such_file (answer t r) in
  exists e, client_main ((h ++ 58 :: p) :: m :: arguments r file) a (local_of r) true true 0 (Socket arriving [] chunks) = Done e
    /\ e_code e = 0 /\ e_sent e = request_bytes r /\ (e_printed e, e_written e) = meaning t r
    /\ connected_to (e_proc e) = Some (a_socket a, a_address a h p)
    /\ open_fds (e_proc e) = [] /\ addrinfos (e_proc e) = 0%nat.
Proof.
  intros Hh Hp Hh' Hp' Hm Hg Hc Hv Ht Hs arriving. unfold client_main, parse_args. rewrite strtok_two by done. cbn [command remote local host port]. rewrite Hm, check_args_ok.
  destruct (connect_succeeds a h p Hg Hc) as [-> _]. cbn [obind]. rewrite (proj2 (Z.eqb_neq _ _)) by apply Hg. rewrite arguments_name.
  destruct (client_request_sent r arriving chunks Hv Hs) as (sch & Hreq & Hsch). unfold client_request in Hreq. rewrite Hreq. cbn [obind Z.eqb orb].
  destruct (read_answer_ok t r (request_bytes r) sch Ht Hsch) as (res & Hres & H0 & Hmean). unfold arriving in *. rewrite Hres. cbn [obind]. rewrite H0. cbn [Z.eqb cleanup_resources close obind app].
  eexists. split; [done|]. cbn [e_code e_sent e_printed e_written e_proc open_fds addrinfos outgoing connected_to]. repeat split; [done|].
  by rewrite filter_cons_False by (intros H; by apply H).
Qed.

(** Without enough words nothing is opened. *)
Lemma client_usage argv a lf o c shut sk : (length argv < 2)%nat -> exists e, client_main argv a lf o c shut sk = Done e /\ e_code e = 1 /\ e_proc e = proc_start.
Proof. intros H. destruct argv as [|x [|y argv]]; [by eexists..|cbn in H; lia]. Qed.

(** ** The server *)

Section Lifecycle.

Context {SD CD F : Type} {LS : Dict key Z SD} {LC : Dict Z Z CD} {LF : TempDir F}.
Context {HS : DictLaws key Z SD} {HC : DictLaws Z Z CD} {HF : TempDirLaws F}.

(** [dictionary_values] gives the value of every key once; the directory holds files
    with names of at most [NAME_MAX] bytes. *)
Variable dictionary_values : CD -> list Z.
Variable dir_entries : F -> list (list Z * tree).
Hypothesis values_all : forall d, exists keys, NoDup keys /\ (forall k, k ∈ keys <-> is_Some (dictionary_at d k)) /\ dictionary_values d = omap (dictionary_at d) keys.
Hypothesis entries_flat : forall d n e, (n, e) ∈ dir_entries d -> e = File /\ (length n <= 255)%nat.

Abbreviation server := (Server.server (SD := SD) (CD := CD) (F := F)).
Abbreviation server_main := (server_main dictionary_values dir_entries).
Abbreviation close_server := (close_server dictionary_values dir_entries).

Lemma free_infos_ok ps : forall h, NoDup ps -> (forall p, p ∈ ps <-> is_Some (h !! p)) -> free_infos ps h = Done ∅.
Proof.
  induction ps as [|p ps IH]; intros h Hnd Hh; cbn [free_infos].
  - f_equal. apply map_eq. intros p. rewrite lookup_empty. apply eq_None_not_Some. by intros ?%Hh%elem_of_nil.
  - apply NoDup_cons in Hnd as [Hp Hnd]. rewrite decide_True by (apply Hh; by left). apply IH; [done|]. intros q. destruct (decide (q = p)) as [->|Hq].
    + rewrite lookup_delete_eq. split; [done|by intros []].
    + rewrite lookup_delete_ne by done. rewrite <- Hh, elem_of_cons. tauto.
Qed.

Lemma values_heap (s : server) t : connected s t -> NoDup (dictionary_values (client_dict s)) /\ forall p, p ∈ dictionary_values (client_dict s) <-> is_Some (heap s !! p).
Proof.
  intros Hc. destruct (values_all (client_dict s)) as (keys & Hnd & Hk & ->). split.
  - clear Hk. induction Hnd as [|k keys Hk Hnd IH]; [constructor|]. cbn [omap list_omap]. destruct (dictionary_at (client_dict s) k) as [p|] eqn:E; [|done].
    constructor; [|done]. intros (k' & Hk' & E')%list_elem_of_omap. by rewrite (cn_inj _ _ Hc _ _ _ E E') in Hk.
  - intros p. rewrite list_elem_of_omap. split.
    + intros (fd & _ & Hp). destruct (open_pending _ _ _ _ Hc Hp) as [ph Hph]. destruct (cn_open _ _ Hc fd ph Hph) as (p' & c & sk & w & Hp' & Hh & _). rewrite Hp in Hp'. injection Hp' as ->. by exists c.
    + intros Hp. destruct (cn_heap _ _ Hc p Hp) as [fd Hfd]. exists fd. split; [apply Hk; by eexists|done].
Qed.

Lemma close_server_ok epoll_fd path (s : server) t p : connected s t -> (length path <= 256)%nat ->
  close_server epoll_fd path s p
  = Done (ServerEnd 1 (closed s) ∅ None (Proc (if epoll_fd =? -1 then open_fds p else filter (fun d => d <> epoll_fd) (open_fds p)) (addrinfos p) (listening p) (connected_to p))).
Proof.
  intros Hc Hp. unfold Startup.close_server. destruct (values_heap s t Hc) as [H1 H2]. rewrite free_infos_ok by done. cbn [obind].
  pose proof (entries_flat (temp_dir (files s))) as Hfl. destruct (dir_entries _) as [|e es]; [done|]. rewrite rm_unempty_dir_ok. cbn [fits]. rewrite (proj2 (Nat.leb_le _ _)) by lia. cbn [andb].
  rewrite (proj2 (forallb_forall _ _)); [done|]. intros [n e'] Hin. destruct (Hfl n e') as [-> Hn]; [by apply list_elem_of_In|]. cbn [fst snd fits]. rewrite andb_true_r. apply Nat.leb_le. lia.
Qed.

(** Rounds in which nothing fails. *)
Definition rounds (ess : list (list net_event)) : list round := (fun es => Wait ((fun e => Event (to_server e)) <$> es)) <$> ess.

(** The open descriptors: those of [base] and of the connections being served. *)
Record tracks (base : list Z) (s : server) (p : proc) : Prop := Tracks {
  tr_fds : forall fd, fd ∈ open_fds p <-> fd ∈ base \/ is_Some (sockets s !! fd);
  tr_nodup : NoDup (open_fds p);
  tr_apart : forall fd, is_Some (sockets s !! fd) -> fd ∉ base;
}.

(** [accept] gives no descriptor of [base]. *)
Definition accepts_new (base : list Z) (es : list net_event) : Prop := forall fd r sch, NConnect fd r sch ∈ es -> fd ∉ base.

Lemma open_sockets (s : server) t fd : connected s t -> is_Some (sockets s !! fd) <-> is_Some (pending t !! fd).
Proof.
  intros Hc. destruct (pending t !! fd) as [ph|] eqn:E.
  - destruct (cn_open _ _ Hc fd ph E) as (p & c & sk & w & _ & _ & -> & _). split; by eexists.
  - destruct (cn_none _ _ Hc fd E) as (_ & -> & _). split; by intros [].
Qed.

Lemma asked_pending r t : pending (asked r t) = pending t.
Proof. by destruct r. Qed.

Lemma answered_pending r t : pending (answered r t) = pending t.
Proof. by destruct r. Qed.

Lemma pending_other e t fd : match e with NConnect fd' _ _ | NReady fd' => fd <> fd' end -> pending (spec_event e t) !! fd = pending t !! fd.
Proof.
  destruct e as [fd' r sch|fd']; cbn; intros Hne; [by rewrite lookup_insert_ne|].
  destruct (pending t !! fd') as [[r|r|]|]; [| | |done].
  - cbn. rewrite lookup_insert_ne by done. by rewrite asked_pending.
  - destruct (answer t r); cbn; [|by rewrite lookup_insert_ne]. rewrite lookup_delete_ne by done. by rewrite answered_pending.
  - cbn. by rewrite lookup_delete_ne.
Qed.

Lemma track_ok base e (s s' : server) t p : allowed e t -> connected s t -> connected s' (spec_event e t) -> accepts_new base [e] ->
  tracks base s p -> tracks base s' (track (to_server e) s' p).
Proof.
  intros Ha Hc Hc' Hnew [H1 H2 H3].
  assert (Hother : forall fd, match e with NConnect fd' _ _ | NReady fd' => fd <> fd' end -> is_Some (sockets s' !! fd) <-> is_Some (sockets s !! fd)).
  { intros fd Hne. by rewrite (open_sockets s' _ fd Hc'), (open_sockets s _ fd Hc), pending_other. }
  destruct e as [fd' r sch|fd']; cbn [to_server].
  - destruct Ha as (Hn & _). assert (Hb : fd' ∉ base) by (apply (Hnew fd' r sch); by left).
    assert (Hs : is_Some (sockets s' !! fd')) by (apply (open_sockets s' _ fd' Hc'); cbn; rewrite lookup_insert_eq; by eexists).
    assert (Hs0 : ~ is_Some (sockets s !! fd')) by (rewrite (open_sockets s _ fd' Hc), Hn; by intros []).
    split; cbn [track open_fds].
    + intros fd. rewrite elem_of_cons, H1. destruct (decide (fd = fd')) as [->|Hne]; [tauto|]. rewrite (Hother fd Hne). tauto.
    + constructor; [|done]. rewrite H1. tauto.
    + intros fd Hfd. destruct (decide (fd = fd')) as [->|Hne]; [done|]. apply H3. by apply (Hother fd Hne).
  - assert (Hapart : forall fd, is_Some (sockets s' !! fd) -> fd ∉ base).
    { intros fd Hfd. destruct (decide (fd = fd')) as [->|Hne]; [|apply H3; by apply (Hother fd Hne)]. apply H3. by apply (open_sockets s _ fd' Hc). }
    assert (Hb : fd' ∉ base) by (apply H3; by apply (open_sockets s _ fd' Hc)).
    split; cbn [track open_fds]; [| |done]; case_decide as Hd.
    + intros fd. rewrite H1. destruct (decide (fd = fd')) as [->|Hne]; [|by rewrite (Hother fd Hne)].
      split; [by right|]. intros _. right. by apply (open_sockets s _ fd' Hc).
    + intros fd. rewrite list_elem_of_filter, H1. destruct (decide (fd = fd')) as [->|Hne]; [tauto|]. rewrite (Hother fd Hne). tauto.
    + done.
    + by apply NoDup_filter.
Qed.

Lemma handle_arrivals_ok base test es : forall (s : server) t p, allowed_run es t -> sim s t -> accepts_new base es -> tracks base s p ->
  exists s' p', handle_arrivals test ((fun e => Event (to_server e)) <$> es) s p = Done (s', p', true) /\ sim s' (spec_run es t) /\ tracks base s' p'
    /\ addrinfos p' = addrinfos p /\ listening p' = listening p.
Proof.
  induction es as [|e es IH]; intros s t p Ha Hs Hn Ht; [by exists s, p|]. cbn [fmap list_fmap handle_arrivals spec_run]. destruct Ha as [Ha Has].
  destruct (server_event_ok test e s t Ha Hs) as (s1 & Hrun & H1). rewrite Hrun. cbn [obind].
  destruct (IH s1 (spec_event e t) (track (to_server e) s1 p) Has H1) as (s' & p' & -> & H2 & H3 & H4 & H5).
  - intros fd r sch Hin. apply (Hn fd r sch). by right.
  - apply (track_ok base e s s1 t p Ha); [apply Hs|apply H1| |done]. intros fd r sch Hin%list_elem_of_singleton. apply (Hn fd r sch). rewrite Hin. by left.
  - exists s', p'. split; [done|]. split; [done|]. split; [done|]. rewrite H4, H5. by destruct e.
Qed.

Lemma allowed_run_app es1 es2 t : allowed_run (es1 ++ es2) t <-> allowed_run es1 t /\ allowed_run es2 (spec_run es1 t).
Proof. revert t. induction es1 as [|e es1 IH]; intros t; cbn; [tauto|]. rewrite IH. tauto. Qed.

Lemma spec_run_concat es1 es2 t : spec_run (es1 ++ es2) t = spec_run es2 (spec_run es1 t).
Proof. revert t. induction es1 as [|e es1 IH]; intros t; [done|]. apply IH. Qed.

Lemma epoll_rounds base test epoll_fd path rs ess : forall (s : server) t p, allowed_run (concat ess) t -> sim s t -> accepts_new base (concat ess) -> tracks base s p ->
  exists s' p', epoll_loop dictionary_values dir_entries test epoll_fd path (rounds ess ++ rs) s p = epoll_loop dictionary_values dir_entries test epoll_fd path rs s' p'
    /\ sim s' (spec_run (concat ess) t) /\ tracks base s' p' /\ addrinfos p' = addrinfos p /\ listening p' = listening p.
Proof.
  induction ess as [|es ess IH]; intros s t p Ha Hs Hn Ht; cbn [concat] in *; [by exists s, p|].
  apply allowed_run_app in Ha as [Ha Has]. rewrite spec_run_concat. unfold rounds. cbn [fmap list_fmap app epoll_loop].
  destruct (handle_arrivals_ok base test es s t p Ha Hs) as (s1 & p1 & Hrun & H1 & H2 & H3 & H4); [|done|].
  { intros fd r sch Hin. apply (Hn fd r sch). apply elem_of_app. by left. }
  rewrite Hrun. cbn [obind]. destruct (IH s1 (spec_run es t) p1 Has H1) as (s' & p' & H5 & H6 & H7 & H8 & H9); [|done|].
  { intros fd r sch Hin. apply (Hn fd r sch). apply elem_of_app. by right. }
  exists s', p'. split; [exact H5|]. split; [exact H6|]. split; [exact H7|]. split; congruence.
Qed.

Lemma setup_server_conn_ok a g_port path (s : server) p : listen_good a ->
  setup_server_conn dictionary_values dir_entries a g_port path s p = Done (inl (a_socket a, Proc (a_socket a :: open_fds p) (addrinfos p) true (connected_to p))).
Proof.
  intros ((Hg & Hs) & H1 & H2 & H3 & H4). unfold setup_server_conn, getaddrinfo. rewrite Hg. unfold mbind, Run_bind. rewrite socket_run by done. cbn [obind]. rewrite (proj2 (Z.eqb_neq _ _)) by done.
  cbn [Z.eqb obind fst snd negb open_fds addrinfos listening connected_to]. rewrite call_on_run by (by left). cbn [obind]. rewrite (proj2 (Z.ltb_ge _ _)) by done.
  rewrite call_on_run by (by left). cbn [obind]. rewrite (proj2 (Z.ltb_ge _ _)) by done.
  rewrite call_on_run by (by left). cbn [obind]. rewrite (proj2 (Z.eqb_neq _ _)) by done.
  unfold listen. cbn [open_fds]. rewrite decide_True by (by left). cbn [obind addrinfos listening connected_to]. by rewrite (proj2 (Z.eqb_neq _ _)) by done.
Qed.

(** What the set-up comes to: a listening socket, or the end with everything cleaned up. *)
Definition set_up (s : server) (p : proc) (r : Z * proc + server_end) : Prop :=
  match r with
  | inl (fd, p') => fd ∈ open_fds p' /\ listening p' = true /\ addrinfos p' = addrinfos p
  | inr e => x_code e = 1 /\ x_heap e = ∅ /\ x_dir e = None /\ x_closed e = closed s
  end.

(** Whatever call of the set-up fails, the server ends and cleans up; otherwise it listens. *)
Lemma setup_server_conn_total a g_port path (s : server) t p : connected s t -> (length path <= 256)%nat ->
  exists r, setup_server_conn dictionary_values dir_entries a g_port path s p = Done r /\ set_up s p r.
Proof.
  intros Hc Hp. unfold setup_server_conn.
  assert (Hfail : forall q, exists r, (let! e := close_server (-1) path s q in Done (inr e)) = Done r /\ set_up s p r) by (intros q; rewrite (close_server_ok _ _ _ _ _ Hc Hp); by eexists).
  unfold mbind, Run_bind, mret, Run_ret. cbv zeta. destruct (Z.eqb_spec (a_socket a) (-1)) as [E|E].
  { unfold socket. rewrite E. apply Hfail. }
  rewrite socket_run by done. cbn [obind]. rewrite (proj2 (Z.eqb_neq _ _)) by done.
  unfold getaddrinfo. destruct (Z.eqb_spec (a_getaddrinfo a) 0) as [Eg|Eg]; cbn [obind fst snd]; [|rewrite (proj2 (Z.eqb_neq _ _)) by done; apply Hfail].
  cbn [Z.eqb negb open_fds addrinfos listening connected_to]. rewrite call_on_run by (by left). cbn [obind]. case_bool; [apply Hfail|].
  rewrite call_on_run by (by left). cbn [obind]. case_bool; [apply Hfail|]. rewrite call_on_run by (by left). cbn [obind]. case_bool; [apply Hfail|].
  unfold listen. cbn [open_fds]. rewrite decide_True by (by left). cbn [obind]. destruct (Z.eqb_spec (a_listen a) (-1)) as [El|El]; [apply Hfail|].
  eexists. split; [done|]. repeat split. by left.
Qed.

(** C38. The server from its command line to an interrupt: when every call of the set-up
    succeeds it serves all well-formed requests that arrive, over any rounds of its
    loop, as the abstract store does, and after the interrupt it ends with status 1,
    every connection object freed exactly once and the temporary directory gone with all
    its files.  The sockets that are open then are the listening one and those of the
    connections not served to their end, each once: the served ones have been closed. *)
Theorem server_lifecycle argv a path dir test ess :
  argv <> [] -> 0 <= a_sigpipe a -> 0 <= a_sigint a -> a_mkdtemp a = Some path -> (length path <= 256)%nat ->
  listen_good a -> a_epoll_create a ∉ [-1; a_socket a] -> a_epoll_ctl a <> -1 ->
  (forall n, plain n -> fopen_r dir n = None) -> allowed_run (concat ess) spec_start -> accepts_new [a_epoll_create a; a_socket a] (concat ess) ->
  exists e, server_main argv a dir test (rounds ess ++ [Sigint]) = Done (inr e)
    /\ x_code e = 1 /\ x_closed e = answers (spec_run (concat ess) spec_start) /\ x_heap e = ∅ /\ x_dir e = None
    /\ (forall fd, fd ∈ open_fds (x_proc e) <-> fd = a_socket a \/ is_Some (pending (spec_run (concat ess) spec_start) !! fd))
    /\ NoDup (open_fds (x_proc e)) /\ addrinfos (x_proc e) = 0%nat.
Proof.
  intros Ha H1 H2 Hp Hl Hg He Hc Hd Hes Hnew. apply not_elem_of_cons in He as [He1 He2]. apply not_elem_of_cons in He2 as [He2 _].
  unfold Startup.server_main. destruct argv as [|x argv]; [done|]. unfold setup_handlers, setup_dir. rewrite !(proj2 (Z.ltb_ge _ _)) by done. cbn [andb negb]. rewrite Hp. cbn [deref obind].
  rewrite setup_server_conn_ok by done. cbn [obind]. unfold setup_epoll. rewrite !(proj2 (Z.eqb_neq _ _)) by done. cbn [open_fds addrinfos listening connected_to proc_start].
  set (p0 := Proc _ _ _ _).
  destruct (epoll_rounds [a_epoll_create a; a_socket a] test (a_epoll_create a) path [Sigint] ess (server_start dir) spec_start p0 Hes) as (s & p & -> & [_ Hcon] & [Ht1 Ht2 Ht3] & Hai & _); [by apply server_start_ok|done| |].
  { split; cbn.
    - intros fd. rewrite lookup_empty. split; [by left|]. by intros [?|[]].
    - apply NoDup_cons. split; [by intros Hin%list_elem_of_singleton|apply NoDup_singleton].
    - intros fd. rewrite lookup_empty. by intros []. }
  cbn [epoll_loop]. rewrite (close_server_ok _ _ _ _ _ Hcon Hl). cbn [obind]. eexists. split; [done|].
  cbn [x_code x_closed x_heap x_dir x_proc open_fds addrinfos]. rewrite (proj2 (Z.eqb_neq _ _)) by done. split; [done|]. split; [apply (cn_log _ _ Hcon)|]. split; [done|]. split; [done|].
  split; [|split; [by apply NoDup_filter|done]]. intros fd. rewrite list_elem_of_filter, Ht1, (open_sockets s _ fd Hcon), elem_of_cons, list_elem_of_singleton.
  split; [tauto|]. intros [->|Hfd]; [by split; [congruence|left; right]|]. split; [|by right]. intros ->.
  apply (Ht3 (a_epoll_create a)); [by apply (open_sockets s _ _ Hcon)|by left].
Qed.

End Lifecycle.

(** ** Witnesses *)

Definition all_good : kernel := Kernel 0 0 (Some [97; 98; 99; 100; 101; 102]) 3 0 0 0 0 0 0 4 0 (fun host port => host ++ port).

Lemma client_main_correct_witness : exists e,
  client_main [[104; 58; 57]; [103; 69; 84]; [97]; [98]] all_good (LocalFile None None) true true 0 (Socket (OK ++ le64 3 ++ [1; 2; 3]) [] [Transfer 1; Transfer 0]) = Done e
    /\ e_code e = 0 /\ e_sent e = [71; 69; 84; 32; 97; 10] /\ e_written e = Some [1; 2; 3]
    /\ connected_to (e_proc e) = Some (3, [104; 57]) /\ open_fds (e_proc e) = [].
Proof.
  assert (Hn : forall x y : Z, x <> y -> x ∉ [y]) by (by intros x y H ->%list_elem_of_singleton).
  assert (exists t, contents t = {[ [97] := [1; 2; 3] ]} /\ names t = [[97]]) as (t & Hc & Hns) by (by exists (Spec [[97]] {[ [97] := [1; 2; 3] ]} ∅ [])).
  destruct (client_main_correct t (RGet [97]) [104] [57] [103; 69; 84] [98] all_good [Transfer 1; Transfer 0]) as (e & H1 & H2 & H3 & H4 & H5 & H6 & _).
  - done.
  - done.
  - by apply Hn.
  - by apply Hn.
  - reflexivity.
  - split; done.
  - done.
  - by apply plain_letter.
  - unfold readable. rewrite Hc, Hns. split; [|split; [cbn; lia|]].
    + intros n d [_ <-]%lookup_singleton_Some. cbn. lia.
    + intros n ->%list_elem_of_singleton. split; [done|]. by intros ?%list_elem_of_singleton.
  - exact (smooth_transfers [1%nat; 0%nat]).
  - cbn [answer meaning] in H1, H4. rewrite Hc in H1, H4. exists e. split; [exact H1|]. split; [exact H2|]. split; [exact H3|]. split; [exact (f_equal snd H4)|split; [exact H5|exact H6]].
Defined.

(** Over maps: the values in the order of the map, the files whose names a file system
    can hold. *)
Definition map_values (d : gmap Z Z) : list Z := (map_to_list d).*2.

Definition map_entries (d : gmap key key) : list (list Z * tree) := (fun n => (n, File)) <$> filter (fun n => (length n <= 255)%nat) (map_to_list d).*1.

Lemma map_values_all (d : gmap Z Z) : exists keys, NoDup keys /\ (forall k, k ∈ keys <-> is_Some (dictionary_at d k)) /\ map_values d = omap (dictionary_at d) keys.
Proof.
  exists (map_to_list d).*1. split; [apply NoDup_fst_map_to_list|]. split.
  - intros k. cbn. rewrite list_elem_of_fmap. split.
    + intros ([k' v] & -> & Hin%elem_of_map_to_list). by exists v.
    + intros [v Hv]. exists (k, v). split; [done|by apply elem_of_map_to_list].
  - unfold map_values. assert (H : forall kv, kv ∈ map_to_list d -> d !! kv.1 = Some kv.2) by (intros [k v]; apply elem_of_map_to_list).
    induction (map_to_list d) as [|[k v] l IH]; [done|]. cbn. pose proof (H (k, v) ltac:(by left)) as Hkv. cbn in Hkv. rewrite Hkv. f_equal. apply IH. intros kv Hin. apply H. by right.
Qed.

Lemma map_entries_flat (d : gmap key key) n e : (n, e) ∈ map_entries d -> e = File /\ (length n <= 255)%nat.
Proof. unfold map_entries. intros (m & [= -> ->] & [H _]%list_elem_of_filter)%list_elem_of_fmap. done. Qed.

Lemma session_accepts : accepts_new [4; 3] (concat [take 5 session; []; drop 5 session]).
Proof.
  intros fd r sch Hin. assert (H : Forall (fun e => match e with NConnect fd _ _ => fd ∉ [4; 3] | _ => True end) session) by (repeat constructor; by apply (bool_decide_unpack _)).
  cbn [concat] in Hin. rewrite app_nil_r, app_nil_l, take_drop in Hin. rewrite Forall_forall in H. by apply (H _ Hin).
Qed.

Lemma server_lifecycle_witness : exists e,
  server_main (SD := gmap key Z) (CD := gmap Z Z) (F := gmap key key) map_values map_entries [[57]] all_good ∅ [0; 0] (rounds [take 5 session; []; drop 5 session] ++ [Sigint]) = Done (inr e)
    /\ x_code e = 1 /\ x_closed e = [(6, OK ++ le64 1 ++ [97]); (5, OK); (5, ERROR ++ err_no_such_file); (7, OK ++ le64 3 ++ [1; 2; 3])] /\ x_dir e = None
    /\ (forall fd, fd ∈ open_fds (x_proc e) <-> fd = 3).
Proof.
  destruct (server_lifecycle (SD := gmap key Z) (CD := gmap Z Z) map_values map_entries map_values_all map_entries_flat [[57]] all_good [97; 98; 99; 100; 101; 102] ∅ [0; 0] [take 5 session; []; drop 5 session])
    as (e & H1 & H2 & H3 & _ & H5 & H6 & _).
  - done.
  - done.
  - done.
  - done.
  - cbn. lia.
  - repeat split; cbn; lia.
  - apply (bool_decide_unpack _). vm_compute. exact I.
  - done.
  - exact start_empty.
  - exact session_allowed.
  - exact session_accepts.
  - exists e. split; [exact H1|]. split; [exact H2|]. split; [rewrite H3; vm_compute; reflexivity|]. split; [exact H5|].
    intros fd. rewrite H6. vm_compute. split; [intros [->|[x Hx]]; [reflexivity|discriminate Hx]|by left].
Defined.
