(* ===== verification/Reduce.v ===== *)
(** * Parallel reduction of [teaching_threads/]

    [reduce.c], [reducers.c] and [par_reduce.c].  A reducer may be undefined (an
    [int] overflow).  The threads of [par_reduce] share the list, which nobody
    writes, and each works on a record of its own; [worker_step] lets any
    unfinished thread do its next step, so every interleaving is a run.
    [pthread_create] is assumed to succeed, as the code does. *)

From stdpp Require Import strings.
From S2P Require Import Prelude.
Open Scope Z_scope.

Definition reducer : Type := Z -> Z -> outcome Z.

Definition int_range (x : Z) : Prop := -2147483648 <= x < 2147483648.

#[export] Instance int_range_dec x : Decision (int_range x).
Proof. unfold int_range. apply _. Defined.

(** ** [reducers.c] *)

Definition add (elem1 elem2 : Z) : outcome Z := if decide (int_range (elem1 + elem2)) then Done (elem1 + elem2) else Undef.
Definition mult (elem1 elem2 : Z) : outcome Z := if decide (int_range (elem1 * elem2)) then Done (elem1 * elem2) else Undef.
Definition slow (elem1 elem2 : Z) : outcome Z := Done 56.

Definition add_base_case : Z := 0.
Definition mult_base_case : Z := 1.
Definition slow_base_case : Z := 56.

(** An unknown name ends the program. *)
Definition get_reducer (reducer_name : String.string) : outcome reducer :=
  if decide (reducer_name = "add"%string) then Done add
  else if decide (reducer_name = "mult"%string) then Done mult
  else if decide (reducer_name = "slow"%string) then Done slow
  else Abort.

Definition get_reducer_base_case (reducer_name : String.string) : outcome Z :=
  if decide (reducer_name = "add"%string) then Done add_base_case
  else if decide (reducer_name = "mult"%string) then Done mult_base_case
  else if decide (reducer_name = "slow"%string) then Done slow_base_case
  else Abort.

(** ** [reduce.c] *)

(** The loop, over the elements to come. *)
Fixpoint reduce_loop (result : Z) (l : list Z) (reduce_func : reducer) : outcome Z :=
  match l with
  | [] => Done result
  | x :: l => let! result := reduce_func result x in reduce_loop result l reduce_func
  end.

Definition reduce (l : list Z) (reduce_func : reducer) (base_case : Z) : outcome Z := reduce_loop base_case l reduce_func.

(** ** [par_reduce.c] *)

(** Boundaries are indices into the list; the callback is the same for all. *)
Record worklist_t := Worklist {
  left_value : nat;
  right_value : nat;
  acc : Z;
}.

(** A thread running [solve_worker]: its loop variable and its record. *)
Record thread := Thread {
  addr : nat;
  worker : worklist_t;
}.

Section ParReduce.

Variable callback : reducer.
Variable shared : list Z.

(** One iteration of [solve_worker]. *)
Definition solve_iteration (t : thread) : outcome thread :=
  let! x := deref (shared !! addr t) in
  let w := worker t in
  let! a := callback (acc w) x in
  Done (Thread (S (addr t)) (Worklist (left_value w) (right_value w) a)).

Definition unfinished (t : thread) : bool := (addr t <? right_value (worker t))%nat.

(** The loop, [n] iterations to go at most. *)
Fixpoint solve_worker (n : nat) (t : thread) : outcome thread :=
  match n with
  | O => Done t
  | S n => if unfinished t then let! t := solve_iteration t in solve_worker n t else Done t
  end.

(** Any unfinished thread goes on. *)
Inductive worker_step : list thread -> list thread -> Prop :=
| step_worker ts i t t' :
    ts !! i = Some t -> unfinished t = true -> solve_iteration t = Done t' -> worker_step ts (<[i := t']> ts).

(** What [pthread_join] waits for. *)
Definition all_joined (ts : list thread) : bool := forallb (fun t => negb (unfinished t)) ts.

(** [list + list_len * thread_id / num_threads], as an index. *)
Definition boundary (list_len thread_id num_threads : Z) : nat := Z.to_nat (u64 (list_len * thread_id) / num_threads).

Definition set_up (list_len base_case num_threads : Z) : list worklist_t :=
  map (fun t => Worklist (boundary list_len (Z.of_nat t) num_threads) (boundary list_len (Z.of_nat t + 1) num_threads) base_case)
    (seq 0 (Z.to_nat num_threads)).

(** Threads beyond the length of the list are not created. *)
Definition threads_used (list_len num_threads : Z) : Z := if list_len <? num_threads then list_len else num_threads.

(** [pthread_create] for every record. *)
Definition spawn (ws : list worklist_t) : list thread := map (fun w => Thread (left_value w) w) ws.

Definition par_start (base_case num_threads : Z) : list thread :=
  spawn (set_up (Z.of_nat (length shared)) base_case (threads_used (Z.of_nat (length shared)) num_threads)).

Fixpoint combine (par_reduced : Z) (workers : list worklist_t) : outcome Z :=
  match workers with
  | [] => Done par_reduced
  | w :: workers => let! par_reduced := callback par_reduced (acc w) in combine par_reduced workers
  end.

(** The threads one after the other: one of the interleavings. *)
Fixpoint solve_all (ts : list thread) : outcome (list thread) :=
  match ts with
  | [] => Done []
  | t :: ts =>
      let! t := solve_worker (right_value (worker t) - addr t) t in
      let! ts := solve_all ts in
      Done (t :: ts)
  end.

(** An array of no threads is undefined. *)
Definition par_reduce (base_case num_threads : Z) : outcome Z :=
  if threads_used (Z.of_nat (length shared)) num_threads =? 0 then Undef
  else
    let! ts := solve_all (par_start base_case num_threads) in
    combine base_case (map worker ts).

End ParReduce.
