(* ===== verification/ReduceSpec.v ===== *)
(** * Correctness of the parallel reduction

    The threads' segments tile the list, so for an associative operation with a
    neutral base case every interleaving of the threads ends, after exactly one
    step per element, with a combined result equal to the sequential [reduce]. *)

From stdpp Require Import strings.
From S2P Require Import Prelude Reduce.
Open Scope Z_scope.

Section Reduction.

Variable callback : reducer.
Variable op : Z -> Z -> Z.
Variable base : Z.
Hypothesis op_assoc : forall a b c, op a (op b c) = op (op a b) c.
Hypothesis base_left : forall a, op base a = a.
Hypothesis base_right : forall a, op a base = a.
(** The reducer computes [op] where the result is an [int]. *)
Hypothesis callback_op : forall a b, int_range (op a b) -> callback a b = Done (op a b).

Variable shared : list Z.

(** The value of a part of the list. *)
Fixpoint total (l : list Z) : Z :=
  match l with
  | [] => base
  | x :: l => op x (total l)
  end.

(** No contiguous part overflows. *)
Definition fits : Prop := forall l r, int_range (total (take r (drop l shared))).

Lemma total_app l1 l2 : total (l1 ++ l2) = op (total l1) (total l2).
Proof. induction l1 as [|x l1 IH]; cbn; [by rewrite base_left|]. by rewrite IH, op_assoc. Qed.

Lemma total_snoc l x : total (l ++ [x]) = op (total l) x.
Proof. rewrite total_app. cbn. by rewrite base_right. Qed.

(** The part from [l] up to (not including) [r]. *)
Definition segment (l r : nat) : list Z := take (r - l) (drop l shared).

Lemma segment_snoc l r x : (l <= r)%nat -> shared !! r = Some x -> segment l (S r) = segment l r ++ [x].
Proof.
  intros Hl Hx. unfold segment. replace (S r - l)%nat with (S (r - l)) by lia. apply take_S_r.
  rewrite lookup_drop. by replace (l + (r - l))%nat with r by lia.
Qed.

Lemma segment_app l m r : (l <= m <= r)%nat -> segment l m ++ segment m r = segment l r.
Proof.
  intros H. unfold segment. replace (drop m shared) with (drop (m - l) (drop l shared)) by (rewrite drop_drop; f_equal; lia).
  rewrite take_take_drop. f_equal. lia.
Qed.

Lemma segment_all : segment 0 (length shared) = shared.
Proof. unfold segment. by rewrite drop_0, Nat.sub_0_r, firstn_all. Qed.

Context (Hfits : fits).

Lemma segment_fits l r : int_range (total (segment l r)).
Proof. apply Hfits. Qed.

(** The sequential loop, from a prefix on. *)
Lemma reduce_loop_ok k n :
  (k + n = length shared)%nat -> reduce_loop (total (segment 0 k)) (drop k shared) callback = Done (total shared).
Proof.
  revert k. induction n as [|n IH]; intros k Hk.
  - rewrite drop_ge by lia. cbn. replace k with (length shared) by lia. by rewrite segment_all.
  - destruct (lookup_lt_is_Some_2 shared k) as [x Hx]; [lia|]. rewrite (drop_S _ _ _ Hx). cbn [reduce_loop].
    pose proof (segment_snoc 0 k x ltac:(lia) Hx) as Hs. pose proof (segment_fits 0 (S k)) as Hf.
    rewrite Hs, total_snoc in Hf. rewrite callback_op by done. cbn [obind]. rewrite <- total_snoc, <- Hs. apply IH. lia.
Qed.

Lemma reduce_total : reduce shared callback base = Done (total shared).
Proof. apply (reduce_loop_ok 0 (length shared)). done. Qed.

(** ** A thread *)

(** It has worked through its part up to [addr]. *)
Record thread_inv (t : thread) : Prop := {
  t_bounds : (left_value (worker t) <= addr t <= right_value (worker t))%nat;
  t_right : (right_value (worker t) <= length shared)%nat;
  t_acc : acc (worker t) = total (segment (left_value (worker t)) (addr t));
}.

Lemma iteration_ok t :
  thread_inv t -> unfinished t = true ->
  exists t', solve_iteration callback shared t = Done t' /\ thread_inv t' /\ addr t' = S (addr t)
    /\ left_value (worker t') = left_value (worker t) /\ right_value (worker t') = right_value (worker t).
Proof.
  intros [Hb Hr Ha] Hu. apply Nat.ltb_lt in Hu. unfold solve_iteration.
  destruct (lookup_lt_is_Some_2 shared (addr t)) as [x Hx]; [lia|]. rewrite Hx. cbn [deref obind].
  pose proof (segment_snoc (left_value (worker t)) (addr t) x ltac:(lia) Hx) as Hs.
  pose proof (segment_fits (left_value (worker t)) (S (addr t))) as Hf. rewrite Hs, total_snoc in Hf.
  rewrite Ha, callback_op by done. cbn [obind]. eexists. split; [done|]. split; [|done].
  split; cbn [addr worker left_value right_value acc]; [lia|done|]. by rewrite Hs, total_snoc.
Qed.

(** ** All threads *)

(** Their parts, one after the other, from [l] to [r]. *)
Fixpoint tiles (l r : nat) (ws : list worklist_t) : Prop :=
  match ws with
  | [] => l = r
  | w :: ws => left_value w = l /\ (l <= right_value w)%nat /\ tiles (right_value w) r ws
  end.

Record threads_inv (ts : list thread) : Prop := {
  ts_threads : Forall thread_inv ts;
  ts_tiles : tiles 0 (length shared) (map worker ts);
}.

(** Elements still to be visited. *)
Definition remaining (ts : list thread) : nat := sum_list_with (fun t => right_value (worker t) - addr t)%nat ts.

Lemma tiles_insert l r ts i t t' :
  ts !! i = Some t -> left_value (worker t') = left_value (worker t) -> right_value (worker t') = right_value (worker t) ->
  tiles l r (map worker ts) -> tiles l r (map worker (<[i := t']> ts)).
Proof.
  revert l i. induction ts as [|u ts IH]; intros l [|i] Hi Hl Hr Ht; try done; cbn in *.
  - injection Hi as ->. by rewrite Hl, Hr.
  - destruct Ht as (? & ? & ?). split; [done|]. split; [done|]. by apply IH.
Qed.

Lemma remaining_cons t ts : remaining (t :: ts) = (right_value (worker t) - addr t + remaining ts)%nat.
Proof. done. Qed.

Lemma remaining_insert ts i t t' :
  ts !! i = Some t -> unfinished t = true -> addr t' = S (addr t) -> right_value (worker t') = right_value (worker t) ->
  remaining ts = S (remaining (<[i := t']> ts)).
Proof.
  intros Hi Hu Ha Hr. apply Nat.ltb_lt in Hu. revert i Hi.
  induction ts as [|u ts IH]; intros [|i] Hi; try done; cbn in Hi; cbn [insert list_insert]; rewrite !remaining_cons.
  - injection Hi as ->. rewrite Ha, Hr. lia.
  - rewrite (IH i Hi). apply Nat.add_succ_r.
Qed.

Lemma step_ok ts ts' : threads_inv ts -> worker_step callback shared ts ts' -> threads_inv ts' /\ remaining ts = S (remaining ts').
Proof.
  intros [Hth Hti] Hs. destruct Hs as [ts i t t' Hi Hu Hit]. rewrite Forall_forall in Hth.
  destruct (iteration_ok t (Hth t (list_elem_of_lookup_2 _ _ _ Hi)) Hu) as (t1 & Hit1 & Hinv & Ha & Hl & Hr).
  rewrite Hit in Hit1. injection Hit1 as <-. split; [split|].
  - apply Forall_insert; [by apply Forall_forall|done].
  - by eapply tiles_insert.
  - by eapply remaining_insert.
Qed.

Lemma steps_ok n ts ts' : threads_inv ts -> nsteps (worker_step callback shared) n ts ts' -> threads_inv ts' /\ (remaining ts = n + remaining ts')%nat.
Proof.
  intros Hinv Hs. revert Hinv. induction Hs as [ts|n ts ts1 ts' Hs _ IH]; intros Hinv; [done|].
  destruct (step_ok _ _ Hinv Hs) as [Hinv1 Hr]. destruct (IH Hinv1). split; [done|lia].
Qed.

Lemma all_joined_cons t ts : all_joined (t :: ts) = negb (unfinished t) && all_joined ts.
Proof. done. Qed.

Lemma progress ts : threads_inv ts -> all_joined ts = false -> exists ts', worker_step callback shared ts ts'.
Proof.
  intros [Hth _] Hj. assert (Hex : exists i t, ts !! i = Some t /\ unfinished t = true).
  { clear Hth. induction ts as [|t ts IH]; [done|]. rewrite all_joined_cons in Hj. destruct (unfinished t) eqn:Eu; [by exists 0%nat, t|].
    destruct (IH Hj) as (i & u & Hi & Hu). by exists (S i), u. }
  destruct Hex as (i & t & Hi & Hu). rewrite Forall_forall in Hth.
  destruct (iteration_ok t (Hth t (list_elem_of_lookup_2 _ _ _ Hi)) Hu) as (t1 & Hit & _). eexists. by eapply step_worker.
Qed.

(** ** Combining *)

Lemma combine_ok l ts :
  Forall thread_inv ts -> all_joined ts = true -> (l <= length shared)%nat -> tiles l (length shared) (map worker ts) ->
  combine callback (total (segment 0 l)) (map worker ts) = Done (total shared).
Proof.
  revert l. induction ts as [|t ts IH]; intros l Hth Hj Hl Ht; [cbn in *; subst l; by rewrite segment_all|].
  rewrite all_joined_cons in Hj. cbn in Ht |- *. apply Forall_cons in Hth as [[Hb Hr Ha] Hth]. apply andb_true_iff in Hj as [Hu Hj]. apply negb_true_iff, Nat.ltb_ge in Hu.
  destruct Ht as (Hlt & Hle & Ht). replace (addr t) with (right_value (worker t)) in Ha by lia. rewrite Hlt in Ha.
  pose proof (segment_app 0 l (right_value (worker t)) ltac:(lia)) as Happ. pose proof (segment_fits 0 (right_value (worker t))) as Hf.
  rewrite <- Happ, total_app in Hf. rewrite Ha, callback_op by done. cbn [obind]. rewrite <- total_app, Happ. by apply IH.
Qed.

(** ** The boundaries *)

Lemma boundary_mono len t n : 0 < n -> 0 <= len -> 0 <= t < n -> len * n < 2 ^ 64 ->
  (boundary len t n <= boundary len (t + 1) n)%nat /\ Z.of_nat (boundary len (t + 1) n) <= len.
Proof.
  intros Hn Hl Ht Hs. unfold boundary. rewrite !u64_small by nia. split.
  - apply Z2Nat.inj_le; [apply Z.div_pos; nia|apply Z.div_pos; nia|]. apply Z.div_le_mono; nia.
  - rewrite Z2Nat.id by (apply Z.div_pos; nia). apply Z.div_le_upper_bound; nia.
Qed.

Lemma set_up_tiles n k m :
  let len := Z.of_nat (length shared) in
  0 < n -> len * n < 2 ^ 64 -> Z.of_nat (k + m) = n ->
  tiles (boundary len (Z.of_nat k) n) (length shared)
    (map (fun t => Worklist (boundary len (Z.of_nat t) n) (boundary len (Z.of_nat t + 1) n) base) (seq k m)).
Proof.
  intros len Hn Hs. revert k. induction m as [|m IH]; intros k Hk; cbn.
  - unfold boundary. rewrite u64_small by nia. replace (Z.of_nat k) with n by lia. rewrite Z.div_mul by lia. unfold len. lia.
  - split; [done|]. split; [apply boundary_mono; lia|].
    replace (Z.of_nat k + 1) with (Z.of_nat (S k)) by lia. apply IH. lia.
Qed.

Lemma tiles_le l r ws : tiles l r ws -> (l <= r)%nat.
Proof. revert l. induction ws as [|w ws IH]; intros l; cbn; [lia|]. intros (_ & Hle & Ht). apply IH in Ht. lia. Qed.

Lemma remaining_spawn l r ws : tiles l r ws -> (l + remaining (spawn ws) = r)%nat.
Proof.
  revert l. induction ws as [|w ws IH]; intros l; [cbn; lia|]. intros (Hl & Hle & Ht).
  pose proof (IH _ Ht). cbn [spawn map]. rewrite remaining_cons. cbn [worker addr]. fold (spawn ws). lia.
Qed.

Lemma start_ok num_threads :
  let len := Z.of_nat (length shared) in
  0 < len -> 0 < num_threads -> len * len < 2 ^ 64 ->
  threads_inv (par_start shared base num_threads) /\ remaining (par_start shared base num_threads) = length shared.
Proof.
  intros len Hl Hn Hs. unfold par_start. set (n := threads_used _ _).
  assert (Hn0 : 0 < n <= len) by (unfold n, threads_used, len in *; case_bool; lia).
  assert (Hsn : len * n < 2 ^ 64) by nia. fold len.
  assert (Ht : tiles 0 (length shared) (set_up len base n)).
  { pose proof (set_up_tiles n 0 (Z.to_nat n) ltac:(lia) Hsn ltac:(lia)) as Ht. fold len in Ht.
    assert (H0 : boundary len (Z.of_nat 0) n = 0%nat) by (unfold boundary; by rewrite Z.mul_0_r). by rewrite H0 in Ht. }
  split; [split|].
  - apply Forall_forall. intros t Hin. apply list_elem_of_fmap in Hin as (w & -> & Hw).
    apply list_elem_of_fmap in Hw as (k & -> & Hk%elem_of_seq).
    destruct (boundary_mono len (Z.of_nat k) n) as [Hm Hr]; [lia|lia|lia|done|]. split; cbn [addr worker left_value right_value acc]; [lia|lia|].
    unfold segment. by rewrite Nat.sub_diag.
  - unfold spawn. rewrite map_map. cbn [worker]. by rewrite map_id.
  - pose proof (remaining_spawn 0 (length shared) _ Ht). lia.
Qed.

Lemma solve_worker_ok n t :
  thread_inv t -> (right_value (worker t) - addr t <= n)%nat ->
  exists t', solve_worker callback shared n t = Done t' /\ thread_inv t' /\ unfinished t' = false
    /\ left_value (worker t') = left_value (worker t) /\ right_value (worker t') = right_value (worker t).
Proof.
  revert t. induction n as [|n IH]; intros t Hinv Hn; cbn [solve_worker].
  - exists t. split; [done|]. split; [done|]. split; [|done]. apply Nat.ltb_ge. lia.
  - destruct (unfinished t) eqn:Eu; [|by exists t].
    destruct (iteration_ok t Hinv Eu) as (t1 & -> & Hinv1 & Ha & Hl & Hr). cbn [obind].
    destruct (IH t1 Hinv1) as (t' & Hrun & Hinv' & Hu & Hl' & Hr'); [rewrite Ha, Hr; lia|].
    exists t'. split; [done|]. split; [done|]. split; [done|]. split; congruence.
Qed.

Lemma solve_all_ok l r ts :
  Forall thread_inv ts -> tiles l r (map worker ts) ->
  exists ts', solve_all callback shared ts = Done ts' /\ Forall thread_inv ts' /\ all_joined ts' = true /\ tiles l r (map worker ts').
Proof.
  revert l. induction ts as [|t ts IH]; intros l Hth Ht; cbn [solve_all]; [by exists []|].
  apply Forall_cons in Hth as [Hinv Hth]. cbn in Ht. destruct Ht as (Hl & Hle & Ht).
  destruct (solve_worker_ok (right_value (worker t) - addr t) t Hinv) as (t' & -> & Hinv' & Hu & Hl' & Hr'); [lia|]. cbn [obind].
  destruct (IH _ Hth Ht) as (ts' & -> & Hth' & Hj & Ht'). cbn [obind]. exists (t' :: ts'). split; [done|].
  split; [by constructor|]. split; [by rewrite all_joined_cons, Hu|]. cbn. rewrite Hl', Hr'. done.
Qed.

(** With at least one element and one thread, and no overflow: from the start of
    the threads every interleaving is defined, can go on until all threads are
    done, and is done after exactly one step per element; whatever the
    interleaving, combining the threads' results is the sequential reduction,
    which is also what the sequential schedule [par_reduce] returns. *)
Theorem par_reduce_correct num_threads :
  let len := Z.of_nat (length shared) in
  0 < len -> 0 < num_threads -> len * len < 2 ^ 64 ->
  (forall n ts, nsteps (worker_step callback shared) n (par_start shared base num_threads) ts ->
     (all_joined ts = false -> exists ts', worker_step callback shared ts ts')
     /\ (n <= length shared)%nat
     /\ (all_joined ts = true -> combine callback base (map worker ts) = reduce shared callback base))
  /\ par_reduce callback shared base num_threads = reduce shared callback base
  /\ reduce shared callback base = Done (total shared).
Proof.
  intros len Hl Hn Hs. destruct (start_ok num_threads Hl Hn Hs) as [Hstart Hrem]. fold len in Hstart, Hrem.
  rewrite reduce_total.
  assert (Hcomb : forall ts, threads_inv ts -> all_joined ts = true -> combine callback base (map worker ts) = Done (total shared)).
  { intros ts [Hth Ht] Hj. apply (combine_ok 0 ts); try done. lia. }
  split; [|split; [|done]].
  - intros n ts Hsteps. destruct (steps_ok n _ ts Hstart Hsteps) as [Hinv Hr]. split; [by apply progress|]. split; [lia|]. by apply Hcomb.
  - unfold par_reduce. rewrite (proj2 (Z.eqb_neq _ _)) by (unfold threads_used, len in *; case_bool; lia).
    destruct Hstart as [Hth Ht]. destruct (solve_all_ok 0 (length shared) _ Hth Ht) as (ts' & -> & Hth' & Hj & Ht'). cbn [obind].
    apply Hcomb; [by split|done].
Qed.

End Reduction.

Lemma par_reduce_correct_witness :
  par_reduce add [1; 2; 3; 4; 5; 6; 7] 0 3 = reduce [1; 2; 3; 4; 5; 6; 7] add 0
  /\ reduce [1; 2; 3; 4; 5; 6; 7] add 0 = Done 28.
Proof.
  assert (Hadd : forall a b, int_range (a + b) -> add a b = Done (a + b)) by (intros a b H; unfold add; by rewrite decide_True).
  assert (Hfits : fits Z.add 0 [1; 2; 3; 4; 5; 6; 7]).
  { intros l r. assert (Hb : forall k, Forall (fun x => 0 <= x <= 7) k -> 0 <= total Z.add 0 k <= 7 * Z.of_nat (length k)).
    { intros k Hk. induction Hk as [|x k Hx Hk IH]; [cbn; lia|]. cbn [total length]. lia. }
    assert (Hall : Forall (fun x => 0 <= x <= 7) (take r (drop l [1; 2; 3; 4; 5; 6; 7]))).
    { apply Forall_take, Forall_drop. repeat constructor; lia. }
    pose proof (Hb _ Hall) as Hb'. rewrite length_take, length_drop in Hb'. cbn [length] in Hb'. unfold int_range. lia. }
  destruct (par_reduce_correct add Z.add 0 Z.add_assoc Z.add_0_l Z.add_0_r Hadd [1; 2; 3; 4; 5; 6; 7] Hfits 3) as (_ & H1 & H2);
    [cbn; lia|lia|cbn; lia|].
  split; [exact H1|exact H2].
Defined.

(** [slow] has no neutral element, yet both reductions return its constant. *)
Example slow_constant : par_reduce slow [1; 2; 3] 56 2 = Done 56 /\ reduce [1; 2; 3] slow 56 = Done 56.
Proof. split; reflexivity. Qed.
