(* ===== verification/MapReduce.v ===== *)
(** * [mapreduce/]: splitter, mapper and reducer frames, data store

    [splitter.c], [core/mapper.c], [core/reducer.c], [core/libds.c],
    [core/utils.c] and the mappers and the reducer built on them.  The data store
    keeps entries (a key pointer and a value pointer) and strings on a heap; the
    tree [tsearch] keeps is represented by its entries in order.  [alloc_str] and
    [alloc_entry] are [malloc]'s answers. *)

From stdpp Require Import gmap strings.
From S2P Require Import Prelude CString Callbacks.
Open Scope Z_scope.

(** ** [splitter.c] *)

Definition getSubrange (length count idx : Z) : Z * Z :=
  let start_offset := u64 (length * u64 idx) / u64 count in
  let end_offset := u64 (length * u64 (s32 (idx + 1))) / u64 count in
  (start_offset, if length <? end_offset then length else end_offset).

Fixpoint next_line_loop (rest : list Z) (p : Z) : Z :=
  match rest with
  | [] => p
  | c :: rest => if c =? 10 then p + 1 else next_line_loop rest (p + 1)
  end.

(** From offset [p] of [data] up to offset [end_]. *)
Definition nextLine (data : list Z) (p end_ : Z) : Z :=
  if p <? end_ then next_line_loop (take (Z.to_nat (end_ - p)) (drop (Z.to_nat p) data)) p else end_.

(** The bytes written to [stdout]. *)
Definition write_portion (data : list Z) (count index : Z) : list Z :=
  let length := Z.of_nat (length data) in
  let (start_offset, end_offset) := getSubrange length count index in
  let start_ptr := if index =? 0 then 0 else nextLine data start_offset length in
  let end_ptr := if index =? count - 1 then length else nextLine data end_offset length in
  if start_ptr <? end_ptr then take (Z.to_nat (end_ptr - start_ptr)) (drop (Z.to_nat start_ptr) data) else [].

(** [main] after its arguments are parsed. *)
Definition splitter (data : list Z) (count index : Z) : outcome (list Z) :=
  if (count <? 1) || (index <? 0) || (count <=? index) then Abort else Done (write_portion data count index).

(** ** [core/mapper.c]: one write for each line *)

Definition run_mapper_on_fds (input : list Z) (func : list Z -> list Z) : list (list Z) :=
  map (fun line => func (until_zero (chomp line))) (getlines input).

(** ** The mappers *)

Definition record (key : list Z) : list Z := key ++ bytes_of_string ": 1" ++ [10].

Fixpoint asciicount (data : list Z) : list Z :=
  match data with
  | [] => []
  | c :: data => (if isalpha c then record [tolower c] else []) ++ asciicount data
  end.

Fixpoint lettercount (data : list Z) : list Z :=
  match data with
  | [] => []
  | c :: data => (if isalpha c then record (bytes_of_string "letters") else []) ++ lettercount data
  end.

(** [':'] becomes [';'] and a newline a blank. *)
Definition replace_chars (str : list Z) : list Z := map (fun c => if c =? 58 then 59 else if c =? 10 then 32 else c) str.

Definition wordcount (data : list Z) : list Z :=
  concat (map record (strtok 32 (replace_chars data) [])).

Definition wordlengths (data : list Z) : list Z :=
  concat (map (fun datum => record (decimal (Z.of_nat (length datum))))
            (strtok 32 (map (fun c => if c =? 10 then 32 else c) data) [])).

(** ** [core/utils.c] *)

(** The terminators are written into the line, then key and value are read back. *)
Definition split_key_value (line : list Z) : option (list Z * list Z) :=
  match strstr line (bytes_of_string ": "), strstr line [10] with
  | Some split, Some newline =>
      let line := <[newline := 0]> (<[split := 0]> line) in
      Some (until_zero line, until_zero (drop (split + 2) line))
  | _, _ => None
  end.

(** ** [core/libds.c] *)

Record dheap := DHeap {
  entries : gmap Z (Z * Z);
  strs : objects;
}.

Definition set_entries (h : dheap) (e : gmap Z (Z * Z)) : dheap := DHeap e (strs h).
Definition set_strs (h : dheap) (s : objects) : dheap := DHeap (entries h) s.

(** The entries in order. *)
Definition datastore_t : Type := list Z.

Section Datastore.

Variable alloc_str : objects -> Z -> Z.
Variable alloc_entry : gmap Z (Z * Z) -> Z -> Z.

Definition strdup (s : list Z) (h : dheap) : outcome (Z * dheap) :=
  let p := alloc_str (strs h) (Z.of_nat (length s) + 1) in
  if p =? 0 then Done (0, h) else Done (p, set_strs h (<[p := s]> (strs h))).

Definition free_str (p : Z) (h : dheap) : outcome dheap := let! s := c_free p (strs h) in Done (set_strs h s).

Definition free_entry (e : Z) (h : dheap) : outcome dheap :=
  match entries h !! e with Some _ => Done (set_entries h (delete e (entries h))) | None => Undef end.

(** A key against the key of an entry. *)
Definition compare (h : dheap) (key : list Z) (e : Z) : outcome Z :=
  let! (k, _) := deref (entries h !! e) in
  let! s := deref (strs h !! k) in
  Done (strcmp key s).

Definition malloc_entry_t (key value : Z) (h : dheap) : outcome (Z * dheap) :=
  let e := alloc_entry (entries h) 16 in
  if e =? 0 then Undef else Done (e, set_entries h (<[e := (key, value)]> (entries h))).

(** [tfind]. *)
Fixpoint dictionary_tfind (root : datastore_t) (key : list Z) (h : dheap) : outcome (option Z) :=
  match root with
  | [] => Done None
  | e :: root => let! c := compare h key e in if c =? 0 then Done (Some e) else dictionary_tfind root key h
  end.

(** [tdelete]. *)
Fixpoint dictionary_tdelete (root : datastore_t) (key : list Z) (h : dheap) : outcome datastore_t :=
  match root with
  | [] => Done []
  | e :: root =>
      let! c := compare h key e in
      if c =? 0 then Done root else let! root := dictionary_tdelete root key h in Done (e :: root)
  end.

(** [tsearch] for the entry [entry], whose key is [key]. *)
Fixpoint tsearch (entry : Z) (key : list Z) (root : datastore_t) (h : dheap) : outcome datastore_t :=
  match root with
  | [] => Done [entry]
  | e :: root =>
      let! c := compare h key e in
      if c =? 0 then Done (e :: root)
      else if c <? 0 then Done (entry :: e :: root)
      else let! root := tsearch entry key root h in Done (e :: root)
  end.

Definition destroy_with_element_free (e : Z) (h : dheap) : outcome dheap :=
  let! (key, value) := deref (entries h !! e) in
  let! h := free_str key h in
  let! h := free_str value h in
  free_entry e h.

Definition datastore_init : datastore_t := [].

Definition datastore_put (ds : datastore_t) (key value : list Z) (h : dheap) : outcome (Z * datastore_t * dheap) :=
  let! found := dictionary_tfind ds key h in
  match found with
  | None =>
      let! (k, h) := strdup key h in
      let! (v, h) := strdup value h in
      let! (entry, h) := malloc_entry_t k v h in
      let! s := deref (strs h !! k) in
      let! ds := tsearch entry s ds h in
      Done (1, ds, h)
  | Some _ => Done (0, ds, h)
  end.

(** The copy the caller has to free, or [NULL]. *)
Definition datastore_get (ds : datastore_t) (key : list Z) (h : dheap) : outcome (Z * dheap) :=
  let! found := dictionary_tfind ds key h in
  match found with
  | None => Done (0, h)
  | Some entry =>
      let! (_, value) := deref (entries h !! entry) in
      let! s := deref (strs h !! value) in
      strdup s h
  end.

Definition datastore_update (ds : datastore_t) (key value : list Z) (h : dheap) : outcome (Z * dheap) :=
  let! found := dictionary_tfind ds key h in
  match found with
  | None => Done (0, h)
  | Some entry =>
      let! (k, v) := deref (entries h !! entry) in
      let! h := free_str v h in
      let! (v, h) := strdup value h in
      Done (1, set_entries h (<[entry := (k, v)]> (entries h)))
  end.

Definition datastore_delete (ds : datastore_t) (key : list Z) (h : dheap) : outcome (Z * datastore_t * dheap) :=
  let! found := dictionary_tfind ds key h in
  match found with
  | None => Done (0, ds, h)
  | Some entry =>
      let! ds := dictionary_tdelete ds key h in
      let! h := destroy_with_element_free entry h in
      Done (1, ds, h)
  end.

(** [twalk] in order, with the caller's function on its argument. *)
Fixpoint datastore_iterate {A} (ds : datastore_t) (f : list Z -> list Z -> A -> A) (arg : A) (h : dheap) : outcome A :=
  match ds with
  | [] => Done arg
  | e :: ds =>
      let! (k, v) := deref (entries h !! e) in
      let! key := deref (strs h !! k) in
      let! value := deref (strs h !! v) in
      datastore_iterate ds f (f key value arg) h
  end.

Fixpoint datastore_destroy (ds : datastore_t) (h : dheap) : outcome dheap :=
  match ds with
  | [] => Done h
  | e :: ds => let! h := destroy_with_element_free e h in datastore_destroy ds h
  end.

(** ** [core/reducer.c] *)

Definition print_ds (key value output : list Z) : list Z := output ++ key ++ bytes_of_string ": " ++ value ++ [10].

(** One line; a malformed one is skipped. *)
Definition reduce_line (func : list Z -> list Z -> outcome (list Z)) (line : list Z) (ds : datastore_t) (h : dheap)
  : outcome (datastore_t * dheap) :=
  match split_key_value (until_zero line) with
  | None => Done (ds, h)
  | Some (key, value) =>
      let! (curr_val, h) := datastore_get ds key h in
      if curr_val =? 0 then
        let! (_, ds, h) := datastore_put ds key value h in Done (ds, h)
      else
        let! s := deref (strs h !! curr_val) in
        let! r := func s value in
        let! (new_value, h) := strdup r h in
        let! r := deref (strs h !! new_value) in
        let! (_, h) := datastore_update ds key r h in
        let! h := free_str curr_val h in
        let! h := free_str new_value h in
        Done (ds, h)
  end.

Fixpoint reduce_lines (func : list Z -> list Z -> outcome (list Z)) (ls : list (list Z)) (ds : datastore_t) (h : dheap)
  : outcome (datastore_t * dheap) :=
  match ls with
  | [] => Done (ds, h)
  | line :: ls => let! (ds, h) := reduce_line func line ds h in reduce_lines func ls ds h
  end.

Definition run_reducer_on (input : list Z) (func : list Z -> list Z -> outcome (list Z)) (h : dheap)
  : outcome (list Z * dheap) :=
  let! (my_datastore, h) := reduce_lines func (getlines input) datastore_init h in
  let! output := datastore_iterate my_datastore print_ds [] h in
  let! h := datastore_destroy my_datastore h in
  Done (output, h).

End Datastore.

(** ** [reducers/sum.c] *)

Definition sum_reducer (value1 value2 : list Z) : outcome (list Z) :=
  let! count1 := atoi value1 in
  let! count2 := atoi value2 in
  if (-2147483648 <=? count1 + count2) && (count1 + count2 <? 2147483648) then Done (decimal (count1 + count2)) else Undef.

(** ** [mapreduce.c]

    A splitter and a mapper for every part; the writes of the mappers reach the
    reducer's pipe in some order that keeps those of each mapper in theirs.  A
    mapper flushes its output after every line: what it writes for one line is
    taken to be one write, as it is while it fits the buffer of [stdio]. *)

Inductive interleaving {A} : list (list A) -> list A -> Prop :=
| interleaving_done ls : Forall (eq []) ls -> interleaving ls []
| interleaving_step ls i x l r : ls !! i = Some (x :: l) -> interleaving (<[i := l]> ls) r -> interleaving ls (x :: r).

(** What mapper [i] writes. *)
Definition mapper_process (data : list Z) (mapper_count : Z) (mapper : list Z -> list Z) (i : nat) : list (list Z) :=
  run_mapper_on_fds (write_portion data mapper_count (Z.of_nat i)) mapper.

(** What the reducer may read. *)
Definition reducer_input (data : list Z) (mapper_count : nat) (mapper : list Z -> list Z) (input : list Z) : Prop :=
  exists writes,
    interleaving (map (mapper_process data (Z.of_nat mapper_count) mapper) (seq 0 mapper_count)) writes
    /\ input = concat writes.
