(* ===== verification/DatastoreSpec.v ===== *)
(** * The data store of [mapreduce/core/libds.c] is a finite map

    A cell is an entry with its two strings; [owned] says that the heap is a base
    heap plus the cells, each allocated once.  The operations are proved against
    a [gmap] from keys to values, and destroying the store leaves the base heap. *)

From stdpp Require Import gmap strings sorting.
From S2P Require Import Prelude CString Callbacks MapReduce.
Open Scope Z_scope.

Record cell := Cell {
  c_entry : Z;
  c_key : Z;
  c_value : Z;
  c_k : list Z;
  c_v : list Z;
}.

(** ** Ownership *)

Definition add_cell (c : cell) (h : dheap) : dheap :=
  DHeap (<[c_entry c := (c_key c, c_value c)]> (entries h)) (<[c_value c := c_v c]> (<[c_key c := c_k c]> (strs h))).

Record cell_fresh (c : cell) (h : dheap) : Prop := {
  cf_entry : entries h !! c_entry c = None;
  cf_key : strs h !! c_key c = None;
  cf_value : strs h !! c_value c = None;
  cf_ne : c_key c <> c_value c;
  cf_key0 : c_key c <> 0;
  cf_value0 : c_value c <> 0;
}.

Fixpoint owned (h0 : dheap) (cells : list cell) (h : dheap) : Prop :=
  match cells with
  | [] => h = h0
  | c :: cells => exists h', owned h0 cells h' /\ cell_fresh c h' /\ h = add_cell c h'
  end.

Lemma dheap_eq e e' s s' : e = e' -> s = s' -> DHeap e s = DHeap e' s'.
Proof. by intros -> ->. Qed.

Lemma add_cell_fresh c h x : strs (add_cell c h) !! x = None <-> x <> c_key c /\ x <> c_value c /\ strs h !! x = None.
Proof. cbn. rewrite !lookup_insert_None. naive_solver. Qed.

Lemma add_cell_swap c d h : cell_fresh d h -> cell_fresh c (add_cell d h) ->
  cell_fresh c h /\ cell_fresh d (add_cell c h) /\ add_cell c (add_cell d h) = add_cell d (add_cell c h).
Proof.
  intros [De Dk Dv Dn Dk0 Dv0] [Ce Ck Cv Cn Ck0 Cv0]. rewrite add_cell_fresh in Ck, Cv. cbn in Ce.
  apply lookup_insert_None in Ce as [Ce Cne]. destruct Ck as (Ck1 & Ck2 & Ck), Cv as (Cv1 & Cv2 & Cv).
  split; [done|]. split; [split; cbn; rewrite ?lookup_insert_ne by congruence; done|].
  apply dheap_eq; cbn; [by rewrite insert_insert_ne by congruence|].
  rewrite (insert_insert_ne _ (c_key c) (c_value d)), (insert_insert_ne _ (c_key c) (c_key d)) by congruence.
  by rewrite (insert_insert_ne _ (c_value c) (c_value d)), (insert_insert_ne _ (c_value c) (c_key d)) by congruence.
Qed.

Lemma owned_perm h0 cells cells' : cells ≡ₚ cells' -> forall h, owned h0 cells h -> owned h0 cells' h.
Proof.
  induction 1 as [|c l l' _ IH|c d l|l1 l2 l3 _ IH1 _ IH2]; intros h Ho; [done| | |by auto].
  - destruct Ho as (h' & Ho & Hf & ->). exists h'. by auto.
  - destruct Ho as (h1 & (h2 & Ho & Hfc & ->) & Hfd & ->). destruct (add_cell_swap _ _ _ Hfc Hfd) as (? & ? & Heq).
    exists (add_cell d h2). split; [by exists h2|]. by rewrite Heq.
Qed.

(** Ownership does not depend on the order of the cells. *)
#[export] Instance owned_proper h0 : Proper ((≡ₚ) ==> (=) ==> iff) (owned h0).
Proof. intros l l' Hl h ? <-. split; apply owned_perm; by rewrite Hl. Qed.

Lemma owned_focus h0 l1 c l2 h : owned h0 (l1 ++ c :: l2) h <-> owned h0 (c :: l1 ++ l2) h.
Proof. by rewrite (Permutation_middle l1 l2 c). Qed.

Lemma owned_lookup h0 cells h c : owned h0 cells h -> c ∈ cells ->
  entries h !! c_entry c = Some (c_key c, c_value c) /\ strs h !! c_key c = Some (c_k c) /\ strs h !! c_value c = Some (c_v c).
Proof.
  intros Ho Hc. apply list_elem_of_split in Hc as (l1 & l2 & ->). apply owned_focus in Ho as (h' & _ & [] & ->).
  cbn. rewrite !lookup_insert_eq. split; [done|]. split; [|done]. by rewrite lookup_insert_ne, lookup_insert_eq by congruence.
Qed.

(** A string of the base heap. *)
Lemma owned_base_lookup h0 cells h p s : owned h0 cells h -> strs h0 !! p = Some s -> strs h !! p = Some s.
Proof.
  revert h. induction cells as [|c cells IH]; intros h Ho Hp; [by cbn in Ho; subst h|].
  destruct Ho as (h' & Ho & Hf & ->). specialize (IH h' Ho Hp). destruct Hf. cbn.
  rewrite !lookup_insert_ne by (intros E; rewrite E in *; congruence). done.
Qed.

Lemma owned_fresh_base h0 cells h p : owned h0 cells h -> strs h !! p = None -> strs h0 !! p = None.
Proof. intros Ho Hp. destruct (strs h0 !! p) eqn:E; [|done]. by rewrite (owned_base_lookup _ _ _ _ _ Ho E) in Hp. Qed.

(** The client allocates and frees strings of its own. *)
Lemma owned_base_insert h0 cells h p s : owned h0 cells h -> strs h !! p = None ->
  owned (set_strs h0 (<[p := s]> (strs h0))) cells (set_strs h (<[p := s]> (strs h))).
Proof.
  revert h. induction cells as [|c cells IH]; intros h Ho Hp; [by cbn in *; subst h|].
  destruct Ho as (h' & Ho & [] & ->). apply add_cell_fresh in Hp as (Hk & Hv & Hp).
  exists (set_strs h' (<[p := s]> (strs h'))). split; [by apply IH|].
  split; [split; cbn; rewrite ?lookup_insert_ne by congruence; done|].
  apply dheap_eq; [done|]. cbn. by rewrite (insert_insert_ne _ p (c_value c)), (insert_insert_ne _ p (c_key c)) by congruence.
Qed.

Lemma owned_base_delete h0 cells h p s : owned (set_strs h0 (<[p := s]> (strs h0))) cells h -> strs h0 !! p = None ->
  owned h0 cells (set_strs h (delete p (strs h))).
Proof.
  revert h. induction cells as [|c cells IH]; intros h Ho Hp.
  - cbn in *. subst h. destruct h0 as [e o]. cbn in *. unfold set_strs. cbn. by rewrite delete_insert_id by done.
  - destruct Ho as (h' & Ho & Hf & ->). pose proof (owned_base_lookup _ _ _ p s Ho) as Hl. cbn in Hl. rewrite lookup_insert_eq in Hl.
    specialize (Hl eq_refl). destruct Hf. assert (p <> c_key c /\ p <> c_value c) as [Hk Hv] by (split; intros ->; congruence).
    exists (set_strs h' (delete p (strs h'))). split; [by apply IH|].
    split; [split; cbn; rewrite ?lookup_delete_ne by congruence; done|].
    apply dheap_eq; [done|]. cbn. by rewrite !delete_insert_ne by congruence.
Qed.

(** ** The store represents a map *)

Definition contents (cells : list cell) : list (list Z * list Z) := map (fun c => (c_k c, c_v c)) cells.

Definition keys_sorted (cells : list cell) : Prop := StronglySorted str_lt (map c_k cells).

Record ds_rep (h0 : dheap) (ds : datastore_t) (m : gmap (list Z) (list Z)) (cells : list cell) (h : dheap) : Prop := {
  dr_owned : owned h0 cells h;
  dr_root : ds = map c_entry cells;
  dr_sorted : keys_sorted cells;
  dr_map : m = list_to_map (contents cells);
}.

Lemma contents_keys cells : (contents cells).*1 = map c_k cells.
Proof. unfold contents. by rewrite map_map. Qed.

Lemma sorted_keys_nodup l : StronglySorted str_lt l -> NoDup l.
Proof.
  induction 1 as [|k l _ IH Hk]; constructor; [|done]. intros Hin. rewrite Forall_forall in Hk. by apply (irreflexivity str_lt k), Hk.
Qed.

Lemma contents_app l1 l2 : contents (l1 ++ l2) = contents l1 ++ contents l2.
Proof. apply map_app. Qed.

Lemma keys_sorted_middle l1 c l2 : keys_sorted (l1 ++ c :: l2) <->
  keys_sorted (l1 ++ l2) /\ Forall (fun d => str_lt (c_k d) (c_k c)) l1 /\ Forall (fun d => str_lt (c_k c) (c_k d)) l2.
Proof.
  unfold keys_sorted. rewrite !map_app. cbn. rewrite !StronglySorted_app, StronglySorted_cons, !Forall_forall. split.
  - intros (H & H1 & Hc & H2). split; [split; [|done]; intros; apply H; [done|by right]|]. split; intros d Hd.
    + apply H; [by apply list_elem_of_fmap_2|by left].
    + apply Hc. by apply list_elem_of_fmap_2.
  - intros ((H & H1 & H2) & Hl & Hr). split; [|split; [done|split; [|done]]].
    + intros x1 x2 Hx1 Hx2. apply elem_of_cons in Hx2 as [->|Hx2]; [|by apply H]. apply list_elem_of_fmap in Hx1 as (d & -> & Hd). by apply Hl.
    + intros x Hx. apply list_elem_of_fmap in Hx as (d & -> & Hd). by apply Hr.
Qed.

(** The cell in the middle, taken out of the map. *)
Lemma map_focus l1 c l2 : keys_sorted (l1 ++ c :: l2) ->
  (list_to_map (contents (l1 ++ c :: l2)) : gmap (list Z) (list Z)) = <[c_k c := c_v c]> (list_to_map (contents (l1 ++ l2)))
  /\ (list_to_map (contents (l1 ++ l2)) : gmap (list Z) (list Z)) !! c_k c = None.
Proof.
  intros Hs. pose proof (sorted_keys_nodup _ Hs) as Hn. split.
  - rewrite (list_to_map_proper (contents (l1 ++ c :: l2)) (contents (c :: l1 ++ l2))); [done|by rewrite contents_keys|].
    unfold contents. by rewrite (Permutation_middle l1 l2 c).
  - apply not_elem_of_list_to_map_1. rewrite contents_keys. rewrite map_app in Hn |- *. cbn in Hn.
    rewrite <- Permutation_middle in Hn. by apply NoDup_cons in Hn as [Hn _].
Qed.

Lemma compare_ok h0 cells h key c : owned h0 cells h -> c ∈ cells -> compare h key (c_entry c) = Done (strcmp key (c_k c)).
Proof. intros Ho Hc. destruct (owned_lookup _ _ _ _ Ho Hc) as (He & Hk & _). unfold compare. rewrite He. cbn. by rewrite Hk. Qed.

(** *** Searching: where the key is, or where it belongs *)

Inductive search (key : list Z) (cells : list cell) : Prop :=
| search_found l1 c l2 : cells = l1 ++ c :: l2 -> c_k c = key -> Forall (fun d => str_lt (c_k d) key) l1 -> search key cells
| search_absent l1 l2 : cells = l1 ++ l2 -> Forall (fun d => str_lt (c_k d) key) l1 -> Forall (fun d => str_lt key (c_k d)) l2 -> search key cells.

Lemma search_total key cells : keys_sorted cells -> search key cells.
Proof.
  induction cells as [|c cells IH]; intros Hs; [by eapply (search_absent _ _ [] [])|].
  apply (keys_sorted_middle []) in Hs as (Hs & _ & Hc). cbn in Hs.
  destruct (str_lt_total key (c_k c)) as [Hlt|[Heq|Hlt]].
  - eapply (search_absent _ _ [] (c :: cells)); [done|done|]. constructor; [done|]. eapply Forall_impl; [exact Hc|].
    intros d Hd. by transitivity (c_k c).
  - by eapply (search_found _ _ [] c cells).
  - destruct (IH Hs) as [l1 d l2 -> Hk H1|l1 l2 -> H1 H2].
    + eapply (search_found _ _ (c :: l1) d l2); [done|done|by constructor].
    + eapply (search_absent _ _ (c :: l1) l2); [done|by constructor|done].
Qed.

Lemma strcmp_lt_ne a b : str_lt a b -> (strcmp b a =? 0) = false /\ (strcmp b a <? 0) = false /\ (strcmp a b =? 0) = false /\ (strcmp a b <? 0) = true.
Proof. unfold str_lt. intros H. rewrite (strcmp_opp a b), H. done. Qed.

Lemma absent_lookup key l1 l2 : Forall (fun d => str_lt (c_k d) key) l1 -> Forall (fun d => str_lt key (c_k d)) l2 -> key ∉ map c_k (l1 ++ l2).
Proof.
  intros H1 H2 Hin. apply list_elem_of_fmap in Hin as (d & -> & Hd).
  rewrite Forall_forall in H1, H2. apply elem_of_app in Hd as [Hd|Hd]; [apply H1 in Hd|apply H2 in Hd]; by apply (irreflexivity str_lt) in Hd.
Qed.

(** [tfind] stops at the cell of the key. *)
Lemma tfind_prefix h0 cells h key l1 l2 : owned h0 cells h -> (forall d, d ∈ l1 -> d ∈ cells) -> Forall (fun d => str_lt (c_k d) key) l1 ->
  dictionary_tfind (map c_entry (l1 ++ l2)) key h = dictionary_tfind (map c_entry l2) key h.
Proof.
  intros Ho Hin H1. induction l1 as [|d l1 IH]; [done|]. apply Forall_cons in H1 as [Hd H1]. cbn.
  rewrite (compare_ok h0 cells) by (try done; apply Hin; by left). cbn. destruct (strcmp_lt_ne _ _ Hd) as (-> & _). apply IH; [|done].
  intros e He. apply Hin. by right.
Qed.

Lemma tfind_absent h0 cells h key l : owned h0 cells h -> (forall d, d ∈ l -> d ∈ cells) -> Forall (fun d => str_lt key (c_k d)) l ->
  dictionary_tfind (map c_entry l) key h = Done None.
Proof.
  intros Ho Hin H. induction l as [|d l IH]; [done|]. apply Forall_cons in H as [Hd H]. cbn.
  rewrite (compare_ok h0 cells) by (try done; apply Hin; by left). cbn. destruct (strcmp_lt_ne _ _ Hd) as (_ & _ & -> & _). apply IH; [|done].
  intros e He. apply Hin. by right.
Qed.

Inductive found_spec (ds : datastore_t) (m : gmap (list Z) (list Z)) (cells : list cell) (h : dheap) (key : list Z) : Prop :=
| found_some l1 c l2 : cells = l1 ++ c :: l2 -> c_k c = key -> Forall (fun d => str_lt (c_k d) key) l1 ->
    dictionary_tfind ds key h = Done (Some (c_entry c)) -> m !! key = Some (c_v c) -> found_spec ds m cells h key
| found_none l1 l2 : cells = l1 ++ l2 -> Forall (fun d => str_lt (c_k d) key) l1 -> Forall (fun d => str_lt key (c_k d)) l2 ->
    dictionary_tfind ds key h = Done None -> m !! key = None -> found_spec ds m cells h key.

Lemma tfind_ok h0 ds m cells h key : ds_rep h0 ds m cells h -> found_spec ds m cells h key.
Proof.
  intros [Ho -> Hs ->]. destruct (search_total key cells Hs) as [l1 c l2 Hc Hk H1|l1 l2 Hc H1 H2]; subst cells.
  - eapply found_some; try done.
    + rewrite (tfind_prefix h0 (l1 ++ c :: l2)) by (try done; set_solver). cbn.
      rewrite (compare_ok h0 (l1 ++ c :: l2)) by (try done; set_solver). cbn. by rewrite (proj2 (strcmp_zero _ _)) by done.
    + rewrite (proj1 (map_focus _ _ _ Hs)), Hk. by rewrite lookup_insert_eq.
  - eapply found_none; try done; [|by apply not_elem_of_list_to_map_1; rewrite contents_keys; apply absent_lookup].
    rewrite (tfind_prefix h0 (l1 ++ l2)) by (try done; set_solver). apply (tfind_absent h0 (l1 ++ l2)); [done|set_solver|done].
Qed.

(** *** Inserting and removing cells *)

Lemma tsearch_ok h0 cells h key e l1 l2 : owned h0 cells h -> (forall d, d ∈ l1 ++ l2 -> d ∈ cells) ->
  Forall (fun d => str_lt (c_k d) key) l1 -> Forall (fun d => str_lt key (c_k d)) l2 ->
  tsearch e key (map c_entry (l1 ++ l2)) h = Done (map c_entry l1 ++ e :: map c_entry l2).
Proof.
  intros Ho Hin H1 H2. induction l1 as [|d l1 IH]; cbn [app map tsearch].
  - destruct l2 as [|d l2]; cbn; [done|]. apply Forall_cons in H2 as [Hd _].
    rewrite (compare_ok h0 cells) by (try done; apply Hin; by left). cbn. destruct (strcmp_lt_ne _ _ Hd) as (_ & _ & -> & ->). done.
  - apply Forall_cons in H1 as [Hd H1]. rewrite (compare_ok h0 cells) by (try done; apply Hin; by left). cbn [obind].
    destruct (strcmp_lt_ne _ _ Hd) as (-> & -> & _). rewrite IH; [done|set_solver|done].
Qed.

Lemma tdelete_ok h0 cells h l1 c l2 : owned h0 cells h -> (forall d, d ∈ l1 ++ c :: l2 -> d ∈ cells) ->
  Forall (fun d => str_lt (c_k d) (c_k c)) l1 -> dictionary_tdelete (map c_entry (l1 ++ c :: l2)) (c_k c) h = Done (map c_entry (l1 ++ l2)).
Proof.
  intros Ho Hin H1. induction l1 as [|d l1 IH]; cbn [app map dictionary_tdelete].
  - rewrite (compare_ok h0 cells) by (try done; apply Hin; by left). cbn. by rewrite strcmp_refl.
  - apply Forall_cons in H1 as [Hd H1]. rewrite (compare_ok h0 cells) by (try done; apply Hin; by left). cbn [obind].
    destruct (strcmp_lt_ne _ _ Hd) as (-> & _). rewrite IH; [done|set_solver|done].
Qed.

Lemma free_str_ok p s h : p <> 0 -> strs h !! p = Some s -> free_str p h = Done (set_strs h (delete p (strs h))).
Proof. intros Hp Hs. unfold free_str, c_free. by rewrite (proj2 (Z.eqb_neq _ _)), Hs by done. Qed.

Lemma destroy_cell c h : cell_fresh c h -> destroy_with_element_free (c_entry c) (add_cell c h) = Done h.
Proof.
  intros []. unfold destroy_with_element_free. cbn. rewrite lookup_insert_eq. cbn.
  rewrite (free_str_ok _ (c_k c)) by (try done; cbn; by rewrite lookup_insert_ne, lookup_insert_eq by congruence). cbn.
  rewrite delete_insert_ne, delete_insert_id by (try done; congruence).
  rewrite (free_str_ok _ (c_v c)) by (try done; cbn; by rewrite lookup_insert_eq). cbn. rewrite delete_insert_id by done.
  unfold free_entry. cbn. rewrite lookup_insert_eq. unfold set_entries. cbn. rewrite delete_insert_id by done. by destruct h.
Qed.

(** *** The operations *)

Section Operations.

Variable alloc_str : objects -> Z -> Z.
Variable alloc_entry : gmap Z (Z * Z) -> Z -> Z.
Hypothesis alloc_str_ok : forall o n, alloc_str o n <> 0 /\ o !! alloc_str o n = None.
Hypothesis alloc_entry_ok : forall o n, alloc_entry o n <> 0 /\ o !! alloc_entry o n = None.

Lemma ds_strdup_ok s h : exists p, strdup alloc_str s h = Done (p, set_strs h (<[p := s]> (strs h))) /\ p <> 0 /\ strs h !! p = None.
Proof.
  unfold strdup. destruct (alloc_str_ok (strs h) (Z.of_nat (length s) + 1)) as [H0 Hf]. rewrite (proj2 (Z.eqb_neq _ _)) by done. eauto.
Qed.

Lemma datastore_put_ok h0 ds m cells h key value : ds_rep h0 ds m cells h ->
  exists ds' cells' h', datastore_put alloc_str alloc_entry ds key value h = Done (if m !! key is Some _ then 0 else 1, ds', h')
    /\ ds_rep h0 ds' (if m !! key is Some _ then m else <[key := value]> m) cells' h'.
Proof.
  intros Hr. unfold datastore_put. destruct (tfind_ok _ _ _ _ _ key Hr) as [l1 c l2 -> Hk H1 -> Hm|l1 l2 -> H1 H2 -> Hm]; rewrite Hm; cbn [obind].
  - by eexists ds, _, h.
  - destruct Hr as [Ho -> Hs ->].
    destruct (ds_strdup_ok key h) as (k & -> & Hk0 & Hk). cbn [obind].
    destruct (ds_strdup_ok value (set_strs h (<[k := key]> (strs h)))) as (v & -> & Hv0 & Hv). cbn [obind].
    unfold malloc_entry_t. destruct (alloc_entry_ok (entries h) 16) as [He0 He].
    cbn [entries set_strs]. set (e := alloc_entry (entries h) 16) in *. rewrite (proj2 (Z.eqb_neq e 0)) by done. cbn [obind].
    set (c := Cell e k v key value). change (set_entries _ _) with (add_cell c h).
    cbn in Hv. apply lookup_insert_None in Hv as [Hv Hne].
    assert (Ho' : owned h0 (c :: l1 ++ l2) (add_cell c h)) by (exists h; by split).
    cbn. rewrite lookup_insert_ne, lookup_insert_eq by done. cbn.
    rewrite (tsearch_ok h0 (c :: l1 ++ l2)) by (try done; set_solver). cbn. exists (map c_entry l1 ++ e :: map c_entry l2), (l1 ++ c :: l2), (add_cell c h).
    assert (Hs' : keys_sorted (l1 ++ c :: l2)) by (by apply keys_sorted_middle).
    split; [done|]. split; [by apply owned_focus|by rewrite map_app|done|]. by rewrite (proj1 (map_focus _ _ _ Hs')).
Qed.

(** A hit leaves a fresh copy with the caller. *)
Lemma datastore_get_ok h0 ds m cells h key : ds_rep h0 ds m cells h ->
  match m !! key with
  | None => datastore_get alloc_str ds key h = Done (0, h)
  | Some value => exists p h', datastore_get alloc_str ds key h = Done (p, h') /\ p <> 0 /\ strs h0 !! p = None /\ strs h' !! p = Some value
      /\ ds_rep (set_strs h0 (<[p := value]> (strs h0))) ds m cells h'
  end.
Proof.
  intros Hr. unfold datastore_get. destruct (tfind_ok _ _ _ _ _ key Hr) as [l1 c l2 -> Hk H1 -> Hm|l1 l2 -> H1 H2 -> Hm]; rewrite Hm; cbn [obind]; [|done].
  destruct Hr as [Ho Hds Hs Hmap]. destruct (owned_lookup _ _ _ c Ho) as (He & _ & Hv); [apply elem_of_app; right; by left|]. rewrite He. cbn. rewrite Hv. cbn.
  destruct (ds_strdup_ok (c_v c) h) as (p & -> & Hp0 & Hp). exists p. eexists. split; [done|]. split; [done|].
  split; [by eapply owned_fresh_base|]. split; [cbn; by rewrite lookup_insert_eq|]. split; [by apply owned_base_insert|done..].
Qed.

Lemma datastore_update_ok h0 ds m cells h key value : ds_rep h0 ds m cells h ->
  exists cells' h', datastore_update alloc_str ds key value h = Done (if m !! key is Some _ then 1 else 0, h')
    /\ ds_rep h0 ds (if m !! key is Some _ then <[key := value]> m else m) cells' h'.
Proof.
  intros Hr. unfold datastore_update. destruct (tfind_ok _ _ _ _ _ key Hr) as [l1 c l2 -> Hk H1 -> Hm|l1 l2 -> H1 H2 -> Hm]; rewrite Hm; cbn [obind];
    [|by eexists _, h].
  destruct Hr as [Ho -> Hs ->]. apply owned_focus in Ho as (h' & Ho & Hf & ->). pose proof Hf as []. cbn. rewrite lookup_insert_eq. cbn.
  rewrite (free_str_ok _ (c_v c)) by (try done; cbn; by rewrite lookup_insert_eq). cbn.
  rewrite delete_insert_id by (by rewrite lookup_insert_None).
  match goal with |- context [strdup _ value ?hh] => destruct (ds_strdup_ok value hh) as (q & -> & Hq0 & Hq) end. cbn in Hq |- *.
  apply lookup_insert_None in Hq as [Hq Hqk]. set (c' := Cell (c_entry c) (c_key c) q (c_k c) value).
  exists (l1 ++ c' :: l2), (add_cell c' h'). split; [unfold add_cell, set_entries, set_strs; cbn; by rewrite insert_insert_eq|].
  assert (Hs' : keys_sorted (l1 ++ c' :: l2)) by (apply keys_sorted_middle in Hs; by apply keys_sorted_middle).
  split; [apply owned_focus; by exists h'|by rewrite !map_app|done|].
  rewrite (proj1 (map_focus _ _ _ Hs)), (proj1 (map_focus _ _ _ Hs')). subst key. cbn. by rewrite insert_insert_eq.
Qed.

Lemma datastore_delete_ok h0 ds m cells h key : ds_rep h0 ds m cells h ->
  exists ds' cells' h', datastore_delete ds key h = Done (if m !! key is Some _ then 1 else 0, ds', h') /\ ds_rep h0 ds' (delete key m) cells' h'.
Proof.
  intros Hr. unfold datastore_delete. destruct (tfind_ok _ _ _ _ _ key Hr) as [l1 c l2 -> Hk H1 -> Hm|l1 l2 -> H1 H2 -> Hm]; rewrite Hm; cbn [obind].
  - destruct Hr as [Ho -> Hs ->]. subst key. rewrite (tdelete_ok h0 (l1 ++ c :: l2)) by (try done; set_solver). cbn [obind].
    apply owned_focus in Ho as (h' & Ho & Hf & ->). rewrite destroy_cell by done. cbn. exists (map c_entry (l1 ++ l2)), (l1 ++ l2), h'.
    split; [done|]. destruct (map_focus _ _ _ Hs) as [-> Hn]. split; [done|done|by apply keys_sorted_middle in Hs as [? _]|by rewrite delete_insert_id].
  - exists ds, (l1 ++ l2), h. split; [done|]. by rewrite delete_id.
Qed.

Lemma datastore_iterate_ok {A} h0 ds m cells h (f : list Z -> list Z -> A -> A) arg : ds_rep h0 ds m cells h ->
  datastore_iterate ds f arg h = Done (foldl (fun a kv => f kv.1 kv.2 a) arg (contents cells)).
Proof.
  intros [Ho -> _ _]. assert (Hin : forall d, d ∈ cells -> d ∈ cells) by done. revert arg Hin. generalize cells at 1 3 4.
  intros l. induction l as [|c l IH]; intros arg Hin; [done|]. destruct (owned_lookup _ _ _ c Ho) as (He & Hk & Hv); [apply Hin; by left|].
  cbn. rewrite He. cbn. rewrite Hk, Hv. cbn. apply IH. intros d Hd. apply Hin. by right.
Qed.

Lemma datastore_destroy_ok h0 ds m cells h : ds_rep h0 ds m cells h -> datastore_destroy ds h = Done h0.
Proof.
  intros [Ho -> _ _]. revert h Ho. induction cells as [|c cells IH]; intros h Ho; [by cbn in *; subst h|].
  destruct Ho as (h' & Ho & Hf & ->). cbn. rewrite destroy_cell by done. by apply IH.
Qed.

Lemma datastore_init_ok h0 : ds_rep h0 datastore_init ∅ [] h0.
Proof. split; [done|done|constructor|done]. Qed.

(** ** Sequences of operations *)

Inductive ds_op :=
| Put (key value : list Z)
| Get (key : list Z)
| Update (key value : list Z)
| Delete (key : list Z).

Inductive ds_result :=
| Flag (r : Z)
| Found (value : option (list Z)).

(** A client that reads and frees the copy [datastore_get] gives it. *)
Definition run_ds_op (o : ds_op) (ds : datastore_t) (h : dheap) : outcome (ds_result * datastore_t * dheap) :=
  match o with
  | Put k v => let! (r, ds, h) := datastore_put alloc_str alloc_entry ds k v h in Done (Flag r, ds, h)
  | Get k =>
      let! (p, h) := datastore_get alloc_str ds k h in
      if p =? 0 then Done (Found None, ds, h)
      else let! s := deref (strs h !! p) in let! h := free_str p h in Done (Found (Some s), ds, h)
  | Update k v => let! (r, h) := datastore_update alloc_str ds k v h in Done (Flag r, ds, h)
  | Delete k => let! (r, ds, h) := datastore_delete ds k h in Done (Flag r, ds, h)
  end.

Fixpoint run_ds_ops (os : list ds_op) (ds : datastore_t) (h : dheap) : outcome (list ds_result * datastore_t * dheap) :=
  match os with
  | [] => Done ([], ds, h)
  | o :: os =>
      let! (r, ds, h) := run_ds_op o ds h in
      let! (rs, ds, h) := run_ds_ops os ds h in
      Done (r :: rs, ds, h)
  end.

(** What a map does. *)
Definition map_op (o : ds_op) (m : gmap (list Z) (list Z)) : ds_result * gmap (list Z) (list Z) :=
  match o with
  | Put k v => if m !! k is Some _ then (Flag 0, m) else (Flag 1, <[k := v]> m)
  | Get k => (Found (m !! k), m)
  | Update k v => if m !! k is Some _ then (Flag 1, <[k := v]> m) else (Flag 0, m)
  | Delete k => (Flag (if m !! k is Some _ then 1 else 0), delete k m)
  end.

Fixpoint map_ops (os : list ds_op) (m : gmap (list Z) (list Z)) : list ds_result * gmap (list Z) (list Z) :=
  match os with
  | [] => ([], m)
  | o :: os => let (r, m) := map_op o m in let (rs, m) := map_ops os m in (r :: rs, m)
  end.

Lemma run_ds_op_ok h0 ds m cells h o : ds_rep h0 ds m cells h ->
  exists ds' cells' h', run_ds_op o ds h = Done ((map_op o m).1, ds', h') /\ ds_rep h0 ds' (map_op o m).2 cells' h'.
Proof.
  intros Hr. destruct o as [k v|k|k v|k]; cbn [run_ds_op map_op].
  - destruct (datastore_put_ok _ _ _ _ _ k v Hr) as (ds' & cells' & h' & -> & Hr'). exists ds', cells', h'. by destruct (m !! k).
  - pose proof (datastore_get_ok _ _ _ _ _ k Hr) as Hg. destruct (m !! k) as [v|]; [|rewrite Hg; by exists ds, cells, h].
    destruct Hg as (p & h' & -> & Hp0 & Hp & Hv & [Ho Hd Hs Hm]). cbn [obind]. rewrite (proj2 (Z.eqb_neq p 0)), Hv by done. cbn.
    rewrite (free_str_ok _ v) by done. cbn. exists ds, cells. eexists. split; [done|]. split; [by eapply owned_base_delete|done..].
  - destruct (datastore_update_ok _ _ _ _ _ k v Hr) as (cells' & h' & -> & Hr'). exists ds, cells', h'. by destruct (m !! k).
  - destruct (datastore_delete_ok _ _ _ _ _ k Hr) as (ds' & cells' & h' & -> & Hr'). by exists ds', cells', h'.
Qed.

Lemma run_ds_ops_ok h0 ds m cells h os : ds_rep h0 ds m cells h ->
  exists ds' cells' h', run_ds_ops os ds h = Done ((map_ops os m).1, ds', h') /\ ds_rep h0 ds' (map_ops os m).2 cells' h'.
Proof.
  revert ds m cells h. induction os as [|o os IH]; intros ds m cells h Hr; [by exists ds, cells, h|].
  destruct (run_ds_op_ok _ _ _ _ _ o Hr) as (ds1 & cells1 & h1 & Hrun & Hr1). cbn [run_ds_ops map_ops]. rewrite Hrun. cbn [obind].
  destruct (map_op o m) as [r m1]. cbn [fst snd] in Hr1. destruct (IH _ _ _ _ Hr1) as (ds2 & cells2 & h2 & Hrun2 & Hr2). cbn in Hrun2 |- *. rewrite Hrun2. cbn.
  destruct (map_ops os m1) as [rs m2]. by exists ds2, cells2, h2.
Qed.

(** C31. Any sequence of operations on a fresh data store is defined and answers as a
    finite map does; iterating then visits exactly the entries of that map, in
    increasing order of their keys; and destroying the store gives back all the
    memory it allocated, leaving the heap as it was. *)
Theorem datastore_refines_map os h0 :
  exists ds h l, run_ds_ops os datastore_init h0 = Done ((map_ops os ∅).1, ds, h)
    /\ datastore_iterate ds (fun k v acc => acc ++ [(k, v)]) [] h = Done l
    /\ StronglySorted str_lt l.*1 /\ list_to_map l = (map_ops os ∅).2
    /\ datastore_destroy ds h = Done h0.
Proof.
  destruct (run_ds_ops_ok h0 datastore_init ∅ [] h0 os (datastore_init_ok h0)) as (ds & cells & h & Hrun & Hr).
  exists ds, h, (contents cells). split; [done|]. split.
  - rewrite (datastore_iterate_ok _ _ _ _ _ _ _ Hr). f_equal.
    assert (Hf : forall l acc, foldl (fun a kv => (fun k v a => a ++ [(k, v)]) kv.1 kv.2 a) acc l = acc ++ l :> list (list Z * list Z)).
    { induction l as [|[k v] l IH]; intros acc; cbn; [by rewrite app_nil_r|]. by rewrite IH, <- app_assoc. }
    by rewrite Hf.
  - split; [rewrite contents_keys; exact (dr_sorted _ _ _ _ _ Hr)|]. split; [exact (eq_sym (dr_map _ _ _ _ _ Hr))|]. by eapply datastore_destroy_ok.
Qed.

End Operations.

Lemma datastore_refines_map_witness :
  exists ds h (l : list (list Z * list Z)), run_ds_ops next_address next_address [Put [98] [49]; Put [97] [50]; Put [98] [51]; Update [97] [52]; Get [97]; Delete [98]; Get [98]]
      datastore_init (DHeap ∅ ∅)
    = Done ([Flag 1; Flag 1; Flag 0; Flag 1; Found (Some [52]); Flag 1; Found None], ds, h)
    /\ StronglySorted str_lt l.*1 /\ datastore_destroy ds h = Done (DHeap ∅ ∅).
Proof.
  destruct (datastore_refines_map next_address next_address next_address_fresh next_address_fresh
    [Put [98] [49]; Put [97] [50]; Put [98] [51]; Update [97] [52]; Get [97]; Delete [98]; Get [98]] (DHeap ∅ ∅))
    as (ds & h & l & H & _ & Hs & _ & Hd).
  exists ds, h, l. split; [exact H|]. by split.
Defined.
