(* ===== verification/MapReduceSpec.v ===== *)
(** * Correctness of [mapreduce/]

    The parts of the splitter put together are the file, and no line is broken;
    the data store is a finite map with sorted iteration that returns all its
    memory; and with any number of mappers and any interleaving of their output
    the reducer prints every key once, in order, with its number of occurrences. *)

From stdpp Require Import gmap strings sorting.
From S2P Require Import Prelude CString Callbacks MapReduce DatastoreSpec.
Open Scope Z_scope.

(** ** The splitter *)

(** Distance to just behind the next newline, or to the end. *)
Fixpoint to_next_line (l : list Z) : nat :=
  match l with
  | [] => 0
  | c :: l => if c =? 10 then 1 else S (to_next_line l)
  end.

Lemma next_line_loop_eq l p : next_line_loop l p = p + Z.of_nat (to_next_line l).
Proof. revert p. induction l as [|c l IH]; intros p; cbn; [lia|]. case_bool; [lia|]. rewrite IH. lia. Qed.

Lemma to_next_line_bound l : (to_next_line l <= length l)%nat.
Proof. induction l as [|c l IH]; cbn; [lia|]. case_bool; lia. Qed.

Lemma to_next_line_mono l d : (d <= length l)%nat -> (to_next_line l <= d + to_next_line (drop d l))%nat.
Proof.
  revert l. induction d as [|d IH]; intros l Hd; [done|]. destruct l as [|c l]; [cbn in Hd; lia|].
  cbn [drop to_next_line]. pose proof (IH l ltac:(cbn in Hd; lia)). case_bool; lia.
Qed.

Lemma to_next_line_end l : drop (to_next_line l) l = [] \/ last (take (to_next_line l) l) = Some 10.
Proof.
  induction l as [|c l IH]; [by left|]. cbn [to_next_line]. case_bool; [right; cbn; by rewrite E|].
  destruct IH as [IH|IH]; [by left|]. right. cbn [take]. destruct (take (to_next_line l) l) eqn:Et; [done|exact IH].
Qed.

Section Splitter.

Variable data : list Z.

(** Where part [i] starts, when [offset] gives the even division. *)
Definition cut (offset : nat) : nat := (offset + to_next_line (drop offset data))%nat.

Lemma nextLine_cut p : 0 <= p <= Z.of_nat (length data) -> nextLine data p (Z.of_nat (length data)) = Z.of_nat (cut (Z.to_nat p)).
Proof.
  intros Hp. unfold nextLine, cut. case_bool.
  - rewrite next_line_loop_eq, take_ge by (rewrite length_drop; lia). lia.
  - rewrite drop_ge by lia. cbn. lia.
Qed.

Lemma cut_bound p : (p <= length data)%nat -> (p <= cut p <= length data)%nat.
Proof. intros Hp. unfold cut. pose proof (to_next_line_bound (drop p data)) as H. rewrite length_drop in H. lia. Qed.

Lemma cut_mono p q : (p <= q <= length data)%nat -> (cut p <= cut q)%nat.
Proof.
  intros H. unfold cut. pose proof (to_next_line_mono (drop p data) (q - p)) as Hm.
  rewrite drop_drop, length_drop in Hm. replace (p + (q - p))%nat with q in Hm by lia. lia.
Qed.

(** A place where no line is broken. *)
Definition line_start (p : nat) : Prop := p = 0%nat \/ drop p data = [] \/ last (take p data) = Some 10.

Lemma cut_line_start p : (p <= length data)%nat -> line_start (cut p).
Proof.
  intros Hp. right. unfold cut. destruct (to_next_line_end (drop p data)) as [H|H]; [left; by rewrite <- drop_drop|].
  right. rewrite <- take_take_drop, last_app, H. done.
Qed.

Definition part (a b : nat) : list Z := take (b - a) (drop a data).

Lemma part_lines a b : (a <= b)%nat -> line_start b -> getlines (drop a data) = getlines (part a b) ++ getlines (drop b data).
Proof.
  intros Hab Hb. rewrite <- (take_drop (b - a) (drop a data)) at 1. rewrite drop_drop. replace (a + (b - a))%nat with b by lia.
  apply getlines_app. fold (part a b). destruct Hb as [Hb|[Hb|Hb]]; [left| by auto|].
  - unfold part. by replace (b - a)%nat with 0%nat by lia.
  - unfold part. replace b with (a + (b - a))%nat in Hb by lia. rewrite <- take_take_drop, last_app in Hb.
    destruct (last (take (b - a) (drop a data))) eqn:El; [right; left; congruence|left]. by apply last_None.
Qed.

(** Monotone cuts at line starts split the lines. *)
Lemma parts_lines (c : nat -> nat) n :
  (forall i, (i < n)%nat -> (c i <= c (S i))%nat /\ line_start (c (S i))) -> drop (c n) data = [] ->
  getlines (drop (c 0%nat) data) = concat (map (fun i => getlines (part (c i) (c (S i)))) (seq 0 n))
  /\ drop (c 0%nat) data = concat (map (fun i => part (c i) (c (S i))) (seq 0 n)).
Proof.
  intros Hc Hn. assert (H : forall k, (k <= n)%nat ->
    getlines (drop (c (n - k)%nat) data) = concat (map (fun i => getlines (part (c i) (c (S i)))) (seq (n - k) k))
    /\ drop (c (n - k)%nat) data = concat (map (fun i => part (c i) (c (S i))) (seq (n - k) k))).
  { induction k as [|k IH]; intros Hk; [rewrite Nat.sub_0_r, Hn; done|]. destruct (Hc (n - S k)%nat) as [Hle Hs]; [lia|].
    destruct IH as [IH1 IH2]; [lia|]. cbn [seq map concat]. replace (S (n - S k)) with (n - k)%nat in * by lia.
    rewrite <- IH1, <- IH2. split; [by apply part_lines|]. unfold part. rewrite <- (take_drop (c (n - k)%nat - c (n - S k)%nat) (drop (c (n - S k)%nat) data)) at 1.
    f_equal. rewrite drop_drop. f_equal. lia. }
  specialize (H n (Nat.le_refl n)). by rewrite Nat.sub_diag in H.
Qed.

(** The part boundaries of [write_portion]. *)
Definition boundary_of (count : Z) (i : nat) : nat :=
  if Z.of_nat i =? 0 then 0%nat
  else if Z.of_nat i =? count then length data
  else cut (Z.to_nat (Z.of_nat (length data) * Z.of_nat i / count)).

Context (count : Z).
Context (Hcount : 0 < count < 2147483648) (Hsize : Z.of_nat (length data) * count < 2 ^ 64).

Lemma offset_bound i : Z.of_nat i <= count -> 0 <= Z.of_nat (length data) * Z.of_nat i / count <= Z.of_nat (length data).
Proof. intros Hi. split; [apply Z.div_pos; lia|]. apply Z.div_le_upper_bound; nia. Qed.

Lemma getSubrange_eq i : Z.of_nat i < count ->
  getSubrange (Z.of_nat (length data)) count (Z.of_nat i)
  = (Z.of_nat (length data) * Z.of_nat i / count, Z.of_nat (length data) * Z.of_nat (S i) / count).
Proof.
  intros Hi. unfold getSubrange. rewrite (s32_small (Z.of_nat i + 1)) by lia. rewrite !(u64_small count), (u64_small (Z.of_nat i)), (u64_small (Z.of_nat i + 1)) by lia.
  rewrite !u64_small by nia. replace (Z.of_nat i + 1) with (Z.of_nat (S i)) by lia.
  pose proof (offset_bound (S i) ltac:(lia)). rewrite (proj2 (Z.ltb_ge _ _)) by lia. done.
Qed.

Lemma write_portion_eq i : Z.of_nat i < count -> write_portion data count (Z.of_nat i) = part (boundary_of count i) (boundary_of count (S i)).
Proof.
  intros Hi. unfold write_portion. rewrite getSubrange_eq by done.
  pose proof (offset_bound i ltac:(lia)). pose proof (offset_bound (S i) ltac:(lia)). rewrite !nextLine_cut by done.
  assert (Hs : (if Z.of_nat i =? 0 then 0 else Z.of_nat (cut (Z.to_nat (Z.of_nat (length data) * Z.of_nat i / count)))) = Z.of_nat (boundary_of count i)).
  { unfold boundary_of. case_bool; [done|]. by rewrite (proj2 (Z.eqb_neq (Z.of_nat i) count)) by lia. }
  assert (He : (if Z.of_nat i =? count - 1 then Z.of_nat (length data) else Z.of_nat (cut (Z.to_nat (Z.of_nat (length data) * Z.of_nat (S i) / count)))) = Z.of_nat (boundary_of count (S i))).
  { unfold boundary_of. rewrite (proj2 (Z.eqb_neq (Z.of_nat (S i)) 0)) by lia. case_bool.
    - by rewrite (proj2 (Z.eqb_eq (Z.of_nat (S i)) count)) by lia.
    - by rewrite (proj2 (Z.eqb_neq (Z.of_nat (S i)) count)) by lia. }
  rewrite Hs, He. unfold part. case_bool; [f_equal; [lia|f_equal; lia]|]. by replace (boundary_of count (S i) - boundary_of count i)%nat with 0%nat by lia.
Qed.

Lemma boundary_step i : Z.of_nat i < count ->
  (boundary_of count i <= boundary_of count (S i))%nat /\ line_start (boundary_of count (S i)).
Proof.
  intros Hi. pose proof (offset_bound i ltac:(lia)) as Ho. pose proof (offset_bound (S i) ltac:(lia)) as Ho'. unfold boundary_of.
  rewrite (proj2 (Z.eqb_neq (Z.of_nat (S i)) 0)) by lia. rewrite (proj2 (Z.eqb_neq (Z.of_nat i) count)) by lia. split.
  - destruct (Z.eqb_spec (Z.of_nat i) 0); [lia|]. case_bool; [apply cut_bound; lia|]. apply cut_mono. split; [|lia].
    apply Z2Nat.inj_le; [lia|lia|]. apply Z.div_le_mono; nia.
  - case_bool; [right; left; by apply drop_ge|]. apply cut_line_start. lia.
Qed.

(** The parts are the file, and their lines are the lines of the file. *)
Lemma portions_ok :
  getlines data = concat (map (fun i => getlines (write_portion data count (Z.of_nat i))) (seq 0 (Z.to_nat count)))
  /\ data = concat (map (fun i => write_portion data count (Z.of_nat i)) (seq 0 (Z.to_nat count))).
Proof.
  destruct (parts_lines (boundary_of count) (Z.to_nat count)) as [H1 H2].
  - intros i Hi. apply boundary_step. lia.
  - unfold boundary_of. rewrite Z2Nat.id by lia. rewrite (proj2 (Z.eqb_neq count 0)), Z.eqb_refl by lia. by apply drop_ge.
  - assert (H0 : boundary_of count 0 = 0%nat) by done. rewrite H0, drop_0 in H1, H2.
    split; [rewrite H1 at 1|rewrite H2 at 1]; f_equal; apply map_ext_in; intros i Hi%in_seq; by rewrite write_portion_eq by lia.
Qed.

End Splitter.

(** Written one after the other, the parts the splitters of a run write are the
    file, and their lines are the lines of the file: none is broken or lost. *)
Theorem splitter_correct data count :
  0 < count < 2147483648 -> Z.of_nat (length data) * count < 2 ^ 64 ->
  exists parts, mapM (M := option) (fun i => match splitter data count (Z.of_nat i) with Done p => Some p | _ => None end) (seq 0 (Z.to_nat count)) = Some parts
    /\ concat parts = data /\ concat (map getlines parts) = getlines data.
Proof.
  intros Hc Hs. exists (map (fun i => write_portion data count (Z.of_nat i)) (seq 0 (Z.to_nat count))).
  destruct (portions_ok data count Hc Hs) as [Hl Hd]. split; [|split; [by rewrite <- Hd|by rewrite map_map, <- Hl]].
  apply mapM_Some. apply Forall2_fmap_r, Forall_Forall2_diag, Forall_forall. intros i [_ Hi]%elem_of_seq. unfold splitter.
  rewrite (proj2 (Z.ltb_ge count 1)), (proj2 (Z.ltb_ge (Z.of_nat i) 0)), (proj2 (Z.leb_gt count (Z.of_nat i))) by lia. done.
Qed.

Lemma splitter_correct_witness :
  splitter (bytes_of_string "ab" ++ [10] ++ bytes_of_string "cdefg" ++ [10; 10] ++ bytes_of_string "h") 3 0 = Done (bytes_of_string "ab" ++ [10] ++ bytes_of_string "cdefg" ++ [10])
  /\ exists parts, concat parts = bytes_of_string "ab" ++ [10] ++ bytes_of_string "cdefg" ++ [10; 10] ++ bytes_of_string "h".
Proof.
  split; [vm_compute; reflexivity|].
  destruct (splitter_correct (bytes_of_string "ab" ++ [10] ++ bytes_of_string "cdefg" ++ [10; 10] ++ bytes_of_string "h") 3) as (parts & _ & H & _);
    [lia|vm_compute; reflexivity|]. by exists parts.
Defined.

(** ** Records *)

(** What a record may have for a key, and its line. *)
Definition key_ok (k : list Z) : Prop := (58 ∉ k) /\ (10 ∉ k) /\ (0 ∉ k).

Definition record_of (key value : list Z) : list Z := key ++ [58; 32] ++ value ++ [10].

Lemma record_eq k : record k = record_of k [49].
Proof. done. Qed.

Lemma strstr_record k v : 58 ∉ k -> strstr (record_of k v) [58; 32] = Some (length k).
Proof.
  intros Hk. apply strstr_first.
  - unfold record_of. rewrite length_app. lia.
  - unfold occurs, record_of. by rewrite drop_app_length.
  - intros j Hj Ho. unfold occurs, record_of in Ho. rewrite drop_app_le in Ho by lia.
    destruct (lookup_lt_is_Some_2 k j Hj) as [c Hc]. rewrite (drop_S _ _ _ Hc) in Ho. cbn in Ho. injection Ho as -> _.
    apply Hk. by apply list_elem_of_lookup_2 in Hc.
Qed.

Lemma strstr_newline l r : 10 ∉ l -> strstr (l ++ 10 :: r) [10] = Some (length l).
Proof.
  intros Hl. apply strstr_first.
  - rewrite length_app. lia.
  - unfold occurs. by rewrite drop_app_length.
  - intros j Hj Ho. unfold occurs in Ho. rewrite drop_app_le in Ho by lia.
    destruct (lookup_lt_is_Some_2 l j Hj) as [c Hc]. rewrite (drop_S _ _ _ Hc) in Ho. cbn in Ho. injection Ho as ->.
    apply Hl. by apply list_elem_of_lookup_2 in Hc.
Qed.

Lemma split_record k v : key_ok k -> 10 ∉ v -> 0 ∉ v -> split_key_value (until_zero (record_of k v)) = Some (k, v).
Proof.
  intros (Hk1 & Hk2 & Hk3) Hv1 Hv2. rewrite until_zero_id by (unfold record_of; rewrite !not_elem_of_app; set_solver).
  unfold split_key_value. change (bytes_of_string ": ") with [58; 32]. rewrite strstr_record by done.
  assert (Hn : strstr (record_of k v) [10] = Some (length (k ++ [58; 32] ++ v))).
  { assert (Hr : record_of k v = (k ++ [58; 32] ++ v) ++ [10]) by (unfold record_of; by rewrite <- app_assoc).
    rewrite Hr. apply strstr_newline. rewrite !not_elem_of_app. set_solver. }
  rewrite Hn. set (line := <[_ := 0]> (<[_ := 0]> (record_of k v))).
  assert (Hline : line = k ++ 0 :: 32 :: v ++ 0 :: []).
  { unfold line, record_of. rewrite insert_app_r_alt, Nat.sub_diag by lia. cbn [app].
    change (<[0%nat := 0]> (58 :: 32 :: v ++ [10])) with (0 :: 32 :: v ++ [10]). rewrite insert_app_r_alt, length_app by (rewrite length_app; lia).
    cbn [length]. replace (length k + S (S (length v)) - length k)%nat with (S (S (length v))) by lia.
    change (<[S (S (length v)) := 0]> (0 :: 32 :: v ++ [10])) with (0 :: 32 :: <[length v := 0]> (v ++ [10])).
    by rewrite insert_app_r_alt, Nat.sub_diag by lia. }
  rewrite Hline. rewrite until_zero_app by done. rewrite drop_app_ge by lia.
  replace (length k + 2 - length k)%nat with 2%nat by lia. cbn [drop]. rewrite drop_0. by rewrite until_zero_app.
Qed.

(** ** The reducer *)

Definition occurrences (k : list Z) (l : list (list Z)) : Z := Z.of_nat (length (filter (eq k) l)).

Lemma occurrences_cons k j l : occurrences k (j :: l) = (if decide (k = j) then 1 else 0) + occurrences k l.
Proof. unfold occurrences. rewrite filter_cons. case_decide; cbn [length]; lia. Qed.

Lemma occurrences_app k l1 l2 : occurrences k (l1 ++ l2) = occurrences k l1 + occurrences k l2.
Proof. unfold occurrences. rewrite filter_app, length_app. lia. Qed.

Lemma occurrences_perm k l1 l2 : l1 ≡ₚ l2 -> occurrences k l1 = occurrences k l2.
Proof. unfold occurrences. by intros ->. Qed.

Lemma occurrences_bound k l : 0 <= occurrences k l <= Z.of_nat (length l).
Proof. unfold occurrences. pose proof (length_filter (eq k) l). lia. Qed.

Lemma occurrences_pos k l : k ∈ l <-> 0 < occurrences k l.
Proof.
  induction l as [|j l IH]; [split; [by intros ?%elem_of_nil|done]|]. rewrite occurrences_cons, elem_of_cons, IH.
  pose proof (occurrences_bound k l). case_decide; [split; [lia|by left]|]. split; [intros [?|?]; [done|lia]|right; lia].
Qed.

(** The counts of the keys seen so far, printed. *)
Definition counts (seen : list (list Z)) (m : gmap (list Z) (list Z)) : Prop :=
  forall k, m !! k = if decide (k ∈ seen) then Some (decimal (occurrences k seen)) else None.

Section Reducer.

Variable alloc_str : objects -> Z -> Z.
Variable alloc_entry : gmap Z (Z * Z) -> Z -> Z.
Hypothesis alloc_str_ok : forall o n, alloc_str o n <> 0 /\ o !! alloc_str o n = None.
Hypothesis alloc_entry_ok : forall o n, alloc_entry o n <> 0 /\ o !! alloc_entry o n = None.

Lemma sum_reducer_ok n : 0 <= n < 2147483647 -> sum_reducer (decimal n) [49] = Done (decimal (n + 1)).
Proof.
  intros Hn. unfold sum_reducer. rewrite atoi_decimal by lia. change (atoi [49]) with (Done 1). cbn [obind].
  by rewrite (proj2 (Z.leb_le _ _)), (proj2 (Z.ltb_lt _ _)) by lia.
Qed.

Lemma counts_snoc seen k m v : counts seen m -> v = decimal (occurrences k seen + 1) -> counts (seen ++ [k]) (<[k := v]> m).
Proof.
  intros Hc -> j. rewrite occurrences_app, occurrences_cons. change (occurrences j []) with 0. rewrite Z.add_0_r.
  destruct (decide (j = k)) as [->|Hne].
  - by rewrite lookup_insert_eq, decide_True by set_solver.
  - rewrite lookup_insert_ne, Hc, Z.add_0_r by done.
    destruct (decide (j ∈ seen)); [rewrite decide_True by set_solver; done|rewrite decide_False by set_solver; done].
Qed.

(** One record counts its key, and the temporary strings are freed again. *)
Lemma reduce_line_ok h0 ds m cells h seen k :
  ds_rep h0 ds m cells h -> counts seen m -> key_ok k -> Z.of_nat (length seen) < 2147483647 ->
  exists ds' m' cells' h', reduce_line alloc_str alloc_entry sum_reducer (record k) ds h = Done (ds', h')
    /\ ds_rep h0 ds' m' cells' h' /\ counts (seen ++ [k]) m'.
Proof.
  intros Hr Hc Hk Hlen. unfold reduce_line. rewrite record_eq, split_record by (try done; set_solver).
  pose proof (datastore_get_ok alloc_str alloc_str_ok _ _ _ _ _ k Hr) as Hg. pose proof (Hc k) as Hmk. pose proof (occurrences_bound k seen) as Hb.
  destruct (m !! k) as [v|] eqn:Em.
  - destruct Hg as (p & h1 & -> & Hp0 & Hp & Hv & Hr1). cbn [obind]. rewrite (proj2 (Z.eqb_neq p 0)), Hv by done. cbn [deref obind].
    destruct (decide (k ∈ seen)); [|done]. injection Hmk as ->. rewrite sum_reducer_ok by lia. cbn [obind].
    set (n := decimal (occurrences k seen + 1)).
    destruct (ds_strdup_ok alloc_str alloc_str_ok n h1) as (q & -> & Hq0 & Hq). cbn [obind strs set_strs]. rewrite lookup_insert_eq. cbn [deref obind].
    set (h0p := set_strs h0 (<[p := decimal (occurrences k seen)]> (strs h0))) in *.
    assert (Hr2 : ds_rep (set_strs h0p (<[q := n]> (strs h0p))) ds m cells (set_strs h1 (<[q := n]> (strs h1))))
      by (destruct Hr1; split; [by apply owned_base_insert|done..]).
    destruct (datastore_update_ok alloc_str alloc_str_ok _ _ _ _ _ k n Hr2) as (cells' & h2 & Hup & [Ho3 Hd3 Hs3 Hm3]). rewrite Em in Hm3.
    rewrite Hup. cbn [obind].
    pose proof (owned_fresh_base _ _ _ _ (dr_owned _ _ _ _ _ Hr1) Hq) as Hqb. cbn in Hqb. apply lookup_insert_None in Hqb as [Hqb Hpq].
    assert (Hp2 : strs h2 !! p = Some (decimal (occurrences k seen)))
      by (apply (owned_base_lookup _ _ _ _ _ Ho3); cbn; by rewrite lookup_insert_ne, lookup_insert_eq).
    assert (Hq2 : strs h2 !! q = Some n) by (apply (owned_base_lookup _ _ _ _ _ Ho3); cbn; by rewrite lookup_insert_eq).
    rewrite (free_str_ok _ _ _ Hp0 Hp2). cbn [obind]. rewrite (free_str_ok _ n) by (try done; cbn; by rewrite lookup_delete_ne). cbn [obind].
    exists ds, (<[k := n]> m), cells'. eexists. split; [done|]. split; [|by apply counts_snoc].
    split; [|done..]. eapply (owned_base_delete _ _ _ q n); [|done].
    eapply (owned_base_delete _ _ _ p (decimal (occurrences k seen))); [|cbn; by rewrite lookup_insert_ne].
    cbn in Ho3 |- *. unfold set_strs in *. cbn in *. by rewrite (insert_insert_ne _ p q).
  - rewrite Hg. cbn [obind]. change (0 =? 0) with true. cbn iota.
    destruct (datastore_put_ok alloc_str alloc_entry alloc_str_ok alloc_entry_ok _ _ _ _ _ k [49] Hr) as (ds' & cells' & h' & Hput & Hr'). rewrite Em in Hr'.
    rewrite Hput. cbn [obind]. exists ds', (<[k := [49]]> m), cells', h'. split; [done|]. split; [done|]. apply counts_snoc; [done|].
    destruct (decide (k ∈ seen)) as [|Hn]; [done|]. assert (occurrences k seen = 0) as -> by (rewrite occurrences_pos in Hn; lia). done.
Qed.

Lemma reduce_lines_ok h0 ds m cells h seen ks :
  ds_rep h0 ds m cells h -> counts seen m -> Forall key_ok ks -> Z.of_nat (length seen + length ks) < 2147483648 ->
  exists ds' m' cells' h', reduce_lines alloc_str alloc_entry sum_reducer (map record ks) ds h = Done (ds', h')
    /\ ds_rep h0 ds' m' cells' h' /\ counts (seen ++ ks) m'.
Proof.
  revert ds m cells h seen. induction ks as [|k ks IH]; intros ds m cells h seen Hr Hc Hk Hlen; [exists ds, m, cells, h; by rewrite app_nil_r|].
  apply Forall_cons in Hk as [Hk Hks]. cbn [length] in Hlen. destruct (reduce_line_ok _ _ _ _ _ seen k Hr Hc Hk) as (ds1 & m1 & cells1 & h1 & Hrun & Hr1 & Hc1); [lia|].
  cbn [map reduce_lines]. rewrite Hrun. cbn [obind].
  destruct (IH _ _ _ _ _ Hr1 Hc1 Hks) as (ds2 & m2 & cells2 & h2 & Hrun2 & Hr2 & Hc2); [rewrite length_app; cbn; lia|].
  exists ds2, m2, cells2, h2. rewrite <- app_assoc in Hc2. done.
Qed.

(** The line printed for a key. *)
Definition count_line (ks : list (list Z)) (k : list Z) : list Z := record_of k (decimal (occurrences k ks)).

Lemma print_all l out : foldl (fun a kv => print_ds kv.1 kv.2 a) out l = out ++ concat (map (fun kv : list Z * list Z => record_of kv.1 kv.2) l).
Proof.
  revert out. induction l as [|[k v] l IH]; intros out; cbn [foldl map concat fst snd]; [by rewrite app_nil_r|].
  rewrite IH. unfold print_ds, record_of. rewrite <- !app_assoc. reflexivity.
Qed.

Lemma run_reducer_ok h0 ks :
  Forall key_ok ks -> Z.of_nat (length ks) < 2147483648 ->
  exists keys, StronglySorted str_lt keys /\ (forall k, k ∈ keys <-> k ∈ ks)
    /\ run_reducer_on alloc_str alloc_entry (concat (map record ks)) sum_reducer h0 = Done (concat (map (count_line ks) keys), h0).
Proof.
  intros Hk Hlen. unfold run_reducer_on.
  assert (Hl : getlines (concat (map record ks)) = map record ks).
  { assert (Heq : map record ks = map (fun l => l ++ [10]) (map (fun k => k ++ [58; 32; 49]) ks))
      by (rewrite map_map; apply map_ext; intros k; cbn beta; rewrite <- app_assoc; reflexivity).
    rewrite Heq. apply getlines_concat. apply Forall_fmap. eapply Forall_impl; [exact Hk|]. intros k (_ & H & _). cbn. set_solver. }
  rewrite Hl. destruct (reduce_lines_ok h0 datastore_init ∅ [] h0 [] ks (datastore_init_ok h0)) as (ds & m & cells & h & Hrun & Hr & Hc);
    [by intros k|done|cbn; lia|]. cbn [app] in Hc. rewrite Hrun. cbn [obind].
  rewrite (datastore_iterate_ok _ _ _ _ _ _ _ Hr). cbn [obind]. rewrite (datastore_destroy_ok _ _ _ _ _ Hr). cbn [obind].
  destruct Hr as [_ _ Hs Hm]. pose proof (sorted_keys_nodup _ Hs) as Hnd.
  assert (Hin : forall k v, (k, v) ∈ contents cells <-> k ∈ ks /\ v = decimal (occurrences k ks)).
  { intros k v. rewrite (elem_of_list_to_map (M := gmap (list Z))), <- Hm, Hc by (by rewrite contents_keys). case_decide; naive_solver. }
  exists (map c_k cells). split; [done|]. split.
  - intros k. rewrite <- contents_keys, list_elem_of_fmap. split; [intros ([k' v] & -> & H); by apply Hin in H as [? _]|].
    intros H. exists (k, decimal (occurrences k ks)). split; [done|]. by apply Hin.
  - rewrite print_all. cbn [app]. f_equal. f_equal. f_equal. unfold contents in *. rewrite !map_map. apply map_ext_in. intros c Hcc%list_elem_of_In. cbn [fst snd].
    unfold count_line. f_equal. eapply Hin. by apply (list_elem_of_fmap_2 (fun c => (c_k c, c_v c))).
Qed.

End Reducer.

(** ** The mappers *)

(** A mapper that writes one record for each of its keys. *)
Class Mapper (mapper : list Z -> list Z) := {
  keys_of : list Z -> list (list Z);
  mapper_records data : mapper data = concat (map record (keys_of data));
  mapper_keys data : 0 ∉ data -> Forall key_ok (keys_of data);
}.

Definition letter_key (f : Z -> list Z) (data : list Z) : list (list Z) :=
  concat (map (fun c => if isalpha c then [f c] else []) data).

Lemma letter_key_records f data :
  concat (map record (letter_key f data)) = concat (map (fun c => if isalpha c then record (f c) else []) data).
Proof.
  unfold letter_key. induction data as [|c data IH]; [done|]. cbn. rewrite map_app, concat_app, IH. destruct (isalpha c); cbn; [|done].
  by rewrite app_nil_r.
Qed.

Lemma letter_key_in f data k : k ∈ letter_key f data -> exists c, isalpha c = true /\ k = f c.
Proof.
  unfold letter_key. rewrite list_elem_of_In, in_concat. intros (l & Hl & Hk). apply in_map_iff in Hl as (c & <- & _).
  destruct (isalpha c) eqn:E; [|done]. exists c. split; [done|]. by destruct Hk as [<-|].
Qed.

Lemma tolower_alpha c : isalpha c = true -> 97 <= tolower c <= 122.
Proof. unfold isalpha, tolower. intros H. apply orb_true_iff in H as [H|H]; apply andb_true_iff in H as [? ?]; case_bool; lia. Qed.

#[export] Program Instance asciicount_mapper : Mapper asciicount := { keys_of := letter_key (fun c => [tolower c]) }.
Next Obligation. intros data. rewrite letter_key_records. induction data as [|c data IH]; [done|]. cbn [asciicount map concat]. by rewrite IH. Qed.
Next Obligation.
  intros data _. apply Forall_forall. intros k Hk. apply letter_key_in in Hk as (c & Hc & ->). pose proof (tolower_alpha c Hc).
  unfold key_ok. rewrite !list_elem_of_singleton. lia.
Qed.

#[export] Program Instance lettercount_mapper : Mapper lettercount := { keys_of := letter_key (fun _ => bytes_of_string "letters") }.
Next Obligation. intros data. rewrite letter_key_records. induction data as [|c data IH]; [done|]. cbn [lettercount map concat]. by rewrite IH. Qed.
Next Obligation.
  intros data _. apply Forall_forall. intros k Hk. apply letter_key_in in Hk as (c & Hc & ->).
  unfold key_ok. vm_compute. set_solver.
Qed.

Lemma rev_elem_of {A} (c : A) l : c ∈ rev l -> c ∈ l.
Proof. rewrite !list_elem_of_In. by rewrite <- in_rev. Qed.

(** The parts [strtok] finds hold characters of the string only. *)
Lemma strtok_chars delim s cur t c : t ∈ strtok delim s cur -> c ∈ t -> c ∈ cur \/ (c ∈ s /\ c <> delim).
Proof.
  revert cur. induction s as [|d s IH]; intros cur Ht Hc; cbn in Ht.
  - case_decide; [by apply elem_of_nil in Ht|]. apply list_elem_of_singleton in Ht as ->. left. by apply rev_elem_of.
  - assert (Htail : t ∈ strtok delim s [] -> c ∈ cur \/ (c ∈ d :: s /\ c <> delim)).
    { intros H. destruct (IH [] H Hc) as [Hn|[? ?]]; [by apply elem_of_nil in Hn|]. right. split; [by right|done]. }
    destruct (Z.eqb_spec d delim) as [->|Hd].
    + case_decide; [by apply Htail|]. apply elem_of_cons in Ht as [->|Ht]; [left; by apply rev_elem_of|by apply Htail].
    + destruct (IH (d :: cur) Ht Hc) as [Hn|[? ?]]; [|right; split; [by right|done]].
      apply elem_of_cons in Hn as [->|Hn]; [right; split; [by left|done]|by left].
Qed.

#[export] Program Instance wordcount_mapper : Mapper wordcount := { keys_of := fun data => strtok 32 (replace_chars data) [] }.
Next Obligation. done. Qed.
Next Obligation.
  intros data Hz. apply Forall_forall. intros k Hk.
  assert (Hch : forall c, c ∈ k -> c ∈ replace_chars data).
  { intros c Hc. destruct (strtok_chars _ _ _ _ _ Hk Hc) as [Hn|[? _]]; [by apply elem_of_nil in Hn|done]. }
  assert (Hrep : forall c, c ∈ replace_chars data -> c <> 58 /\ c <> 10 /\ c <> 0).
  { intros c Hc. apply list_elem_of_fmap in Hc as (d & -> & Hd). assert (d <> 0) by (by intros ->). repeat case_bool; lia. }
  split; [|split]; intros Hin; apply Hch, Hrep in Hin; lia.
Qed.

#[export] Program Instance wordlengths_mapper : Mapper wordlengths :=
  { keys_of := fun data => map (fun datum => decimal (Z.of_nat (length datum))) (strtok 32 (map (fun c => if c =? 10 then 32 else c) data) []) }.
Next Obligation. intros data. unfold wordlengths. by rewrite map_map. Qed.
Next Obligation.
  intros data _. apply Forall_forall. intros k Hk. apply list_elem_of_fmap in Hk as (t & -> & _).
  split; [|split]; intros Hc; apply decimal_digit in Hc; lia.
Qed.

(** ** The whole *)

Lemma until_zero_nonzero bs : 0 ∉ until_zero bs.
Proof. induction bs as [|c bs IH]; cbn; [apply not_elem_of_nil|]. case_bool; [apply not_elem_of_nil|]. by apply not_elem_of_cons. Qed.

(** What the mapper sees of a line, and the keys of a whole file. *)
Definition line_data (line : list Z) : list Z := until_zero (chomp line).

Definition all_keys `{Mapper mapper} (data : list Z) : list (list Z) := concat (map (fun line => keys_of (line_data line)) (getlines data)).

Lemma interleaving_perm {A} (ls : list (list A)) r : interleaving ls r -> r ≡ₚ concat ls.
Proof.
  induction 1 as [ls Hls|ls i x l r Hi _ IH]; [induction Hls as [|? ls <- _ IH]; [done|exact IH]|].
  rewrite IH. apply list_elem_of_split_length in Hi as (l1 & l2 & -> & ->). rewrite insert_app_r_alt, Nat.sub_diag by done. cbn.
  rewrite !concat_app. cbn. by rewrite Permutation_middle.
Qed.

Lemma flat_records {A} (f : A -> list (list Z)) ls : concat (map (fun l => concat (map record (f l))) ls) = concat (map record (concat (map f ls))).
Proof. induction ls as [|l ls IH]; [done|]. cbn. by rewrite IH, map_app, concat_app. Qed.

(** What the reducer reads are the records of the keys of the file, in some order. *)
Lemma reducer_input_records `{Mapper mapper} data n input :
  0 < Z.of_nat n < 2147483648 -> Z.of_nat (length data) * Z.of_nat n < 2 ^ 64 -> reducer_input data n mapper input ->
  exists ks, ks ≡ₚ all_keys data /\ input = concat (map record ks).
Proof.
  intros Hn Hs (writes & Hi & ->). apply interleaving_perm in Hi.
  destruct (portions_ok data (Z.of_nat n) Hn Hs) as [Hl _]. rewrite Nat2Z.id in Hl.
  assert (Hw : writes ≡ₚ map (fun line => mapper (line_data line)) (getlines data)).
  { rewrite Hi, Hl, concat_map, map_map. unfold mapper_process, run_mapper_on_fds. done. }
  apply Permutation_map_inv in Hw as (lines & -> & Hp).
  exists (concat (map (fun line => keys_of (line_data line)) lines)). split.
  - unfold all_keys. by rewrite Hp.
  - rewrite <- flat_records. f_equal. apply map_ext. intros line. apply mapper_records.
Qed.

Lemma all_keys_ok `{Mapper mapper} data : Forall key_ok (all_keys data).
Proof.
  unfold all_keys. apply Forall_concat, Forall_fmap, Forall_true. intros line. apply mapper_keys, until_zero_nonzero.
Qed.

(** With any number of mappers, any of the mappers here and any interleaving of
    their output, the reducer prints every key that occurs in the file once, in
    increasing order, with the number of its occurrences in the whole file, and
    frees all the memory it used. *)
Theorem mapreduce_counts `{Mapper mapper} alloc_str alloc_entry data n input h0 :
  (forall o k, alloc_str o k <> 0 /\ o !! alloc_str o k = None) -> (forall o k, alloc_entry o k <> 0 /\ o !! alloc_entry o k = None) ->
  0 < Z.of_nat n < 2147483648 -> Z.of_nat (length data) * Z.of_nat n < 2 ^ 64 -> Z.of_nat (length (all_keys data)) < 2147483648 ->
  reducer_input data n mapper input ->
  exists keys, StronglySorted str_lt keys /\ (forall k, k ∈ keys <-> k ∈ all_keys data)
    /\ run_reducer_on alloc_str alloc_entry input sum_reducer h0 = Done (concat (map (count_line (all_keys data)) keys), h0).
Proof.
  intros Hs He Hn Hsize Hlen Hi. destruct (reducer_input_records data n input Hn Hsize Hi) as (ks & Hp & ->).
  destruct (run_reducer_ok alloc_str alloc_entry Hs He h0 ks) as (keys & Hsorted & Hin & Hrun); [rewrite Hp; apply all_keys_ok|by rewrite Hp|].
  exists keys. split; [done|]. split; [intros k; by rewrite Hin, Hp|]. rewrite Hrun. f_equal. f_equal. f_equal.
  apply map_ext. intros k. unfold count_line. by rewrite (occurrences_perm k ks (all_keys data)).
Qed.

Lemma mapreduce_counts_witness :
  let data := bytes_of_string "Ab" ++ [10] ++ bytes_of_string "ba" ++ [10] ++ bytes_of_string ".a" in
  exists keys, StronglySorted str_lt keys /\ (forall k, k ∈ keys <-> k ∈ [[97]; [98]; [98]; [97]; [97]])
    /\ run_reducer_on next_address next_address (concat (map record [[97]; [98]; [97]; [98]; [97]])) sum_reducer (DHeap ∅ ∅)
      = Done (concat (map (count_line [[97]; [98]; [98]; [97]; [97]]) keys), DHeap ∅ ∅).
Proof.
  intros data. assert (Hk : all_keys (mapper := asciicount) data = [[97]; [98]; [98]; [97]; [97]]) by (vm_compute; reflexivity).
  rewrite <- Hk. apply (mapreduce_counts (mapper := asciicount) next_address next_address data 2);
    [apply next_address_fresh|apply next_address_fresh|lia|vm_compute; done|vm_compute; done|].
  exists [concat (map record [[97]; [98]]); concat (map record [[97]]); concat (map record [[98]; [97]])]. split; [|vm_compute; done].
  eapply (interleaving_step _ 0); [reflexivity|]. eapply (interleaving_step _ 1); [reflexivity|].
  eapply (interleaving_step _ 0); [reflexivity|]. apply interleaving_done. repeat constructor.
Defined.
