(* ===== verification/Parmake.v ===== *)
(** * [parallel_make/]: the parser and the parallel executor

    [parser.c] and [parmake.c].  Graph, set and dictionary come from prebuilt
    libraries: the classes [GraphLib], [SetLib] and [DictLib]; a call outside its
    documented precondition is [Undef].  The rule a vertex carries is kept in a map
    from the vertex.  What the program asks of the operating system ([access],
    [stat], [system]) is the class [FileSystem].  [solve_step] is one step of one
    of the threads that run [solve]. *)

From stdpp Require Import gmap strings.
From S2P Require Import Prelude CString.
Open Scope Z_scope.

Abbreviation key := (list Z).

Class GraphLib (G : Type) := {
  graph_create : G;
  graph_contains_vertex : G -> key -> bool;
  graph_vertices : G -> list key;
  graph_neighbors : G -> key -> list key;
  graph_set_vertex_value : key -> G -> G;
  graph_add_edge : key -> key -> G -> G;
  graph_remove_vertex : key -> G -> G;
}.

Class SetLib (V : Type) := {
  shallow_set_create : V;
  set_contains : V -> key -> bool;
  set_add : key -> V -> V;
}.

Class DictLib (D : Type) := {
  string_to_int_dictionary_create : D;
  dictionary_get : D -> key -> option Z;
  dictionary_set : key -> Z -> D -> D;
  dictionary_keys : D -> list key;
}.

Class FileSystem (F : Type) := {
  access : F -> key -> bool;
  stat : F -> key -> option Z;
  system : key -> F -> Z * F;
}.

(** ** [rule.c] *)

Record rule_t := Rule {
  target : key;
  commands : list key;
  state : Z;
}.

Definition rule_init (s : key) : rule_t := Rule s [] 0.

Definition set_state (r : rule_t) (st : Z) : rule_t := Rule (target r) (commands r) st.
Definition set_commands (r : rule_t) (c : list key) : rule_t := Rule (target r) c (state r).

(** ** [parser.c]: lines *)

Definition split_line_on_spaces (line : key) : list key := strtok 32 line [].

Definition isalnum (c : Z) : bool := isalpha c || isdigit c.

Definition is_makefile_target (line : key) : bool :=
  match line with
  | [] => false
  | c :: _ => isalnum c || (c =? 46) || (c =? 47)
  end.

Fixpoint skip_whitespace (str : key) : key :=
  match str with
  | [] => []
  | c :: r => if isspace c then skip_whitespace r else str
  end.

(** The part before the first white space. *)
Fixpoint terminate_whitespace (str : key) : key :=
  match str with
  | [] => []
  | c :: r => if isspace c then [] else c :: terminate_whitespace r
  end.

Definition strip_back_whitespace (str : key) : key := rev (skip_whitespace (rev str)).

(** The first [n] characters, a backslash skipping the next one. *)
Fixpoint in_quotes (str : key) (n : nat) (inQuotes : bool) : bool :=
  match n, str with
  | S n, c :: str =>
      if c =? 92 then match n, str with S n, _ :: str => in_quotes str n inQuotes | _, _ => inQuotes end
      else in_quotes str n (if c =? 34 then negb inQuotes else inQuotes)
  | _, _ => inQuotes
  end.

Fixpoint comment_start (str rest : key) (pos : nat) : key :=
  match rest with
  | [] => str
  | c :: rest => if (c =? 35) && negb (in_quotes str pos false) then take pos str else comment_start str rest (S pos)
  end.

Definition strip_back_comments (str : key) : key := comment_start str str 0.

(** ** [parser.c]: the makefile *)

Section Parser.

Context {G : Type} `{GraphLib G}.

Record parse_state := ParseState {
  dependency_graph : G;
  vertex_rules : gmap key rule_t;
  first_target : option key;
  curr_rule : option key;
  in_command_block : bool;
}.

(** [graph_set_vertex_value(graph, s, s)]. *)
Definition new_rule (s : key) (p : parse_state) : parse_state :=
  ParseState (graph_set_vertex_value s (dependency_graph p)) (<[s := rule_init s]> (vertex_rules p)) (first_target p) (curr_rule p) (in_command_block p).

Definition recipe_line (line_number : Z) (line : key) (p : parse_state) : outcome parse_state :=
  match curr_rule p with
  | None => Abort
  | Some t =>
      let! r := deref (vertex_rules p !! t) in
      let r :=
        if in_command_block p then r
        else if state r =? 0 then set_state r (s32 line_number)
        else set_commands (set_state r (s32 line_number)) [] in
      let r := set_commands r (commands r ++ [line]) in
      Done (ParseState (dependency_graph p) (<[t := r]> (vertex_rules p)) (first_target p) (Some t) true)
  end.

(** One dependency of the rule for [line]. *)
Definition add_dependency (line : key) (p : parse_state) (dep : key) : parse_state :=
  let p := if graph_contains_vertex (dependency_graph p) dep then p else new_rule dep p in
  ParseState (graph_add_edge line dep (dependency_graph p)) (vertex_rules p) (first_target p) (curr_rule p) (in_command_block p).

Definition target_line (line : key) (p : parse_state) : outcome parse_state :=
  match strstr line [58] with
  | None => Abort
  | Some colon =>
      let depLine := drop (S colon) line in
      let line := terminate_whitespace (take colon line) in
      let p :=
        if graph_contains_vertex (dependency_graph p) line then p
        else
          let p := new_rule line p in
          ParseState (dependency_graph p) (vertex_rules p) (match first_target p with Some t => Some t | None => Some line end) (curr_rule p) (in_command_block p) in
      let p := ParseState (dependency_graph p) (vertex_rules p) (first_target p) (Some line) false in
      Done (fold_left (add_dependency line) (split_line_on_spaces depLine) p)
  end.

Definition parse_line (line_number : Z) (raw : key) (p : parse_state) : outcome parse_state :=
  let lineBuf := strip_back_whitespace (until_zero (chomp raw)) in
  let line := strip_back_comments (skip_whitespace lineBuf) in
  match line, lineBuf with
  | [], _ => Done p
  | _, c :: _ =>
      if c =? 9 then recipe_line line_number line p
      else if is_makefile_target line then target_line line p
      else Abort
  | _, [] => Done p
  end.

Fixpoint parse_lines (line_number : Z) (raw : list key) (p : parse_state) : outcome parse_state :=
  match raw with
  | [] => Done p
  | l :: raw => let! p := parse_line (line_number + 1) l p in parse_lines (line_number + 1) raw p
  end.

Definition parse_start : parse_state :=
  ParseState (graph_set_vertex_value [] graph_create) {[ [] := rule_init [] ]} None None false.

(** The edges from the sentinel to the goals. *)
Fixpoint add_goals (goals : list key) (x : G) : outcome G :=
  match goals with
  | [] => Done x
  | t :: goals => if graph_contains_vertex x t then add_goals goals (graph_add_edge [] t x) else Abort
  end.

Definition zero_out_states (m : gmap key rule_t) : gmap key rule_t := (fun r => set_state r 0) <$> m.

(** [None] is a makefile that cannot be opened. *)
Definition parser_parse_makefile (file : option key) (goals : list key) : outcome (G * gmap key rule_t) :=
  match file with
  | None => Abort
  | Some contents =>
      let! p := parse_lines 0 (getlines contents) parse_start in
      let! goals := match goals with
                    | [] => match first_target p with Some t => Done [t] | None => Abort end
                    | _ => Done goals
                    end in
      let! x := add_goals goals (dependency_graph p) in
      Done (x, zero_out_states (vertex_rules p))
  end.

End Parser.

(** ** [parmake.c]: the plan *)

Section Plan.

Context {G V D : Type} `{GraphLib G} `{SetLib V} `{DictLib D}.

Definition neighbors (x : G) (s : key) : outcome (list key) :=
  if graph_contains_vertex x s then Done (graph_neighbors x s) else Undef.

Fixpoint tricolor_children (rec : D -> key -> outcome (bool * D)) (children : list key) (mp : D) : outcome (bool * D) :=
  match children with
  | [] => Done (false, mp)
  | c :: children =>
      let! (isCycle, mp) := rec mp c in
      if isCycle then Done (true, mp) else tricolor_children rec children mp
  end.

(** 0 is white, 1 grey, 2 black. *)
Fixpoint tricolor (fuel : nat) (x : G) (mp : D) (target : key) : outcome (bool * D) :=
  match fuel with
  | O => OutOfFuel
  | S fuel =>
      let! value := deref (dictionary_get mp target) in
      if value =? 1 then Done (true, mp)
      else if value =? 2 then Done (false, mp)
      else
        let mp := dictionary_set target 1 mp in
        let! children := neighbors x target in
        let! (isCycle, mp) := tricolor_children (tricolor fuel x) children mp in
        if isCycle then Done (true, mp) else Done (false, dictionary_set target 2 mp)
  end.

(** The goals for which a cycle is reported. *)
Fixpoint check_goals (fuel : nat) (x : G) (goals : list key) (mp : D) : outcome (list key * D) :=
  match goals with
  | [] => Done ([], mp)
  | goal :: goals =>
      let! (isCycle, mp) := tricolor fuel x mp goal in
      let! (failed, mp) := check_goals fuel x goals mp in
      Done (if isCycle then goal :: failed else failed, mp)
  end.

(** [goal_rules] holds pointers to the keys of the graph itself: the key of a vertex
    that has been removed is freed, and comparing with it is undefined. *)
Fixpoint get_goal_rule (x : G) (goal_rules : list key) (target : key) : outcome (option key) :=
  match goal_rules with
  | [] => Done None
  | goal_rule :: goal_rules =>
      if negb (graph_contains_vertex x goal_rule) then Undef
      else if strcmp goal_rule target =? 0 then Done (Some goal_rule)
      else get_goal_rule x goal_rules target
  end.

(** Grey vertices are removed; goals among the others are worked on. *)
Fixpoint prune (keys goal_rules : list key) (mp : D) (x : G) : outcome (G * list key) :=
  match keys with
  | [] => Done (x, [])
  | k :: keys =>
      let! val := deref (dictionary_get mp k) in
      if val =? 1 then
        if graph_contains_vertex x k then prune keys goal_rules mp (graph_remove_vertex k x) else Undef
      else
        let! goal_rule := get_goal_rule x goal_rules k in
        let! (x, valid) := prune keys goal_rules mp x in
        Done (x, match goal_rule with Some r => r :: valid | None => valid end)
  end.

(** The depth-first search, whose state is [cnt] and [rules]. *)
Fixpoint get_rules_loop (rec : list key -> V * list key -> outcome (V * list key)) (x : G) (targets : list key) (st : V * list key) : outcome (V * list key) :=
  match targets with
  | [] => Done st
  | t :: targets =>
      let! dependencies := neighbors x t in
      let! (cnt, rules) := rec dependencies st in
      get_rules_loop rec x targets (if set_contains cnt t then (cnt, rules) else (set_add t cnt, rules ++ [t]))
  end.

Fixpoint get_rules (fuel : nat) (x : G) (targets : list key) (st : V * list key) : outcome (V * list key) :=
  match fuel with
  | O => OutOfFuel
  | S fuel => get_rules_loop (get_rules fuel x) x targets st
  end.

Definition get_rules_in_order (x : G) (targets : list key) : outcome (list key) :=
  let! (_, rules) := get_rules (S (S (length (graph_vertices x)))) x targets (shallow_set_create, []) in
  Done rules.

(** [parmake] up to the creation of the threads: the goals that fail because of a
    cycle, the pruned graph and the rules in the order they are to run. *)
Definition plan (x : G) : outcome (list key * G * list key) :=
  let! goal_rules := neighbors x [] in
  let mp := fold_left (fun mp node => dictionary_set node 0 mp) (graph_vertices x) string_to_int_dictionary_create in
  let! (failed, mp) := check_goals (S (S (length (graph_vertices x)))) x goal_rules mp in
  let! (x, valid_goal_rules) := prune (dictionary_keys mp) goal_rules mp x in
  let! rules := get_rules_in_order x valid_goal_rules in
  Done (failed, x, rules).

End Plan.

(** ** [parmake.c]: the threads *)

Definition ERR : Z := -1.
Definition NOT_FINISHED : Z := 0.
Definition RUN_IMM : Z := 1.
Definition SAT_NO_RUN : Z := 2.
Definition ALREADY_DONE : Z := 3.

Definition DEFAULT : Z := 0.
Definition VALID : Z := 1.
Definition INVALID : Z := -1.

Section Threads.

Context {G F : Type} `{GraphLib G} `{FileSystem F}.

Definition graph_get_vertex_value (x : G) (m : gmap key rule_t) (t : key) : outcome rule_t :=
  if graph_contains_vertex x t then deref (m !! t) else Undef.

(** [(int) difftime(a, b)]. *)
Definition c_difftime (a b : Z) : outcome Z :=
  if (-2147483648 <=? a - b) && (a - b <? 2147483648) then Done (a - b) else Undef.

(** The dependencies of a target that is a file. *)
Fixpoint file_status (fs : F) (target : key) (dependencies : list key) : outcome Z :=
  match dependencies with
  | [] => Done SAT_NO_RUN
  | dependency :: dependencies =>
      if access fs dependency then
        match stat fs target, stat fs dependency with
        | Some t1, Some t2 => let! diff := c_difftime t1 t2 in if diff <? 0 then Done RUN_IMM else file_status fs target dependencies
        | _, _ => Done ERR
        end
      else Done RUN_IMM
  end.

(** The dependencies of a target that is not. *)
Fixpoint rule_status (x : G) (m : gmap key rule_t) (dependencies : list key) : outcome Z :=
  match dependencies with
  | [] => Done RUN_IMM
  | dependency :: dependencies =>
      let! sub_rule := graph_get_vertex_value x m dependency in
      if state sub_rule =? VALID then rule_status x m dependencies else Done (state sub_rule)
  end.

Definition run_status (x : G) (m : gmap key rule_t) (fs : F) (target : key) : outcome Z :=
  let! rule := graph_get_vertex_value x m target in
  if negb (state rule =? DEFAULT) then Done ALREADY_DONE
  else
    let! dependencies := neighbors x target in
    match dependencies with
    | [] => Done (if access fs target then SAT_NO_RUN else RUN_IMM)
    | _ => if access fs target then file_status fs target dependencies else rule_status x m dependencies
    end.

(** A thread running [solve]: about to lock [rules_lock], looking at rule [i] with
    the lock held (behind the last rule: about to wait), blocked on [rule_cv],
    running the commands of a rule, about to set its state, or returned. *)
Inductive thread :=
| AtLock
| Scan (i : nat)
| Waiting
| Run (target : key) (cmds : list key)
| Mark (target : key) (st : Z)
| Returned.

(** What happened: commands of a rule started (with [access] of its target at that
    moment), or a rule got its state. *)
Inductive event :=
| Started (target : key) (is_file : bool)
| Finished (target : key) (st : Z).

Record config := Config {
  rules : list key;
  rule_values : gmap key rule_t;
  files : F;
  threads : list thread;
  log : list event;
}.

Definition is_scan (t : thread) : bool := match t with Scan _ => true | _ => false end.

(** [rules_lock] is free. *)
Definition lock_free (ts : list thread) : bool := forallb (fun t => negb (is_scan t)) ts.

Definition set_thread (i : nat) (t : thread) (c : config) : config :=
  Config (rules c) (rule_values c) (files c) (<[i := t]> (threads c)) (log c).

(** [vector_erase(rules, i)]. *)
Definition erase_rule (i : nat) (c : config) : config :=
  Config (take i (rules c) ++ drop (S i) (rules c)) (rule_values c) (files c) (threads c) (log c).

Definition add_event (e : event) (c : config) : config :=
  Config (rules c) (rule_values c) (files c) (threads c) (log c ++ [e]).

(** [pthread_cond_broadcast]. *)
Definition wake (t : thread) : thread := match t with Waiting => AtLock | t => t end.

(** One look at a rule: [th] is the thread, [i] the index in [rules].  Another
    thread may signal between the look at the last rule and the wait. *)
Definition scan_step (x : G) (th i : nat) (c : config) : outcome config :=
  if (i =? length (rules c))%nat then Done (set_thread th Waiting c)
  else
    let! target := deref (rules c !! i) in
    let! stat_code := run_status x (rule_values c) (files c) target in
    let! rule := graph_get_vertex_value x (rule_values c) target in
    if stat_code =? RUN_IMM then
      Done (add_event (Started target (access (files c) target)) (set_thread th (Run target (commands rule)) (erase_rule i c)))
    else if (stat_code =? SAT_NO_RUN) || (stat_code =? ERR) then
      Done (set_thread th (Mark target (if stat_code =? ERR then INVALID else VALID)) (erase_rule i c))
    else if stat_code =? ALREADY_DONE then Done (set_thread th AtLock (erase_rule i c))
    else Done (set_thread th (Scan (S i)) c).

(** A step of thread [th]; [None] when it has to wait or has returned. *)
Definition solve_step (x : G) (th : nat) (c : config) : outcome (option config) :=
  match threads c !! th with
  | Some AtLock =>
      if lock_free (threads c) then
        Done (Some (set_thread th (match rules c with [] => Returned | _ => Scan 0 end) c))
      else Done None
  | Some (Scan i) => let! c := scan_step x th i c in Done (Some c)
  | Some (Run target (cmd :: cmds)) =>
      let (r, fs) := system cmd (files c) in
      Done (Some (Config (rules c) (rule_values c) fs (<[th := if r =? 0 then Run target cmds else Mark target INVALID]> (threads c)) (log c)))
  | Some (Run target []) => Done (Some (set_thread th (Mark target VALID) c))
  | Some (Mark target st) =>
      let! rule := graph_get_vertex_value x (rule_values c) target in
      Done (Some (Config (rules c) (<[target := set_state rule st]> (rule_values c)) (files c)
                    (wake <$> <[th := AtLock]> (threads c)) (log c ++ [Finished target st])))
  | Some Waiting | Some Returned | None => Done None
  end.

(** The interleavings, with spurious wake-ups. *)
Inductive par_step (x : G) : config -> config -> Prop :=
| par_solve th c c' : solve_step x th c = Done (Some c') -> par_step x c c'
| par_spurious th c : threads c !! th = Some Waiting -> par_step x c (set_thread th AtLock c).

Definition par_start (rs : list key) (m : gmap key rule_t) (fs : F) (num_threads : nat) : config :=
  Config rs m fs (replicate num_threads AtLock) [].

(** A schedule of threads, as long as they can step. *)
Fixpoint run_schedule (x : G) (sch : list nat) (c : config) : outcome config :=
  match sch with
  | [] => Done c
  | th :: sch => let! r := solve_step x th c in run_schedule x sch (match r with Some c => c | None => c end)
  end.

End Threads.

(** The whole: the goals reported for a cycle, and the threads about to start. *)
Definition parmake {G V D F : Type} `{GraphLib G} `{SetLib V} `{DictLib D} `{FileSystem F}
  (makefile : option key) (num_threads : nat) (targets : list key) (fs : F) : outcome (list key * G * @config F) :=
  let! (x, m) := parser_parse_makefile (G := G) makefile targets in
  let! (failed, x, rs) := plan (V := V) (D := D) x in
  Done (failed, x, par_start rs m fs num_threads).
