(* ===== verification/ParmakePlan.v ===== *)
(** * The plan [parmake] makes

    [tricolor] reports a goal exactly when a cycle is reachable from it; what is
    left is acyclic, and [get_rules] terminates on it with every rule the good
    goals need, once, behind all its dependencies. *)

From stdpp Require Import gmap strings.
From S2P Require Import Prelude CString Parmake.
Open Scope Z_scope.

(** ** What the headers of the libraries document *)

Class GraphLaws (G : Type) `{GraphLib G} : Prop := {
  vertices_spec : forall x v, graph_contains_vertex x v = true <-> v ∈ graph_vertices x;
  neighbors_vertex : forall x a b, b ∈ graph_neighbors x a -> graph_contains_vertex x b = true;
  create_vertices : forall v, graph_contains_vertex graph_create v = false;
  set_value_contains : forall x k v, graph_contains_vertex (graph_set_vertex_value k x) v = bool_decide (v = k) || graph_contains_vertex x v;
  set_value_neighbors : forall x k a, graph_contains_vertex x a = true -> graph_neighbors (graph_set_vertex_value k x) a = graph_neighbors x a;
  add_edge_contains : forall x a b v, graph_contains_vertex (graph_add_edge a b x) v = graph_contains_vertex x v;
  add_edge_neighbors : forall x a b c d, graph_contains_vertex x a = true -> graph_contains_vertex x b = true ->
    d ∈ graph_neighbors (graph_add_edge a b x) c <-> (c = a /\ d = b) \/ d ∈ graph_neighbors x c;
  remove_contains : forall x k v, graph_contains_vertex x k = true ->
    graph_contains_vertex (graph_remove_vertex k x) v = negb (bool_decide (v = k)) && graph_contains_vertex x v;
  remove_neighbors : forall x k a b, graph_contains_vertex x k = true -> a <> k ->
    b ∈ graph_neighbors (graph_remove_vertex k x) a <-> b ∈ graph_neighbors x a /\ b <> k;
}.

Class SetLaws (V : Type) `{SetLib V} : Prop := {
  set_create_empty : forall v, set_contains shallow_set_create v = false;
  set_add_contains : forall s k v, set_contains (set_add k s) v = bool_decide (v = k) || set_contains s v;
}.

Class DictLaws (D : Type) `{DictLib D} : Prop := {
  dict_create_empty : forall k, dictionary_get string_to_int_dictionary_create k = None;
  dict_get_set : forall d k v j, dictionary_get (dictionary_set k v d) j = if decide (j = k) then Some v else dictionary_get d j;
  dict_keys_spec : forall d k, k ∈ dictionary_keys d <-> dictionary_get d k <> None;
  dict_keys_nodup : forall d, NoDup (dictionary_keys d);
}.

(** Relations that agree on a closed set have the same paths there. *)
Lemma rtc_agree {A} (R S : A -> A -> Prop) (P : A -> Prop) :
  (forall a b, P a -> R a b -> S a b /\ P b) -> forall a b, P a -> rtc R a b -> rtc S a b /\ P b.
Proof.
  intros H a b Ha Hr. induction Hr as [a|a b c Hab _ IH]; [done|]. destruct (H a b Ha Hab) as [Hs Hb].
  destruct (IH Hb). split; [by eapply rtc_l|done].
Qed.

Lemma tc_agree {A} (R S : A -> A -> Prop) (P : A -> Prop) :
  (forall a b, P a -> R a b -> S a b /\ P b) -> forall a b, P a -> tc R a b -> tc S a b.
Proof.
  intros H a b Ha Hr. induction Hr as [a b Hab|a b c Hab _ IH]; destruct (H a b Ha Hab) as [Hs Hb]; [by apply tc_once|].
  eapply tc_l; [exact Hs|by apply IH].
Qed.

Section Plan.

Context {G V D : Type} {LG : GraphLib G} {HG : GraphLaws G} {LV : SetLib V} {HV : SetLaws V} {LD : DictLib D} {HD : DictLaws D}.

(** ** Paths and cycles *)

Definition depends (x : G) (a b : key) : Prop := b ∈ graph_neighbors x a.

Definition on_cycle (x : G) (v : key) : Prop := tc (depends x) v v.

(** A cycle is reachable. *)
Definition doomed (x : G) (t : key) : Prop := exists v, rtc (depends x) t v /\ on_cycle x v.

Lemma doomed_step x a b : depends x a b -> doomed x b -> doomed x a.
Proof. intros Hab (v & Hv & Hc). exists v. split; [by eapply rtc_l|done]. Qed.

Lemma doomed_loop x a : tc (depends x) a a -> doomed x a.
Proof. intros H. by exists a. Qed.

Lemma contained_step (x : G) a b : depends x a b -> graph_contains_vertex x b = true.
Proof. apply neighbors_vertex. Qed.

(** ** The colouring *)

Definition colour (mp : D) (v : key) : option Z := dictionary_get mp v.

(** Black vertices are closed under dependencies, and no cycle is reachable from them. *)
Record coloured (x : G) (mp : D) : Prop := {
  col_some v : graph_contains_vertex x v = true -> exists c, colour mp v = Some c /\ (c = 0 \/ c = 1 \/ c = 2);
  col_closed a b : colour mp a = Some 2 -> depends x a b -> colour mp b = Some 2;
  col_acyclic a : colour mp a = Some 2 -> ~ doomed x a;
}.

(** What a search may change: white vertices only. *)
Record recoloured (mp mp' : D) : Prop := {
  re_grey v : colour mp v = Some 1 -> colour mp' v = Some 1;
  re_black v : colour mp v = Some 2 -> colour mp' v = Some 2;
  re_white v : colour mp' v = Some 0 -> colour mp v = Some 0;
  re_domain v : colour mp' v = None <-> colour mp v = None;
}.

#[export] Instance recoloured_refl : Reflexive recoloured.
Proof. by split. Qed.

#[export] Instance recoloured_trans : Transitive recoloured.
Proof. intros a b c [] []. split; naive_solver. Qed.

Definition whites (x : G) (mp : D) : nat := length (filter (fun v => colour mp v = Some 0) (graph_vertices x)).

Lemma whites_le x mp mp' : recoloured mp mp' -> (whites x mp' <= whites x mp)%nat.
Proof. intros [_ _ Hw _]. by apply filter_length_le. Qed.

Lemma colour_set mp k c v : colour (dictionary_set k c mp) v = if decide (v = k) then Some c else colour mp v.
Proof. apply dict_get_set. Qed.

(** Greying a white vertex. *)
Lemma grey_ok x mp t : coloured x mp -> graph_contains_vertex x t = true -> colour mp t = Some 0 ->
  coloured x (dictionary_set t 1 mp) /\ recoloured mp (dictionary_set t 1 mp) /\ (whites x (dictionary_set t 1 mp) < whites x mp)%nat.
Proof.
  intros [Hs Hc Ha] Ht H0. split; [|split].
  - split.
    + intros v Hv. rewrite colour_set. case_decide; [|by apply Hs]. exists 1. auto.
    + intros a b. rewrite !colour_set. intros H Hab. case_decide; [done|]. case_decide; [subst b; by rewrite (Hc a t) in H0|]. by apply (Hc a).
    + intros a. rewrite colour_set. case_decide; [done|apply Ha].
  - split; intros v; rewrite colour_set; case_decide; subst; naive_solver.
  - apply (filter_length_lt _ _ _ t); [|by apply vertices_spec|done|by rewrite colour_set, decide_True].
    intros v. rewrite colour_set. by case_decide.
Qed.

(** Blackening a vertex whose dependencies are black. *)
Lemma black_ok x mp t : coloured x mp -> graph_contains_vertex x t = true -> colour mp t = Some 1 ->
  (forall b, depends x t b -> colour mp b = Some 2) -> coloured x (dictionary_set t 2 mp).
Proof.
  intros [Hs Hc Ha] Ht H1 Hb. split.
  - intros v Hv. rewrite colour_set. case_decide; [|by apply Hs]. exists 2. auto.
  - intros a b. rewrite !colour_set. intros H Hab. case_decide as E1; case_decide as E2; try done; subst; [by apply Hb|by apply (Hc a)].
  - intros a. rewrite colour_set. case_decide as E; [|apply Ha]. subst a. intros _ (v & Hv & Hcyc).
    inversion Hv as [|? b ? Htb Hbv]; subst.
    + assert (Hl : depends x v v \/ exists b, depends x v b /\ tc (depends x) b v) by (inversion Hcyc; eauto).
      destruct Hl as [Hself|(b & Htb & Hbt)]; [by rewrite (Hb v Hself) in H1|].
      assert (Hbl : forall u w, colour mp u = Some 2 -> tc (depends x) u w -> colour mp w = Some 2).
      { intros u w Hu Huw. induction Huw as [u w Huw|u w z Huw _ IH]; [by apply (Hc u)|]. apply IH. by apply (Hc u). }
      rewrite (Hbl b v (Hb b Htb) Hbt) in H1. done.
    + apply (Ha b); [by apply Hb|by exists v].
Qed.

(** ** [tricolor] *)

(** Every grey vertex leads to a cycle or to the vertex looked at next. *)
Definition grey_ready (x : G) (mp : D) (t : key) : Prop := forall a, colour mp a = Some 1 -> doomed x a \/ tc (depends x) a t.

(** The answer, for a search at [t] or at one of the vertices [ts]. *)
Record answer (x : G) (mp : D) (ts : list key) (r : bool) (mp' : D) : Prop := {
  an_coloured : coloured x mp';
  an_change : recoloured mp mp';
  an_no : r = false -> (forall t, t ∈ ts -> colour mp' t = Some 2) /\ (forall a, colour mp' a = Some 1 -> colour mp a = Some 1);
  an_yes : r = true -> (exists t, t ∈ ts /\ doomed x t /\ colour mp' t = Some 1) /\ (forall a, colour mp' a = Some 1 -> colour mp a = Some 1 \/ doomed x a);
}.

Lemma tricolor_children_ok x rec ts mp n :
  (forall t mp, t ∈ ts -> coloured x mp -> grey_ready x mp t -> (whites x mp < n)%nat -> exists r mp', rec mp t = Done (r, mp') /\ answer x mp [t] r mp') ->
  coloured x mp -> (forall t, t ∈ ts -> grey_ready x mp t) -> (whites x mp < n)%nat ->
  exists r mp', tricolor_children rec ts mp = Done (r, mp') /\ answer x mp ts r mp'.
Proof.
  intros Hrec. revert mp. induction ts as [|t ts IH]; intros mp Hc Hg Hn; cbn [tricolor_children].
  { exists false, mp. split; [done|]. split; [done|done| |done]. intros _. split; [by intros t ?%elem_of_nil|done]. }
  destruct (Hrec t mp) as (r & mp1 & -> & [Hc1 Hch1 Hno Hyes]); [by left|done|apply Hg; by left|done|]. cbn [obind].
  destruct r.
  - exists true, mp1. split; [done|]. destruct (Hyes eq_refl) as [(t' & Ht' & Hd & Hcol) Hgr]. split; [done|done|done|].
    intros _. split; [|done]. exists t'. apply list_elem_of_singleton in Ht' as ->. split; [by left|done].
  - destruct (Hno eq_refl) as [Hb Hgr]. destruct IH with mp1 as (r & mp2 & -> & [Hc2 Hch2 Hno2 Hyes2]); [|done| | |].
    + intros u mpu Hu. apply Hrec. by right.
    + intros u Hu a Ha. apply (Hg u); [by right|by apply Hgr].
    + pose proof (whites_le x _ _ Hch1). lia.
    + exists r, mp2. split; [done|]. split; [done|by etrans| |].
      * intros ->. destruct (Hno2 eq_refl) as [Hb2 Hgr2]. split; [|naive_solver]. intros u Hu.
        apply elem_of_cons in Hu as [->|Hu]; [|by apply Hb2]. apply (re_black _ _ Hch2), Hb, list_elem_of_singleton. done.
      * intros ->. destruct (Hyes2 eq_refl) as [(u & Hu & Hd & Hcol) Hgr2]. split; [exists u; split; [by right|done]|]. naive_solver.
Qed.

Lemma tricolor_ok fuel x mp t :
  coloured x mp -> graph_contains_vertex x t = true -> grey_ready x mp t -> (whites x mp < fuel)%nat ->
  exists r mp', tricolor fuel x mp t = Done (r, mp') /\ answer x mp [t] r mp'.
Proof.
  revert mp t. induction fuel as [|fuel IH]; intros mp t Hc Ht Hg Hf; [lia|]. cbn [tricolor].
  destruct (col_some _ _ Hc t Ht) as (c & Hcol & Hcs). unfold colour in Hcol. rewrite Hcol. cbn [deref obind]. destruct Hcs as [->|[->| ->]].
  - cbn [Z.eqb]. destruct (grey_ok x mp t Hc Ht Hcol) as (Hc1 & Hch1 & Hw1). unfold neighbors. rewrite Ht. cbn [obind].
    set (mp1 := dictionary_set t 1 mp) in *. assert (Ht1 : colour mp1 t = Some 1) by (unfold mp1; by rewrite colour_set, decide_True).
    assert (Hgrey1 : forall a, colour mp1 a = Some 1 -> a = t \/ colour mp a = Some 1)
      by (intros a; unfold mp1; rewrite colour_set; case_decide; auto).
    destruct (tricolor_children_ok x (tricolor fuel x) (graph_neighbors x t) mp1 fuel) as (r & mp2 & -> & [Hc2 Hch2 Hno Hyes]); [|done| |lia|].
    + intros b mpb Hb Hcb Hgb Hwb. apply IH; try done. by apply (contained_step x t b).
    + intros b Hb a Ha. destruct (Hgrey1 a Ha) as [->|Ha']; [right; by apply tc_once|].
      destruct (Hg a Ha') as [Hd|Hat]; [by left|right]. eapply tc_r; [exact Hat|done].
    + cbn [obind]. destruct r.
      * exists true, mp2. split; [done|]. destruct (Hyes eq_refl) as [(b & Hb & Hd & _) Hgr]. pose proof (doomed_step x t b Hb Hd) as Hdt.
        split; [done|by etrans|done|]. intros _. split; [exists t; split; [by apply list_elem_of_singleton|split; [done|by apply (re_grey _ _ Hch2)]]|].
        intros a Ha. destruct (Hgr a Ha) as [Ha1|?]; [|by right]. destruct (Hgrey1 a Ha1) as [->|?]; [by right|by left].
      * destruct (Hno eq_refl) as [Hb Hgr]. pose proof (re_grey _ _ Hch2 t Ht1) as Ht2.
        exists false, (dictionary_set t 2 mp2). split; [done|]. split; [by apply black_ok| | |done].
        -- assert (Hch : recoloured mp mp2) by (by etrans). split; intros v; rewrite colour_set; case_decide as E; subst;
             [unfold colour; congruence|apply Hch|done|apply Hch|done|apply Hch|unfold colour; split; congruence|apply Hch].
        -- intros _. split; [intros u Hu; apply list_elem_of_singleton in Hu as ->; by rewrite colour_set, decide_True|].
           intros a. rewrite colour_set. case_decide; [done|]. intros Ha. by destruct (Hgrey1 a (Hgr a Ha)).
  - cbn [Z.eqb]. exists true, mp. split; [done|]. split; [done|done|done|]. intros _. split; [|by left].
    exists t. split; [by apply list_elem_of_singleton|]. split; [|done]. destruct (Hg t Hcol) as [?|Hl]; [done|by apply doomed_loop].
  - cbn [Z.eqb]. exists false, mp. split; [done|]. split; [done|done| |done]. intros _. split; [|done].
    intros u Hu. by apply list_elem_of_singleton in Hu as ->.
Qed.

(** All grey vertices lead to cycles, as between two goals. *)
Definition settled (x : G) (mp : D) : Prop := coloured x mp /\ forall a, colour mp a = Some 1 -> doomed x a.

Lemma check_goals_ok fuel x goals mp :
  settled x mp -> (forall t, t ∈ goals -> graph_contains_vertex x t = true) -> (whites x mp < fuel)%nat ->
  exists failed mp', check_goals fuel x goals mp = Done (failed, mp') /\ settled x mp' /\ recoloured mp mp'
    /\ (forall t, t ∈ failed <-> t ∈ goals /\ doomed x t)
    /\ (forall t, t ∈ goals -> colour mp' t = Some (if bool_decide (t ∈ failed) then 1 else 2)).
Proof.
  revert mp. induction goals as [|t goals IH]; intros mp [Hc Hg] Hin Hf; cbn [check_goals].
  { exists [], mp. split; [done|]. split; [done|]. split; [done|]. split; [intros t; set_solver|]. intros t ?%elem_of_nil. done. }
  destruct (tricolor_ok fuel x mp t Hc) as (r & mp1 & -> & [Hc1 Hch1 Hno Hyes]); [apply Hin; by left|by left; apply Hg|done|]. cbn [obind].
  assert (Hs1 : settled x mp1) by (split; [done|]; intros a Ha; destruct r; [destruct (Hyes eq_refl) as [_ H0]|destruct (Hno eq_refl) as [_ H0]]; naive_solver).
  destruct (IH mp1 Hs1) as (failed & mp2 & -> & Hs2 & Hch2 & Hfail & Hcol); [intros u Hu; apply Hin; by right|pose proof (whites_le x _ _ Hch1); lia|].
  cbn [obind]. eexists _, mp2. split; [done|]. split; [done|]. split; [by etrans|]. destruct r.
  - destruct (Hyes eq_refl) as [(u & Hu & Hd & Hcu) _]. apply list_elem_of_singleton in Hu as ->. split; [intros u; rewrite !elem_of_cons, Hfail; naive_solver|].
    intros u Hu. destruct (decide (u = t)) as [->|Hne]; [rewrite bool_decide_true by (by left); by apply (re_grey _ _ Hch2)|].
    apply elem_of_cons in Hu as [?|Hu]; [done|]. rewrite (Hcol u Hu). f_equal. by rewrite (bool_decide_ext _ (u ∈ t :: failed)) by set_solver.
  - destruct (Hno eq_refl) as [Hb _]. assert (Hbt : colour mp1 t = Some 2) by (by apply Hb, list_elem_of_singleton).
    pose proof (col_acyclic _ _ Hc1 t Hbt) as Hnd. split; [intros u; rewrite elem_of_cons, Hfail; naive_solver|].
    intros u Hu. apply elem_of_cons in Hu as [->|Hu]; [|by apply Hcol]. rewrite bool_decide_false by (rewrite Hfail; naive_solver). by apply (re_black _ _ Hch2).
Qed.

(** ** Pruning *)

(** Found or not, unless the key of a removed goal is met on the way. *)
Lemma get_goal_rule_spec (x : G) goals k :
  get_goal_rule x goals k = Done (if decide (k ∈ goals) then Some k else None)
  \/ get_goal_rule x goals k = Undef /\ exists g, g ∈ goals /\ graph_contains_vertex x g = false.
Proof.
  induction goals as [|g goals IH]; cbn [get_goal_rule]; [by left|]. destruct (graph_contains_vertex x g) eqn:Eg; cbn [negb].
  2: { right. split; [done|]. exists g. split; [by left|done]. }
  destruct (Z.eqb_spec (strcmp g k) 0) as [E|E].
  - apply strcmp_zero in E as ->. left. by rewrite decide_True by (by left).
  - assert (k <> g) by (intros ->; by rewrite strcmp_refl in E). destruct IH as [->|[-> (g' & Hg' & Hc)]].
    + left. f_equal. apply decide_ext. rewrite elem_of_cons. naive_solver.
    + right. split; [done|]. exists g'. split; [by right|done].
Qed.

Definition grey (mp : D) (v : key) : Prop := colour mp v = Some 1.

Lemma prune_ok keys goals mp x :
  NoDup keys -> (forall k, k ∈ keys -> colour mp k <> None) -> (forall k, k ∈ keys -> grey mp k -> graph_contains_vertex x k = true) ->
  (forall g, g ∈ goals -> graph_contains_vertex x g = true \/ grey mp g) ->
  (prune keys goals mp x = Undef /\ exists g, g ∈ goals /\ grey mp g)
  \/ exists x' valid, prune keys goals mp x = Done (x', valid)
    /\ (forall v, graph_contains_vertex x' v = true <-> graph_contains_vertex x v = true /\ ~ (v ∈ keys /\ grey mp v))
    /\ (forall a b, ~ (a ∈ keys /\ grey mp a) -> depends x' a b <-> depends x a b /\ ~ (b ∈ keys /\ grey mp b))
    /\ (forall v, v ∈ valid <-> v ∈ keys /\ v ∈ goals /\ ~ grey mp v).
Proof.
  revert x. induction keys as [|k keys IH]; intros x Hnd Hsome Hgrey Hgoals; cbn [prune].
  { right. exists x, []. repeat split; set_solver. }
  apply NoDup_cons in Hnd as [Hk Hnd]. destruct (colour mp k) as [c|] eqn:Ec; [|by destruct (Hsome k); [left|]].
  unfold colour in Ec. rewrite Ec. cbn [deref obind]. destruct (Z.eqb_spec c 1) as [->|Hc].
  - assert (Hgk : grey mp k) by done. pose proof (Hgrey k ltac:(by left) Hgk) as Hin. rewrite Hin.
    destruct (IH (graph_remove_vertex k x)) as [H|(x' & valid & -> & Hcon & Hdep & Hval)]; [done|intros j Hj; apply Hsome; by right| | |by left|right].
    { intros j Hj Hgj. rewrite remove_contains, Hgrey by (try done; by right). rewrite bool_decide_false by (by intros ->). done. }
    { intros g Hg. destruct (decide (g = k)) as [->|Hne]; [by right|]. destruct (Hgoals g Hg) as [E|?]; [left|by right]. by rewrite remove_contains, E, bool_decide_false by done. }
    exists x', valid. split; [done|]. split; [|split].
    + intros v. rewrite Hcon, remove_contains, andb_true_iff, negb_true_iff, bool_decide_eq_false by done. rewrite elem_of_cons. naive_solver.
    + intros a b Ha. rewrite elem_of_cons in Ha. rewrite Hdep by naive_solver. unfold depends. rewrite remove_neighbors by (try done; naive_solver).
      rewrite elem_of_cons. naive_solver.
    + intros v. rewrite Hval, elem_of_cons. naive_solver.
  - assert (Hgk : ~ grey mp k) by (unfold grey, colour; congruence).
    destruct (get_goal_rule_spec x goals k) as [->|[-> (g & Hg & Hc')]]; [|left; split; [done|]; exists g; split; [done|]; destruct (Hgoals g Hg) as [E|?]; [by rewrite Hc' in E|done]].
    cbn [obind]. destruct (IH x) as [[-> H]|(x' & valid & -> & Hcon & Hdep & Hval)]; [done|intros j Hj; apply Hsome; by right|intros j Hj; apply Hgrey; by right|done|by left|right].
    cbn [obind]. eexists x', _. split; [done|]. split; [|split].
    + intros v. rewrite Hcon, elem_of_cons. naive_solver.
    + intros a b Ha. rewrite elem_of_cons in Ha. rewrite Hdep by naive_solver. rewrite elem_of_cons. naive_solver.
    + intros v. case_decide as E; rewrite ?elem_of_cons, Hval; naive_solver.
Qed.

(** ** The order of the rules *)

(** Every rule behind its dependencies. *)
Definition ordered (x : G) (rs : list key) : Prop := forall l1 t l2 d, rs = l1 ++ t :: l2 -> depends x t d -> d ∈ l1.

Record dfs (x : G) (st : V * list key) : Prop := {
  dfs_seen v : set_contains st.1 v = true <-> v ∈ st.2;
  dfs_nodup : NoDup st.2;
  dfs_ordered : ordered x st.2;
}.

Lemma ordered_snoc x rs t : ordered x rs -> (forall d, depends x t d -> d ∈ rs) -> ordered x (rs ++ [t]).
Proof.
  intros Ho Ht l1 u l2 d Heq Hd. destruct l2 as [|w l2 _] using rev_ind.
  - apply app_inj_tail in Heq as [-> ->]. by apply Ht.
  - rewrite app_comm_cons, app_assoc in Heq. apply app_inj_tail in Heq as [Heq ->]. by apply (Ho l1 u l2).
Qed.

(** What a search from [targets] adds. *)
Record searched (x : G) (targets : list key) (st st' : V * list key) : Prop := {
  se_dfs : dfs x st';
  se_keep v : v ∈ st.2 -> v ∈ st'.2;
  se_targets t : t ∈ targets -> t ∈ st'.2;
  se_only v : v ∈ st'.2 -> v ∈ st.2 \/ exists t, t ∈ targets /\ rtc (depends x) t v;
}.

Lemma get_rules_loop_ok x rec targets st :
  (forall t st, t ∈ targets -> dfs x st -> exists st', rec (graph_neighbors x t) st = Done st' /\ searched x (graph_neighbors x t) st st') ->
  (forall t, t ∈ targets -> graph_contains_vertex x t = true) -> dfs x st ->
  exists st', get_rules_loop rec x targets st = Done st' /\ searched x targets st st'.
Proof.
  intros Hrec. revert st. induction targets as [|t targets IH]; intros st Hin Hd; cbn [get_rules_loop].
  { exists st. split; [done|]. split; [done|done|by intros t ?%elem_of_nil|by left]. }
  unfold neighbors. rewrite (Hin t) by (by left). cbn [obind].
  destruct (Hrec t st) as ([cnt rs] & -> & [Hd1 Hk1 Ht1 Ho1]); [by left|done|]. cbn [obind]. cbn [snd] in *.
  set (st1 := if set_contains cnt t then (cnt, rs) else (set_add t cnt, rs ++ [t])).
  assert (H1 : dfs x st1 /\ t ∈ st1.2 /\ (forall v, v ∈ st1.2 <-> v ∈ rs \/ v = t)).
  { unfold st1. pose proof (dfs_seen _ _ Hd1 t) as Hs. cbn [fst snd] in Hs. destruct (set_contains cnt t) eqn:Et.
    - split; [done|]. cbn. split; [by apply Hs|]. intros v. pose proof (proj1 Hs eq_refl). naive_solver.
    - assert (Hnt : t ∉ rs) by (intros H; apply Hs in H; congruence). destruct Hd1 as [S1 N1 O1]. cbn in *. split; [split; cbn|].
      + intros v. rewrite set_add_contains, orb_true_iff, bool_decide_eq_true, S1. set_solver.
      + apply NoDup_app. split; [done|]. split; [set_solver|apply NoDup_singleton].
      + apply ordered_snoc; [done|]. intros d Hdd. by apply Ht1.
      + set_solver. }
  destruct H1 as (Hst1 & Htin & Hst1in).
  destruct (IH ltac:(intros u stu Hu; apply Hrec; by right) st1) as (st' & -> & [Hd2 Hk2 Ht2 Ho2]); [intros u Hu; apply Hin; by right|done|].
  exists st'. split; [done|]. split; [done| | |].
  - intros v Hv. apply Hk2, Hst1in. left. by apply Hk1.
  - intros u Hu. apply elem_of_cons in Hu as [->|Hu]; [by apply Hk2|by apply Ht2].
  - intros v Hv. destruct (Ho2 v Hv) as [H1|(u & Hu & Hr)]; [|right; exists u; split; [by right|done]].
    apply Hst1in in H1 as [H1| ->]; [|right; exists t; split; [by left|done]].
    destruct (Ho1 v H1) as [?|(u & Hu & Hr)]; [by left|]. right. exists t. split; [by left|]. by eapply rtc_l.
Qed.

Lemma get_rules_ok fuel x targets path st :
  dfs x st -> (forall t, t ∈ targets -> graph_contains_vertex x t = true /\ ~ doomed x t) ->
  (forall a t, a ∈ path -> t ∈ targets -> tc (depends x) a t) -> NoDup path -> (forall a, a ∈ path -> graph_contains_vertex x a = true) ->
  (length (graph_vertices x) < length path + fuel)%nat ->
  exists st', get_rules fuel x targets st = Done st' /\ searched x targets st st'.
Proof.
  revert targets path st. induction fuel as [|fuel IH]; intros targets path st Hd Ht Hpath Hnd Hp Hf.
  { exfalso. assert (Hsub : path ⊆+ graph_vertices x) by (apply NoDup_submseteq; [done|]; intros a Ha; by apply vertices_spec, Hp).
    apply submseteq_length in Hsub. lia. }
  cbn [get_rules]. apply get_rules_loop_ok; [|by intros t Htt; apply Ht|done]. intros t stt Htt Hdt.
  destruct (Ht t Htt) as [Hct Hnt]. apply (IH _ (t :: path)); [done| | | | |cbn; lia].
  - intros d Hdd. split; [by apply (contained_step x t d)|]. intros Hdoom. apply Hnt. by apply (doomed_step x t d).
  - intros a d Ha Hdd. apply elem_of_cons in Ha as [->|Ha]; [by apply tc_once|]. eapply tc_r; [by apply Hpath|done].
  - constructor; [|done]. intros Hin. apply Hnt, doomed_loop. by apply Hpath.
  - intros a Ha. apply elem_of_cons in Ha as [->|Ha]; [done|by apply Hp].
Qed.

(** ** The plan *)

Lemma init_ok (x : G) : let mp : D := fold_left (fun mp node => dictionary_set node 0 mp) (graph_vertices x) string_to_int_dictionary_create in
  settled x mp /\ (forall v, colour mp v <> None <-> v ∈ graph_vertices x) /\ (forall v, colour mp v = None \/ colour mp v = Some 0).
Proof.
  intros mp. assert (Hc : forall v, colour mp v = if decide (v ∈ graph_vertices x) then Some 0 else None).
  { assert (H : forall l (mp : D) v, colour (fold_left (fun mp node => dictionary_set node 0 mp) l mp) v = if decide (v ∈ l) then Some 0 else colour mp v).
    { induction l as [|k l IH]; intros mp0 v; cbn [fold_left]; [done|]. rewrite IH, colour_set.
      destruct (decide (v ∈ l)), (decide (v = k)); [rewrite decide_True by set_solver; done..|rewrite decide_False by set_solver; done]. }
    intros v. unfold mp. rewrite H. unfold colour. by rewrite dict_create_empty. }
  split; [|split; intros v; rewrite Hc; case_decide; auto; naive_solver].
  split; [split|]; intros *; rewrite ?Hc; [|case_decide; done..]. intros Hv. apply vertices_spec in Hv. rewrite decide_True by done. exists 0. auto.
Qed.

Lemma plan_ok x : graph_contains_vertex x [] = true ->
  (plan (V := V) (D := D) x = Undef /\ exists goal, depends x [] goal /\ doomed x goal)
  \/ exists failed x' rs, plan (V := V) (D := D) x = Done (failed, x', rs)
    /\ (forall t, t ∈ failed <-> depends x [] t /\ doomed x t)
    /\ NoDup rs
    /\ (forall v, v ∈ rs <-> exists goal, depends x [] goal /\ ~ doomed x goal /\ rtc (depends x) goal v)
    /\ ordered x' rs
    /\ (forall v, v ∈ rs -> graph_contains_vertex x' v = true /\ forall d, depends x' v d <-> depends x v d).
Proof.
  intros Hroot. unfold plan, neighbors. rewrite Hroot. cbn [obind]. destruct (init_ok x) as (Hset & Hdom & _).
  set (mp := fold_left _ _ _) in *.
  destruct (check_goals_ok (S (S (length (graph_vertices x)))) x (graph_neighbors x []) mp Hset) as (failed & mp1 & -> & [Hc1 Hg1] & Hch & Hfail & Hcol).
  { intros t. apply neighbors_vertex. }
  { unfold whites. pose proof (length_filter (fun v => colour mp v = Some 0) (graph_vertices x)). lia. }
  cbn [obind]. assert (Hkeys : forall k, k ∈ dictionary_keys mp1 <-> graph_contains_vertex x k = true).
  { intros k. rewrite dict_keys_spec, vertices_spec, <- Hdom. fold (colour mp1 k). by rewrite (re_domain _ _ Hch). }
  destruct (prune_ok (dictionary_keys mp1) (graph_neighbors x []) mp1 x) as [[-> (g & Hg & Hgg)]|(x' & valid & -> & Hcon & Hdep & Hval)];
    [apply dict_keys_nodup|intros k; by rewrite dict_keys_spec|intros k Hk _; by apply Hkeys|intros g Hg; left; by apply neighbors_vertex in Hg| |right].
  { left. split; [done|]. exists g. split; [done|by apply Hg1]. }
  cbn [obind]. assert (Hblack : forall a, colour mp1 a = Some 2 -> forall b, depends x' a b <-> depends x a b).
  { intros a Ha b. rewrite Hdep by (unfold grey; intros [_ ?]; congruence). split; [by intros [? _]|]. intros Hab. split; [done|].
    pose proof (col_closed _ _ Hc1 a b Ha Hab). unfold grey. intros [_ ?]. congruence. }
  assert (Hcl : forall a b, colour mp1 a = Some 2 -> depends x' a b -> depends x a b /\ colour mp1 b = Some 2)
    by (intros a b Ha Hab; apply (Hblack a Ha) in Hab; split; [done|by apply (col_closed _ _ Hc1 a)]).
  assert (Hcl' : forall a b, colour mp1 a = Some 2 -> depends x a b -> depends x' a b /\ colour mp1 b = Some 2)
    by (intros a b Ha Hab; split; [by apply Hblack|by apply (col_closed _ _ Hc1 a)]).
  assert (Hgoal : forall t, t ∈ valid <-> depends x [] t /\ ~ doomed x t).
  { intros t. rewrite Hval, Hkeys. split.
    - intros (_ & Ht & Hn). split; [done|]. specialize (Hcol t Ht). case_bool_decide as E; [done|]. intros Hdt. apply E, Hfail. by split.
    - intros (Ht & Hn). split; [by apply neighbors_vertex in Ht|]. split; [done|]. intros Hgr. by apply Hn, Hg1. }
  assert (Hgb : forall t, t ∈ valid -> colour mp1 t = Some 2).
  { intros t Ht. apply Hgoal in Ht as [Ht Hn]. rewrite (Hcol t Ht). by rewrite bool_decide_false by (intros E; by apply Hn, Hfail). }
  unfold get_rules_in_order.
  destruct (get_rules_ok (S (S (length (graph_vertices x')))) x' valid [] (shallow_set_create, [])) as ([cnt rs] & -> & [Hd _ Ht Ho]).
  { split; cbn; [intros v; rewrite set_create_empty; set_solver|constructor|]. intros l1 t l2 d Heq. by destruct l1. }
  { intros t Ht. pose proof (Hgb t Ht) as Hbt. split.
    - apply Hcon. split; [apply Hgoal in Ht as [Ht _]; by apply neighbors_vertex in Ht|]. unfold grey. intros [_ ?]. congruence.
    - intros (v & Hv & Hcyc). destruct (rtc_agree _ _ _ Hcl _ _ Hbt Hv) as [Hv' Hbv].
      apply (col_acyclic _ _ Hc1 t Hbt). exists v. split; [done|]. by apply (tc_agree _ _ _ Hcl). }
  { by intros a t ?%elem_of_nil. } { constructor. } { by intros a ?%elem_of_nil. } { cbn. lia. }
  cbn [obind snd] in *. destruct Hd as [_ Hnd Hord]. cbn in Hnd, Hord.
  assert (Hreach : forall v, v ∈ rs <-> exists goal, depends x [] goal /\ ~ doomed x goal /\ rtc (depends x) goal v).
  { intros v. split.
    - intros Hv. destruct (Ho v Hv) as [?%elem_of_nil|(t & Htv & Hr)]; [done|]. apply Hgoal in Htv as Hgt. exists t. split; [apply Hgt|]. split; [apply Hgt|].
      by apply (rtc_agree _ _ _ Hcl _ _ (Hgb t Htv) Hr).
    - intros (t & Hdt & Hn & Hr). assert (Htv : t ∈ valid) by (by apply Hgoal).
      destruct (rtc_agree _ _ _ Hcl' _ _ (Hgb t Htv) Hr) as [Hr' _]. specialize (Ht t Htv). clear -Hr' Ht Hord.
      induction Hr' as [|a b c Hab _ IH]; [done|]. apply IH. apply list_elem_of_split in Ht as (l1 & l2 & Heq).
      rewrite Heq. apply elem_of_app. left. by apply (Hord l1 a l2). }
  exists failed, x', rs. split; [done|]. split; [done|]. split; [done|]. split; [done|]. split; [done|].
  intros v Hv. destruct (Ho v Hv) as [?%elem_of_nil|(t & Htv & Hr)]; [done|]. destruct (rtc_agree _ _ _ Hcl _ _ (Hgb t Htv) Hr) as [Hrx Hbv]. split; [|by apply Hblack].
  apply Hcon. split; [|unfold grey; intros [_ ?]; congruence]. apply Hgoal in Htv as [Htv _]. apply neighbors_vertex in Htv. clear -Hrx Htv HG.
  induction Hrx as [|a b c Hab _ IH]; [done|]. apply IH. by apply (contained_step x a b).
Qed.

End Plan.
