(* ===== verification/ParmakeSpec.v ===== *)
(** * The threads of [parmake]

    From a planned start, every interleaving of the threads runs a rule's commands
    at most once and, for a target that is not a file, only behind all its
    dependencies; no step is undefined, the threads never all block, and when they
    have returned every rule has been decided. *)

From stdpp Require Import gmap strings.
From S2P Require Import Prelude CString Parmake ParmakePlan.
Open Scope Z_scope.

Section Threads.

Context {G F : Type} {LG : GraphLib G} {HG : GraphLaws G} {LF : FileSystem F}.

(** Modification times are seconds of a 32-bit clock. *)
Hypothesis stat_range : forall (fs : F) p t, stat fs p = Some t -> 0 <= t < 2147483648.

Variable x : G.
Variable rs0 : list key.

(** What the plan provides. *)
Record planned (m : gmap key rule_t) : Prop := {
  pl_nodup : NoDup rs0;
  pl_ordered : ordered x rs0;
  pl_vertex t : t ∈ rs0 -> graph_contains_vertex x t = true;
  pl_default t : t ∈ rs0 -> exists r, m !! t = Some r /\ state r = DEFAULT;
}.

(** ** The invariant *)

(** The rule a thread is busy with. *)
Definition busy_with (t : thread) : option key :=
  match t with Run k _ => Some k | Mark k _ => Some k | _ => None end.

Definition busy (ts : list thread) : list key := omap busy_with ts.

Definition started (l : list event) : list key := omap (fun e => match e with Started t _ => Some t | _ => None end) l.

Arguments busy _ : simpl never.
Arguments started _ : simpl never.

(** A thread that will step without being woken. *)
Definition active (t : thread) : bool := match t with AtLock | Scan _ | Run _ _ | Mark _ _ => true | _ => false end.

(** Where every rule is: in [rules], with a thread, or decided. *)
Record placed (c : config (F := F)) : Prop := {
  pc_nodup : NoDup (rules c ++ busy (threads c));
  pc_sub : rules c `sublist_of` rs0;
  pc_busy t : t ∈ busy (threads c) -> t ∈ rs0;
  pc_state t : t ∈ rs0 -> exists r, rule_values c !! t = Some r
    /\ ((state r = DEFAULT /\ t ∈ rules c ++ busy (threads c))
        \/ ((state r = VALID \/ state r = INVALID) /\ (t ∉ rules c ++ busy (threads c)) /\ Finished t (state r) ∈ log c));
  pc_mark t st : Mark t st ∈ threads c -> st = VALID \/ st = INVALID;
}.

(** What the log says. *)
Record logged (c : config (F := F)) : Prop := {
  lg_once : NoDup (started (log c));
  lg_left t : t ∈ started (log c) -> (t ∈ rs0) /\ (t ∉ rules c);
  lg_order l1 t l2 d : log c = l1 ++ Started t false :: l2 -> depends x t d -> Finished d VALID ∈ l1;
}.

(** Who holds [rules_lock], and why waiting threads will be woken. *)
Record locked (c : config (F := F)) : Prop := {
  lk_scan i th : threads c !! th = Some (Scan i) -> rules c <> [] /\ (i <= length (rules c))%nat;
  lk_one th th' i i' : threads c !! th = Some (Scan i) -> threads c !! th' = Some (Scan i') -> th = th';
  lk_later th i : threads c !! th = Some (Scan (S i)) -> busy (threads c) <> [] \/ AtLock ∈ threads c;
  lk_waiting : Waiting ∈ threads c -> busy (threads c) <> [] \/ (rules c <> [] /\ exists t, t ∈ threads c /\ (t = AtLock \/ is_scan t = true));
  lk_returned : Returned ∈ threads c -> rules c = [];
}.

Record par_inv (c : config (F := F)) : Prop := {
  pi_placed : placed c;
  pi_logged : logged c;
  pi_locked : locked c;
}.

(** ** Replacing a thread *)

Lemma busy_insert (ts : list thread) th t t' : ts !! th = Some t ->
  exists l1 l2, ts = l1 ++ t :: l2 /\ <[th := t']> ts = l1 ++ t' :: l2 /\ length l1 = th.
Proof.
  intros H. apply list_elem_of_split_length in H as (l1 & l2 & -> & ->). exists l1, l2. split; [done|]. split; [|done].
  by rewrite insert_app_r_alt, Nat.sub_diag.
Qed.

Lemma busy_app l1 l2 : busy (l1 ++ l2) = busy l1 ++ busy l2.
Proof. apply omap_app. Qed.

Lemma busy_cons t l : busy (t :: l) = match busy_with t with Some k => k :: busy l | None => busy l end.
Proof. done. Qed.

(** A thread whose rule stays the same leaves the rules with threads as they are. *)
Lemma busy_same ts th t t' : ts !! th = Some t -> busy_with t' = busy_with t -> busy (<[th := t']> ts) = busy ts.
Proof.
  intros H Hb. destruct (busy_insert ts th t t' H) as (l1 & l2 & -> & -> & _). by rewrite !busy_app, !busy_cons, Hb.
Qed.

Lemma busy_take ts th t k t' : ts !! th = Some t -> busy_with t = None -> busy_with t' = Some k ->
  busy (<[th := t']> ts) ≡ₚ k :: busy ts.
Proof.
  intros H Hn Hs. destruct (busy_insert ts th t t' H) as (l1 & l2 & -> & -> & _). rewrite !busy_app, !busy_cons, Hn, Hs.
  by rewrite Permutation_middle.
Qed.

Lemma busy_drop ts th t k t' : ts !! th = Some t -> busy_with t = Some k -> busy_with t' = None ->
  busy ts ≡ₚ k :: busy (<[th := t']> ts).
Proof.
  intros H Hn Hs. destruct (busy_insert ts th t t' H) as (l1 & l2 & -> & -> & _). rewrite !busy_app, !busy_cons, Hn, Hs.
  by rewrite Permutation_middle.
Qed.

Lemma busy_wake ts : busy (wake <$> ts) = busy ts.
Proof. induction ts as [|t ts IH]; [done|]. rewrite fmap_cons, !busy_cons, IH. by destruct t. Qed.

Lemma insert_elem (ts : list thread) th t t' u : ts !! th = Some t -> u ∈ <[th := t']> ts -> u = t' \/ u ∈ ts.
Proof.
  intros H Hu. destruct (busy_insert ts th t t' H) as (l1 & l2 & -> & Hi & _). rewrite Hi in Hu. set_solver.
Qed.

Lemma insert_has (ts : list thread) th t t' : ts !! th = Some t -> t' ∈ <[th := t']> ts.
Proof. intros H. destruct (busy_insert ts th t t' H) as (l1 & l2 & -> & -> & _). set_solver. Qed.

Lemma insert_keeps (ts : list thread) th t t' u : ts !! th = Some t -> u ∈ ts -> u <> t -> u ∈ <[th := t']> ts.
Proof. intros H Hu Hn. destruct (busy_insert ts th t t' H) as (l1 & l2 & -> & -> & _). set_solver. Qed.

Lemma insert_scan (ts : list thread) th t t' j i : ts !! th = Some t -> <[th := t']> ts !! j = Some (Scan i) ->
  (j = th /\ t' = Scan i) \/ (j <> th /\ ts !! j = Some (Scan i)).
Proof.
  intros H Hj. destruct (decide (j = th)) as [->|Hne].
  - rewrite list_lookup_insert_eq in Hj by (by eapply lookup_lt_Some). injection Hj as ->. by left.
  - rewrite list_lookup_insert_ne in Hj by done. by right.
Qed.

(** ** The status of a rule *)

Lemma rule_status_ok m deps : (forall d, d ∈ deps -> graph_contains_vertex x d = true /\ exists r, m !! d = Some r) ->
  exists st, rule_status x m deps = Done st /\
    ((st = RUN_IMM /\ forall d r, d ∈ deps -> m !! d = Some r -> state r = VALID)
     \/ exists d r, d ∈ deps /\ m !! d = Some r /\ state r <> VALID /\ st = state r).
Proof.
  induction deps as [|d deps IH]; intros Hd; cbn [rule_status].
  { exists RUN_IMM. split; [done|]. left. split; [done|]. by intros d r ?%elem_of_nil. }
  destruct (Hd d) as [Hc [r Hr]]; [by left|]. unfold graph_get_vertex_value. rewrite Hc, Hr. cbn [deref obind].
  destruct (Z.eqb_spec (state r) VALID) as [Hv|Hv].
  - destruct IH as (st & -> & Hst); [intros e He; apply Hd; by right|]. exists st. split; [done|].
    destruct Hst as [[-> Hall]|(e & re & He & Hre)]; [left; split; [done|]|right; exists e, re; split; [by right|done]].
    intros e re He Hre. apply elem_of_cons in He as [->|He]; [congruence|by eapply Hall].
  - exists (state r). split; [done|]. right. exists d, r. split; [by left|done].
Qed.

Lemma file_status_ok (fs : F) t deps : exists st, file_status fs t deps = Done st /\ (st = RUN_IMM \/ st = SAT_NO_RUN \/ st = ERR).
Proof.
  induction deps as [|d deps IH]; cbn [file_status]; [eauto|]. destruct (access fs d); [|eauto].
  destruct (stat fs t) as [t1|] eqn:E1; [|eauto]. destruct (stat fs d) as [t2|] eqn:E2; [|eauto].
  apply stat_range in E1, E2. unfold c_difftime. rewrite (proj2 (andb_true_iff _ _)) by lia. cbn [obind]. case_bool; eauto.
Qed.

(** The status of a rule in [rules]: the code's five, and what they mean. *)
Lemma run_status_ok c t : placed c -> ordered x rs0 -> (forall t, t ∈ rs0 -> graph_contains_vertex x t = true) -> t ∈ rules c ->
  exists st, run_status x (rule_values c) (files c) t = Done st /\
    ((st = RUN_IMM /\ (access (files c) t = false -> forall d r, depends x t d -> rule_values c !! d = Some r -> state r = VALID))
     \/ st = SAT_NO_RUN \/ st = ERR \/ (st = NOT_FINISHED /\ exists d r, depends x t d /\ rule_values c !! d = Some r /\ state r = DEFAULT)).
Proof.
  intros [Hnd Hsub _ Hst _] Hord Hvert Ht. assert (Ht0 : t ∈ rs0) by (by eapply elem_of_sublist).
  destruct (Hst t Ht0) as (r & Hr & [[Hr0 _]|(_ & Hn & _)]); [|by destruct Hn; apply elem_of_app; left].
  assert (Hdeps : forall d, depends x t d -> d ∈ rs0).
  { intros d Hd. apply list_elem_of_split in Ht0 as (l1 & l2 & Heq). rewrite Heq. apply elem_of_app. left. by eapply Hord. }
  unfold run_status, graph_get_vertex_value, neighbors. rewrite (Hvert t Ht0), Hr. cbn [deref obind]. rewrite Hr0. cbn [DEFAULT Z.eqb negb obind].
  destruct (graph_neighbors x t) as [|d0 deps] eqn:En.
  { eexists. split; [done|]. destruct (access (files c) t); [auto|]. left. split; [done|]. intros _ d rd Hd. unfold depends in Hd. rewrite En in Hd. by apply elem_of_nil in Hd. }
  rewrite <- En. destruct (access (files c) t).
  { destruct (file_status_ok (files c) t (graph_neighbors x t)) as (st & -> & Hs). exists st. split; [done|]. naive_solver. }
  destruct (rule_status_ok (rule_values c) (graph_neighbors x t)) as (st & -> & Hs).
  { intros d Hd. split; [by apply Hvert, Hdeps|]. destruct (Hst d (Hdeps d Hd)) as (rd & ? & _). by exists rd. }
  exists st. split; [done|]. destruct Hs as [[-> Hall]|(d & rd & Hd & Hrd & Hnv & ->)]; [left; split; [done|]; intros _ d rd; apply Hall|].
  destruct (Hst d (Hdeps d Hd)) as (rd' & Hrd' & Hcase). rewrite Hrd in Hrd'. injection Hrd' as <-.
  destruct Hcase as [[H0 _]|([?|H1] & _)]; [|done|].
  - right; right; right. rewrite H0. split; [done|]. by exists d, rd.
  - right; right; left. by rewrite H1.
Qed.

(** With no thread busy, the first rule does not have to wait. *)
Lemma head_ready c t l : placed c -> NoDup rs0 -> ordered x rs0 -> rules c = t :: l -> busy (threads c) = [] ->
  forall d r, depends x t d -> rule_values c !! d = Some r -> state r <> DEFAULT.
Proof.
  intros [Hnd Hsub _ Hst _] Hnd0 Hord Hrules Hb d r Hd Hr H0. rewrite Hrules in Hsub.
  apply sublist_cons_l in Hsub as (l1 & l2 & Heq & Hl). pose proof (Hord l1 t l2 d Heq Hd) as Hdl.
  destruct (Hst d) as (rd & Hrd & Hc); [rewrite Heq; apply elem_of_app; by left|]. rewrite Hr in Hrd. injection Hrd as <-.
  destruct Hc as [[_ Hin]|([H1|H1] & _)]; [|unfold VALID, INVALID, DEFAULT in *; congruence..].
  rewrite Hb, app_nil_r, Hrules in Hin. rewrite Heq in Hnd0. apply NoDup_app in Hnd0 as (_ & Hdis & _). apply (Hdis d Hdl).
  apply elem_of_cons in Hin as [->|Hin]; [by left|]. right. by eapply elem_of_sublist.
Qed.

(** ** The invariant is kept *)

Context (rs0_nodup : NoDup rs0) (rs0_ordered : ordered x rs0).
Context (rs0_vertex : forall t, t ∈ rs0 -> graph_contains_vertex x t = true).

Lemma placed_thread rs m fs fs' ts l th t t' :
  ts !! th = Some t -> busy_with t' = busy_with t -> (forall k st, t' = Mark k st -> st = VALID \/ st = INVALID) ->
  placed (Config rs m fs ts l) -> placed (Config rs m fs' (<[th := t']> ts) l).
Proof.
  intros Ht Hb Hm [Hnd Hsub Hbusy Hst Hmark]. cbn in *. pose proof (busy_same ts th t t' Ht Hb) as Heq. split; cbn;
    [by rewrite Heq|done|intros k; rewrite Heq; apply Hbusy|intros k Hin; rewrite Heq; by apply Hst|].
  intros k st Hin. destruct (insert_elem _ _ _ _ _ Ht Hin) as [Hk|?]; [by eapply Hm|by eapply Hmark].
Qed.

Lemma erase_perm (rs : list key) i k : rs !! i = Some k -> rs ≡ₚ k :: (take i rs ++ drop (S i) rs).
Proof. intros Hk. rewrite <- (take_drop_middle rs i k Hk) at 1. by rewrite Permutation_middle. Qed.

Lemma erase_sublist (rs : list key) i : (take i rs ++ drop (S i) rs) `sublist_of` rs.
Proof.
  rewrite <- (take_drop i rs) at 3. apply sublist_app; [done|]. destruct (rs !! i) as [k|] eqn:Ek.
  - rewrite (drop_S _ _ _ Ek). by apply sublist_cons.
  - apply lookup_ge_None in Ek. by rewrite !drop_ge by lia.
Qed.

Lemma elem_of_sublist_inv (rs : list key) i t : t ∈ take i rs ++ drop (S i) rs -> t ∈ rs.
Proof. intros H. eapply elem_of_sublist; [exact H|apply erase_sublist]. Qed.

(** A thread takes rule [i]. *)
Lemma placed_take rs m fs ts l e th i k t' :
  ts !! th = Some (Scan i) -> rs !! i = Some k -> busy_with t' = Some k -> (forall k st, t' = Mark k st -> st = VALID \/ st = INVALID) ->
  placed (Config rs m fs ts l) -> placed (Config (take i rs ++ drop (S i) rs) m fs (<[th := t']> ts) (l ++ e)).
Proof.
  intros Ht Hk Hb Hm [Hnd Hsub Hbusy Hst Hmark]. cbn in *. pose proof (busy_take ts th (Scan i) k t' Ht eq_refl Hb) as Hbt.
  assert (Hp : (take i rs ++ drop (S i) rs) ++ busy (<[th := t']> ts) ≡ₚ rs ++ busy ts)
    by (rewrite Hbt, <- Permutation_middle; symmetry; apply (Permutation_app_tail (busy ts) (erase_perm rs i k Hk))).
  split; cbn.
  - by rewrite Hp.
  - etrans; [apply erase_sublist|done].
  - intros t. rewrite Hbt, elem_of_cons. intros [->|Hin]; [|by apply Hbusy]. eapply elem_of_sublist; [by eapply list_elem_of_lookup_2|done].
  - intros t Hin. destruct (Hst t Hin) as (r & Hr & Hc). exists r. split; [done|]. setoid_rewrite Hp.
    destruct Hc as [?|(? & ? & Hf)]; [by left|right]. split; [done|]. split; [done|]. apply elem_of_app. by left.
  - intros j st Hin. destruct (insert_elem _ _ _ _ _ Ht Hin) as [Hj|?]; [by eapply Hm|by eapply Hmark].
Qed.

(** A thread decides its rule. *)
Lemma placed_mark rs m fs ts l th k st r :
  ts !! th = Some (Mark k st) -> m !! k = Some r -> placed (Config rs m fs ts l) ->
  placed (Config rs (<[k := set_state r st]> m) fs (wake <$> <[th := AtLock]> ts) (l ++ [Finished k st])).
Proof.
  intros Ht Hr [Hnd Hsub Hbusy Hst Hmark]. cbn in *. pose proof (busy_drop ts th (Mark k st) k AtLock Ht eq_refl eq_refl) as Hbt.
  pose proof (Hmark k st (list_elem_of_lookup_2 _ _ _ Ht)) as Hval.
  assert (Hp : rs ++ busy ts ≡ₚ k :: rs ++ busy (<[th := AtLock]> ts)) by (by rewrite Hbt, Permutation_middle).
  rewrite Hp in Hnd. apply NoDup_cons in Hnd as [Hk Hnd]. split; cbn; rewrite ?busy_wake; [done|done| | |].
  - intros t Hin. apply Hbusy. rewrite Hbt. by right.
  - intros t Hin. destruct (decide (t = k)) as [->|Hne].
    + exists (set_state r st). rewrite lookup_insert_eq. split; [done|]. right. split; [done|]. split; [done|]. apply elem_of_app. right. by left.
    + rewrite lookup_insert_ne by done. destruct (Hst t Hin) as (r' & Hr' & Hc). exists r'. split; [done|]. setoid_rewrite Hp in Hc.
      rewrite elem_of_cons in Hc. destruct Hc as [[? [?|?]]|(? & ? & ?)]; [done|by left|right]. split; [done|]. split; [naive_solver|]. apply elem_of_app. by left.
  - intros j st' Hin. apply list_elem_of_fmap in Hin as (u & Hu & Hin). destruct (insert_elem _ _ _ _ _ Ht Hin) as [->|Hin']; [done|].
    apply (Hmark j). destruct u; try done. by injection Hu as -> ->.
Qed.

(** *** The log *)

Lemma logged_same rs rs' m m' fs fs' ts ts' l : (forall t, t ∈ rs' -> t ∈ rs) -> logged (Config rs m fs ts l) -> logged (Config rs' m' fs' ts' l).
Proof. intros Hrs [H1 H2 H3]. cbn in *. split; cbn; [done| |done]. intros t Ht. destruct (H2 t Ht). auto. Qed.

Lemma logged_finished rs m m' fs ts ts' l k st : logged (Config rs m fs ts l) -> logged (Config rs m' fs ts' (l ++ [Finished k st])).
Proof.
  intros [H1 H2 H3]. cbn in *. assert (Hs : started (l ++ [Finished k st]) = started l) by (unfold started; rewrite omap_app; cbn; by rewrite app_nil_r).
  split; cbn; rewrite ?Hs; [done|done|]. intros l1 t l2 d Heq Hd. destruct l2 as [|e l2 _] using rev_ind; [by apply app_inj_tail in Heq as [_ ?]|].
  rewrite app_comm_cons, app_assoc in Heq. apply app_inj_tail in Heq as [-> _]. by eapply H3.
Qed.

Lemma logged_started rs m fs fs' ts ts' l i k f :
  placed (Config rs m fs ts l) -> rs !! i = Some k ->
  (f = false -> forall d r, depends x k d -> m !! d = Some r -> state r = VALID) ->
  logged (Config rs m fs ts l) -> logged (Config (take i rs ++ drop (S i) rs) m fs' ts' (l ++ [Started k f])).
Proof.
  intros [Hnd Hsub _ Hst _] Hk Hf [H1 H2 H3]. cbn in *. assert (Hin : k ∈ rs) by (by eapply list_elem_of_lookup_2).
  assert (Hk0 : k ∈ rs0) by (by eapply elem_of_sublist). apply NoDup_app in Hnd as (Hnd & _). pose proof (erase_perm rs i k Hk) as Hperm. apply (NoDup_Permutation_proper _ _ Hperm) in Hnd. apply NoDup_cons in Hnd as [Hnk _].
  assert (Hs : started (l ++ [Started k f]) = started l ++ [k]) by (unfold started; by rewrite omap_app). split; cbn; rewrite ?Hs.
  - apply NoDup_app. split; [done|]. split; [|apply NoDup_singleton]. intros t Ht ->%list_elem_of_singleton. by destruct (H2 k Ht).
  - intros t. rewrite elem_of_app, list_elem_of_singleton. intros [Ht| ->]; [|done]. destruct (H2 t Ht) as [? Hn]. split; [done|].
    intros Hin'. apply Hn. eapply elem_of_Permutation_proper; [exact Hperm|by right].
  - intros l1 t l2 d Heq Hd. destruct l2 as [|e l2 _] using rev_ind.
    + apply app_inj_tail in Heq as [<- [= <- Hff]]. assert (Hd0 : d ∈ rs0).
      { apply list_elem_of_split in Hk0 as (r1 & r2 & Hr). rewrite Hr. apply elem_of_app. left. by eapply rs0_ordered. }
      destruct (Hst d Hd0) as (r & Hr & Hc). pose proof (Hf Hff d r Hd Hr) as Hv.
      destruct Hc as [[H0 _]|(_ & _ & Hfin)]; [unfold DEFAULT, VALID in *; congruence|]. by rewrite Hv in Hfin.
    + rewrite app_comm_cons, app_assoc in Heq. apply app_inj_tail in Heq as [-> _]. by eapply H3.
Qed.

(** *** The lock *)

Definition no_scan (ts : list thread) : Prop := forall th i, ts !! th <> Some (Scan i).

Lemma lock_free_spec ts : lock_free ts = true <-> no_scan ts.
Proof.
  unfold lock_free, no_scan. rewrite forallb_forall. split.
  - intros H th i Hl. apply list_elem_of_lookup_2, list_elem_of_In, H in Hl. done.
  - intros H t Hin. apply list_elem_of_In, list_elem_of_lookup_1 in Hin as (th & Hl). destruct t; try done. by destruct (H th i).
Qed.

Lemma locked_no_scan rs m fs ts l :
  no_scan ts -> (Waiting ∈ ts -> busy ts <> [] \/ (rs <> [] /\ AtLock ∈ ts)) -> (Returned ∈ ts -> rs = []) -> locked (Config rs m fs ts l).
Proof.
  intros Hn Hw Hr. split; cbn; [by intros i th ?%Hn|by intros th th' i i' ?%Hn|by intros th i ?%Hn| |done].
  intros Hin. destruct (Hw Hin) as [?|[? ?]]; [by left|right]. split; [done|]. exists AtLock. auto.
Qed.

(** The one thread that looks at rules stops doing so. *)
Lemma no_scan_after c th i t' : locked c -> threads c !! th = Some (Scan i) -> is_scan t' = false -> no_scan (<[th := t']> (threads c)).
Proof.
  intros Hl Ht Hs th' j Hj. destruct (insert_scan _ _ _ _ _ _ Ht Hj) as [[_ ->]|[Hne Hj']]; [done|]. apply Hne. by eapply lk_one.
Qed.

Lemma scan_no_returned c th i : locked c -> threads c !! th = Some (Scan i) -> Returned ∈ threads c -> False.
Proof. intros Hl Ht Hr. destruct (lk_scan _ Hl _ _ Ht) as [H _]. by rewrite (lk_returned _ Hl Hr) in H. Qed.

(** A rule can only be waited for because of another thread. *)
Lemma not_finished_active c th i k : par_inv c -> threads c !! th = Some (Scan i) -> rules c !! i = Some k ->
  (exists d r, depends x k d /\ rule_values c !! d = Some r /\ state r = DEFAULT) -> busy (threads c) <> [] \/ AtLock ∈ threads c.
Proof.
  intros [Hp _ Hl] Ht Hk (d & r & Hd & Hr & H0). destruct i as [|i]; [|by eapply lk_later]. left. intros Hb.
  destruct (rules c) as [|k' l] eqn:Er; [done|]. injection Hk as ->. by eapply (head_ready c k l).
Qed.

(** *** The steps *)

(** A thread that has looked at all rules waits; another one is at work. *)
Lemma scan_wait_ok c th i : par_inv c -> threads c !! th = Some (Scan i) -> busy (threads c) <> [] \/ AtLock ∈ threads c ->
  par_inv (set_thread th Waiting c).
Proof.
  intros [Hp Hl Hk] Ht Hact. destruct (lk_scan _ Hk _ _ Ht) as [Hne _].
  split; [destruct c; by eapply placed_thread|destruct c; by eapply logged_same|]. apply locked_no_scan; [by eapply no_scan_after| |].
  - intros _. unfold set_thread. rewrite (busy_same _ _ (Scan i)) by done. destruct Hact as [?|Ha]; [by left|right]. split; [done|]. by eapply insert_keeps.
  - intros Hret. destruct (insert_elem _ _ _ _ _ Ht Hret) as [?|?]; [done|by destruct (scan_no_returned c th i)].
Qed.

(** A thread goes on to the next rule. *)
Lemma scan_next_ok c th i : par_inv c -> threads c !! th = Some (Scan i) -> (i < length (rules c))%nat -> busy (threads c) <> [] \/ AtLock ∈ threads c ->
  par_inv (set_thread th (Scan (S i)) c).
Proof.
  intros [Hp Hl Hk] Ht Hi Hact. destruct (lk_scan _ Hk _ _ Ht) as [Hne _].
  split; [destruct c; by eapply placed_thread|destruct c; by eapply logged_same|]. split; cbn [threads rules set_thread].
  - intros j th' Hj. destruct (insert_scan _ _ _ _ _ _ Ht Hj) as [[_ [= <-]]|[_ Hj']]; [|by eapply lk_scan]. split; [done|lia].
  - intros a b ia ib Ha Hb. destruct (insert_scan _ _ _ _ _ _ Ht Ha) as [[-> _]|[Hna Ha']], (insert_scan _ _ _ _ _ _ Ht Hb) as [[-> _]|[Hnb Hb']];
      [done|by destruct Hnb; eapply lk_one|by destruct Hna; eapply lk_one|by eapply lk_one].
  - intros _ _ _. rewrite (busy_same _ _ (Scan i)) by done. destruct Hact as [?|Ha]; [by left|right]. by eapply insert_keeps.
  - intros _. right. split; [done|]. exists (Scan (S i)). split; [by eapply insert_has|by right].
  - intros Hret. destruct (insert_elem _ _ _ _ _ Ht Hret) as [?|?]; [done|by destruct (scan_no_returned c th i)].
Qed.

(** A thread takes rule [i]. *)
Lemma scan_take_ok c th i k t' e : par_inv c -> threads c !! th = Some (Scan i) -> rules c !! i = Some k ->
  busy_with t' = Some k -> (forall k st, t' = Mark k st -> st = VALID \/ st = INVALID) ->
  (placed c -> logged c -> logged (Config (take i (rules c) ++ drop (S i) (rules c)) (rule_values c) (files c) (<[th := t']> (threads c)) (log c ++ e))) ->
  par_inv (Config (take i (rules c) ++ drop (S i) (rules c)) (rule_values c) (files c) (<[th := t']> (threads c)) (log c ++ e)).
Proof.
  intros [Hp Hl Hk] Ht Hk0 Hb Hm Hlog. pose proof (busy_take _ _ _ _ _ Ht eq_refl Hb) as Hbt. split; [destruct c; by eapply placed_take|by apply Hlog|].
  apply locked_no_scan.
  - eapply no_scan_after; [done|done|]. by destruct t'.
  - intros _. left. intros Hnil. rewrite Hnil in Hbt. by apply Permutation_nil_cons in Hbt.
  - intros Hret. destruct (insert_elem _ _ _ _ _ Ht Hret) as [<-|?]; [done|by destruct (scan_no_returned c th i)].
Qed.

Lemma scan_ok c th i : par_inv c -> threads c !! th = Some (Scan i) -> exists c', scan_step x th i c = Done c' /\ par_inv c'.
Proof.
  intros Hinv Ht. pose proof Hinv as [Hp Hl Hk]. destruct (lk_scan _ Hk _ _ Ht) as [Hne Hle]. unfold scan_step.
  destruct (Nat.eqb_spec i (length (rules c))) as [Hend|Hlt].
  { eexists. split; [done|]. eapply scan_wait_ok; [done..|]. destruct i as [|i]; [by destruct (rules c)|by eapply lk_later]. }
  destruct (lookup_lt_is_Some_2 (rules c) i) as [k Hk0]; [lia|]. assert (Hin : k ∈ rules c) by (by eapply list_elem_of_lookup_2).
  assert (Hin0 : k ∈ rs0) by (eapply elem_of_sublist; [done|apply Hp]). rewrite Hk0. cbn [deref obind].
  destruct (run_status_ok c k Hp rs0_ordered rs0_vertex Hin) as (st & -> & Hst). cbn [obind].
  destruct (pc_state _ Hp k Hin0) as (r & Hr & _). unfold graph_get_vertex_value. rewrite rs0_vertex, Hr by done. cbn [deref obind].
  assert (Hmark : forall st, st = VALID \/ st = INVALID -> par_inv (set_thread th (Mark k st) (erase_rule i c))).
  { intros st' Hst'. pose proof (scan_take_ok c th i k (Mark k st') [] Hinv Ht Hk0 eq_refl) as H. rewrite app_nil_r in H.
    apply H; [by intros ? ? [= _ <-]|]. intros _ _. destruct c. eapply logged_same; [|exact Hl]. cbn. intros t. apply elem_of_sublist_inv. }
  destruct Hst as [[-> Hready]|[->|[->|[-> Hwait]]]]; cbn [Z.eqb RUN_IMM SAT_NO_RUN ERR NOT_FINISHED ALREADY_DONE Pos.eqb orb]; eexists; (split; [done|]).
  - apply (scan_take_ok c th i k (Run k (commands r)) [Started k (access (files c) k)]); [done..|]. intros _ _. destruct c. by eapply logged_started.
  - apply Hmark. by left.
  - apply Hmark. by right.
  - apply (scan_next_ok c th i); [done|done|lia|by eapply not_finished_active].
Qed.

(** A busy thread goes on with its rule. *)
Lemma run_ok c th t t' fs' : par_inv c -> threads c !! th = Some t -> busy_with t' = busy_with t -> busy_with t <> None ->
  (forall k st, t' = Mark k st -> st = VALID \/ st = INVALID) -> par_inv (Config (rules c) (rule_values c) fs' (<[th := t']> (threads c)) (log c)).
Proof.
  intros [Hp Hl Hk] Ht Hb Hn Hm. pose proof (busy_same _ _ _ _ Ht Hb) as Hbs.
  assert (Hbne : busy (threads c) <> []).
  { destruct (busy_insert _ th t t' Ht) as (l1 & l2 & Heq & _). rewrite Heq, busy_app, busy_cons. destruct (busy_with t); [|done]. by destruct (busy l1). }
  split; [destruct c; by eapply placed_thread|destruct c; by eapply logged_same|].
  assert (Hold : forall j i, <[th := t']> (threads c) !! j = Some (Scan i) -> threads c !! j = Some (Scan i)).
  { intros j i Hj. destruct (insert_scan _ _ _ _ _ _ Ht Hj) as [[_ ->]|[_ ?]]; [|done]. cbn in Hb. by rewrite <- Hb in Hn. }
  split; cbn [threads rules].
  - intros i j Hj. by eapply lk_scan, Hold.
  - intros a b ia ib Ha Hb'. eapply lk_one; [done|by apply Hold|by apply Hold].
  - intros _ _ _. rewrite Hbs. by left.
  - intros _. rewrite Hbs. by left.
  - intros Hret. destruct (insert_elem _ _ _ _ _ Ht Hret) as [<-|?]; [by rewrite <- Hb in Hn|by apply Hk].
Qed.

Lemma mark_ok c th k st : par_inv c -> threads c !! th = Some (Mark k st) ->
  exists c', solve_step x th c = Done (Some c') /\ par_inv c'.
Proof.
  intros [Hp Hl Hk] Ht. assert (Hk0 : k ∈ rs0).
  { apply (pc_busy _ Hp). destruct (busy_insert _ th _ AtLock Ht) as (l1 & l2 & -> & _). rewrite busy_app, busy_cons. cbn. set_solver. }
  destruct (pc_state _ Hp k Hk0) as (r & Hr & _). unfold solve_step. rewrite Ht. unfold graph_get_vertex_value. rewrite rs0_vertex, Hr by done. cbn [deref obind].
  eexists. split; [done|]. split; [destruct c; by eapply placed_mark|destruct c; by eapply logged_finished|].
  assert (Hold : forall j i, (wake <$> <[th := AtLock]> (threads c)) !! j = Some (Scan i) -> threads c !! j = Some (Scan i)).
  { intros j i Hj. rewrite list_lookup_fmap in Hj. destruct (<[th := AtLock]> (threads c) !! j) as [u|] eqn:Eu; [|done]. cbn in Hj.
    destruct u; try done. injection Hj as ->. by destruct (insert_scan _ _ _ _ _ _ Ht Eu) as [[_ ?]|[_ ?]]. }
  split; cbn [threads rules].
  - intros i j Hj. by eapply lk_scan, Hold.
  - intros a b ia ib Ha Hb'. eapply lk_one; [done|by apply Hold|by apply Hold].
  - intros _ _ _. right. apply (list_elem_of_fmap_2' wake _ AtLock); [by eapply insert_has|done].
  - intros Hw. apply list_elem_of_fmap in Hw as (u & Hu & _). by destruct u.
  - intros Hret. apply list_elem_of_fmap in Hret as (u & Hu & Hin). destruct u; try done. destruct (insert_elem _ _ _ _ _ Ht Hin) as [?|?]; [done|by apply Hk].
Qed.

Lemma at_lock_ok c th : par_inv c -> threads c !! th = Some AtLock -> lock_free (threads c) = true ->
  par_inv (set_thread th (match rules c with [] => Returned | _ => Scan 0 end) c).
Proof.
  intros [Hp Hl Hk] Ht Hf%lock_free_spec. set (t' := match rules c with [] => Returned | _ => Scan 0 end).
  assert (Hb : busy_with t' = None) by (unfold t'; by destruct (rules c)).
  split; [destruct c; eapply placed_thread; [done|done| |done]; by destruct rules|destruct c; by eapply logged_same|].
  pose proof (busy_same _ _ AtLock _ Ht Hb) as Hbs. unfold t' in *. destruct (rules c) as [|k l] eqn:Er.
  - unfold set_thread. rewrite Er. apply locked_no_scan; [| |done].
    + intros j i Hj. destruct (insert_scan _ _ _ _ _ _ Ht Hj) as [[_ ?]|[_ ?]]; [done|by eapply Hf].
    + intros Hw. destruct (insert_elem _ _ _ _ _ Ht Hw) as [?|Hw']; [done|]. destruct (lk_waiting _ Hk Hw') as [?|[? _]]; [left; by rewrite Hbs|by rewrite Er in *].
  - split; cbn [threads rules set_thread]; rewrite ?Er.
    + intros i j Hj. destruct (insert_scan _ _ _ _ _ _ Ht Hj) as [[_ [= <-]]|[_ ?]]; [split; [done|lia]|by destruct (Hf j i)].
    + intros a b ia ib Ha Hb'. destruct (insert_scan _ _ _ _ _ _ Ht Ha) as [[-> _]|[_ ?]]; [|by destruct (Hf a ia)].
      destruct (insert_scan _ _ _ _ _ _ Ht Hb') as [[-> _]|[_ ?]]; [done|by destruct (Hf b ib)].
    + intros j i Hj. destruct (insert_scan _ _ _ _ _ _ Ht Hj) as [[_ ?]|[_ ?]]; [done|by destruct (Hf j (S i))].
    + intros _. right. split; [done|]. exists (Scan 0). split; [by eapply insert_has|by right].
    + intros Hret. destruct (insert_elem _ _ _ _ _ Ht Hret) as [?|Hr]; [done|]. by rewrite (lk_returned _ Hk Hr) in Er.
Qed.

Lemma spurious_ok c th : par_inv c -> threads c !! th = Some Waiting -> par_inv (set_thread th AtLock c).
Proof.
  intros [Hp Hl Hk] Ht. pose proof (busy_same _ _ Waiting AtLock Ht eq_refl) as Hbs.
  split; [destruct c; by eapply placed_thread|destruct c; by eapply logged_same|].
  assert (Hold : forall j i, <[th := AtLock]> (threads c) !! j = Some (Scan i) -> threads c !! j = Some (Scan i))
    by (intros j i Hj; by destruct (insert_scan _ _ _ _ _ _ Ht Hj) as [[_ ?]|[_ ?]]).
  split; cbn [threads rules set_thread].
  - intros i j Hj. by eapply lk_scan, Hold.
  - intros a b ia ib Ha Hb'. eapply lk_one; [done|by apply Hold|by apply Hold].
  - intros _ _ _. right. by eapply insert_has.
  - intros _. rewrite Hbs. destruct (lk_waiting _ Hk (list_elem_of_lookup_2 _ _ _ Ht)) as [?|[? _]]; [by left|right]. split; [done|].
    exists AtLock. split; [by eapply insert_has|by left].
  - intros Hret. destruct (insert_elem _ _ _ _ _ Ht Hret) as [?|?]; [done|by apply Hk].
Qed.

Lemma solve_step_ok c th : par_inv c -> exists r, solve_step x th c = Done r /\ (forall c', r = Some c' -> par_inv c')
  /\ (r = None -> threads c !! th = None \/ threads c !! th = Some Waiting \/ threads c !! th = Some Returned
        \/ (threads c !! th = Some AtLock /\ lock_free (threads c) = false)).
Proof.
  intros Hinv. destruct (threads c !! th) as [[|i| |k [|cmd cmds]|k st|]|] eqn:Et.
  - unfold solve_step. rewrite Et. destruct (lock_free (threads c)) eqn:Ef; eexists; (split; [done|]); (split; [|naive_solver]); [|done].
    intros c' [= <-]. by apply at_lock_ok.
  - unfold solve_step. rewrite Et. destruct (scan_ok c th i Hinv Et) as (c' & -> & Hinv'). cbn [obind]. eexists. split; [done|]. split; [by intros ? [= <-]|done].
  - unfold solve_step. rewrite Et. eexists. split; [done|]. split; [done|auto].
  - unfold solve_step. rewrite Et. eexists. split; [done|]. split; [|done]. intros c' [= <-]. eapply run_ok; [done|done|done|done|]. intros ? ? [= _ <-]. by left.
  - unfold solve_step. rewrite Et. destruct (system cmd (files c)) as [r fs]. eexists. split; [done|]. split; [|done]. intros c' [= <-].
    eapply run_ok; [done|done|by destruct (r =? 0)|done|]. intros k' st'. destruct (r =? 0); [done|]. intros [= _ <-]. by right.
  - destruct (mark_ok c th k st Hinv Et) as (c' & -> & Hinv'). eexists. split; [done|]. split; [by intros ? [= <-]|done].
  - unfold solve_step. rewrite Et. eexists. split; [done|]. split; [done|auto].
  - unfold solve_step. rewrite Et. eexists. split; [done|]. split; [done|auto].
Qed.

Lemma par_step_inv c c' : par_inv c -> par_step x c c' -> par_inv c'.
Proof.
  intros Hinv Hs. destruct Hs as [th c c' Hs|th c Ht]; [|by apply spurious_ok].
  destruct (solve_step_ok c th Hinv) as (r & Hr & Hok & _). rewrite Hr in Hs. injection Hs as ->. by apply Hok.
Qed.

Lemma busy_idle n : busy (replicate n AtLock) = [].
Proof. by induction n. Qed.

Lemma par_start_inv m fs n : (forall t, t ∈ rs0 -> exists r, m !! t = Some r /\ state r = DEFAULT) -> par_inv (par_start rs0 m fs n).
Proof.
  intros Hm. assert (Hall : forall t, t ∈ replicate n AtLock -> t = AtLock) by (intros t Ht; by apply elem_of_replicate in Ht as [-> _]).
  split.
  - split; cbn; rewrite ?busy_idle, ?app_nil_r; [done|done|by intros t ?%elem_of_nil| |].
    + intros t Ht. destruct (Hm t Ht) as (r & Hr & H0). exists r. split; [done|]. by left.
    + intros t st Ht. by apply Hall in Ht.
  - split; cbn; [constructor|by intros t ?%elem_of_nil|]. intros l1 t l2 d Heq. by destruct l1.
  - apply locked_no_scan; [|intros Hw; by apply Hall in Hw|intros Hw; by apply Hall in Hw].
    intros th i Hth. apply list_elem_of_lookup_2 in Hth. by apply Hall in Hth.
Qed.

Lemma reachable_inv m fs n c : (forall t, t ∈ rs0 -> exists r, m !! t = Some r /\ state r = DEFAULT) ->
  rtc (par_step x) (par_start rs0 m fs n) c -> par_inv c.
Proof.
  intros Hm Hr. pose proof (par_start_inv m fs n Hm) as H0. revert H0. induction Hr as [c|c1 c2 c3 Hs _ IH]; intros H0; [done|].
  apply IH. by eapply par_step_inv.
Qed.

(** Some thread can go on, unless all have returned. *)
Lemma progress_ok c : par_inv c -> (exists t, t ∈ threads c /\ t <> Returned) -> exists th c', solve_step x th c = Done (Some c').
Proof.
  intros Hinv (t & Ht & Hn). assert (Hgo : (exists u, u ∈ threads c /\ active u = true) -> exists th c', solve_step x th c = Done (Some c')).
  { intros (u & Hu & Ha). destruct (lock_free (threads c)) eqn:Ef.
    - apply list_elem_of_lookup_1 in Hu as (th & Hth). destruct (solve_step_ok c th Hinv) as ([c'|] & Hr & _ & Hnone); [by exists th, c'|].
      destruct (Hnone eq_refl) as [H|[H|[H|[_ H]]]]; [|..|congruence]; rewrite Hth in H; try done; by injection H as ->.
    - unfold lock_free in Ef. assert (Hex : exists th i, threads c !! th = Some (Scan i)).
      { clear -Ef. induction (threads c) as [|v l IH]; [done|]. cbn in Ef. destruct v as [|i| | | |]; try (cbn in Ef; destruct (IH Ef) as (th & i & H); by exists (S th), i).
        by exists 0%nat, i. }
      destruct Hex as (th & i & Hth). destruct (scan_ok c th i Hinv Hth) as (c' & Hs & _). exists th, c'. unfold solve_step. by rewrite Hth, Hs. }
  destruct (active t) eqn:Ea; [apply Hgo; by exists t|]. destruct t; try done.
  destruct (lk_waiting _ (pi_locked _ Hinv) Ht) as [Hb|(_ & u & Hu & Hu')]; [|apply Hgo; exists u; split; [done|]; by destruct Hu' as [->|?]; [|destruct u]].
  apply Hgo. clear -Hb. induction (threads c) as [|u l IH]; [done|]. rewrite busy_cons in Hb. destruct (busy_with u) eqn:Eu.
  - exists u. split; [by left|by destruct u].
  - destruct (IH Hb) as (v & Hv & ?). exists v. split; [by right|done].
Qed.

End Threads.
