(* ===== verification/ParmakeThm.v ===== *)
(** * Theorems on [parmake], from the makefile to the threads

    What the parser returns satisfies what the plan and the threads rely on, so the
    theorems are about [parmake] as a whole.  [AdjacencyList] is an implementation
    of the libraries for the witnesses. *)

From stdpp Require Import gmap strings.
From S2P Require Import Prelude CString Parmake ParmakePlan ParmakeSpec.
Open Scope Z_scope.

(** ** What the parser returns *)

Section Parser.

Context {G : Type} {LG : GraphLib G} {HG : GraphLaws G}.

(** The sentinel is a vertex, every vertex has a rule, and so has the current rule. *)
Record parsed (p : parse_state (G := G)) : Prop := {
  pd_root : graph_contains_vertex (dependency_graph p) [] = true;
  pd_rule v : graph_contains_vertex (dependency_graph p) v = true -> is_Some (vertex_rules p !! v);
  pd_curr t : curr_rule p = Some t -> graph_contains_vertex (dependency_graph p) t = true;
  pd_first t : first_target p = Some t -> graph_contains_vertex (dependency_graph p) t = true;
}.

Lemma parse_start_ok : parsed parse_start.
Proof.
  split; cbn; [| |done|done].
  - rewrite set_value_contains. by rewrite bool_decide_true.
  - intros v. rewrite set_value_contains, create_vertices, orb_false_r, bool_decide_eq_true. intros ->. by eexists.
Qed.

Lemma new_rule_ok s p : parsed p -> parsed (new_rule s p) /\ graph_contains_vertex (dependency_graph (new_rule s p)) s = true
  /\ forall v, graph_contains_vertex (dependency_graph p) v = true -> graph_contains_vertex (dependency_graph (new_rule s p)) v = true.
Proof.
  intros [Hr Hv Hc Hf]. assert (Hk : forall v, graph_contains_vertex (dependency_graph p) v = true -> graph_contains_vertex (dependency_graph (new_rule s p)) v = true)
    by (intros v H; cbn; rewrite set_value_contains, H; apply orb_true_r).
  split; [split|split; [|done]].
  - by apply Hk.
  - cbn. intros v. rewrite set_value_contains, orb_true_iff, bool_decide_eq_true. intros [->|H]; [rewrite lookup_insert_eq; eauto|].
    destruct (decide (v = s)) as [->|Hne]; [rewrite lookup_insert_eq; eauto|]. rewrite lookup_insert_ne by done. by apply Hv.
  - intros t Ht. by apply Hk, Hc.
  - intros t Ht. by apply Hk, Hf.
  - cbn. rewrite set_value_contains. by rewrite bool_decide_true.
Qed.

Lemma add_dependency_ok line p dep : parsed p -> parsed (add_dependency line p dep).
Proof.
  intros Hp. unfold add_dependency. assert (H : parsed (if graph_contains_vertex (dependency_graph p) dep then p else new_rule dep p))
    by (case_match; [done|by apply new_rule_ok]).
  destruct H as [Hr Hv Hc Hf]. split; cbn; [|intros v|intros t|intros t]; rewrite add_edge_contains; auto.
Qed.

Lemma target_line_ok line p : parsed p -> target_line line p = Abort \/ exists p', target_line line p = Done p' /\ parsed p'.
Proof.
  intros Hp. unfold target_line. destruct (strstr line [58]) as [colon|]; [right|by left]. eexists. split; [done|].
  set (l := terminate_whitespace (take colon line)).
  assert (H : forall deps q, parsed q -> parsed (fold_left (add_dependency l) deps q)).
  { intros deps. induction deps as [|d deps IH]; intros q Hq; [done|]. cbn. by apply IH, add_dependency_ok. }
  apply H. destruct (graph_contains_vertex (dependency_graph p) l) eqn:El; cbn.
  - destruct Hp as [Hr Hv Hc Hf]. split; cbn; [done|done|by intros t [= <-]|done].
  - destruct (new_rule_ok l p Hp) as ([Hr Hv Hc Hf] & Hl & _). split; cbn in *; [done|done|by intros t [= <-]|].
    intros t. destruct (first_target p) eqn:Ef; [intros [= <-]; by apply Hf|by intros [= <-]].
Qed.

Lemma recipe_line_ok n line p : parsed p -> recipe_line n line p = Abort \/ exists p', recipe_line n line p = Done p' /\ parsed p'.
Proof.
  intros [Hr Hv Hc Hf]. unfold recipe_line. destruct (curr_rule p) as [t|] eqn:Et; [right|by left].
  destruct (Hv t (Hc t eq_refl)) as [r Hrt]. rewrite Hrt. cbn [deref obind]. eexists. split; [done|].
  split; cbn; [done| |by intros ? [= <-]; apply Hc|done]. intros v H. destruct (decide (v = t)) as [->|Hne]; [rewrite lookup_insert_eq; eauto|].
  rewrite lookup_insert_ne by done. by apply Hv.
Qed.

Lemma parse_line_ok n raw p : parsed p -> parse_line n raw p = Abort \/ exists p', parse_line n raw p = Done p' /\ parsed p'.
Proof.
  intros Hp. unfold parse_line. destruct (strip_back_comments _) as [|a l]; [eauto|]. destruct (strip_back_whitespace _) as [|c b]; [eauto|].
  destruct (c =? 9); [by apply recipe_line_ok|]. destruct (is_makefile_target _); [by apply target_line_ok|by left].
Qed.

Lemma parse_lines_ok raw n p : parsed p -> parse_lines n raw p = Abort \/ exists p', parse_lines n raw p = Done p' /\ parsed p'.
Proof.
  revert n p. induction raw as [|l raw IH]; intros n p Hp; cbn [parse_lines]; [eauto|].
  destruct (parse_line_ok (n + 1) l p Hp) as [->|(p' & -> & Hp')]; [by left|]. by apply IH.
Qed.

Lemma add_goals_ok goals x : add_goals goals x = Abort \/
  exists x', add_goals goals x = Done x' /\ forall v, graph_contains_vertex x' v = graph_contains_vertex x v.
Proof.
  revert x. induction goals as [|t goals IH]; intros x; cbn [add_goals]; [eauto|]. destruct (graph_contains_vertex x t); [|by left].
  destruct (IH (graph_add_edge [] t x)) as [->|(x' & -> & H)]; [by left|right]. exists x'. split; [done|]. intros v. by rewrite H, add_edge_contains.
Qed.

(** What the plan and the threads rely on. *)
Definition ready (x : G) (m : gmap key rule_t) : Prop :=
  graph_contains_vertex x [] = true /\ forall v, graph_contains_vertex x v = true -> exists r, m !! v = Some r /\ state r = DEFAULT.

Lemma parser_ok file goals : parser_parse_makefile (G := G) file goals = Abort \/
  exists x m, parser_parse_makefile (G := G) file goals = Done (x, m) /\ ready x m.
Proof.
  unfold parser_parse_makefile. destruct file as [contents|]; [|by left].
  destruct (parse_lines_ok (getlines contents) 0 _ parse_start_ok) as [->|(p & -> & Hp)]; [by left|]. cbn [obind].
  destruct Hp as [Hr Hv _ _].
  assert (H : forall gs, (let! x := add_goals gs (dependency_graph p) in Done (x, zero_out_states (vertex_rules p))) = Abort \/
    exists x m, (let! x := add_goals gs (dependency_graph p) in Done (x, zero_out_states (vertex_rules p))) = Done (x, m) /\ ready x m).
  { intros gs. destruct (add_goals_ok gs (dependency_graph p)) as [->|(x & -> & Hx)]; [by left|right]. cbn [obind]. eexists _, _. split; [done|].
    split; [by rewrite Hx|]. intros v. rewrite Hx. intros Hc. destruct (Hv v Hc) as [r Hrv]. exists (set_state r 0).
    unfold zero_out_states. by rewrite lookup_fmap, Hrv. }
  destruct goals as [|g goals]; [destruct (first_target p); cbn [obind]; [apply H|by left]|apply H].
Qed.

End Parser.

(** ** The threads end *)

Section Measure.

Context {G F : Type} {LG : GraphLib G} {LF : FileSystem F}.
Variables (x : G) (N n : nat).

Definition commands_of (m : gmap key rule_t) (k : key) : nat := match m !! k with Some r => length (commands r) | None => O end.

(** The steps a thread takes before it waits or has taken a rule. *)
Definition look_weight : nat := N + 3.

Definition mark_weight : nat := n * look_weight + look_weight + 1.

Definition thread_weight (t : thread) : nat :=
  match t with
  | AtLock => look_weight
  | Scan i => N + 2 - i
  | Run _ cmds => length cmds + mark_weight + 1
  | Mark _ _ => mark_weight
  | Waiting | Returned => 0
  end.

Definition rule_weight (m : gmap key rule_t) (k : key) : nat := commands_of m k + mark_weight + 1.

Definition weight (c : config (F := F)) : nat := sum_list_with (rule_weight (rule_values c)) (rules c) + sum_list_with thread_weight (threads c).

Lemma sum_erase {A} (f : A -> nat) (l : list A) i a : l !! i = Some a -> (sum_list_with f (take i l ++ drop (S i) l) + f a = sum_list_with f l)%nat.
Proof. intros H. rewrite <- (take_drop_middle l i a H) at 3. rewrite !sum_list_with_app. cbn. lia. Qed.

Lemma sum_wake ts : (sum_list_with thread_weight (wake <$> ts) <= sum_list_with thread_weight ts + length ts * look_weight)%nat.
Proof. induction ts as [|t ts IH]; [done|]. destruct t; cbn in *; lia. Qed.

Lemma sum_ext {A} (f g : A -> nat) l : (forall a, f a = g a) -> sum_list_with f l = sum_list_with g l.
Proof. intros H. induction l as [|a l IH]; [done|]. cbn. by rewrite H, IH. Qed.

Lemma commands_mark m k r st j : m !! k = Some r -> commands_of (<[k := set_state r st]> m) j = commands_of m j.
Proof.
  intros Hr. unfold commands_of. destruct (decide (j = k)) as [->|Hne]; [by rewrite lookup_insert_eq, Hr|by rewrite lookup_insert_ne].
Qed.

Lemma value_lookup (m : gmap key rule_t) t r : graph_get_vertex_value x m t = Done r -> m !! t = Some r.
Proof. unfold graph_get_vertex_value. case_match; [|done]. destruct (m !! t); [|done]. by intros [= ->]. Qed.

Arguments mark_weight : simpl never.
Arguments look_weight : simpl never.

Lemma scan_weight th i c c' : (length (rules c) <= N)%nat -> threads c !! th = Some (Scan i) -> scan_step x th i c = Done c' ->
  (length (rules c') <= N)%nat /\ length (threads c') = length (threads c) /\ (weight c' < weight c)%nat.
Proof.
  intros HN Ht Hs. unfold scan_step in Hs. destruct (Nat.eqb_spec i (length (rules c))) as [->|_].
  { injection Hs as <-. unfold weight. cbn. rewrite length_insert. split; [done|split; [done|]]. pose proof (sum_insert thread_weight _ _ _ Waiting Ht). cbn in *. lia. }
  destruct (rules c !! i) as [k|] eqn:Hk; [|done]. cbn [deref obind] in Hs.
  destruct (run_status _ _ _ _) as [sc| | |]; [cbn [obind] in Hs|done..].
  destruct (graph_get_vertex_value _ _ _) as [r| | |] eqn:Er; [cbn [obind] in Hs|done..]. apply value_lookup in Er.
  pose proof (lookup_lt_Some _ _ _ Hk) as Hi. pose proof (sum_erase (rule_weight (rule_values c)) _ _ _ Hk) as He.
  assert (Hlen : length (take i (rules c) ++ drop (S i) (rules c)) = pred (length (rules c))) by (rewrite length_app, length_take, length_drop; lia).
  assert (Hrw : rule_weight (rule_values c) k = (length (commands r) + mark_weight + 1)%nat) by (unfold rule_weight, commands_of; by rewrite Er).
  assert (Hmk : (look_weight + 1 <= mark_weight)%nat) by (unfold mark_weight; lia).
  assert (Hw : forall t', (sum_list_with thread_weight (<[th := t']> (threads c)) + (N + 2 - i) = sum_list_with thread_weight (threads c) + thread_weight t')%nat)
    by (intros t'; apply (sum_insert thread_weight _ _ _ t' Ht)).
  repeat case_match; injection Hs as <-; unfold weight; cbn; rewrite ?length_insert, ?Hlen; (split; [lia|split; [done|]]); rewrite ?Hrw in He;
    [pose proof (Hw (Run k (commands r)))|pose proof (Hw (Mark k INVALID))|pose proof (Hw (Mark k VALID))|pose proof (Hw AtLock)|pose proof (Hw (Scan (S i)))]; cbn in *; lia.
Qed.

Lemma solve_weight th c c' : (length (rules c) <= N)%nat -> length (threads c) = n -> solve_step x th c = Done (Some c') ->
  (length (rules c') <= N)%nat /\ length (threads c') = n /\ (weight c' < weight c)%nat.
Proof.
  intros HN Hn Hs. unfold solve_step in Hs. destruct (threads c !! th) as [t|] eqn:Ht; [|done].
  pose proof (fun t' => sum_insert thread_weight _ _ _ t' Ht) as Hw. destruct t as [|i| |k [|cmd cmds]|k st|]; try done.
  - destruct (lock_free _); [|done]. injection Hs as <-. unfold weight. cbn. rewrite length_insert. split; [done|split; [done|]].
    case_match; [pose proof (Hw Returned)|pose proof (Hw (Scan 0))]; cbn in *; unfold look_weight in *; lia.
  - destruct (scan_step _ _ _ _) as [c1| | |] eqn:E; try done. injection Hs as <-. destruct (scan_weight th i c c1 HN Ht E) as (H1 & H2 & H3). rewrite H2. done.
  - injection Hs as <-. unfold weight. cbn. rewrite length_insert. split; [done|split; [done|]]. pose proof (Hw (Mark k VALID)). cbn in *. lia.
  - destruct (system _ _) as [r fs]. injection Hs as <-. unfold weight. cbn. rewrite length_insert. split; [done|split; [done|]].
    case_match; [pose proof (Hw (Run k cmds))|pose proof (Hw (Mark k INVALID))]; cbn in *; lia.
  - destruct (graph_get_vertex_value _ _ _) as [r| | |] eqn:Er; try done. apply value_lookup in Er. injection Hs as <-.
    unfold weight. cbn. rewrite length_fmap, length_insert. split; [done|split; [done|]].
    rewrite (sum_ext (rule_weight (<[k := set_state r st]> (rule_values c))) (rule_weight (rule_values c)))
      by (intros j; unfold rule_weight; by rewrite commands_mark).
    pose proof (sum_wake (<[th := AtLock]> (threads c))) as Hwk. rewrite length_insert, Hn in Hwk. pose proof (Hw AtLock) as H1. cbn in H1. unfold mark_weight in *. lia.
Qed.

(** A run of the threads without spurious wake-ups. *)
Definition solves (c c' : config (F := F)) : Prop := exists th, solve_step x th c = Done (Some c').

Lemma solves_bounded k c c' : (length (rules c) <= N)%nat -> length (threads c) = n -> nsteps solves k c c' -> (k <= weight c)%nat.
Proof.
  intros HN Hn Hk. revert HN Hn. induction Hk as [c|k c1 c2 c3 [th Hs] _ IH]; intros HN Hn; [lia|].
  destruct (solve_weight th c1 c2 HN Hn Hs) as (HN' & Hn' & Hw). specialize (IH HN' Hn'). lia.
Qed.

End Measure.

(** ** [parmake] *)

Section Parmake.

Context {G V D F : Type} {LG : GraphLib G} {HG : GraphLaws G} {LV : SetLib V} {HV : SetLaws V} {LD : DictLib D} {HD : DictLaws D} {LF : FileSystem F}.

Abbreviation run_parmake := (parmake (G := G) (V := V) (D := D) (F := F)).

(** What the threads start from. *)
Record started_from (n : nat) (x' : G) (c0 : config (F := F)) : Prop := {
  sf_start : exists rs m fs, c0 = par_start rs m fs n /\ (forall t, t ∈ rs -> exists r, m !! t = Some r /\ state r = DEFAULT);
  sf_nodup : NoDup (rules c0);
  sf_ordered : ordered x' (rules c0);
  sf_vertex t : t ∈ rules c0 -> graph_contains_vertex x' t = true;
}.

Lemma parmake_start makefile n targets fs failed x' c0 :
  run_parmake makefile n targets fs = Done (failed, x', c0) -> started_from n x' c0.
Proof.
  unfold parmake. destruct (parser_ok (G := G) makefile targets) as [->|(x & m & -> & Hroot & Hm)]; [done|]. cbn [obind].
  destruct (plan_ok (V := V) (D := D) x Hroot) as [[-> _]|(fl & y & rs & -> & _ & Hnd & Hin & Hord & Hag)]; cbn [obind]; [done|]. intros [= <- <- <-].
  assert (Hv : forall t, t ∈ rs -> graph_contains_vertex x t = true).
  { intros t (goal & Hg & _ & Hr)%Hin. apply neighbors_vertex in Hg. clear -Hg Hr HG. induction Hr as [|a b c Hab _ IH]; [done|].
    by apply IH, (neighbors_vertex x a). }
  split; cbn; [exists rs, m, fs; split; [done|auto]|done|done|intros t Ht; by apply Hag].
Qed.

(** What every reachable state satisfies. *)
Lemma started_inv n x' c0 c : (forall (fs : F) p t, stat fs p = Some t -> 0 <= t < 2147483648) ->
  started_from n x' c0 -> rtc (par_step x') c0 c -> par_inv x' (rules c0) c.
Proof.
  intros Hstat [(rs & m & fs & -> & Hm) Hnd Hord Hv] Hr. by apply (reachable_inv Hstat x' rs Hnd Hord Hv m fs n c).
Qed.

(** C7. The plan of [parmake] for any makefile it accepts: the goals it gives up
    are exactly those from which a cycle of dependencies is reachable; its list of
    rules holds exactly what the other goals depend on, directly or not, each rule
    once and behind all its dependencies, and the graph the threads use agrees with
    the makefile's on them.  Only when a goal is given up can the plan be undefined,
    because the keys of removed vertices are compared afterwards. *)
Theorem parmake_plan_correct makefile n targets fs :
  run_parmake makefile n targets fs = Abort \/
  exists x m, parser_parse_makefile makefile targets = Done (x, m) /\
  ((run_parmake makefile n targets fs = Undef /\ exists goal v, depends x [] goal /\ rtc (depends x) goal v /\ tc (depends x) v v) \/
   exists failed x' rs,
    run_parmake makefile n targets fs = Done (failed, x', par_start rs m fs n)
    /\ (forall t, t ∈ failed <-> depends x [] t /\ exists v, rtc (depends x) t v /\ tc (depends x) v v)
    /\ NoDup rs
    /\ (forall v, v ∈ rs <-> exists goal, depends x [] goal /\ (goal ∉ failed) /\ rtc (depends x) goal v)
    /\ (forall l1 t l2 d, rs = l1 ++ t :: l2 -> depends x t d -> d ∈ l1)
    /\ (forall t d, t ∈ rs -> depends x' t d <-> depends x t d)).
Proof.
  unfold parmake. destruct (parser_ok (G := G) makefile targets) as [->|(x & m & -> & Hroot & Hm)]; [by left|right]. cbn [obind]. exists x, m. split; [done|].
  destruct (plan_ok (V := V) (D := D) x Hroot) as [[-> (goal & Hg & v & Hv & Hc)]|(failed & x' & rs & -> & Hfail & Hnd & Hin & Hord & Hag)]; cbn [obind]; [left; split; [done|by exists goal, v]|right].
  exists failed, x', rs. split; [done|]. split; [done|]. split; [done|]. split; [|split].
  - intros v. rewrite Hin. setoid_rewrite Hfail. split; intros (goal & Hg & Hn & Hr); exists goal; (split; [done|split; [|done]]); [by intros [_ ?]|by intros ?; apply Hn].
  - intros l1 t l2 d Heq Hd. apply (Hord l1 t l2); [done|]. apply Hag; [|done]. rewrite Heq. set_solver.
  - intros t d Ht. by apply Hag.
Qed.

(** C6. However the threads of [parmake] interleave, the commands of a rule are
    started at most once, and those of a target that is not a file only after every
    rule it depends on has ended successfully. *)
Theorem parmake_dependencies makefile n targets fs failed x' c0 c :
  (forall (fs : F) p t, stat fs p = Some t -> 0 <= t < 2147483648) ->
  run_parmake makefile n targets fs = Done (failed, x', c0) ->
  rtc (par_step x') c0 c ->
  NoDup (started (log c))
  /\ forall l1 t l2 d, log c = l1 ++ Started t false :: l2 -> depends x' t d -> Finished d VALID ∈ l1.
Proof.
  intros Hstat Hp Hr. destruct (started_inv n x' c0 c Hstat (parmake_start _ _ _ _ _ _ _ Hp) Hr) as [_ [H1 _ H3] _].
  split; [done|]. intros l1 t l2 d. apply H3.
Qed.

(** C8. [parmake] ends: in every state its threads can reach no step is undefined,
    some thread can go on unless all have returned, no run without spurious wake-ups
    is longer than a bound, and when the threads have returned every planned rule
    has been decided, as the log says. *)
Theorem parmake_terminates makefile n targets fs failed x' c0 c :
  (forall (fs : F) p t, stat fs p = Some t -> 0 <= t < 2147483648) ->
  run_parmake makefile n targets fs = Done (failed, x', c0) ->
  rtc (par_step x') c0 c ->
  (forall th, exists r, solve_step x' th c = Done r)
  /\ ((exists t, t ∈ threads c /\ t <> Returned) -> exists c', solves x' c c')
  /\ (exists bound, forall k c', nsteps (solves x') k c c' -> (k <= bound)%nat)
  /\ ((exists t, t ∈ threads c /\ t = Returned) -> (forall t, t ∈ threads c -> t = Returned) ->
      forall t, t ∈ rules c0 -> exists r, rule_values c !! t = Some r /\ (state r = VALID \/ state r = INVALID) /\ Finished t (state r) ∈ log c).
Proof.
  intros Hstat Hp Hr. pose proof (parmake_start _ _ _ _ _ _ _ Hp) as Hs. pose proof (started_inv n x' c0 c Hstat Hs Hr) as Hinv.
  destruct Hs as [_ Hnd Hord Hv]. split; [|split; [|split]].
  - intros th. destruct (solve_step_ok Hstat x' (rules c0) Hnd Hord Hv c th Hinv) as (r & Hd & _). by exists r.
  - intros Ht. destruct (progress_ok Hstat x' (rules c0) Hnd Hord Hv c Hinv Ht) as (th & c' & H). exists c', th. exact H.
  - exists (weight (length (rules c)) (length (threads c)) c). intros k c' Hk. by apply (solves_bounded x' _ _ k c c').
  - intros (t0 & Ht0 & ->) Hall t Ht. destruct Hinv as [Hpl _ Hlk]. pose proof (lk_returned _ Hlk Ht0) as Hrules.
    assert (Hb : busy (threads c) = []).
    { clear -Hall. induction (threads c) as [|u l IH]; [done|]. rewrite (Hall u) by (by left). apply IH. intros v Hv'. apply Hall. by right. }
    destruct (pc_state _ _ Hpl t Ht) as (r & Hrv & [[_ Hin]|(Hst & _ & Hf)]); [|by exists r]. rewrite Hrules, Hb in Hin. by apply elem_of_nil in Hin.
Qed.

End Parmake.

(** ** An implementation of the libraries *)

Module AdjacencyList.

Record graph := Graph { verts : list key; edges : list (key * key) }.

Definition has (x : graph) (v : key) : bool := bool_decide (v ∈ verts x).

#[export] Instance graph_lib : GraphLib graph := {
  graph_create := Graph [] [];
  graph_contains_vertex := has;
  graph_vertices := verts;
  graph_neighbors x a := snd <$> filter (fun e => e.1 = a /\ e.2 ∈ verts x) (edges x);
  graph_set_vertex_value k x :=
    if has x k then x else Graph (verts x ++ [k]) (filter (fun e => e.1 <> k /\ e.2 <> k) (edges x));
  graph_add_edge a b x := Graph (verts x) (edges x ++ [(a, b)]);
  graph_remove_vertex k x := Graph (filter (fun v => v <> k) (verts x)) (filter (fun e => e.1 <> k /\ e.2 <> k) (edges x));
}.

Lemma in_neighbors (x : graph) a b : b ∈ graph_neighbors x a <-> (a, b) ∈ edges x /\ b ∈ verts x.
Proof.
  cbn. rewrite list_elem_of_fmap. split.
  - intros ([a' b'] & -> & H). apply list_elem_of_filter in H as [[<- Hb] Hin]. done.
  - intros [Hin Hb]. exists (a, b). split; [done|]. by apply list_elem_of_filter.
Qed.

#[export] Instance graph_laws : GraphLaws graph.
Proof.
  split.
  - intros x v. cbn. unfold has. apply bool_decide_eq_true.
  - intros x a b H. apply in_neighbors in H as [_ H]. cbn. unfold has. by apply bool_decide_eq_true.
  - done.
  - intros x k v. cbn. destruct (has x k) eqn:Ek; unfold has in *.
    + apply bool_decide_eq_true in Ek. rewrite <- bool_decide_or. apply bool_decide_ext. naive_solver.
    + rewrite <- bool_decide_or. apply bool_decide_ext. cbn. set_solver.
  - intros x k a Ha. cbn in *. destruct (has x k) eqn:Ek; [done|]. unfold has in *. apply bool_decide_eq_true in Ha. apply bool_decide_eq_false in Ek.
    cbn. f_equal. induction (edges x) as [|[s t] es IH]; [done|]. rewrite !filter_cons. cbn.
    repeat case_decide; rewrite ?filter_cons; cbn; repeat case_decide; rewrite ?IH; try done; exfalso; set_solver.
  - done.
  - intros x a b c d Ha Hb. rewrite !in_neighbors. cbn in *. unfold has in *. apply bool_decide_eq_true in Hb. set_solver.
  - intros x k v Hk. cbn. unfold has. cbn. case_bool_decide as E; case_bool_decide as E2; [|case_bool_decide as E3..]; subst; cbn; try done;
      rewrite list_elem_of_filter in E; try case_bool_decide; naive_solver.
  - intros x k a b Hk Ha. rewrite !in_neighbors. cbn. rewrite !list_elem_of_filter. cbn. naive_solver.
Qed.

#[export] Instance set_lib : SetLib (list key) := {
  shallow_set_create := [];
  set_contains s v := bool_decide (v ∈ s);
  set_add k s := k :: s;
}.

#[export] Instance set_laws : SetLaws (list key).
Proof. split; [done|]. intros s k v. cbn. rewrite <- bool_decide_or. apply bool_decide_ext. by rewrite elem_of_cons. Qed.

#[export] Instance dict_lib : DictLib (gmap key Z) := {
  string_to_int_dictionary_create := ∅;
  dictionary_get d k := d !! k;
  dictionary_set k v d := <[k := v]> d;
  dictionary_keys d := (map_to_list d).*1;
}.

#[export] Instance dict_laws : DictLaws (gmap key Z).
Proof.
  split.
  - intros k. apply lookup_empty.
  - intros d k v j. cbn. case_decide; [subst; apply lookup_insert_eq|by apply lookup_insert_ne].
  - intros d k. cbn. rewrite list_elem_of_fmap. split.
    + intros ([j v] & -> & H%elem_of_map_to_list). cbn. congruence.
    + destruct (d !! k) as [v|] eqn:E; [|done]. intros _. exists (k, v). split; [done|]. by apply elem_of_map_to_list.
  - intros d. apply NoDup_fst_map_to_list.
Qed.

(** A file system with the given files, whose commands succeed unless they are [false]. *)
#[export] Instance file_system : FileSystem (gmap key Z) := {
  access fs p := bool_decide (is_Some (fs !! p));
  stat fs p := t ← fs !! p; if (0 <=? t) && (t <? 2147483648) then Some t else None;
  system cmd fs := (if strcmp cmd [102; 97; 108; 115; 101] =? 0 then 1 else 0, fs);
}.

Lemma stat_clock (fs : gmap key Z) p t : stat fs p = Some t -> 0 <= t < 2147483648.
Proof. cbn. destruct (fs !! p) as [u|]; cbn; [|done]. case_match eqn:E; [|done]. intros [= <-]. lia. Qed.

(** The makefile "a: b c\n\tx\nb: c\nc: d\n\ty\nd:\n\tz\ne: f\nf: e\n". *)
Definition makefile : key :=
  [97; 58; 32; 98; 32; 99; 10; 9; 120; 10; 98; 58; 32; 99; 10; 99; 58; 32; 100; 10; 9; 121; 10; 100; 58; 10; 9; 122; 10; 101; 58; 32; 102; 10; 102; 58; 32; 101; 10].

End AdjacencyList.

Import AdjacencyList.

Abbreviation run n goals fs := (parmake (G := graph) (V := list key) (D := gmap key Z) (F := gmap key Z) (Some makefile) n goals fs).

(** [a] is built; [e] and [f], which nobody asks for, are not. *)
Lemma parmake_plan_correct_witness :
  exists x m failed x' rs, parser_parse_makefile (Some makefile) [[97]] = Done (x, m)
    /\ run 2 [[97]] ∅ = Done (failed, x', par_start rs m ∅ 2) /\ failed = [] /\ rs = [[100]; [99]; [98]; [97]] /\ NoDup rs.
Proof.
  destruct (parmake_plan_correct (G := graph) (V := list key) (D := gmap key Z) (F := gmap key Z) (Some makefile) 2 [[97]] ∅)
    as [H|(x & m & H1 & [[H _]|(failed & x' & rs & H2 & _ & H3 & _)])]; [vm_compute in H; discriminate H|vm_compute in H; discriminate H|].
  exists x, m, failed, x', rs. split; [exact H1|]. split; [exact H2|]. vm_compute in H1, H2. injection H1 as <- <-. injection H2 as <- <- <-.
  split; [reflexivity|]. split; [reflexivity|exact H3].
Defined.

(** With [e] as a second goal its key is freed and then compared. *)
Example cyclic_goal_undefined : run 2 [[97]; [101]] ∅ = Undef.
Proof. vm_compute. reflexivity. Qed.

Lemma run_schedule_steps {G F} `{GraphLib G} `{FileSystem F} (x : G) sch (c c' : config (F := F)) :
  run_schedule x sch c = Done c' -> rtc (par_step x) c c'.
Proof.
  revert c. induction sch as [|th sch IH]; intros c; cbn [run_schedule]; [by intros [= <-]|].
  destruct (solve_step x th c) as [[c1|]| | |] eqn:E; cbn [obind]; [|apply IH|done..]. intros Hr. eapply rtc_l; [by eapply par_solve|by apply IH].
Qed.

(** Two threads, each in turn: [d], then [c] and [b] in the wrong order for [a] to wait. *)
Definition schedule : list nat := concat (replicate 50 [0%nat; 1%nat]).

Definition after (n : nat) (goals : list key) (fs : gmap key Z) (sch : list nat) : outcome (graph * config * config) :=
  let! (r, c0) := run n goals fs in
  let (_, x') := r in
  let! c := run_schedule x' sch c0 in Done (x', c0, c).

Lemma after_reached n goals fs sch x' c0 c : after n goals fs sch = Done (x', c0, c) ->
  exists failed, run n goals fs = Done (failed, x', c0) /\ rtc (par_step x') c0 c.
Proof.
  unfold after. destruct (run n goals fs) as [[[failed y] d0]| | |]; cbn [obind]; [|done..].
  destruct (run_schedule y sch d0) as [d| | |] eqn:E; cbn [obind]; [|done..]. intros [= <- <- <-]. exists failed. split; [done|by eapply run_schedule_steps].
Qed.

Lemma after_facts :
  match after 2 [[97]] ∅ schedule with
  | Done (x', c0, c) => threads c0 = [AtLock; AtLock] /\ rules c0 = [[100]; [99]; [98]; [97]]
      /\ threads c = [Returned; Returned] /\ started (log c) = [[100]; [99]; [98]; [97]]
  | _ => False
  end.
Proof. vm_compute. auto. Qed.

Lemma after_run : exists failed x' c0 c, run 2 [[97]] ∅ = Done (failed, x', c0) /\ rtc (par_step x') c0 c
  /\ threads c0 = [AtLock; AtLock] /\ rules c0 = [[100]; [99]; [98]; [97]]
  /\ threads c = [Returned; Returned] /\ started (log c) = [[100]; [99]; [98]; [97]].
Proof.
  pose proof after_facts as H. destruct (after 2 [[97]] ∅ schedule) as [[[x' c0] c]| | |] eqn:E; [|contradiction..].
  destruct (after_reached _ _ _ _ _ _ _ E) as (failed & Hrun & Hr). exists failed, x', c0, c. exact (conj Hrun (conj Hr H)).
Qed.

Lemma parmake_dependencies_witness : exists failed x' c0 (c : config (F := gmap key Z)), run 2 [[97]] ∅ = Done (failed, x', c0)
  /\ started (log c) = [[100]; [99]; [98]; [97]] /\ NoDup (started (log c))
  /\ (forall l1 t l2 d, log c = l1 ++ Started t false :: l2 -> depends x' t d -> Finished d VALID ∈ l1).
Proof.
  destruct after_run as (failed & x' & c0 & c & Hrun & Hr & _ & _ & _ & Hl). exists failed, x', c0, c.
  split; [exact Hrun|split; [exact Hl|]]. exact (parmake_dependencies (G := graph) (V := list key) (D := gmap key Z) (F := gmap key Z) (Some makefile) 2 [[97]] ∅ failed x' c0 c stat_clock Hrun Hr).
Defined.

Lemma parmake_terminates_witness : exists failed x' c0 (c : config (F := gmap key Z)), run 2 [[97]] ∅ = Done (failed, x', c0)
  /\ threads c = [Returned; Returned]
  /\ (exists r, rule_values c !! [97] = Some r /\ (state r = VALID \/ state r = INVALID) /\ Finished [97] (state r) ∈ log c)
  /\ (exists c', solves x' c0 c').
Proof.
  destruct after_run as (failed & x' & c0 & c & Hrun & Hr & Hts0 & Hrs & Hts & _). exists failed, x', c0, c.
  destruct (parmake_terminates (G := graph) (V := list key) (D := gmap key Z) (F := gmap key Z) (Some makefile) 2 [[97]] ∅ failed x' c0 c stat_clock Hrun Hr) as (_ & _ & _ & H).
  destruct (parmake_terminates (G := graph) (V := list key) (D := gmap key Z) (F := gmap key Z) (Some makefile) 2 [[97]] ∅ failed x' c0 c0 stat_clock Hrun (rtc_refl _ _)) as (_ & H0 & _).
  split; [exact Hrun|clear Hrun; split; [exact Hts|split]].
  - rewrite Hts, Hrs in H. apply H; [exists Returned; split; [by left|done]| |set_solver]. intros t Ht. set_solver.
  - rewrite Hts0 in H0. apply H0. exists AtLock. split; [by left|done].
Defined.

(** A target that is a file does not wait for the commands of a dependency that is
    not: with the makefile "a: b\n\tx\nb:\n\ty\n" and a file [a], the commands of [a]
    can start while those of [b] are running. *)
Example file_target_early :
  match parmake (V := list key) (D := gmap key Z) (Some [97; 58; 32; 98; 10; 9; 120; 10; 98; 58; 10; 9; 121; 10]) 2 [] {[ [97] := 5 ]} with
  | Done (_, x', c0) => match run_schedule x' [0; 0; 1; 1; 1]%nat c0 with Done c => log c = [Started [98] false; Started [97] true] | _ => False end
  | _ => False
  end.
Proof. vm_compute. reflexivity. Qed.
