(* ===== verification/Lookup.v ===== *)
(** * [mad_mad_access_patterns/]: lookup in a tree stored in a file

    [lookup1.c] reads nodes with [fseek], [fread] and [fgetc], [lookup2.c] through a
    memory map; a file is its bytes.  [char] is signed, so the byte 255 read into
    a [char] equals [EOF].  [usable] is what the allocator really gives for a
    request. *)

From S2P Require Import Prelude CString CMem.
Open Scope Z_scope.

Definition BINTREE_ROOT_NODE_OFFSET : Z := 4.
Definition BINTREE_HEADER_STRING : list Z := [66; 84; 82; 69].

(** The metadata of a node; the price as the bits of its [float]. *)
Record BinaryTreeNode := Node {
  left_child : Z;
  right_child : Z;
  count : Z;
  price : Z;
}.

Definition NODE_SIZE : nat := 16.

(** What the program prints for a word. *)
Inductive printed :=
| Found (word : list Z) (count price : Z)
| NotFound (word : list Z).

(** The node whose bytes start the list. *)
Definition node_of (bytes : list Z) : BinaryTreeNode :=
  let m := fun a => nth (Z.to_nat a) bytes 0 in
  Node (ld32 m 0) (ld32 m 4) (ld32 m 8) (ld32 m 12).

(** ** [lookup1.c] *)

(** The characters stored before the loop ends, and the one that ended it; [None]
    is [EOF]. *)
Fixpoint read_loop (room : nat) (input : list Z) {struct input} : list Z * option Z :=
  match input with
  | [] => ([], None)
  | ch :: input =>
      if ch =? 255 then ([], None)
      else if ch =? 0 then ([], Some ch)
      else match room with
           | O => ([], Some ch)
           | S room => let (str, ended) := read_loop room input in (ch :: str, ended)
           end
  end.

Section Lookup1.

Variable usable : nat -> nat.

(** A longer word is stored with one character more, and the terminator behind it. *)
Definition read_at_most (len : nat) (input : list Z) : outcome (list Z) :=
  let (str, ended) := read_loop len input in
  match ended with
  | Some ch =>
      if ch =? 0 then Done str
      else if (length str + 1 <? usable (len + 1))%nat then Done (str ++ [ch])
      else Undef
  | None => Done str
  end.

Fixpoint search_word1 (fuel : nat) (target_word : list Z) (input_file : list Z) (off : Z) : outcome printed :=
  match fuel with
  | O => OutOfFuel
  | S fuel =>
      if off =? 0 then Done (NotFound target_word)
      else
        let input := drop (Z.to_nat off) input_file in
        if (length input <? NODE_SIZE)%nat then Undef
        else
          let node := node_of input in
          let! curr_word := read_at_most (length target_word) (drop NODE_SIZE input) in
          if strcmp target_word curr_word =? 0 then Done (Found target_word (count node) (price node))
          else if strcmp target_word curr_word <? 0 then search_word1 fuel target_word input_file (left_child node)
          else search_word1 fuel target_word input_file (right_child node)
  end.

(** [strncmp] of the bytes [fread] has set with the header. *)
Fixpoint header_differs (buff header : list Z) {struct header} : outcome bool :=
  match header with
  | [] => Done false
  | h :: header =>
      match buff with
      | [] => Undef
      | b :: buff => if b =? h then header_differs buff header else Done true
      end
  end.

Fixpoint each_word (search : list Z -> outcome printed) (words : list (list Z)) : outcome (list printed) :=
  match words with
  | [] => Done []
  | word :: words =>
      let! p := search word in
      let! ps := each_word search words in
      Done (p :: ps)
  end.

(** The exit code and what is printed on standard output; [None] is a file that
    cannot be opened. *)
Definition lookup1 (fuel : nat) (data_file : option (list Z)) (words : list (list Z)) : outcome (Z * list printed) :=
  match words with
  | [] => Done (1, [])
  | _ =>
      match data_file with
      | None => Done (2, [])
      | Some input_file =>
          let! bad := header_differs (take 4 input_file) BINTREE_HEADER_STRING in
          if bad then Done (2, [])
          else
            let! ps := each_word (fun word => search_word1 fuel word input_file BINTREE_ROOT_NODE_OFFSET) words in
            Done (0, ps)
      end
  end.

End Lookup1.

(** ** [lookup2.c] *)

(** The mapping: the last page is filled with zeros. *)
Definition mmap (file : list Z) : list Z := file ++ replicate (Z.to_nat ((- Z.of_nat (length file)) `mod` 4096)) 0.

Fixpoint search_word2 (fuel : nat) (ptr : list Z) (target_word : list Z) (off : Z) : outcome printed :=
  match fuel with
  | O => OutOfFuel
  | S fuel =>
      if off =? 0 then Done (NotFound target_word)
      else
        let node_ptr := drop (Z.to_nat off) ptr in
        if (length node_ptr <? NODE_SIZE)%nat then Undef
        else
          let node := node_of node_ptr in
          let word := drop NODE_SIZE node_ptr in
          let curr_word := until_zero word in
          if (length curr_word <? length word)%nat then
            if strcmp target_word curr_word =? 0 then Done (Found target_word (count node) (price node))
            else if strcmp target_word curr_word <? 0 then search_word2 fuel ptr target_word (left_child node)
            else search_word2 fuel ptr target_word (right_child node)
          else Undef
  end.

(** An empty file cannot be mapped. *)
Definition lookup2 (fuel : nat) (data_file : option (list Z)) (words : list (list Z)) : outcome (Z * list printed) :=
  match words with
  | [] => Done (1, [])
  | _ =>
      match data_file with
      | None => Done (2, [])
      | Some [] => Done (3, [])
      | Some file =>
          let ptr := mmap file in
          let! bad := header_differs ptr BINTREE_HEADER_STRING in
          if bad then Done (2, [])
          else
            let! ps := each_word (fun word => search_word2 fuel ptr word BINTREE_ROOT_NODE_OFFSET) words in
            Done (0, ps)
      end
  end.
