(* ===== verification/LookupSpec.v ===== *)
(** * Both lookups find what the tree holds

    On a file that stores a search tree, the version that reads and the version that
    maps the file print the same: the entry of every word that is in the tree.
    The version that reads writes one byte behind its buffer whenever it meets a
    word longer than the one looked for. *)

From stdpp Require Import sorting.
From S2P Require Import Prelude CString CMem Lookup.
Open Scope Z_scope.

Inductive tree :=
| Leaf
| Tree (left right : tree) (word : list Z) (count price : Z).

(** The tree is stored at the offset. *)
Fixpoint stored (file : list Z) (off : Z) (t : tree) : Prop :=
  match t with
  | Leaf => off = 0
  | Tree l r w c p =>
      0 < off /\ (0 ∉ w) /\ (255 ∉ w) /\
      exists bytes rest lo ro, drop (Z.to_nat off) file = bytes ++ w ++ 0 :: rest /\ length bytes = NODE_SIZE
        /\ node_of bytes = Node lo ro c p /\ stored file lo l /\ stored file ro r
  end.

Fixpoint height (t : tree) : nat :=
  match t with Leaf => O | Tree l r _ _ _ => S (Nat.max (height l) (height r)) end.

(** The entries from left to right. *)
Fixpoint entries (t : tree) : list (list Z * (Z * Z)) :=
  match t with Leaf => [] | Tree l r w c p => entries l ++ (w, (c, p)) :: entries r end.

(** A search tree: the words are in order. *)
Definition ordered (t : tree) : Prop := StronglySorted (fun a b => str_lt a.1 b.1) (entries t).

(** What a lookup is to print. *)
Fixpoint answer (es : list (list Z * (Z * Z))) (w : list Z) : printed :=
  match es with
  | [] => NotFound w
  | (w', (c, p)) :: es => if decide (w' = w) then Found w c p else answer es w
  end.

(** ** Nodes and words *)

Lemma node_of_app bytes rest : length bytes = NODE_SIZE -> node_of (bytes ++ rest) = node_of bytes.
Proof.
  intros Hl. unfold node_of, NODE_SIZE in *. assert (Hn : forall a, (Z.to_nat a < 16)%nat -> nth (Z.to_nat a) (bytes ++ rest) 0 = nth (Z.to_nat a) bytes 0) by (intros a Ha; apply app_nth1; lia).
  assert (H32 : forall a, 0 <= a <= 12 -> ld32 (fun a => nth (Z.to_nat a) (bytes ++ rest) 0) a = ld32 (fun a => nth (Z.to_nat a) bytes 0) a).
  { intros a Ha. unfold ld32. cbn [ld_le]. rewrite !Hn by lia. done. }
  by rewrite !H32 by lia.
Qed.

Lemma read_loop_word room w rest : 0 ∉ w -> 255 ∉ w ->
  read_loop room (w ++ 0 :: rest) = if (length w <=? room)%nat then (w, Some 0) else (take room w, w !! room).
Proof.
  revert room. induction w as [|c w IH]; intros room H0 H255; cbn [app read_loop]; [done|].
  apply not_elem_of_cons in H0 as [Hc0 H0], H255 as [Hc255 H255]. rewrite (proj2 (Z.eqb_neq c 255)), (proj2 (Z.eqb_neq c 0)) by done.
  destruct room as [|room]; [done|]. rewrite IH by done. cbn [length Nat.leb take]. by destruct (length w <=? room)%nat.
Qed.

(** One character more than the target decides the comparison. *)
Lemma strcmp_prefix s w : (length s < length w)%nat -> strcmp s (take (length s + 1) w) = strcmp s w.
Proof.
  revert w. induction s as [|a s IH]; intros [|b w] Hl; cbn in *; try lia. do 2 (case_bool; [done|]). apply IH. lia.
Qed.

Lemma read_at_most_ok usable s w rest : 0 ∉ w -> 255 ∉ w -> (length s + 2 <= usable (length s + 1))%nat ->
  exists cw, read_at_most usable (length s) (w ++ 0 :: rest) = Done cw /\ strcmp s cw = strcmp s w.
Proof.
  intros H0 H255 Hu. unfold read_at_most. rewrite read_loop_word by done. destruct (Nat.leb_spec (length w) (length s)) as [Hle|Hlt].
  - exists w. done.
  - destruct (lookup_lt_is_Some_2 w (length s) Hlt) as [c Hc]. rewrite Hc. assert (c <> 0) by (intros ->; by apply H0, list_elem_of_lookup_2 with (length s)).
    rewrite (proj2 (Z.eqb_neq c 0)) by done. rewrite length_take, (proj2 (Nat.ltb_lt _ _)) by lia. eexists. split; [done|].
    rewrite <- (strcmp_prefix s w Hlt). by rewrite Nat.add_1_r, (take_S_r w (length s) c Hc).
Qed.

(** The reading version stores a terminator behind the buffer of an exact allocation. *)
Lemma read_at_most_overflow (s w rest : list Z) : 0 ∉ w -> 255 ∉ w -> (length s < length w)%nat ->
  read_at_most (fun n => n) (length s) (w ++ 0 :: rest) = Undef.
Proof.
  intros H0 H255 Hlt. unfold read_at_most. rewrite read_loop_word by done. rewrite (proj2 (Nat.leb_gt _ _)) by done.
  destruct (lookup_lt_is_Some_2 w (length s) Hlt) as [c Hc]. rewrite Hc. assert (c <> 0) by (intros ->; by apply H0, list_elem_of_lookup_2 with (length s)).
  rewrite (proj2 (Z.eqb_neq c 0)) by done. by rewrite length_take, (proj2 (Nat.ltb_ge _ _)) by lia.
Qed.

(** ** The searches *)

Fixpoint tree_search (t : tree) (w : list Z) : printed :=
  match t with
  | Leaf => NotFound w
  | Tree l r w' c p => if strcmp w w' =? 0 then Found w c p else if strcmp w w' <? 0 then tree_search l w else tree_search r w
  end.

(** The bytes of a stored node. *)
Lemma stored_node file off l r w c p : stored file off (Tree l r w c p) ->
  exists rest lo ro, off <> 0 /\ (0 ∉ w) /\ (255 ∉ w) /\ (NODE_SIZE <= length (drop (Z.to_nat off) file))%nat
    /\ drop NODE_SIZE (drop (Z.to_nat off) file) = w ++ 0 :: rest /\ node_of (drop (Z.to_nat off) file) = Node lo ro c p
    /\ stored file lo l /\ stored file ro r.
Proof.
  intros (Hoff & H0 & H255 & bytes & rest & lo & ro & Hd & Hl & Hn & Hsl & Hsr). exists rest, lo, ro. rewrite Hd, node_of_app by done.
  rewrite drop_app_length' by done. rewrite length_app. repeat split; try done; lia.
Qed.

Lemma search_word1_ok usable fuel file t w off : (length w + 2 <= usable (length w + 1))%nat -> stored file off t -> (height t < fuel)%nat ->
  search_word1 usable fuel w file off = Done (tree_search t w).
Proof.
  intros Hu. revert t off. induction fuel as [|fuel IH]; intros t off Hs Hf; [lia|]. destruct t as [|l r w' c p]; [by rewrite Hs|].
  apply stored_node in Hs as (rest & lo & ro & Hoff & H0 & H255 & Hlen & Hd & Hn & Hl & Hr). cbn [search_word1 tree_search height] in *.
  rewrite (proj2 (Z.eqb_neq off 0)) by done. rewrite (proj2 (Nat.ltb_ge _ _)), Hd, Hn by done.
  destruct (read_at_most_ok usable w w' rest H0 H255 Hu) as (cw & -> & Hcmp). cbn [obind left_child right_child count price]. rewrite Hcmp.
  case_bool; [done|]. case_bool; (apply IH; [done|lia]).
Qed.

Lemma search_word2_ok fuel ptr t w off : stored ptr off t -> (height t < fuel)%nat -> search_word2 fuel ptr w off = Done (tree_search t w).
Proof.
  revert t off. induction fuel as [|fuel IH]; intros t off Hs Hf; [lia|]. destruct t as [|l r w' c p]; [by rewrite Hs|].
  apply stored_node in Hs as (rest & lo & ro & Hoff & H0 & H255 & Hlen & Hd & Hn & Hl & Hr). cbn [search_word2 tree_search height] in *.
  rewrite (proj2 (Z.eqb_neq off 0)) by done. rewrite (proj2 (Nat.ltb_ge _ _)), Hd, Hn by done. rewrite until_zero_app by done.
  rewrite (proj2 (Nat.ltb_lt _ _)) by (rewrite length_app; cbn; lia). cbn [left_child right_child count price].
  case_bool; [done|]. case_bool; (apply IH; [done|lia]).
Qed.

Lemma stored_mmap file off t : stored file off t -> stored (mmap file) off t.
Proof.
  revert off. induction t as [|l IHl r IHr w c p]; intros off; cbn [stored]; [done|].
  intros (Hoff & H0 & H255 & bytes & rest & lo & ro & Hd & Hl & Hn & Hsl & Hsr). split; [done|]. split; [done|]. split; [done|].
  exists bytes, (rest ++ replicate (Z.to_nat ((- Z.of_nat (length file)) `mod` 4096)) 0), lo, ro. split; [|split; [done|split; [done|split; [by apply IHl|by apply IHr]]]].
  unfold mmap. assert (Z.to_nat off <= length file)%nat.
  { destruct (decide (Z.to_nat off <= length file)%nat); [done|]. rewrite drop_ge in Hd by lia. exfalso. apply (f_equal length) in Hd. rewrite length_app, Hl in Hd. unfold NODE_SIZE in Hd. cbn in Hd. lia. }
  rewrite drop_app_le, Hd by done. by rewrite <- !app_assoc.
Qed.

(** ** The search tree *)

Lemma answer_app_out es1 es2 w : (forall e, e ∈ es1 -> e.1 <> w) -> answer (es1 ++ es2) w = answer es2 w.
Proof.
  induction es1 as [|[w' [c p]] es1 IH]; intros Hn; [done|]. cbn [app answer]. rewrite decide_False by (apply (Hn (w', (c, p))); by left).
  apply IH. intros e He. apply Hn. by right.
Qed.

Lemma answer_app_in es1 es2 w : (forall e, e ∈ es2 -> e.1 <> w) -> answer (es1 ++ es2) w = answer es1 w.
Proof.
  intros Hn. induction es1 as [|[w' [c p]] es1 IH]; cbn [app answer].
  - rewrite <- (app_nil_r es2), answer_app_out by done. done.
  - case_decide; [done|apply IH].
Qed.

Lemma tree_search_ok t w : ordered t -> tree_search t w = answer (entries t) w.
Proof.
  unfold ordered. induction t as [|l IHl r IHr w' c p]; cbn [entries tree_search]; [done|]. intros Hs.
  apply StronglySorted_app in Hs as (Hcross & Hl & Hr'). pose proof (StronglySorted_inv Hr') as [Hr Hall]. rewrite Forall_forall in Hall.
  destruct (Z.eqb_spec (strcmp w w') 0) as [E|E]; [|destruct (Z.ltb_spec (strcmp w w') 0) as [Hlt|Hge]].
  - apply strcmp_zero in E as ->. rewrite answer_app_out; [cbn [answer]; by rewrite decide_True|].
    intros e He <-. apply (irreflexivity str_lt e.1), (Hcross e (e.1, (c, p))); [done|by left].
  - rewrite IHl by done. symmetry. apply answer_app_in. assert (Hw : str_lt w w') by (unfold str_lt; destruct (strcmp_cases w w') as [?|[?|?]]; lia).
    intros e [->|He]%elem_of_cons <-; cbn in *; [by apply (irreflexivity str_lt) in Hw|]. apply (irreflexivity str_lt e.1). etrans; [exact Hw|]. by apply (Hall e).
  - rewrite IHr by done. symmetry. rewrite answer_app_out.
    + cbn [answer]. rewrite decide_False; [done|]. intros ->. by rewrite strcmp_refl in E.
    + assert (Hw : str_lt w' w) by (unfold str_lt; rewrite strcmp_opp; destruct (strcmp_cases w w') as [?|[?|?]]; lia).
      intros e He <-. apply (irreflexivity str_lt e.1). etrans; [|exact Hw]. apply (Hcross e (w', (c, p))); [done|by left].
Qed.

(** ** The programs *)

Lemma each_word_ok (f : list Z -> outcome printed) g ws : (forall w, w ∈ ws -> f w = Done (g w)) -> each_word f ws = Done (map g ws).
Proof.
  intros H. induction ws as [|w ws IH]; cbn [each_word map]; [done|]. rewrite H by (by left). cbn [obind]. rewrite IH by (intros v Hv; apply H; by right). done.
Qed.

Lemma header_same header rest : header_differs (header ++ rest) header = Done false.
Proof. induction header as [|h header IH]; cbn [header_differs app]; [done|]. by rewrite Z.eqb_refl. Qed.

(** C33. On a file that stores a search tree (no byte 255 in its words), and when the
    allocator leaves a byte behind what is asked for, both programs exit with 0 and
    print, for every word asked for, the entry of the tree with that word or that
    there is none: they are equivalent, and correct.  Without these [lookup1] is not
    ([lookup1_overflows], [byte_255]). *)
Theorem lookups_agree usable fuel rest t words :
  let file := BINTREE_HEADER_STRING ++ rest in
  stored file BINTREE_ROOT_NODE_OFFSET t -> ordered t -> words <> [] -> (height t < fuel)%nat ->
  (forall w, w ∈ words -> (length w + 2 <= usable (length w + 1))%nat) ->
  lookup1 usable fuel (Some file) words = Done (0, map (answer (entries t)) words)
  /\ lookup2 fuel (Some file) words = Done (0, map (answer (entries t)) words).
Proof.
  intros file Hst Ho Hw Hf Hu. split.
  - unfold lookup1. destruct words as [|w0 ws] eqn:Ew; [done|]. rewrite <- Ew in *.
    change (take 4 file) with (BINTREE_HEADER_STRING ++ []). rewrite header_same. cbn [obind].
    rewrite (each_word_ok _ (answer (entries t))); [by rewrite Ew|]. intros w Hin. rewrite (search_word1_ok usable fuel file t w) by auto. by rewrite tree_search_ok.
  - unfold lookup2. destruct words as [|w0 ws] eqn:Ew; [done|]. rewrite <- Ew in *.
    unfold mmap at 1. unfold file at 1 2. rewrite <- app_assoc, header_same. cbn [obind].
    rewrite (each_word_ok _ (answer (entries t))); [by rewrite Ew|]. intros w Hin. rewrite (search_word2_ok fuel (mmap file) t w) by (done || by apply stored_mmap). by rewrite tree_search_ok.
Qed.

(** The reading version gives its buffer exactly the length of the word looked for
    and a terminator, but stores one character more when the word in the file is
    longer: with an exact allocation the terminator is written behind it. *)
Theorem lookup1_overflows fuel rest l r w c p word words :
  let file := BINTREE_HEADER_STRING ++ rest in
  stored file BINTREE_ROOT_NODE_OFFSET (Tree l r w c p) -> (length word < length w)%nat ->
  lookup1 (fun n => n) (S fuel) (Some file) (word :: words) = Undef.
Proof.
  intros file Hst Hl. unfold lookup1. change (take 4 file) with (BINTREE_HEADER_STRING ++ []). rewrite header_same. cbn [obind each_word].
  apply stored_node in Hst as (rest' & lo & ro & Hoff & H0 & H255 & Hlen & Hd & Hn & _). cbn [search_word1].
  change (BINTREE_ROOT_NODE_OFFSET =? 0) with false. cbn iota. rewrite (proj2 (Nat.ltb_ge _ _)), Hd by done. by rewrite read_at_most_overflow.
Qed.

(** ** The example of [tree.h]: "sample", "word", "list", "for", "this", "program" *)

Definition sample_rest : list Z :=
  [52; 0; 0; 0; 28; 0; 0; 0; 25; 0; 0; 0; 154; 153; 41; 65; 115; 97; 109; 112; 108; 101; 0; 0; 96; 0; 0; 0; 0; 0; 0; 0; 17; 0; 0; 0; 184; 30; 165; 63;
   119; 111; 114; 100; 0; 0; 0; 0; 76; 0; 0; 0; 120; 0; 0; 0; 12; 0; 0; 0; 10; 215; 35; 61; 108; 105; 115; 116; 0; 0; 0; 0; 0; 0; 0; 0; 0; 0; 0; 0;
   10; 0; 0; 0; 82; 184; 99; 66; 102; 111; 114; 0; 0; 0; 0; 0; 0; 0; 0; 0; 9; 0; 0; 0; 195; 245; 168; 62; 116; 104; 105; 115; 0; 0; 0; 0; 0; 0; 0; 0;
   0; 0; 0; 0; 3; 0; 0; 0; 10; 215; 35; 60; 112; 114; 111; 103; 114; 97; 109; 0].

Definition sample_tree : tree :=
  Tree (Tree (Tree Leaf Leaf [102; 111; 114] 10 1113831506) (Tree Leaf Leaf [112; 114; 111; 103; 114; 97; 109] 3 1008981770) [108; 105; 115; 116] 12 1025758986)
       (Tree (Tree Leaf Leaf [116; 104; 105; 115] 9 1051260355) Leaf [119; 111; 114; 100] 17 1067785912) [115; 97; 109; 112; 108; 101] 25 1093245338.

(** Finds the parts of the node at the offset by evaluation. *)
Ltac stored_tac :=
  lazymatch goal with
  | |- stored _ ?o Leaf => vm_compute; reflexivity
  | |- stored ?f ?o (Tree ?l ?r ?w ?c ?p) =>
      let node := eval vm_compute in (drop (Z.to_nat o) f) in
      let bytes := eval vm_compute in (take 16 node) in
      let rest := eval vm_compute in (drop (16 + length w + 1) node) in
      let lo := eval vm_compute in (left_child (node_of node)) in
      let ro := eval vm_compute in (right_child (node_of node)) in
      split; [lia|split; [apply (bool_decide_unpack _); vm_compute; exact I|split; [apply (bool_decide_unpack _); vm_compute; exact I|]]];
      exists bytes, rest, lo, ro; split; [vm_compute; reflexivity|split; [vm_compute; reflexivity|split; [vm_compute; reflexivity|split; stored_tac]]]
  end.

Lemma sample_stored : stored (BINTREE_HEADER_STRING ++ sample_rest) BINTREE_ROOT_NODE_OFFSET sample_tree.
Proof. unfold sample_tree, BINTREE_ROOT_NODE_OFFSET. stored_tac. Qed.

Lemma sample_ordered : ordered sample_tree.
Proof. unfold ordered, str_lt. cbn [sample_tree entries app]. repeat constructor. Qed.

Lemma lookups_agree_witness :
  lookup1 (fun n => S n) 4 (Some (BINTREE_HEADER_STRING ++ sample_rest)) [[116; 104; 105; 115]; [110; 111]] = Done (0, [Found [116; 104; 105; 115] 9 1051260355; NotFound [110; 111]])
  /\ lookup2 4 (Some (BINTREE_HEADER_STRING ++ sample_rest)) [[116; 104; 105; 115]; [110; 111]] = Done (0, [Found [116; 104; 105; 115] 9 1051260355; NotFound [110; 111]]).
Proof.
  apply (lookups_agree (fun n => S n) 4 sample_rest sample_tree [[116; 104; 105; 115]; [110; 111]]); [exact sample_stored|exact sample_ordered|done|cbn; lia|].
  intros w _. lia.
Defined.

Lemma lookup1_overflows_witness : lookup1 (fun n => n) 4 (Some (BINTREE_HEADER_STRING ++ sample_rest)) [[102; 111; 114]] = Undef.
Proof. apply (lookup1_overflows 3 sample_rest _ _ _ _ _ [102; 111; 114] [] sample_stored). cbn. lia. Defined.

(** A node that is its own child is searched for ever. *)
Example cyclic_file :
  search_word2 50 (mmap (BINTREE_HEADER_STRING ++ [4; 0; 0; 0; 4; 0; 0; 0; 1; 0; 0; 0; 0; 0; 0; 0; 98; 0])) [97] 4 = OutOfFuel.
Proof. vm_compute. reflexivity. Qed.

(** The byte 255 in a word is taken for the end of the file, so "a" matches. *)
Example byte_255 :
  search_word1 (fun n => n) 5 [97] (BINTREE_HEADER_STRING ++ [0; 0; 0; 0; 0; 0; 0; 0; 1; 0; 0; 0; 0; 0; 0; 0; 97; 255; 98; 0]) 4 = Done (Found [97] 1 0).
Proof. vm_compute. reflexivity. Qed.
