(* ===== verification/Cracker.v ===== *)
(** * [password_cracker/]

    The string functions of [libs/utils.c] and the two crackers.  [crypt_r] with
    the salt "xx" is the parameter [crypt], the thread-safe queue of the prebuilt
    library the class [QueueLib].  A step of [v1_step] or [v2_step] is one step of
    one thread; [v1] solves whole tasks in different threads, [v2] one task at a
    time in all threads, between two barriers. *)

From S2P Require Import Prelude CString.
Open Scope Z_scope.

(** ** [libs/utils.c] *)

Definition LETTER_A : Z := 97.
Definition LETTER_Z : Z := 122.
Definition DOT : Z := 46.

Fixpoint getPrefixLength (str : list Z) : nat :=
  match str with
  | [] => O
  | c :: str => if c =? DOT then O else S (getPrefixLength str)
  end.

(** The characters from the last one to the first. *)
Fixpoint position_from_end (len : nat) (n : Z) : list Z :=
  match len with
  | O => []
  | S len => (LETTER_A + Z.rem n 26) :: position_from_end len (Z.quot n 26)
  end.

Definition setStringPosition (result : list Z) (n : Z) : list Z := rev (position_from_end (length result) n).

(** Over the reversed string; [None] when all characters are 'z'. *)
Fixpoint increment_from_end (str : list Z) : option (list Z) :=
  match str with
  | [] => None
  | c :: str => if c =? LETTER_Z then option_map (cons LETTER_A) (increment_from_end str) else Some ((c + 1) `mod` 256 :: str)
  end.

(** A 255 would become the terminator. *)
Definition incrementString (str : list Z) : bool * list Z :=
  match increment_from_end (rev str) with
  | Some s => (true, until_zero (rev s))
  | None => (false, str)
  end.

(** [max *= 26]. *)
Fixpoint power_of_26 (i : nat) (max : Z) : outcome Z :=
  match i with
  | O => Done max
  | S i => if max * 26 <? 9223372036854775808 then power_of_26 i (max * 26) else Undef
  end.

(** A product of [long]s that overflows is undefined; the division is in [size_t]. *)
Definition getSubrange (unknown_letter_count : nat) (thread_count thread_id : Z) : outcome (Z * Z) :=
  let! max := power_of_26 unknown_letter_count 1 in
  let in_long x := (-9223372036854775808 <=? x) && (x <? 9223372036854775808) in
  if in_long (max * (thread_id - 1)) && in_long (max * thread_id) && negb (thread_count =? 0) then
    let start_index := s64 (u64 (max * (thread_id - 1)) / thread_count) in
    let end_index := s64 (u64 (max * thread_id) / thread_count) in
    let end_index := if max <? end_index then max else end_index in
    Done (start_index, end_index - start_index)
  else Undef.

(** ** Tasks *)

Record task_t := Task {
  username : list Z;
  hashed_pwd : list Z;
  known_pwd : list Z;
}.

(** [parse_line] and [create_task]: [strdup] of a missing part is undefined. *)
Definition parse_line (lineptr : list Z) : outcome task_t :=
  match strtok 32 lineptr [] with
  | username :: hashed_pwd :: known_pwd :: _ => Done (Task username hashed_pwd known_pwd)
  | _ => Undef
  end.

Fixpoint parse_tasks (input : list (list Z)) : outcome (list task_t) :=
  match input with
  | [] => Done []
  | line :: input =>
      let! tsk := parse_line (until_zero (without_newline line)) in
      let! tsks := parse_tasks input in
      Done (tsk :: tsks)
  end.

Definition samePrefix (pwd known_pwd : list Z) : bool :=
  let prefix_size := getPrefixLength known_pwd in
  bool_decide (take prefix_size pwd = take prefix_size known_pwd).

(** The first password tried for a task and position. *)
Definition first_password (known : list Z) (n : Z) : list Z :=
  take (getPrefixLength known) known ++ setStringPosition (drop (getPrefixLength known) known) n.

Section Crackers.

Variable crypt : list Z -> list Z.

Definition matches (tsk : task_t) (pwd : list Z) : bool := strcmp (crypt pwd) (hashed_pwd tsk) =? 0.

(** ** [cracker1.c] *)

(** The loop over the candidates of one task: the password, if found, and [hashes]. *)
Fixpoint solve_loop (fuel : nat) (tsk : task_t) (pwd : list Z) (hashes : Z) : outcome (option (list Z) * Z) :=
  match fuel with
  | O => OutOfFuel
  | S fuel =>
      let hashes := s32 (hashes + 1) in
      if matches tsk pwd then Done (Some pwd, hashes)
      else
        let pwd := (incrementString pwd).2 in
        if samePrefix pwd (known_pwd tsk) then solve_loop fuel tsk pwd hashes else Done (None, hashes)
  end.

Definition solve_one (fuel : nat) (tsk : task_t) : outcome (option (list Z) * Z) :=
  solve_loop fuel tsk (first_password (known_pwd tsk) 0) 0.

End Crackers.

(** Elements of the queue are tasks or the null pointer; [None] from [queue_pull] is
    a thread that has to wait. *)
Class QueueLib (Q : Type) := {
  queue_create : Q;
  queue_push : option task_t -> Q -> Q;
  queue_pull : Q -> option (option task_t * Q);
}.

(** About to pull, about to solve a task, about to push the sentinel back, returned. *)
Inductive v1_thread := V1_pull | V1_solve (tsk : task_t) | V1_end | V1_returned.

(** The result printed for a user. *)
Record v1_result := V1Result { v1_user : list Z; v1_password : option (list Z) }.

Section Cracker1.

Context {Q : Type} {LQ : QueueLib Q}.
Variable crypt : list Z -> list Z.

Record v1_state := V1State {
  q : Q;
  v1_threads : list v1_thread;
  numRecovered : Z;
  numFailed : Z;
  v1_output : list v1_result;
}.

Definition v1_move (i : nat) (t : v1_thread) (s : v1_state) : v1_state :=
  V1State (q s) (<[i := t]> (v1_threads s)) (numRecovered s) (numFailed s) (v1_output s).

(** A step of thread [i], with fuel for the search; [None] when it has to wait or has
    returned. *)
Definition v1_step (fuel : nat) (i : nat) (s : v1_state) : outcome (option v1_state) :=
  match v1_threads s !! i with
  | Some V1_pull =>
      match queue_pull (q s) with
      | None => Done None
      | Some (e, q') =>
          Done (Some (V1State q' (<[i := match e with Some tsk => V1_solve tsk | None => V1_end end]> (v1_threads s)) (numRecovered s) (numFailed s) (v1_output s)))
      end
  | Some (V1_solve tsk) =>
      let! (r, _) := solve_one crypt fuel tsk in
      Done (Some (V1State (q s) (<[i := V1_pull]> (v1_threads s))
                    (match r with Some _ => s32 (numRecovered s + 1) | None => numRecovered s end)
                    (match r with Some _ => numFailed s | None => s32 (numFailed s + 1) end)
                    (v1_output s ++ [V1Result (username tsk) r])))
  | Some V1_end => Done (Some (V1State (queue_push None (q s)) (<[i := V1_returned]> (v1_threads s)) (numRecovered s) (numFailed s) (v1_output s)))
  | Some V1_returned | None => Done None
  end.

Definition v1_start (tasks : list task_t) (thread_count : nat) : v1_state :=
  V1State (queue_push None (fold_left (fun q tsk => queue_push (Some tsk) q) tasks queue_create)) (replicate thread_count V1_pull) 0 0 [].

End Cracker1.

(** ** [cracker2.c]

    A step is one access to what the threads share, a critical section, or a move of one
    byte of the password. *)

(** [pthread_barrier_t]: how many wait, and how often it has opened. *)
Record pthread_barrier := PBarrier { arrived : nat; generation : nat }.

Definition pthread_barrier_arrive (n : nat) (b : pthread_barrier) : pthread_barrier :=
  if (S (arrived b) =? n)%nat then PBarrier 0 (S (generation b)) else PBarrier (S (arrived b)) (generation b).

(** Not created; before and in the first barrier ([g]: what [generation] was on
    arrival); at the test of [task_done]; before the loop; in it at candidate [c] of
    [count] with the string [pwd]; copying byte [k] of the password; setting [found];
    adding to [total_hashes] and leaving the loop; at the check behind it and adding
    there; before and in the second barrier; returned. *)
Inductive v2_worker :=
| W_none
| W_arrive1
| W_wait1 (g : nat)
| W_check_done
| W_begin
| W_loop (c count : Z) (pwd : list Z) (hashes : Z)
| W_copy (k : nat) (pwd : list Z) (hashes : Z)
| W_flag (hashes : Z)
| W_add (hashes : Z)
| W_check (hashes : Z)
| W_add_end (hashes : Z)
| W_arrive2
| W_wait2 (g : nat)
| W_exit.

(** [start]: creating thread [i]; allocating; reading a line; at the two barriers;
    printing the summary and resetting; setting [task_done]; at the last barrier; joining
    thread [i]; freeing; returned. *)
Inductive v2_main :=
| M_create (i : nat)
| M_allocate
| M_read
| M_arrive1
| M_wait1 (g : nat)
| M_arrive2
| M_wait2 (g : nat)
| M_summary
| M_reset_found
| M_reset_total
| M_finish
| M_arrive_end
| M_wait_end (g : nat)
| M_join (i : nat)
| M_free
| M_returned.

(** [curr_task] and the 22 bytes of [curr_password] are [None] when not allocated. *)
Record v2_shared := V2Shared {
  curr_task : option task_t;
  curr_password : option (list Z);
  found : bool;
  total_hashes : Z;
  task_done : bool;
}.

(** A summary: the user, the password, if found, and the hashes. *)
Record v2_summary := V2Summary { v2_user : list Z; v2_password : option (list Z); v2_hashes : Z }.

Record v2_state := V2State {
  main : v2_main;
  workers : list v2_worker;
  barrier : pthread_barrier;
  shared : v2_shared;
  input : list (list Z);
  v2_output : list v2_summary;
}.

Definition set_curr_task tsk sh := V2Shared tsk (curr_password sh) (found sh) (total_hashes sh) (task_done sh).
Definition set_curr_password buf sh := V2Shared (curr_task sh) buf (found sh) (total_hashes sh) (task_done sh).
Definition set_found f sh := V2Shared (curr_task sh) (curr_password sh) f (total_hashes sh) (task_done sh).
Definition set_total_hashes h sh := V2Shared (curr_task sh) (curr_password sh) (found sh) h (task_done sh).
Definition set_task_done d sh := V2Shared (curr_task sh) (curr_password sh) (found sh) (total_hashes sh) d.

(** [allocate_curr_task]: zeroed buffers. *)
Definition allocate_curr_task (sh : v2_shared) : v2_shared :=
  set_curr_password (Some (replicate (8 + 13 + 1) 0)) (set_curr_task (Some (Task [] [] [])) sh).

(** The task is copied into buffers of fixed sizes. *)
Definition create_curr_task (username hashed_pwd known_pwd : list Z) (sh : v2_shared) : outcome v2_shared :=
  let! _ := deref (curr_task sh) in
  if (length username <=? 8)%nat && (length hashed_pwd <=? 13)%nat && (length known_pwd <=? 8 + 13)%nat
  then Done (set_curr_task (Some (Task username hashed_pwd known_pwd)) sh)
  else Undef.

Section Cracker2.

Variable crypt : list Z -> list Z.
Variable THREAD_COUNT : nat.

Definition to_worker (i : nat) (t : v2_worker) (s : v2_state) : v2_state :=
  V2State (main s) (<[i := t]> (workers s)) (barrier s) (shared s) (input s) (v2_output s).

Definition to_main (m : v2_main) (s : v2_state) : v2_state :=
  V2State m (workers s) (barrier s) (shared s) (input s) (v2_output s).

Definition set_shared (sh : v2_shared) (s : v2_state) : v2_state :=
  V2State (main s) (workers s) (barrier s) sh (input s) (v2_output s).

(** The barrier is for the workers and [main]. *)
Definition arrive (s : v2_state) : v2_state :=
  V2State (main s) (workers s) (pthread_barrier_arrive (THREAD_COUNT + 1) (barrier s)) (shared s) (input s) (v2_output s).

(** A thread that arrived in generation [g] may go on. *)
Definition opened (g : nat) (s : v2_state) : bool := negb (generation (barrier s) =? g)%nat.

(** A step of [solve_task] in thread [i], which counts from 0; [None] when it has to wait
    or has returned. *)
Definition worker_step (i : nat) (s : v2_state) : outcome (option v2_state) :=
  let sh := shared s in
  let go t := Done (Some (to_worker i t s)) in
  let write sh t := Done (Some (to_worker i t (set_shared sh s))) in
  match workers s !! i with
  | None | Some W_none | Some W_exit => Done None
  | Some W_arrive1 => Done (Some (to_worker i (W_wait1 (generation (barrier s))) (arrive s)))
  | Some (W_wait1 g) => if opened g s then go W_check_done else Done None
  | Some W_check_done => go (if task_done sh then W_exit else W_begin)
  | Some W_begin =>
      let! tsk := deref (curr_task sh) in
      let known := known_pwd tsk in
      let dotsLength := (length known - getPrefixLength known)%nat in
      let! (start_index, count) := getSubrange dotsLength (Z.of_nat THREAD_COUNT) (Z.of_nat (S i)) in
      go (W_loop 0 count (first_password known start_index) 0)
  | Some (W_loop c count pwd hashes) =>
      if c <? count then
        let! tsk := deref (curr_task sh) in
        let hashes := s32 (hashes + 1) in
        if matches crypt tsk pwd then go (W_copy 0 pwd hashes)
        else if found sh then go (W_add hashes)
        else go (W_loop (c + 1) count (incrementString pwd).2 hashes)
      else go (W_check hashes)
  | Some (W_copy k pwd hashes) =>
      let! buf := deref (curr_password sh) in
      if (k <? length buf)%nat then
        write (set_curr_password (Some (<[k := default 0 (pwd !! k)]> buf)) sh)
          (if (k <? length pwd)%nat then W_copy (S k) pwd hashes else W_flag hashes)
      else Undef
  | Some (W_flag hashes) => write (set_found true sh) (W_add hashes)
  | Some (W_add hashes) => write (set_total_hashes (s32 (total_hashes sh + hashes)) sh) (W_check hashes)
  | Some (W_check hashes) => go (if found sh then W_arrive2 else W_add_end hashes)
  | Some (W_add_end hashes) => write (set_total_hashes (s32 (total_hashes sh + hashes)) sh) W_arrive2
  | Some W_arrive2 => Done (Some (to_worker i (W_wait2 (generation (barrier s))) (arrive s)))
  | Some (W_wait2 g) => if opened g s then go W_arrive1 else Done None
  end.

(** A step of [start]. *)
Definition main_step (s : v2_state) : outcome (option v2_state) :=
  let sh := shared s in
  let go m := Done (Some (to_main m s)) in
  let write sh m := Done (Some (to_main m (set_shared sh s))) in
  match main s with
  | M_create i =>
      if (i <? THREAD_COUNT)%nat then Done (Some (to_main (M_create (S i)) (to_worker i W_arrive1 s)))
      else go M_allocate
  | M_allocate => write (allocate_curr_task sh) M_read
  | M_read =>
      match input s with
      | [] => go M_finish
      | line :: lines =>
          let! tsk := parse_line (until_zero (without_newline line)) in
          let! sh := create_curr_task (username tsk) (hashed_pwd tsk) (known_pwd tsk) sh in
          Done (Some (V2State M_arrive1 (workers s) (barrier s) sh lines (v2_output s)))
      end
  | M_arrive1 => Done (Some (to_main (M_wait1 (generation (barrier s))) (arrive s)))
  | M_wait1 g => if opened g s then go M_arrive2 else Done None
  | M_arrive2 => Done (Some (to_main (M_wait2 (generation (barrier s))) (arrive s)))
  | M_wait2 g => if opened g s then go M_summary else Done None
  | M_summary =>
      let! tsk := deref (curr_task sh) in
      let! buf := deref (curr_password sh) in
      let summary := V2Summary (username tsk) (if found sh then Some (until_zero buf) else None) (total_hashes sh) in
      Done (Some (V2State M_reset_found (workers s) (barrier s) sh (input s) (v2_output s ++ [summary])))
  | M_reset_found => write (set_found false sh) M_reset_total
  | M_reset_total => write (set_total_hashes 0 sh) M_read
  | M_finish => write (set_task_done true sh) M_arrive_end
  | M_arrive_end => Done (Some (to_main (M_wait_end (generation (barrier s))) (arrive s)))
  | M_wait_end g => if opened g s then go (M_join 0) else Done None
  | M_join i =>
      if (i <? THREAD_COUNT)%nat then
        match workers s !! i with Some W_exit => go (M_join (S i)) | _ => Done None end
      else go M_free
  | M_free =>
      let! _ := deref (curr_password sh) in
      let! _ := deref (curr_task sh) in
      write (set_curr_task None (set_curr_password None sh)) M_returned
  | M_returned => Done None
  end.

(** [None] is [main]. *)
Definition v2_step (who : option nat) (s : v2_state) : outcome (option v2_state) :=
  match who with None => main_step s | Some i => worker_step i s end.

Definition v2_start (lines : list (list Z)) : v2_state :=
  V2State (M_create 0) (replicate THREAD_COUNT W_none) (PBarrier 0 0) (V2Shared None None false 0 false) lines [].

End Cracker2.
