(* ===== verification/CrackerSpec.v ===== *)
(** * Correctness of the password crackers

    A candidate of [n] letters is its index written in base 26; [incrementString]
    is the successor and [getSubrange] cuts the indices into adjacent ranges.  The
    search of [cracker1] is the first match among all candidates of a task
    ([solve_one_correct]), and [cracker1] is shown to end with the right answers for
    every schedule of its threads; [cracker2] is in [Cracker2Spec.v]. *)

From S2P Require Import Prelude CString Cracker.
Open Scope Z_scope.

(** ** Candidates *)

Definition candidates (k : nat) : Z := 26 ^ Z.of_nat k.

Definition candidate (k : nat) (n : Z) : list Z := rev (position_from_end k n).

Lemma candidates_S k : candidates (S k) = 26 * candidates k.
Proof. unfold candidates. rewrite Nat2Z.inj_succ, Z.pow_succ_r by lia. done. Qed.

Lemma candidates_pos k : 0 < candidates k.
Proof. unfold candidates. apply Z.pow_pos_nonneg; lia. Qed.

Lemma length_position k n : length (position_from_end k n) = k.
Proof. revert n. induction k as [|k IH]; intros n; cbn; [done|]. by rewrite IH. Qed.

Lemma length_candidate k n : length (candidate k n) = k.
Proof. unfold candidate. by rewrite length_rev, length_position. Qed.

Lemma position_letters k n : 0 <= n -> Forall (fun c => 97 <= c <= 122) (position_from_end k n).
Proof.
  revert n. induction k as [|k IH]; intros n Hn; cbn; [done|].
  pose proof (Z.rem_bound_pos n 26 Hn ltac:(lia)). constructor; [unfold LETTER_A; lia|].
  apply IH. apply Z.quot_pos; lia.
Qed.

Lemma candidate_letters k n : 0 <= n -> Forall (fun c => 97 <= c <= 122) (candidate k n).
Proof. intros Hn. unfold candidate. apply Forall_rev. by apply position_letters. Qed.

Lemma setStringPosition_eq s n : setStringPosition s n = candidate (length s) n.
Proof. done. Qed.

Lemma increment_position k n :
  0 <= n < candidates k ->
  increment_from_end (position_from_end k n) = if n + 1 <? candidates k then Some (position_from_end k (n + 1)) else None.
Proof.
  revert n. induction k as [|k IH]; intros n Hn.
  { unfold candidates in *. cbn in *. case_bool; [lia|done]. }
  rewrite candidates_S in *. pose proof (candidates_pos k).
  cbn [position_from_end increment_from_end]. unfold LETTER_A, LETTER_Z.
  rewrite !Z.rem_mod_nonneg, !Z.quot_div_nonneg by lia.
  pose proof (Z.mod_pos_bound n 26). pose proof (Z.div_mod n 26).
  destruct (97 + n `mod` 26 =? 122) eqn:E; bool_to_prop.
  - rewrite IH by lia.
    replace ((n + 1) `div` 26) with (n `div` 26 + 1) by (Z.div_mod_to_equations; lia).
    replace ((n + 1) `mod` 26) with 0 by (Z.div_mod_to_equations; lia).
    repeat case_bool; cbn; try lia; done.
  - replace ((n + 1) `div` 26) with (n `div` 26) by (Z.div_mod_to_equations; lia).
    replace ((n + 1) `mod` 26) with (n `mod` 26 + 1) by (Z.div_mod_to_equations; lia).
    case_bool; [|lia]. rewrite Z.mod_small by lia. do 2 f_equal. lia.
Qed.

Lemma increment_app a b :
  increment_from_end (a ++ b) =
  match increment_from_end a with Some a' => Some (a' ++ b) | None => option_map (app (replicate (length a) LETTER_A)) (increment_from_end b) end.
Proof.
  induction a as [|c a IH]; cbn; [by destruct (increment_from_end b)|].
  destruct (c =? LETTER_Z); [|done]. rewrite IH.
  destruct (increment_from_end a); [done|]. by destruct (increment_from_end b).
Qed.

(** What [incrementString] promises in [utils.h]. *)
Lemma increment_candidate pre k n :
  0 ∉ pre -> 0 <= n -> n + 1 < candidates k ->
  incrementString (pre ++ candidate k n) = (true, pre ++ candidate k (n + 1)).
Proof.
  intros Hpre Hn Hk. unfold incrementString, candidate. rewrite rev_app_distr, rev_involutive, increment_app, increment_position by lia.
  rewrite (proj2 (Z.ltb_lt _ _)) by lia. f_equal. rewrite rev_app_distr, rev_involutive. apply until_zero_id.
  rewrite not_elem_of_app. split; [done|]. intros Hin.
  pose proof (candidate_letters k (n + 1) ltac:(lia)) as Hl. rewrite Forall_forall in Hl. specialize (Hl _ Hin). lia.
Qed.

(** A string over which a C string function works. *)
Definition c_string (s : list Z) : Prop := Forall (fun c => 0 < c < 256) s.

Lemma c_string_zero s : c_string s -> 0 ∉ s.
Proof. unfold c_string. rewrite Forall_forall. intros Hs Hin. specialize (Hs _ Hin). lia. Qed.

Lemma increment_changes s s' : c_string s -> increment_from_end s = Some s' -> s' <> s /\ length s' = length s.
Proof.
  revert s'. induction s as [|c s IH]; intros s' Hs He; cbn in He; [done|]. apply Forall_cons in Hs as [Hc Hs].
  destruct (c =? LETTER_Z) eqn:E; bool_to_prop.
  - destruct (increment_from_end s) as [s1|] eqn:E1; [|done]. injection He as <-.
    destruct (IH _ Hs eq_refl) as [H1 H2]. cbn. split; [|lia]. intros [= _ H3]. done.
  - injection He as <-. split; [|done]. intros [= H3]. destruct (decide (c = 255)) as [->|]; [vm_compute in H3; lia|].
    rewrite Z.mod_small in H3; lia.
Qed.

Lemma until_zero_prefix s : until_zero s `prefix_of` s.
Proof. induction s as [|c s IH]; cbn; [done|]. destruct (c =? 0); [apply prefix_nil|]. by apply prefix_cons. Qed.

(** Behind the last candidate the prefix changes, unless there is none or it is all
    'z': then the string does not change at all. *)
Lemma increment_last pre k :
  c_string pre -> Exists (fun c => c <> LETTER_Z) pre ->
  take (length pre) (incrementString (pre ++ candidate k (candidates k - 1))).2 <> pre.
Proof.
  intros Hpre Hz. unfold incrementString, candidate. pose proof (candidates_pos k).
  rewrite rev_app_distr, rev_involutive, increment_app, increment_position by lia.
  rewrite (proj2 (Z.ltb_ge _ _)) by lia.
  destruct (increment_from_end (rev pre)) as [p'|] eqn:E; cbn [option_map].
  - apply increment_changes in E as [Hne Hl]; [|by apply Forall_rev]. rewrite length_rev in Hl. cbn [snd].
    destruct (until_zero_prefix (rev (replicate (length (position_from_end k (candidates k - 1))) LETTER_A ++ p'))) as [r Hr].
    intros Ht. apply Hne. rewrite <- (rev_involutive p'). f_equal.
    rewrite rev_app_distr in *. set (u := until_zero _) in *. apply (f_equal (take (length pre))) in Hr.
    rewrite take_app_length' in Hr by (rewrite length_rev; done). rewrite Hr.
    rewrite take_app_le; [done|]. apply (f_equal length) in Ht. rewrite length_take in Ht. lia.
  - exfalso. apply Exists_exists in Hz as (c & Hc & Hne). clear -E Hc Hne.
    apply list_elem_of_In in Hc. apply in_rev, list_elem_of_In in Hc. revert E. induction (rev pre) as [|d l IH]; intros E; [by apply not_elem_of_nil in Hc|].
    cbn in E. apply elem_of_cons in Hc. destruct (d =? LETTER_Z) eqn:Ed; [|done]. bool_to_prop.
    destruct (increment_from_end l); [done|]. destruct Hc as [->|Hc]; [done|]. by apply IH.
Qed.

Lemma increment_stuck pre k :
  Forall (fun c => c = LETTER_Z) pre ->
  incrementString (pre ++ candidate k (candidates k - 1)) = (false, pre ++ candidate k (candidates k - 1)).
Proof.
  intros Hz. unfold incrementString, candidate. pose proof (candidates_pos k).
  rewrite rev_app_distr, rev_involutive, increment_app, increment_position by lia.
  rewrite (proj2 (Z.ltb_ge _ _)) by lia.
  replace (increment_from_end (rev pre)) with (@None (list Z)); [done|].
  apply Forall_rev in Hz. induction Hz as [|c l -> _ IH]; cbn; [done|]. by rewrite <- IH.
Qed.

(** ** The ranges of the threads *)

Lemma power_of_26_eq k max : 0 < max -> max * candidates k < 9223372036854775808 -> power_of_26 k max = Done (max * candidates k).
Proof.
  revert max. induction k as [|k IH]; intros max Hm Hlt; cbn [power_of_26].
  { unfold candidates. cbn. by rewrite Z.mul_1_r. }
  rewrite candidates_S in *. pose proof (candidates_pos k). rewrite (proj2 (Z.ltb_lt _ _)) by nia.
  rewrite IH by nia. f_equal. lia.
Qed.

(** The first index of thread [t]; the range ends where that of thread [t + 1] starts. *)
Definition range_start (k : nat) (T t : Z) : Z := (candidates k * (t - 1)) `div` T.

Lemma thread_range_eq k T t :
  0 < T -> 1 <= t <= T -> candidates k * T < 9223372036854775808 ->
  getSubrange k T t = Done (range_start k T t, range_start k T (t + 1) - range_start k T t).
Proof.
  intros HT Ht Hlt. pose proof (candidates_pos k). unfold getSubrange.
  rewrite power_of_26_eq by nia. cbn [obind]. rewrite Z.mul_1_l.
  assert (0 <= candidates k * (t - 1) <= candidates k * T) by nia. assert (0 <= candidates k * t <= candidates k * T) by nia.
  rewrite !(proj2 (Z.leb_le _ _)), !(proj2 (Z.ltb_lt _ _)), (proj2 (Z.eqb_neq _ _)) by lia. cbn [andb negb].
  rewrite !u64_small by lia. unfold range_start. replace (t + 1 - 1) with t by lia.
  assert (0 <= (candidates k * (t - 1)) `div` T <= candidates k) by (split; [apply Z_div_nonneg_nonneg; lia|apply Z.div_le_upper_bound; nia]).
  assert (0 <= (candidates k * t) `div` T <= candidates k) by (split; [apply Z_div_nonneg_nonneg; lia|apply Z.div_le_upper_bound; nia]).
  rewrite !s64_small by nia. case_bool; [lia|done].
Qed.

Lemma range_start_first k T : range_start k T 1 = 0.
Proof. unfold range_start. rewrite Z.sub_diag, Z.mul_0_r. apply Zdiv_0_l. Qed.

Lemma range_start_last k T : 0 < T -> range_start k T (T + 1) = candidates k.
Proof. intros HT. unfold range_start. replace (T + 1 - 1) with T by lia. apply Z.div_mul. lia. Qed.

Lemma range_start_mono k T t u : 0 < T -> t <= u -> range_start k T t <= range_start k T u.
Proof. intros HT Htu. pose proof (candidates_pos k). apply Z.div_le_mono; nia. Qed.

(** Every index lies in the range of some thread. *)
Lemma range_cover k T j : 0 < T -> 0 <= j < candidates k -> exists t, 1 <= t <= T /\ range_start k T t <= j < range_start k T (t + 1).
Proof.
  intros HT Hj.
  assert (Hx : forall n, 0 <= n -> j < range_start k T (n + 1) -> exists t, 1 <= t <= n /\ range_start k T t <= j < range_start k T (t + 1)).
  { intros n Hn. revert n Hn. apply (natlike_ind (fun n => _ -> exists t, 1 <= t <= n /\ _)).
    - rewrite range_start_first. lia.
    - intros n Hn IH Hlt. unfold Z.succ in *. destruct (decide (j < range_start k T (n + 1))) as [Hn'|Hn'].
      + destruct (IH Hn') as (t & ? & ?). exists t. lia.
      + exists (n + 1). lia. }
  apply Hx; [lia|]. rewrite range_start_last; lia.
Qed.

(** ** The search of one thread *)

Lemma s32_add_l x y : s32 (s32 x + y) = s32 (x + y).
Proof.
  unfold s32. f_equal. replace ((x + 2147483648) `mod` 4294967296 - 2147483648 + y + 2147483648) with ((x + 2147483648) `mod` 4294967296 + y) by lia.
  rewrite Zplus_mod_idemp_l. f_equal. lia.
Qed.

Definition prefix_of_known (known : list Z) : list Z := take (getPrefixLength known) known.

(** The number of unknown letters. *)
Definition dots (known : list Z) : nat := length known - getPrefixLength known.

Lemma prefix_length known : (getPrefixLength known <= length known)%nat.
Proof. induction known as [|c l IH]; cbn; [lia|]. destruct (c =? DOT); lia. Qed.

Lemma length_prefix known : length (prefix_of_known known) = getPrefixLength known.
Proof. unfold prefix_of_known. rewrite length_take. pose proof (prefix_length known). lia. Qed.

Lemma first_password_eq known n : first_password known n = prefix_of_known known ++ candidate (dots known) n.
Proof. unfold first_password. by rewrite setStringPosition_eq, length_drop. Qed.

Lemma length_first_password known n : length (first_password known n) = length known.
Proof. rewrite first_password_eq, length_app, length_prefix, length_candidate. pose proof (prefix_length known). unfold dots. lia. Qed.

Lemma prefix_c_string known : c_string known -> c_string (prefix_of_known known).
Proof. intros Hs. by apply Forall_take. Qed.

Lemma samePrefix_candidate known n : samePrefix (first_password known n) known = true.
Proof.
  unfold samePrefix. apply bool_decide_eq_true. rewrite first_password_eq.
  rewrite take_app_le by (rewrite length_prefix; lia). unfold prefix_of_known. by rewrite take_take, Nat.min_id.
Qed.

Lemma increment_first_password known n :
  c_string known -> 0 <= n -> n + 1 < candidates (dots known) ->
  incrementString (first_password known n) = (true, first_password known (n + 1)).
Proof. intros Hs Hn Hlt. rewrite !first_password_eq. apply increment_candidate; [|lia..]. by apply c_string_zero, prefix_c_string. Qed.

Lemma samePrefix_last known :
  c_string known -> Exists (fun c => c <> LETTER_Z) (prefix_of_known known) ->
  samePrefix (incrementString (first_password known (candidates (dots known) - 1))).2 known = false.
Proof.
  intros Hs Hz. unfold samePrefix. apply bool_decide_eq_false. rewrite first_password_eq. rewrite <- length_prefix at 1.
  apply increment_last; [by apply prefix_c_string|done].
Qed.

Section Search.

Variable crypt : list Z -> list Z.
Variable tsk : task_t.

Local Abbreviation total := (candidates (dots (known_pwd tsk))).
Local Abbreviation pwd_at := (first_password (known_pwd tsk)).

(** All passwords of the task, in order, from candidate [n] on. *)
Definition passwords_from (n : Z) : list (list Z) := map pwd_at (seqZ n (total - n)).

(** What cracking means: the first password with the wanted hash. *)
Definition first_hit (n : Z) : option (nat * list Z) := list_find (fun pwd => matches crypt tsk pwd = true) (passwords_from n).

Definition answer (hit : option (nat * list Z)) (n h : Z) : option (list Z) * Z :=
  match hit with
  | Some (i, pwd) => (Some pwd, s32 (h + Z.of_nat i + 1))
  | None => (None, s32 (h + (total - n)))
  end.

Definition solution : option (list Z) * Z := answer (first_hit 0) 0 0.

Lemma first_hit_step n :
  n < total ->
  first_hit n = if matches crypt tsk (pwd_at n) then Some (O, pwd_at n) else prod_map S id <$> first_hit (n + 1).
Proof.
  intros Hn. unfold first_hit, passwords_from. rewrite seqZ_cons by lia. cbn [map list_find].
  replace (Z.pred (total - n)) with (total - (n + 1)) by lia. unfold Z.succ.
  case_decide; destruct (matches crypt tsk (pwd_at n)); done.
Qed.

Lemma first_hit_end : first_hit total = None.
Proof. unfold first_hit, passwords_from. rewrite Z.sub_diag. done. Qed.

Lemma first_hit_spec :
  match first_hit 0 with
  | Some (i, pwd) => matches crypt tsk pwd = true /\ pwd = pwd_at (Z.of_nat i) /\ 0 <= Z.of_nat i < total /\
      forall j, 0 <= j < Z.of_nat i -> matches crypt tsk (pwd_at j) = false
  | None => forall j, 0 <= j < total -> matches crypt tsk (pwd_at j) = false
  end.
Proof.
  unfold first_hit, passwords_from. rewrite Z.sub_0_r. destruct (list_find _ _) as [[i pwd]|] eqn:E.
  - apply list_find_Some in E as (Hl & Hm & Hj). split; [done|]. rewrite list_lookup_fmap in Hl.
    destruct (seqZ 0 total !! i) as [x|] eqn:Ex; [|done]. injection Hl as <-. apply lookup_seqZ in Ex as [-> Hi].
    split; [done|]. split; [lia|]. intros j Hlt. specialize (Hj (Z.to_nat j) (pwd_at j)). apply not_true_iff_false, Hj; [|lia].
    rewrite list_lookup_fmap. rewrite lookup_seqZ_lt by lia. cbn. f_equal. f_equal. lia.
  - apply list_find_None in E. intros j Hlt. rewrite Forall_forall in E. apply not_true_iff_false, E.
    apply list_elem_of_In, in_map_iff. exists j. split; [done|]. apply list_elem_of_In, elem_of_seqZ. lia.
Qed.

Hypothesis Hstring : c_string (known_pwd tsk).

Lemma solve_loop_first fuel n h :
  Exists (fun c => c <> LETTER_Z) (prefix_of_known (known_pwd tsk)) ->
  0 <= n < total -> total - n <= Z.of_nat fuel ->
  solve_loop crypt fuel tsk (pwd_at n) (s32 h) = Done (answer (first_hit n) n h).
Proof.
  intros Hz. revert n h. induction fuel as [|fuel IH]; intros n h Hn Hf; [lia|]. cbn [solve_loop].
  rewrite first_hit_step, s32_add_l by lia. destruct (matches crypt tsk (pwd_at n)).
  { unfold answer. do 4 f_equal. lia. }
  destruct (decide (n + 1 < total)) as [Hlt|Hge].
  - rewrite increment_first_password by done || lia. cbn [snd]. rewrite samePrefix_candidate, IH by lia.
    destruct (first_hit (n + 1)) as [[i pwd]|]; cbn; do 3 f_equal; lia.
  - assert (n = total - 1) as -> by lia. rewrite samePrefix_last by done. rewrite Z.sub_add, first_hit_end. cbn. do 3 f_equal. lia.
Qed.

(** With a prefix of 'z's only (or an empty one) the last string is its own successor. *)
Lemma solve_loop_stuck fuel h :
  Forall (fun c => c = LETTER_Z) (prefix_of_known (known_pwd tsk)) ->
  matches crypt tsk (pwd_at (total - 1)) = false ->
  solve_loop crypt fuel tsk (pwd_at (total - 1)) h = OutOfFuel.
Proof.
  intros Hz Hm. revert h. induction fuel as [|fuel IH]; intros h; [done|]. cbn [solve_loop]. rewrite Hm.
  assert (incrementString (pwd_at (total - 1)) = (false, pwd_at (total - 1))) as -> by (rewrite first_password_eq; by apply increment_stuck).
  cbn [snd]. rewrite samePrefix_candidate. apply IH.
Qed.

Lemma solve_loop_endless fuel n h :
  Forall (fun c => c = LETTER_Z) (prefix_of_known (known_pwd tsk)) ->
  0 <= n < total -> first_hit n = None ->
  solve_loop crypt fuel tsk (pwd_at n) h = OutOfFuel.
Proof.
  intros Hz. revert n h. induction fuel as [|fuel IH]; intros n h Hn Hhit; [done|].
  rewrite first_hit_step in Hhit by lia. destruct (matches crypt tsk (pwd_at n)) eqn:Hm; [done|].
  destruct (decide (n + 1 < total)) as [Hlt|Hge].
  - cbn [solve_loop]. rewrite Hm. rewrite increment_first_password by done || lia. cbn [snd]. rewrite samePrefix_candidate.
    apply IH; [lia|]. by destruct (first_hit (n + 1)).
  - assert (n = total - 1) as -> by lia. by apply solve_loop_stuck.
Qed.

End Search.

(** A task [cracker1] finishes: C strings, and a prefix that can be counted up. *)
Definition good_task (tsk : task_t) : Prop :=
  c_string (known_pwd tsk) /\ Exists (fun c => c <> LETTER_Z) (prefix_of_known (known_pwd tsk)).

Lemma solve_one_solution crypt tsk fuel :
  good_task tsk -> candidates (dots (known_pwd tsk)) <= Z.of_nat fuel -> solve_one crypt fuel tsk = Done (solution crypt tsk).
Proof.
  intros [Hs Hz] Hf. pose proof (candidates_pos (dots (known_pwd tsk))). unfold solve_one. change 0 with (s32 0) at 2. apply solve_loop_first; (done || lia).
Qed.

(** The search of [cracker1] for one task returns the first password, in
    dictionary order of the unknown letters, whose hash is the wanted one, and the
    number of hashes up to it; or, after hashing all [26 ^ k] passwords, that there is
    none.  Fuel for every password is enough. *)
Theorem solve_one_correct crypt tsk fuel
    (Hgood : good_task tsk) (Hsmall : candidates (dots (known_pwd tsk)) < 2147483648)
    (Hfuel : candidates (dots (known_pwd tsk)) <= Z.of_nat fuel) :
  let pwd_at := first_password (known_pwd tsk) in
  (exists i, 0 <= i < candidates (dots (known_pwd tsk)) /\ matches crypt tsk (pwd_at i) = true /\
     (forall j, 0 <= j < i -> matches crypt tsk (pwd_at j) = false) /\
     solve_one crypt fuel tsk = Done (Some (pwd_at i), i + 1)) \/
  (forall j, 0 <= j < candidates (dots (known_pwd tsk)) -> matches crypt tsk (pwd_at j) = false) /\
  solve_one crypt fuel tsk = Done (None, candidates (dots (known_pwd tsk))).
Proof.
  intros pwd_at. rewrite solve_one_solution by done. unfold solution. pose proof (first_hit_spec crypt tsk) as Hhit.
  pose proof (candidates_pos (dots (known_pwd tsk))).
  destruct (first_hit crypt tsk 0) as [[i pwd]|]; cbn [answer].
  - destruct Hhit as (Hm & -> & Hi & Hj). left. exists (Z.of_nat i). rewrite s32_small by lia. done.
  - right. split; [done|]. rewrite s32_small by lia. do 2 f_equal. lia.
Qed.

(** A task whose prefix is empty or all 'z' and that has no solution is searched
    forever: the last password is its own successor and keeps the prefix. *)
Theorem solve_one_endless crypt tsk
    (Hs : c_string (known_pwd tsk)) (Hz : Forall (fun c => c = LETTER_Z) (prefix_of_known (known_pwd tsk)))
    (Hnone : forall j, 0 <= j < candidates (dots (known_pwd tsk)) -> matches crypt tsk (first_password (known_pwd tsk) j) = false) :
  forall fuel, solve_one crypt fuel tsk = OutOfFuel.
Proof.
  intros fuel. pose proof (candidates_pos (dots (known_pwd tsk))). apply solve_loop_endless; [done..|lia|].
  pose proof (first_hit_spec crypt tsk) as Hhit. destruct (first_hit crypt tsk 0) as [[i pwd]|]; [|done].
  destruct Hhit as (Hm & -> & Hi & _). rewrite Hnone in Hm by lia. done.
Qed.

(** ** [cracker1]: the threads *)

(** The queue is first in, first out, and a thread that finds it empty waits. *)
Class QueueLaws (Q : Type) {LQ : QueueLib Q} := {
  queue_list : Q -> list (option task_t);
  queue_create_empty : queue_list queue_create = [];
  queue_push_back e q : queue_list (queue_push e q) = queue_list q ++ [e];
  queue_pull_empty q : queue_list q = [] -> queue_pull q = None;
  queue_pull_front q e l : queue_list q = e :: l -> exists q', queue_pull q = Some (e, q') /\ queue_list q' = l;
}.

#[export] Instance list_queue : QueueLib (list (option task_t)) := {
  queue_create := [];
  queue_push e q := q ++ [e];
  queue_pull q := match q with [] => None | e :: q => Some (e, q) end;
}.

#[export, refine] Instance list_queue_laws : QueueLaws (list (option task_t)) := {
  queue_list q := q;
}.
Proof. all: try done. - by intros q ->. - intros q e l ->. by exists l. Defined.

Section Cracker1.

Context {Q : Type} {LQ : QueueLib Q} {HQ : QueueLaws Q}.
Variable crypt : list Z -> list Z.
Variable fuel : nat.
Variable tasks : list task_t.

Definition result (tsk : task_t) : v1_result := V1Result (username tsk) (solution crypt tsk).1.

Definition recovered (out : list v1_result) : nat := length (filter (fun r => is_Some (v1_password r)) out).
Definition failed (out : list v1_result) : nat := length (filter (fun r => v1_password r = None) out).

Local Arguments recovered _ : simpl never.
Local Arguments failed _ : simpl never.

Lemma recovered_snoc out r : recovered (out ++ [r]) = (recovered out + match v1_password r with Some _ => 1 | None => 0 end)%nat.
Proof. unfold recovered. rewrite filter_app, length_app. cbn. unfold decide, is_Some_dec. by destruct (v1_password r). Qed.

Lemma failed_snoc out r : failed (out ++ [r]) = (failed out + match v1_password r with Some _ => 0 | None => 1 end)%nat.
Proof. unfold failed. rewrite filter_app, length_app, filter_cons. destruct (v1_password r); [by rewrite decide_False|by rewrite decide_True]. Qed.

Definition solving (t : v1_thread) : list task_t := match t with V1_solve tsk => [tsk] | _ => [] end.
Definition ending (t : v1_thread) : nat := match t with V1_end => 1 | _ => 0 end.
Definition leaving (t : v1_thread) : nat := match t with V1_end | V1_returned => 1 | _ => 0 end.

(** A thread in the first two states carries no sentinel; the sentinel is in the queue
    or with the one thread about to push it back. *)
Record v1_ok (v1_pending v1_finished : list task_t) (s : v1_state) : Prop := V1Ok {
  v1_ends : (sum_list_with ending (v1_threads s) <= 1)%nat;
  v1_queue : queue_list (q s) = map Some v1_pending ++ replicate (1 - sum_list_with ending (v1_threads s)) None;
  v1_all : v1_finished ++ mjoin (solving <$> v1_threads s) ++ v1_pending ≡ₚ tasks;
  v1_printed : v1_output s = result <$> v1_finished;
  v1_recovered : numRecovered s = s32 (Z.of_nat (recovered (v1_output s)));
  v1_failed : numFailed s = s32 (Z.of_nat (failed (v1_output s)));
  v1_empty : sum_list_with leaving (v1_threads s) <> 0%nat -> v1_pending = [];
}.

Definition v1_weight (t : v1_thread) : nat :=
  match t with V1_pull => 3 | V1_solve _ => 4 | V1_end => 1 | V1_returned => 0 end.

(** Decreases with every step. *)
Definition v1_work (s : v1_state) : nat := 2 * length (omap id (queue_list (q s))) + sum_list_with v1_weight (v1_threads s).

Definition v1_steps (a b : v1_state) : Prop := exists i, v1_step crypt fuel i a = Done (Some b).

Hypothesis Hgood : forall tsk, tsk ∈ tasks -> good_task tsk /\ candidates (dots (known_pwd tsk)) <= Z.of_nat fuel.

Lemma v1_pull_ok p f s i q' e l :
  v1_ok p f s -> v1_threads s !! i = Some V1_pull -> queue_list (q s) = e :: l -> queue_list q' = l ->
  let s' := V1State q' (<[i := match e with Some tsk => V1_solve tsk | None => V1_end end]> (v1_threads s)) (numRecovered s) (numFailed s) (v1_output s) in
  (exists p', v1_ok p' f s') /\ (v1_work s' < v1_work s)%nat.
Proof.
  intros [Hends Hq Hall Hout Hr Hf He] Hi Hl Hq' s'. unfold s', v1_work. cbn. rewrite Hq', Hl. rewrite Hl in Hq.
  apply insert_split in Hi as (l1 & l2 & Hts & _ & Hins). rewrite Hins, Hts in *. rewrite !sum_list_with_app, fmap_app, fmap_cons, join_app in *. cbn in *.
  destruct p as [|tsk p]; cbn in Hq.
  - destruct (sum_list_with ending l1 + sum_list_with ending l2)%nat as [|n] eqn:En; [|replace (1 - S n)%nat with O in Hq by lia; done].
    cbn in Hq. injection Hq as -> ->. split; [|cbn; lia]. exists []. split; cbn; try done.
    + rewrite sum_list_with_app. cbn. lia.
    + rewrite sum_list_with_app. cbn. replace (sum_list_with ending l1 + S (sum_list_with ending l2))%nat with 1%nat by lia. cbn. done.
    + by rewrite fmap_app, fmap_cons, join_app.
  - injection Hq as -> ->. split; [|cbn; lia]. exists p. split; cbn; try done; rewrite ?sum_list_with_app, ?fmap_app, ?fmap_cons, ?join_app; cbn; try done.
    + rewrite <- Hall. solve_Permutation.
    + intros Hne. specialize (He Hne). done.
Qed.
Definition v1_solved (i : nat) (tsk : task_t) (s : v1_state (Q := Q)) : v1_state (Q := Q) :=
  V1State (q s) (<[i := V1_pull]> (v1_threads s))
    (match (solution crypt tsk).1 with Some _ => s32 (numRecovered s + 1) | None => numRecovered s end)
    (match (solution crypt tsk).1 with Some _ => numFailed s | None => s32 (numFailed s + 1) end)
    (v1_output s ++ [result tsk]).

Lemma v1_solve_ok p f s i tsk :
  v1_ok p f s -> v1_threads s !! i = Some (V1_solve tsk) ->
  v1_ok p (f ++ [tsk]) (v1_solved i tsk s) /\ (v1_work (v1_solved i tsk s) < v1_work s)%nat.
Proof.
  intros [Hends Hq Hall Hout Hr Hf He] Hi. unfold v1_solved, v1_work.
  apply insert_split in Hi as (l1 & l2 & Hts & _ & Hins). rewrite Hins, Hts in *. rewrite !sum_list_with_app, fmap_app, fmap_cons, join_app in *. cbn in *.
  split; [split; cbn|cbn; rewrite sum_list_with_app; cbn; lia]; rewrite ?sum_list_with_app, ?fmap_app, ?fmap_cons, ?join_app; cbn; try done.
  - rewrite <- Hall. solve_Permutation.
  - by rewrite Hout.
  - rewrite recovered_snoc, Hr. cbn. destruct ((solution crypt tsk).1); rewrite ?s32_add_l; f_equal; lia.
  - rewrite failed_snoc, Hf. cbn. destruct ((solution crypt tsk).1); rewrite ?s32_add_l; f_equal; lia.
Qed.

Lemma v1_end_ok p f s i :
  v1_ok p f s -> v1_threads s !! i = Some V1_end ->
  let s' := V1State (queue_push None (q s)) (<[i := V1_returned]> (v1_threads s)) (numRecovered s) (numFailed s) (v1_output s) in
  v1_ok p f s' /\ (v1_work s' < v1_work s)%nat.
Proof.
  intros [Hends Hq Hall Hout Hr Hf He] Hi s'. unfold s', v1_work.
  apply insert_split in Hi as (l1 & l2 & Hts & _ & Hins). rewrite Hins, Hts in *. rewrite !sum_list_with_app, fmap_app, fmap_cons, join_app in *. cbn in *.
  rewrite queue_push_back, omap_app, length_app. split; [|cbn; rewrite sum_list_with_app; cbn; lia].
  split; cbn; rewrite ?sum_list_with_app, ?fmap_app, ?fmap_cons, ?join_app; cbn; try done; try lia.
  rewrite queue_push_back, Hq. replace (1 - (sum_list_with ending l1 + S (sum_list_with ending l2)))%nat with O by lia.
  replace (1 - (sum_list_with ending l1 + sum_list_with ending l2))%nat with 1%nat by lia. by rewrite app_nil_r.
Qed.

(** Every step is defined, keeps the invariant and leaves less work. *)
Lemma v1_step_ok p f s i :
  v1_ok p f s ->
  match v1_step crypt fuel i s with
  | Done (Some s') => (exists p' f', v1_ok p' f' s') /\ (v1_work s' < v1_work s)%nat
  | Done None => v1_threads s !! i = None \/ v1_threads s !! i = Some V1_returned \/ v1_threads s !! i = Some V1_pull /\ queue_list (q s) = []
  | _ => False
  end.
Proof.
  intros Hok. unfold v1_step. destruct (v1_threads s !! i) as [[|tsk| |]|] eqn:Hi; [| | |by eauto..].
  - destruct (queue_list (q s)) as [|e l] eqn:Hl; [rewrite queue_pull_empty by done; by eauto|].
    destruct (queue_pull_front (q s) e l Hl) as (q' & -> & Hq'). destruct (v1_pull_ok p f s i q' e l Hok Hi Hl Hq') as [[p' H] ?]. by eauto.
  - assert (tsk ∈ tasks) as Hin.
    { destruct Hok. rewrite <- v1_all0. apply elem_of_app. right. apply elem_of_app. left. apply list_elem_of_join.
      exists (solving (V1_solve tsk)). split; [cbn; by constructor|]. apply list_elem_of_fmap. exists (V1_solve tsk). split; [done|]. by eapply list_elem_of_lookup_2. }
    destruct (Hgood tsk Hin) as [Hg Hfu]. rewrite solve_one_solution by done. cbn [obind].
    destruct (v1_solve_ok p f s i tsk Hok Hi) as [H1 H2]. unfold v1_solved, result in *.
    destruct (solution crypt tsk) as [r h]. cbn [fst] in *. by eauto.
  - destruct (v1_end_ok p f s i Hok Hi) as [H1 H2]. by eauto.
Qed.

Lemma v1_steps_ok n s s' p f : v1_ok p f s -> nsteps v1_steps n s s' -> (exists p' f', v1_ok p' f' s') /\ (n + v1_work s' <= v1_work s)%nat /\ length (v1_threads s') = length (v1_threads s).
Proof.
  intros Hok Hn. revert p f Hok. induction Hn as [s|n s s1 s' [i Hi] _ IH]; intros p f Hok; [eauto with lia|].
  pose proof (v1_step_ok p f s i Hok) as H. rewrite Hi in H. destruct H as [(p1 & f1 & H1) H2].
  destruct (IH p1 f1 H1) as (H3 & H4 & H5). split; [done|]. split; [lia|]. rewrite H5.
  unfold v1_step in Hi. repeat case_match; simplify_eq; cbn; rewrite ?length_insert; try done.
  apply obind_Done in Hi as ([r h] & _ & [= <-]). cbn. by rewrite length_insert.
Qed.

Lemma queue_start q : queue_list (fold_left (fun q tsk => queue_push (Some tsk) q) tasks q) = queue_list q ++ map Some tasks.
Proof.
  clear Hgood. revert q. induction tasks as [|tsk l IH]; intros q; cbn; [by rewrite app_nil_r|].
  rewrite IH, queue_push_back, <- app_assoc. done.
Qed.

Lemma sum_replicate {A} (f : A -> nat) n a : sum_list_with f (replicate n a) = (n * f a)%nat.
Proof. induction n as [|n IH]; cbn; [done|]. by rewrite IH. Qed.

Lemma v1_start_ok T : v1_ok tasks [] (v1_start tasks T) /\ v1_work (v1_start tasks T) = (2 * length tasks + 3 * T)%nat.
Proof.
  unfold v1_work. cbn. rewrite queue_push_back, queue_start, queue_create_empty. cbn [app]. split.
  - split; cbn; rewrite ?sum_replicate; cbn; try lia; try done.
    + rewrite Nat.mul_0_r. by rewrite queue_push_back, queue_start, queue_create_empty.
    + by induction T.
  - rewrite sum_replicate, omap_app, length_app. cbn. replace (omap id (map Some tasks)) with tasks; [lia|].
    clear. induction tasks as [|tsk l IH]; [done|]. cbn. f_equal. apply IH.
Qed.

(** A state from which no thread can step. *)
Lemma v1_stuck p f s :
  v1_ok p f s -> v1_threads s <> [] -> (forall i, v1_step crypt fuel i s = Done None) ->
  Forall (fun t => t = V1_returned) (v1_threads s) /\ p = [].
Proof.
  intros Hok Hne Hstuck. destruct (Hok) as [Hends Hq Hall Hout Hr Hf He].
  assert (Hst : forall i t, v1_threads s !! i = Some t -> t = V1_returned \/ t = V1_pull /\ queue_list (q s) = []).
  { intros i t Hi. pose proof (v1_step_ok p f s i Hok) as H. rewrite Hstuck, Hi in H. naive_solver. }
  assert (Hend : sum_list_with ending (v1_threads s) = O).
  { apply Nat.le_0_r, not_lt. intros Hlt. clear -Hst Hlt. induction (v1_threads s) as [|t l IH]; cbn in Hlt; [lia|].
    destruct (Hst O t eq_refl) as [->|[-> _]]; cbn in Hlt; apply IH; try lia; intros i u Hi; apply (Hst (S i) u Hi). }
  rewrite Hend in Hq. cbn in Hq. assert (queue_list (q s) <> []) as Hq' by (rewrite Hq; by destruct p).
  assert (Hret : Forall (fun t => t = V1_returned) (v1_threads s)).
  { apply Forall_lookup. intros i t Hi. by destruct (Hst i t Hi) as [->|[_ ?]]. }
  split; [done|]. apply He. destruct (v1_threads s) as [|t l]; [done|]. apply Forall_cons in Hret as [-> _]. cbn. lia.
Qed.

End Cracker1.

(** C12. For tasks it can count through ([good_task]: C strings whose known prefix is
    not all "z"; on others it need not stop, [solve_one_endless]), and
    for every schedule of its threads, [cracker1] makes at most [2 * tasks + 3 *
    threads] steps, each defined, and can only stop when all threads have returned;
    every task has then been printed exactly once, with the password the dictionary
    search finds or as not recovered, and the totals of the summary count them. *)
Theorem cracker1_correct {Q : Type} {LQ : QueueLib Q} {HQ : QueueLaws Q} crypt fuel tasks T
    (Hgood : forall tsk, tsk ∈ tasks -> good_task tsk /\ candidates (dots (known_pwd tsk)) <= Z.of_nat fuel)
    (Hcount : Z.of_nat (length tasks) < 2147483648) (HT : (0 < T)%nat) :
  forall n s, nsteps (v1_steps (Q := Q) crypt fuel) n (v1_start tasks T) s ->
    (n <= 2 * length tasks + 3 * T)%nat /\
    (forall i, exists r, v1_step crypt fuel i s = Done r) /\
    ((forall i, v1_step crypt fuel i s = Done None) ->
       Forall (fun t => t = V1_returned) (v1_threads s) /\
       v1_output s ≡ₚ result crypt <$> tasks /\
       numRecovered s = Z.of_nat (recovered (v1_output s)) /\
       numFailed s = Z.of_nat (length tasks) - numRecovered s).
Proof.
  intros n s Hn. destruct (v1_start_ok crypt tasks T) as [H0 Hw].
  destruct (v1_steps_ok crypt fuel tasks Hgood _ _ _ _ _ H0 Hn) as ((p & f & Hok) & Hle & Hlen). split; [lia|]. split.
  - intros i. pose proof (v1_step_ok crypt fuel tasks Hgood p f s i Hok) as H. destruct (v1_step crypt fuel i s); try done. by eexists.
  - intros Hst. destruct (v1_stuck crypt fuel tasks Hgood p f s Hok) as [Hret ->]; [|done|].
    { intros Heq. rewrite Heq in Hlen. cbn in Hlen. rewrite length_replicate in Hlen. lia. }
    split; [done|]. destruct Hok as [_ _ Hall Hout Hr Hf _].
    assert (mjoin (solving <$> v1_threads s) = []) as Hm by (clear -Hret; induction Hret as [|t l -> _ IH]; [done|by cbn]).
    rewrite Hm in Hall. cbn in Hall. rewrite app_nil_r in Hall.
    assert (Hsum : (recovered (v1_output s) + failed (v1_output s) = length tasks)%nat).
    { rewrite <- Hall, <- (length_fmap (result crypt)), <- Hout. clear. generalize (v1_output s) as out. intros out.
      induction out as [|r out IH] using rev_ind; [done|]. rewrite recovered_snoc, failed_snoc, length_app. cbn. destruct (v1_password r); lia. }
    split; [by rewrite Hout, Hall|]. rewrite Hr, Hf, !s32_small by lia. lia.
Qed.

(** ** On concrete inputs: [rev] for the hash *)

(** "eve bb b." *)
Definition eve : task_t := Task [101; 118; 101] [98; 98] [98; 46].

(** No password, and a prefix of one 'z'. *)
Definition zoe : task_t := Task [122; 111; 101] [98; 98] [122; 46].

Lemma eve_string : c_string (known_pwd eve).
Proof. repeat constructor; lia. Qed.

Lemma eve_good : good_task eve.
Proof. split; [apply eve_string|]. apply Exists_cons. left. done. Qed.

Lemma zoe_no_password : forall j, 0 <= j < candidates (dots (known_pwd zoe)) -> matches (@rev Z) zoe (first_password (known_pwd zoe) j) = false.
Proof.
  intros j Hj. assert (H : forallb (fun j => negb (matches (@rev Z) zoe (first_password (known_pwd zoe) j))) (seqZ 0 26) = true) by (vm_compute; reflexivity).
  rewrite forallb_forall in H. apply negb_true_iff, H, list_elem_of_In, elem_of_seqZ. exact Hj.
Qed.

Lemma solve_one_correct_witness : solve_one (@rev Z) 26 eve = Done (Some [98; 98], 2) /\ good_task eve.
Proof.
  split; [|exact eve_good].
  destruct (solve_one_correct (@rev Z) eve 26 eve_good ltac:(vm_compute; reflexivity) ltac:(vm_compute; discriminate)) as [(i & _ & _ & _ & Hr)|[_ Hr]];
    clear Hr; vm_compute; reflexivity.
Defined.

Lemma solve_one_endless_witness : forall fuel, solve_one (@rev Z) fuel zoe = OutOfFuel.
Proof. apply (solve_one_endless (@rev Z) zoe); [repeat constructor; lia|repeat constructor|exact zoe_no_password]. Defined.

(** One thread: it takes the task, solves it, takes the sentinel and puts it back. *)
Definition eve_cracked : v1_state (Q := list (option task_t)) := V1State [None] [V1_returned] 1 0 [V1Result [101; 118; 101] (Some [98; 98])].

Lemma eve_run : nsteps (v1_steps (@rev Z) 26) 4 (v1_start [eve] 1) eve_cracked.
Proof. do 4 (eapply nsteps_l; [exists O; vm_compute; reflexivity|]). apply nsteps_O. Qed.

Lemma cracker1_correct_witness : numFailed eve_cracked = Z.of_nat 1 - 1.
Proof.
  refine (proj2 (proj2 (proj2 (proj2 (proj2 (cracker1_correct (@rev Z) 26 [eve] 1 _ _ _ 4 eve_cracked eve_run)) _)))); [|cbn; lia|lia|].
  - intros tsk Hin. apply list_elem_of_singleton in Hin as ->. split; [exact eve_good|vm_compute; discriminate].
  - intros [|i]; reflexivity.
Defined.
