(* ===== verification/Cracker2Spec.v ===== *)
(** * Correctness of [password_cracker/cracker2.c]

    Between two barriers all workers search for the password of one task.  Part 1 is
    such a round: what each worker knows ([knows]) and that every step keeps it, byte by
    byte while the password is copied.  Part 2 is the run of [main] and the workers over
    all lines, in three phases ([Gathering], [Searching], [Ending]); the invariant
    [v2_inv] has the work left ([work]), which every step decreases, and shows that
    somebody can always step.  The lemmas on candidates and ranges are in
    [CrackerSpec.v]. *)

From S2P Require Import Prelude CString Cracker CrackerSpec.
Open Scope Z_scope.

(** ** [cracker2]: a round *)

Definition zsum (l : list Z) : Z := foldr Z.add 0 l.

Lemma zsum_cons x l : zsum (x :: l) = x + zsum l.
Proof. done. Qed.

Lemma zsum_app l k : zsum (l ++ k) = zsum l + zsum k.
Proof. unfold zsum. induction l as [|x l IH]; cbn in *; [done|]. rewrite IH. lia. Qed.

Lemma zsum_insert {A} (f : nat -> A -> Z) l i t t' :
  l !! i = Some t -> zsum (imap f (<[i := t']> l)) = zsum (imap f l) - f i t + f i t'.
Proof.
  intros H. apply insert_split in H as (l1 & l2 & -> & -> & ->). rewrite !imap_app, !imap_cons, !zsum_app. cbn. rewrite Nat.add_0_r. lia.
Qed.

Lemma s32_idem x : s32 (s32 x) = s32 x.
Proof. rewrite <- (Z.add_0_r (s32 x)) at 1. by rewrite s32_add_l, Z.add_0_r. Qed.

(** A sum over threads in the same state. *)
Lemma zsum_telescope {A} (f : nat -> A -> Z) (F : nat -> Z) l :
  (forall i t, l !! i = Some t -> f i t = F (S i) - F i) -> zsum (imap f l) = F (length l) - F O.
Proof.
  induction l as [|t l IH] using rev_ind; intros Hf; [cbn; lia|]. rewrite imap_app, zsum_app, IH.
  - rewrite length_app. cbn. rewrite Nat.add_0_r, Nat.add_1_r, (Hf (length l) t); [lia|]. by rewrite lookup_app_r, Nat.sub_diag by lia.
  - intros i u Hi. apply Hf. by apply lookup_app_l_Some.
Qed.

Lemma zsum_nonneg {A} (f : nat -> A -> Z) l : (forall i t, l !! i = Some t -> 0 <= f i t) -> 0 <= zsum (imap f l).
Proof.
  induction l as [|t l IH] using rev_ind; intros Hf; [done|]. rewrite imap_app, zsum_app. cbn.
  assert (0 <= zsum (imap f l)) by (apply IH; intros i u Hi; apply Hf; by apply lookup_app_l_Some).
  specialize (Hf (length l) t). rewrite lookup_app_r, Nat.sub_diag in Hf by lia. specialize (Hf eq_refl). rewrite Nat.add_0_r. lia.
Qed.

Lemma zsum_bounds {A} (f : nat -> A -> Z) l : (forall i t, l !! i = Some t -> 0 <= f i t <= 1) -> 0 <= zsum (imap f l) <= Z.of_nat (length l).
Proof.
  induction l as [|t l IH] using rev_ind; intros Hf; [cbn; lia|]. rewrite imap_app, zsum_app, length_app. cbn.
  assert (0 <= zsum (imap f l) <= Z.of_nat (length l)) by (apply IH; intros i u Hi; apply Hf; by apply lookup_app_l_Some).
  specialize (Hf (length l) t). rewrite lookup_app_r, Nat.sub_diag in Hf by lia. specialize (Hf eq_refl). rewrite Nat.add_0_r. lia.
Qed.

Lemma zsum_all {A} (f : nat -> A -> Z) l :
  (forall i t, l !! i = Some t -> 0 <= f i t <= 1) -> zsum (imap f l) = Z.of_nat (length l) -> forall i t, l !! i = Some t -> f i t = 1.
Proof.
  induction l as [|u l IH] using rev_ind; intros Hf Hs i t Hi; [done|]. rewrite imap_app, zsum_app, length_app in Hs. cbn in Hs. rewrite Nat.add_0_r in Hs.
  assert (Hl : forall i t, l !! i = Some t -> 0 <= f i t <= 1) by (intros k v Hk; apply Hf; by apply lookup_app_l_Some).
  pose proof (zsum_bounds f l Hl). assert (Hu : 0 <= f (length l) u <= 1) by (apply Hf; by rewrite lookup_app_r, Nat.sub_diag by lia).
  apply lookup_app_Some in Hi as [Hi|[Hge Hi]]; [apply IH; [done|lia|done]|].
  apply list_lookup_singleton_Some in Hi as [Hi <-]. replace i with (length l) by lia. lia.
Qed.

Section Round.

Variable crypt : list Z -> list Z.
Variable tsk : task_t.
Variable T : nat.

Local Abbreviation total := (candidates (dots (known_pwd tsk))).
Local Abbreviation pwd_at := (first_password (known_pwd tsk)).
Local Abbreviation first i := (range_start (dots (known_pwd tsk)) (Z.of_nat T) (Z.of_nat i + 1)).

(** Thread [i] has the candidates from [first i] to [first (S i)]. *)
Definition range_size (i : nat) : Z := first (S i) - first i.

Definition is_hit (pwd : list Z) : Prop := exists j, 0 <= j < total /\ pwd = pwd_at j /\ matches crypt tsk pwd = true.

Definition none_in (a b : Z) : Prop := forall j, a <= j < b -> matches crypt tsk (pwd_at j) = false.

(** No two passwords of the task have its hash. *)
Definition one_password : Prop := forall p q, is_hit p -> is_hit q -> p = q.

(** The first [k] bytes of a password and its terminator are in the buffer. *)
Definition copied (k : nat) (pwd buf : list Z) : Prop := forall j, (j < k)%nat -> buf !! j = (pwd ++ [0]) !! j.

Definition stored (buf : list Z) : Prop := exists pwd, is_hit pwd /\ copied (S (length pwd)) pwd buf.

(** What thread [i] knows in a round, [fnd] and [buf] being the shared [found] and
    [curr_password] and [g] the generation of the second barrier. *)
Definition knows (fnd : bool) (buf : list Z) (g i : nat) (t : v2_worker) : Prop :=
  match t with
  | W_wait1 g' => (g' < g)%nat
  | W_check_done | W_begin => True
  | W_loop c count pwd hashes =>
      0 <= c <= count /\ count = range_size i /\ (c < count -> pwd = pwd_at (first i + c)) /\
      none_in (first i) (first i + c) /\ hashes = s32 c
  | W_copy k pwd _ => is_hit pwd /\ (k <= length pwd)%nat /\ copied k pwd buf
  | W_flag _ => stored buf
  | W_add _ => fnd = true
  | W_check hashes => fnd = true \/ none_in (first i) (first (S i)) /\ hashes = s32 (range_size i)
  | W_add_end hashes => none_in (first i) (first (S i)) /\ hashes = s32 (range_size i)
  | W_arrive2 => fnd = true \/ none_in (first i) (first (S i))
  | W_wait2 g' => g' = g /\ (fnd = true \/ none_in (first i) (first (S i)))
  | W_none | W_arrive1 | W_exit => False
  end.

(** The hashes a thread has reported when nothing is found. *)
Definition reported (i : nat) (t : v2_worker) : Z := match t with W_arrive2 | W_wait2 _ => range_size i | _ => 0 end.

Record round_ok (g : nat) (ws : list v2_worker) (buf : list Z) (fnd : bool) (th : Z) : Prop := RoundOk {
  r_buffer : length buf = 22%nat;
  r_knows : forall i t, ws !! i = Some t -> knows fnd buf g i t;
  r_found : fnd = true -> stored buf;
  r_total : fnd = false -> th = s32 (zsum (imap reported ws));
}.

(** The steps a worker has left before the second barrier opens, and two. *)
Definition round_weight (i : nat) (t : v2_worker) : Z :=
  let len := Z.of_nat (length (known_pwd tsk)) in
  match t with
  | W_wait1 _ => range_size i + len + 13
  | W_check_done => range_size i + len + 12
  | W_begin => range_size i + len + 11
  | W_loop c count _ _ => Z.max 0 (count - c) + len + 10
  | W_copy k _ _ => Z.max 0 (len - Z.of_nat k) + 10
  | W_flag _ => 9
  | W_add _ => 8
  | W_check _ => 7
  | W_add_end _ => 6
  | W_arrive2 => 5
  | W_wait2 _ => 4
  | W_none | W_arrive1 | W_exit => 0
  end.

(** The right summary of a round. *)
Definition right_summary (out : v2_summary) : Prop :=
  v2_user out = username tsk /\
  match v2_password out with
  | Some pwd => is_hit pwd
  | None => none_in 0 total /\ v2_hashes out = s32 total
  end.

Hypothesis Hstring : c_string (known_pwd tsk).
Hypothesis HT : (0 < T)%nat.

Lemma first_mono i j : (i <= j)%nat -> first i <= first j.
Proof. intros Hij. apply range_start_mono; lia. Qed.

Lemma first_0 : first 0 = 0.
Proof. apply range_start_first. Qed.

Lemma first_T : first T = total.
Proof. apply range_start_last. lia. Qed.

Lemma first_bounds i : (i <= T)%nat -> 0 <= first i <= total.
Proof. intros Hi. rewrite <- first_0 at 1. rewrite <- first_T. split; apply first_mono; lia. Qed.

Lemma range_size_nonneg i : 0 <= range_size i.
Proof. unfold range_size. pose proof (first_mono i (S i)). lia. Qed.

Lemma hit_length pwd : is_hit pwd -> length pwd = length (known_pwd tsk).
Proof. intros (j & _ & -> & _). apply length_first_password. Qed.

Lemma hit_no_zero pwd : is_hit pwd -> 0 ∉ pwd.
Proof.
  intros (j & Hj & -> & _). rewrite first_password_eq, not_elem_of_app. split; [by apply c_string_zero, prefix_c_string|].
  intros Hin. pose proof (candidate_letters (dots (known_pwd tsk)) j ltac:(lia)) as Hl. rewrite Forall_forall in Hl. specialize (Hl _ Hin). lia.
Qed.

Lemma byte_lookup (pwd : list Z) k : (k <= length pwd)%nat -> (pwd ++ [0]) !! k = Some (default 0 (pwd !! k)).
Proof.
  intros Hk. destruct (decide (k = length pwd)) as [->|].
  - rewrite lookup_app_r, Nat.sub_diag by lia. by rewrite (lookup_ge_None_2 pwd) by lia.
  - destruct (lookup_lt_is_Some_2 pwd k) as [x Hx]; [lia|]. by rewrite (lookup_app_l_Some _ _ _ _ Hx), Hx.
Qed.

(** Another thread that copies the same password does no harm. *)
Lemma copied_write pwd k n buf :
  (k <= length pwd)%nat -> (k < length buf)%nat -> copied n pwd buf -> copied n pwd (<[k := default 0 (pwd !! k)]> buf).
Proof.
  intros Hk Hb Hc j Hj. destruct (decide (k = j)) as [->|]; [by rewrite list_lookup_insert_eq, byte_lookup|]. rewrite list_lookup_insert_ne by done. by apply Hc.
Qed.

Lemma copied_next pwd k buf :
  (k <= length pwd)%nat -> (k < length buf)%nat -> copied k pwd buf -> copied (S k) pwd (<[k := default 0 (pwd !! k)]> buf).
Proof.
  intros Hk Hb Hc j Hj. destruct (decide (k = j)) as [->|]; [by rewrite list_lookup_insert_eq, byte_lookup|]. rewrite list_lookup_insert_ne by done. apply Hc. lia.
Qed.

Lemma stored_until_zero buf : stored buf -> is_hit (until_zero buf).
Proof.
  intros (pwd & Hp & Hc). replace buf with (pwd ++ 0 :: drop (S (length pwd)) buf); [by rewrite until_zero_app by (by apply hit_no_zero)|].
  transitivity ((pwd ++ [0]) ++ drop (S (length pwd)) buf); [by rewrite <- app_assoc|].
  rewrite <- (take_drop (S (length pwd)) buf) at 2. f_equal. apply list_eq. intros j.
  destruct (decide (j < S (length pwd))%nat) as [Hj|Hj]; [by rewrite lookup_take_lt, Hc|].
  rewrite lookup_take_ge, lookup_ge_None_2 by (rewrite ?length_app; cbn; lia). done.
Qed.

Lemma knows_mono fnd buf fnd' buf' g i t :
  knows fnd buf g i t -> (fnd = true -> fnd' = true) -> (forall n pwd, is_hit pwd -> copied n pwd buf -> copied n pwd buf') -> knows fnd' buf' g i t.
Proof. intros Hk Hf Hc. destruct t; cbn in *; try naive_solver. destruct Hk as (pwd & H1 & H2). exists pwd. auto. Qed.

Lemma round_update g ws buf fnd th i t t' buf' fnd' th' :
  round_ok g ws buf fnd th -> ws !! i = Some t -> reported i t = 0 ->
  (fnd = true -> fnd' = true) -> length buf' = 22%nat ->
  (forall n pwd, is_hit pwd -> copied n pwd buf -> copied n pwd buf') ->
  (fnd' = true -> stored buf') -> knows fnd' buf' g i t' -> (fnd' = false -> th' = s32 (th + reported i t')) ->
  round_ok g (<[i := t']> ws) buf' fnd' th'.
Proof.
  intros [Hb Hk Hf Ht] Hi Hr Hff Hlb Hc Hst Hkn Hth. split; [done| |done|].
  - intros k u Hu. apply list_lookup_insert_Some in Hu as [(-> & -> & _)|[Hne Hu]]; [done|]. eapply knows_mono; [by apply Hk|done..].
  - intros Hf'. rewrite Hth by done. rewrite Ht by (destruct fnd; [by rewrite Hff in Hf'|done]). rewrite s32_add_l, (zsum_insert reported _ _ _ t' Hi), Hr. f_equal. lia.
Qed.

(** A move that writes nothing and reports nothing. *)
Lemma round_move g ws buf fnd th i t t' :
  round_ok g ws buf fnd th -> ws !! i = Some t -> reported i t = 0 -> reported i t' = 0 -> knows fnd buf g i t' ->
  round_ok g (<[i := t']> ws) buf fnd th.
Proof.
  intros Hok Hi Hr Hr' Hk. apply (round_update g ws buf fnd th i t t' buf fnd th Hok Hi Hr); try done; [apply Hok..|].
  intros Hf. rewrite Hr', (r_total _ _ _ _ _ Hok Hf), s32_add_l. by rewrite Z.add_0_r.
Qed.

Lemma round_arrive g ws buf fnd th i :
  round_ok g ws buf fnd th -> ws !! i = Some W_arrive2 -> round_ok g (<[i := W_wait2 g]> ws) buf fnd th.
Proof.
  intros [Hb Hk Hf Ht] Hi. split; [done| |done|].
  - intros k u Hu. apply list_lookup_insert_Some in Hu as [(-> & <- & _)|[Hne Hu]]; [|by apply Hk]. split; [done|]. apply (Hk k _ Hi).
  - intros H. rewrite (zsum_insert reported _ _ _ _ Hi), (Ht H). f_equal. cbn. lia.
Qed.

(** One iteration of the loop that finds nothing. *)
Lemma loop_next fnd buf g i c count pwd h :
  knows fnd buf g i (W_loop c count pwd h) -> (i < T)%nat -> c < count -> matches crypt tsk pwd = false ->
  knows fnd buf g i (W_loop (c + 1) count (incrementString pwd).2 (s32 (h + 1))).
Proof.
  cbn. intros (Hc & Hcount & Hp & Hn & Hh) Hi Hlt Hm. specialize (Hp Hlt). pose proof (first_bounds i ltac:(lia)). pose proof (first_bounds (S i) ltac:(lia)).
  unfold range_size in *. split; [lia|]. split; [done|]. split; [|split].
  - intros Hlt'. rewrite Hp, increment_first_password by (done || lia). cbn. f_equal. lia.
  - intros j Hj. destruct (decide (j = first i + c)) as [->|]; [by rewrite <- Hp|]. apply Hn. lia.
  - by rewrite Hh, s32_add_l.
Qed.

Lemma loop_hit fnd buf g i c count pwd h :
  knows fnd buf g i (W_loop c count pwd h) -> (i < T)%nat -> c < count -> matches crypt tsk pwd = true -> is_hit pwd.
Proof.
  cbn. intros (Hc & Hcount & Hp & _) Hi Hlt Hm. exists (first i + c). rewrite <- Hp by done.
  pose proof (first_bounds i ltac:(lia)). pose proof (first_bounds (S i) ltac:(lia)). unfold range_size in *. split; [lia|done].
Qed.

(** Behind the second barrier. *)
Lemma round_right g ws buf fnd th :
  round_ok g ws buf fnd th -> length ws = T -> (forall i t, ws !! i = Some t -> t = W_wait2 g) ->
  right_summary (V2Summary (username tsk) (if fnd then Some (until_zero buf) else None) th).
Proof.
  intros [Hb Hk Hf Ht] Hl Hw. split; [done|]. cbn. destruct fnd; [by apply stored_until_zero, Hf|]. split.
  - intros j Hj. destruct (range_cover (dots (known_pwd tsk)) (Z.of_nat T) j) as (t & Hr & Hin); [lia|done|].
    destruct (lookup_lt_is_Some_2 ws (Z.to_nat (t - 1))) as [u Hu]; [lia|].
    pose proof (Hk _ _ Hu) as Hkn. rewrite (Hw _ _ Hu) in Hkn. destruct Hkn as [_ [?|Hn]]; [done|].
    apply Hn. replace (Z.of_nat (Z.to_nat (t - 1)) + 1) with t by lia. replace (Z.of_nat (S (Z.to_nat (t - 1))) + 1) with (t + 1) by lia. done.
  - rewrite Ht by done. f_equal. rewrite (zsum_telescope _ (fun i => first i)); [by rewrite Hl, first_T, first_0, Z.sub_0_r|].
    intros i t Hi. by rewrite (Hw i t Hi).
Qed.

(** All workers at the first barrier. *)
Lemma round_begin g ws buf :
  length ws = T -> length buf = 22%nat -> (forall i t, ws !! i = Some t -> t = W_wait1 g) ->
  round_ok (S g) ws buf false 0 /\ zsum (imap round_weight ws) = total + Z.of_nat T * (Z.of_nat (length (known_pwd tsk)) + 13).
Proof.
  intros Hl Hb Hw. split; [split; [done| |done|]|].
  - intros i t Hi. rewrite (Hw i t Hi). cbn. lia.
  - intros _. rewrite (zsum_telescope _ (fun _ => 0)); [done|]. intros i t Hi. by rewrite (Hw i t Hi).
  - rewrite (zsum_telescope _ (fun i => first i + Z.of_nat i * (Z.of_nat (length (known_pwd tsk)) + 13))).
    + rewrite Hl, first_T, first_0. lia.
    + intros i t Hi. rewrite (Hw i t Hi). cbn. unfold range_size. lia.
Qed.

Hypothesis Hbig : total * Z.of_nat T < 9223372036854775808.
Hypothesis Hone : one_password.
Hypothesis Hlen : (length (known_pwd tsk) <= 21)%nat.

Lemma worker_begin i : (i < T)%nat ->
  getSubrange (length (known_pwd tsk) - getPrefixLength (known_pwd tsk)) (Z.of_nat T) (Z.of_nat (S i)) = Done (first i, range_size i).
Proof.
  intros Hi. fold (dots (known_pwd tsk)). rewrite thread_range_eq by lia. unfold range_size. by rewrite !Nat2Z.inj_succ.
Qed.

Definition in_barrier (t : v2_worker) : bool := match t with W_wait1 _ | W_wait2 _ => true | _ => false end.

(** A worker's step in a round, but at the second barrier. *)
Lemma round_step m ws a g buf fnd th lines out i t :
  round_ok g ws buf fnd th -> ws !! i = Some t -> (i < T)%nat -> t <> W_arrive2 -> t <> W_wait2 g ->
  exists t' buf' fnd' th',
    worker_step crypt T i (V2State m ws (PBarrier a g) (V2Shared (Some tsk) (Some buf) fnd th false) lines out) =
      Done (Some (V2State m (<[i := t']> ws) (PBarrier a g) (V2Shared (Some tsk) (Some buf') fnd' th' false) lines out)) /\
    round_ok g (<[i := t']> ws) buf' fnd' th' /\ round_weight i t' < round_weight i t /\ in_barrier t' = false.
Proof.
  intros Hok Hi HiT Ha Hw. pose proof (r_knows _ _ _ _ _ Hok i t Hi) as Hk. pose proof (r_buffer _ _ _ _ _ Hok) as Hb.
  pose proof (range_size_nonneg i) as Hr. unfold worker_step. cbn [workers]. rewrite Hi. cbn [shared deref obind curr_task curr_password found total_hashes task_done].
  destruct t as [| |g'| | |c count pwd h|k pwd h|h|h|h|h| |g'|]; try done; cbn in Hk.
  - unfold opened. cbn. rewrite (proj2 (Nat.eqb_neq _ _)) by lia. cbn [negb]. eexists _, _, _, _. split; [done|].
    split; [by eapply round_move|]. split; [cbn; lia|done].
  - eexists _, _, _, _. split; [done|]. split; [by eapply round_move|]. split; [cbn; lia|done].
  - rewrite worker_begin by done. cbn [obind]. eexists _, _, _, _. split; [done|]. split; [|split; [cbn; lia|done]].
    eapply round_move; try done. cbn. do 2 (split; [done|]). split; [by rewrite Z.add_0_r|]. split; [intros j Hj; lia|done].
  - destruct (c <? count) eqn:Ec; bool_to_prop; cbn [deref obind].
    + destruct (matches crypt tsk pwd) eqn:Hm; [|destruct fnd eqn:Hf].
      * pose proof (loop_hit fnd buf g i c count pwd h Hk HiT Ec Hm) as Hh. eexists _, _, _, _. split; [done|]. split; [|split; [cbn; lia|done]].
        eapply round_move; try done. split; [done|]. split; [lia|]. intros j Hj. lia.
      * eexists _, _, _, _. split; [done|]. split; [by eapply round_move|]. split; [cbn; lia|done].
      * eexists _, _, _, _. split; [done|]. split; [|split; [cbn; lia|done]]. eapply round_move; try done. by apply loop_next.
    + eexists _, _, _, _. split; [done|]. split; [|split; [cbn; lia|done]]. eapply round_move; try done.
      destruct Hk as (Hc & Hcount & _ & Hn & ->). assert (c = range_size i) as -> by lia. right. split; [|done].
      unfold range_size in Hn. by replace (first i + (first (S i) - first i)) with (first (S i)) in Hn by lia.
  - destruct Hk as (Hh & Hkl & Hc). pose proof (hit_length _ Hh) as Hlp. rewrite (proj2 (Nat.ltb_lt _ _)) by lia.
    assert (Hmono : forall n q, is_hit q -> copied n q buf -> copied n q (<[k := default 0 (pwd !! k)]> buf))
      by (intros n q Hq; rewrite (Hone q pwd Hq Hh); apply copied_write; lia).
    assert (Hst : fnd = true -> stored (<[k := default 0 (pwd !! k)]> buf)) by (intros Hf; destruct (r_found _ _ _ _ _ Hok Hf) as (q & Hq & Hcq); exists q; auto).
    assert (Hth : forall t', reported i t' = 0 -> fnd = false -> th = s32 (th + reported i t')) by (intros t' -> Hf; by rewrite (r_total _ _ _ _ _ Hok Hf), Z.add_0_r, s32_idem).
    pose proof (copied_next pwd k buf Hkl ltac:(lia) Hc) as Hn.
    destruct (Nat.ltb_spec k (length pwd)) as [El|El]; eexists _, _, _, _; (split; [done|]); (split; [|split; [cbn; lia|done]]);
      apply (round_update g ws buf fnd th i _ _ _ fnd th Hok Hi); try done; try (by rewrite length_insert); try (by apply Hth).
    exists pwd. split; [done|]. by replace (length pwd) with k by lia.
  - eexists _, buf, true, th. split; [done|]. split; [|split; [cbn; lia|done]].
    by apply (round_update g ws buf fnd th i _ _ buf true th Hok Hi).
  - eexists _, buf, fnd, _. split; [done|]. split; [|split; [cbn; lia|done]].
    apply (round_update g ws buf fnd th i _ _ buf fnd _ Hok Hi); try done; [apply Hok|by left|]. intros Hf. congruence.
  - eexists _, _, _, _. split; [done|]. split; [|split; [destruct fnd; cbn; lia|by destruct fnd]]. destruct fnd.
    + apply (round_update g ws buf true th i _ _ buf true th Hok Hi); try done; [apply Hok|by left].
    + eapply round_move; try done. by destruct Hk as [|Hk].
  - eexists _, buf, fnd, _. split; [done|]. split; [|split; [cbn; lia|done]]. destruct Hk as [Hn ->].
    apply (round_update g ws buf fnd th i _ _ buf fnd _ Hok Hi); try done; [apply Hok|by right|]. intros _. cbn. by rewrite Z.add_comm, s32_add_l, Z.add_comm.
  - destruct Hk as [-> _]. by destruct Hw.
Qed.

End Round.

(** ** [cracker2]: the run *)

(** A task whose parts fit the buffers and whose ranges fit the integers. *)
Definition small_task (T : nat) (tsk : task_t) : Prop :=
  c_string (known_pwd tsk) /\ (length (username tsk) <= 8)%nat /\ (length (hashed_pwd tsk) <= 13)%nat /\ (length (known_pwd tsk) <= 21)%nat /\
  candidates (dots (known_pwd tsk)) * Z.of_nat T < 9223372036854775808.

(** One that waits in a barrier of generation [g]. *)
Definition waits (g : nat) (t : v2_worker) : Z := match t with W_wait1 g' | W_wait2 g' => if decide (g' = g) then 1 else 0 | _ => 0 end.
Definition main_waits (g : nat) (m : v2_main) : Z :=
  match m with M_wait1 g' | M_wait2 g' | M_wait_end g' => if decide (g' = g) then 1 else 0 | _ => 0 end.
Definition waiting (g : nat) (ws : list v2_worker) : Z := zsum (imap (fun _ => waits g) ws).

(** The workers come together for the next line, search, or end. *)
Inductive phase := Gathering | Searching | Ending.

Definition created (T : nat) (m : v2_main) : nat := match m with M_create i => i | _ => T end.

Definition gathering_worker (g created i : nat) (t : v2_worker) : Prop :=
  match t with
  | W_none => (created <= i)%nat
  | W_arrive1 => (i < created)%nat
  | W_wait1 g' => (i < created)%nat /\ g' = g
  | W_wait2 g' => (i < created)%nat /\ (g' < g)%nat
  | _ => False
  end.

Definition ending_worker (g : nat) (t : v2_worker) : Prop :=
  match t with W_wait1 g' => (g' < g)%nat | W_check_done | W_exit => True | _ => False end.

Definition buffers (tsk : task_t) (f : bool) (h : Z) (d : bool) (sh : v2_shared) : Prop :=
  exists buf, length buf = 22%nat /\ sh = V2Shared (Some tsk) (Some buf) f h d.

Definition exited (n : nat) (ws : list v2_worker) : Prop := forall i, (i < n)%nat -> ws !! i = Some W_exit.

Definition base_weight (t : v2_worker) : Z :=
  match t with W_wait2 _ => 4 | W_none | W_arrive1 => 3 | W_wait1 _ => 2 | W_check_done => 1 | _ => 0 end.

#[local] Instance v2_worker_eq_dec : EqDecision v2_worker.
Proof. solve_decision. Defined.

Section Run.

Variable crypt : list Z -> list Z.
Variable T : nat.
Variable tasks : list task_t.

Definition main_gathering (g : nat) (m : v2_main) (sh : v2_shared) (cur : option task_t) (future : list task_t) : Prop :=
  match m with
  | M_create i => cur = None /\ (i <= T)%nat /\ sh = V2Shared None None false 0 false
  | M_allocate => cur = None /\ sh = V2Shared None None false 0 false
  | M_read => cur = None /\ exists tsk, buffers tsk false 0 false sh
  | M_reset_total => cur = None /\ exists tsk h, buffers tsk false h false sh
  | M_reset_found => cur = None /\ exists tsk f h, buffers tsk f h false sh
  | M_arrive1 => exists tsk, cur = Some tsk /\ buffers tsk false 0 false sh
  | M_wait1 g' => g' = g /\ exists tsk, cur = Some tsk /\ buffers tsk false 0 false sh
  | M_wait2 _ | M_summary =>
      main_waits g m = 0 /\ exists tsk buf f h, cur = Some tsk /\ sh = V2Shared (Some tsk) (Some buf) f h false /\ length buf = 22%nat /\
        right_summary crypt tsk (V2Summary (username tsk) (if f then Some (until_zero buf) else None) h)
  | M_finish => cur = None /\ future = [] /\ exists tsk f h, buffers tsk f h false sh
  | M_arrive_end => cur = None /\ future = [] /\ exists tsk f h, buffers tsk f h true sh
  | M_wait_end g' => g' = g /\ cur = None /\ future = [] /\ exists tsk f h, buffers tsk f h true sh
  | _ => False
  end.

Definition main_searching (g : nat) (m : v2_main) : Prop :=
  match m with M_wait1 g' => (g' < g)%nat | M_arrive2 => True | M_wait2 g' => g' = g | _ => False end.

Definition main_ending (g : nat) (m : v2_main) (sh : v2_shared) (ws : list v2_worker) : Prop :=
  task_done sh = true /\
  match m with
  | M_wait_end g' => (g' < g)%nat /\ exists tsk f h, buffers tsk f h true sh
  | M_join i => (i <= T)%nat /\ exited i ws /\ exists tsk f h, buffers tsk f h true sh
  | M_free => exited T ws /\ exists tsk f h, buffers tsk f h true sh
  | M_returned => exited T ws
  | _ => False
  end.

Definition phase_ok (ph : phase) (cur : option task_t) (future : list task_t) (s : v2_state) : Prop :=
  let g := generation (barrier s) in
  match ph with
  | Gathering =>
      main_gathering g (main s) (shared s) cur future /\
      forall i t, workers s !! i = Some t -> gathering_worker g (created T (main s)) i t
  | Searching =>
      main_searching g (main s) /\
      exists tsk buf f h, cur = Some tsk /\ shared s = V2Shared (Some tsk) (Some buf) f h false /\ round_ok crypt tsk T g (workers s) buf f h
  | Ending =>
      cur = None /\ future = [] /\ main_ending g (main s) (shared s) (workers s) /\
      forall i t, workers s !! i = Some t -> ending_worker g t
  end.

(** The tasks are those summed up, the one in work and those not read. *)
Record v2_inv (ph : phase) (past : list task_t) (cur : option task_t) (future : list task_t) (s : v2_state) : Prop := V2Inv {
  i_length : length (workers s) = T;
  i_arrived : Z.of_nat (arrived (barrier s)) = waiting (generation (barrier s)) (workers s) + main_waits (generation (barrier s)) (main s);
  i_closed : (arrived (barrier s) <= T)%nat;
  i_tasks : tasks = past ++ option_list cur ++ future;
  i_input : parse_tasks (input s) = Done future;
  i_output : Forall2 (right_summary crypt) past (v2_output s);
  i_phase : phase_ok ph cur future s;
}.

(** The steps that are left at most. *)
Definition share (tsk : task_t) : Z := candidates (dots (known_pwd tsk)) + Z.of_nat T * (Z.of_nat (length (known_pwd tsk)) + 11).

Definition task_cost (tsk : task_t) : Z := share tsk + 8.

Definition main_weight (m : v2_main) : Z :=
  let T := Z.of_nat T in
  match m with
  | M_create i => Z.max 0 (T - Z.of_nat i) + T + 8
  | M_arrive1 => T + 13
  | M_wait1 _ => T + 12
  | M_arrive2 => T + 11
  | M_wait2 _ => T + 10
  | M_summary => T + 9
  | M_reset_found => T + 8
  | M_reset_total | M_allocate => T + 7
  | M_read => T + 6
  | M_finish => T + 5
  | M_arrive_end => T + 4
  | M_wait_end _ => T + 3
  | M_join i => Z.max 0 (T - Z.of_nat i) + 2
  | M_free => 1
  | M_returned => 0
  end.

(** What the workers will get. *)
Definition carry (m : v2_main) (cur : option task_t) : Z :=
  match m, cur with M_arrive1, Some tsk | M_wait1 _, Some tsk => share tsk | _, _ => 0 end.

Definition worker_work (ph : phase) (cur : option task_t) (m : v2_main) (ws : list v2_worker) : Z :=
  match ph, cur with
  | Searching, Some tsk => zsum (imap (round_weight tsk T) ws)
  | _, _ => carry m cur + zsum (imap (fun _ => base_weight) ws)
  end.

Definition work (ph : phase) (cur : option task_t) (future : list task_t) (s : v2_state) : Z :=
  zsum (map task_cost future) + main_weight (main s) + worker_work ph cur (main s) (workers s).

#[local] Arguments waiting : simpl never.
#[local] Arguments zsum : simpl never.

Hypothesis HT : (0 < T)%nat.
Hypothesis Hgood : Forall (fun tsk => small_task T tsk /\ one_password crypt tsk) tasks.

(** ** The barrier *)

Lemma waits_bounds g t : 0 <= waits g t <= 1.
Proof. unfold waits. destruct t; try lia; case_decide; lia. Qed.

Lemma waiting_insert g ws i t t' : ws !! i = Some t -> waiting g (<[i := t']> ws) = waiting g ws - waits g t + waits g t'.
Proof. apply (zsum_insert (fun _ => waits g)). Qed.

Lemma waiting_next g ws : (forall i t, ws !! i = Some t -> waits g t = 1) -> waiting (S g) ws = 0.
Proof.
  intros H. unfold waiting. rewrite (zsum_telescope _ (fun _ => 0)); [done|]. intros i t Hi. specialize (H i t Hi). unfold waits in *.
  destruct t; try done; repeat case_decide; lia.
Qed.

Lemma main_waits_next g m : main_waits g m = 1 -> main_waits (S g) m = 0.
Proof. unfold main_waits. destruct m; try done; repeat case_decide; lia. Qed.

Lemma all_wait a g m ws :
  length ws = T -> Z.of_nat a = waiting g ws + main_waits g m -> a = (T + 1)%nat ->
  (forall i t, ws !! i = Some t -> waits g t = 1) /\ main_waits g m = 1.
Proof.
  intros Hl Ha ->. assert (Hm : 0 <= main_waits g m <= 1) by (unfold main_waits; destruct m; try lia; case_decide; lia).
  assert (Hb : forall i t, ws !! i = Some t -> 0 <= waits g t <= 1) by (intros; apply waits_bounds).
  pose proof (zsum_bounds (fun _ => waits g) ws Hb). split; [|unfold waiting in *; lia].
  apply (zsum_all (fun _ => waits g) ws Hb). unfold waiting in *. lia.
Qed.

(** The last one to arrive opens the barrier: the workers go on to the search, to the
    next line or to the end. *)
Lemma gathering_opens past cur future g m ws sh lines out :
  length ws = T -> tasks = past ++ option_list cur ++ future -> parse_tasks lines = Done future -> Forall2 (right_summary crypt) past out ->
  phase_ok Gathering cur future (V2State m ws (PBarrier 0 g) sh lines out) ->
  (forall i t, ws !! i = Some t -> waits g t = 1) -> main_waits g m = 1 ->
  exists ph, v2_inv ph past cur future (V2State m ws (PBarrier 0 (S g)) sh lines out) /\
    worker_work ph cur m ws = worker_work Gathering cur m ws.
Proof.
  intros Hl Ht Hin Hout [Hm Hw] Hall Hmain. cbn in Hm, Hw.
  assert (Hw1 : forall i t, ws !! i = Some t -> t = W_wait1 g).
  { intros i t Hi. specialize (Hall i t Hi). specialize (Hw i t Hi). unfold waits in Hall. destruct t; try done; cbn in Hw; [by destruct Hw as [_ ->]|]. case_decide; lia. }
  destruct m as [| | | |g'| |g'| | | | | |g'| | |]; try done; cbn in Hm.
  - destruct Hm as [-> (tsk & -> & buf & Hb & ->)]. rewrite Forall_forall in Hgood. destruct (Hgood tsk) as [(Hs & _) _].
    { rewrite Ht. apply elem_of_app. right. cbn. apply elem_of_cons. by left. }
    destruct (round_begin crypt tsk T HT g ws buf Hl Hb Hw1) as [Hr Hwt]. exists Searching. split.
    + split; cbn; try done; [|lia|].
      * rewrite waiting_next, decide_False by (done || lia). done.
      * split; [cbn; lia|]. by exists tsk, buf, false, 0.
    + cbn. rewrite Hwt. unfold share. rewrite (zsum_telescope (fun _ => base_weight) (fun i => 2 * Z.of_nat i)); [rewrite Hl; lia|].
      intros i t Hi. rewrite (Hw1 i t Hi). cbn. lia.
  - destruct Hm as [Hg _]. cbn in Hmain. rewrite Hg in Hmain. lia.
  - destruct Hm as (-> & -> & -> & tsk & f & h & buf & Hb & ->). exists Ending. split; [|done]. split; cbn; try done; [|lia|].
    + rewrite waiting_next, decide_False by (done || lia). done.
    + do 2 (split; [done|]). split; [split; [done|]; split; [lia|]; by exists tsk, f, h, buf|]. intros i t Hi. rewrite (Hw1 i t Hi). cbn. lia.
Qed.

Lemma searching_opens past cur future g m ws sh lines out :
  length ws = T -> tasks = past ++ option_list cur ++ future -> parse_tasks lines = Done future -> Forall2 (right_summary crypt) past out ->
  phase_ok Searching cur future (V2State m ws (PBarrier 0 g) sh lines out) ->
  (forall i t, ws !! i = Some t -> waits g t = 1) -> main_waits g m = 1 ->
  v2_inv Gathering past cur future (V2State m ws (PBarrier 0 (S g)) sh lines out) /\
    worker_work Gathering cur m ws = worker_work Searching cur m ws.
Proof.
  intros Hl Ht Hin Hout [Hm (tsk & buf & f & h & -> & Hsh & Hr)] Hall Hmain. cbn in Hm, Hsh, Hr. subst sh.
  assert (Hw2 : forall i t, ws !! i = Some t -> t = W_wait2 g).
  { intros i t Hi. specialize (Hall i t Hi). pose proof (r_knows _ _ _ _ _ _ _ _ Hr i t Hi) as Hk. unfold waits in Hall. destruct t; try done; cbn in Hk; [case_decide; lia|by destruct Hk as [-> _]]. }
  destruct m as [| | | |g'| |g'| | | | | | | | |]; try done; cbn in Hm; [cbn in Hmain; case_decide; lia|]. subst g'.
  rewrite Forall_forall in Hgood. destruct (Hgood tsk) as [(Hs & _) _].
  { rewrite Ht. apply elem_of_app. right. cbn. apply elem_of_cons. by left. }
  split.
  - split; cbn; try done; [|lia|].
    + rewrite waiting_next, decide_False by (done || lia). done.
    + split; cbn.
      * rewrite decide_False by lia. split; [done|]. exists tsk, buf, f, h. split; [done|]. split; [done|]. split; [apply Hr|]. by eapply round_right.
      * intros i t Hi. rewrite (Hw2 i t Hi). cbn. split; [rewrite <- Hl; by eapply lookup_lt_Some|lia].
  - cbn. rewrite Z.add_0_l. f_equal. apply imap_ext. intros i t Hi. by rewrite (Hw2 i t Hi).
Qed.

Lemma arrived_inv ph past cur future m ws a g sh lines out :
  length ws = T -> (a <= T)%nat -> Z.of_nat (S a) = waiting g ws + main_waits g m ->
  tasks = past ++ option_list cur ++ future -> parse_tasks lines = Done future -> Forall2 (right_summary crypt) past out ->
  phase_ok ph cur future (V2State m ws (PBarrier a g) sh lines out) -> ph <> Ending ->
  exists ph', v2_inv ph' past cur future (V2State m ws (pthread_barrier_arrive (T + 1) (PBarrier a g)) sh lines out) /\
    worker_work ph' cur m ws = worker_work ph cur m ws.
Proof.
  intros Hl Ha Hw Ht Hin Hout Hph Hne. unfold pthread_barrier_arrive. cbn [arrived generation].
  destruct (Nat.eqb_spec (S a) (T + 1)) as [He|He].
  - destruct (all_wait (S a) g m ws Hl Hw He) as [Hall Hmain]. destruct ph; [|exists Gathering|done].
    + by apply (gathering_opens past cur future g m ws sh lines out).
    + by apply searching_opens.
  - exists ph. split; [|done]. split; cbn; try done. lia.
Qed.

Lemma worker_arrived ph past cur future m ws a g sh lines out i t t' :
  v2_inv ph past cur future (V2State m ws (PBarrier a g) sh lines out) -> ws !! i = Some t -> waits g t = 0 -> waits g t' = 1 ->
  phase_ok ph cur future (V2State m (<[i := t']> ws) (PBarrier a g) sh lines out) -> ph <> Ending ->
  exists ph', v2_inv ph' past cur future (V2State m (<[i := t']> ws) (pthread_barrier_arrive (T + 1) (PBarrier a g)) sh lines out) /\
    worker_work ph' cur m (<[i := t']> ws) = worker_work ph cur m (<[i := t']> ws).
Proof.
  intros [Hl Ha Hc Ht Hin Hout _] Hi Ht0 Ht1 Hph Hne. cbn in *. apply arrived_inv; try done; [by rewrite length_insert|].
  rewrite (waiting_insert _ _ _ _ _ Hi). lia.
Qed.

Lemma worker_moved ph past cur future m ws a g sh sh' lines out i t t' :
  v2_inv ph past cur future (V2State m ws (PBarrier a g) sh lines out) -> ws !! i = Some t -> waits g t = 0 -> waits g t' = 0 ->
  phase_ok ph cur future (V2State m (<[i := t']> ws) (PBarrier a g) sh' lines out) ->
  v2_inv ph past cur future (V2State m (<[i := t']> ws) (PBarrier a g) sh' lines out).
Proof.
  intros [Hl Ha Hc Ht Hin Hout _] Hi Ht0 Ht1 Hph. cbn in *. split; cbn; try done; [by rewrite length_insert|].
  rewrite (waiting_insert _ _ _ _ _ Hi). lia.
Qed.

Lemma base_insert (ws : list v2_worker) i t t' : ws !! i = Some t ->
  zsum (imap (fun _ => base_weight) (<[i := t']> ws)) = zsum (imap (fun _ => base_weight) ws) - base_weight t + base_weight t'.
Proof. apply (zsum_insert (fun _ => base_weight)). Qed.

(** A step that does no harm: what it leads to keeps the invariant with less work. *)
Definition good_step (o : outcome (option v2_state)) (w : Z) : Prop :=
  match o with
  | Done (Some s) => exists ph past cur future, v2_inv ph past cur future s /\ work ph cur future s < w
  | Done None => True
  | _ => False
  end.

Lemma gathering_insert g c (ws : list v2_worker) i t' :
  (forall i t, ws !! i = Some t -> gathering_worker g c i t) -> gathering_worker g c i t' ->
  forall j t, <[i := t']> ws !! j = Some t -> gathering_worker g c j t.
Proof. intros H H' j t Hj. apply list_lookup_insert_Some in Hj as [(-> & -> & _)|[_ Hj]]; auto. Qed.

Lemma worker_gathering past cur future s i :
  v2_inv Gathering past cur future s -> good_step (worker_step crypt T i s) (work Gathering cur future s).
Proof.
  destruct s as [m ws [a g] sh lines out]. intros Hinv. pose proof (i_phase _ _ _ _ _ Hinv) as [Hm Hw]. cbn in Hm, Hw.
  unfold worker_step. cbn [workers]. destruct (ws !! i) as [t|] eqn:Hi; [|done]. pose proof (Hw i t Hi) as Ht. cbn [shared barrier generation].
  destruct t as [| |g'| | | | | | | | | |g'|]; try done; cbn in Ht.
  - destruct (worker_arrived Gathering past cur future m ws a g sh lines out i W_arrive1 (W_wait1 g) Hinv Hi) as (ph & H1 & H2); [done|cbn; by rewrite decide_True|split; [done|by apply gathering_insert]|done|].
    exists ph, past, cur, future. split; [exact H1|]. unfold work. cbn [workers to_worker main arrive]. rewrite H2. cbn. rewrite (base_insert _ _ _ _ Hi). cbn. lia.
  - destruct Ht as [_ ->]. unfold opened. cbn. by rewrite Nat.eqb_refl.
  - unfold opened. cbn. rewrite (proj2 (Nat.eqb_neq _ _)) by lia. cbn. exists Gathering, past, cur, future. split.
    + apply (worker_moved _ _ _ _ _ _ _ _ sh _ _ _ _ _ _ Hinv Hi); [cbn; by rewrite decide_False by lia|done|]. split; [done|]. apply gathering_insert; [exact Hw|apply Ht].
    + unfold work. cbn. rewrite (base_insert _ _ _ _ Hi). cbn. lia.
Qed.

Lemma worker_ending past cur future s i :
  v2_inv Ending past cur future s -> good_step (worker_step crypt T i s) (work Ending cur future s).
Proof.
  destruct s as [m ws [a g] sh lines out]. intros Hinv. pose proof (i_phase _ _ _ _ _ Hinv) as (-> & -> & [Hd Hm] & Hw). cbn in Hd, Hm, Hw.
  unfold worker_step. cbn [workers]. destruct (ws !! i) as [t|] eqn:Hi; [|done]. pose proof (Hw i t Hi) as Ht. cbn [shared barrier generation].
  assert (Hmove : forall t', t <> W_exit -> waits g t = 0 -> waits g t' = 0 -> ending_worker g t' -> base_weight t' < base_weight t ->
    good_step (Done (Some (V2State m (<[i := t']> ws) (PBarrier a g) sh lines out))) (work Ending None [] (V2State m ws (PBarrier a g) sh lines out))).
  { intros t' Hne H1 H2 Ht' Hlt. exists Ending, past, None, []. split.
    - apply (worker_moved _ _ _ _ _ _ _ _ sh _ _ _ _ _ _ Hinv Hi); try done. do 2 (split; [done|]). split.
      + split; [done|]. assert (Hex : forall n, exited n ws -> exited n (<[i := t']> ws)).
        { intros n He k Hk. rewrite list_lookup_insert_ne; [by apply He|]. intros <-. apply Hne. specialize (He _ Hk). congruence. }
        cbn. destruct m; naive_solver.
      + cbn. intros j u Hj. apply list_lookup_insert_Some in Hj as [(-> & -> & _)|[_ Hj]]; [done|by eapply Hw].
    - unfold work. cbn. rewrite (base_insert _ _ _ _ Hi). lia. }
  destruct t as [| |g'| | | | | | | | | |g'|]; try done; cbn in Ht.
  - unfold opened. cbn. rewrite (proj2 (Nat.eqb_neq _ _)) by lia. cbn [negb]. apply Hmove; try done. cbn. by rewrite decide_False by lia.
  - rewrite Hd. by apply Hmove.
Qed.

Lemma cur_good past tsk future : tasks = past ++ option_list (Some tsk) ++ future -> small_task T tsk /\ one_password crypt tsk.
Proof. intros ->. rewrite Forall_forall in Hgood. apply Hgood. apply elem_of_app. right. cbn. apply elem_of_cons. by left. Qed.

Lemma worker_searching past cur future s i :
  v2_inv Searching past cur future s -> good_step (worker_step crypt T i s) (work Searching cur future s).
Proof.
  destruct s as [m ws [a g] sh lines out]. intros Hinv. pose proof (i_phase _ _ _ _ _ Hinv) as (Hm & tsk & buf & f & h & -> & Hsh & Hr). cbn in Hm, Hsh, Hr. subst sh.
  pose proof (i_tasks _ _ _ _ _ Hinv) as Hts. apply cur_good in Hts as [(Hs & _ & _ & Hkl & Hbig) Hone].
  destruct (ws !! i) as [t|] eqn:Hi; [|unfold worker_step; cbn; by rewrite Hi].
  assert (HiT : (i < T)%nat) by (pose proof (i_length _ _ _ _ _ Hinv) as Hl; cbn in Hl; rewrite <- Hl; by eapply lookup_lt_Some).
  pose proof (r_knows _ _ _ _ _ _ _ _ Hr i t Hi) as Hk.
  destruct (decide (t = W_arrive2)) as [->|Hn1]; [|destruct (decide (t = W_wait2 g)) as [->|Hn2]].
  - unfold worker_step. cbn [workers]. rewrite Hi. cbn [barrier generation].
    destruct (worker_arrived Searching past (Some tsk) future m ws a g (V2Shared (Some tsk) (Some buf) f h false) lines out i W_arrive2 (W_wait2 g) Hinv Hi) as (ph & H1 & H2); [done|cbn; by rewrite decide_True| |done|].
    + split; [done|]. exists tsk, buf, f, h. split; [done|]. split; [done|]. by apply round_arrive.
    + exists ph, past, (Some tsk), future. split; [exact H1|]. unfold work. cbn [workers to_worker main arrive]. rewrite H2. cbn. rewrite (zsum_insert _ _ _ _ _ Hi). cbn. lia.
  - unfold worker_step. cbn. rewrite Hi. unfold opened. cbn. by rewrite Nat.eqb_refl.
  - destruct (round_step crypt tsk T Hs HT Hbig Hone Hkl m ws a g buf f h lines out i t Hr Hi HiT Hn1 Hn2) as (t' & buf' & f' & h' & -> & Hr' & Hlt & Hb).
    exists Searching, past, (Some tsk), future. split.
    + apply (worker_moved _ _ _ _ _ _ _ _ (V2Shared (Some tsk) (Some buf) f h false) _ _ _ _ _ _ Hinv Hi).
      * destruct t; try done; cbn in *; [case_decide; [lia|done]|destruct Hk as [-> _]; done].
      * by destruct t'.
      * split; [done|]. by exists tsk, buf', f', h'.
    + unfold work. cbn. rewrite (zsum_insert _ _ _ _ _ Hi). lia.
Qed.

Lemma main_moved ph past cur future m m' ws a g sh sh' lines out :
  v2_inv ph past cur future (V2State m ws (PBarrier a g) sh lines out) -> main_waits g m = 0 -> main_waits g m' = 0 ->
  phase_ok ph cur future (V2State m' ws (PBarrier a g) sh' lines out) ->
  v2_inv ph past cur future (V2State m' ws (PBarrier a g) sh' lines out).
Proof. intros [Hl Ha Hc Ht Hin Hout _] H0 H1 Hph. cbn in *. split; cbn; try done. lia. Qed.

Lemma main_arrived ph past cur future m m' ws a g sh lines out :
  v2_inv ph past cur future (V2State m ws (PBarrier a g) sh lines out) -> main_waits g m = 0 -> main_waits g m' = 1 ->
  phase_ok ph cur future (V2State m' ws (PBarrier a g) sh lines out) -> ph <> Ending ->
  exists ph', v2_inv ph' past cur future (V2State m' ws (pthread_barrier_arrive (T + 1) (PBarrier a g)) sh lines out) /\
    worker_work ph' cur m' ws = worker_work ph cur m' ws.
Proof. intros [Hl Ha Hc Ht Hin Hout _] H0 H1 Hph Hne. cbn in *. apply arrived_inv; try done. lia. Qed.

(** [main] has read a line. *)
Lemma read_good past g a ws sh line lines out tsks :
  v2_inv Gathering past None tsks (V2State M_read ws (PBarrier a g) sh (line :: lines) out) ->
  exists tsk future buf, tsks = tsk :: future /\ parse_line (until_zero (without_newline line)) = Done tsk /\
    create_curr_task (username tsk) (hashed_pwd tsk) (known_pwd tsk) sh = Done (V2Shared (Some tsk) (Some buf) false 0 false) /\
    v2_inv Gathering past (Some tsk) future (V2State M_arrive1 ws (PBarrier a g) (V2Shared (Some tsk) (Some buf) false 0 false) lines out).
Proof.
  intros [Hl Ha Hc Ht Hin Hout [Hm Hw]]. cbn in *. destruct Hm as (_ & tsk0 & buf & Hb & ->).
  apply obind_Done in Hin as (tsk & Hp & Hin). apply obind_Done in Hin as (future & Hf & [= <-]).
  destruct (cur_good past tsk future Ht) as [(_ & Hu & Hh & Hk & _) _]. exists tsk, future, buf. split; [done|]. split; [done|]. split.
  - unfold create_curr_task. cbn [deref curr_task obind]. rewrite !(proj2 (Nat.leb_le _ _)) by done. by destruct tsk.
  - split; cbn; try done. split; [|done]. exists tsk. split; [done|]. by exists buf.
Qed.

Lemma main_gathering_step past cur future s :
  v2_inv Gathering past cur future s -> good_step (main_step T s) (work Gathering cur future s).
Proof.
  destruct s as [m ws [a g] sh lines out]. intros Hinv. pose proof (i_phase _ _ _ _ _ Hinv) as [Hm Hw]. cbn in Hm, Hw.
  pose proof (i_length _ _ _ _ _ Hinv) as Hl. cbn in Hl. unfold main_step. cbn [main shared barrier generation].
  destruct m as [i| | | |g'| |g'| | | | | |g'| | |]; try done; cbn in Hm.
  - destruct Hm as (-> & Hi & ->). destruct (Nat.ltb_spec i T) as [Hlt|Hge].
    + destruct (lookup_lt_is_Some_2 ws i) as [t Ht]; [lia|]. assert (t = W_none) as -> by (specialize (Hw i t Ht); destruct t; cbn in Hw; (done || lia)).
      exists Gathering, past, None, future. split.
      * destruct Hinv as [_ Ha Hc Hts Hin Hout _]. cbn in *. split; cbn; try done; [by rewrite length_insert|rewrite (waiting_insert _ _ _ _ _ Ht); cbn; lia|].
        split; [done|]. cbn. intros j u Hj. apply list_lookup_insert_Some in Hj as [(-> & <- & _)|[Hne Hj]]; [cbn; lia|].
        specialize (Hw j u Hj). destruct u; cbn in *; (done || lia).
      * unfold work. cbn. rewrite (base_insert _ _ _ _ Ht). cbn. lia.
    + assert (i = T) as -> by lia. exists Gathering, past, None, future. split; [|unfold work; cbn; lia].
      by apply (main_moved _ _ _ _ _ _ _ _ _ _ _ _ _ Hinv).
  - destruct Hm as (-> & ->). exists Gathering, past, None, future. split; [|unfold work; cbn; lia].
    apply (main_moved _ _ _ _ _ _ _ _ _ _ _ _ _ Hinv); try done. split; [|done]. split; [done|]. exists (Task [] [] []), (replicate 22 0). by split.
  - pose proof Hm as (-> & tsk & buf & Hb & Hsh). pose proof (i_input _ _ _ _ _ Hinv) as Hin. cbn [input] in *. destruct lines as [|line lines].
    + injection Hin as <-. exists Gathering, past, None, []. split; [|unfold work; cbn; lia].
      apply (main_moved _ _ _ _ _ _ _ _ _ _ _ _ _ Hinv); try done. split; [|done]. do 2 (split; [done|]). by exists tsk, false, 0, buf.
    + destruct (read_good _ _ _ _ _ _ _ _ _ Hinv) as (tsk' & future' & buf' & -> & -> & Hc & Hinv'). cbn [obind]. rewrite Hc. cbn [obind].
      exists Gathering, past, (Some tsk'), future'. split; [exact Hinv'|]. unfold work. cbn. rewrite zsum_cons. unfold task_cost. lia.
  - destruct (main_arrived Gathering past cur future M_arrive1 (M_wait1 g) ws a g sh lines out Hinv) as (ph & H1 & H2); [done|cbn; by rewrite decide_True|by split|done|].
    exists ph, past, cur, future. split; [exact H1|]. unfold work. cbn [workers to_main main arrive]. rewrite H2. cbn. destruct cur; lia.
  - destruct Hm as [-> _]. unfold opened. cbn. by rewrite Nat.eqb_refl.
  - destruct Hm as [H0 Hm]. unfold opened. cbn. cbn in H0. case_decide as Hg; [lia|]. rewrite (proj2 (Nat.eqb_neq _ _)) by done. cbn.
    exists Gathering, past, cur, future. split; [|unfold work; cbn; lia]. apply (main_moved _ _ _ _ _ _ _ _ _ _ _ _ _ Hinv); [cbn; by rewrite decide_False|done|by split].
  - destruct Hm as (_ & tsk & buf & f & h & -> & -> & Hb & Hr). cbn [deref curr_task curr_password obind input v2_output found total_hashes].
    exists Gathering, (past ++ [tsk]), None, future. split; [|unfold work; cbn; lia].
    destruct Hinv as [_ Ha Hc Hts Hin Hout _]. cbn in *. split; cbn; try done.
    + rewrite Hts. cbn. by rewrite <- app_assoc.
    + apply Forall2_app; [done|]. by constructor.
    + split; [|done]. split; [done|]. by exists tsk, f, h, buf.
  - destruct Hm as (-> & tsk & f & h & buf & Hb & ->). exists Gathering, past, None, future. split; [|unfold work; cbn; lia].
    apply (main_moved _ _ _ _ _ _ _ _ _ _ _ _ _ Hinv); try done. split; [|done]. split; [done|]. by exists tsk, h, buf.
  - destruct Hm as (-> & tsk & h & buf & Hb & ->). exists Gathering, past, None, future. split; [|unfold work; cbn; lia].
    apply (main_moved _ _ _ _ _ _ _ _ _ _ _ _ _ Hinv); try done. split; [|done]. split; [done|]. by exists tsk, buf.
  - destruct Hm as (-> & -> & tsk & f & h & buf & Hb & ->). exists Gathering, past, None, []. split; [|unfold work; cbn; lia].
    apply (main_moved _ _ _ _ _ _ _ _ _ _ _ _ _ Hinv); try done. split; [|done]. do 2 (split; [done|]). by exists tsk, f, h, buf.
  - destruct (main_arrived Gathering past cur future M_arrive_end (M_wait_end g) ws a g sh lines out Hinv) as (ph & H1 & H2); [done|cbn; by rewrite decide_True|by split|done|].
    exists ph, past, cur, future. split; [exact H1|]. unfold work. cbn [workers to_main main arrive]. rewrite H2. cbn. lia.
  - destruct Hm as [-> _]. unfold opened. cbn. by rewrite Nat.eqb_refl.
Qed.

Lemma main_searching_step past cur future s :
  v2_inv Searching past cur future s -> good_step (main_step T s) (work Searching cur future s).
Proof.
  destruct s as [m ws [a g] sh lines out]. intros Hinv. pose proof (i_phase _ _ _ _ _ Hinv) as [Hm Hrest]. cbn in Hm.
  destruct (Hrest) as (tsk & _ & _ & _ & -> & _). unfold main_step. cbn [main shared barrier generation].
  destruct m as [i| | | |g'| |g'| | | | | |g'| | |]; try done; cbn in Hm.
  - unfold opened. cbn. rewrite (proj2 (Nat.eqb_neq _ _)) by lia. cbn. exists Searching, past, (Some tsk), future. split; [|unfold work; cbn; lia].
    apply (main_moved _ _ _ _ _ _ _ _ _ _ _ _ _ Hinv); [cbn; by rewrite decide_False by lia|done|]. by split.
  - destruct (main_arrived Searching past (Some tsk) future M_arrive2 (M_wait2 g) ws a g sh lines out Hinv) as (ph & H1 & H2); [done|cbn; by rewrite decide_True|by split|done|].
    exists ph, past, (Some tsk), future. split; [exact H1|]. unfold work. cbn [workers to_main main arrive]. rewrite H2. cbn. lia.
  - subst g'. unfold opened. cbn. by rewrite Nat.eqb_refl.
Qed.

Lemma main_ending_step past cur future s :
  v2_inv Ending past cur future s -> good_step (main_step T s) (work Ending cur future s).
Proof.
  destruct s as [m ws [a g] sh lines out]. intros Hinv. pose proof (i_phase _ _ _ _ _ Hinv) as (-> & -> & [Hd Hm] & Hw). cbn in Hd, Hm, Hw.
  unfold main_step. cbn [main shared barrier generation workers].
  destruct m as [i| | | |g'| |g'| | | | | |g'|i| |]; try done; cbn in Hm.
  - destruct Hm as [Hg Hm]. unfold opened. cbn. rewrite (proj2 (Nat.eqb_neq _ _)) by lia. cbn. exists Ending, past, None, []. split; [|unfold work; cbn; lia].
    apply (main_moved _ _ _ _ _ _ _ _ _ _ _ _ _ Hinv); [cbn; by rewrite decide_False by lia|done|]. do 2 (split; [done|]). split; [|done]. split; [done|].
    split; [lia|]. split; [intros k Hk; lia|done].
  - destruct Hm as (Hi & He & Hm). destruct (Nat.ltb_spec i T) as [Hlt|Hge].
    + destruct (ws !! i) as [[]|] eqn:Hx; try done. exists Ending, past, None, []. split; [|unfold work; cbn; lia].
      apply (main_moved _ _ _ _ _ _ _ _ _ _ _ _ _ Hinv); try done. do 2 (split; [done|]). split; [|done]. split; [done|].
      split; [lia|]. split; [|done]. intros k Hk. destruct (decide (k = i)) as [->|]; [done|]. apply He. lia.
    + assert (i = T) as -> by lia. exists Ending, past, None, []. split; [|unfold work; cbn; lia].
      by apply (main_moved _ _ _ _ _ _ _ _ _ _ _ _ _ Hinv).
  - destruct Hm as (He & tsk & f & h & buf & Hb & ->). exists Ending, past, None, []. split; [|unfold work; cbn; lia].
    by apply (main_moved _ _ _ _ _ _ _ _ _ _ _ _ _ Hinv).
Qed.

Lemma step_good ph past cur future s who :
  v2_inv ph past cur future s -> good_step (v2_step crypt T who s) (work ph cur future s).
Proof.
  intros H. destruct who as [i|], ph; cbn.
  - by eapply worker_gathering.
  - by eapply worker_searching.
  - by eapply worker_ending.
  - by eapply main_gathering_step.
  - by eapply main_searching_step.
  - by eapply main_ending_step.
Qed.

Definition v2_steps (a b : v2_state) : Prop := exists who, v2_step crypt T who a = Done (Some b).

Lemma work_nonneg ph cur future s : 0 <= work ph cur future s.
Proof.
  assert (Hsh : forall tsk, 0 <= share tsk) by (intros tsk; unfold share; pose proof (candidates_pos (dots (known_pwd tsk))); lia).
  assert (H1 : 0 <= zsum (map task_cost future)).
  { induction future as [|tsk l IH]; [done|]. cbn. rewrite zsum_cons. pose proof (Hsh tsk). assert (task_cost tsk = share tsk + 8) by done. lia. }
  assert (H2 : 0 <= main_weight (main s)) by (destruct (main s); cbn; lia).
  assert (H3 : 0 <= carry (main s) cur) by (destruct (main s), cur as [tsk|]; cbn; try lia; apply Hsh).
  assert (H4 : 0 <= zsum (imap (fun _ => base_weight) (workers s))) by (apply zsum_nonneg; intros i t _; destruct t; cbn; lia).
  unfold work, worker_work. destruct ph, cur as [tsk|]; try lia.
  assert (0 <= zsum (imap (round_weight tsk T) (workers s))); [|lia]. apply zsum_nonneg. intros i t _. pose proof (range_size_nonneg tsk T HT i).
  destruct t; cbn; lia.
Qed.

Lemma steps_good n s s' ph past cur future :
  v2_inv ph past cur future s -> nsteps v2_steps n s s' ->
  exists ph' past' cur' future', v2_inv ph' past' cur' future' s' /\ Z.of_nat n + work ph' cur' future' s' <= work ph cur future s.
Proof.
  intros Hinv Hn. revert ph past cur future Hinv. induction Hn as [s|n s s1 s' [who Hs] _ IH]; intros ph past cur future Hinv.
  - exists ph, past, cur, future. split; [done|lia].
  - pose proof (step_good _ _ _ _ _ who Hinv) as H. rewrite Hs in H. destruct H as (ph1 & past1 & cur1 & future1 & Hinv1 & Hlt).
    destruct (IH _ _ _ _ Hinv1) as (ph' & past' & cur' & future' & H1 & H2). exists ph', past', cur', future'. split; [done|lia].
Qed.

Lemma v2_start_inv lines : parse_tasks lines = Done tasks -> v2_inv Gathering [] None tasks (v2_start T lines).
Proof.
  intros Hin. split; cbn; try done; [by rewrite length_replicate| |lia|].
  - unfold waiting. rewrite (zsum_telescope _ (fun _ => 0)); [done|]. intros i t Hi. by apply lookup_replicate in Hi as [-> _].
  - split; [cbn; split; [done|]; split; [lia|done]|]. cbn. intros i t Hi. apply lookup_replicate in Hi as [-> _]. cbn. lia.
Qed.

Lemma v2_start_work lines : work Gathering None tasks (v2_start T lines) = zsum (map task_cost tasks) + 5 * Z.of_nat T + 8.
Proof.
  unfold work. cbn. rewrite (zsum_telescope _ (fun i => 3 * Z.of_nat i)); [rewrite length_replicate; lia|].
  intros i t Hi. apply lookup_replicate in Hi as [-> _]. cbn. lia.
Qed.

(** What a thread that cannot step waits for. *)
Lemma worker_blocked s i t : worker_step crypt T i s = Done None -> workers s !! i = Some t -> t = W_none \/ t = W_exit \/ waits (generation (barrier s)) t = 1.
Proof.
  intros H Hi. unfold worker_step in H. rewrite Hi in H. destruct t as [| |g| | |c count pwd h|k pwd h| | | | | |g|]; try done; try (by left); try (by right; left).
  - right. right. unfold opened in H. destruct (Nat.eqb_spec (generation (barrier s)) g) as [He|]; [cbn; by rewrite decide_True|done].
  - destruct (curr_task (shared s)); cbn in H; [|done]. by destruct (getSubrange _ _ _) as [[]| | |].
  - destruct (c <? count); [|done]. destruct (curr_task (shared s)); cbn in H; [|done]. destruct (matches _ _ _); [done|]. by destruct (found _).
  - destruct (curr_password (shared s)) as [l|]; cbn [deref obind] in H; [|done]. by destruct (_ <? _)%nat.
  - right. right. unfold opened in H. destruct (Nat.eqb_spec (generation (barrier s)) g) as [He|]; [cbn; by rewrite decide_True|done].
Qed.

Lemma main_blocked s : main_step T s = Done None ->
  main s = M_returned \/ main_waits (generation (barrier s)) (main s) = 1 \/ exists i, main s = M_join i /\ (i < T)%nat /\ workers s !! i <> Some W_exit.
Proof.
  unfold main_step. intros H. destruct (main s) as [i| | | |g| |g| | | | | |g|i| |] eqn:Hm; try done; try (by left).
  3,4,6: right; left; unfold opened in H; destruct (Nat.eqb_spec (generation (barrier s)) g) as [He|]; [cbn; by rewrite decide_True|done].
  - by destruct (_ <? _)%nat.
  - destruct (input s) as [|line lines]; [done|]. apply obind_Done in H as (tsk & _ & H). by apply obind_Done in H as (sh & _ & H).
  - apply obind_Done in H as (tsk & _ & H). by apply obind_Done in H as (buf & _ & H).
  - destruct (Nat.ltb_spec i T); [|done]. right. right. exists i. do 2 (split; [done|]). intros He. by rewrite He in H.
  - apply obind_Done in H as (tsk & _ & H). by apply obind_Done in H as (buf & _ & H).
Qed.

(** As long as [main] has not returned, somebody can step. *)
Lemma no_deadlock ph past cur future s :
  v2_inv ph past cur future s -> (forall who, v2_step crypt T who s = Done None) -> main s = M_returned.
Proof.
  intros [Hl Ha Hc Ht Hin Hout Hph] Hb. set (g := generation (barrier s)) in *.
  assert (Hw : forall i t, workers s !! i = Some t -> t = W_none \/ t = W_exit \/ waits g t = 1) by (intros i t Hi; eapply worker_blocked; [exact (Hb (Some i))|done]).
  destruct (main_blocked s (Hb None)) as [|Hm]; [done|exfalso].
  assert (Hopen : main_waits g (main s) = 1 -> ~ forall i t, workers s !! i = Some t -> waits g t = 1).
  { intros H1 H2. unfold waiting in Ha. rewrite (zsum_telescope _ Z.of_nat) in Ha; [lia|]. intros i t Hi. rewrite (H2 i t Hi). lia. }
  destruct ph; cbn in Hph; fold g in Hph.
  - destruct Hph as [Hmain Hwork]. assert (main_waits g (main s) = 1) as H1.
    { destruct Hm as [|(i & Hm & _)]; [done|]. by rewrite Hm in Hmain. }
    apply Hopen; [done|]. intros i t Hi. specialize (Hwork i t Hi). destruct (Hw i t Hi) as [->|[->|]]; try done.
    assert (created T (main s) = T) as Hcr by (destruct (main s); done). cbn in Hwork. apply lookup_lt_Some in Hi. lia.
  - destruct Hph as (Hmain & tsk & buf & f & h & _ & _ & Hr). assert (main_waits g (main s) = 1) as H1.
    { destruct Hm as [|(i & Hm & _)]; [done|]. by rewrite Hm in Hmain. }
    apply Hopen; [done|]. intros i t Hi. pose proof (r_knows _ _ _ _ _ _ _ _ Hr i t Hi) as Hk. by destruct (Hw i t Hi) as [->|[->|]].
  - destruct Hph as (_ & _ & [_ Hmain] & Hwork). destruct Hm as [Hm|(i & Hm & Hi & Hx)].
    + destruct (main s); try done; cbn in Hm, Hmain; case_decide; lia.
    + destruct (lookup_lt_is_Some_2 (workers s) i) as [t Ht']; [lia|]. specialize (Hwork i t Ht'). destruct (Hw i t Ht') as [->|[->|Hwt]]; [done|done|].
      destruct t; try done. cbn in Hwt, Hwork. case_decide; lia.
Qed.

Lemma somebody_steps ph past cur future s :
  v2_inv ph past cur future s -> main s = M_returned \/ exists who s', v2_step crypt T who s = Done (Some s').
Proof.
  intros Hinv. set (can who := match v2_step crypt T who s with Done (Some _) => true | _ => false end).
  assert (Hcan : forall who, can who = true -> exists s', v2_step crypt T who s = Done (Some s')).
  { intros who H. unfold can in H. destruct (v2_step crypt T who s) as [[s'|]| | |]; try done. by exists s'. }
  destruct (existsb can (None :: (Some <$> seq 0 T))) eqn:E.
  - apply existsb_exists in E as (who & _ & H). right. exists who. by apply Hcan.
  - left. eapply no_deadlock; [exact Hinv|]. intros who. pose proof (step_good _ _ _ _ _ who Hinv) as Hg.
    destruct (can who) eqn:Hcw.
    + destruct who as [i|]; [|by cbn in E; rewrite Hcw in E]. destruct (decide (i < T)%nat) as [Hlt|Hge].
      * exfalso. apply not_true_iff_false in E. apply E, existsb_exists. exists (Some i). split; [|done].
        apply list_elem_of_In, elem_of_cons. right. apply list_elem_of_fmap. exists i. split; [done|]. apply elem_of_seq. lia.
      * cbn. unfold worker_step. rewrite lookup_ge_None_2; [done|]. rewrite (i_length _ _ _ _ _ Hinv). lia.
    + unfold can in Hcw. by destruct (v2_step crypt T who s) as [[s'|]| | |].
Qed.

End Run.

(** C11. [cracker2], for input lines of three words that fit its buffers, whose searches
    fit the integers ([small_task]) and each of which has at most one password with its
    hash ([one_password]; with two the bytes of both are mixed, [mixed_password]).
    Whatever the schedule of [main] and its threads, the run makes at most the stated
    number of steps, each is defined, and as long as [main] has not returned somebody can
    step: it never deadlocks at its barriers.  When [main] has returned all threads have
    ended, and it has printed one summary per line, in order: a password printed is one of
    the task's candidates and has its hash, and a task reported as failed has no password at
    all, all its candidates having been hashed. *)
Theorem cracker2_correct crypt T lines tasks (HT : (0 < T)%nat) (Hin : parse_tasks lines = Done tasks)
    (Hgood : Forall (fun tsk => small_task T tsk /\ one_password crypt tsk) tasks)
    n s (Hrun : nsteps (v2_steps crypt T) n (v2_start T lines) s) :
  Z.of_nat n <= zsum (map (task_cost T) tasks) + 5 * Z.of_nat T + 8 /\
  (forall who, exists r, v2_step crypt T who s = Done r) /\
  (main s = M_returned \/ exists who s', v2_step crypt T who s = Done (Some s')) /\
  (main s = M_returned -> Forall (fun t => t = W_exit) (workers s) /\ Forall2 (right_summary crypt) tasks (v2_output s)).
Proof.
  destruct (steps_good crypt T tasks HT Hgood n _ s _ _ _ _ (v2_start_inv crypt T tasks HT lines Hin) Hrun) as (ph & past & cur & future & Hinv & Hle).
  rewrite v2_start_work in Hle by done. pose proof (work_nonneg T HT ph cur future s). split; [lia|]. split; [|split].
  - intros who. pose proof (step_good crypt T tasks HT Hgood _ _ _ _ _ who Hinv) as Hg. destruct (v2_step crypt T who s); try done. by eexists.
  - by eapply (somebody_steps crypt T tasks).
  - intros Hm. destruct Hinv as [Hl _ _ Ht _ Hout Hph]. destruct ph; [by destruct Hph as [Hph _]; rewrite Hm in Hph..|].
    destruct Hph as (-> & -> & [_ Hex] & _). rewrite Hm in Hex. rewrite app_nil_r in Ht. cbn in Ht. rewrite Ht. split; [|done].
    apply Forall_lookup. intros i t Hi. rewrite Hex in Hi; [by injection Hi as <-|]. rewrite <- Hl. by eapply lookup_lt_Some.
Qed.

(** ** On concrete inputs: [rev] for the hash *)

(** A run in which the first thread that can step does, [main] before the others. *)
Definition first_step (crypt : list Z -> list Z) (T : nat) (s : v2_state) : option v2_state :=
  foldr (fun who r => match v2_step crypt T who s with Done (Some s') => Some s' | _ => r end) None (None :: (Some <$> seq 0 T)).

Fixpoint v2_drive (crypt : list Z -> list Z) (T fuel : nat) (s : v2_state) : nat * v2_state :=
  match fuel with
  | O => (O, s)
  | S fuel =>
      match first_step crypt T s with
      | None => (O, s)
      | Some s => let (n, s) := v2_drive crypt T fuel s in (S n, s)
      end
  end.

Lemma first_step_steps crypt T s s' : first_step crypt T s = Some s' -> v2_steps crypt T s s'.
Proof.
  unfold first_step. generalize (None :: (Some <$> seq 0 T)). intros l. induction l as [|who l IH]; cbn; [done|].
  destruct (v2_step crypt T who s) as [[s1|]| | |] eqn:E; try done. intros [= <-]. by exists who.
Qed.

Lemma v2_drive_steps crypt T fuel s : nsteps (v2_steps crypt T) (v2_drive crypt T fuel s).1 s (v2_drive crypt T fuel s).2.
Proof.
  revert s. induction fuel as [|fuel IH]; intros s; cbn [v2_drive]; [constructor|]. destruct (first_step crypt T s) as [s1|] eqn:E; [|constructor].
  specialize (IH s1). destruct (v2_drive crypt T fuel s1) as [n s2]. econstructor; [by apply first_step_steps|done].
Qed.

(** The threads step in the order given, and then as above. *)
Definition v2_schedule (crypt : list Z -> list Z) (T : nat) (order : list (option nat)) (lines : list (list Z)) : v2_state :=
  (v2_drive crypt T 1000 (fold_left (fun s who => match v2_step crypt T who s with Done (Some s) => s | _ => s end) order (v2_start T lines))).2.

Definition eve_line : list Z := [101; 118; 101; 32; 98; 98; 32; 98; 46; 10].

Definition eve_run2 : nat * v2_state := v2_drive (@rev Z) 2 1000 (v2_start 2 [eve_line]).

Lemma eve_small : small_task 2 eve.
Proof. split; [apply eve_string|]. repeat split; try (cbn; lia). Qed.

Lemma eve_one_password : one_password (@rev Z) eve.
Proof.
  assert (Hu : forall p, is_hit (@rev Z) eve p -> p = [98; 98]).
  { intros p (j & Hj & -> & Hm). assert (H : forallb (fun j => negb (matches (@rev Z) eve (first_password (known_pwd eve) j)) || bool_decide (first_password (known_pwd eve) j = [98; 98])) (seqZ 0 26) = true) by (vm_compute; reflexivity).
    rewrite forallb_forall in H. specialize (H j). rewrite Hm in H. cbn [negb orb] in H. assert (Hin : j ∈ seqZ 0 26) by (by apply elem_of_seqZ). apply list_elem_of_In in Hin. exact (bool_decide_eq_true_1 _ (H Hin)). }
  intros p q Hp Hq. by rewrite (Hu p Hp), (Hu q Hq).
Qed.

Lemma cracker2_correct_witness : Forall2 (right_summary (@rev Z)) [eve] (v2_output eve_run2.2) /\ v2_user <$> v2_output eve_run2.2 = [[101; 118; 101]].
Proof.
  split; [|vm_compute; reflexivity].
  refine (proj2 (proj2 (proj2 (proj2 (cracker2_correct (@rev Z) 2 [eve_line] [eve] _ _ _ eve_run2.1 eve_run2.2 (v2_drive_steps _ _ _ _)))) _));
    [lia|vm_compute; reflexivity|constructor; [split; [exact eve_small|exact eve_one_password]|constructor]|vm_compute; reflexivity].
Defined.

(** Thread 2 hashes its 13 passwords before thread 1 finds the second of its own: the
    summary counts 2 hashes of 15. *)
Example hashes_not_counted :
  v2_output (v2_schedule (@rev Z) 2 (replicate 6 None ++ [Some 0; Some 1]%nat ++ replicate 17 (Some 1%nat) ++ replicate 20 (Some 0%nat)) [eve_line]) =
  [V2Summary [101; 118; 101] (Some [98; 98]) 2].
Proof. vm_compute. reflexivity. Qed.

(** Two passwords "ir" and "ri" with the same hash, found by two threads that copy them
    at the same time: "rr" is printed, which has another one. *)
Definition two_passwords (pwd : list Z) : list Z := if bool_decide (pwd = [105; 114]) || bool_decide (pwd = [114; 105]) then [120] else [121].

Example mixed_password :
  v2_password <$> v2_output (v2_schedule two_passwords 3 (replicate 7 None ++ [Some 0; Some 1; Some 2]%nat ++ replicate 4 (Some 1%nat) ++ replicate 4 (Some 2%nat) ++
    [Some 1; Some 2; Some 2; Some 2; Some 1; Some 1]%nat) [[117; 32; 120; 32; 46; 46]]) = [Some [114; 114]].
Proof. vm_compute. reflexivity. Qed.
