(* ===== verification/Shell.v ===== *)
(** * [shell/shell.c]

    The shell reads lines and runs them; its state is the history, the table of
    child processes and what it has printed.  The operating system is the class
    [UnixLib], whose state is part of the shell's; a forked child is the program it
    will execute and its redirection ([child_main]).  Signal handlers run where the
    system delivers signals: the model asks behind every system call and behind
    every change of the process table ([interrupt]), and while the shell itself takes an
    entry out of the table, between the search and the erasure
    ([interrupt_deleting]); not within its other loops over the table.  Vectors of the prebuilt library
    are lists, undefined outside their range; [sstring_split] of the prebuilt library
    is the class [SstringLib]. *)

From Stdlib Require Import String.
From S2P Require Import Prelude CString.
Open Scope list_scope.
Open Scope Z_scope.

Class SstringLib := { sstring_split : list Z -> Z -> list (list Z) }.

(** ** Data *)

Inductive redirect := Truncate | Append | Input.

(** What a child executes: standard output or input from a file, then [execvp]; an
    empty [argv] is a null pointer for the program. *)
Record child_plan := ChildPlan { redirection : option (redirect * list Z); argv : list (list Z) }.

Inductive wait_status := Exited (code : Z) | Signaled.

(** A child status change handled by [SIGCHLD] with the children it reaps in order,
    and the interrupt key. *)
Inductive signal_t := SIGCHLD (reaped : list Z) | SIGINT.

Definition SIGKILL : Z := 9.
Definition SIGSTOP : Z := 19.
Definition SIGCONT : Z := 18.

(** [fork] gives the child's pid to the parent; [waitpid] its status; [None] is -1.
    [delivered] are the signals handled now, [delivered_deleting] those between the two
    halves of [delete_process]. *)
Class UnixLib (O : Type) := {
  getpid : Z;
  chdir : list Z -> O -> bool * O;
  getcwd : O -> list Z;
  fork : outcome child_plan -> O -> option Z * O;
  setpgid : Z -> Z -> O -> bool * O;
  getpgid : Z -> O -> Z;
  waitpid : Z -> O -> option wait_status * O;
  kill : Z -> Z -> O -> O;
  delivered : O -> list signal_t * O;
  delivered_deleting : O -> list signal_t * O;
  get_full_path : list Z -> O -> list Z;
  fopen_r : list Z -> O -> option (list Z);
  write_file : list Z -> list Z -> O -> option O;
  proc_pid_stat : Z -> O -> option (list Z);
  proc_stat : O -> option (list (list Z));
  clk_tck : Z;
  strftime_HM : Z -> list Z;
}.

(** An entry whose memory has been freed stays in the vector only within
    [delete_process] and while the shell exits. *)
Record process := Process { command : list Z; pid : Z; freed : bool }.

Record process_info := ProcessInfo {
  i_pid : Z;
  nthreads : Z;
  vsize : Z;
  i_state : Z;
  start_time : Z;
  minutes : Z;
  seconds : Z;
  i_command : list Z;
}.

Inductive message :=
| print_usage
| print_command (c : list Z)
| print_script_file_error
| print_history_file_error
| print_prompt (dir : list Z) (pid : Z)
| print_no_directory (path : list Z)
| print_fork_failed
| print_wait_failed
| print_setpgid_failed
| print_invalid_command (c : list Z)
| print_process_info_header
| print_process_info (i : process_info)
| print_no_process_found (pid : Z)
| print_stopped_process (pid : Z) (c : list Z)
| print_killed_process (pid : Z) (c : list Z)
| print_continued_process (pid : Z) (c : list Z)
| print_history_line (i : nat) (c : list Z)
| print_invalid_index
| print_no_history_match.

(** *** What a message prints, as in [format.c] *)

Definition text (s : string) : list Z := bytes_of_string s.

Definition NEWLINE : list Z := [10].
Definition TAB : list Z := [9].

(** ["%01ld:%02ld"]. *)
Definition execution_time_to_string (minutes seconds : Z) : list Z :=
  decimal minutes ++ text ":" ++ (if (0 <=? seconds) && (seconds <? 10) then text "0" else []) ++ decimal seconds.

Definition time_struct_to_string {O} {U : UnixLib O} (t : Z) : list Z := strftime_HM (O := O) t.

Definition format_process_info {O} {U : UnixLib O} (i : process_info) : list Z :=
  decimal (i_pid i) ++ TAB ++ decimal (nthreads i) ++ TAB ++ decimal (vsize i) ++ TAB ++ [i_state i] ++ TAB ++
  time_struct_to_string (O := O) (start_time i) ++ TAB ++ execution_time_to_string (minutes i) (seconds i) ++ TAB ++ i_command i ++ NEWLINE.

Definition format {O} {U : UnixLib O} (m : message) : list Z :=
  match m with
  | print_usage =>
      text "./shell -f <filename> -h <history_file>" ++ NEWLINE ++ text "         <filename>" ++ TAB ++ TAB ++ text "File to read commands from" ++ NEWLINE ++
      text "         <history_file>" ++ TAB ++ TAB ++ text "File to load history from and/or write history to" ++ NEWLINE
  | print_command c => c ++ NEWLINE
  | print_script_file_error => text "Unable to open script file!" ++ NEWLINE
  | print_history_file_error => text "Unable to open history file!" ++ NEWLINE
  | print_prompt dir pid => text "(pid=" ++ decimal pid ++ text ")" ++ dir ++ text "$ "
  | print_no_directory path => path ++ text ": No such file or directory!" ++ NEWLINE
  | print_fork_failed => text "Fork Failed!" ++ NEWLINE
  | print_wait_failed => text "Failed to wait on child!" ++ NEWLINE
  | print_setpgid_failed => text "Failed to start new process group!" ++ NEWLINE
  | print_invalid_command c => text "Invalid command: " ++ c ++ NEWLINE
  | print_process_info_header => text "PID" ++ TAB ++ text "NLWP" ++ TAB ++ text "VSZ" ++ TAB ++ text "STAT" ++ TAB ++ text "START" ++ TAB ++ text "TIME" ++ TAB ++ text "COMMAND" ++ NEWLINE
  | print_process_info i => format_process_info (O := O) i
  | print_no_process_found pid => decimal pid ++ text ": no such process" ++ NEWLINE
  | print_stopped_process pid c => decimal pid ++ text " suspended" ++ TAB ++ c ++ NEWLINE
  | print_killed_process pid c => decimal pid ++ text " killed" ++ TAB ++ c ++ NEWLINE
  | print_continued_process pid c => decimal pid ++ text " continued" ++ TAB ++ c ++ NEWLINE
  | print_history_line i c => decimal (Z.of_nat i) ++ TAB ++ c ++ NEWLINE
  | print_invalid_index => text "Invalid Index!" ++ NEWLINE
  | print_no_history_match => text "No Match!" ++ NEWLINE
  end.

(** ** The child *)

Definition GT : list Z := [62].
Definition GTGT : list Z := [62; 62].
Definition LT : list Z := [60].
Definition AMP : list Z := [38].

Definition redirect_of (cmd : list Z) : option redirect :=
  if decide (cmd = GTGT) then Some Append else if decide (cmd = GT) then Some Truncate else if decide (cmd = LT) then Some Input else None.

(** The tokens before the first redirection, and the last redirection. *)
Fixpoint scan_tokens (cmds : list (list Z)) (is_redirection : option redirect) : list (list Z) * option redirect :=
  match cmds with
  | [] => ([], is_redirection)
  | cmd :: cmds =>
      let r := match redirect_of cmd with Some r => Some r | None => is_redirection end in
      let (before, last) := scan_tokens cmds r in
      (match r with None => cmd :: before | Some _ => before end, last)
  end.

(** [strsep] for one delimiter: the part before its first occurrence and the part
    behind it. *)
Fixpoint strsep (s : list Z) (delim : Z) : list Z * option (list Z) :=
  match s with
  | [] => ([], None)
  | c :: s => if c =? delim then ([], Some s) else let (l, r) := strsep s delim in (c :: l, r)
  end.

(** Moving a pointer [n] characters on and using the string there. *)
Definition skip (n : nat) (s : list Z) : outcome (list Z) := if (n <=? length s)%nat then Done (drop n s) else Undef.

(** [s[strlen(s) - 1] = 0]. *)
Definition remove_last (s : list Z) : outcome (list Z) := match s with [] => Undef | _ => Done (removelast s) end.

(** The name of the file; the part before the symbol is cut but not used. *)
Definition solve_redirection (buffer : list Z) (r : redirect) : outcome (list Z) :=
  let (actual_cmd, filename) := strsep buffer (match r with Input => 60 | _ => 62 end) in
  let! _ := remove_last actual_cmd in
  let! filename := deref filename in
  skip (match r with Append => 2 | _ => 1 end) filename.

Section Split.

Context {SS : SstringLib}.

(** The last token "&" is replaced by the terminating null pointer. *)
Definition child_main (buffer : list Z) : outcome child_plan :=
  let cmds := sstring_split buffer 32 in
  let (before, redirect_cmd) := scan_tokens cmds None in
  let args := if decide (last cmds = Some AMP) then take (length cmds - 1) before else before in
  match redirect_cmd with
  | Some r =>
      let! filename := solve_redirection buffer r in
      Done (ChildPlan (Some (r, filename)) args)
  | None => Done (ChildPlan None args)
  end.

End Split.

(** ** The shell *)

Section Shell.

Context {OS : Type} {LO : UnixLib OS} {SS : SstringLib}.

Record shell_t := Shell {
  history : list (list Z);
  processes : list process;
  out : list message;
  os : OS;
}.

Definition set_history (h : list (list Z)) (s : shell_t) : shell_t := Shell h (processes s) (out s) (os s).
Definition set_processes (ps : list process) (s : shell_t) : shell_t := Shell (history s) ps (out s) (os s).
Definition set_os (o : OS) (s : shell_t) : shell_t := Shell (history s) (processes s) (out s) o.
Definition print (m : message) (s : shell_t) : shell_t := Shell (history s) (processes s) (out s ++ [m]) (os s).

Definition print_full_path (s : shell_t) : shell_t := print (print_prompt (getcwd (os s)) (getpid (O := OS))) s.

(** *** The process table *)

Definition vector_erase {A} (l : list A) (position : Z) : outcome (list A) :=
  if position <? Z.of_nat (length l) then Done (take (Z.to_nat position) l ++ drop (S (Z.to_nat position)) l) else Undef.

(** The index of the first entry with the pid; a freed entry must not be read. *)
Fixpoint find_process (_pid : Z) (ps : list process) : outcome (option nat) :=
  match ps with
  | [] => Done None
  | p :: ps =>
      if freed p then Undef
      else if pid p =? _pid then Done (Some O)
      else let! i := find_process _pid ps in Done (option_map S i)
  end.

Definition remove_process (_pid : Z) (s : shell_t) : outcome shell_t :=
  let! i := find_process _pid (processes s) in
  match i with
  | Some i => let! ps := vector_erase (processes s) (Z.of_nat i) in Done (set_processes ps s)
  | None => Done s
  end.

Definition free_process (p : process) : process := Process (command p) (pid p) true.

(** The entry is freed when it is found and erased later, by its position; [between]
    happens then.  Erases position [(size_t)-1] when there is no such process. *)
Definition delete_process (between : shell_t -> outcome shell_t) (_pid : Z) (s : shell_t) : outcome shell_t :=
  let! removed_pos := find_process _pid (processes s) in
  let s := match removed_pos with Some i => set_processes (alter free_process i (processes s)) s | None => s end in
  let! s := between s in
  let! ps := vector_erase (processes s) (match removed_pos with Some i => Z.of_nat i | None => u64 (-1) end) in
  Done (set_processes ps s).

Definition get_process_by_pid (_pid : Z) (s : shell_t) : outcome (option process) :=
  let! i := find_process _pid (processes s) in
  Done (match i with Some i => processes s !! i | None => None end).

Definition new_process (buffer : list Z) (_pid : Z) : process := Process buffer _pid false.

(** *** Signals *)

(** [SIGCHLD] is blocked while its handler runs: nothing happens in between. *)
Fixpoint wait_for_all_background_child_processes (reaped : list Z) (s : shell_t) : outcome shell_t :=
  match reaped with
  | [] => Done s
  | p :: reaped => let! s := delete_process Done p s in wait_for_all_background_child_processes reaped s
  end.

(** [n] is the size at the start; entries move while the loop runs. *)
Fixpoint sigint_loop (rounds i : nat) (s : shell_t) : outcome shell_t :=
  match rounds with
  | O => Done s
  | S rounds =>
      let! p := deref (processes s !! i) in
      if freed p then Undef
      else if negb (pid p =? getpgid (pid p) (os s)) then
        let! s := remove_process (pid p) (set_os (kill (pid p) SIGKILL (os s)) s) in
        sigint_loop rounds (S i) s
      else sigint_loop rounds (S i) s
  end.

Definition handle_SIGINT (s : shell_t) : outcome shell_t := sigint_loop (length (processes s)) 0 s.

Fixpoint handle_signals (sigs : list signal_t) (s : shell_t) : outcome shell_t :=
  match sigs with
  | [] => Done s
  | sg :: sigs =>
      let! s := match sg with SIGCHLD reaped => wait_for_all_background_child_processes reaped s | SIGINT => handle_SIGINT s end in
      handle_signals sigs s
  end.

Definition interrupt (s : shell_t) : outcome shell_t :=
  let (sigs, o) := delivered (os s) in handle_signals sigs (set_os o s).

Definition interrupt_deleting (s : shell_t) : outcome shell_t :=
  let (sigs, o) := delivered_deleting (os s) in handle_signals sigs (set_os o s).

(** *** Executing: the returned status, [None] when the shell exits with status 1 *)

Definition CD : list Z := [99; 100].

Definition starts_with (s buffer : list Z) : bool := bool_decide (take (length s) buffer = s).

Definition run_in_background (child : Z) (s : shell_t) : outcome (option Z * shell_t) :=
  let (ok, o) := setpgid child child (os s) in
  let! s := interrupt (set_os o s) in
  if ok then Done (Some 0, s) else Done (None, print print_setpgid_failed s).

Definition run_in_foreground (child : Z) (s : shell_t) : outcome (option Z * shell_t) :=
  let (ok, o) := setpgid child (getpid (O := OS)) (os s) in
  let! s := interrupt (set_os o s) in
  if negb ok then Done (None, print print_setpgid_failed s)
  else
    let (status, o) := waitpid child (os s) in
    let! s := interrupt (set_os o s) in
    match status with
    | None => Done (None, print print_wait_failed s)
    | Some status =>
        let! s := delete_process interrupt_deleting child s in
        Done (Some (match status with Exited code => if code =? 0 then 0 else 1 | Signaled => 0 end), s)
    end.

Definition execute_command (buffer : list Z) (s : shell_t) : outcome (option Z * shell_t) :=
  if decide (buffer = CD) then Done (Some 1, print (print_no_directory []) s)
  else if starts_with (CD ++ [32]) buffer then
    let path := drop 3 buffer in
    let (ok, o) := chdir path (os s) in
    let s := set_os o s in
    if ok then Done (Some 0, s) else Done (Some 1, print (print_no_directory path) s)
  else
    let (child, o) := fork (child_main buffer) (os s) in
    let! s := interrupt (set_os o s) in
    match child with
    | None => Done (None, print print_fork_failed s)
    | Some child =>
        let! s := interrupt (set_processes (processes s ++ [new_process buffer child]) s) in
        if decide (last buffer = Some 38) then run_in_background child s else run_in_foreground child s
    end.

(** *** [ps] *)

Definition atol (s : list Z) : outcome Z :=
  if (-9223372036854775808 <=? number s) && (number s <? 9223372036854775808) then Done (number s) else Undef.

(** [fgets(buffer, 1000, f)] on a zeroed buffer. *)
Definition first_line (content : list Z) : list Z := match getlines content with l :: _ => until_zero (take 999 l) | [] => [] end.

Definition BTIME : list Z := [98; 116; 105; 109; 101].

(** The loop tests [getline] against 0, so it goes on behind the end of the file. *)
Fixpoint btime_loop (fuel : nat) (proc_stat_lines : list (list Z)) : outcome Z :=
  match fuel with
  | O => OutOfFuel
  | S fuel =>
      match proc_stat_lines with
      | [] => btime_loop fuel []
      | line :: rest => if starts_with BTIME line then let! line := skip 6 line in atol line else btime_loop fuel rest
      end
  end.

(** [None]: a file of [/proc] cannot be opened and the shell exits. *)
Definition build_proc_info (fuel : nat) (p : process) (s : shell_t) : outcome (option process_info) :=
  match proc_pid_stat (pid p) (os s) with
  | None => Done None
  | Some content =>
      let stat_fields := sstring_split (first_line content) 32 in
      let field i := deref (stat_fields !! i) in
      let! f0 := field 0%nat in
      let! expected_pid := atoi f0 in
      let! _ := c_assert (pid p =? expected_pid) in
      let! f19 := field 19%nat in
      let! nthreads := atol f19 in
      let! f22 := field 22%nat in
      let! vsize := atol f22 in
      let! f2 := field 2%nat in
      match proc_stat (os s) with
      | None => Done None
      | Some lines =>
          let! btime := btime_loop fuel lines in
          let! f13 := field 13%nat in
          let! utime := atol f13 in
          let! f14 := field 14%nat in
          let! stime := atol f14 in
          let! f21 := field 21%nat in
          let! starttime := atol f21 in
          let ticks x := Z.quot x (clk_tck (O := OS)) in
          Done (Some (ProcessInfo (pid p) nthreads (u64 vsize / 1024) (default 0 (head f2)) (btime + ticks starttime)
                        (Z.quot (ticks utime + ticks stime) 60) (Z.rem (ticks utime + ticks stime) 60) (command p)))
      end
  end.

Inductive flow := Next | Break | Exit.

Fixpoint ps_loop (fuel : nat) (ps : list process) (s : shell_t) : outcome (flow * shell_t) :=
  match ps with
  | [] => Done (Next, s)
  | p :: ps =>
      if freed p then Undef
      else
        let! i := build_proc_info fuel p s in
        match i with
        | None => Done (Exit, print print_script_file_error s)
        | Some i => ps_loop fuel ps (print (print_process_info i) s)
        end
  end.

Definition SHELL : list Z := [46; 47; 115; 104; 101; 108; 108].

Definition execute_ps (fuel : nat) (s : shell_t) : outcome (flow * shell_t) :=
  ps_loop fuel (processes s ++ [new_process SHELL (getpid (O := OS))]) (print print_process_info_header s).

(** *** [kill], [stop] and [cont] *)

(** [sscanf("%d")] into a variable that is not initialised. *)
Definition sscanf_int (s : list Z) : outcome Z :=
  let digits := match skip_space s with c :: r => if (c =? 45) || (c =? 43) then r else c :: r | [] => [] end in
  match digits with
  | d :: _ => if isdigit d then atoi s else Undef
  | [] => Undef
  end.

(** Printing needs the entry to be there still. *)
Definition send_signal (signal : Z) (printed : Z -> list Z -> message) (_pid : Z) (s : shell_t) : outcome shell_t :=
  let! s := interrupt (set_os (kill _pid signal (os s)) s) in
  let! p := get_process_by_pid _pid s in
  let! p := deref p in
  Done (print (printed (pid p) (command p)) s).

Definition on_process (buffer : list Z) (act : Z -> shell_t -> outcome shell_t) (s : shell_t) : outcome (flow * shell_t) :=
  let! s :=
    if (length buffer =? 4)%nat then Done (print (print_invalid_command buffer) s)
    else
      let! _pid := sscanf_int (drop 4 buffer) in
      let! p := get_process_by_pid _pid s in
      match p with
      | None => Done (print (print_no_process_found _pid) s)
      | Some _ => act _pid s
      end in
  Done (Next, s).

Definition kill_process (_pid : Z) (s : shell_t) : outcome shell_t :=
  let! s := send_signal SIGKILL print_killed_process _pid s in remove_process _pid s.

(** *** The history *)

(** A command found in the history is printed, stored and executed. *)
Definition run_again (cmd : list Z) (s : shell_t) : outcome (flow * shell_t) :=
  let! (status, s) := execute_command cmd (set_history (history s ++ [cmd]) (print (print_command cmd) s)) in
  Done (match status with Some _ => Next | None => Exit end, s).

Definition run_index (buffer : list Z) (s : shell_t) : outcome (flow * shell_t) :=
  let! n := atoi (drop 1 buffer) in
  let command_line_nr := u64 n in
  if Z.of_nat (length (history s)) <=? command_line_nr then Done (Next, print print_invalid_index s)
  else
    let! cmd := deref (history s !! Z.to_nat command_line_nr) in
    run_again cmd s.

(** The last line that starts with the prefix; every line does with the empty one. *)
Definition find_last (prefix : list Z) (h : list (list Z)) : option (list Z) :=
  match prefix with
  | [] => last h
  | _ => head (filter (fun line => starts_with prefix line = true) (rev h))
  end.

Definition run_prefix (buffer : list Z) (s : shell_t) : outcome (flow * shell_t) :=
  match find_last (drop 1 buffer) (history s) with
  | None => Done (Next, print print_no_history_match s)
  | Some cmd => run_again cmd s
  end.

Fixpoint print_history (i : nat) (h : list (list Z)) (s : shell_t) : shell_t :=
  match h with
  | [] => s
  | line :: h => print_history (S i) h (print (print_history_line i line) s)
  end.

(** *** Logical operators *)

Inductive operator := AND | OR | SEQ.

(** The first operator among the tokens; the last character of an empty token is
    outside the string. *)
Fixpoint find_operator (cmds : list (list Z)) : outcome (option operator) :=
  match cmds with
  | [] => Done None
  | cmd :: cmds =>
      if decide (cmd = [38; 38]) then Done (Some AND)
      else if decide (cmd = [124; 124]) then Done (Some OR)
      else match last cmd with
           | None => Undef
           | Some c => if c =? 59 then Done (Some SEQ) else find_operator cmds
           end
  end.

(** Two commands, the second one executed if [again] of the first status. *)
Definition run_both (left : list Z) (right : outcome (list Z)) (again : Z -> bool) (s : shell_t) : outcome (option Z * shell_t) :=
  let! (failed_cmd1, s) := execute_command left s in
  match failed_cmd1 with
  | None => Done (None, s)
  | Some failed => if again failed then let! right := right in execute_command right s else Done (Some failed, s)
  end.

Definition run_operator (op : operator) (buffer : list Z) (s : shell_t) : outcome (option Z * shell_t) :=
  let (left, right) := strsep buffer (match op with AND => 38 | OR => 124 | SEQ => 59 end) in
  let right n := let! right := deref right in skip n right in
  match op with
  | AND => let! left := remove_last left in run_both left (right 2%nat) (fun failed => failed =? 0) s
  | OR => let! left := remove_last left in run_both left (right 2%nat) (fun failed => negb (failed =? 0)) s
  | SEQ => run_both left (right 1%nat) (fun _ => true) s
  end.

Definition run_command (buffer : list Z) (s : shell_t) : outcome (flow * shell_t) :=
  let s := set_history (history s ++ [buffer]) s in
  let! op := find_operator (sstring_split buffer 32) in
  let! (status, s) := match op with Some op => run_operator op buffer s | None => execute_command buffer s end in
  Done (match status with Some _ => Next | None => Exit end, s).

(** *** The loop *)

Definition EXIT : list Z := [101; 120; 105; 116].
Definition HISTORY : list Z := [33; 104; 105; 115; 116; 111; 114; 121].
Definition PS : list Z := [112; 115].
Definition KILL : list Z := [107; 105; 108; 108].
Definition STOP : list Z := [115; 116; 111; 112].
Definition CONT : list Z := [99; 111; 110; 116].

Definition run_line (fuel : nat) (buffer : list Z) (s : shell_t) : outcome (flow * shell_t) :=
  if decide (buffer = []) then Done (Next, s)
  else if starts_with EXIT buffer then Done (Break, s)
  else if decide (buffer = HISTORY) then Done (Next, print_history 0 (history s) s)
  else if starts_with [35] buffer then run_index buffer s
  else if starts_with [33] buffer then run_prefix buffer s
  else if decide (buffer = PS) then execute_ps fuel s
  else if starts_with KILL buffer then on_process buffer kill_process s
  else if starts_with STOP buffer then on_process buffer (send_signal SIGSTOP print_stopped_process) s
  else if starts_with CONT buffer then on_process buffer (send_signal SIGCONT print_continued_process) s
  else run_command buffer s.

(** The lines of the input; [false] when the shell has exited with status 1. *)
Fixpoint shell_loop (fuel : nat) (is_stdin : bool) (lines : list (list Z)) (s : shell_t) : outcome (bool * shell_t) :=
  match lines with
  | [] => Done (true, s)
  | line :: lines =>
      let buffer := until_zero (without_newline line) in
      let s := if bool_decide (last line = Some 10) && negb is_stdin then print (print_command buffer) s else s in
      let! (f, s) := run_line fuel buffer s in
      match f with
      | Next => shell_loop fuel is_stdin lines (print_full_path s)
      | Break => Done (true, s)
      | Exit => Done (false, s)
      end
  end.

(** *** Starting and ending *)

(** Lines without newline are dropped. *)
Definition load_history (content : list Z) : list (list Z) :=
  map (fun line => until_zero (without_newline line)) (filter (fun line => last line = Some 10) (getlines content)).

Record options := Options { h_name : option (list Z); f_name : option (list Z); expected_argc : Z }.

(** The options [getopt] finds, in order. *)
Fixpoint parse_options (opts : list (Z * list Z)) (o : options) : options :=
  match opts with
  | [] => o
  | (opt, optarg) :: opts =>
      parse_options opts
        (if opt =? 104 then Options (Some optarg) (f_name o) (expected_argc o + 2)
         else if opt =? 102 then Options (h_name o) (Some optarg) (expected_argc o + 2)
         else o)
  end.

(** The path of the history and the input, [None] when the shell exits. *)
Definition start_shell (argc : Z) (opts : list (Z * list Z)) (stdin : list Z) (s : shell_t) : option (option (list Z) * bool * list Z) * shell_t :=
  let o := parse_options opts (Options None None 1) in
  if negb (argc =? expected_argc o) then (None, print print_usage s)
  else
    let history_path := option_map (fun h => get_full_path h (os s)) (h_name o) in
    let s := match history_path with
             | None => s
             | Some path =>
                 match fopen_r path (os s) with
                 | None => print print_history_file_error s
                 | Some content => set_history (history s ++ load_history content) s
                 end
             end in
    match f_name o with
    | None => (Some (history_path, true, stdin), print_full_path s)
    | Some f =>
        match fopen_r f (os s) with
        | None => (None, print print_script_file_error s)
        | Some content => (Some (history_path, false, content), print_full_path s)
        end
    end.

(** The entries of [processes] are freed one after the other but not removed. *)
Fixpoint kill_all_loop (n i : nat) (s : shell_t) : outcome shell_t :=
  match n with
  | O => Done s
  | S n =>
      let! p := deref (processes s !! i) in
      if freed p then Undef
      else
        let! s := interrupt (set_os (kill (pid p) SIGKILL (os s)) s) in
        let! p' := deref (processes s !! i) in
        if negb (pid p' =? pid p) || freed p' then Undef
        else kill_all_loop n (S i) (set_processes (<[i := Process (command p) (pid p) true]> (processes s)) s)
  end.

Definition killAllChildProcesses (s : shell_t) : outcome shell_t :=
  let! s := kill_all_loop (length (processes s)) 0 s in Done (set_processes [] s).

Definition history_lines (h : list (list Z)) : list Z := concat (map (fun line => line ++ [10]) h).

Definition write_history (history_path : option (list Z)) (s : shell_t) : outcome shell_t :=
  match history_path with
  | None => Done s
  | Some path => let! o := deref (write_file path (history_lines (history s)) (os s)) in Done (set_os o s)
  end.

(** The exit status and the final state. *)
Definition shell (fuel : nat) (argc : Z) (opts : list (Z * list Z)) (stdin : list Z) (o : OS) : outcome (Z * shell_t) :=
  match start_shell argc opts stdin (Shell [] [] [] o) with
  | (None, s) => Done (1, s)
  | (Some (history_path, is_stdin, input), s) =>
      let! (finished, s) := shell_loop fuel is_stdin (getlines input) s in
      if finished : bool then
        let! s := killAllChildProcesses s in
        let! s := write_history history_path s in
        Done (0, s)
      else Done (1, s)
  end.

End Shell.
Arguments shell_t OS : clear implicits.
