(* ===== verification/ShellSpec.v ===== *)
(** * Correctness of the shell

    The history of a session is a function of its input ([session]); the saved
    history is what the next session loads.  A line with an operator runs its parts
    as the operator says.  As long as the system reaps only background children in
    the signal handler and no [kill] is used, the process table is the list of the
    children ([tracked]); examples show what happens otherwise. *)

From S2P Require Import Prelude CString Sstring SstringSpec Shell.
Open Scope Z_scope.

(** ** The history *)

Section History.

Context {OS : Type} {LO : UnixLib OS} {SS : SstringLib}.
Implicit Types s : shell_t OS.

Lemma remove_process_history p s s' : remove_process p s = Done s' -> history s' = history s.
Proof. unfold remove_process. intros H. inv_done. case_match; inv_done; by subst. Qed.

Lemma delete_process_history between p s s' :
  (forall s s', between s = Done s' -> history s' = history s) -> delete_process between p s = Done s' -> history s' = history s.
Proof.
  intros Hb. unfold delete_process. intros H. apply obind_Done in H as (i & _ & H). apply obind_Done in H as (s1 & H1%Hb & H).
  apply obind_Done in H as (ps & _ & H). injection H as <-. cbn. rewrite H1. by destruct i.
Qed.

Lemma reap_history reaped s s' : wait_for_all_background_child_processes reaped s = Done s' -> history s' = history s.
Proof.
  revert s. induction reaped as [|p reaped IH]; intros s H; cbn in H; inv_done; [by subst|].
  apply IH in H. rewrite H. eapply delete_process_history; [|done]. by intros ? ? [= <-].
Qed.

Lemma sigint_history rounds i s s' : sigint_loop rounds i s = Done s' -> history s' = history s.
Proof.
  revert i s. induction rounds as [|n IH]; intros i s H; cbn in H; inv_done; [by subst|].
  destruct (freed r); [done|]. destruct (negb _); [|by eapply IH]. inv_done. apply IH in H. rewrite H.
  apply remove_process_history in Er0. by rewrite Er0.
Qed.

Lemma handle_history sigs s s' : handle_signals sigs s = Done s' -> history s' = history s.
Proof.
  revert s. induction sigs as [|sg sigs IH]; intros s H; cbn in H; inv_done; [by subst|]. apply IH in H. rewrite H.
  destruct sg; [by eapply reap_history|by eapply sigint_history].
Qed.

Lemma interrupt_history s s' : interrupt s = Done s' -> history s' = history s.
Proof. unfold interrupt. destruct (delivered (os s)). apply (handle_history _ (set_os _ s)). Qed.

Lemma interrupt_deleting_history s s' : interrupt_deleting s = Done s' -> history s' = history s.
Proof. unfold interrupt_deleting. destruct (delivered_deleting (os s)). apply (handle_history _ (set_os _ s)). Qed.

Lemma execute_history buffer s r s' : execute_command buffer s = Done (r, s') -> history s' = history s.
Proof.
  unfold execute_command. case_decide as Hcd; [by intros [= <- <-]|]. destruct (starts_with _ _).
  { destruct (chdir _ _) as [[] o]; by intros [= <- <-]. }
  destruct (fork _ _) as [child o]. intros Hr. inv_done. apply interrupt_history in Er as Hs0. cbn in Hs0.
  destruct child as [child|]; [|injection Hr as <- <-; by rewrite <- Hs0]. inv_done. apply interrupt_history in Er0 as Hs1. cbn in Hs1.
  rewrite <- Hs0, <- Hs1. clear Hs0 Hs1 Er Er0. case_decide as Hbg; unfold run_in_background, run_in_foreground in Hr; destruct (setpgid _ _ _) as [ok o1]; inv_done;
    apply interrupt_history in Er as Hs2; cbn in Hs2; rewrite <- Hs2.
  - destruct ok; by injection Hr as <- <-.
  - destruct ok; cbn in Hr; [|by injection Hr as <- <-]. destruct (waitpid _ _) as [st o2]. inv_done. apply interrupt_history in Er0 as Hs3. cbn in Hs3. rewrite <- Hs3.
    destruct st; [|by injection Hr as <- <-]. apply obind_Done in Hr as (s5 & Hdel & Hr). injection Hr as <- <-. eapply delete_process_history; [exact interrupt_deleting_history|done].
Qed.

Lemma run_both_history left right again s r s' : run_both left right again s = Done (r, s') -> history s' = history s.
Proof.
  unfold run_both. intros H. inv_done. destruct r0 as [st s1]. apply execute_history in Er. destruct st; [|by injection H as <- <-].
  destruct (again z); [|by injection H as <- <-]. inv_done. apply execute_history in H. by rewrite H.
Qed.

Lemma run_operator_history op buffer s r s' : run_operator op buffer s = Done (r, s') -> history s' = history s.
Proof.
  unfold run_operator. destruct (strsep _ _) as [left right]. destruct op; intros H; inv_done; by eapply run_both_history.
Qed.

Lemma ps_history fuel ps s f s' : ps_loop fuel ps s = Done (f, s') -> history s' = history s.
Proof.
  revert s. induction ps as [|p ps IH]; intros s H; cbn in H; [by injection H as <- <-|]. destruct (freed p); [done|]. inv_done.
  destruct r; [|by injection H as <- <-]. by apply IH in H.
Qed.

Lemma send_history signal printed p s s' : send_signal signal printed p s = Done s' -> history s' = history s.
Proof. unfold send_signal. intros H. inv_done. subst. apply interrupt_history in Er. done. Qed.

Lemma kill_history p s s' : kill_process p s = Done s' -> history s' = history s.
Proof. unfold kill_process. intros H. inv_done. apply remove_process_history in H. rewrite H. by eapply send_history. Qed.

Lemma on_process_history buffer act s f s' :
  (forall p s s', act p s = Done s' -> history s' = history s) -> on_process buffer act s = Done (f, s') -> history s' = history s /\ f = Next.
Proof.
  intros Hact. unfold on_process. intros H. inv_done; simplify_eq. split; [|done]. destruct (_ =? 4)%nat; [by simplify_eq|]. apply obind_Done in Er as (q & _ & Er). apply obind_Done in Er as (o & _ & Er).
  destruct o; [by eapply Hact|by simplify_eq].
Qed.

Lemma print_history_history i h s : history (print_history i h s) = history s.
Proof. revert i s. induction h as [|l h IH]; intros i s; cbn; [done|]. by rewrite IH. Qed.

Lemma run_again_history cmd s f s' : run_again cmd s = Done (f, s') -> history s' = history s ++ [cmd].
Proof. unfold run_again. intros H. inv_done. destruct r. apply execute_history in Er. by injection H as <- <-. Qed.

End History.

(** What a line adds to the history [h]. *)
Definition logged (h : list (list Z)) (buffer : list Z) : list (list Z) :=
  if decide (buffer = []) then []
  else if starts_with EXIT buffer then []
  else if decide (buffer = HISTORY) then []
  else if starts_with [35] buffer then
    match atoi (drop 1 buffer) with
    | Done n => match h !! Z.to_nat (u64 n) with Some cmd => [cmd] | None => [] end
    | _ => []
    end
  else if starts_with [33] buffer then match find_last (drop 1 buffer) h with Some cmd => [cmd] | None => [] end
  else if decide (buffer = PS) then []
  else if starts_with KILL buffer || starts_with STOP buffer || starts_with CONT buffer then []
  else [buffer].

(** The history after the lines of a session, up to "exit". *)
Fixpoint session (h : list (list Z)) (lines : list (list Z)) : list (list Z) :=
  match lines with
  | [] => h
  | line :: lines =>
      let buffer := until_zero (without_newline line) in
      if negb (bool_decide (buffer = [])) && starts_with EXIT buffer then h else session (h ++ logged h buffer) lines
  end.

Section Session.

Context {OS : Type} {LO : UnixLib OS} {SS : SstringLib}.
Implicit Types s : shell_t OS.

Lemma run_line_history fuel buffer s f s' :
  run_line fuel buffer s = Done (f, s') ->
  history s' = history s ++ logged (history s) buffer /\
  (f = Break <-> buffer <> [] /\ starts_with EXIT buffer = true).
Proof.
  unfold run_line, logged. case_decide as He; [intros [= <- <-]; rewrite app_nil_r; naive_solver|].
  destruct (starts_with EXIT buffer) eqn:Hexit; [intros [= <- <-]; rewrite app_nil_r; naive_solver|].
  case_decide; [intros [= <- <-]; rewrite app_nil_r, print_history_history; naive_solver|].
  destruct (starts_with [35] buffer).
  { unfold run_index. intros H1. inv_done. rewrite Er. destruct (Z.leb_spec (Z.of_nat (length (history s))) (u64 r)) as [Hle|Hlt].
    - injection H1 as <- <-. rewrite lookup_ge_None_2 by lia. rewrite app_nil_r. naive_solver.
    - inv_done. destruct (history s !! _) as [cmd|]; [|done]. injection Er0 as <-. apply run_again_history in H1 as Hh. split; [done|].
      unfold run_again in H1. inv_done. destruct r0 as [[] ?]; injection H1 as <- <-; naive_solver. }
  destruct (starts_with [33] buffer).
  { unfold run_prefix. destruct (find_last _ _) as [cmd|]; [|intros [= <- <-]; rewrite app_nil_r; naive_solver].
    intros H1. apply run_again_history in H1 as Hh. split; [done|].
    unfold run_again in H1. inv_done. destruct r as [[] ?]; injection H1 as <- <-; naive_solver. }
  case_decide.
  { unfold execute_ps. intros H1. apply ps_history in H1 as Hh. rewrite app_nil_r. split; [done|].
    assert (f <> Break); [|naive_solver]. intros ->. revert H1. generalize (print print_process_info_header s) as s0.
    induction (processes s ++ _) as [|p ps IH]; intros s0 H1; cbn in H1; [done|]. destruct (freed p); [done|]. inv_done. destruct r; [|done]. by eapply IH. }
  destruct (starts_with KILL buffer).
  { intros H1. apply on_process_history in H1 as [? ->]; [rewrite app_nil_r; naive_solver|apply kill_history]. }
  destruct (starts_with STOP buffer).
  { intros H1. apply on_process_history in H1 as [? ->]; [rewrite app_nil_r; naive_solver|apply send_history]. }
  destruct (starts_with CONT buffer).
  { intros H1. apply on_process_history in H1 as [? ->]; [rewrite app_nil_r; naive_solver|apply send_history]. }
  unfold run_command. intros H1. inv_done. destruct r0 as [st s1]. injection H1 as <- <-. split; [|by destruct st; naive_solver].
  cbn [orb]. destruct r; [apply run_operator_history in Er0|apply execute_history in Er0]; done.
Qed.

Lemma shell_loop_history fuel is_stdin lines s s' :
  shell_loop fuel is_stdin lines s = Done (true, s') -> history s' = session (history s) lines.
Proof.
  revert s. induction lines as [|line lines IH]; intros s H; cbn [shell_loop session] in *; [by injection H as <-|].
  set (buffer := until_zero (without_newline line)) in *. inv_done. destruct r as [f s1]. apply run_line_history in Er as [Hh Hb].
  assert (Hs : history (if bool_decide (last line = Some 10) && negb is_stdin then print (print_command buffer) s else s) = history s) by (by destruct (bool_decide _ && negb _)).
  rewrite Hs in Hh. destruct (decide (buffer = [])) as [He|He]; [rewrite (bool_decide_true (buffer = [])) by done|rewrite (bool_decide_false (buffer = [])) by done]; cbn [negb andb].
  - destruct f; [rewrite (IH _ H); cbn [history print_full_path print]; by rewrite Hh|destruct Hb; naive_solver|done].
  - destruct (starts_with EXIT buffer) eqn:Hx.
    + assert (f = Break) as -> by naive_solver. injection H as <-. rewrite Hh. unfold logged. rewrite decide_False, Hx by done. by rewrite app_nil_r.
    + destruct f; [rewrite (IH _ H); cbn [history print_full_path print]; by rewrite Hh|naive_solver|done].
Qed.

End Session.

(** ** The history file *)

(** An entry that can be a line of the file. *)
Definition clean (line : list Z) : Prop := (10 ∉ line) /\ (0 ∉ line).

Lemma until_zero_clean l : 0 ∉ until_zero l.
Proof.
  induction l as [|c l IH]; cbn; [apply not_elem_of_nil|]. destruct (Z.eqb_spec c 0); [apply not_elem_of_nil|].
  apply not_elem_of_cons. by split.
Qed.

Lemma elem_of_until_zero x l : x ∈ until_zero l -> x ∈ l.
Proof. induction l as [|c l IH]; cbn; [done|]. destruct (c =? 0); [by intros ?%not_elem_of_nil|]. rewrite !elem_of_cons. naive_solver. Qed.

Lemma getlines_lines s line : line ∈ getlines s -> 10 ∉ without_newline line.
Proof.
  revert line. induction s as [|c s IH]; intros line Hl; cbn in Hl; [by apply not_elem_of_nil in Hl|].
  destruct (Z.eqb_spec c 10) as [->|Hc].
  { apply elem_of_cons in Hl as [->|Hl]; [apply not_elem_of_nil|by apply IH]. }
  destruct (getlines s) as [|l ls] eqn:E.
  { apply list_elem_of_singleton in Hl as ->. unfold without_newline. cbn. rewrite (proj2 (Z.eqb_neq c 10)) by done.
    intros Hin%list_elem_of_singleton. done. }
  apply elem_of_cons in Hl as [->|Hl]; [|apply IH; by right].
  specialize (IH l ltac:(by left)). clear E. unfold without_newline in *. cbn [rev].
  destruct (rev l) as [|d r] eqn:Er; cbn [app].
  - apply (f_equal (@rev Z)) in Er. rewrite rev_involutive in Er. subst l. cbn. rewrite (proj2 (Z.eqb_neq c 10)) by done. intros Hin%list_elem_of_singleton. done.
  - destruct (d =? 10); [rewrite rev_app_distr; cbn|]; apply not_elem_of_cons; (split; [done|exact IH]).
Qed.

Lemma line_clean s line : line ∈ getlines s -> clean (until_zero (without_newline line)).
Proof.
  intros Hl. split; [|apply until_zero_clean]. intros Hin. by apply (getlines_lines s line Hl), elem_of_until_zero.
Qed.

Lemma load_history_clean content : Forall clean (load_history content).
Proof.
  unfold load_history. apply Forall_fmap, Forall_forall. intros line Hl. apply list_elem_of_filter in Hl as [_ Hl]. by eapply line_clean.
Qed.

Lemma find_last_elem prefix h cmd : find_last prefix h = Some cmd -> cmd ∈ h.
Proof.
  unfold find_last. destruct prefix as [|c prefix].
  - intros [h' ->]%last_Some. apply elem_of_app. right. by left.
  - intros Hl. destruct (filter _ _) as [|x r] eqn:E; [done|]. injection Hl as ->.
    assert (Hin : cmd ∈ filter (fun line => starts_with (c :: prefix) line = true) (rev h)) by (rewrite E; by left).
    apply list_elem_of_filter in Hin as [_ Hin]. by apply list_elem_of_In, in_rev, list_elem_of_In in Hin.
Qed.

Lemma logged_clean h buffer : Forall clean h -> clean buffer -> Forall clean (logged h buffer).
Proof.
  intros Hh Hb. rewrite Forall_forall in Hh.
  unfold logged. repeat case_match; try apply Forall_nil_2; apply Forall_singleton; try done; apply Hh.
  - by eapply list_elem_of_lookup_2.
  - by eapply find_last_elem.
Qed.

Lemma session_clean h lines : Forall clean h -> Forall (fun line => clean (until_zero (without_newline line))) lines -> Forall clean (session h lines).
Proof.
  revert h. induction lines as [|line lines IH]; intros h Hh Hl; cbn; [done|]. apply Forall_cons in Hl as [Hline Hl].
  destruct (_ && _); [done|]. apply IH; [|done]. apply Forall_app. split; [done|]. by apply logged_clean.
Qed.

Lemma load_history_lines h : Forall clean h -> load_history (history_lines h) = h.
Proof.
  intros Hh. unfold load_history, history_lines. rewrite getlines_concat by (eapply Forall_impl; [done|]; by intros ? [? ?]).
  induction Hh as [|line h [Hn Hz] _ IH]; [done|]. cbn [map]. rewrite filter_cons, decide_True by (rewrite last_snoc; done).
  cbn [map]. rewrite IH. f_equal. unfold without_newline. rewrite rev_app_distr. cbn. rewrite rev_involutive. by apply until_zero_id.
Qed.

Section HistoryFile.

Context {OS : Type} {LO : UnixLib OS} {SS : SstringLib}.

(** A file holds what was written to it. *)
Hypothesis write_read : forall path c o o', write_file path c o = Some o' -> fopen_r path o' = Some c.

Lemma kill_all_history n i (s s' : shell_t OS) : kill_all_loop n i s = Done s' -> history s' = history s.
Proof.
  revert i s. induction n as [|n IH]; intros i s H; cbn in H; [by injection H as <-|]. inv_done. destruct (freed r); [done|]. inv_done.
  destruct (_ || _); [done|]. apply IH in H. rewrite H. apply interrupt_history in Er0. done.
Qed.

(** C16. A session that ends normally has in its history the lines loaded from the file
    followed by the commands of its input, those taken from the history included, and
    leaves a file from which the next session loads exactly this history. *)
Theorem history_saved fuel argc opts stdin o s' name path
    (Hname : h_name (parse_options opts (Options None None 1)) = Some name)
    (Hfile : f_name (parse_options opts (Options None None 1)) = None)
    (Hpath : path = get_full_path name o)
    (Hrun : shell fuel argc opts stdin o = Done (0, s')) :
  let loaded := match fopen_r path o with Some content => load_history content | None => [] end in
  history s' = session loaded (getlines stdin) /\
  exists content, fopen_r path (os s') = Some content /\ load_history content = history s'.
Proof.
  unfold shell, start_shell in Hrun. rewrite Hname, Hfile in Hrun. cbn [option_map os] in Hrun. rewrite <- Hpath in Hrun.
  destruct (negb _); [done|]. set (s0 := print_full_path _) in Hrun.
  assert (Hs0 : history s0 = match fopen_r path o with Some content => load_history content | None => [] end) by (unfold s0; cbn; by destruct (fopen_r path o)).
  clearbody s0. intros loaded. fold loaded in Hs0. apply obind_Done in Hrun as ([b s1] & Hloop & Hrun). destruct b; [|done].
  apply obind_Done in Hrun as (s2 & Hkill & Hrun). apply obind_Done in Hrun as (s3 & Hwrite & [= <-]).
  apply shell_loop_history in Hloop. rewrite Hs0 in Hloop.
  unfold killAllChildProcesses in Hkill. apply obind_Done in Hkill as (s4 & Hkill & [= <-]). apply kill_all_history in Hkill.
  unfold write_history in Hwrite. apply obind_Done in Hwrite as (o3 & Ho & [= <-]). cbn in *. rewrite Hkill in *.
  destruct (write_file _ _ _) as [o4|] eqn:E; [|done]. injection Ho as ->. apply write_read in E. split; [done|].
  eexists. split; [exact E|]. apply load_history_lines. rewrite Hloop. apply session_clean.
  - unfold loaded. destruct (fopen_r path o); [apply load_history_clean|done].
  - apply Forall_forall. intros line Hl. by eapply line_clean.
Qed.

End HistoryFile.

(** ** Splitting into tokens *)

(** The split of the library is that of Python. *)
Class SplitLaws (SS : SstringLib) := {
  split_one s d : d ∉ s -> sstring_split s d = [s];
  split_app a b d : sstring_split (a ++ d :: b) d = sstring_split a d ++ sstring_split b d;
}.

#[export] Instance python_split : SstringLib := {| sstring_split s d := parts d s [] |}.

#[export] Instance python_split_laws : SplitLaws python_split.
Proof.
  split.
  - intros s d Hs. cbn. pose proof (parts_skip d s [] [] Hs) as Hp. by rewrite app_nil_r in Hp.
  - intros a b d. cbn. generalize (@nil Z) at 1 2. induction a as [|c a IH]; intros cur; cbn; [by rewrite Z.eqb_refl|].
    destruct (c =? d); [by rewrite (IH [])|by rewrite IH].
Qed.

Section Tokens.

Context {SS : SstringLib} {HS : SplitLaws SS}.

Lemma split_ind d (P : list Z -> Prop) :
  (forall s, d ∉ s -> P s) -> (forall a b, d ∉ a -> P b -> P (a ++ d :: b)) -> forall s, P s.
Proof.
  intros H1 H2 s. remember (length s) as n eqn:Hn. revert s Hn. induction (lt_wf n) as [n _ IH]. intros s ->.
  destruct (decide (d ∈ s)) as [Hin|Hin]; [|by apply H1]. apply list_elem_of_split_l in Hin as (a & b & -> & Ha).
  apply H2; [done|]. eapply IH; [|done]. rewrite length_app. cbn. lia.
Qed.

Lemma token_chars d s x c : x ∈ sstring_split s d -> c ∈ x -> c ∈ s.
Proof.
  revert s. apply (split_ind d (fun s => x ∈ sstring_split s d -> c ∈ x -> c ∈ s)).
  - intros s Hs. rewrite split_one by done. by intros ->%list_elem_of_singleton.
  - intros a b Ha IH. rewrite split_app, split_one by done. intros [->%list_elem_of_singleton|Hx]%elem_of_app Hc; apply elem_of_app; [by left|]. right. right. by apply IH.
Qed.

Lemma split_extend d s w : d ∉ w -> exists l t, sstring_split s d = l ++ [t] /\ sstring_split (s ++ w) d = l ++ [t ++ w].
Proof.
  intros Hw. revert s. apply (split_ind d).
  - intros s Hs. exists [], s. rewrite !split_one; [done|rewrite elem_of_app; naive_solver|done].
  - intros a b Ha (l & t & H1 & H2). exists (a :: l), t. rewrite <- app_assoc. cbn [app]. rewrite !split_app, H1, H2, split_one by done. done.
Qed.

(** ** Operators *)

Definition op_text (op : operator) : list Z := match op with AND => [32; 38; 38; 32] | OR => [32; 124; 124; 32] | SEQ => [59; 32] end.

(** A command without operators, its words one space apart. *)
Record plain (a : list Z) : Prop := Plain {
  plain_and : 38 ∉ a;
  plain_or : 124 ∉ a;
  plain_seq : 59 ∉ a;
  plain_tokens : [] ∉ sstring_split a 32;
}.

Definition word (x : list Z) : Prop := x <> [] /\ (38 ∉ x) /\ (124 ∉ x) /\ (59 ∉ x).

Lemma plain_word a x : plain a -> x ∈ sstring_split a 32 -> word x.
Proof.
  intros [H1 H2 H3 H4] Hx. split; [by intros ->|]. repeat split; intros Hc; by apply (token_chars _ _ _ _ Hx) in Hc.
Qed.

Lemma find_operator_word x l : word x -> find_operator (x :: l) = find_operator l.
Proof.
  intros (Hne & Ha & Ho & Hs). cbn. rewrite decide_False by (intros ->; apply Ha; by left). rewrite decide_False by (intros ->; apply Ho; by left).
  destruct (last x) as [c|] eqn:El; [|by apply last_None in El].
  by rewrite (proj2 (Z.eqb_neq c 59)) by (intros ->; apply Hs; apply last_Some in El as [x' ->]; apply elem_of_app; right; by left).
Qed.

Lemma find_operator_words l rest : (forall x, x ∈ l -> word x) -> find_operator (l ++ rest) = find_operator rest.
Proof.
  induction l as [|x l IH]; intros Hl; [done|]. cbn [app]. rewrite find_operator_word by (apply Hl; by left). apply IH. intros y Hy. apply Hl. by right.
Qed.

Lemma find_operator_skip a rest : plain a -> find_operator (sstring_split a 32 ++ rest) = find_operator rest.
Proof. intros Hp. apply find_operator_words. intros x. by apply plain_word. Qed.

Lemma find_operator_text op a b : plain a -> find_operator (sstring_split (a ++ op_text op ++ b) 32) = Done (Some op).
Proof.
  intros Hp. destruct op; cbn [op_text app].
  - rewrite split_app, find_operator_skip by done. change (38 :: 38 :: 32 :: b) with ([38; 38] ++ 32 :: b). rewrite split_app, split_one; [done|].
    rewrite !not_elem_of_cons. split; [done|]. split; [done|]. apply not_elem_of_nil.
  - rewrite split_app, find_operator_skip by done. change (124 :: 124 :: 32 :: b) with ([124; 124] ++ 32 :: b). rewrite split_app, split_one; [done|].
    rewrite !not_elem_of_cons. split; [done|]. split; [done|]. apply not_elem_of_nil.
  - replace (a ++ 59 :: 32 :: b) with ((a ++ [59]) ++ 32 :: b) by (by rewrite <- app_assoc). rewrite split_app.
    destruct (split_extend 32 a [59]) as (l & t & H1 & H2); [by intros ?%list_elem_of_singleton|]. rewrite H2, <- !app_assoc.
    rewrite find_operator_words by (intros x Hx; apply (plain_word a); [done|]; rewrite H1; apply elem_of_app; by left).
    cbn.
    rewrite decide_False by (intros Heq; apply (f_equal last) in Heq; by rewrite last_snoc in Heq).
    rewrite decide_False by (intros Heq; apply (f_equal last) in Heq; by rewrite last_snoc in Heq). by rewrite last_snoc.
Qed.

Lemma strsep_first d a b : d ∉ a -> strsep (a ++ d :: b) d = (a, Some b).
Proof.
  induction a as [|c a IH]; intros Ha; cbn; [by rewrite Z.eqb_refl|]. apply not_elem_of_cons in Ha as [Hc Ha].
  rewrite (proj2 (Z.eqb_neq c d)) by done. by rewrite IH.
Qed.

Lemma remove_last_snoc a c : remove_last (a ++ [c]) = Done a.
Proof. unfold remove_last. destruct (a ++ [c]) eqn:E; [by destruct a|]. by rewrite <- E, removelast_last. Qed.

Context {OS : Type} {LO : UnixLib OS}.

(** None of the commands the shell runs itself, other than [cd]. *)
Definition to_command (buffer : list Z) : bool :=
  negb (bool_decide (buffer = []) || starts_with EXIT buffer || bool_decide (buffer = HISTORY) || starts_with [35] buffer || starts_with [33] buffer ||
        bool_decide (buffer = PS) || starts_with KILL buffer || starts_with STOP buffer || starts_with CONT buffer).

Lemma run_line_command fuel buffer (s : shell_t OS) : to_command buffer = true -> run_line fuel buffer s = run_command buffer s.
Proof.
  unfold to_command, run_line. rewrite negb_true_iff, !orb_false_iff. intros ((((((((H1 & ->) & H2) & ->) & ->) & H3) & ->) & ->) & ->).
  apply bool_decide_eq_false in H1, H2, H3. by rewrite !decide_False by done.
Qed.

(** Whether the second command runs, given the status of the first. *)
Definition wanted (op : operator) (status : Z) : bool :=
  match op with AND => status =? 0 | OR => negb (status =? 0) | SEQ => true end.


End Tokens.

(** ** What a child executes *)

Section Child.

Context {SS : SstringLib} {HS : SplitLaws SS}.

Lemma split_join d ws : ws <> [] -> Forall (fun w => d ∉ w) ws -> sstring_split (join d ws) d = ws.
Proof.
  intros Hne Hws. induction Hws as [|w ws Hw Hws IH]; [done|]. destruct ws as [|w' ws]; [by apply split_one|].
  change (join d (w :: w' :: ws)) with (w ++ d :: join d (w' :: ws)). rewrite split_app, split_one, IH by done. done.
Qed.

Lemma join_app d ws vs : ws <> [] -> vs <> [] -> join d (ws ++ vs) = join d ws ++ d :: join d vs.
Proof.
  intros Hw Hv. induction ws as [|w ws IH]; [done|]. destruct ws as [|w' ws]; [by destruct vs|].
  change (join d ((w :: w' :: ws) ++ vs)) with (w ++ d :: join d ((w' :: ws) ++ vs)). rewrite IH by done.
  change (join d (w :: w' :: ws)) with (w ++ d :: join d (w' :: ws)). by rewrite <- app_assoc.
Qed.

Lemma join_chars d c ws : c <> d -> Forall (fun w => c ∉ w) ws -> c ∉ join d ws.
Proof.
  intros Hc Hws. induction Hws as [|w ws Hw Hws IH]; [apply not_elem_of_nil|]. destruct ws as [|w' ws]; [done|].
  change (join d (w :: w' :: ws)) with (w ++ d :: join d (w' :: ws)). rewrite not_elem_of_app, not_elem_of_cons. done.
Qed.

Lemma scan_tokens_words ws rest r :
  Forall (fun w => redirect_of w = None) ws -> scan_tokens (ws ++ rest) r = (match r with None => ws | Some _ => [] end ++ (scan_tokens rest r).1, (scan_tokens rest r).2).
Proof.
  induction 1 as [|w ws Hw _ IH]; cbn; [by destruct (scan_tokens rest r), r|]. rewrite Hw, IH. by destruct r.
Qed.

Definition symbol (r : redirect) : list Z := match r with Truncate => GT | Append => GTGT | Input => LT end.

Definition plain_words (ws : list (list Z)) : Prop := ws <> [] /\ Forall (fun w => redirect_of w = None /\ (32 ∉ w)) ws.

(** What a child runs: the words of the line; without the last one when that is
    "&"; and for "words > file" (or ">>", "<") the words before the symbol, with the
    output or input going to the file. *)
Theorem child_main_correct ws fs r
    (Hws : plain_words ws) (Hfs : plain_words fs) (Hlast : last ws <> Some AMP) (Hflast : last fs <> Some AMP)
    (Hr : Forall (fun w => (62 ∉ w) /\ (60 ∉ w)) ws) :
  child_main (join 32 ws) = Done (ChildPlan None ws) /\
  child_main (join 32 (ws ++ [AMP])) = Done (ChildPlan None ws) /\
  child_main (join 32 (ws ++ symbol r :: fs)) = Done (ChildPlan (Some (r, join 32 fs)) ws).
Proof.
  destruct Hws as [Hne Hws], Hfs as [Hfne Hfs].
  assert (Hws1 : Forall (fun w => redirect_of w = None) ws) by (eapply Forall_impl; [exact Hws|]; naive_solver).
  assert (Hws2 : Forall (fun w => 32 ∉ w) ws) by (eapply Forall_impl; [exact Hws|]; naive_solver).
  assert (Hfs1 : Forall (fun w => redirect_of w = None) fs) by (eapply Forall_impl; [exact Hfs|]; naive_solver).
  assert (Hfs2 : Forall (fun w => 32 ∉ w) fs) by (eapply Forall_impl; [exact Hfs|]; naive_solver).
  assert (Hamp : 32 ∉ AMP) by (by intros ?%list_elem_of_singleton). unfold child_main. split; [|split].
  - rewrite split_join by done. rewrite <- (app_nil_r ws) at 1. rewrite scan_tokens_words by done. cbn. by rewrite decide_False, app_nil_r.
  - rewrite split_join by first [by destruct ws | apply Forall_app; split; [done|]; constructor; [done|constructor]].
    rewrite scan_tokens_words by done. cbn. rewrite decide_True by apply last_snoc. rewrite length_app. cbn. by rewrite Nat.add_sub, take_app_length.
  - assert (Hsym : 32 ∉ symbol r) by (destruct r; cbv [symbol GT GTGT LT]; rewrite !not_elem_of_cons; repeat split; try done; apply not_elem_of_nil).
    rewrite split_join by first [by destruct ws | apply Forall_app; split; [done|]; by constructor].
    rewrite scan_tokens_words by done.
    assert (Hscan : scan_tokens (symbol r :: fs) None = ([], Some r)).
    { rewrite <- (app_nil_r fs). destruct r; cbn; rewrite scan_tokens_words by done; done. }
    rewrite Hscan. cbn [fst snd]. rewrite app_nil_r.
    assert (Hl : last (ws ++ symbol r :: fs) = last fs).
    { rewrite last_app, last_cons. destruct (last fs) eqn:El; [done|]. by apply last_None in El. }
    rewrite Hl, decide_False by done.
    assert (Hgt : (62 ∉ join 32 ws) /\ (60 ∉ join 32 ws)).
    { split; apply join_chars; try done; (eapply Forall_impl; [exact Hr|]); naive_solver. }
    unfold solve_redirection. rewrite join_app by done. destruct fs as [|f fs]; [done|].
    replace (join 32 (symbol r :: f :: fs)) with (symbol r ++ 32 :: join 32 (f :: fs)) by done.
    replace (join 32 ws ++ 32 :: symbol r ++ 32 :: join 32 (f :: fs)) with ((join 32 ws ++ [32]) ++ symbol r ++ 32 :: join 32 (f :: fs)) by (by rewrite <- app_assoc).
    destruct r; cbn [symbol GT GTGT LT app]; rewrite strsep_first by (rewrite not_elem_of_app, list_elem_of_singleton; naive_solver); rewrite remove_last_snoc; done.
Qed.

End Child.

(** ** The process table *)

(** The system the shell is written for: [children] are the children not waited for,
    [own_group] those in a process group of their own.  The handler reaps only the
    latter, so a foreground child is left to [waitpid]; no interrupt key, no signal
    within [delete_process] itself, and a signal other than [SIGKILL] ends no process. *)
Class UnixLaws (OS : Type) {LO : UnixLib OS} := {
  children : OS -> list Z;
  own_group : OS -> list Z;
  chdir_law p o : children (chdir p o).2 = children o /\ own_group (chdir p o).2 = own_group o;
  fork_law plan o : match fork plan o with
    | (Some c, o') => children o' = children o ++ [c] /\ own_group o' = own_group o /\ (c ∉ own_group o) /\ c <> getpid
    | (None, o') => children o' = children o /\ own_group o' = own_group o
    end;
  setpgid_law c g o : children (setpgid c g o).2 = children o /\ (forall x, x ∈ own_group (setpgid c g o).2 -> x ∈ own_group o \/ x = c /\ g = c);
  waitpid_law c o : c ∈ children o -> exists status o', waitpid c o = (Some status, o') /\ children o ≡ₚ c :: children o' /\ own_group o' = own_group o;
  kill_law c signal o : signal <> SIGKILL -> children (kill c signal o) = children o /\ own_group (kill c signal o) = own_group o;
  delivered_law o : exists rs, (delivered o).1 = map SIGCHLD rs /\
    children o ≡ₚ concat rs ++ children (delivered o).2 /\ concat rs ⊆ own_group o /\ own_group (delivered o).2 ⊆ own_group o;
  deleting_law o : delivered_deleting o = ([], o);
}.

Lemma find_process_some p ps : Forall (fun q => freed q = false) ps -> p ∈ map pid ps -> exists i q, find_process p ps = Done (Some i) /\ ps !! i = Some q /\ pid q = p.
Proof.
  intros Hf. induction Hf as [|q ps Hq _ IH]; intros Hp; [by apply not_elem_of_nil in Hp|]. cbn. rewrite Hq. destruct (Z.eqb_spec (pid q) p) as [<-|Hne].
  - by exists O, q.
  - apply elem_of_cons in Hp as [->|Hp]; [done|]. destruct (IH Hp) as (i & q' & -> & Hi & Hpid). by exists (S i), q'.
Qed.

Lemma find_process_none p ps : Forall (fun q => freed q = false) ps -> p ∉ map pid ps -> find_process p ps = Done None.
Proof.
  intros Hf. induction Hf as [|q ps Hq _ IH]; intros Hp; [done|]. cbn in *. apply not_elem_of_cons in Hp as [Hne Hp]. rewrite Hq.
  rewrite (proj2 (Z.eqb_neq _ _)) by done. by rewrite IH.
Qed.

Lemma vector_erase_at {A} (l : list A) i a : l !! i = Some a -> exists l', vector_erase l (Z.of_nat i) = Done l' /\ l ≡ₚ a :: l'.
Proof.
  intros Hi. unfold vector_erase. rewrite Nat2Z.id. rewrite (proj2 (Z.ltb_lt _ _)) by (apply lookup_lt_Some in Hi; lia).
  eexists. split; [done|]. rewrite <- (take_drop_middle l i a Hi) at 1. by rewrite Permutation_middle.
Qed.

(** Nothing in between: one entry is erased. *)
Lemma delete_process_alone {OS} {LO : UnixLib OS} (s : shell_t OS) p :
  delete_process Done p s =
    let! removed_pos := find_process p (processes s) in
    let! ps := vector_erase (processes s) (match removed_pos with Some i => Z.of_nat i | None => u64 (-1) end) in
    Done (set_processes ps s).
Proof.
  unfold delete_process. destruct (find_process p (processes s)) as [[i|]| | |]; try done. cbn [obind processes set_processes].
  unfold vector_erase. rewrite length_alter, Nat2Z.id. destruct (_ <? _); [|done]. cbn [obind]. rewrite take_alter, drop_alter. by rewrite !decide_False by lia.
Qed.

Section Table.

Context {OS : Type} {LO : UnixLib OS} {SS : SstringLib} {UL : UnixLaws OS}.
Implicit Types s : shell_t OS.

(** The table and the children not in it are the children the system knows and those
    it has forgotten. *)
Definition tracks (missing gone : list Z) s : Prop :=
  Forall (fun p => freed p = false) (processes s) /\ map pid (processes s) ++ missing ≡ₚ children (os s) ++ gone.

Definition tracked s : Prop := tracks [] [] s.

Lemma delete_process_tracks p s missing rest :
  Forall (fun p => freed p = false) (processes s) -> map pid (processes s) ++ missing ≡ₚ p :: rest -> p ∉ missing ->
  exists ps, delete_process Done p s = Done (set_processes ps s) /\ Forall (fun p => freed p = false) ps /\ map pid ps ++ missing ≡ₚ rest.
Proof.
  intros Hf Hp Hm. assert (Hin : p ∈ map pid (processes s)).
  { assert (Hi : p ∈ map pid (processes s) ++ missing) by (rewrite Hp; by left). by apply elem_of_app in Hi as [?|?]. }
  rewrite delete_process_alone. destruct (find_process_some p _ Hf Hin) as (i & q & -> & Hi & <-). cbn [obind].
  destruct (vector_erase_at _ _ _ Hi) as (ps & -> & Hps). cbn [obind]. exists ps. split; [done|]. rewrite Hps in Hf, Hp. apply Forall_cons in Hf as [_ Hf].
  split; [done|]. cbn in Hp. by apply Permutation_cons_inv in Hp.
Qed.

(** Without signals in between, the deletion is the same as in the handler. *)
Lemma delete_process_quiet p s : delete_process interrupt_deleting p s = delete_process Done p s.
Proof.
  unfold delete_process, interrupt_deleting. destruct (find_process p (processes s)) as [i| | |]; [|done..]. cbn [obind].
  rewrite deleting_law. cbn [handle_signals obind]. by destruct i, s.
Qed.

Lemma reap_tracks reaped s missing rest :
  Forall (fun p => freed p = false) (processes s) -> map pid (processes s) ++ missing ≡ₚ reaped ++ rest -> (forall p, p ∈ reaped -> p ∉ missing) ->
  exists ps, wait_for_all_background_child_processes reaped s = Done (set_processes ps s) /\ Forall (fun p => freed p = false) ps /\ map pid ps ++ missing ≡ₚ rest.
Proof.
  revert s. induction reaped as [|p reaped IH]; intros s Hf Hp Hm; cbn [wait_for_all_background_child_processes].
  { exists (processes s). by destruct s. }
  destruct (delete_process_tracks p s missing (reaped ++ rest) Hf Hp) as (ps & -> & Hf' & Hp'); [apply Hm; by left|]. cbn [obind].
  destruct (IH (set_processes ps s) Hf' Hp') as (ps' & -> & ? & ?); [intros q Hq; apply Hm; by right|]. by exists ps'.
Qed.

Lemma handle_tracks rs s missing rest :
  Forall (fun p => freed p = false) (processes s) -> map pid (processes s) ++ missing ≡ₚ concat rs ++ rest -> (forall p, p ∈ concat rs -> p ∉ missing) ->
  exists ps, handle_signals (map SIGCHLD rs) s = Done (set_processes ps s) /\ Forall (fun p => freed p = false) ps /\ map pid ps ++ missing ≡ₚ rest.
Proof.
  revert s. induction rs as [|r rs IH]; intros s Hf Hp Hm; cbn [map handle_signals].
  { exists (processes s). by destruct s. }
  cbn [concat] in *. rewrite <- app_assoc in Hp.
  destruct (reap_tracks r s missing (concat rs ++ rest) Hf Hp) as (ps & -> & Hf' & Hp'); [intros q Hq; apply Hm; apply elem_of_app; by left|]. cbn [obind].
  destruct (IH (set_processes ps s) Hf' Hp') as (ps' & -> & ? & ?); [intros q Hq; apply Hm; apply elem_of_app; by right|]. by exists ps'.
Qed.

(** A child that is not in a group of its own survives the handler. *)
Lemma interrupt_tracks s missing gone :
  tracks missing gone s -> (forall p, p ∈ missing -> p ∉ own_group (os s)) ->
  exists s', interrupt s = Done s' /\ tracks missing gone s' /\ own_group (os s') ⊆ own_group (os s) /\
    (forall c, c ∈ children (os s) -> c ∉ own_group (os s) -> c ∈ children (os s')).
Proof.
  intros [Hf Hp] Hm. unfold interrupt. destruct (delivered_law (os s)) as (rs & Hsigs & Hch & Hr & Hown). destruct (delivered (os s)) as [sigs o]. cbn [fst snd] in *. subst sigs.
  destruct (handle_tracks rs (set_os o s) missing (children o ++ gone)) as (ps & -> & Hf' & Hp'); [done| | |].
  - cbn. rewrite Hp, Hch. by rewrite app_assoc.
  - intros p Hin Hmi. apply (Hm p Hmi). by apply Hr.
  - exists (set_processes ps (set_os o s)). split; [done|]. split; [by split|]. split; [done|]. intros c Hc Hn. rewrite Hch in Hc.
    apply elem_of_app in Hc as [Hc|Hc]; [|done]. by apply Hr in Hc.
Qed.

Lemma foreground_tracked c s :
  tracked s -> c ∈ children (os s) -> c ∉ own_group (os s) -> c <> getpid ->
  exists r s', run_in_foreground c s = Done (r, s') /\ (r <> None -> tracked s').
Proof.
  intros Ht Hc Hn Hpid. unfold run_in_foreground. pose proof (setpgid_law c getpid (os s)) as [Hch Hown]. destruct (setpgid c getpid (os s)) as [ok o]. cbn [snd] in *.
  assert (Hn' : c ∉ own_group o) by (intros Hin; destruct (Hown _ Hin) as [?|[_ ?]]; [done|congruence]).
  destruct (interrupt_tracks (set_os o s) [] []) as (s1 & -> & Ht1 & Ho1 & Hk1); [split; cbn; [apply Ht|rewrite Hch; apply Ht]|by intros p ?%not_elem_of_nil|]. cbn [obind] in *.
  destruct ok; cbn [negb]; [|by eexists _, _].
  destruct (waitpid_law c (os s1)) as (st & o1 & -> & Hw & Ho2); [apply Hk1; cbn; [by rewrite Hch|done]|].
  destruct (interrupt_tracks (set_os o1 s1) [] [c]) as (s2 & -> & [Hf2 Hp2] & _ & _); [split; cbn; [apply Ht1|]|by intros p ?%not_elem_of_nil|].
  { destruct Ht1 as [_ ->]. rewrite app_nil_r, Hw. by rewrite Permutation_app_comm. }
  cbn [obind]. rewrite (Permutation_app_comm (children _) [c]) in Hp2.
  destruct (delete_process_tracks c s2 [] (children (os s2)) Hf2 Hp2) as (ps & Hdel & Hf3 & Hp3); [apply not_elem_of_nil|]. rewrite delete_process_quiet, Hdel. cbn [obind].
  eexists _, _. split; [done|]. intros _. split; cbn; [done|]. by rewrite Hp3, app_nil_r.
Qed.

Lemma background_tracked c s :
  tracked s -> exists r s', run_in_background c s = Done (r, s') /\ (r <> None -> tracked s').
Proof.
  intros Ht. unfold run_in_background. pose proof (setpgid_law c c (os s)) as [Hch _]. destruct (setpgid c c (os s)) as [ok o]. cbn [snd] in *.
  destruct (interrupt_tracks (set_os o s) [] []) as (s1 & -> & Ht1 & _); [split; cbn; [apply Ht|rewrite Hch; apply Ht]|by intros p ?%not_elem_of_nil|]. cbn [obind].
  destruct ok; by eexists _, _.
Qed.

Lemma execute_tracked buffer s :
  tracked s -> exists r s', execute_command buffer s = Done (r, s') /\ (r <> None -> tracked s').
Proof.
  intros Ht. unfold execute_command. case_decide as Hcd; [by eexists _, _|]. destruct (starts_with _ _).
  { pose proof (chdir_law (drop 3 buffer) (os s)) as [Hch _]. destruct (chdir _ _) as [ok o]. cbn [snd] in *.
    assert (Ht' : tracked (set_os o s)) by (split; cbn; [apply Ht|rewrite Hch; apply Ht]). destruct ok; by eexists _, _. }
  pose proof (fork_law (child_main buffer) (os s)) as Hfork. destruct (fork _ _) as [[c|] o].
  - destruct Hfork as (Hch & Hown & Hn & Hpid).
    destruct (interrupt_tracks (set_os o s) [c] []) as (s1 & -> & [Hf1 Hp1] & Ho1 & Hk1).
    { split; cbn; [apply Ht|]. rewrite Hch, app_nil_r. destruct Ht as [_ Hp]. rewrite !app_nil_r in Hp. by rewrite Hp. }
    { intros p ->%list_elem_of_singleton. cbn. by rewrite Hown. }
    cbn [obind]. rewrite app_nil_r in Hp1. cbn [os set_os] in *.
    destruct (interrupt_tracks (set_processes (processes s1 ++ [new_process buffer c]) s1) [] []) as (s2 & -> & Ht2 & Ho2 & Hk2).
    { split; cbn; [apply Forall_app; split; [done|]; by constructor|]. by rewrite map_app, !app_nil_r. }
    { by intros p ?%not_elem_of_nil. }
    cbn [obind os set_processes] in *. assert (Hc1 : c ∉ own_group (os s1)) by (rewrite <- Hown in Hn; intros Hin; by apply Hn, Ho1).
    case_decide as Hbg; [by apply background_tracked|]. apply foreground_tracked; [done| | |done].
    + apply Hk2; [|done]. apply Hk1; [rewrite Hch; apply elem_of_app; right; by left|by rewrite Hown].
    + intros Hin. by apply Hc1, Ho2.
  - destruct Hfork as (Hch & Hown).
    destruct (interrupt_tracks (set_os o s) [] []) as (s1 & -> & Ht1 & _); [split; cbn; [apply Ht|rewrite Hch; apply Ht]|by intros p ?%not_elem_of_nil|]. by eexists _, _.
Qed.

Lemma run_again_tracked cmd s s' f : tracked s -> run_again cmd s = Done (f, s') -> f <> Exit -> tracked s'.
Proof.
  intros Ht H Hf. unfold run_again in H. destruct (execute_tracked cmd (set_history (history s ++ [cmd]) (print (print_command cmd) s)) Ht) as (r & s1 & He & Hr).
  rewrite He in H. cbn in H. destruct r; simplify_eq. by apply Hr.
Qed.

Lemma run_both_tracked left right again s s' r : tracked s -> run_both left right again s = Done (r, s') -> r <> None -> tracked s'.
Proof.
  intros Ht H Hne. unfold run_both in H. destruct (execute_tracked left s Ht) as (r1 & s1 & He & Hr). rewrite He in H. cbn [obind] in H.
  destruct r1 as [st|]; [|by simplify_eq]. destruct (again st); [|simplify_eq; by apply Hr]. apply obind_Done in H as (b & _ & H).
  destruct (execute_tracked b s1 (Hr ltac:(done))) as (r2 & s2 & He2 & Hr2). rewrite He2 in H. simplify_eq. by apply Hr2.
Qed.

Lemma run_command_tracked buffer s s' : tracked s -> run_command buffer s = Done (Next, s') -> tracked s'.
Proof.
  intros Ht H. unfold run_command in H. set (s0 := set_history _ s) in H. assert (Ht0 : tracked s0) by exact Ht. clearbody s0.
  apply obind_Done in H as (op & _ & H). apply obind_Done in H as ([r s1] & Hrun & H). destruct r; simplify_eq. destruct op as [op|].
  - unfold run_operator in Hrun. destruct (strsep _ _) as [left right]. destruct op; [apply obind_Done in Hrun as (l & _ & Hrun)|apply obind_Done in Hrun as (l & _ & Hrun)|]; by eapply run_both_tracked.
  - destruct (execute_tracked buffer s0 Ht0) as (r2 & s2 & He2 & Hr2). rewrite He2 in Hrun. simplify_eq. by apply Hr2.
Qed.

Lemma send_signal_tracked signal printed p s s' : signal <> SIGKILL -> tracked s -> send_signal signal printed p s = Done s' -> tracked s'.
Proof.
  intros Hs Ht H. unfold send_signal in H. destruct (kill_law p signal (os s) Hs) as [Hch _].
  destruct (interrupt_tracks (set_os (kill p signal (os s)) s) [] []) as (s1 & He & Ht1 & _); [split; cbn; [apply Ht|rewrite Hch; apply Ht]|by intros x ?%not_elem_of_nil|].
  rewrite He in H. cbn [obind] in H. inv_done. by subst.
Qed.

Lemma on_process_tracked buffer act s s' f :
  (forall p s s', tracked s -> act p s = Done s' -> tracked s') -> tracked s -> on_process buffer act s = Done (f, s') -> tracked s'.
Proof.
  intros Hact Ht H. unfold on_process in H. apply obind_Done in H as (s1 & H & Hf). simplify_eq. destruct (_ =? 4)%nat; [by simplify_eq|].
  apply obind_Done in H as (p & _ & H). apply obind_Done in H as (q & _ & H). destruct q; [by eapply Hact|by simplify_eq].
Qed.

Lemma ps_loop_tracked fuel ps s s' f : tracked s -> ps_loop fuel ps s = Done (f, s') -> tracked s'.
Proof.
  revert s. induction ps as [|p ps IH]; intros s Ht H; cbn in H; [by simplify_eq|]. destruct (freed p); [done|].
  apply obind_Done in H as (i & _ & H). destruct i; [by eapply IH in H|by simplify_eq].
Qed.

Lemma print_history_tracked i h s : tracked s -> tracked (print_history i h s).
Proof. revert i s. induction h as [|l h IH]; intros i s Ht; [done|]. by apply IH. Qed.

Lemma run_line_tracked fuel buffer s s' f :
  starts_with KILL buffer = false -> tracked s -> run_line fuel buffer s = Done (f, s') -> f <> Exit -> tracked s'.
Proof.
  intros Hk Ht. unfold run_line. rewrite Hk. case_decide; [intros; by simplify_eq|]. destruct (starts_with EXIT buffer); [intros; by simplify_eq|].
  case_decide; [intros; simplify_eq; by apply print_history_tracked|].
  destruct (starts_with [35] buffer).
  { unfold run_index. intros Hx Hf. apply obind_Done in Hx as (n & _ & Hx). destruct (_ <=? _); [by simplify_eq|].
    apply obind_Done in Hx as (cmd & _ & Hx). by eapply run_again_tracked. }
  destruct (starts_with [33] buffer).
  { unfold run_prefix. destruct (find_last _ _) as [cmd|]; [|intros; by simplify_eq]. intros Hx Hf. by eapply run_again_tracked. }
  case_decide; [intros Hx _; eapply ps_loop_tracked; [|exact Hx]; exact Ht|].
  destruct (starts_with STOP buffer); [intros Hx _; eapply (on_process_tracked _ _ s); [|done|exact Hx]; intros p s1 s2 Hx1 Hx2; eapply send_signal_tracked; [|exact Hx1|exact Hx2]; done|].
  destruct (starts_with CONT buffer); [intros Hx _; eapply (on_process_tracked _ _ s); [|done|exact Hx]; intros p s1 s2 Hx1 Hx2; eapply send_signal_tracked; [|exact Hx1|exact Hx2]; done|].
  intros Hx Hf. destruct f; [by eapply run_command_tracked| |done]. exfalso. unfold run_command in Hx. apply obind_Done in Hx as (op & _ & Hx). apply obind_Done in Hx as ([r s1] & _ & Hx). by destruct r.
Qed.

Lemma session_tracked fuel is_stdin lines s s' :
  tracked s -> Forall (fun line => starts_with KILL (until_zero (without_newline line)) = false) lines ->
  shell_loop fuel is_stdin lines s = Done (true, s') -> tracked s'.
Proof.
  intros Ht Hl. revert s Ht. induction Hl as [|line lines Hline _ IH]; intros s Ht H; cbn [shell_loop] in H; [by simplify_eq|].
  apply obind_Done in H as ([f s1] & Hrun & H). eapply run_line_tracked in Hrun; [|done|by destruct (_ && _)|by intros ->].
  destruct f; [by eapply IH in H|by simplify_eq|done].
Qed.

End Table.


(** [kill] removes the entry itself, so the handler, when it reaps the child later,
    erases position 2^64 - 1 of the table; when it runs at once, the entry to be printed
    is gone.  Either way the behaviour is undefined. *)
Theorem kill_undefined {OS} {LO : UnixLib OS} {SS : SstringLib} (s : shell_t OS) p sigs o
    (Hf : Forall (fun q => freed q = false) (processes s)) (Hnd : NoDup (map pid (processes s))) (Hp : p ∈ map pid (processes s))
    (Hsmall : Z.of_nat (length (processes s)) < M64 - 1)
    (Hd : delivered (kill p SIGKILL (os s)) = (sigs, o)) :
  (sigs = [] -> exists s', kill_process p s = Done s' /\ forall reaped, handle_signals [SIGCHLD (p :: reaped)] s' = Undef) /\
  (sigs = [SIGCHLD [p]] -> kill_process p s = Undef).
Proof.
  unfold kill_process, send_signal, interrupt. cbn [os set_os]. rewrite Hd. destruct (find_process_some p _ Hf Hp) as (i & q & Hi & Hq & <-).
  destruct (vector_erase_at _ _ _ Hq) as (ps & Hps & Hperm).
  assert (Hn : find_process (pid q) ps = Done None).
  { rewrite Hperm in Hf, Hnd. apply Forall_cons in Hf as [_ Hf]. apply NoDup_cons in Hnd as [Hnd _]. by apply find_process_none. }
  split; intros ->; cbn [handle_signals wait_for_all_background_child_processes obind].
  - unfold get_process_by_pid, remove_process. cbn [processes set_os]. rewrite Hi. cbn [obind]. rewrite Hq. cbn [deref obind processes print set_os]. rewrite Hi. cbn [obind].
    rewrite Hps. cbn [obind]. eexists. split; [done|]. intros reaped. rewrite delete_process_alone. cbn [processes set_processes]. rewrite Hn. cbn [obind].
    assert (Hlt : Z.of_nat (length ps) < M64 - 1) by (rewrite Hperm in Hsmall; cbn [length] in Hsmall; lia).
    unfold vector_erase. rewrite (proj2 (Z.ltb_ge _ _)); [done|]. change (u64 (-1)) with (M64 - 1). lia.
  - rewrite delete_process_alone. cbn [processes set_os]. rewrite Hi. cbn [obind]. rewrite Hps. cbn [obind]. unfold get_process_by_pid. cbn [processes set_processes]. by rewrite Hn.
Qed.

(** ** On a concrete system

    Pid 1 is the shell.  A child in a group of its own with an odd pid ends at once, a
    killed child too; a foreground child exits with status 0 or, if its program is
    "false", 1.  Files are an association list. *)

Record toy := Toy { t_children : list Z; t_ended : list Z; t_failing : list Z; t_files : list (list Z * list Z) }.

Definition FALSE : list Z := [102; 97; 108; 115; 101].

Definition fresh_pid (o : toy) : Z := 2 + foldr Z.max 0 (t_children o ++ t_ended o).

Fixpoint without (c : Z) (l : list Z) : list Z :=
  match l with
  | [] => []
  | x :: l => if x =? c then l else x :: without c l
  end.

Lemma without_perm c l : c ∈ l -> l ≡ₚ c :: without c l.
Proof.
  induction l as [|x l IH]; intros Hc; [by apply not_elem_of_nil in Hc|]. cbn. destruct (Z.eqb_spec x c) as [->|Hne]; [done|].
  apply elem_of_cons in Hc as [->|Hc]; [done|]. rewrite (IH Hc) at 1. apply Permutation_swap.
Qed.

#[export] Instance toy_unix : UnixLib toy := {|
  getpid := 1;
  chdir _ o := (false, o);
  getcwd _ := [47];
  fork plan o :=
    let c := fresh_pid o in
    let fails := match plan with Done p => bool_decide (argv p = [FALSE]) | _ => true end in
    (Some c, Toy (t_children o ++ [c]) (t_ended o) (if fails then c :: t_failing o else t_failing o) (t_files o));
  setpgid c g o := (true, if (c =? g) && Z.odd c then Toy (t_children o) (c :: t_ended o) (t_failing o) (t_files o) else o);
  getpgid c o := if Z.odd c then c else 1;
  waitpid c o :=
    if bool_decide (c ∈ t_children o) then (Some (Exited (if bool_decide (c ∈ t_failing o) then 1 else 0)), Toy (without c (t_children o)) (t_ended o) (t_failing o) (t_files o))
    else (None, o);
  kill c signal o := if signal =? SIGKILL then Toy (t_children o) (c :: t_ended o) (t_failing o) (t_files o) else o;
  delivered o :=
    (map SIGCHLD (map (fun c => [c]) (filter (fun c => c ∈ t_ended o) (t_children o))),
     Toy (filter (fun c => c ∉ t_ended o) (t_children o)) (t_ended o) (t_failing o) (t_files o));
  delivered_deleting o := ([], o);
  get_full_path name _ := name;
  fopen_r path o := option_map (fun f => snd (snd f)) (list_find (fun f => fst f = path) (t_files o));
  write_file path c o := Some (Toy (t_children o) (t_ended o) (t_failing o) ((path, c) :: t_files o));
  proc_pid_stat _ _ := None;
  proc_stat _ := None;
  clk_tck := 100;
  strftime_HM _ := [];
|}.

Lemma fresh_pid_new o c : c ∈ t_children o ++ t_ended o -> c < fresh_pid o.
Proof.
  unfold fresh_pid. induction (t_children o ++ t_ended o) as [|x l IH]; [by intros ?%not_elem_of_nil|]. cbn.
  intros [->|Hc]%elem_of_cons; [lia|]. specialize (IH Hc). lia.
Qed.

Lemma fresh_pid_pos o : 1 < fresh_pid o.
Proof. unfold fresh_pid. induction (t_children o ++ t_ended o) as [|x l IH]; cbn in *; lia. Qed.

#[export, refine] Instance toy_laws : UnixLaws toy := {| children := t_children; own_group := t_ended |}.
Proof.
  - done.
  - intros plan o. cbn. split; [done|]. split; [done|]. split; [|pose proof (fresh_pid_pos o); lia].
    intros Hin. pose proof (fresh_pid_new o (fresh_pid o)). rewrite elem_of_app in *. naive_solver lia.
  - intros c g o. cbn. destruct (Z.eqb_spec c g) as [<-|Hne]; cbn; [|by split; auto]. destruct (Z.odd c); cbn; split; auto.
    intros x [->|Hx]%elem_of_cons; auto.
  - intros c o Hc. cbn. rewrite bool_decide_true by done. eexists _, _. split; [done|]. cbn. split; [|done].
    by apply without_perm.
  - intros c signal o Hs. cbn. rewrite (proj2 (Z.eqb_neq _ _)) by done. done.
  - intros o. cbn. exists (map (fun c => [c]) (filter (fun c => c ∈ t_ended o) (t_children o))). split; [done|].
    assert (Hc : concat (map (fun c => [c]) (filter (fun c => c ∈ t_ended o) (t_children o))) = filter (fun c => c ∈ t_ended o) (t_children o)).
    { induction (filter _ _) as [|x l IH]; cbn; [done|]. by rewrite IH. }
    rewrite Hc. split; [by rewrite filter_app_complement|]. split; [|done]. intros x Hx. by apply list_elem_of_filter in Hx as [? _].
  - done.
Defined.

Lemma toy_write_read path c o o' : write_file path c o = Some o' -> fopen_r path o' = Some c.
Proof. cbn. intros [= <-]. cbn. by rewrite decide_True. Qed.

(** The history file "h" holds "ls". *)
Definition toy_start : toy := Toy [] [] [] [([104], [108; 115; 10])].

(** "!l", "false || ls" and "!history", each on a line of its own. *)
Definition toy_input : list Z :=
  [33; 108; 10] ++ (FALSE ++ [32; 124; 124; 32; 108; 115]) ++ [10] ++ HISTORY ++ [10].

Definition toy_history : list (list Z) := [[108; 115]; [108; 115]; FALSE ++ [32; 124; 124; 32; 108; 115]].

Lemma toy_session : session (load_history [108; 115; 10]) (getlines toy_input) = toy_history.
Proof. vm_compute. reflexivity. Qed.

Lemma toy_session_ends : exists s', shell 1 3 [(104, [104])] toy_input toy_start = Done (0, s').
Proof.
  assert (H : match shell 1 3 [(104, [104])] toy_input toy_start with Done (st, _) => st = 0 | _ => False end) by (vm_compute; reflexivity).
  destruct (shell _ _ _ _ _) as [[st s']| | |]; try done. rewrite H. by exists s'.
Qed.

Lemma history_saved_witness : exists s', shell 1 3 [(104, [104])] toy_input toy_start = Done (0, s') /\ history s' = toy_history.
Proof.
  destruct toy_session_ends as [s' E]. exists s'. split; [exact E|]. rewrite <- toy_session.
  exact (proj1 (history_saved toy_write_read 1 3 [(104, [104])] toy_input toy_start s' [104] [104] eq_refl eq_refl eq_refl E)).
Defined.

Lemma false_plain : plain FALSE.
Proof.
  split; cbn; try (by vm_compute; intros Hin; repeat (apply elem_of_cons in Hin as [?|Hin]; [done|]); by apply not_elem_of_nil in Hin).
Qed.


(** "ls > f". *)
Lemma child_main_correct_witness : child_main (join 32 ([[108; 115]] ++ symbol Truncate :: [[102]])) = Done (ChildPlan (Some (Truncate, [102])) [[108; 115]]).
Proof.
  refine (proj2 (proj2 (child_main_correct [[108; 115]] [[102]] Truncate _ _ _ _ _))).
  - split; [done|]. repeat constructor. by intros [?|[?|?%not_elem_of_nil]%elem_of_cons]%elem_of_cons.
  - split; [done|]. repeat constructor. by intros ?%list_elem_of_singleton.
  - done.
  - done.
  - repeat constructor; by intros [?|[?|?%not_elem_of_nil]%elem_of_cons]%elem_of_cons.
Defined.


(** A running background child with pid 2. *)
Definition toy_running : shell_t toy := Shell [] [new_process [108; 115] 2] [] (Toy [2] [] [] []).

Lemma kill_undefined_witness : kill_process 2 toy_running = Undef.
Proof.
  refine (proj2 (kill_undefined toy_running 2 [SIGCHLD [2]] (Toy [] [2] [] []) _ _ _ _ _) eq_refl).
  - by repeat constructor.
  - apply NoDup_singleton.
  - by left.
  - done.
  - reflexivity.
Defined.

(** The interrupt key removes the foreground child from the table, which the shell
    then removes again. *)
Example interrupt_foreground_undefined :
  obind (handle_SIGINT toy_running) (fun s => if decide (processes s = []) then delete_process Done 2 s else Done s) = Undef.
Proof. vm_compute. reflexivity. Qed.

(** A background child (2) is reaped while the shell deletes the entry of its foreground
    child (3): the handler reads the freed entry, or moves the entries so that the shell
    erases the wrong one. *)
Example reaped_while_deleting :
  let table ps : shell_t toy := Shell [] (map (new_process [108; 115]) ps) [] toy_start in
  let reap s := handle_signals [SIGCHLD [2]] s in
  delete_process reap 3 (table [3; 2]) = Undef /\
  match delete_process reap 3 (table [2; 3; 4]) with Done s => map (fun p => (pid p, freed p)) (processes s) = [(3, true)] | _ => False end.
Proof. vm_compute. split; reflexivity. Qed.

(** Two spaces in a row make an empty token, whose last character is read. *)
Example two_spaces : run_line (OS := toy) 0 [108; 115; 32; 32; 45; 108] (Shell [] [] [] toy_start) = Undef.
Proof. vm_compute. reflexivity. Qed.

(** "ls;" at the end of a line reads behind the string. *)
Example trailing_semicolon : run_line (OS := toy) 0 [108; 115; 59] (Shell [] [] [] toy_start) = Undef.
Proof. vm_compute. reflexivity. Qed.
