(* ===== verification/Rendezvous.v ===== *)
(** * The rendezvous of [critical_concurrency/rendezvous.c]

    Each of the two threads decodes one quote in place, posts its own semaphore, waits
    for the other one and prints the other quote.  [rv_step] is one step of one
    thread; the steps are those between which the threads can be interleaved.  Part 1
    is the model, part 2 shows that what is printed is decoded, whatever the
    interleaving, and that both threads return. *)

From S2P Require Import Prelude CString.
Open Scope Z_scope.

(** ** Part 1: the two threads *)

(** Decoding at an index; about to post, about to wait, about to print, returned. *)
Inductive rv_thread := Modify (i : nat) | Post | Wait | Print | Returned.

(** [modifyA_printB] is the first thread, [modifyB_printA] the second. *)
Record rv_state := RvState {
  quote_A : list Z;
  quote_B : list Z;
  s1 : nat;
  s2 : nat;
  modifyA : rv_thread;
  modifyB : rv_thread;
  printed : list (bool * list Z);
}.

(** [while (quote[i]) quote[i++]--], one round. *)
Definition decode_step (quote : list Z) (i : nat) : outcome (list Z * rv_thread) :=
  let! c := deref (quote !! i) in
  if c =? 0 then Done (quote, Post) else Done (<[i := (c - 1) `mod` 256]> quote, Modify (S i)).

(** [None] when the thread sleeps on its semaphore or has returned. *)
Definition modifyA_printB (s : rv_state) : outcome (option rv_state) :=
  match modifyA s with
  | Modify i => let! (q, t) := decode_step (quote_A s) i in Done (Some (RvState q (quote_B s) (s1 s) (s2 s) t (modifyB s) (printed s)))
  | Post => Done (Some (RvState (quote_A s) (quote_B s) (S (s1 s)) (s2 s) Wait (modifyB s) (printed s)))
  | Wait => Done (match s2 s with O => None | S n => Some (RvState (quote_A s) (quote_B s) (s1 s) n Print (modifyB s) (printed s)) end)
  | Print =>
      let! q := (if decide (0 ∈ quote_B s) then Done (until_zero (quote_B s)) else Undef) in
      Done (Some (RvState (quote_A s) (quote_B s) (s1 s) (s2 s) Returned (modifyB s) (printed s ++ [(false, q)])))
  | Returned => Done None
  end.

Definition modifyB_printA (s : rv_state) : outcome (option rv_state) :=
  match modifyB s with
  | Modify i => let! (q, t) := decode_step (quote_B s) i in Done (Some (RvState (quote_A s) q (s1 s) (s2 s) (modifyA s) t (printed s)))
  | Post => Done (Some (RvState (quote_A s) (quote_B s) (s1 s) (S (s2 s)) (modifyA s) Wait (printed s)))
  | Wait => Done (match s1 s with O => None | S n => Some (RvState (quote_A s) (quote_B s) n (s2 s) (modifyA s) Print (printed s)) end)
  | Print =>
      let! q := (if decide (0 ∈ quote_A s) then Done (until_zero (quote_A s)) else Undef) in
      Done (Some (RvState (quote_A s) (quote_B s) (s1 s) (s2 s) (modifyA s) Returned (printed s ++ [(true, q)])))
  | Returned => Done None
  end.

Definition rv_step (a : bool) (s : rv_state) : outcome (option rv_state) := if a then modifyA_printB s else modifyB_printA s.

(** [main] after [sem_init] and [strdup]. *)
Definition rv_start (a b : list Z) : rv_state := RvState (a ++ [0]) (b ++ [0]) 0 0 (Modify 0) (Modify 0) [].

(** ** Part 2: what is printed *)

Definition decode (s : list Z) : list Z := map (fun c => (c - 1) `mod` 256) s.

(** How far a thread is: the characters it has decoded, whether it has posted, whether
    it has passed its semaphore. *)
Definition decoded (n : nat) (t : rv_thread) : nat := match t with Modify i => i | _ => n end.
Definition posted (t : rv_thread) : nat := match t with Modify _ | Post => 0 | _ => 1 end.
Definition passed (t : rv_thread) : nat := match t with Print | Returned => 1 | _ => 0 end.
Definition has_printed (t : rv_thread) : bool := match t with Returned => true | _ => false end.

Definition rv_weight (n : nat) (t : rv_thread) : nat :=
  match t with Modify i => 4 + (n - i) | Post => 3 | Wait => 2 | Print => 1 | Returned => 0 end.

Section Rendezvous.

Variables a b : list Z.
Hypothesis Ha : 0 ∉ a.
Hypothesis Hb : 0 ∉ b.

(** A quote partly decoded. *)
Definition partly (q : list Z) (i : nat) : list Z := decode (take i q) ++ drop i q ++ [0].

Record rv_ok (s : rv_state) : Prop := RvOk {
  ok_A : quote_A s = partly a (decoded (length a) (modifyA s));
  ok_B : quote_B s = partly b (decoded (length b) (modifyB s));
  ok_iA : (decoded (length a) (modifyA s) <= length a)%nat;
  ok_iB : (decoded (length b) (modifyB s) <= length b)%nat;
  ok_s1 : (s1 s + passed (modifyB s) = posted (modifyA s))%nat;
  ok_s2 : (s2 s + passed (modifyA s) = posted (modifyB s))%nat;
  ok_printed : printed s ≡ₚ (if has_printed (modifyA s) then [(false, until_zero (decode b))] else []) ++ (if has_printed (modifyB s) then [(true, until_zero (decode a))] else []);
}.

Definition rv_work (s : rv_state) : nat := rv_weight (length a) (modifyA s) + rv_weight (length b) (modifyB s).

Lemma partly_lookup q i : (i <= length q)%nat -> partly q i !! i = (q ++ [0]) !! i.
Proof.
  intros Hi. unfold partly, decode. rewrite lookup_app_r by (rewrite length_map, length_take; lia).
  rewrite length_map, length_take. replace (i - i `min` length q)%nat with O by lia.
  transitivity ((take i q ++ drop i q ++ [0]) !! i); [|by rewrite app_assoc, take_drop].
  rewrite (lookup_app_r (take i q)) by (rewrite length_take; lia). rewrite length_take. f_equal. lia.
Qed.

Lemma partly_next q i c : q !! i = Some c -> <[i := (c - 1) `mod` 256]> (partly q i) = partly q (S i).
Proof.
  intros Hi. unfold partly, decode. apply lookup_lt_Some in Hi as Hl. rewrite (take_S_r _ _ _ Hi), map_app, (drop_S _ _ _ Hi).
  rewrite insert_app_r_alt by (rewrite length_map, length_take; lia). rewrite length_map, length_take.
  replace (i - i `min` length q)%nat with O by lia. cbn. by rewrite <- app_assoc.
Qed.

Lemma partly_end q : partly q (length q) = decode q ++ [0].
Proof. unfold partly. by rewrite take_ge, drop_ge by lia. Qed.

Lemma decode_step_ok q i : 0 ∉ q -> (i <= length q)%nat ->
  decode_step (partly q i) i = Done (if decide (i = length q) then (partly q i, Post) else (partly q (S i), Modify (S i))).
Proof.
  intros Hq Hi. unfold decode_step. rewrite partly_lookup by done. case_decide as Heq.
  - subst i. rewrite lookup_app_r, Nat.sub_diag by lia. done.
  - destruct (lookup_lt_is_Some_2 q i) as [c Hc]; [lia|]. rewrite lookup_app_l, Hc by lia. cbn [deref obind].
    rewrite (proj2 (Z.eqb_neq c 0)) by (intros ->; apply Hq; by eapply list_elem_of_lookup_2). by rewrite (partly_next _ _ _ Hc).
Qed.

Lemma until_zero_terminated q : until_zero (q ++ [0]) = until_zero q.
Proof. induction q as [|c q IH]; cbn; [done|]. destruct (c =? 0); [done|]. by rewrite IH. Qed.

Lemma rv_step_ok w s :
  rv_ok s ->
  match rv_step w s with
  | Done (Some s') => rv_ok s' /\ (rv_work s' < rv_work s)%nat
  | Done None => if w then modifyA s = Returned \/ (modifyA s = Wait /\ s2 s = O) else modifyB s = Returned \/ (modifyB s = Wait /\ s1 s = O)
  | _ => False
  end.
Proof.
  intros [HA HB HiA HiB H1 H2 Hp]. unfold rv_work. destruct w; cbn [rv_step].
  - unfold modifyA_printB. destruct (modifyA s) as [i| | | |] eqn:Et; cbn [decoded posted passed has_printed] in *.
    + rewrite HA, decode_step_ok by done. cbn [obind]. case_decide as Hi; (split; [split; cbn; try rewrite Hi; (done || lia)|cbn; lia]).
    + split; [split; cbn; (done || lia)|cbn; lia].
    + destruct (s2 s) as [|n] eqn:E2; [by right|]. split; [split; cbn; (done || lia)|cbn; lia].
    + assert (Hm : posted (modifyB s) = 1%nat) by (destruct (modifyB s); cbn in *; lia).
      assert (HB' : quote_B s = decode b ++ [0]) by (rewrite HB, <- partly_end; by destruct (modifyB s)).
      rewrite HB', decide_True by (apply elem_of_app; right; by left). cbn [obind]. rewrite until_zero_terminated.
      split; [split; cbn; rewrite <- ?HB'; try (done || lia)|cbn; lia]. rewrite Hp. cbn. by rewrite Permutation_app_comm.
    + by left.
  - unfold modifyB_printA. destruct (modifyB s) as [i| | | |] eqn:Et; cbn [decoded posted passed has_printed] in *.
    + rewrite HB, decode_step_ok by done. cbn [obind]. case_decide as Hi; (split; [split; cbn; try rewrite Hi; (done || lia)|cbn; lia]).
    + split; [split; cbn; (done || lia)|cbn; lia].
    + destruct (s1 s) as [|n] eqn:E2; [by right|]. split; [split; cbn; (done || lia)|cbn; lia].
    + assert (Hm : posted (modifyA s) = 1%nat) by (destruct (modifyA s); cbn in *; lia).
      assert (HA' : quote_A s = decode a ++ [0]) by (rewrite HA, <- partly_end; by destruct (modifyA s)).
      rewrite HA', decide_True by (apply elem_of_app; right; by left). cbn [obind]. rewrite until_zero_terminated.
      split; [split; cbn; rewrite <- ?HA'; try (done || lia)|cbn; lia]. rewrite Hp, app_nil_r. done.
    + by left.
Qed.

Definition rv_steps (s s' : rv_state) : Prop := exists w, rv_step w s = Done (Some s').

Lemma rv_steps_ok n s s' : rv_ok s -> nsteps rv_steps n s s' -> rv_ok s' /\ (n + rv_work s' <= rv_work s)%nat.
Proof.
  intros Hok Hn. revert Hok. induction Hn as [s|n s s' s'' [w Hw] _ IH]; intros Hok; [by split|].
  pose proof (rv_step_ok w s Hok) as H. rewrite Hw in H. destruct H as [H1 H2]. destruct (IH H1). split; [done|lia].
Qed.

Lemma rv_start_ok : rv_ok (rv_start a b).
Proof. split; cbn; unfold partly; cbn; rewrite ?drop_0; (done || lia). Qed.

End Rendezvous.

(** Under every interleaving the two threads make at most one step per character and
    eight more, none of them undefined; they cannot both sleep, and when neither can
    go on both have returned and each has printed the other's quote, decoded to the
    end. *)
Theorem rendezvous_correct a b (Ha : 0 ∉ a) (Hb : 0 ∉ b) :
  forall n s, nsteps rv_steps n (rv_start a b) s ->
    (n <= length a + length b + 8)%nat /\
    (forall w, exists r, rv_step w s = Done r) /\
    ((forall w, rv_step w s = Done None) ->
       modifyA s = Returned /\ modifyB s = Returned /\
       printed s ≡ₚ [(false, until_zero (decode b)); (true, until_zero (decode a))]).
Proof.
  intros n s Hn. destruct (rv_steps_ok a b Ha Hb n _ s (rv_start_ok a b) Hn) as [Hok Hle]. unfold rv_work in Hle. cbn in Hle.
  split; [lia|]. split.
  - intros w. pose proof (rv_step_ok a b Ha Hb w s Hok) as H. destruct (rv_step w s); try done. by eexists.
  - intros Hst. pose proof (rv_step_ok a b Ha Hb true s Hok) as HA. pose proof (rv_step_ok a b Ha Hb false s Hok) as HB. rewrite Hst in HA, HB.
    destruct Hok as [_ _ _ _ H1 H2 Hp].
    destruct HA as [HA|[HA HA']], HB as [HB|[HB HB']]; rewrite HA, HB in *; cbn in *; try lia. done.
Qed.

(** The threads step in the order given. *)
Fixpoint rv_run (order : list bool) (s : rv_state) : option rv_state :=
  match order with
  | [] => Some s
  | w :: order => match rv_step w s with Done (Some s) => rv_run order s | _ => None end
  end.

Lemma rv_run_steps order s s' : rv_run order s = Some s' -> nsteps rv_steps (length order) s s'.
Proof.
  revert s. induction order as [|w order IH]; intros s H; cbn in H; [injection H as ->; constructor|].
  destruct (rv_step w s) as [[s1|]| | |] eqn:E; try done. eapply nsteps_l; [by exists w|by apply IH].
Qed.

(** "J" and "U": the second thread decodes, posts and sleeps first. *)
Definition rv_order : list bool := [false; false; false; true; true; true; true; false; true; false].

Definition rv_end : rv_state := RvState [73; 0] [84; 0] 0 0 Returned Returned [(false, [84]); (true, [73])].

Lemma rv_end_reached : nsteps rv_steps 10 (rv_start [74] [85]) rv_end.
Proof. apply (rv_run_steps rv_order). vm_compute. reflexivity. Qed.

Lemma rendezvous_correct_witness : printed rv_end ≡ₚ [(false, until_zero (decode [85])); (true, until_zero (decode [74]))].
Proof.
  refine (proj2 (proj2 (proj2 (proj2 (rendezvous_correct [74] [85] _ _ 10 rv_end rv_end_reached)) _))).
  - by intros ?%list_elem_of_singleton.
  - by intros ?%list_elem_of_singleton.
  - intros []; reflexivity.
Defined.
