(* ===== verification/Gthreads.v ===== *)
(** * [savvy_scheduler/gthreads/]: green threads on top of the scheduler

    A thread runs until it calls the library, returns from its function or is
    interrupted by [SIGALRM]; [gt_step] is one such event of the running thread.
    [gtswtch], which is assembly, stores where the old thread goes on ([resume]) and
    continues the new one there; a thread whose stack has been freed cannot go on.
    Alarms are delivered between the events, not inside the library: neither in
    [gtgo], which does not block them ([alarm_in_gtgo] shows what one does there), nor in
    [gtyield] between the unblocking of the signal and the switch, where one would save
    the old thread's context in the new thread's job.  The log and the timers are left
    out; [clock] gives the successive readings of [currtime]. *)

From stdpp Require Import gmap.
From S2P Require Import Prelude Scheduler.
Open Scope Z_scope.

Definition MAX_JOBS : Z := 100.
Definition MAIN_FREQUENCY : Z := 2.
Definition SIGALRM : Z := 14.
Definition GTSLEEP_SIG : Z := 10.

(** [&gtmain], [jobs[i]] and [stacks[i]]; [NULL] is 0. *)
Definition gtmain : Z := 1.
Definition job_at (i : Z) : Z := i + 2.
Definition stack_at (i : Z) : Z := i + 1.

(** In its function, returning [true] from [gtyield], the same but in [gtret] of a
    thread, or behind the switch to main in [gtyield(sig)] ([doomed] as before). *)
Inductive resume := Start | Back (doomed : bool) | Fall (sig : Z) (doomed : bool).

Inductive job_state := Ready | Running | Unused.

(** [ctx] is [None] until it is filled in. *)
Record job := Job { stack_start : Z; ctx : option resume; state : job_state }.

Section Gthreads.

Context {T : Type} `{TimeOps T}.
Variable clock : nat -> T.

(** [job_mem] and [stack_mem] are what is allocated; [jobcount] and [job_count] as in the
    code. *)
Record gthreads := Gthreads {
  counter : Z;
  suspended : Z;
  currjob : Z;
  gtidx : Z;
  leak_stack : Z;
  job_count : Z;
  jobcount : Z;
  job_mem : gmap Z job;
  stack_mem : gset Z;
  sched : scheduler T;
  now : nat;
  exited : bool;
}.

Definition set_counter (c : Z) (g : gthreads) : gthreads :=
  Gthreads c (suspended g) (currjob g) (gtidx g) (leak_stack g) (job_count g) (jobcount g) (job_mem g) (stack_mem g) (sched g) (now g) (exited g).
Definition set_running (susp curr : Z) (g : gthreads) : gthreads :=
  Gthreads (counter g) susp curr (gtidx g) (leak_stack g) (job_count g) (jobcount g) (job_mem g) (stack_mem g) (sched g) (now g) (exited g).
Definition set_leak (stack : Z) (mem : gset Z) (g : gthreads) : gthreads :=
  Gthreads (counter g) (suspended g) (currjob g) (gtidx g) stack (job_count g) (jobcount g) (job_mem g) mem (sched g) (now g) (exited g).
Definition set_jobs_mem (mem : gmap Z job) (g : gthreads) : gthreads :=
  Gthreads (counter g) (suspended g) (currjob g) (gtidx g) (leak_stack g) (job_count g) (jobcount g) mem (stack_mem g) (sched g) (now g) (exited g).
Definition set_counts (idx c n : Z) (g : gthreads) : gthreads :=
  Gthreads (counter g) (suspended g) (currjob g) idx (leak_stack g) c n (job_mem g) (stack_mem g) (sched g) (now g) (exited g).
Definition set_sched (s : scheduler T) (g : gthreads) : gthreads :=
  Gthreads (counter g) (suspended g) (currjob g) (gtidx g) (leak_stack g) (job_count g) (jobcount g) (job_mem g) (stack_mem g) s (now g) (exited g).
Definition set_exited (g : gthreads) : gthreads :=
  Gthreads (counter g) (suspended g) (currjob g) (gtidx g) (leak_stack g) (job_count g) (jobcount g) (job_mem g) (stack_mem g) (sched g) (now g) true.

Definition tick (g : gthreads) : gthreads :=
  Gthreads (counter g) (suspended g) (currjob g) (gtidx g) (leak_stack g) (job_count g) (jobcount g) (job_mem g) (stack_mem g) (sched g) (S (now g)) (exited g).

Definition currtime (g : gthreads) : T * gthreads := (clock (now g), tick g).

(** ** Helper functions *)

(** [free(leak_stack)]; freeing the stack one runs on is undefined. *)
Definition free_leak_stack (g : gthreads) : outcome gthreads :=
  if leak_stack g =? 0 then Done g
  else
    let! j := deref (job_mem g !! currjob g) in
    if negb (bool_decide (leak_stack g ∈ stack_mem g)) || (leak_stack g =? stack_start j) then Undef
    else Done (set_leak 0 (stack_mem g ∖ {[leak_stack g]}) g).

Definition gtdestroy (job_done : Z) (g : gthreads) : outcome gthreads :=
  let! j := deref (job_mem g !! job_done) in
  let! g := free_leak_stack g in
  if job_done =? gtmain then Undef
  else Done (set_jobs_mem (delete job_done (job_mem g)) (set_leak (stack_start j) (stack_mem g) g)).

Definition save (old : Z) (r : resume) (g : gthreads) : outcome gthreads :=
  let! j := deref (job_mem g !! old) in
  Done (set_jobs_mem (<[old := Job (stack_start j) (Some r) (state j)]> (job_mem g)) g).

(** [old] is [None] when the context is saved in a local variable. *)
Definition gtswtch (old : option Z) (new : Z) (r : resume) (g : gthreads) : outcome (resume * gthreads) :=
  let! g := match old with Some old => save old r g | None => Done g end in
  let! j := deref (job_mem g !! new) in
  let! r := deref (ctx j) in
  if (new =? gtmain) || bool_decide (stack_start j ∈ stack_mem g) then Done (r, g) else Undef.

(** ** [gtyield]

    What a call does: it returns [false], or a thread goes on at [resume]. *)

(** From the reading of the time on. *)
Definition gtyield_schedule (sig : Z) (doomed : bool) (g : gthreads) : outcome (option resume * gthreads) :=
  let (time, g) := currtime g in
  let quantum_job := if sig =? -1 then 0 else if currjob g =? gtmain then 0 else currjob g in
  let! g :=
    if (sig =? -1) && negb (currjob g =? gtmain) then
      let (time, g) := currtime g in
      let! s := scheduler_job_finished (sched g) (currjob g) time in Done (set_sched s g)
    else Done g in
  let! (newjob, s) := scheduler_quantum_expired (sched g) quantum_job time in
  let g := set_sched s g in
  let newjob := if newjob =? 0 then gtmain else newjob in
  if newjob =? currjob g then Done (None, g)
  else
    let old := currjob g in
    let! g := if sig =? -1 then gtdestroy old g else Done g in
    let g := set_running (suspended g) newjob g in
    let! (r, g) := gtswtch (if sig =? -1 then None else Some old) newjob (Back doomed) g in
    Done (Some r, g).

(** Whether the running thread is switched to main. *)
Definition to_main (sig : Z) (g : gthreads) : bool * gthreads :=
  if (sig =? SIGALRM) || (sig =? GTSLEEP_SIG) then
    let c := (counter g + 1) `mod` MAIN_FREQUENCY in
    ((c =? 0) && negb (job_count g =? 0), set_counter c g)
  else (false, g).

Definition gtyield_once (sig : Z) (doomed : bool) (g : gthreads) : outcome (option resume * gthreads) :=
  let! g := free_leak_stack g in
  if (currjob g =? gtmain) && negb (suspended g =? 0) then
    let newjob := suspended g in
    let old := currjob g in
    let g := set_running 0 newjob g in
    let! (r, g) := gtswtch (Some old) newjob (Back doomed) g in
    Done (Some r, g)
  else
    let (main, g) := to_main sig g in
    if main then
      let old := currjob g in
      let g := set_running old gtmain g in
      let! (r, g) := gtswtch (Some old) gtmain (Fall sig doomed) g in
      Done (Some r, g)
    else gtyield_schedule sig doomed g.

(** The thread that goes on may do so inside [gtyield]; a thread that returns from
    [gtret] fails its assertion.  Whether the call itself has returned [false]. *)
Fixpoint go_on (fuel : nat) (r : resume) (g : gthreads) : outcome gthreads :=
  match r with
  | Start => Done g
  | Back doomed => if doomed then Abort else Done g
  | Fall sig doomed =>
      match fuel with
      | O => OutOfFuel
      | S fuel =>
          let! (r, g) := gtyield_schedule sig doomed g in
          match r with
          | None => if doomed then Abort else Done g
          | Some r => go_on fuel r g
          end
      end
  end.

Definition gtyield (sig : Z) (doomed : bool) (g : gthreads) : outcome (bool * gthreads) :=
  let! (r, g) := gtyield_once sig doomed g in
  match r with
  | None => if doomed then Abort else Done (false, g)
  | Some r => let! g := go_on 2 r g in Done (true, g)
  end.

(** ** The interface *)

(** The [i]th of [MAX_JOBS] allocations. *)
Fixpoint alloc_jobs (n : nat) : gmap Z job :=
  match n with O => ∅ | S n => <[job_at (Z.of_nat n) := Job 0 None Unused]> (alloc_jobs n) end.

Fixpoint alloc_stacks (n : nat) : gset Z :=
  match n with O => ∅ | S n => {[stack_at (Z.of_nat n)]} ∪ alloc_stacks n end.

Definition gtinit (s : scheme_t) : gthreads :=
  Gthreads 1 0 gtmain 0 0 0 0
    (<[gtmain := Job 0 None Running]> (alloc_jobs (Z.to_nat MAX_JOBS))) (alloc_stacks (Z.to_nat MAX_JOBS))
    (scheduler_start_up ∅ s) 0 false.

(** [gtgo] up to [scheduler_new_job]: the job, and from there on, where its context is
    filled in.  A read behind the arrays is undefined. *)
Definition gtgo_register (sched_data : scheduler_info T) (g : gthreads) : outcome (Z * gthreads) :=
  if MAX_JOBS <=? jobcount g then Undef
  else
    let p := job_at (jobcount g) in
    let g := set_counts (s32 (gtidx g + 1)) (s32 (job_count g + 1)) (s32 (jobcount g + 1)) g in
    let (time, g) := currtime g in
    let! _ := deref (job_mem g !! p) in
    let! s := scheduler_new_job (sched g) p (gtidx g) time sched_data in
    Done (p, set_sched s g).

Definition gtgo_set_up (p : Z) (g : gthreads) : outcome gthreads :=
  if MAX_JOBS <=? jobcount g then Undef
  else Done (set_jobs_mem (<[p := Job (stack_at (jobcount g)) (Some Start) Ready]> (job_mem g)) g).

Definition gtgo (sched_data : scheduler_info T) (g : gthreads) : outcome gthreads :=
  let! (p, g) := gtgo_register sched_data g in gtgo_set_up p g.

Definition gtcurrjob (g : gthreads) : Z := currjob g.

(** [gtdoyield] by the user's code. *)
Definition gtdoyield (sig : Z) (g : gthreads) : outcome gthreads :=
  let! (_, g) := gtyield sig false g in Done g.

(** [gtret]: for main, one round of its loop, and the clean-up behind it. *)
Definition gtret (ret : Z) (g : gthreads) : outcome gthreads :=
  if negb (currjob g =? gtmain) then
    let! j := deref (job_mem g !! currjob g) in
    let g := set_jobs_mem (<[currjob g := Job (stack_start j) (ctx j) Unused]> (job_mem g)) g in
    let! (_, g) := gtyield ret true g in Done g
  else
    let! (switched, g) := gtyield 0 false g in
    if switched then Done g
    else
      let! (s, _) := scheduler_clean_up (sched g) in
      Done (set_exited (set_sched s g)).

(** The function of a thread returns. *)
Definition gtstop (g : gthreads) : outcome gthreads :=
  gtret (-1) (set_counts (gtidx g) (s32 (job_count g - 1)) (jobcount g) g).

Inductive gt_event := Alarm | Yield (sig : Z) | Go (sched_data : scheduler_info T) | Stop | Ret (ret : Z).

(** What the running thread can do; main does not return into [gtstop]. *)
Definition gt_step (e : gt_event) (g : gthreads) : outcome (option gthreads) :=
  if exited g then Done None
  else
    match e with
    | Alarm => let! g := gtdoyield SIGALRM g in Done (Some g)
    | Yield sig => let! g := gtdoyield sig g in Done (Some g)
    | Go d => let! g := gtgo d g in Done (Some g)
    | Stop => if currjob g =? gtmain then Done None else let! g := gtstop g in Done (Some g)
    | Ret ret => let! g := gtret ret g in Done (Some g)
    end.

End Gthreads.
Arguments gthreads T : clear implicits.
Arguments gt_event T : clear implicits.
