(* ===== verification/GthreadsSpec.v ===== *)
(** * Green threads: no thread is lost and no freed stack is used

    For every scheme, as long as a new thread does not get in front of the running one:
    the scheduler holds exactly the threads that have not finished, its head is the
    running one, and every step is defined; a finished thread's stack is freed at the
    next step or is the one kept for it; main leaves [gtret] only when all threads
    have finished. *)

From Stdlib Require Import QArith.
From stdpp Require Import gmap.
From S2P Require Import Prelude Scheduler SchedulerSpec Gthreads.
Open Scope Z_scope.

(** ** The scheduler: what is in the queue *)

Section Queue.

Context {T : Type} `{TimeOps T}.

Definition has_meta (s : scheduler T) (j : Z) : Prop := is_Some (jobs s !! j).

Record squeue (s : scheduler T) : Prop := Squeue {
  sq_nodup : NoDup (entries (pqueue s));
  sq_null : 0 ∉ entries (pqueue s);
  sq_meta : forall j, j ∈ entries (pqueue s) -> has_meta s j;
}.

Lemma comparision_defined js sc a b : is_Some (js !! a) -> is_Some (js !! b) -> exists c, comparision_func js sc a b = Done c.
Proof.
  intros [i Hi] [j Hj]. destruct sc; cbn; unfold comparer_fcfs, comparer_ppri, comparer_pri, comparer_psrtf, comparer_rr, comparer_sjf, break_tie, comparer_fcfs;
    rewrite Hi, Hj; cbn [deref obind]; repeat case_match; by eexists.
Qed.

Lemma offer_loop_perm comparer (D : Z -> Prop) x l r :
  (forall a b, D a -> D b -> exists c, comparer a b = Done c) -> D x -> (forall y, y ∈ l -> D y) -> l <> [] ->
  exists r' l', offer_loop comparer x l r = Done (r', l') /\ l' ≡ₚ x :: l.
Proof.
  intros Hc Hx. revert r. induction l as [|y l IH]; intros r Hl Hne; [done|]. cbn [offer_loop].
  destruct (Hc y x) as [c ->]; [apply Hl; by left|done|]. cbn [obind]. destruct l as [|z l].
  - eexists _, _. split; [done|]. solve_Permutation.
  - destruct (Hc x z) as [d ->]; [done|apply Hl; right; by left|]. cbn [obind]. destruct (_ && _).
    + eexists _, _. split; [done|]. solve_Permutation.
    + destruct (IH (s32 (r + 1))) as (r' & l' & -> & Hp); [intros w Hw; apply Hl; by right|done|]. cbn [obind]. eexists _, _. split; [done|]. rewrite Hp. solve_Permutation.
Qed.

Lemma offer_perm s j : squeue s -> has_meta s j -> j <> 0 -> j ∉ entries (pqueue s) ->
  exists q, offer s j = Done (set_pqueue s q) /\ entries q ≡ₚ j :: entries (pqueue s) /\ squeue (set_pqueue s q).
Proof.
  intros [Hnd Hn Hm] Hj Hj0 Hjn.
  assert (Hdef : forall a b, has_meta s a -> has_meta s b -> exists c, comparision_func (jobs s) (pqueue_scheme s) a b = Done c) by (intros; by apply comparision_defined).
  assert (Hrun : exists q, offer s j = Done (set_pqueue s q) /\ entries q ≡ₚ j :: entries (pqueue s)).
  { unfold offer, priqueue_offer. destruct (entries (pqueue s)) as [|h rest] eqn:He; [by eexists|].
    destruct (Hdef j h) as [c ->]; [done|apply Hm; by left|]. cbn [obind]. destruct (c <? 0); [by eexists|].
    destruct (offer_loop_perm _ _ j (h :: rest) 1 Hdef Hj Hm) as (r' & l' & -> & Hp); [done|]. cbn [obind]. by eexists. }
  destruct Hrun as (q & Hrun & Hp). exists q. split; [done|]. split; [done|]. split; cbn.
  - rewrite Hp. by constructor.
  - rewrite Hp. by apply not_elem_of_cons.
  - intros k Hk. rewrite Hp in Hk. apply elem_of_cons in Hk as [->|Hk]; [done|by apply Hm].
Qed.

Lemma squeue_jobs s js : squeue s -> (forall j, has_meta s j -> is_Some (js !! j)) -> squeue (set_jobs s js).
Proof. intros [H1 H2 H3] Hj. split; [done|done|]. intros j Hin. by apply Hj, H3. Qed.

Lemma update_info_ok s j f : squeue s -> has_meta s j ->
  exists s', update_info j f s = Done s' /\ squeue s' /\ pqueue s' = pqueue s /\ (forall k, has_meta s k -> has_meta s' k) /\ pqueue_scheme s' = pqueue_scheme s.
Proof.
  intros Hs [i Hi]. unfold update_info. rewrite Hi. cbn [deref obind]. eexists. split; [done|].
  assert (Hm : forall k, has_meta s k -> is_Some (<[j := f i]> (jobs s) !! k)) by (intros k Hk; apply lookup_insert_is_Some'; by right).
  split; [by apply squeue_jobs|done].
Qed.

Lemma new_job_perm s j n t d : squeue s -> j <> 0 -> j ∉ entries (pqueue s) ->
  exists s', scheduler_new_job s j n t d = Done s' /\ squeue s' /\ entries (pqueue s') ≡ₚ j :: entries (pqueue s).
Proof.
  intros Hs Hj Hjn. unfold scheduler_new_job.
  destruct (offer_perm (set_jobs s (<[j := JobInfo n (si_priority d) (si_running_time d) (tofZ (-1)) t (si_running_time d) (tofZ (-1)) t]> (jobs s))) j) as (q & -> & Hp & Hq); try done.
  - apply squeue_jobs; [done|]. intros k Hk. apply lookup_insert_is_Some'. by right.
  - apply lookup_insert_is_Some'. by left.
  - eexists. split; [done|]. by split.
Qed.

(** The evicted job, if any, is the head; the job returned is the head of the new
    queue. *)
Lemma quantum_perm s e t : squeue s -> (e = 0 \/ head (entries (pqueue s)) = Some e) ->
  exists r s', scheduler_quantum_expired s e t = Done (r, s') /\ squeue s' /\ entries (pqueue s') ≡ₚ entries (pqueue s) /\
    r = default 0 (head (entries (pqueue s'))).
Proof.
  intros Hs He. unfold scheduler_quantum_expired, priqueue_peek. destruct (entries (pqueue s)) as [|h rest] eqn:Hq.
  { destruct He as [->|He]; [|done]. cbn. eexists _, _. split; [done|]. split; [done|]. rewrite Hq. done. }
  assert (Hh : has_meta s h) by (apply (sq_meta s Hs); rewrite Hq; by left).
  assert (Hh0 : h <> 0) by (intros ->; apply (sq_null s Hs); rewrite Hq; by left).
  rewrite (proj2 (Z.eqb_neq h 0)) by done. cbn [andb].
  assert (Hfirst : exists s1, (let! j_info := deref (jobs s !! h) in
      if teq (start_time j_info) (tofZ (-1)) then update_info h (fun i => set_start_time i t) s else Done s) = Done s1
    /\ squeue s1 /\ pqueue s1 = pqueue s /\ (forall j, has_meta s j -> has_meta s1 j) /\ pqueue_scheme s1 = pqueue_scheme s).
  { destruct Hh as [ih Hih]. rewrite Hih. cbn [deref obind]. destruct (teq _ _); [|by exists s]. apply update_info_ok; [done|by eexists]. }
  destruct Hfirst as (s1 & -> & Hs1 & Hq1 & Hm1 & _). cbn [obind]. destruct (Z.eqb_spec e 0) as [->|He0].
  - rewrite Hq1, Hq. destruct (update_info_ok s1 h (fun i => set_start_after_preempt i t) Hs1 (Hm1 h Hh)) as (s2 & -> & Hs2 & Hq2 & _). cbn [obind].
    eexists _, _. split; [done|]. split; [done|]. by rewrite Hq2, Hq1, Hq.
  - destruct He as [He|[= <-]]; [done|].
    destruct (update_info_ok s1 h (fun i => set_next_time i t) Hs1 (Hm1 h Hh)) as (s2 & -> & Hs2 & Hq2 & Hm2 & _). cbn [obind].
    destruct (is_preemptive (pqueue_scheme s2)); [|eexists _, _; split; [done|]; split; [done|]; by rewrite Hq2, Hq1, Hq].
    unfold priqueue_poll. rewrite Hq2, Hq1, Hq.
    assert (Hnd : NoDup (h :: rest)) by (rewrite <- Hq; apply Hs). apply NoDup_cons in Hnd as [Hhr Hnd].
    set (s3 := set_pqueue s2 _). assert (Hs3 : squeue s3).
    { split; cbn; [done| |].
      - intros Hin. apply (sq_null s Hs). rewrite Hq. by right.
      - intros j Hj. apply Hm2, Hm1, (sq_meta s Hs). rewrite Hq. by right. }
    destruct (update_info_ok s3 h (fun i => set_start_after_preempt i t) Hs3 (Hm2 h (Hm1 h Hh))) as (s4 & -> & Hs4 & Hq4 & Hm4 & _). cbn [obind].
    destruct (offer_perm s4 h Hs4 (Hm4 h (Hm2 h (Hm1 h Hh))) Hh0) as (q & -> & Hp & Hs5); [by rewrite Hq4|]. cbn [obind].
    destruct (update_info_ok (set_pqueue s4 q) h (fun i => set_remaining_time i (tsub (remaining_time i) (tsub t (start_after_preempt i)))) Hs5)
      as (s6 & -> & Hs6 & Hq6 & _); [apply (Hm4 h (Hm2 h (Hm1 h Hh)))|]. cbn [obind].
    eexists _, _. split; [done|]. split; [done|]. rewrite Hq6. cbn [pqueue set_pqueue]. split; [by rewrite Hp, Hq4|]. by destruct (entries q).
Qed.

Lemma finish_perm s h rest t : squeue s -> entries (pqueue s) = h :: rest ->
  exists s', scheduler_job_finished s h t = Done s' /\ squeue s' /\ entries (pqueue s') = rest.
Proof.
  intros [Hnd Hn Hm] Hq. rewrite Hq in *. apply NoDup_cons in Hnd as [Hh Hnd]. destruct (Hm h) as [i Hi]; [by left|].
  unfold scheduler_job_finished, priqueue_poll. rewrite Hi, Hq. cbn [deref obind]. eexists. split; [done|]. split; [|done]. split; cbn; [done| |].
  - intros Hin. apply Hn. by right.
  - intros j Hj. unfold has_meta. cbn. rewrite lookup_delete_ne by (by intros ->). apply Hm. by right.
Qed.

Lemma destroy_loop_ok fuel q : 0 ∉ entries q -> (length (entries q) < fuel)%nat -> exists q', priqueue_destroy_loop fuel q = Done q'.
Proof.
  revert q. induction fuel as [|fuel IH]; intros [n es] Hn Hf; [lia|]. cbn. unfold priqueue_poll. cbn in *. destruct es as [|h rest]; [by eexists|].
  apply not_elem_of_cons in Hn as [Hh Hn]. rewrite (proj2 (Z.eqb_neq _ _)) by done. apply IH; cbn in *; [done|lia].
Qed.

Lemma clean_up_ok s : squeue s -> exists s' st, scheduler_clean_up s = Done (s', st).
Proof.
  intros Hs. unfold scheduler_clean_up, priqueue_destroy. destruct (destroy_loop_ok (S (length (entries (pqueue s)))) (pqueue s)) as [q ->]; [apply Hs|lia|]. cbn [obind]. by eexists _, _.
Qed.

End Queue.

(** ** The invariant of the library *)

Section Safe.

Context {T : Type} `{TimeOps T}.
Variable clock : nat -> T.

Implicit Types g : gthreads T.

(** The threads the scheduler holds. *)
Definition threads_of g : list Z := entries (pqueue (sched g)).

(** Main runs and no thread has been suspended for it. *)
Definition idle g : Prop := currjob g = gtmain /\ (suspended g = 0 \/ suspended g = gtmain).

(** The thread that runs, or that was running when main was switched to. *)
Definition running_job g : Z := if currjob g =? gtmain then suspended g else currjob g.

(** Where a thread of the queue goes on. *)
Definition ctx_ok g (j : Z) (c : resume) : Prop :=
  if decide (j = currjob g) then True
  else if decide (currjob g = gtmain /\ suspended g = j) then exists sig, c = Fall sig false /\ sig <> -1
  else c = Start \/ c = Back false.

Record gt_base g : Prop := GtBase {
  g_queue : squeue (sched g);
  g_count : 0 <= jobcount g < MAX_JOBS;
  g_cur : currjob g = gtmain \/ currjob g ∈ threads_of g;
  g_susp : currjob g = gtmain \/ suspended g = 0 \/ suspended g = gtmain;
  g_main : exists c st, job_mem g !! gtmain = Some (Job 0 c st) /\ (currjob g <> gtmain -> c = Some (Back false));
  g_threads : forall j, j ∈ threads_of g -> exists i c st, 0 <= i < jobcount g /\ j = job_at i /\
    job_mem g !! j = Some (Job (stack_at (i + 1)) (Some c) st) /\ (stack_at (i + 1) ∈ stack_mem g) /\ leak_stack g <> stack_at (i + 1) /\ ctx_ok g j c;
  g_fresh : forall i, jobcount g <= i < MAX_JOBS -> is_Some (job_mem g !! job_at i);
  g_stacks : forall i, jobcount g < i < MAX_JOBS -> stack_at i ∈ stack_mem g;
  g_leak : leak_stack g = 0 \/ (leak_stack g ∈ stack_mem g) /\ exists i, 0 <= i < jobcount g /\ leak_stack g = stack_at (i + 1);
  g_done : forall i, 0 <= i < jobcount g -> job_at i ∉ threads_of g -> (stack_at (i + 1) ∉ stack_mem g) \/ leak_stack g = stack_at (i + 1);
}.

(** The head of the queue is the running job. *)
Definition head_runs g : Prop := idle g \/ head (threads_of g) = Some (running_job g).

Definition gt_ok g : Prop := gt_base g /\ head_runs g.

Lemma thread_not_main g j : gt_base g -> j ∈ threads_of g -> j <> gtmain /\ j <> 0.
Proof. intros Hg Hj. destruct (g_threads g Hg j Hj) as (i & c & st & Hi & -> & _). unfold job_at, gtmain. lia. Qed.

Lemma current_head g : gt_ok g -> currjob g <> gtmain -> head (threads_of g) = Some (currjob g).
Proof. intros [Hb [[]|Hh]] Hc; [done|]. unfold running_job in Hh. by rewrite (proj2 (Z.eqb_neq _ _)) in Hh by done. Qed.

Lemma current_thread g : gt_base g -> currjob g <> gtmain -> currjob g ∈ threads_of g.
Proof. intros Hg Hc. by destruct (g_cur g Hg). Qed.

Lemma suspended_thread g : gt_ok g -> currjob g = gtmain -> ~ idle g -> head (threads_of g) = Some (suspended g) /\ suspended g ∈ threads_of g.
Proof.
  intros [Hg [|Hh]] Hc Hi; [done|]. unfold running_job in Hh. rewrite (proj2 (Z.eqb_eq _ _)) in Hh by done.
  split; [done|]. destruct (threads_of g); [done|]. injection Hh as ->. by left.
Qed.

(** ** Steps that do not switch *)

Lemma counts_ok g idx c : gt_base g -> gt_base (set_counts idx c (jobcount g) g).
Proof. by intros [? ? ? ? ? ? ? ? ? ?]. Qed.

Lemma counter_ok g c : gt_base g -> gt_base (set_counter c g).
Proof. by intros [? ? ? ? ? ? ? ? ? ?]. Qed.

Lemma tick_ok g : gt_base g -> gt_base (tick g).
Proof. by intros [? ? ? ? ? ? ? ? ? ?]. Qed.

(** A new schedule of the same threads. *)
Lemma sched_ok g s : gt_base g -> squeue s -> entries (pqueue s) ≡ₚ threads_of g -> gt_base (set_sched s g).
Proof.
  intros [H1 H2 H3 H4 H5 H6 H7 H8 H9 H10] Hs Hp. unfold threads_of in *. split; try done.
  - cbn. by rewrite Hp.
  - intros j Hj. cbn in Hj. rewrite Hp in Hj. by apply H6.
  - intros i Hi Hj. apply H10; [done|]. cbn in Hj. by rewrite Hp in Hj.
Qed.

Lemma free_leak_ok g : gt_base g -> exists m, free_leak_stack g = Done (set_leak 0 m g) /\ gt_base (set_leak 0 m g).
Proof.
  intros Hg. pose proof Hg as [H1 H2 H3 H4 H5 H6 H7 H8 H9 H10]. unfold free_leak_stack. destruct (Z.eqb_spec (leak_stack g) 0) as [H0|H0].
  - exists (stack_mem g). replace (set_leak 0 (stack_mem g) g) with g by (destruct g; cbn in *; by subst). done.
  - destruct H9 as [|[Hin (k & Hk & Hs)]]; [done|]. exists (stack_mem g ∖ {[leak_stack g]}).
    assert (Hcur : exists j, job_mem g !! currjob g = Some j /\ leak_stack g <> stack_start j).
    { destruct (decide (currjob g = gtmain)) as [Hc|Hc].
      - destruct H5 as (c & st & Hm & _). rewrite Hc. eexists. split; [exact Hm|]. cbn. done.
      - pose proof (current_thread g Hg Hc) as Hcur. destruct (H6 _ Hcur) as (i & c & st & _ & _ & Hm & _ & Hl & _). eexists. split; [exact Hm|]. done. }
    destruct Hcur as (j & -> & Hj). cbn [deref obind]. rewrite bool_decide_true by done. cbn [negb orb]. rewrite (proj2 (Z.eqb_neq _ _)) by done.
    split; [done|]. split; try done.
    + intros x Hx. destruct (H6 x Hx) as (i & c & st & Hi & -> & Hm & Hst & Hl & Hc). exists i, c, st. do 3 (split; [done|]). split; [set_solver|]. split; [|done]. cbn. unfold stack_at. lia.
    + intros i Hi. cbn in *. apply elem_of_difference. split; [by apply H8|]. rewrite elem_of_singleton, Hs. unfold stack_at. lia.
    + by left.
    + intros i Hi Hj'. left. cbn in *. destruct (H10 i Hi Hj') as [|Hl]; [set_solver|]. rewrite Hl. set_solver.
Qed.

(** ** Switches *)

Definition goes_on_at g (new : Z) (r r' : resume) : Prop :=
  if decide (new = currjob g) then r' = r else if decide (new = gtmain) then r' = Back false else ctx_ok g new r'.

(** The running thread is switched out, with its context stored in its job. *)
Lemma switch_ok g susp new r :
  gt_base g -> new = gtmain \/ new ∈ threads_of g ->
  let g1 := set_running susp new g in
  new = gtmain \/ susp = 0 \/ susp = gtmain ->
  (currjob g = gtmain -> new <> gtmain -> r = Back false) ->
  (forall j c, j ∈ threads_of g -> j <> currjob g -> ctx_ok g j c -> ctx_ok g1 j c) ->
  (currjob g <> gtmain -> ctx_ok g1 (currjob g) r) ->
  exists r' m, gtswtch (Some (currjob g)) new r g1 = Done (r', set_jobs_mem m g1) /\ gt_base (set_jobs_mem m g1) /\ goes_on_at g new r r'.
Proof.
  intros Hg Hnew g1 Hsusp Hr Hoth Hown. pose proof Hg as [H1 H2 H3 H4 H5 H6 H7 H8 H9 H10]. destruct H5 as (c0 & st0 & Hmain & Hmc).
  assert (Hold : exists s c st, job_mem g !! currjob g = Some (Job s c st) /\ (currjob g = gtmain -> s = 0)).
  { destruct (decide (currjob g = gtmain)) as [Hc|Hc]; [rewrite Hc; by eexists _, _, _|].
    destruct (H6 _ (current_thread g Hg Hc)) as (i & c & st & _ & _ & Hm & _). by eexists _, _, _. }
  destruct Hold as (s & c & st & Hold & Hs0). set (m := <[currjob g := Job s (Some r) st]> (job_mem g)).
  assert (Hlook : forall j, j <> currjob g -> m !! j = job_mem g !! j) by (intros; unfold m; by rewrite lookup_insert_ne).
  assert (Hcur : m !! currjob g = Some (Job s (Some r) st)) by (unfold m; by rewrite lookup_insert_eq).
  assert (Hok : gt_base (set_jobs_mem m g1)).
  { split; try done.
    - cbn. destruct (decide (currjob g = gtmain)) as [Hc|Hc].
      + rewrite <- Hc, Hcur, (Hs0 Hc). eexists _, _. split; [done|]. intros Hn. rewrite Hr; [done|done|congruence].
      + rewrite Hlook by done. exists c0, st0. split; [done|]. intros _. by apply Hmc.
    - intros j Hj. destruct (H6 j Hj) as (i & cj & stj & Hi & Heq & Hm & Hst & Hl & Hc). destruct (decide (j = currjob g)) as [Hjc|Hjc].
      + cbn. rewrite Hjc, Hcur. rewrite Hjc in Hm. rewrite Hm in Hold. injection Hold as <- <- <-. exists i, r, stj. rewrite Hjc in Heq. do 5 (split; [done|]).
        apply Hown. rewrite <- Hjc. by eapply thread_not_main.
      + exists i, cj, stj. cbn. rewrite Hlook by done. do 5 (split; [done|]). by apply Hoth.
    - intros i Hi. cbn in *. unfold m. apply lookup_insert_is_Some'. right. by apply H7. }
  exists (match m !! new with Some (Job _ (Some r') _) => r' | _ => r end), m. unfold gtswtch, save. cbn [job_mem set_running g1]. rewrite Hold. cbn [deref obind stack_start state]. fold m.
  cbn [job_mem set_jobs_mem stack_mem]. unfold goes_on_at. destruct (decide (new = currjob g)) as [->|Hne].
  - rewrite Hcur. cbn [deref obind ctx stack_start]. destruct (Z.eqb_spec (currjob g) gtmain) as [Hc|Hc]; [done|]. cbn [orb].
    destruct (H6 _ (current_thread g Hg Hc)) as (i & cj & stj & _ & _ & Hm & Hst & _). rewrite Hm in Hold. injection Hold as <- <- <-. by rewrite bool_decide_true.
  - rewrite Hlook by done. destruct (decide (new = gtmain)) as [->|Hnm].
    + rewrite Hmain, Hmc by done. done.
    + destruct Hnew as [|Hnew]; [done|]. destruct (H6 _ Hnew) as (i & cj & stj & _ & _ & Hm & Hst & _ & Hc). rewrite Hm. cbn [deref obind ctx stack_start].
      rewrite (proj2 (Z.eqb_neq _ _)), bool_decide_true by done. done.
Qed.

(** The running thread has finished: its job is gone, its stack is the next to free. *)
Definition finish g (s : scheduler T) (stack new : Z) : gthreads T :=
  set_running (suspended g) new (set_jobs_mem (delete (currjob g) (job_mem g)) (set_leak stack (stack_mem g) (set_sched s g))).

Lemma finish_base g s new i c st :
  gt_base g -> currjob g <> gtmain -> leak_stack g = 0 -> squeue s -> threads_of g ≡ₚ currjob g :: entries (pqueue s) ->
  currjob g = job_at i -> job_mem g !! currjob g = Some (Job (stack_at (i + 1)) c st) -> 0 <= i < jobcount g -> stack_at (i + 1) ∈ stack_mem g ->
  new = gtmain \/ new ∈ entries (pqueue s) -> gt_base (finish g s (stack_at (i + 1)) new).
Proof.
  intros [H1 H2 H3 H4 H5 H6 H7 H8 H9 H10] Hc Hl Hs Hp Hci Hm Hi Hst Hnew.
  assert (Hnd : currjob g ∉ entries (pqueue s)).
  { assert (Hn : NoDup (currjob g :: entries (pqueue s))) by (rewrite <- Hp; apply H1). by apply NoDup_cons in Hn as [? _]. }
  split; cbn; try done.
  - destruct H4 as [|H4]; [done|]. by right.
  - destruct H5 as (c0 & st0 & Hm0 & Hc0). exists c0, st0. rewrite lookup_delete_ne by done. split; [done|]. intros _. by apply Hc0.
  - intros j Hj. change (threads_of _) with (entries (pqueue s)) in Hj. assert (Hjc : j <> currjob g) by (by intros ->).
    destruct (H6 j) as (k & cj & stj & Hk & -> & Hmj & Hsj & Hlj & Hcj); [rewrite Hp; by right|]. exists k, cj, stj. rewrite lookup_delete_ne by done.
    do 4 (split; [done|]). split; [intros Heq; apply Hjc; rewrite Hci; unfold stack_at, job_at in *; lia|].
    unfold ctx_ok in *. cbn. rewrite decide_False in Hcj by done. rewrite decide_False in Hcj by (intros [? _]; done).
    destruct (decide (job_at k = new)) as [|Hn]; [done|]. destruct (decide _) as [[Hn' Hs']|]; [|done]. exfalso. destruct H4 as [|[H4|H4]]; [done| |]; rewrite H4 in Hs'; unfold job_at, gtmain in *; lia.
  - intros k Hk. cbn in Hk. rewrite lookup_delete_ne; [by apply H7|]. rewrite Hci. unfold job_at. lia.
  - right. split; [done|]. by exists i.
  - intros k Hk Hkn. change (threads_of _) with (entries (pqueue s)) in Hkn. destruct (decide (k = i)) as [->|Hne]; [by right|left].
    destruct (H10 k Hk) as [|Hlk]; [|done|rewrite Hl in Hlk; unfold stack_at in Hlk; lia]. rewrite Hp, elem_of_cons. intros [Heq|]; [|done]. rewrite Hci in Heq. unfold job_at in Heq. lia.
Qed.

(** What a step keeps. *)
Definition same_count g g' : Prop := jobcount g' = jobcount g /\ exited g' = exited g.

Lemma head_elem (l : list Z) : l <> [] -> default 0 (head l) ∈ l.
Proof. destruct l; [done|]. intros _. by left. Qed.

Lemma schedule_stop g doomed : gt_ok g -> currjob g <> gtmain -> leak_stack g = 0 ->
  exists r g', gtyield_schedule clock (-1) doomed g = Done (Some r, g') /\ gt_ok g' /\ same_count g g' /\
    threads_of g ≡ₚ currjob g :: threads_of g' /\ (r = Start \/ r = Back false).
Proof.
  intros Hg Hc Hl. pose proof Hg as [Hb _]. pose proof (current_head g Hg Hc) as Hh. pose proof (current_thread g Hb Hc) as Hin.
  destruct (g_threads g Hb _ Hin) as (i & c & st & Hi & Hci & Hm & Hst & _ & _).
  assert (Hq : exists rest, entries (pqueue (sched g)) = currjob g :: rest).
  { unfold threads_of in Hh. destruct (entries (pqueue (sched g))) as [|h rest]; [done|]. injection Hh as ->. by eexists. }
  destruct Hq as [rest Hq]. unfold gtyield_schedule, currtime. cbn [tick currjob Z.eqb Pos.eqb andb]. rewrite (proj2 (Z.eqb_neq (currjob g) gtmain)) by done. cbn [negb].
  destruct (finish_perm (sched g) (currjob g) rest (clock (now (tick g))) (g_queue g Hb) Hq) as (s1 & Hrun1 & Hs1 & Hq1).
  cbn [sched tick] in *. rewrite Hrun1. cbn [obind].
  destruct (quantum_perm s1 0 (clock (now g)) Hs1 (or_introl eq_refl)) as (r & s2 & Hrun2 & Hs2 & Hp2 & Hr). cbn [sched set_sched]. rewrite Hrun2. cbn [obind].
  set (g2 := set_sched s2 _). set (new := if r =? 0 then gtmain else r).
  assert (Hp : threads_of g ≡ₚ currjob g :: entries (pqueue s2)) by (unfold threads_of; by rewrite Hq, Hp2, Hq1).
  assert (Hnew : (new = gtmain /\ r = 0) \/ (new = r /\ head (entries (pqueue s2)) = Some new)).
  { unfold new. destruct (Z.eqb_spec r 0); [by left|right]. split; [done|]. subst r. by destruct (entries (pqueue s2)). }
  assert (Hnin : new = gtmain \/ new ∈ entries (pqueue s2)).
  { destruct Hnew as [[? _]|[_ Hh2]]; [by left|right]. destruct (entries (pqueue s2)); [done|]. injection Hh2 as ->. by left. }
  assert (Hne : new <> currjob g).
  { destruct Hnin as [->|Hn]; [done|]. intros ->. assert (Hnd : NoDup (currjob g :: entries (pqueue s2))) by (rewrite <- Hp; apply (g_queue g Hb)). by apply NoDup_cons in Hnd as [? _]. }
  change (currjob g2) with (currjob g). rewrite (proj2 (Z.eqb_neq new (currjob g))) by done.
  pose proof (finish_base (tick (tick g)) s2 new i (Some c) st (tick_ok _ (tick_ok g Hb)) Hc Hl Hs2 Hp Hci Hm Hi Hst Hnin) as Hbase. set (g' := finish (tick (tick g)) s2 (stack_at (i + 1)) new) in *.
  assert (Hdes : gtdestroy (currjob g) g2 = Done (set_jobs_mem (delete (currjob g) (job_mem g)) (set_leak (stack_at (i + 1)) (stack_mem g) g2))).
  { unfold gtdestroy, free_leak_stack. change (leak_stack g2) with (leak_stack g). change (job_mem g2) with (job_mem g). change (currjob g2) with (currjob g).
    rewrite Hm, Hl. cbn [deref obind Z.eqb stack_start]. by rewrite (proj2 (Z.eqb_neq _ _)). }
  rewrite Hdes. cbn [obind]. change (set_running _ new _) with g'.
  assert (Hsw : exists r', gtswtch None new (Back doomed) g' = Done (r', g') /\ (r' = Start \/ r' = Back false)).
  { unfold gtswtch. cbn [obind]. destruct (decide (new = gtmain)) as [->|Hnm].
    - destruct (g_main g Hb) as (c0 & st0 & Hm0 & Hc0). cbn. rewrite lookup_delete_ne, Hm0, (Hc0 Hc) by done. cbn. exists (Back false). by split; [|right].
    - destruct Hnin as [|Hnin]; [done|]. destruct (g_threads g' Hbase new Hnin) as (k & ck & stk & Hk & _ & Hmk & Hsk & _ & _).
      assert (Hck : ctx_ok g new ck).
      { destruct (g_threads g Hb new) as (k2 & ck2 & stk2 & _ & _ & Hmk2 & _ & _ & Hck2); [rewrite Hp; by right|]. cbn in Hmk. rewrite lookup_delete_ne in Hmk by done. rewrite Hmk2 in Hmk. injection Hmk as _ <- _. done. }
      rewrite Hmk. cbn [deref obind ctx stack_start]. rewrite (bool_decide_true _ Hsk), orb_true_r. exists ck. split; [done|].
      unfold ctx_ok in Hck. rewrite decide_False in Hck by done. by rewrite decide_False in Hck by (intros [? _]; done). }
  destruct Hsw as (r' & -> & Hr'). cbn [obind]. exists r', g'. split; [done|]. split; [|by split].
  split; [done|]. unfold head_runs, idle, running_job. cbn. destruct Hnew as [[-> _]|[_ Hh2]].
  - left. split; [done|]. by destruct (g_susp g Hb).
  - right. change (threads_of _) with (entries (pqueue s2)). rewrite Hh2. destruct (Z.eqb_spec new gtmain) as [Hnm|]; [|done]. exfalso.
    destruct (entries (pqueue s2)) as [|x l] eqn:Hx; [done|]. injection Hh2 as ->. destruct (thread_not_main g new Hb) as [? _]; [|done]. rewrite Hp. right. by left.
Qed.

Lemma ctx_waiting g j c : j <> 0 -> j <> gtmain -> suspended g = 0 \/ suspended g = gtmain -> j <> currjob g -> ctx_ok g j c = (c = Start \/ c = Back false).
Proof. intros H0 H1 Hs Hj. unfold ctx_ok. rewrite decide_False by done. rewrite decide_False; [done|]. intros [_ <-]. by destruct Hs. Qed.

Lemma not_suspended g : gt_base g -> (currjob g = gtmain -> idle g) -> suspended g = 0 \/ suspended g = gtmain.
Proof. intros Hb Hi. destruct (decide (currjob g = gtmain)) as [Hc|Hc]; [by apply Hi|]. by destruct (g_susp g Hb). Qed.

Lemma schedule_go g sig : gt_ok g -> sig <> -1 -> (currjob g = gtmain -> idle g) ->
  exists r g', gtyield_schedule clock sig false g = Done (r, g') /\ gt_ok g' /\ same_count g g' /\ threads_of g' ≡ₚ threads_of g /\
    match r with
    | None => currjob g = gtmain -> threads_of g = []
    | Some r => r = Start \/ r = Back false
    end.
Proof.
  intros Hg Hsig Hidle. pose proof Hg as [Hb _]. pose proof (not_suspended g Hb Hidle) as Hsu. unfold gtyield_schedule, currtime. rewrite (proj2 (Z.eqb_neq sig (-1))) by done. cbn [andb obind].
  change (currjob (tick g)) with (currjob g). change (sched (tick g)) with (sched g). set (e := if currjob g =? gtmain then 0 else currjob g).
  assert (He : e = 0 \/ head (entries (pqueue (sched g))) = Some e).
  { unfold e. destruct (Z.eqb_spec (currjob g) gtmain) as [|Hc]; [by left|right]. by apply current_head. }
  destruct (quantum_perm (sched g) e (clock (now g)) (g_queue g Hb) He) as (r & s2 & -> & Hs2 & Hp2 & Hr). cbn [obind]. set (g2 := set_sched s2 (tick g)). set (new := if r =? 0 then gtmain else r).
  assert (Hb2 : gt_base g2) by (apply sched_ok; [by apply tick_ok|done|done]).
  assert (Hnew : (new = gtmain /\ entries (pqueue s2) = []) \/ (new <> gtmain /\ head (entries (pqueue s2)) = Some new /\ new ∈ threads_of g2)).
  { unfold new. change (threads_of g2) with (entries (pqueue s2)). destruct (entries (pqueue s2)) as [|h rest] eqn:Hq; cbn in Hr; subst r; [by left|right].
    destruct (thread_not_main g2 h Hb2) as [Hh1 Hh0]; [change (threads_of g2) with (entries (pqueue s2)); rewrite Hq; by left|].
    rewrite (proj2 (Z.eqb_neq h 0)) by done. split; [done|]. split; [done|by left]. }
  change (currjob g2) with (currjob g). destruct (Z.eqb_spec new (currjob g)) as [Heq|Hne].
  - eexists _, _. split; [done|]. split; [|split; [done|]; split; [done|]].
    + split; [done|]. unfold head_runs, idle, running_job. cbn. destruct Hnew as [[Hn _]|(Hn & Hh & _)].
      * left. split; [congruence|done].
      * right. change (threads_of g2) with (entries (pqueue s2)). rewrite (proj2 (Z.eqb_neq _ _)) by congruence. congruence.
    + intros Hc. destruct Hnew as [[_ Hn]|(Hn & _)]; [|congruence]. rewrite Hn in Hp2. by apply Permutation_nil in Hp2.
  - destruct (switch_ok g2 (suspended g) new (Back false) Hb2) as (r' & m & Hrun & Hok & Hat); try done.
    + destruct Hnew as [[]|(_ & _ & ?)]; auto.
    + by right.
    + intros j c Hj Hjc. destruct (thread_not_main g2 j Hb2 Hj) as [Hj1 Hj0]. rewrite ctx_waiting by done. intros Hctx.
      destruct (decide (j = new)) as [->|Hjn]; [unfold ctx_ok; by rewrite decide_True|]. by rewrite ctx_waiting.
    + intros Hc. destruct (thread_not_main g2 (currjob g) Hb2) as [Hj1 Hj0]; [by apply (current_thread g2)|]. rewrite ctx_waiting; auto.
    + change (suspended g2) with (suspended g). change (currjob g2) with (currjob g) in Hrun. rewrite Hrun. cbn [obind]. eexists _, _. split; [done|]. split; [|split; [done|]; split; [done|]].
      * split; [done|]. unfold head_runs, idle, running_job. cbn. destruct Hnew as [[Hn _]|(Hn & Hh & _)]; [by left|right]. rewrite (proj2 (Z.eqb_neq _ _)) by done. done.
      * unfold goes_on_at in Hat. change (currjob g2) with (currjob g) in Hat. rewrite decide_False in Hat by done. destruct Hnew as [[Hn _]|(Hn & Hh & Hin)]; [rewrite decide_True in Hat by done; auto|].
        rewrite decide_False in Hat by done. destruct (thread_not_main g2 new Hb2 Hin) as [Hj1 Hj0]. by rewrite ctx_waiting in Hat.
Qed.

Lemma go_on_user fuel r g : r = Start \/ r = Back false -> go_on clock fuel r g = Done g.
Proof. destruct fuel; intros [-> | ->]; done. Qed.

Lemma go_on_Fall fuel sig g : go_on clock (S fuel) (Fall sig false) g =
  (let! (r, g) := gtyield_schedule clock sig false g in match r with None => Done g | Some r => go_on clock fuel r g end).
Proof. done. Qed.

(** A thread that goes on behind its switch to main. *)
Lemma go_on_fall g sig : gt_ok g -> sig <> -1 -> (currjob g = gtmain -> idle g) ->
  exists g', go_on clock 2 (Fall sig false) g = Done g' /\ gt_ok g' /\ same_count g g' /\ threads_of g' ≡ₚ threads_of g.
Proof.
  intros Hg Hsig Hi. destruct (schedule_go g sig Hg Hsig Hi) as (r & g' & Hrun & Hok & Hsame & Hp & Hr). rewrite go_on_Fall, Hrun. cbn [obind].
  exists g'. destruct r as [r|]; [rewrite go_on_user by done|]; done.
Qed.

(** Main continues the thread that was suspended for it. *)
Lemma yield_resume g : gt_ok g -> currjob g = gtmain -> suspended g <> 0 ->
  exists r g1 g', gtswtch (Some (currjob g)) (suspended g) (Back false) (set_running 0 (suspended g) g) = Done (r, g1) /\
    go_on clock 2 r g1 = Done g' /\ gt_ok g' /\ same_count g g' /\ threads_of g' ≡ₚ threads_of g.
Proof.
  intros Hg Hc Hs. pose proof Hg as [Hb _]. destruct (decide (suspended g = gtmain)) as [Hm|Hm].
  - destruct (switch_ok g 0 (suspended g) (Back false) Hb) as (r & m & Hrun & Hok & Hat); [by left|by left|done| |done|].
    { intros j c Hj Hjc. destruct (thread_not_main g j Hb Hj). rewrite !ctx_waiting; auto. cbn. by rewrite Hm. }
    unfold goes_on_at in Hat. rewrite decide_True in Hat by congruence. subst r. eexists _, _, _. split; [exact Hrun|]. split; [done|]. split; [|done].
    split; [done|]. left. split; [done|by left].
  - assert (Hni : ~ idle g) by (intros [_ [|]]; done). destruct (suspended_thread g Hg Hc Hni) as [Hh Hin].
    destruct (switch_ok g 0 (suspended g) (Back false) Hb) as (r & m & Hrun & Hok & Hat); [by right|by auto|done| |done|].
    { intros j c Hj Hjc. destruct (thread_not_main g j Hb Hj) as [Hj1 Hj0]. destruct (decide (j = suspended g)) as [->|Hjs]; [intros _; unfold ctx_ok; by rewrite decide_True|].
      rewrite (ctx_waiting (set_running 0 (suspended g) g)) by first [done|by left]. unfold ctx_ok. rewrite decide_False by congruence. by rewrite decide_False by (intros [_ ?]; done). }
    unfold goes_on_at in Hat. rewrite decide_False in Hat by congruence. rewrite decide_False in Hat by done. unfold ctx_ok in Hat. rewrite decide_False in Hat by congruence.
    rewrite decide_True in Hat by done. destruct Hat as (sig & -> & Hsig).
    destruct (go_on_fall (set_jobs_mem m (set_running 0 (suspended g) g)) sig) as (g' & Hgo & Hok' & Hsame & Hp); [|done|done|].
    { split; [done|]. right. unfold running_job. cbn. rewrite (proj2 (Z.eqb_neq _ _)) by done. done. }
    eexists _, _, _. split; [exact Hrun|]. split; [exact Hgo|]. split; [done|]. split; [exact Hsame|exact Hp].
Qed.

(** The running thread is suspended for main. *)
Lemma yield_to_main g sig : gt_ok g -> (currjob g = gtmain -> suspended g = 0) -> sig <> -1 ->
  exists r g1 g', gtswtch (Some (currjob g)) gtmain (Fall sig false) (set_running (currjob g) gtmain g) = Done (r, g1) /\
    go_on clock 2 r g1 = Done g' /\ gt_ok g' /\ same_count g g' /\ threads_of g' ≡ₚ threads_of g.
Proof.
  intros Hg Hi Hsig. pose proof Hg as [Hb _]. assert (Hsu : suspended g = 0 \/ suspended g = gtmain) by (apply not_suspended; [done|]; intros Hc; split; [done|]; left; by apply Hi).
  destruct (switch_ok g (currjob g) gtmain (Fall sig false) Hb) as (r & m & Hrun & Hok & Hat); [by left|by left|done| | |].
  { intros j c Hj Hjc. destruct (thread_not_main g j Hb Hj). rewrite ctx_waiting by done. intros Hcx. unfold ctx_ok. cbn. rewrite decide_False by done. by rewrite decide_False by (intros [_ ?]; congruence). }
  { intros Hc. unfold ctx_ok. cbn. rewrite decide_False by done. rewrite decide_True by done. by exists sig. }
  unfold goes_on_at in Hat. destruct (decide (gtmain = currjob g)) as [Hc|Hc].
  - subst r. destruct (go_on_fall (set_jobs_mem m (set_running (currjob g) gtmain g)) sig) as (g' & Hgo & Hok' & Hsame & Hp); [|done| |].
    { split; [done|]. left. split; [done|by right]. } { intros _. split; [done|by right]. }
    eexists _, _, _. split; [exact Hrun|]. split; [exact Hgo|]. split; [done|]. split; [exact Hsame|exact Hp].
  - rewrite decide_True in Hat by done. subst r. eexists _, _, _. split; [exact Hrun|]. split; [done|]. split; [|done]. split; [done|]. right. unfold running_job. cbn. apply (current_head g Hg); congruence.
Qed.

Lemma gtyield_ok g sig doomed : gt_ok g -> (sig = -1 -> currjob g <> gtmain) -> (doomed = true -> sig = -1) ->
  exists b g', gtyield clock sig doomed g = Done (b, g') /\ gt_ok g' /\ same_count g g' /\
    (if decide (sig = -1) then threads_of g ≡ₚ currjob g :: threads_of g' else threads_of g' ≡ₚ threads_of g) /\
    (b = false -> currjob g = gtmain -> threads_of g = []).
Proof.
  intros [Hb Hrun] Hsig Hd. destruct (free_leak_ok g Hb) as (mem & Hfree & Hb1). unfold gtyield, gtyield_once. rewrite Hfree. cbn [obind]. set (g1 := set_leak 0 mem g) in *.
  assert (Hg1 : gt_ok g1) by done. change (currjob g1) with (currjob g). change (suspended g1) with (suspended g).
  destruct (Z.eqb_spec (currjob g) gtmain) as [Hc|Hc]; [destruct (Z.eqb_spec (suspended g) 0) as [Hs|Hs]|]; cbn [andb negb].
  2:{ assert (Hs1 : sig <> -1) by (intros ->; by apply Hsig). assert (doomed = false) as -> by (destruct doomed; [destruct Hs1; by apply Hd|done]).
      destruct (yield_resume g1 Hg1 Hc Hs) as (r & g2 & g' & H1 & H2 & Hok & Hsame & Hp). change (currjob g1) with (currjob g) in H1. change (suspended g1) with (suspended g) in H1. rewrite H1. cbn [obind]. rewrite H2. cbn [obind].
      eexists _, _. split; [done|]. split; [done|]. split; [done|]. by rewrite decide_False by done. }
  all: destruct (to_main sig g1) as [main g2] eqn:Ht; unfold to_main in Ht.
  all: assert (Hg2 : gt_ok g2 /\ currjob g2 = currjob g /\ suspended g2 = suspended g /\ same_count g g2 /\ threads_of g2 = threads_of g /\ leak_stack g2 = 0 /\ (main = true -> sig <> -1)) by
    (destruct (_ || _) eqn:Es in Ht; injection Ht as <- <-; [|done];
     split; [split; [by apply counter_ok|done]|]; do 5 (split; [done|]); intros _ ->; done).
  all: destruct Hg2 as (Hg2 & Hc2 & Hsu2 & [Hj2 He2] & Ht2 & Hl2 & Hm2); clear Ht.
  all: destruct main.
  1,3: specialize (Hm2 eq_refl); assert (doomed = false) as -> by (destruct doomed; [destruct Hm2; by apply Hd|done]);
    destruct (yield_to_main g2 sig Hg2) as (r & g3 & g' & H1 & H2 & Hok & [Hsj Hse] & Hp); [congruence|done|];
    rewrite H1; cbn [obind]; rewrite H2; cbn [obind]; eexists _, _; (split; [done|]); (split; [done|]); (split; [split; congruence|]); rewrite decide_False by done; (split; [by rewrite Hp, Ht2|done]).
  all: destruct (decide (sig = -1)) as [->|Hs1].
  1: by destruct (Hsig eq_refl).
  2: { destruct (schedule_stop g2 doomed Hg2) as (r & g' & -> & Hok & [Hsj Hse] & Hp & Hr); [congruence|done|]. cbn [obind]. rewrite go_on_user by done. cbn [obind].
       eexists _, _. split; [done|]. split; [done|]. split; [split; congruence|]. split; [by rewrite <- Ht2, <- Hc2|done]. }
  all: assert (doomed = false) as -> by (destruct doomed; [destruct Hs1; by apply Hd|done]);
    destruct (schedule_go g2 sig Hg2 Hs1) as (r & g' & -> & Hok & [Hsj Hse] & Hp & Hr); [first [congruence|intros _; split; [congruence|left; congruence]]|]; cbn [obind].
  all: destruct r as [r|]; [rewrite go_on_user by done; cbn [obind]|]; eexists _, _; (split; [done|]); (split; [done|]); (split; [split; congruence|]); (split; [by rewrite Hp, Ht2|]); try done.
  intros _ Hcm. rewrite <- Ht2. apply Hr. congruence.
Qed.

(** ** The events *)

Lemma gtgo_ok g d : gt_ok g -> jobcount g < 99 ->
  exists g', gtgo clock d g = Done g' /\ gt_base g' /\ jobcount g' = jobcount g + 1 /\ exited g' = exited g /\
    currjob g' = currjob g /\ suspended g' = suspended g /\ threads_of g' ≡ₚ job_at (jobcount g) :: threads_of g.
Proof.
  intros Hg Hj. pose proof Hg as [Hb _]. pose proof Hb as [H1 H2 H3 H4 H5 H6 H7 H8 H9 H10]. unfold gtgo, gtgo_register, gtgo_set_up, MAX_JOBS. rewrite (proj2 (Z.leb_gt 100 (jobcount g))) by lia. cbn [currtime].
  rewrite (s32_small (jobcount g + 1)) by lia. set (p := job_at (jobcount g)). destruct (H7 (jobcount g)) as [j0 Hj0]; [unfold MAX_JOBS in *; lia|].
  cbn [job_mem tick set_counts sched gtidx jobcount set_sched]. fold p in Hj0. rewrite Hj0. cbn [deref obind].
  assert (Hpn : p ∉ threads_of g) by (intros Hin; destruct (H6 p Hin) as (i & c & st & Hi & Heq & _); unfold p, job_at in Heq; lia).
  destruct (new_job_perm (sched g) p (s32 (gtidx g + 1)) (clock (now (set_counts (s32 (gtidx g + 1)) (s32 (job_count g + 1)) (jobcount g + 1) g))) d H1) as (s' & -> & Hs' & Hp'); [unfold p, job_at; lia|done|].
  cbn [obind jobcount set_sched set_counts tick]. rewrite (proj2 (Z.leb_gt 100 (jobcount g + 1))) by lia.
  eexists. split; [done|]. split; [|done]. split; cbn; try done.
  - unfold MAX_JOBS. lia.
  - destruct H3 as [H3|H3]; [by left|right]. change (currjob g ∈ entries (pqueue s')). rewrite Hp'. by right.
  - destruct H5 as (c & st & Hm & Hc). exists c, st. rewrite lookup_insert_ne by (unfold p, job_at, gtmain; lia). done.
  - intros j Hjin. change (j ∈ entries (pqueue s')) in Hjin. rewrite Hp' in Hjin. apply elem_of_cons in Hjin as [->|Hjin].
    + exists (jobcount g), Start, Ready. rewrite lookup_insert_eq. split; [lia|]. do 2 (split; [done|]). split; [apply H8; unfold MAX_JOBS; lia|].
      split; [destruct H9 as [->|[_ (k & Hk & ->)]]; unfold stack_at; lia|]. unfold ctx_ok. cbn. destruct (decide _); [done|]. destruct (decide _) as [[Hcm Hsp]|]; [|by left]. exfalso. apply Hpn. rewrite <- Hsp.
      apply suspended_thread; [done|done|]. intros [_ [Hs0|Hs0]]; rewrite Hs0 in Hsp; unfold p, job_at, gtmain in Hsp; lia.
    + destruct (H6 j Hjin) as (i & c & st & Hi & Heq & Hm & Hst & Hl & Hc). exists i, c, st. rewrite lookup_insert_ne by (intros <-; done). split; [lia|]. done.
  - intros i Hi. cbn in Hi. apply lookup_insert_is_Some'. right. apply H7. lia.
  - intros i Hi. cbn in Hi. apply H8. lia.
  - destruct H9 as [H9|[H9 (k & Hk & Hs)]]; [by left|right]. split; [done|]. exists k. cbn. split; [lia|done].
  - intros i Hi Hjn. cbn in Hi. change (job_at i ∉ entries (pqueue s')) in Hjn. rewrite Hp', not_elem_of_cons in Hjn. destruct Hjn as [Hne Hjn]. destruct (decide (i = jobcount g)) as [->|]; [done|]. apply H10; [lia|done].
Qed.

(** A call that the library allows. *)
Definition allowed (e : gt_event T) g : Prop :=
  match e with
  | Yield sig => sig <> -1
  | Go _ => jobcount g < 99
  | Ret ret => currjob g = gtmain \/ ret = -1
  | _ => True
  end.

(** A new thread does not get in front of the one that runs. *)
Definition behind (e : gt_event T) g g' : Prop :=
  match e with Go _ => idle g \/ head (threads_of g') = head (threads_of g) | _ => True end.

(** The threads that have been started and have not finished. *)
Definition unfinished (e : gt_event T) g (l : list Z) : list Z :=
  match e with
  | Go _ => job_at (jobcount g) :: l
  | Stop | Ret _ => if decide (currjob g = gtmain) then l else filter (fun j => j <> currjob g) l
  | _ => l
  end.

Inductive gt_session (s : scheme_t) : gthreads T -> list Z -> Prop :=
| gt_init : gt_session s (gtinit s) []
| gt_next e g g' l : gt_session s g l -> allowed e g -> gt_step clock e g = Done (Some g') -> behind e g g' -> gt_session s g' (unfinished e g l).

Lemma doyield_ok g sig : gt_ok g -> sig <> -1 -> exists g', gtdoyield clock sig g = Done g' /\ gt_ok g' /\ same_count g g' /\ threads_of g' ≡ₚ threads_of g.
Proof.
  intros Hg Hs. unfold gtdoyield. destruct (gtyield_ok g sig false Hg) as (b & g' & -> & Hok & Hsame & Hp & _); [done|done|]. rewrite decide_False in Hp by done. cbn [obind]. by exists g'.
Qed.

Lemma state_ok g st : gt_ok g -> currjob g <> gtmain ->
  exists j, job_mem g !! currjob g = Some j /\ gt_ok (set_jobs_mem (<[currjob g := Job (stack_start j) (ctx j) st]> (job_mem g)) g).
Proof.
  intros [Hb Hr] Hc. pose proof Hb as [H1 H2 H3 H4 H5 H6 H7 H8 H9 H10]. destruct (H6 _ (current_thread g Hb Hc)) as (i & c & st0 & Hi & Hci & Hm & Hst & Hl & Hcx).
  eexists. split; [exact Hm|]. split; [|done]. split; cbn; try done.
  - destruct H5 as (c0 & st1 & Hm0 & Hc0). exists c0, st1. by rewrite lookup_insert_ne.
  - intros j Hj. destruct (decide (j = currjob g)) as [->|Hne].
    + exists i, c, st. rewrite lookup_insert_eq. done.
    + rewrite lookup_insert_ne by done. by apply H6.
  - intros k Hk. apply lookup_insert_is_Some'. right. by apply H7.
Qed.

Lemma exit_ok g : gt_ok g -> threads_of g = [] -> exists st, scheduler_clean_up (sched g) = Done (sched g, st) /\ gt_ok (set_exited (set_sched (sched g) g)).
Proof.
  unfold threads_of. intros [Hb Hr] He. unfold scheduler_clean_up, priqueue_destroy. rewrite He. cbn [length priqueue_destroy_loop]. unfold priqueue_poll. rewrite He. cbn [Z.eqb obind].
  replace (set_pqueue (sched g) (pqueue (sched g))) with (sched g) by (by destruct (sched g)). eexists. split; [done|]. split; [|done]. by destruct Hb.
Qed.

Lemma ret_ok g ret : gt_ok g -> currjob g = gtmain \/ ret = -1 ->
  exists g', gtret clock ret g = Done g' /\ gt_ok g' /\ jobcount g' = jobcount g /\ (exited g' = exited g \/ threads_of g' = []) /\
    (if decide (currjob g = gtmain) then threads_of g' ≡ₚ threads_of g else threads_of g ≡ₚ currjob g :: threads_of g').
Proof.
  intros Hg Hret. unfold gtret. destruct (Z.eqb_spec (currjob g) gtmain) as [Hc|Hc]; cbn [negb].
  - destruct (gtyield_ok g 0 false Hg) as (b & g' & -> & Hok & [Hj He] & Hp & Hb); [done|done|]. rewrite decide_False in Hp by done. cbn [obind].
    destruct b; [exists g'; rewrite decide_True by done; do 3 (split; [done|]); split; [by left|done]|]. assert (Hn : threads_of g' = []) by (apply Permutation_nil; by rewrite Hp, Hb).
    destruct (exit_ok g' Hok Hn) as (st & -> & Hok'). cbn [obind]. eexists. split; [done|]. split; [done|]. split; [done|]. split; [by right|]. rewrite decide_True by done. exact Hp.
  - destruct Hret as [| ->]; [done|]. destruct (state_ok g Unused Hg Hc) as (j & -> & Hok). cbn [deref obind].
    destruct (gtyield_ok _ (-1) true Hok) as (b & g' & -> & Hok' & [Hj He] & Hp & _); [done|done|]. rewrite decide_True in Hp by done. cbn [obind]. exists g'. rewrite decide_False by done. do 3 (split; [done|]). split; [by left|done].
Qed.

Lemma gtinit_ok s : gt_ok (gtinit s).
Proof.
  split; [|left; split; [done|by left]]. split; try done.
  - split; cbn; [constructor|by apply not_elem_of_nil|by intros j ?%elem_of_nil].
  - by left.
  - by left.
  - exists None, Running. split; [|done]. cbn. apply lookup_insert_eq.
  - by intros j ?%elem_of_nil.
  - intros i Hi. cbn -[alloc_jobs]. apply lookup_insert_is_Some'. right. cbn [jobcount gtinit] in Hi. clear -Hi.
    assert (Hn : forall n, 0 <= i < Z.of_nat n -> is_Some (alloc_jobs n !! job_at i)).
    { induction n as [|n IH]; intros Hin; [lia|]. cbn [alloc_jobs]. apply lookup_insert_is_Some'. destruct (decide (i = Z.of_nat n)) as [->|]; [by left|right; apply IH; lia]. }
    apply Hn. unfold MAX_JOBS in *. lia.
  - intros i Hi. cbn -[alloc_stacks]. cbn [jobcount gtinit] in Hi. clear -Hi.
    assert (Hn : forall n, 0 <= i < Z.of_nat n -> stack_at i ∈ alloc_stacks n).
    { induction n as [|n IH]; intros Hin; [lia|]. cbn [alloc_stacks]. destruct (decide (i = Z.of_nat n)) as [->|]; [set_solver|]. apply elem_of_union_r, IH. lia. }
    apply Hn. unfold MAX_JOBS in *. lia.
  - by left.
  - intros i Hi. cbn in Hi. lia.
Qed.

Lemma filter_finished (l : list Z) j l' : l ≡ₚ j :: l' -> NoDup (j :: l') -> filter (fun k => k <> j) l ≡ₚ l'.
Proof.
  intros Hp [Hj _]%NoDup_cons. rewrite Hp. rewrite filter_cons_False by (intros Hn; by apply Hn). clear Hp. induction l' as [|k l' IH]; [done|].
  apply not_elem_of_cons in Hj as [Hk Hj]. rewrite filter_cons_True by done. by rewrite IH.
Qed.

Lemma gt_step_ok e g l : gt_ok g -> threads_of g ≡ₚ l -> allowed e g ->
  exists o, gt_step clock e g = Done o /\
    (forall g', o = Some g' -> (behind e g g' -> gt_ok g') /\ threads_of g' ≡ₚ unfinished e g l /\ (exited g' = true -> threads_of g' = [])).
Proof.
  intros Hg Hp Ha. unfold gt_step. destruct (exited g) eqn:He; [by eexists|].
  assert (Hret : forall ret, currjob g = gtmain \/ ret = -1 -> forall g0, gt_ok g0 -> currjob g0 = currjob g -> jobcount g0 = jobcount g -> exited g0 = exited g -> threads_of g0 = threads_of g ->
    exists o, (let! g' := gtret clock ret g0 in Done (Some g')) = Done o /\
      (forall g', o = Some g' -> (True -> gt_ok g') /\ threads_of g' ≡ₚ (if decide (currjob g = gtmain) then l else filter (fun j => j <> currjob g) l) /\ (exited g' = true -> threads_of g' = []))).
  { intros ret Hr g0 Hg0 Hc0 Hj0 He0 Ht0. destruct (ret_ok g0 ret Hg0) as (g' & -> & Hok & _ & Hex & Ht); [by rewrite Hc0|]. cbn [obind]. eexists. split; [done|]. intros ? [= <-]. split; [done|].
    split; [|intros Hx; destruct Hex as [Hex|]; [congruence|done]]. rewrite Hc0, Ht0 in Ht. destruct (decide (currjob g = gtmain)); [by rewrite Ht|]. symmetry. apply filter_finished; [by rewrite <- Hp|].
    rewrite <- Ht. apply (g_queue g (proj1 Hg)). }
  destruct e as [|sig|d| |ret]; cbn [allowed behind unfinished] in *.
  - destruct (doyield_ok g SIGALRM Hg) as (g' & -> & Hok & [_ Hex] & Ht); [done|]. cbn [obind]. eexists. split; [done|]. intros ? [= <-]. split; [done|]. split; [by rewrite Ht|congruence].
  - destruct (doyield_ok g sig Hg Ha) as (g' & -> & Hok & [_ Hex] & Ht). cbn [obind]. eexists. split; [done|]. intros ? [= <-]. split; [done|]. split; [by rewrite Ht|congruence].
  - destruct (gtgo_ok g d Hg Ha) as (g' & -> & Hb & _ & Hex & Hc & Hs & Ht). cbn [obind]. eexists. split; [done|]. intros ? [= <-]. split; [|split; [by rewrite Ht, Hp|congruence]].
    intros Hbe. split; [done|]. unfold head_runs, idle, running_job in *. rewrite Hc, Hs. destruct Hbe as [Hi|Hbe]; [by left|]. rewrite Hbe. apply Hg.
  - destruct (Z.eqb_spec (currjob g) gtmain) as [Hc|Hc]; [by eexists|]. apply Hret; try done; [by right|]. split; [by apply counts_ok, Hg|apply Hg].
  - by apply Hret.
Qed.

Record gt_inv g (l : list Z) : Prop := GtInv {
  inv_ok : gt_ok g;
  inv_threads : threads_of g ≡ₚ l;
  inv_exit : exited g = true -> threads_of g = [];
}.

Lemma session_inv s g l : gt_session s g l -> gt_inv g l.
Proof.
  induction 1 as [|e g g' l _ [IH1 IH2 IH3] Ha Hstep Hbe]; [split; [apply gtinit_ok|done|done]|].
  destruct (gt_step_ok e g l IH1 IH2 Ha) as (o & Hrun & Ho). rewrite Hstep in Hrun. injection Hrun as <-. destruct (Ho g' eq_refl) as (H1 & H2 & H3). split; auto.
Qed.

(** C20. For every scheme and every sequence of alarms between the calls of the library,
    yields, new threads (fewer than 100, none in front of the running one) and returns
    (a thread calls [gtret] only with -1, as [gtstop] does), no step is undefined or
    fails an assertion: in particular no
    freed stack is run on and no job or stack is freed twice.  The scheduler holds
    exactly the threads that have been started and have not finished, the running
    thread is its head, the stack of a finished thread has been freed or is the one
    kept to be freed next, and main has left [gtret] only when all have finished. *)
Theorem gthreads_correct s g l (Hsession : gt_session s g l) :
  threads_of g ≡ₚ l /\ NoDup l /\
  (forall e, allowed e g -> exists o, gt_step clock e g = Done o) /\
  (currjob g = gtmain \/ head (threads_of g) = Some (currjob g)) /\
  (forall i, 0 <= i < jobcount g -> stack_at (i + 1) ∈ stack_mem g <-> job_at i ∈ l \/ leak_stack g = stack_at (i + 1)) /\
  (exited g = true -> l = []).
Proof.
  destruct (session_inv s g l Hsession) as [Hok Hp He]. pose proof (proj1 Hok) as Hb. split; [done|]. split; [rewrite <- Hp; apply (g_queue g Hb)|].
  split; [intros e Ha; destruct (gt_step_ok e g l Hok Hp Ha) as (o & -> & _); by eexists|].
  split; [destruct (decide (currjob g = gtmain)); [by left|right; by apply current_head]|].
  split; [|intros Hx; apply Permutation_nil; rewrite <- Hp; by rewrite He].
  intros i Hi. rewrite <- Hp. split.
  - intros Hin. destruct (decide (job_at i ∈ threads_of g)) as [|Hn]; [by left|right]. by destruct (g_done g Hb i Hi Hn).
  - intros [Hin|Hl].
    + destruct (g_threads g Hb _ Hin) as (k & c & st & _ & Heq & _ & Hst & _). replace i with k by (unfold job_at in Heq; lia). done.
    + destruct (g_leak g Hb) as [H0|[Hin _]]; [unfold stack_at in Hl; lia|by rewrite Hl in Hin].
Qed.

End Safe.

(** ** Concrete runs, with one second between two readings of the time *)

Definition seconds (n : nat) : Q := inject_Z (Z.of_nat n).

Definition sample_thread : scheduler_info Q := SchedulerInfo (inject_Z 5) (inject_Z 1).

Definition allowed_b (e : gt_event Q) (g : gthreads Q) : bool :=
  match e with
  | Yield sig => negb (sig =? -1)
  | Go _ => (jobcount g <? 99) && (currjob g =? gtmain) && (suspended g =? 0)
  | Ret ret => (currjob g =? gtmain) || (ret =? -1)
  | _ => true
  end.

Fixpoint gt_run (events : list (gt_event Q)) (g : gthreads Q) (l : list Z) : option (gthreads Q * list Z) :=
  match events with
  | [] => Some (g, l)
  | e :: events =>
      match allowed_b e g, gt_step seconds e g with
      | true, Done (Some g') => gt_run events g' (unfinished e g l)
      | _, _ => None
      end
  end.

Lemma allowed_b_ok e g g' : allowed_b e g = true -> allowed e g /\ behind e g g'.
Proof.
  destruct e as [|sig|d| |ret]; cbn; intros Ha; try done.
  - split; [|done]. intros ->. done.
  - apply andb_true_iff in Ha as [Ha Hs]. apply andb_true_iff in Ha as [Hj Hc]. split; [lia|]. left. split; [lia|]. left. lia.
  - split; [|done]. apply orb_true_iff in Ha as [Ha|Ha]; [left|right]; lia.
Qed.

Lemma gt_run_session s events g l g' l' : gt_session seconds s g l -> gt_run events g l = Some (g', l') -> gt_session seconds s g' l'.
Proof.
  revert g l. induction events as [|e events IH]; intros g l Hs Hr; cbn [gt_run] in Hr; [by injection Hr as <- <-|].
  destruct (allowed_b e g) eqn:Ha; [|done]. destruct (gt_step seconds e g) as [[g1|]| | |] eqn:E; try done.
  destruct (allowed_b_ok e g g1 Ha) as [H1 H2]. eapply IH; [|exact Hr]. by eapply gt_next.
Qed.

(** Two threads under round robin; alarms switch to main and back, one thread yields, both
    finish, and main exits. *)
Definition sample_events : list (gt_event Q) :=
  [Go sample_thread; Go sample_thread; Ret 0; Alarm; Ret 0; Alarm; Yield 0; Alarm; Ret 0; Stop; Stop; Ret 0].

Definition sample_result : option (gthreads Q * list Z) := gt_run sample_events (gtinit RR) [].

Definition sample_gt : gthreads Q := from_option fst (gtinit RR) sample_result.
Definition sample_left : list Z := from_option snd [] sample_result.

Example sample_result_eval : option_map (fun r => (exited r.1, r.2, currjob r.1)) sample_result = Some (true, [], 1).
Proof. vm_compute. reflexivity. Qed.

Lemma sample_gt_session : gt_session seconds RR sample_gt sample_left.
Proof. apply (gt_run_session RR sample_events (gtinit RR) []); [constructor|vm_compute; reflexivity]. Qed.

Lemma gthreads_correct_witness : threads_of sample_gt ≡ₚ [] /\ leak_stack sample_gt = 0 /\ (stack_at 1 ∉ stack_mem sample_gt).
Proof.
  destruct (gthreads_correct seconds RR sample_gt sample_left sample_gt_session) as (H1 & _ & _ & _ & H5 & H6).
  split; [rewrite H1, H6; [reflexivity|vm_compute; reflexivity]|]. split; [vm_compute; reflexivity|].
  rewrite (H5 0) by (vm_compute; split; congruence). intros [Hin|Hl]; [|vm_compute in Hl; congruence].
  rewrite H6 in Hin by (vm_compute; reflexivity). by apply elem_of_nil in Hin.
Defined.

Definition after (events : list (gt_event Q)) (s : scheme_t) : outcome (option (gthreads Q)) :=
  foldl (fun o e => match o with Done (Some g) => gt_step seconds e g | _ => o end) (Done (Some (gtinit s))) events.

(** A thread that leaves through [gtret] with any other value than -1 goes on and fails
    the assertion behind its yield. *)
Example gtret_zero_aborts : after [Go sample_thread; Ret 0; Ret 0] FCFS = Abort.
Proof. vm_compute. reflexivity. Qed.

(** An alarm in the middle of [gtgo]: the new thread is scheduled before its context is
    filled in. *)
Example alarm_in_gtgo : (let! (_, g) := gtgo_register seconds sample_thread (gtinit FCFS) in gtdoyield seconds SIGALRM g) = Undef.
Proof. vm_compute. reflexivity. Qed.

(** The hundredth thread gets the stack behind the end of the array. *)
Example hundredth_thread : after (replicate 100 (Go sample_thread)) FCFS = Undef.
Proof. vm_compute. reflexivity. Qed.

(** Under round robin a thread that has been preempted once starts another, which gets in
    front of it; when it returns, the other one is taken off the queue instead. *)
Example starts_in_front : after [Go sample_thread; Ret 0; Alarm; Ret 0; Go sample_thread; Stop] RR = Undef.
Proof. vm_compute. reflexivity. Qed.
