(* ===== verification/Dd.v ===== *)
(** * [deepfried_dd/dd.c]

    The options, the seeks and the copy loop.  A file opened for reading is its
    contents and a position; the output is a file opened with "w+", which
    a write behind the end fills with zeros up to its position, or standard output.
    The file system is the class [DdFiles].  Opening an output empties its file, the
    input too when it is the same file, opened before or after; such an input is at
    its end at the first read, so what is written is never read back.  [signals] says for each round of the loop
    whether [SIGUSR1] has arrived; a report is the five counters, its time is left
    out. *)

From S2P Require Import Prelude CString.
Open Scope Z_scope.

Class DdFiles := {
  can_create : list Z -> bool;
  contents : list Z -> option (list Z);
  (* the file that a name is for *)
  file_id : list Z -> Z;
}.

(** Standard input and output are marked, since they are not positioned. *)
Record reading := Reading { is_stdin : bool; bytes : list Z; in_pos : Z }.
Record writing := Writing { is_stdout : bool; written : list Z; out_pos : Z }.

Record report := Report { full_in : Z; partial_in : Z; full_out : Z; partial_out : Z; copied : Z }.

Record dd_state := DdState {
  input : reading;
  output : writing;
  block_size : Z;
  block_count : Z;
  p_blocks : Z;
  k_blocks : Z;
  full_blocks_in : Z;
  partial_blocks_in : Z;
  full_blocks_out : Z;
  partial_blocks_out : Z;
  total_bytes_copied : Z;
  reports : list report;
  (* the file [input] reads, if not standard input, and those opened as outputs *)
  in_file : option Z;
  emptied : list Z;
}.

Definition set_default_params (stdin : list Z) : dd_state :=
  DdState (Reading true stdin 0) (Writing true [] 0) 512 (u64 (-1)) 0 0 0 0 0 0 0 [] None [].

Definition set_files (i : reading) (o : writing) (s : dd_state) : dd_state :=
  DdState i o (block_size s) (block_count s) (p_blocks s) (k_blocks s) (full_blocks_in s) (partial_blocks_in s)
    (full_blocks_out s) (partial_blocks_out s) (total_bytes_copied s) (reports s) (in_file s) (emptied s).

Definition set_opened (i : option Z) (e : list Z) (s : dd_state) : dd_state :=
  DdState (input s) (output s) (block_size s) (block_count s) (p_blocks s) (k_blocks s) (full_blocks_in s) (partial_blocks_in s)
    (full_blocks_out s) (partial_blocks_out s) (total_bytes_copied s) (reports s) i e.

Definition set_sizes (b c p k : Z) (s : dd_state) : dd_state :=
  DdState (input s) (output s) b c p k (full_blocks_in s) (partial_blocks_in s) (full_blocks_out s) (partial_blocks_out s)
    (total_bytes_copied s) (reports s) (in_file s) (emptied s).

(** ** The options [getopt] finds, in order; [Abort] is [exit(1)] *)

Definition parse_option {F : DdFiles} (c : Z) (optarg : list Z) (s : dd_state) : outcome dd_state :=
  if c =? 105 then
    match (if bool_decide (file_id optarg ∈ emptied s) then Some [] else contents optarg) with
    | None => Abort
    | Some b => Done (set_opened (Some (file_id optarg)) (emptied s) (set_files (Reading false b 0) (output s) s))
    end
  else if c =? 111 then
    if can_create optarg then
      let i := if bool_decide (in_file s = Some (file_id optarg)) then Reading (is_stdin (input s)) [] (in_pos (input s)) else input s in
      Done (set_opened (in_file s) (file_id optarg :: emptied s) (set_files i (Writing false [] 0) s))
    else Abort
  else if c =? 98 then let! n := atoi optarg in Done (set_sizes (u64 n) (block_count s) (p_blocks s) (k_blocks s) s)
  else if c =? 99 then let! n := atoi optarg in Done (set_sizes (block_size s) (u64 n) (p_blocks s) (k_blocks s) s)
  else if c =? 112 then let! n := atoi optarg in Done (set_sizes (block_size s) (block_count s) (u64 n) (k_blocks s) s)
  else if c =? 107 then let! n := atoi optarg in Done (set_sizes (block_size s) (block_count s) (p_blocks s) (u64 n) s)
  else Abort.

Fixpoint parse_in {F : DdFiles} (opts : list (Z * list Z)) (s : dd_state) : outcome dd_state :=
  match opts with
  | [] => Done s
  | (c, optarg) :: opts => let! s := parse_option c optarg s in parse_in opts s
  end.

(** ** The copy loop *)

Definition print_rep (s : dd_state) : dd_state :=
  DdState (input s) (output s) (block_size s) (block_count s) (p_blocks s) (k_blocks s) (full_blocks_in s) (partial_blocks_in s)
    (full_blocks_out s) (partial_blocks_out s) (total_bytes_copied s)
    (reports s ++ [Report (full_blocks_in s) (partial_blocks_in s) (full_blocks_out s) (partial_blocks_out s) (total_bytes_copied s)])
    (in_file s) (emptied s).

(** [fread(buf, 1, block_size, in)]. *)
Definition fread (n : Z) (i : reading) : list Z * reading :=
  let got := take (Z.to_nat n) (drop (Z.to_nat (in_pos i)) (bytes i)) in
  (got, Reading (is_stdin i) (bytes i) (in_pos i + Z.of_nat (length got))).

(** [fwrite] at the position of the file. *)
Definition fwrite (buf : list Z) (o : writing) : writing :=
  let pos := Z.to_nat (out_pos o) in
  let before := take pos (written o) ++ replicate (pos - length (written o)) 0 in
  Writing (is_stdout o) (before ++ buf ++ drop (pos + length buf) (written o)) (out_pos o + Z.of_nat (length buf)).

(** A block that has been written, in the counters. *)
Definition count_block (i : reading) (o : writing) (full : bool) (n : Z) (s : dd_state) : dd_state :=
  let add (b : bool) x := if b then u64 (x + 1) else x in
  DdState i o (block_size s) (block_count s) (p_blocks s) (k_blocks s)
    (add full (full_blocks_in s)) (add (negb full) (partial_blocks_in s))
    (add full (full_blocks_out s)) (add (negb full) (partial_blocks_out s)) (u64 (total_bytes_copied s + n)) (reports s)
    (in_file s) (emptied s).

(** [signals] of the rounds to come; none when the list is used up. *)
Fixpoint run_loop (fuel : nat) (signals : list bool) (blocks_copied : Z) (s : dd_state) : outcome dd_state :=
  match fuel with
  | O => OutOfFuel
  | S fuel =>
      let s := match signals with true :: _ => print_rep s | _ => s end in
      let (buf, i) := fread (block_size s) (input s) in
      match buf with
      | [] => Done (set_files i (output s) s)
      | _ =>
          let n := Z.of_nat (length buf) in
          let o := fwrite buf (output s) in
          if 2147483647 <=? blocks_copied then Undef
          else
            let blocks_copied := blocks_copied + 1 in
            if negb (block_size s =? n) then Done (count_block i o false n s)
            else if block_count s =? blocks_copied then Done (count_block i o true n s)
            else run_loop fuel (tail signals) blocks_copied (count_block i o true n s)
      end
  end.

(** An array of length 0, or larger than any object, is undefined. *)
Definition run_dd (fuel : nat) (signals : list bool) (s : dd_state) : outcome dd_state :=
  if (block_size s =? 0) || (9223372036854775808 <=? block_size s) then Undef else run_loop fuel signals 0 s.

(** ** [main] *)

(** A negative offset makes [fseek] fail. *)
Definition seek_in (s : dd_state) : outcome dd_state :=
  let in_off := s64 (u64 (p_blocks s * block_size s)) in
  if negb (is_stdin (input s)) && negb (in_off =? 0) then
    if in_off <? 0 then Abort else Done (set_files (Reading false (bytes (input s)) in_off) (output s) s)
  else Done s.

Definition seek_out (s : dd_state) : outcome dd_state :=
  let out_off := s64 (u64 (k_blocks s * block_size s)) in
  if negb (is_stdout (output s)) && negb (out_off =? 0) then
    if out_off <? 0 then Abort else Done (set_files (input s) (Writing false (written (output s)) out_off) s)
  else Done s.

Definition dd {F : DdFiles} (fuel : nat) (signals : list bool) (opts : list (Z * list Z)) (stdin : list Z) : outcome dd_state :=
  let! s := parse_in opts (set_default_params stdin) in
  let! s := seek_in s in
  let! s := seek_out s in
  let! s := run_dd fuel signals s in
  Done (print_rep s).
