(* ===== verification/DdSpec.v ===== *)
(** * [dd] copies exactly the bytes asked for

    From the offset in the input to the number of blocks or the end, behind a gap of
    zeros in the output; the counters are those of the bytes copied, whatever
    signals arrive, and enough fuel is one round per block and one more. *)

From S2P Require Import Prelude CString Dd.
Open Scope Z_scope.

(** A state the options leave: nothing has been copied yet. *)
Record parsed (s : dd_state) : Prop := Parsed {
  parsed_in : in_pos (input s) = 0;
  parsed_out : written (output s) = [] /\ out_pos (output s) = 0;
  parsed_full : full_blocks_in s = 0 /\ full_blocks_out s = 0;
  parsed_partial : partial_blocks_in s = 0 /\ partial_blocks_out s = 0;
  parsed_total : total_bytes_copied s = 0;
  parsed_reports : reports s = [];
  parsed_sizes : 0 <= block_size s /\ 0 <= block_count s < 18446744073709551616 /\ 0 <= p_blocks s /\ 0 <= k_blocks s;
}.

Lemma parse_option_ok {F : DdFiles} c optarg s s' : parsed s -> parse_option c optarg s = Done s' -> parsed s'.
Proof.
  intros [H1 H2 H3 H4 H5 H6 H7] H. unfold parse_option in H. repeat case_match; inv_done; subst; split; cbn; try done;
    repeat match goal with |- context [u64 ?x] => pose proof (u64_range x); generalize dependent (u64 x); intros end; lia.
Qed.

(** ** What the input holds *)

(** The name of the last [-i], and whether an [-o] names the file. *)
Definition last_in (opts : list (Z * list Z)) : option (list Z) :=
  last (omap (fun o => if o.1 =? 105 then Some o.2 else None) opts).

Definition overwritten {F : DdFiles} (name : list Z) (opts : list (Z * list Z)) : bool :=
  existsb (fun o => (o.1 =? 111) && (file_id o.2 =? file_id name)) opts.

(** The bytes [dd] is to copy from: standard input, or the file of the last [-i], which
    is empty when an [-o], before or behind, is for the same file. *)
Definition source {F : DdFiles} (opts : list (Z * list Z)) (stdin : list Z) : list Z :=
  match last_in opts with
  | None => stdin
  | Some name => if overwritten name opts then [] else default [] (contents name)
  end.

Record opened {F : DdFiles} (opts : list (Z * list Z)) (stdin : list Z) (s : dd_state) : Prop := Opened {
  o_source : bytes (input s) = source opts stdin;
  o_stdin : is_stdin (input s) = bool_decide (last_in opts = None);
  o_file : in_file s = file_id <$> last_in opts;
  o_emptied : forall name, bool_decide (file_id name ∈ emptied s) = overwritten name opts;
}.

Lemma last_in_snoc opts c optarg : last_in (opts ++ [(c, optarg)]) = if c =? 105 then Some optarg else last_in opts.
Proof.
  unfold last_in. rewrite omap_app. cbn. destruct (c =? 105); [by rewrite last_snoc|by rewrite app_nil_r].
Qed.

Lemma overwritten_snoc {F : DdFiles} name opts c optarg :
  overwritten name (opts ++ [(c, optarg)]) = overwritten name opts || (c =? 111) && (file_id optarg =? file_id name).
Proof. unfold overwritten. rewrite existsb_app. cbn. by rewrite orb_false_r. Qed.

Lemma opened_same {F : DdFiles} opts stdin c optarg s s' :
  opened opts stdin s -> c <> 105 -> c <> 111 -> input s' = input s -> in_file s' = in_file s -> emptied s' = emptied s ->
  opened (opts ++ [(c, optarg)]) stdin s'.
Proof.
  intros [H1 H2 H3 H4] Hi Ho E1 E2 E3. assert (Hov : forall name, overwritten name (opts ++ [(c, optarg)]) = overwritten name opts).
  { intros name. rewrite overwritten_snoc, (proj2 (Z.eqb_neq c 111)) by done. by rewrite orb_false_r. }
  assert (Hl : last_in (opts ++ [(c, optarg)]) = last_in opts) by (rewrite last_in_snoc, (proj2 (Z.eqb_neq c 105)) by done; done).
  split; rewrite ?E1, ?E2, ?E3, ?Hl; [|done..|intros name; by rewrite Hov].
  rewrite H1. unfold source. rewrite Hl. destruct (last_in opts) as [name|]; [by rewrite Hov|done].
Qed.

Lemma parse_option_opened {F : DdFiles} opts stdin c optarg s s' :
  opened opts stdin s -> parse_option c optarg s = Done s' -> opened (opts ++ [(c, optarg)]) stdin s'.
Proof.
  intros Hop H. pose proof Hop as [H1 H2 H3 H4]. unfold parse_option in H.
  destruct (Z.eqb_spec c 105) as [->|Hi]; [|destruct (Z.eqb_spec c 111) as [->|Ho]].
  - rewrite (H4 optarg) in H.
    assert (Hov : forall name, overwritten name (opts ++ [(105, optarg)]) = overwritten name opts) by (intros; rewrite overwritten_snoc; by rewrite orb_false_r).
    assert (Hs : default [] (if overwritten optarg opts then Some [] else contents optarg) = source (opts ++ [(105, optarg)]) stdin).
    { unfold source. rewrite last_in_snoc. cbn. rewrite Hov. by destruct (overwritten optarg opts). }
    destruct (if overwritten optarg opts then Some [] else contents optarg) as [b|]; [|done]. injection H as <-.
    split; cbn; [done|by rewrite last_in_snoc|by rewrite last_in_snoc|intros name; by rewrite Hov].
  - destruct (can_create optarg); [|done]. injection H as <-.
    assert (Hl : last_in (opts ++ [(111, optarg)]) = last_in opts) by (by rewrite last_in_snoc).
    split; cbn; rewrite ?Hl; [| |done|].
    + rewrite H3. unfold source. rewrite Hl. unfold source in H1. destruct (last_in opts) as [name|]; cbn.
      * rewrite overwritten_snoc. cbn. destruct (Z.eqb_spec (file_id optarg) (file_id name)) as [E|E].
        -- rewrite bool_decide_eq_true_2 by (by rewrite E). by rewrite orb_true_r.
        -- rewrite bool_decide_eq_false_2 by (by intros [= ?]). by rewrite orb_false_r.
      * done.
    + destruct (bool_decide (in_file s = Some (file_id optarg))); exact H2.
    + intros name. rewrite overwritten_snoc, <- H4. cbn. rewrite (bool_decide_ext _ (file_id name = file_id optarg \/ file_id name ∈ emptied s)) by apply elem_of_cons.
      destruct (Z.eqb_spec (file_id optarg) (file_id name)) as [E|E].
      * rewrite bool_decide_eq_true_2 by (by left). by rewrite orb_true_r.
      * rewrite orb_false_r. apply bool_decide_ext. naive_solver.
  - repeat match type of H with (if ?b then _ else _) = _ => destruct b; [apply obind_Done in H as (n & _ & H); simplify_eq; by apply (opened_same opts stdin c optarg s)|] end. done.
Qed.

Lemma parse_in_opened {F : DdFiles} opts : forall pre stdin s s', opened pre stdin s -> parse_in opts s = Done s' -> opened (pre ++ opts) stdin s'.
Proof.
  induction opts as [|[c optarg] opts IH]; intros pre stdin s s' Ho H; cbn [parse_in] in H; [injection H as <-; by rewrite app_nil_r|].
  apply obind_Done in H as (s1 & H1 & H). replace (pre ++ (c, optarg) :: opts) with ((pre ++ [(c, optarg)]) ++ opts) by (by rewrite <- app_assoc).
  apply (IH _ _ s1); [|done]. by eapply parse_option_opened.
Qed.

Lemma defaults_opened {F : DdFiles} stdin : opened [] stdin (set_default_params stdin).
Proof. split; cbn; done. Qed.

Lemma parse_in_ok {F : DdFiles} opts s s' : parsed s -> parse_in opts s = Done s' -> parsed s'.
Proof.
  revert s. induction opts as [|[c optarg] opts IH]; intros s Hs H; cbn in H; [by injection H as <-|].
  apply obind_Done in H as (s1 & H1 & H). eapply IH; [|exact H]. by eapply parse_option_ok.
Qed.

Lemma defaults_parsed stdin : parsed (set_default_params stdin).
Proof. split; cbn; (done || lia). Qed.

Section Copy.

Variables (src : list Z) (bs count : Z) (off : nat) (stdout : bool).
Hypothesis Hbs : 0 < bs.
Hypothesis Hsize : Z.of_nat (length src) `div` bs < 2147483646.
Hypothesis Htotal : Z.of_nat (length src) < 18446744073709551616.
Hypothesis Hcount : 0 <= count.

(** The output when [d] has been written behind the gap. *)
Definition out_of (d : list Z) : writing :=
  Writing stdout (if decide (d = []) then [] else replicate off 0 ++ d) (Z.of_nat (off + length d)).

Lemma fwrite_append d buf : buf <> [] -> fwrite buf (out_of d) = out_of (d ++ buf).
Proof.
  intros Hb. unfold fwrite, out_of. cbn [out_pos written is_stdout]. rewrite Nat2Z.id, (decide_False (P := d ++ buf = [])) by (by destruct d).
  f_equal; [|rewrite length_app; lia]. case_decide as Hd.
  - subst d. cbn [length app]. by rewrite take_nil, drop_nil, app_nil_r, Nat.add_0_r, Nat.sub_0_r.
  - rewrite length_app, length_replicate, Nat.sub_diag. cbn [replicate]. rewrite app_nil_r.
    rewrite take_ge by (rewrite length_app, length_replicate; lia). rewrite drop_ge by (rewrite length_app, length_replicate; lia).
    by rewrite app_nil_r, <- app_assoc.
Qed.

(** What the loop leaves when the bytes copied are [d]. *)
Record copied_all (d : list Z) (s : dd_state) : Prop := CopiedAll {
  all_out : output s = out_of d;
  all_full : full_blocks_in s = Z.of_nat (length d) `div` bs /\ full_blocks_out s = Z.of_nat (length d) `div` bs;
  all_partial : let p := if Z.of_nat (length d) `mod` bs =? 0 then 0 else 1 in partial_blocks_in s = p /\ partial_blocks_out s = p;
  all_total : total_bytes_copied s = Z.of_nat (length d);
}.

(** Before a round: [j] full blocks have been copied. *)
Record copying (j : Z) (s : dd_state) : Prop := Copying {
  c_sizes : block_size s = bs /\ block_count s = count;
  c_in : drop (Z.to_nat (in_pos (input s))) (bytes (input s)) = drop (Z.to_nat (j * bs)) src /\ 0 <= in_pos (input s);
  c_len : j * bs <= Z.of_nat (length src);
  c_all : copied_all (take (Z.to_nat (j * bs)) src) s;
}.

Lemma copying_print j s : copying j s -> copying j (print_rep s).
Proof. intros [H1 H2 H3 [H4 H5 H6 H7]]. split; [done..|]. by split. Qed.

Definition limit (n : list Z) : list Z := if count =? 0 then n else take (Z.to_nat (count * bs)) n.

Lemma take_blocks j s : copying j s -> 0 <= j -> length (take (Z.to_nat (j * bs)) src) = Z.to_nat (j * bs).
Proof. intros H Hj. rewrite length_take. pose proof (c_len _ _ H). lia. Qed.

Lemma run_loop_ok fuel signals j s :
  0 <= j -> (count = 0 \/ j < count) -> copying j s -> Z.of_nat (length src) < (j + Z.of_nat fuel) * bs ->
  exists s', run_loop fuel signals j s = Done s' /\ copied_all (limit src) s'.
Proof.
  revert signals j s. induction fuel as [|fuel IH]; intros signals j s Hj Hjc Hc Hf; [pose proof (c_len _ _ Hc); nia|]. cbn [run_loop].
  set (s1 := match signals with true :: _ => print_rep s | _ => s end).
  assert (Hc1 : copying j s1) by (unfold s1; destruct signals as [|[] ?]; [done|by apply copying_print|done]). clearbody s1. clear Hc s.
  destruct (Hc1) as [[Hb Hn] [Hin Hpos] Hlen Hall]. pose proof (take_blocks j s1 Hc1 Hj) as Htake. destruct Hall as [Ho [Hf1 Hf2] Hp Ht]. rewrite Htake in *.
  rewrite (Z2Nat.id (j * bs)) in * by nia. rewrite Z.div_mul, Z.mod_mul in * by lia. cbn [Z.eqb] in Hp.
  unfold fread. rewrite Hin, Hb. set (buf := take (Z.to_nat bs) (drop (Z.to_nat (j * bs)) src)).
  assert (Hbuf : length buf = Nat.min (Z.to_nat bs) (length src - Z.to_nat (j * bs))) by (unfold buf; by rewrite length_take, length_drop).
  assert (Happ : take (Z.to_nat (j * bs)) src ++ buf = take (Z.to_nat (j * bs) + length buf) src).
  { unfold buf. rewrite take_take_drop. rewrite length_take, length_drop. destruct (decide (Z.to_nat bs <= length src - Z.to_nat (j * bs))%nat).
    - f_equal. lia.
    - rewrite !take_ge by lia. done. }
  assert (Hjbound : j <= Z.of_nat (length src) `div` bs) by (apply Z.div_le_lower_bound; lia).
  destruct buf as [|x buf'] eqn:Ebuf.
  - (* the end of the input, behind full blocks only *)
    cbn in Hbuf. assert (Hend : Z.of_nat (length src) = j * bs) by nia. eexists. split; [done|].
    assert (Hl : limit src = take (Z.to_nat (j * bs)) src).
    { unfold limit. rewrite (take_ge src (Z.to_nat (j * bs))) by lia. destruct (Z.eqb_spec count 0) as [|Hne]; [done|]. apply take_ge. nia. }
    rewrite Hl. split; cbn; rewrite ?Htake, ?Z2Nat.id by nia; [done|by rewrite Z.div_mul by lia|rewrite Z.mod_mul by lia; exact Hp|done].
  - assert (Hne0 : buf <> []) by (by rewrite Ebuf). rewrite <- Ebuf in *. clear Ebuf x buf'. rewrite Ho, fwrite_append, Happ by done.
    rewrite (proj2 (Z.leb_gt _ _)) by lia. rewrite Hn. assert (Hpos1 : (0 < length buf)%nat) by (destruct buf; [done|cbn; lia]).
    destruct (Z.eqb_spec bs (Z.of_nat (length buf))) as [Hfull|Hpart]; cbn [negb].
    + assert (Hj1 : Z.to_nat ((j + 1) * bs) = (Z.to_nat (j * bs) + length buf)%nat) by nia.
      assert (Hnext : copying (j + 1) (count_block (Reading (is_stdin (input s1)) (bytes (input s1)) (in_pos (input s1) + Z.of_nat (length buf)))
        (out_of (take (Z.to_nat (j * bs) + length buf) src)) true (Z.of_nat (length buf)) s1)).
      { split; [done| |lia|].
        - cbn [input count_block in_pos bytes]. split; [|lia]. rewrite Z2Nat.inj_add, Nat2Z.id by lia. rewrite <- drop_drop, Hin, drop_drop. f_equal. lia.
        - rewrite Hj1. assert (Hl : length (take (Z.to_nat (j * bs) + length buf) src) = Z.to_nat ((j + 1) * bs)) by (rewrite length_take; lia).
          split; cbn; rewrite ?Hl, ?Z2Nat.id by nia; [done|rewrite Z.div_mul, Hf1, Hf2 by lia|rewrite Z.mod_mul by lia; exact Hp|rewrite Ht, u64_small by nia; rewrite <- Hfull; lia].
          rewrite !u64_small by (split; [lia|]; apply (Z.le_lt_trans _ (Z.of_nat (length src))); nia). done. }
      destruct (Z.eqb_spec count (j + 1)) as [Heq|Hne].
      * eexists. split; [done|]. unfold limit. rewrite (proj2 (Z.eqb_neq _ _)) by lia. rewrite Heq. apply Hnext.
      * apply IH; [lia|lia|exact Hnext|nia].
    + eexists. split; [done|]. assert (Hshort : (length buf < Z.to_nat bs)%nat) by lia.
      assert (Hend : (Z.to_nat (j * bs) + length buf = length src)%nat) by lia. rewrite Hend, (take_ge src) by lia.
      assert (Hl : limit src = src).
      { unfold limit. destruct (Z.eqb_spec count 0) as [|Hne]; [done|]. apply take_ge. nia. }
      rewrite Hl. assert (Hq : Z.of_nat (length src) `div` bs = j) by (symmetry; apply (Z.div_unique _ _ _ (Z.of_nat (length buf))); lia).
      assert (Hr : Z.of_nat (length src) `mod` bs = Z.of_nat (length buf)) by (symmetry; apply (Z.mod_unique _ _ j); lia).
      split; cbn; rewrite ?Hq, ?Hr; [done|done| |].
      * rewrite (proj2 (Z.eqb_neq _ _)) by lia. destruct Hp as [-> ->]. done.
      * rewrite Ht. rewrite u64_small by lia. lia.
Qed.

End Copy.

(** The bytes the options select of the input. *)
Definition selected (src : list Z) (s : dd_state) : list Z :=
  let from := if is_stdin (input s) then src else drop (Z.to_nat (p_blocks s * block_size s)) src in
  limit (block_size s) (block_count s) from.

Definition gap (s : dd_state) : nat := if is_stdout (output s) then 0 else Z.to_nat (k_blocks s * block_size s).

(** C40. When the options are accepted and the offsets fit, [dd] ends, whenever signals
    arrive, with the selected bytes of its input written behind [-k] blocks of zeros;
    the last report counts the full blocks, the partial one and the bytes.  The input
    is [source]: the file of the last [-i] (empty when it is also an output) or standard
    input.  Selected is from the offset on, [-c] blocks or, for [-c 0] or no [-c], all.
    Nothing at all is written when nothing is selected. *)
Theorem dd_copies {F : DdFiles} fuel signals opts stdin s
    (Hparse : parse_in opts (set_default_params stdin) = Done s)
    (Hbs : 0 < block_size s < 9223372036854775808)
    (Hp : p_blocks s * block_size s < 9223372036854775808) (Hk : k_blocks s * block_size s < 9223372036854775808)
    (Hlen : Z.of_nat (length (bytes (input s))) < 18446744073709551616)
    (Hblocks : Z.of_nat (length (bytes (input s))) `div` block_size s < 2147483646)
    (Hfuel : Z.of_nat (length (bytes (input s))) < Z.of_nat fuel * block_size s) :
  exists s', dd fuel signals opts stdin = Done s' /\
    let sel := selected (source opts stdin) s in
    written (output s') = (if decide (sel = []) then [] else replicate (gap s) 0 ++ sel) /\
    let n := Z.of_nat (length sel) in
    let full := n `div` block_size s in
    let partial := if n `mod` block_size s =? 0 then 0 else 1 in
    last (reports s') = Some (Report full partial full partial n).
Proof.
  destruct (parse_in_ok opts _ s (defaults_parsed stdin) Hparse) as [Hi [Ho1 Ho2] [Hf1 Hf2] [Hq1 Hq2] Ht Hr (Hs1 & Hs2 & Hs3 & Hs4)].
  pose proof (o_source _ _ _ (parse_in_opened opts [] stdin _ s (defaults_opened stdin) Hparse)) as Hsrc. cbn [app] in Hsrc. rewrite <- Hsrc. clear Hsrc.
  unfold dd. rewrite Hparse. cbn [obind]. unfold selected, gap.
  set (from := if is_stdin (input s) then bytes (input s) else drop (Z.to_nat (p_blocks s * block_size s)) (bytes (input s))).
  set (off := if is_stdout (output s) then O else Z.to_nat (k_blocks s * block_size s)).
  assert (Hin : exists i, seek_in s = Done (set_files i (output s) s) /\ 0 <= in_pos i /\ drop (Z.to_nat (in_pos i)) (bytes i) = from).
  { unfold seek_in. rewrite u64_small, s64_small by nia. unfold from. destruct (is_stdin (input s)); cbn [negb andb].
    - exists (input s). split; [by destruct s|]. rewrite Hi. done.
    - destruct (Z.eqb_spec (p_blocks s * block_size s) 0) as [->|Hne]; cbn [negb].
      + exists (input s). split; [by destruct s|]. rewrite Hi. done.
      + rewrite (proj2 (Z.ltb_ge _ _)) by nia. eexists. split; [done|]. cbn. split; [nia|done]. }
  destruct Hin as (i & -> & Hi0 & Hdrop). cbn [obind]. set (s1 := set_files i (output s) s).
  assert (Hout : exists o, seek_out s1 = Done (set_files i o s1) /\ o = out_of off (is_stdout (output s)) []).
  { unfold seek_out, out_of, off. cbn [p_blocks k_blocks block_size output s1 set_files input]. rewrite u64_small, s64_small by nia.
    rewrite decide_True by done. cbn [length]. rewrite Nat.add_0_r. destruct (output s) as [[] w pos]; cbn in *; subst; [by exists (Writing true [] 0)|].
    destruct (Z.eqb_spec (k_blocks s * block_size s) 0) as [->|Hne]; cbn [negb andb].
    - by exists (Writing false [] 0).
    - rewrite (proj2 (Z.ltb_ge _ _)) by nia. eexists. split; [done|]. rewrite Z2Nat.id by nia. done. }
  destruct Hout as (o & -> & ->). cbn [obind]. unfold run_dd. cbn [block_size set_files s1].
  rewrite (proj2 (Z.eqb_neq _ _)), (proj2 (Z.leb_gt _ _)) by lia. cbn [orb].
  assert (Hfrom : Z.of_nat (length from) <= Z.of_nat (length (bytes (input s)))) by (unfold from; destruct (is_stdin _); rewrite ?length_drop; lia).
  assert (Hdiv : Z.of_nat (length from) `div` block_size s <= Z.of_nat (length (bytes (input s))) `div` block_size s) by (apply Z.div_le_mono; lia).
  destruct (run_loop_ok from (block_size s) (block_count s) off (is_stdout (output s)) (proj1 Hbs) ltac:(lia) ltac:(lia) ltac:(lia) fuel signals 0
      (set_files i (out_of off (is_stdout (output s)) []) s1)) as (s' & -> & [Hw [Hg1 Hg2] [Hh1 Hh2] Htot]); [lia|lia| |lia|].
  { split; cbn; [done| |lia|].
    - by rewrite Hdrop.
    - split; cbn; [done|by rewrite Z.div_0_l by lia|by rewrite Z.mod_0_l by lia|done]. }
  cbn [obind]. eexists. split; [done|]. cbn [output print_rep reports]. split; [by rewrite Hw|].
  by rewrite last_snoc, Hg1, Hg2, Hh1, Hh2, Htot.
Qed.

(** ** On a concrete input *)

#[export] Instance sample_files : DdFiles := {|
  can_create _ := true;
  contents _ := Some [1; 2; 3; 4; 5; 6; 7; 8];
  file_id name := match name with x :: _ => x | [] => 0 end;
|}.

(** [-i a -o b -b 2 -c 2 -p 1 -k 1]. *)
Definition sample_options : list (Z * list Z) := [(105, [97]); (111, [98]); (98, [50]); (99, [50]); (112, [49]); (107, [49])].

Definition sample_state : dd_state :=
  DdState (Reading false [1; 2; 3; 4; 5; 6; 7; 8] 0) (Writing false [] 0) 2 2 1 1 0 0 0 0 0 [] (Some 97) [98].

Lemma dd_copies_witness : exists s', dd 5 [false; true] sample_options [] = Done s' /\ written (output s') = [0; 0; 3; 4; 5; 6].
Proof.
  destruct (dd_copies 5 [false; true] sample_options [] sample_state) as (s' & H1 & H2 & _); [reflexivity|(vm_compute; repeat split)..|].
  exists s'. split; [exact H1|exact H2].
Defined.

(** "-c 0" copies the whole input. *)
Example count_zero_copies_all :
  match dd 5 [] [(105, [97]); (99, [48])] [] with Done s => length (written (output s)) = 8%nat | _ => False end.
Proof. vm_compute. reflexivity. Qed.

(** "-i a -o a" empties the file and copies nothing. *)
Example same_file_emptied :
  match dd 5 [] [(105, [97]); (111, [97])] [] with Done s => written (output s) = [] /\ total_bytes_copied s = 0 | _ => False end.
Proof. vm_compute. split; reflexivity. Qed.
