(* ===== verification/Chatroom.v ===== *)
(** * [charming_chatroom/]: the server's threads and the client's loops

    [server.c] has a main thread that accepts connections and one thread per client
    ([process_client]) that reads messages and broadcasts them under a mutex.
    [chat_step] is one step of one of them: a thread is interleaved with the others
    between two calls of [utils.c] and wherever it takes the mutex.  A connection is a
    [socket] of [Sockets]; [conns] maps the open file descriptors to theirs, and a
    call on a closed descriptor fails.  The client's two loops are functions of the
    socket and of the lines typed. *)

From stdpp Require Import gmap.
From S2P Require Import Prelude CString Sockets.
Open Scope Z_scope.

Definition MAX_CLIENTS : nat := 8.

(** ** The server *)

(** [process_client]: at the test of the loop with [retval], about to read a size, a
    body of the given size, about to lock, at client [i] about to write the size or
    the body, about to close, about to lock and leave, returned. *)
Inductive client_thread :=
| P_loop (retval : Z)
| P_size
| P_body (retval : Z)
| P_lock (buffer : list Z) (retval : Z)
| P_write (buffer : list Z) (retval : Z) (i : nat)
| P_write_body (buffer : list Z) (retval : Z) (i : nat)
| P_close
| P_leave
| P_gone.

(** [run_server]: at the test of its loop, in [accept], about to lock with a new
    connection, and behind [cleanup]. *)
Inductive main_thread := M_loop | M_accept | M_register (client_fd : Z) | M_done.

Record chat := Chat {
  main : main_thread;
  endSession : bool;
  clientsCount : Z;
  clients : list Z;
  mutex : option nat;
  threads : list (nat * client_thread);
  conns : gmap Z socket;
}.

Definition chat_start : chat := Chat M_loop false 0 (replicate MAX_CLIENTS (-1)) None [] ∅.

(** The step of thread [t], a connection or an interruption in [accept], the signal. *)
Inductive chat_event := Thread (t : nat) | Main | Connect (client_fd : Z) (sk : socket) | Interrupted_accept | Sigint.

Definition set_main (m : main_thread) (s : chat) : chat := Chat m (endSession s) (clientsCount s) (clients s) (mutex s) (threads s) (conns s).
Definition set_conns (c : gmap Z socket) (s : chat) : chat := Chat (main s) (endSession s) (clientsCount s) (clients s) (mutex s) (threads s) c.
Definition set_mutex (m : option nat) (s : chat) : chat := Chat (main s) (endSession s) (clientsCount s) (clients s) m (threads s) (conns s).

(** Thread [t], which serves client [id], goes on. *)
Definition move (t id : nat) (p : client_thread) (s : chat) : chat :=
  Chat (main s) (endSession s) (clientsCount s) (clients s) (mutex s) (<[t := (id, p)]> (threads s)) (conns s).

(** The calls of [utils.c] on a descriptor. *)
Definition size_call (fd : Z) (s : chat) : outcome (Z * chat) :=
  match conns s !! fd with
  | None => Done (-1, s)
  | Some sk => let! (r, sk) := get_message_size sk in Done (r, set_conns (<[fd := sk]> (conns s)) s)
  end.

Definition read_call (fd : Z) (buffer : list Z) (count : Z) (s : chat) : outcome (Z * list Z * chat) :=
  match conns s !! fd with
  | None => Done (if 0 <? count then -1 else 0, buffer, s)
  | Some sk => let! (r, b, sk) := read_all_from_socket sk buffer count in Done (r, b, set_conns (<[fd := sk]> (conns s)) s)
  end.

Definition write_size_call (size fd : Z) (s : chat) : outcome (Z * chat) :=
  match conns s !! fd with
  | None => Done (-1, s)
  | Some sk => let! (r, sk) := write_message_size size sk in Done (r, set_conns (<[fd := sk]> (conns s)) s)
  end.

Definition write_call (fd : Z) (buffer : list Z) (count : Z) (s : chat) : outcome (Z * chat) :=
  match conns s !! fd with
  | None => Done (if 0 <? count then -1 else 0, s)
  | Some sk => let! (r, sk) := write_all_to_socket sk buffer count in Done (r, set_conns (<[fd := sk]> (conns s)) s)
  end.

(** The loop of [write_to_clients], at client [i] with the mutex held; the errors it
    prints are left out. *)
Definition write_to_clients (t id : nat) (buffer : list Z) (retval : Z) (i : nat) (s : chat) : outcome chat :=
  if (i <? MAX_CLIENTS)%nat then
    let! fd := deref (clients s !! i) in
    if fd =? -1 then Done (move t id (P_write buffer retval (S i)) s)
    else
      let! (r, s) := write_size_call retval fd s in
      Done (move t id (if 0 <? r then P_write_body buffer retval i else P_write buffer retval (S i)) s)
  else Done (move t id (P_loop retval) (set_mutex None s)).

Definition write_body_to_client (t id : nat) (buffer : list Z) (retval : Z) (i : nat) (s : chat) : outcome chat :=
  let! fd := deref (clients s !! i) in
  let! (_, s) := write_call fd buffer retval s in
  Done (move t id (P_write buffer retval (S i)) s).

(** Leaving: the slot is free again. *)
Definition unregister (t id : nat) (s : chat) : chat :=
  Chat (main s) (endSession s) (s32 (clientsCount s - 1)) (<[id := -1]> (clients s)) (mutex s) (<[t := (id, P_gone)]> (threads s)) (conns s).

(** [None]: the thread has to wait for the mutex or has returned. *)
Definition process_client (t : nat) (s : chat) : outcome (option chat) :=
  match threads s !! t with
  | None => Done None
  | Some (id, p) =>
      match p with
      | P_loop retval => Done (Some (move t id (if (0 <? retval) && negb (endSession s) then P_size else P_close) s))
      | P_size =>
          let! fd := deref (clients s !! id) in
          let! (retval, s) := size_call fd s in
          Done (Some (move t id (if 0 <? retval then P_body retval else P_loop retval) s))
      | P_body n =>
          let! fd := deref (clients s !! id) in
          let! (retval, buffer, s) := read_call fd (replicate (Z.to_nat n) 0) n s in
          Done (Some (move t id (if 0 <? retval then P_lock buffer retval else P_loop retval) s))
      | P_lock buffer retval =>
          match mutex s with
          | None => Done (Some (move t id (P_write buffer retval 0) (set_mutex (Some t) s)))
          | Some _ => Done None
          end
      | P_write buffer retval i => let! s := write_to_clients t id buffer retval i s in Done (Some s)
      | P_write_body buffer retval i => let! s := write_body_to_client t id buffer retval i s in Done (Some s)
      | P_close =>
          let! fd := deref (clients s !! id) in
          Done (Some (move t id P_leave (set_conns (delete fd (conns s)) s)))
      | P_leave => match mutex s with None => Done (Some (unregister t id s)) | Some _ => Done None end
      | P_gone => Done None
      end
  end.

(** The first free slot. *)
Fixpoint free_slot (cs : list Z) : option nat :=
  match cs with
  | [] => None
  | c :: cs => if c =? -1 then Some O else option_map S (free_slot cs)
  end.

(** The section of [run_server] under the mutex; a connection too many is closed. *)
Definition register (client_fd : Z) (s : chat) : chat :=
  if clientsCount s =? Z.of_nat MAX_CLIENTS then set_main M_loop (set_conns (delete client_fd (conns s)) s)
  else
    match free_slot (clients s) with
    | Some id =>
        Chat M_loop (endSession s) (s32 (clientsCount s + 1)) (<[id := client_fd]> (clients s)) (mutex s) (threads s ++ [(id, P_loop 1)]) (conns s)
    | None => Chat M_loop (endSession s) (s32 (clientsCount s + 1)) (clients s) (mutex s) (threads s) (conns s)
    end.

(** [cleanup]: shuts down and closes every client. *)
Definition cleanup (s : chat) : chat :=
  set_main M_done (set_conns (foldr (fun fd m => if fd =? -1 then m else delete fd m) (conns s) (clients s)) s).

Definition run_server (s : chat) : outcome (option chat) :=
  match main s with
  | M_loop => Done (Some (if endSession s then cleanup s else set_main M_accept s))
  | M_accept => Done None
  | M_register client_fd => Done (match mutex s with None => Some (register client_fd s) | Some _ => None end)
  | M_done => Done None
  end.

Definition close_server (s : chat) : chat := Chat (main s) true (clientsCount s) (clients s) (mutex s) (threads s) (conns s).

(** A new descriptor is one that is not open. *)
Definition chat_step (e : chat_event) (s : chat) : outcome (option chat) :=
  match e with
  | Thread t => process_client t s
  | Main => run_server s
  | Connect client_fd sk =>
      match main s, conns s !! client_fd with
      | M_accept, None => Done (if 0 <=? client_fd then Some (set_main (M_register client_fd) (set_conns (<[client_fd := sk]> (conns s)) s)) else None)
      | _, _ => Done None
      end
  | Interrupted_accept => Done (match main s with M_accept => Some (cleanup s) | _ => None end)
  | Sigint => Done (Some (close_server s))
  end.

(** ** The client *)

(** [write_to_server] on the lines typed; the loop ends with them or with an error. *)
Fixpoint write_to_server (name : list Z) (lines : list (list Z)) (sk : socket) : outcome socket :=
  match lines with
  | [] => Done sk
  | line :: lines =>
      let! msg := create_message name line in
      let len := Z.of_nat (length (until_zero msg)) + 1 in
      let! (retval, sk) := write_message_size len sk in
      let! (retval, sk) := if 0 <? retval then write_all_to_socket sk msg len else Done (retval, sk) in
      if 0 <? retval then write_to_server name lines sk else Done sk
  end.

(** [read_from_server]: the messages it prints. *)
Fixpoint read_from_server (fuel : nat) (sk : socket) : outcome (list (list Z)) :=
  match fuel with
  | O => OutOfFuel
  | S fuel =>
      let! (retval, sk) := get_message_size sk in
      if 0 <? retval then
        let! (retval, buffer, sk) := read_all_from_socket sk (replicate (Z.to_nat retval) 0) retval in
        if 0 <? retval then
          let! text := deref (cstr_of buffer) in
          let! rest := read_from_server fuel sk in
          Done (until_zero text :: rest)
        else Done []
      else Done []
  end.
