(* ===== verification/ChatroomSpec.v ===== *)
(** * Correctness of the chat room

    In every interleaving the table of clients, the count and the threads agree, and
    the mutex is held exactly by the thread that broadcasts.  As long as no descriptor
    is reused while it is still in the table, all clients hear the same messages in
    the same order, whole, from the moment they join; each client's messages come in
    the order it sent them.  The client's two loops compose with this. *)

From stdpp Require Import gmap.
From S2P Require Import Prelude CString Sockets SocketsSpec Chatroom.
Open Scope Z_scope.

(** ** The table of clients *)

Definition gone (p : client_thread) : bool := match p with P_gone => true | _ => false end.

Definition writing (p : client_thread) : bool := match p with P_write _ _ _ | P_write_body _ _ _ => true | _ => false end.

(** The slots of the threads that have not returned. *)
Definition live (s : chat) : list nat := map fst (filter (fun th => gone th.2 = false) (threads s)).

Record registry (s : chat) : Prop := Registry {
  reg_len : length (clients s) = MAX_CLIENTS;
  reg_nodup : NoDup (live s);
  reg_slots : forall id, id ∈ live s <-> exists c, clients s !! id = Some c /\ c <> -1;
  reg_count : clientsCount s = Z.of_nat (length (live s));
  reg_mutex : forall t, mutex s = Some t <-> exists id p, threads s !! t = Some (id, p) /\ writing p = true;
  reg_main : match main s with M_register fd => 0 <= fd | _ => True end;
}.

Lemma live_bound s : registry s -> (length (live s) <= MAX_CLIENTS)%nat.
Proof.
  intros Hr. replace MAX_CLIENTS with (length (seq 0 MAX_CLIENTS)) by done. apply submseteq_length, NoDup_submseteq; [apply Hr|].
  intros id Hid. apply (reg_slots s Hr) in Hid as (c & Hc & _). apply lookup_lt_Some in Hc. rewrite (reg_len s Hr) in Hc. apply elem_of_seq. lia.
Qed.

Lemma free_slot_spec cs :
  match free_slot cs with
  | Some id => cs !! id = Some (-1)
  | None => forall id c, cs !! id = Some c -> c <> -1
  end.
Proof.
  induction cs as [|c cs IH]; cbn; [done|]. destruct (Z.eqb_spec c (-1)) as [->|Hne]; [done|].
  destruct (free_slot cs) as [id|]; cbn; [done|]. intros [|id] x Hx; cbn in Hx; [by injection Hx as <-|by eapply IH].
Qed.

Lemma free_slot_found s : registry s -> (length (live s) < MAX_CLIENTS)%nat -> exists id, free_slot (clients s) = Some id.
Proof.
  intros Hr Hl. pose proof (free_slot_spec (clients s)) as Hf. destruct (free_slot (clients s)) as [id|]; [by eexists|]. exfalso.
  assert (Hs : seq 0 MAX_CLIENTS ⊆+ live s); [|apply submseteq_length in Hs; rewrite length_seq in Hs; lia].
  apply NoDup_submseteq; [apply NoDup_seq|]. intros id Hid. apply elem_of_seq in Hid. apply (reg_slots s Hr).
  destruct (lookup_lt_is_Some_2 (clients s) id) as [c Hc]; [rewrite (reg_len s Hr); lia|]. exists c. split; [done|]. by eapply Hf.
Qed.

Lemma live_split s l1 l2 id p : threads s = l1 ++ (id, p) :: l2 ->
  live s = map fst (filter (fun th => gone th.2 = false) l1) ++ (if gone p then [] else [id]) ++ map fst (filter (fun th => gone th.2 = false) l2).
Proof. intros Hts. unfold live. rewrite Hts, filter_app, map_app, filter_cons. cbn. by destruct (gone p). Qed.

(** A thread goes on without leaving, and the mutex with it. *)
Lemma registry_move s t id p p' m :
  registry s -> threads s !! t = Some (id, p) -> gone p = false -> gone p' = false ->
  (if writing p then mutex s = Some t else True) ->
  m = (if writing p' then Some t else if writing p then None else mutex s) ->
  (writing p = false -> writing p' = true -> mutex s = None) ->
  registry (move t id p' (set_mutex m s)).
Proof.
  intros [Hlen Hnd Hsl Hcnt Hmu Hma] Ht Hp Hp' Hw Hm Hfree. apply insert_split in Ht as Hsplit. destruct Hsplit as (l1 & l2 & Hts & Hidx & Hins).
  assert (Hlive : live (move t id p' (set_mutex m s)) = live s).
  { rewrite (live_split s l1 l2 id p Hts). rewrite (live_split _ l1 l2 id p'); [by rewrite Hp, Hp'|apply Hins]. }
  split; cbn -[live]; rewrite ?Hlive; try done. intros u. destruct (decide (u = t)) as [->|Hne].
  - rewrite list_lookup_insert_eq by (by eapply lookup_lt_Some). rewrite Hm. split.
    + intros Hmt. exists id, p'. split; [done|]. destruct (writing p'); [done|]. destruct (writing p) eqn:Ewp; [done|].
      apply Hmu in Hmt as (id2 & p2 & Ht2 & Hw2). rewrite Ht in Ht2. injection Ht2 as <- <-. by rewrite Ewp in Hw2.
    + intros (id2 & p2 & [= <- <-] & ->). done.
  - rewrite list_lookup_insert_ne by done. rewrite <- Hmu, Hm. destruct (writing p') eqn:Ew'; [|destruct (writing p) eqn:Ew; [|done]].
    + split; [by intros [= ->]|]. intros Hu. destruct (writing p) eqn:Ew; [rewrite Hw in Hu; by injection Hu as ->|]. rewrite Hfree in Hu; done.
    + split; [done|]. intros Hu. rewrite Hw in Hu. by injection Hu as ->.
Qed.

Lemma registry_conns s c : registry s -> registry (set_conns c s).
Proof. by intros [? ? ? ? ? ?]. Qed.

Lemma registry_unregister s t id : registry s -> threads s !! t = Some (id, P_leave) -> mutex s = None -> registry (unregister t id s).
Proof.
  intros Hr Ht Hm. pose proof (live_bound s Hr) as Hb. destruct Hr as [Hlen Hnd Hsl Hcnt Hmu Hma]. apply insert_split in Ht as Hsplit. destruct Hsplit as (l1 & l2 & Hts & Hidx & Hins).
  pose proof (live_split s l1 l2 id P_leave Hts) as Hl. cbn [gone] in Hl.
  pose proof (live_split (unregister t id s) l1 l2 id P_gone (Hins _)) as Hl'. cbn [gone app] in Hl'.
  assert (Hperm : live s ≡ₚ id :: live (unregister t id s)) by (rewrite Hl, Hl'; by rewrite Permutation_middle).
  assert (Hid : exists c, clients s !! id = Some c /\ c <> -1) by (apply Hsl; rewrite Hperm; by left). destruct Hid as (c & Hc & _).
  rewrite Hperm in Hnd. apply NoDup_cons in Hnd as [Hnin Hnd].
  split; cbn -[live].
  - by rewrite length_insert.
  - done.
  - intros i. destruct (decide (i = id)) as [->|Hne].
    + rewrite list_lookup_insert_eq by (by eapply lookup_lt_Some). split; [done|]. intros (x & [= <-] & Hx). done.
    + rewrite list_lookup_insert_ne by done. rewrite <- Hsl, Hperm, elem_of_cons. naive_solver.
  - rewrite Hperm in Hcnt, Hb. cbn [length] in *. rewrite s32_small; unfold MAX_CLIENTS in *; lia.
  - intros u. rewrite Hmu. destruct (decide (u = t)) as [->|Hne].
    + rewrite list_lookup_insert_eq by (by eapply lookup_lt_Some). rewrite Ht. naive_solver.
    + by rewrite list_lookup_insert_ne by done.
  - done.
Qed.

Lemma registry_register s fd : registry s -> main s = M_register fd -> mutex s = None -> registry (register fd s).
Proof.
  intros Hr Hm Hmu. pose proof (live_bound s Hr) as Hb. pose proof (reg_main s Hr) as Hfd. rewrite Hm in Hfd. unfold register.
  destruct (Z.eqb_spec (clientsCount s) (Z.of_nat MAX_CLIENTS)) as [|Hne]; [by destruct Hr|].
  destruct (free_slot_found s Hr) as [id Hid]; [rewrite (reg_count s Hr) in Hne; lia|]. pose proof (free_slot_spec (clients s)) as Hf. rewrite Hid in *.
  destruct Hr as [Hlen Hnd Hsl Hcnt Hmut Hma].
  assert (Hnin : id ∉ live s) by (intros Hin; apply Hsl in Hin as (c & Hc & Hx); congruence).
  set (s' := Chat _ _ _ _ _ _ _). assert (Hlive : live s' = live s ++ [id]) by (unfold live, s'; cbn; by rewrite filter_app, map_app).
  split; cbn -[live]; rewrite ?Hlive.
  - by rewrite length_insert.
  - apply NoDup_app. split; [done|]. split; [by intros x Hx ->%list_elem_of_singleton|]. apply NoDup_singleton.
  - intros i. rewrite elem_of_app, list_elem_of_singleton. destruct (decide (i = id)) as [->|Hi].
    + rewrite list_lookup_insert_eq by (by eapply lookup_lt_Some). split; [|by right]. intros _. exists fd. split; [done|lia].
    + rewrite list_lookup_insert_ne by done. rewrite <- Hsl. naive_solver.
  - rewrite length_app, Hcnt. cbn. rewrite s32_small; unfold MAX_CLIENTS in *; lia.
  - intros t. rewrite Hmut. split.
    + intros (i & p & Ht & Hw). exists i, p. split; [|done]. by apply lookup_app_l_Some.
    + intros (i & p & Ht & Hw). apply lookup_app_Some in Ht as [Ht|[_ Ht]]; [by exists i, p|]. apply list_lookup_singleton_Some in Ht as [_ [= <- <-]]. done.
  - done.
Qed.

Lemma chat_eta s : set_conns (conns s) s = s /\ set_mutex (mutex s) s = s.
Proof. by destruct s. Qed.

(** A thread goes on and neither takes nor leaves the mutex. *)
Lemma registry_stay s t id p p' c :
  registry s -> threads s !! t = Some (id, p) -> gone p = false -> gone p' = false -> writing p' = writing p -> registry (move t id p' (set_conns c s)).
Proof.
  intros Hr Ht Hp Hp' Hw. replace (move t id p' (set_conns c s)) with (move t id p' (set_mutex (mutex s) (set_conns c s))) by (by destruct s).
  assert (Hmu : writing p = true -> mutex s = Some t) by (intros; apply (reg_mutex s Hr); by exists id, p).
  eapply registry_move; [by apply registry_conns|exact Ht|done|done| | |]; cbn.
  - destruct (writing p); auto.
  - rewrite Hw. destruct (writing p); auto.
  - rewrite Hw. congruence.
Qed.

(** The calls change the connections only. *)
Lemma size_call_conns fd s r s' : size_call fd s = Done (r, s') -> exists c, s' = set_conns c s.
Proof. unfold size_call. destruct (conns s !! fd); intros H; [inv_done; destruct r0; simplify_eq; by eexists|]. simplify_eq. exists (conns s'). by destruct s'. Qed.

Lemma read_call_conns fd b n s r b' s' : read_call fd b n s = Done (r, b', s') -> exists c, s' = set_conns c s.
Proof. unfold read_call. destruct (conns s !! fd); intros H; [inv_done; destruct r0 as [[] ?]; simplify_eq; by eexists|]. simplify_eq. exists (conns s'). by destruct s'. Qed.

Lemma write_size_call_conns n fd s r s' : write_size_call n fd s = Done (r, s') -> exists c, s' = set_conns c s.
Proof. unfold write_size_call. destruct (conns s !! fd); intros H; [inv_done; destruct r0; simplify_eq; by eexists|]. simplify_eq. exists (conns s'). by destruct s'. Qed.

Lemma write_call_conns fd b n s r s' : write_call fd b n s = Done (r, s') -> exists c, s' = set_conns c s.
Proof. unfold write_call. destruct (conns s !! fd); intros H; [inv_done; destruct r0; simplify_eq; by eexists|]. simplify_eq. exists (conns s'). by destruct s'. Qed.

Lemma registry_thread t s s' : registry s -> process_client t s = Done (Some s') -> registry s'.
Proof.
  intros Hr. unfold process_client. destruct (threads s !! t) as [[id p]|] eqn:Ht; [|done].
  assert (Hstay : forall p' c, gone p = false -> gone p' = false -> writing p' = writing p -> registry (move t id p' (set_conns c s))) by (intros; by eapply registry_stay).
  assert (Hsame : forall p', gone p = false -> gone p' = false -> writing p' = writing p -> registry (move t id p' s)).
  { intros p' H1 H2 H3. rewrite <- (proj1 (chat_eta s)). by apply Hstay. }
  destruct p as [retval| |n|buffer retval|buffer retval i|buffer retval i| | |]; intros H.
  - simplify_eq. apply Hsame; by repeat case_match.
  - apply obind_Done in H as (fd & _ & H). apply obind_Done in H as ([r s1] & Hc & H). simplify_eq. apply size_call_conns in Hc as [c ->]. apply Hstay; by destruct (0 <? r).
  - apply obind_Done in H as (fd & _ & H). apply obind_Done in H as ([[r b] s1] & Hc & H). simplify_eq. apply read_call_conns in Hc as [c ->]. apply Hstay; by destruct (0 <? r).
  - destruct (mutex s) eqn:Hm; simplify_eq. by eapply registry_move.
  - apply obind_Done in H as (s1 & H & Heq). simplify_eq. unfold write_to_clients in H. destruct (_ <? _)%nat.
    + apply obind_Done in H as (fd & _ & H). destruct (fd =? -1); [simplify_eq; by apply Hsame|].
      apply obind_Done in H as ([r s2] & Hc & H). simplify_eq. apply write_size_call_conns in Hc as [c ->]. apply Hstay; by destruct (0 <? r).
    + simplify_eq. eapply registry_move; try done. cbn. apply (reg_mutex s Hr). by eexists _, _.
  - apply obind_Done in H as (s1 & H & Heq). simplify_eq. unfold write_body_to_client in H.
    apply obind_Done in H as (fd & _ & H). apply obind_Done in H as ([r s2] & Hc & H). simplify_eq. apply write_call_conns in Hc as [c ->]. by apply Hstay.
  - apply obind_Done in H as (fd & _ & H). simplify_eq. by apply Hstay.
  - destruct (mutex s) eqn:Hm; simplify_eq. by apply registry_unregister.
  - done.
Qed.

Lemma registry_step e s s' : registry s -> chat_step e s = Done (Some s') -> registry s'.
Proof.
  intros Hr H. destruct e as [t| |fd sk| |]; cbn [chat_step] in H.
  - by eapply registry_thread.
  - unfold run_server in H. destruct (main s) as [| |fd|] eqn:Hm; try done.
    + destruct (endSession s); simplify_eq; by destruct Hr.
    + destruct (mutex s) eqn:Hmu; simplify_eq. by apply registry_register.
  - destruct (main s); try done. destruct (conns s !! fd); try done. destruct (Z.leb_spec 0 fd); simplify_eq. destruct Hr. by split.
  - destruct (main s); simplify_eq. by destruct Hr.
  - simplify_eq. by destruct Hr.
Qed.

Lemma registry_start : registry chat_start.
Proof.
  split; cbn; try done; [apply NoDup_nil_2| |].
  - intros id. split; [by intros ?%not_elem_of_nil|]. intros (c & Hc & Hne). apply (lookup_replicate_1 8 (-1)) in Hc as [-> _]. done.
  - intros t. split; [done|]. by intros (id & p & Hl & _).
Qed.

Definition chat_steps (s s' : chat) : Prop := exists e, chat_step e s = Done (Some s').

Lemma registry_reachable s : rtc chat_steps chat_start s -> registry s.
Proof.
  revert s. apply (rtc_ind_r registry chat_start); [apply registry_start|]. intros s s' _ [e He] IH. by eapply registry_step.
Qed.

(** Whatever the threads, the connections and the signal do, the count is the number
    of threads serving a client, each with a slot of its own, and the occupied slots
    are theirs; it never exceeds 8, a new client always finds a slot when it is less,
    and the mutex is held exactly by the thread inside a broadcast, which never has
    to wait. *)
Theorem chat_registry s (Hreach : rtc chat_steps chat_start s) :
  clientsCount s = Z.of_nat (length (live s)) /\ (length (live s) <= MAX_CLIENTS)%nat /\ NoDup (live s) /\
  (forall id, id ∈ live s <-> exists c, clients s !! id = Some c /\ c <> -1) /\
  (clientsCount s < 8 -> exists id, free_slot (clients s) = Some id) /\
  (forall t, mutex s = Some t <-> exists id p, threads s !! t = Some (id, p) /\ writing p = true) /\
  (forall t, mutex s = Some t -> process_client t s <> Done None).
Proof.
  pose proof (registry_reachable s Hreach) as Hr. pose proof (live_bound s Hr) as Hb. pose proof (free_slot_found s Hr) as Hf.
  destruct Hr as [Hlen Hnd Hsl Hcnt Hmu _]. split; [done|]. split; [done|]. split; [done|]. split; [done|]. split; [intros; apply Hf; unfold MAX_CLIENTS; lia|]. split; [done|].
  intros t Ht H. apply Hmu in Ht as (id & p & Ht & Hw). unfold process_client in H. rewrite Ht in H.
  destruct p; try done; by apply obind_Done in H as (s1 & _ & ?).
Qed.

(** ** Messages on the wire *)

(** No call fails for good: only short transfers and interruptions. *)
Definition calm (sch : list event) : Prop := (Fail_call ∉ sch) /\ (Nothing ∉ sch).

Definition message (m : list Z) : Prop := m <> [] /\ Z.of_nat (length m) < 2147483648.

Definition size_bytes (m : list Z) : list Z := le32 (htonl (Z.of_nat (length m))).

Definition frame (m : list Z) : list Z := size_bytes m ++ m.

Definition frames (ms : list (list Z)) : list Z := concat (map frame ms).

Lemma frames_app a b : frames (a ++ b) = frames a ++ frames b.
Proof. unfold frames. by rewrite map_app, concat_app. Qed.

Lemma frames_one m : frames [m] = frame m.
Proof. unfold frames. cbn [map concat]. apply app_nil_r. Qed.

Lemma frames_cons m ms : frames (m :: ms) = frame m ++ frames ms.
Proof. done. Qed.

Lemma message_pos m : message m -> 0 < Z.of_nat (length m) < 2147483648.
Proof. intros [Hm Hl]. destruct m; [done|]. cbn in *. lia. Qed.

Lemma calm_sub s s' : calm s -> s' ⊆ s -> calm s'.
Proof. intros [H1 H2] Hs. split; intros Hin; [by apply H1, Hs|by apply H2, Hs]. Qed.

Lemma chat_read_ok sk buffer count : calm (schedule sk) -> 0 <= count < 2147483648 -> length buffer = Z.to_nat count ->
  let k := Nat.min (Z.to_nat count) (length (incoming sk)) in
  exists sch, read_all_from_socket sk buffer count = Done (Z.of_nat k, take k (incoming sk) ++ drop k buffer, Socket (drop k (incoming sk)) (outgoing sk) sch) /\ calm sch.
Proof.
  intros Hs Hc Hb k. unfold read_all_from_socket, read_from_socket.
  destruct (socket_read_loop_ok (length (schedule sk) + 3) sk buffer 0 count) as [(b & sk' & _ & Hf)|(sch & Hsub & Hrun)]; [lia|lia|lia| | |].
  { unfold calls_left. destruct (decide _); lia. }
  { by destruct (proj1 Hs). }
  exists sch. split; [|by eapply calm_sub]. rewrite Hrun, Z.sub_0_r. done.
Qed.

Lemma chat_write_ok sk bs n : calm (schedule sk) -> 0 <= n < 2147483648 -> (Z.to_nat n <= length bs)%nat ->
  exists sch, write_all_to_socket sk bs n = Done (n, Socket (incoming sk) (outgoing sk ++ take (Z.to_nat n) bs) sch) /\ calm sch.
Proof.
  intros Hs Hn Hl. unfold write_all_to_socket, write_to_socket.
  destruct (socket_write_loop_ok (length (schedule sk) + 2) sk bs 0 n) as (r & k & sch & -> & Hk & Hsub & Hr); [lia|lia|lia| |].
  { destruct (decide _); lia. }
  exists sch. split; [|by eapply calm_sub]. unfold sent. rewrite drop_0.
  destruct Hr as [[_ Hf]|[-> [Hr|Hno]]]; [by destruct (proj1 Hs)| |by destruct (proj2 Hs)].
  rewrite <- Hr, Z.add_0_l, Nat2Z.id. done.
Qed.

Lemma htonl_range x : 0 <= htonl x < 4294967296.
Proof.
  unfold htonl, le32, le32_value. cbn [rev app].
  pose proof (Z.mod_pos_bound x 256). pose proof (Z.mod_pos_bound (x / 256) 256). pose proof (Z.mod_pos_bound (x / 65536) 256). pose proof (Z.mod_pos_bound (x / 16777216) 256). lia.
Qed.

Lemma get_size_frame m rest out sch : calm sch -> message m ->
  exists sch', get_message_size (Socket (frame m ++ rest) out sch) = Done (Z.of_nat (length m), Socket (m ++ rest) out sch') /\ calm sch'.
Proof.
  intros Hs Hm. pose proof (message_pos m Hm) as Hp. unfold get_message_size, MESSAGE_SIZE_DIGITS, frame.
  destruct (chat_read_ok (Socket ((size_bytes m ++ m) ++ rest) out sch) [0; 0; 0; 0] 4) as (sch' & -> & Hs'); [done|lia|done|]. cbn [incoming obind outgoing].
  assert (Hl : length (size_bytes m) = 4%nat) by done. rewrite <- app_assoc. replace (Z.to_nat 4 `min` length (size_bytes m ++ m ++ rest))%nat with 4%nat by (rewrite length_app; lia).
  rewrite take_app_length' by done. rewrite drop_app_length' by done. rewrite (drop_ge [0; 0; 0; 0]) by (cbn; lia). rewrite app_nil_r. change (Z.of_nat 4) with 4. cbn [Z.eqb orb Z.ltb Z.compare Pos.compare Pos.compare_cont].
  exists sch'. split; [|done]. unfold size_bytes. rewrite le32_value_round by (pose proof (htonl_range (Z.of_nat (length m))); lia). rewrite htonl_htonl by lia. done.
Qed.

Lemma get_size_end out sch : calm sch -> exists sch', get_message_size (Socket [] out sch) = Done (0, Socket [] out sch') /\ calm sch'.
Proof.
  intros Hs. unfold get_message_size, MESSAGE_SIZE_DIGITS.
  destruct (chat_read_ok (Socket [] out sch) [0; 0; 0; 0] 4) as (sch' & -> & Hs'); [done|lia|done|]. cbn. by exists sch'.
Qed.

Lemma get_body m rest out sch : calm sch -> message m ->
  exists sch', read_all_from_socket (Socket (m ++ rest) out sch) (replicate (Z.to_nat (Z.of_nat (length m))) 0) (Z.of_nat (length m))
    = Done (Z.of_nat (length m), m, Socket rest out sch') /\ calm sch'.
Proof.
  intros Hs Hm. pose proof (message_pos m Hm) as Hp. rewrite Nat2Z.id.
  destruct (chat_read_ok (Socket (m ++ rest) out sch) (replicate (length m) 0) (Z.of_nat (length m))) as (sch' & -> & Hs'); [done|lia|by rewrite length_replicate, Nat2Z.id|].
  cbn [incoming outgoing]. rewrite Nat2Z.id, length_app, Nat.min_l by lia. rewrite take_app_length, drop_app_length, drop_ge, app_nil_r by (rewrite length_replicate; lia). by exists sch'.
Qed.

Lemma put_size m sk : calm (schedule sk) -> message m ->
  exists sch, write_message_size (Z.of_nat (length m)) sk = Done (4, Socket (incoming sk) (outgoing sk ++ size_bytes m) sch) /\ calm sch.
Proof.
  intros Hs Hm. pose proof (message_pos m Hm) as Hp. unfold write_message_size, MESSAGE_SIZE_DIGITS. rewrite u32_small by lia.
  destruct (chat_write_ok sk (le32 (htonl (Z.of_nat (length m))) ++ [0; 0; 0; 0]) 4) as (sch & -> & Hs'); [done|lia|cbn; lia|]. by exists sch.
Qed.

Lemma put_body m sk : calm (schedule sk) -> message m ->
  exists sch, write_all_to_socket sk m (Z.of_nat (length m)) = Done (Z.of_nat (length m), Socket (incoming sk) (outgoing sk ++ m) sch) /\ calm sch.
Proof.
  intros Hs Hm. pose proof (message_pos m Hm) as Hp. destruct (chat_write_ok sk m (Z.of_nat (length m))) as (sch & -> & Hs'); [done|lia|lia|].
  rewrite Nat2Z.id, take_ge by lia. by exists sch.
Qed.

(** ** The room: what is said, and since when who listens *)

(** [log]: the messages in the order the threads take the mutex to broadcast them;
    per thread what its client sends in all, and how long the log was when it was
    registered. *)
Record room := Room { log : list (nat * list Z); streams : list (list Z); joined : list nat }.

Definition said (l : list (nat * list Z)) (t : nat) : list (list Z) := map snd (filter (fun e => e.1 = t) l).

#[local] Arguments said : simpl never.
#[local] Arguments frames : simpl never.
#[local] Arguments frame : simpl never.

Definition room_step (e : chat_event) (s : chat) (r : room) : room :=
  match e with
  | Thread t =>
      match threads s !! t, mutex s with
      | Some (_, P_lock buffer _), None => Room (log r ++ [(t, buffer)]) (streams r) (joined r)
      | _, _ => r
      end
  | Main =>
      match main s, mutex s with
      | M_register fd, None =>
          if clientsCount s =? Z.of_nat MAX_CLIENTS then r
          else Room (log r) (streams r ++ [from_option incoming [] (conns s !! fd)]) (joined r ++ [length (log r)])
      | _, _ => r
      end
  | _ => r
  end.

(** A client sends whole messages, its socket does not fail, and its descriptor is not
    in the table. *)
Definition polite (e : chat_event) (s : chat) : Prop :=
  match e with
  | Connect fd sk => (fd ∉ clients s) /\ calm (schedule sk) /\ outgoing sk = [] /\ exists ms, Forall message ms /\ incoming sk = frames ms
  | _ => True
  end.

Inductive session : chat -> room -> Prop :=
| session_start : session chat_start (Room [] [] [])
| session_step e s r s' : session s r -> polite e s -> chat_step e s = Done (Some s') -> main s' <> M_done -> session s' (room_step e s r).

(** What the broadcast that is going on has still to send to a slot. *)
Definition owed (s : chat) (id : nat) : list Z :=
  match mutex s with
  | None => []
  | Some t =>
      match threads s !! t with
      | Some (_, P_write b _ i) => if (i <=? id)%nat then frame b else []
      | Some (_, P_write_body b _ i) => if (i <? id)%nat then frame b else if (i =? id)%nat then b else []
      | _ => []
      end
  end.

(** What a thread has read and not logged, [ms] in all with what it has not read. *)
Definition mid (s : chat) (p : client_thread) (inc : list Z) (ms : list (list Z)) : Prop :=
  exists rest, Forall message rest /\
    match p with
    | P_body n => exists m, message m /\ n = Z.of_nat (length m) /\ inc = m ++ frames rest /\ ms = m :: rest
    | P_lock b n => message b /\ n = Z.of_nat (length b) /\ inc = frames rest /\ ms = b :: rest
    | P_write b n _ => message b /\ n = Z.of_nat (length b) /\ inc = frames rest /\ ms = rest
    | P_write_body b n i => message b /\ n = Z.of_nat (length b) /\ inc = frames rest /\ ms = rest /\ exists fd, clients s !! i = Some fd /\ fd <> -1
    | P_loop n => (0 < n \/ rest = []) /\ inc = frames rest /\ ms = rest
    | P_close => (endSession s = true \/ rest = []) /\ inc = frames rest /\ ms = rest
    | _ => inc = frames rest /\ ms = rest
    end.

Inductive serving (s : chat) (r : room) (t id : nat) (p : client_thread) : Prop := Serving fd sk ms j
  (sv_fd : clients s !! id = Some fd) (sv_sk : conns s !! fd = Some sk) (sv_calm : calm (schedule sk))
  (sv_stream : streams r !! t = Some (frames (said (log r) t ++ ms))) (sv_mid : mid s p (incoming sk) ms)
  (sv_joined : joined r !! t = Some j) (sv_j : (j <= length (log r))%nat)
  (sv_out : outgoing sk ++ owed s id = frames (map snd (drop j (log r)))).

(** A client that has been served to the end. *)
Definition finished (s : chat) (r : room) (t : nat) : Prop := endSession s = true \/ streams r !! t = Some (frames (said (log r) t)).

Definition thread_ok (s : chat) (r : room) (t id : nat) (p : client_thread) : Prop :=
  match p with
  | P_gone => finished s r t
  | P_leave => finished s r t /\ exists fd, clients s !! id = Some fd /\ conns s !! fd = None
  | _ => serving s r t id p
  end.

Record in_order (s : chat) (r : room) : Prop := InOrder {
  io_registry : registry s;
  io_len : length (streams r) = length (threads s) /\ length (joined r) = length (threads s);
  io_log : forall e, e ∈ log r -> (e.1 < length (threads s))%nat;
  io_fds : forall i i' fd, clients s !! i = Some fd -> clients s !! i' = Some fd -> fd <> -1 -> i = i';
  io_main : match main s with
    | M_register fd => (fd ∉ clients s) /\ exists sk ms, conns s !! fd = Some sk /\ calm (schedule sk) /\ outgoing sk = [] /\ Forall message ms /\ incoming sk = frames ms
    | M_done => False
    | _ => True
    end;
  io_threads : forall t id p, threads s !! t = Some (id, p) -> thread_ok s r t id p;
}.

(** ** One step of a thread *)

Lemma said_app l news t : said (l ++ news) t = said l t ++ said news t.
Proof. unfold said. by rewrite filter_app, map_app. Qed.

Lemma said_other t u b : u <> t -> said [(u, b)] t = [].
Proof. intros. unfold said. rewrite filter_cons_False; [done|]. cbn. congruence. Qed.

Lemma said_own t b : said [(t, b)] t = [b].
Proof. unfold said. by rewrite filter_cons_True. Qed.

Lemma said_none l u : (forall e, e ∈ l -> e.1 <> u) -> said l u = [].
Proof.
  unfold said. induction l as [|e l IH]; intros Hl; [done|].
  rewrite filter_cons_False by (apply Hl; by left). apply IH. intros x Hx. apply Hl. by right.
Qed.

(** What becomes of the connection of a slot: it hears [x] more, now or later. *)
Definition conn_ok (s s' : chat) (x : list Z) (id : nat) : Prop :=
  forall fd, clients s !! id = Some fd ->
    match conns s !! fd with
    | None => conns s' !! fd = None
    | Some sk => calm (schedule sk) ->
        exists sk', conns s' !! fd = Some sk' /\ calm (schedule sk') /\ incoming sk' = incoming sk /\ outgoing sk' ++ owed s' id = (outgoing sk ++ owed s id) ++ x
    end.

Definition hear (r : room) (news : list (nat * list Z)) : room := Room (log r ++ news) (streams r) (joined r).

Lemma hear_nil r : hear r [] = r.
Proof. destruct r. unfold hear. cbn. by rewrite app_nil_r. Qed.

Lemma serving_step s r s' t id p p' news :
  serving s r t id p -> clients s' = clients s -> conn_ok s s' (frames (map snd news)) id ->
  (forall inc ms, mid s p inc ms -> exists ms', ms = said news t ++ ms' /\ mid s' p' inc ms') -> serving s' (hear r news) t id p'.
Proof.
  intros [fd sk ms j Hfd Hsk Hc Hst Hm Hj Hjl Ho] Hcl Hco Hmid. specialize (Hco fd Hfd). rewrite Hsk in Hco. destruct (Hco Hc) as (sk' & Hsk' & Hc' & Hi & Ho').
  destruct (Hmid _ _ Hm) as (ms' & -> & Hm'). exists fd sk' ms' j; cbn; rewrite ?Hcl; try done.
  - by rewrite said_app, <- app_assoc.
  - by rewrite Hi.
  - rewrite length_app. lia.
  - rewrite Ho', Ho, drop_app_le, map_app, frames_app by done. done.
Qed.

Lemma thread_ok_step s r s' u id q news :
  thread_ok s r u id q -> clients s' = clients s -> endSession s' = endSession s -> conn_ok s s' (frames (map snd news)) id -> said news u = [] ->
  thread_ok s' (hear r news) u id q.
Proof.
  intros Hok Hcl He Hco Hs.
  assert (Hfin : finished s r u -> finished s' (hear r news) u).
  { unfold finished. rewrite He. cbn. by rewrite said_app, Hs, app_nil_r. }
  assert (Hserve : serving s r u id q -> serving s' (hear r news) u id q).
  { intros Hsv. eapply serving_step; [done..|]. intros inc ms Hm. exists ms. rewrite Hs. split; [done|]. unfold mid in *. by rewrite He, Hcl. }
  destruct q; cbn [thread_ok] in *; auto. destruct Hok as [Hf (fd & Hfd & Hc)]. split; [auto|]. exists fd. rewrite Hcl. split; [done|]. specialize (Hco fd Hfd). by rewrite Hc in Hco.
Qed.

Lemma in_order_thread s r s' t id p p' news :
  in_order s r -> threads s !! t = Some (id, p) -> registry s' ->
  main s' = main s -> endSession s' = endSession s -> clients s' = clients s -> threads s' = <[t := (id, p')]> (threads s) ->
  (forall fd, fd ∉ clients s -> conns s' !! fd = conns s !! fd) -> (forall e, e ∈ news -> e.1 = t) ->
  (forall u id' q, u <> t -> threads s !! u = Some (id', q) -> gone q = false -> conn_ok s s' (frames (map snd news)) id') ->
  thread_ok s' (hear r news) t id p' -> in_order s' (hear r news).
Proof.
  intros [Hreg [Hl1 Hl2] Hlog Hfds Hmain Hth] Ht Hreg' Em Ee Ec Et Hcm Hnews Hoth Hown. pose proof (lookup_lt_Some _ _ _ Ht) as Hlt. split; [done|..]; rewrite ?Et, ?length_insert, ?Ec; try done.
  - intros e He. cbn in He. apply elem_of_app in He as [He|He]; [by apply Hlog|]. by rewrite (Hnews e He).
  - rewrite Em. destruct (main s); try done. destruct Hmain as [Hin Hex]. split; [done|]. by rewrite Hcm.
  - intros u id' q Hu. destruct (decide (u = t)) as [->|Hne].
    + rewrite list_lookup_insert_eq in Hu by done. by simplify_eq.
    + rewrite list_lookup_insert_ne in Hu by done.
      assert (Hs : said news u = []) by (apply said_none; intros e He; by rewrite (Hnews e He)).
      destruct (gone q) eqn:Eg; [|apply (thread_ok_step s r); [by apply Hth|done|done|by eapply Hoth|done]].
      destruct q; try done. specialize (Hth _ _ _ Hu). cbn [thread_ok] in *. unfold finished in *. rewrite Ee. cbn. by rewrite said_app, Hs, app_nil_r.
Qed.

Lemma live_elem s id : id ∈ live s <-> exists t p, threads s !! t = Some (id, p) /\ gone p = false.
Proof.
  unfold live. rewrite list_elem_of_fmap. split.
  - intros ([i p] & -> & [Hp Hin]%list_elem_of_filter). apply list_elem_of_lookup in Hin as [t Ht]. by exists t, p.
  - intros (t & p & Ht & Hp). exists (id, p). split; [done|]. apply list_elem_of_filter. split; [done|]. by eapply list_elem_of_lookup_2.
Qed.

Lemma live_inj s t u id p q : registry s -> threads s !! t = Some (id, p) -> threads s !! u = Some (id, q) -> gone p = false -> gone q = false -> u = t.
Proof.
  intros Hr Ht Hu Hp Hq. destruct (decide (u = t)) as [|Hne]; [done|]. exfalso.
  apply insert_split in Ht as Hsp. destruct Hsp as (l1 & l2 & Hts & Hidx & Hins). pose proof (reg_nodup s Hr) as Hnd.
  rewrite (live_split s l1 l2 id p Hts), Hp in Hnd. cbn [app] in Hnd. rewrite <- Permutation_middle in Hnd. apply NoDup_cons in Hnd as [Hnin _]. apply Hnin.
  rewrite <- map_app, <- filter_app. apply list_elem_of_fmap. exists (id, q). split; [done|]. apply list_elem_of_filter. split; [done|].
  rewrite Hts in Hu. apply lookup_app_Some in Hu as [Hu|[Hge Hu]]; apply elem_of_app; [left; by eapply list_elem_of_lookup_2|right].
  destruct (u - length l1)%nat as [|k] eqn:Ek; [lia|]. cbn in Hu. by eapply list_elem_of_lookup_2.
Qed.

Lemma slot_used s t id p : registry s -> threads s !! t = Some (id, p) -> gone p = false -> exists fd, clients s !! id = Some fd /\ fd <> -1.
Proof. intros Hr Ht Hp. apply (reg_slots s Hr), live_elem. by exists t, p. Qed.

Lemma owed_same s s' id : mutex s' = mutex s -> (forall t, mutex s = Some t -> threads s' !! t = threads s !! t) -> owed s' id = owed s id.
Proof. intros Hm Ht. unfold owed. rewrite Hm. destruct (mutex s) as [t|]; [|done]. by rewrite Ht. Qed.

(** Nothing changes for the others when a thread outside a broadcast works on its own
    connection. *)
Lemma quiet_conn s r s' t id p p' fd0 u id' q :
  in_order s r -> threads s !! t = Some (id, p) -> gone p = false -> writing p = false -> clients s !! id = Some fd0 ->
  threads s' = <[t := (id, p')]> (threads s) -> mutex s' = mutex s -> (forall fd, fd <> fd0 -> conns s' !! fd = conns s !! fd) ->
  u <> t -> threads s !! u = Some (id', q) -> gone q = false -> conn_ok s s' [] id'.
Proof.
  intros Hio Ht Hp Hw Hfd0 Et Em Hc Hne Hu Hq fd Hfd. pose proof (io_registry s r Hio) as Hr.
  assert (Hfd1 : fd <> fd0).
  { intros ->. destruct (slot_used s u id' q Hr Hu Hq) as (x & Hx & Hx1). simplify_eq. rewrite (io_fds s r Hio id' id fd0 Hfd Hfd0) in * by done. by apply Hne; eapply live_inj. }
  rewrite Hc by done. destruct (conns s !! fd) as [sk|]; [|done]. intros Hcalm. exists sk. split; [done|]. split; [done|]. split; [done|]. rewrite app_nil_r. f_equal.
  apply owed_same; [done|]. intros h Hh. rewrite Et, list_lookup_insert_ne; [done|]. intros <-. apply (reg_mutex s Hr) in Hh as (i & p0 & H1 & H2). rewrite Ht in H1. injection H1 as <- <-. congruence.
Qed.

Lemma owed_quiet s s' t id p p' i : registry s -> threads s !! t = Some (id, p) -> writing p = false ->
  threads s' = <[t := (id, p')]> (threads s) -> mutex s' = mutex s -> owed s' i = owed s i.
Proof.
  intros Hr Ht Hw Et Em. apply owed_same; [done|]. intros h Hh. rewrite Et, list_lookup_insert_ne; [done|].
  intros <-. apply (reg_mutex s Hr) in Hh as (j & p0 & H1 & H2). rewrite Ht in H1. injection H1 as <- <-. congruence.
Qed.

Definition served (p : client_thread) : bool := match p with P_leave | P_gone => false | _ => true end.

Lemma served_ok s r t id p : served p = true -> thread_ok s r t id p = serving s r t id p.
Proof. by destruct p. Qed.

Lemma served_live p : served p = true -> gone p = false.
Proof. by destruct p. Qed.

(** A step of a thread outside a broadcast that keeps its connection open. *)
Lemma in_order_quiet s r t id p p' fd sk sk' ms j :
  in_order s r -> threads s !! t = Some (id, p) -> served p = true -> served p' = true -> writing p = false -> writing p' = false ->
  clients s !! id = Some fd -> conns s !! fd = Some sk -> streams r !! t = Some (frames (said (log r) t ++ ms)) ->
  joined r !! t = Some j -> (j <= length (log r))%nat -> outgoing sk ++ owed s id = frames (map snd (drop j (log r))) ->
  calm (schedule sk') -> outgoing sk' = outgoing sk -> mid s p' (incoming sk') ms ->
  in_order (move t id p' (set_conns (<[fd := sk']> (conns s)) s)) r.
Proof.
  intros Hio Ht Hp%served_live Hp' Hw Hw' Hfd Hsk Hst Hj Hjl Ho Hcalm Hout Hmid. pose proof (served_live p' Hp') as Hg'. rewrite <- (hear_nil r). set (s' := move _ _ _ _).
  assert (Hreg : registry s') by (eapply registry_stay; [apply Hio|done|done|done|congruence]).
  eapply (in_order_thread s r s' t id p p' []); try done.
  - intros x Hx. cbn. apply lookup_insert_ne. intros <-. apply Hx. by eapply list_elem_of_lookup_2.
  - by intros e ?%not_elem_of_nil.
  - intros u id' q Hne Hu Hq. eapply (quiet_conn s r s' t id p p' fd); try done. intros x Hx. cbn. by apply lookup_insert_ne.
  - rewrite served_ok, hear_nil by done. apply (Serving _ _ _ _ _ fd sk' ms j); try done.
    + cbn. apply lookup_insert_eq.
    + rewrite Hout, (owed_quiet s s' t id p p') by (done || apply Hio). done.
Qed.

(** The same when nothing happens to the connection. *)
Lemma in_order_same s r t id p p' :
  in_order s r -> threads s !! t = Some (id, p) -> served p = true -> served p' = true -> writing p = false -> writing p' = false ->
  (forall inc ms, mid s p inc ms -> mid s p' inc ms) -> in_order (move t id p' s) r.
Proof.
  intros Hio Ht Hp Hp' Hw Hw' Hmid. pose proof (io_threads s r Hio t id p Ht) as Hsv. rewrite served_ok in Hsv by done.
  destruct Hsv as [fd sk ms j Hfd Hsk Hc Hst Hm Hj Hjl Ho].
  assert (H : in_order (move t id p' (set_conns (<[fd := sk]> (conns s)) s)) r) by (eapply in_order_quiet; eauto).
  rewrite insert_id in H by done. by rewrite (proj1 (chat_eta s)) in H.
Qed.

Lemma reads_size s r t id : in_order s r -> threads s !! t = Some (id, P_size) ->
  exists fd n s', clients s !! id = Some fd /\ size_call fd s = Done (n, s') /\ in_order (move t id (if 0 <? n then P_body n else P_loop n) s') r.
Proof.
  intros Hio Ht. pose proof (io_threads s r Hio t id _ Ht) as Hsv. rewrite served_ok in Hsv by done.
  destruct Hsv as [fd sk ms j Hfd Hsk Hc Hst Hm Hj Hjl Ho]. destruct Hm as (rest & Hrest & Hinc & ->). exists fd.
  unfold size_call. rewrite Hsk. destruct sk as [inc out sch]. cbn [incoming schedule outgoing] in *. subst inc. destruct rest as [|m rest].
  - destruct (get_size_end out sch Hc) as (sch' & Hrun & Hc'). change (frames []) with (@nil Z) in *. rewrite Hrun. cbn [obind]. eexists _, _. split; [done|]. split; [done|].
    cbn [Z.ltb Z.compare]. eapply in_order_quiet; eauto. exists []. split; [done|]. auto.
  - apply Forall_cons in Hrest as [Hm Hrest]. pose proof (message_pos m Hm) as Hpos. rewrite frames_cons in *.
    destruct (get_size_frame m (frames rest) out sch Hc Hm) as (sch' & Hrun & Hc'). rewrite Hrun. cbn [obind]. eexists _, _. split; [done|]. split; [done|].
    rewrite (proj2 (Z.ltb_lt _ _)) by lia. eapply in_order_quiet; eauto. exists rest. split; [done|]. exists m. auto.
Qed.

Lemma reads_body s r t id n : in_order s r -> threads s !! t = Some (id, P_body n) ->
  exists fd n' b s', clients s !! id = Some fd /\ read_call fd (replicate (Z.to_nat n) 0) n s = Done (n', b, s') /\
    in_order (move t id (if 0 <? n' then P_lock b n' else P_loop n') s') r.
Proof.
  intros Hio Ht. pose proof (io_threads s r Hio t id _ Ht) as Hsv. rewrite served_ok in Hsv by done.
  destruct Hsv as [fd sk ms j Hfd Hsk Hc Hst Hm Hj Hjl Ho]. destruct Hm as (rest & Hrest & m & Hm & -> & Hinc & ->). exists fd. pose proof (message_pos m Hm) as Hpos.
  unfold read_call. rewrite Hsk. destruct sk as [inc out sch]. cbn [incoming schedule outgoing] in *. subst inc.
  destruct (get_body m (frames rest) out sch Hc Hm) as (sch' & Hrun & Hc'). rewrite Hrun. cbn [obind]. eexists _, _, _. split; [done|]. split; [done|].
  rewrite (proj2 (Z.ltb_lt _ _)) by lia. eapply in_order_quiet; eauto. exists rest. split; [done|]. auto.
Qed.

Lemma goes_on s r t id n : in_order s r -> threads s !! t = Some (id, P_loop n) ->
  in_order (move t id (if (0 <? n) && negb (endSession s) then P_size else P_close) s) r.
Proof.
  intros Hio Ht. eapply in_order_same; try done; [by destruct (_ && _)|by destruct (_ && _)|].
  intros inc ms (rest & Hr & Hn & -> & ->). exists rest. split; [done|]. destruct (Z.ltb_spec 0 n), (endSession s) eqn:He; cbn; try done; (split; [|done]); auto. right. destruct Hn; [lia|done].
Qed.

Lemma closes s r t id : in_order s r -> threads s !! t = Some (id, P_close) ->
  exists fd, clients s !! id = Some fd /\ in_order (move t id P_leave (set_conns (delete fd (conns s)) s)) r.
Proof.
  intros Hio Ht. pose proof (io_threads s r Hio t id _ Ht) as Hsv. rewrite served_ok in Hsv by done.
  destruct Hsv as [fd sk ms j Hfd Hsk Hc Hst Hm Hj Hjl Ho]. exists fd. split; [done|]. rewrite <- (hear_nil r). set (s' := move _ _ _ _).
  assert (Hreg : registry s') by (eapply registry_stay; [apply Hio|done..]).
  eapply (in_order_thread s r s' t id P_close P_leave []); try done.
  - intros x Hx. cbn. apply lookup_delete_ne. intros <-. apply Hx. by eapply list_elem_of_lookup_2.
  - by intros e ?%not_elem_of_nil.
  - intros u id' q Hne Hu Hq. eapply (quiet_conn s r s' t id _ P_leave fd); try done. intros x Hx. cbn. by apply lookup_delete_ne.
  - rewrite hear_nil. split; [|exists fd; split; [done|apply lookup_delete_eq]]. destruct Hm as (rest & _ & He & _ & ->). destruct He as [He| ->]; [by left|right].
    by rewrite app_nil_r in Hst.
Qed.

(** A thread takes the mutex: its message is the next one for everybody. *)
Lemma locks s r t id b n : in_order s r -> threads s !! t = Some (id, P_lock b n) -> mutex s = None ->
  in_order (move t id (P_write b n 0) (set_mutex (Some t) s)) (hear r [(t, b)]).
Proof.
  intros Hio Ht Hm. set (s' := move _ _ _ _). pose proof (lookup_lt_Some _ _ _ Ht) as Hlt.
  assert (Hreg : registry s') by (eapply registry_move; [apply Hio|done..]).
  assert (Hconn : forall i, conn_ok s s' (frames [b]) i).
  { intros i fd Hfd. cbn [conns s' move set_mutex]. destruct (conns s !! fd) as [sk|]; [|done]. intros Hc. exists sk. do 3 (split; [done|]).
    unfold owed. cbn. rewrite Hm, list_lookup_insert_eq by done. by rewrite app_nil_r, frames_one. }
  eapply (in_order_thread s r s' t id _ _ [(t, b)]); try done.
  - intros e He. apply list_elem_of_singleton in He. by subst.
  - rewrite served_ok by done. eapply serving_step; [apply (io_threads s r Hio t id _ Ht)|done|apply Hconn|].
    intros inc ms (rest & Hr & Hb & -> & -> & ->). exists rest. rewrite said_own. split; [done|]. exists rest. auto.
Qed.

Lemma cast_conn s r s' i fd u id q :
  in_order s r -> clients s !! i = Some fd -> (forall x, x <> fd -> conns s' !! x = conns s !! x) ->
  (id <> i -> owed s' id = owed s id) -> (fd <> -1 -> conn_ok s s' [] i) ->
  threads s !! u = Some (id, q) -> gone q = false -> conn_ok s s' [] id.
Proof.
  intros Hio Hfd Hc Ho Hi Hu Hq. destruct (slot_used s u id q (io_registry s r Hio) Hu Hq) as (x & Hx & Hx1). destruct (decide (id = i)) as [->|Hne].
  - simplify_eq. by apply Hi.
  - assert (Hxf : x <> fd) by (intros ->; apply Hne; by eapply (io_fds s r Hio)).
    intros y Hy. rewrite Hx in Hy. injection Hy as <-. rewrite Hc by done. destruct (conns s !! x) as [sk|]; [|done]. intros Hcalm. exists sk. do 3 (split; [done|]). by rewrite app_nil_r, Ho.
Qed.

(** A step of the thread that broadcasts. *)
Lemma in_order_cast s r t id p p' m c :
  in_order s r -> threads s !! t = Some (id, p) -> writing p = true -> served p' = true ->
  let s' := move t id p' (set_mutex m (set_conns c s)) in
  registry s' -> (forall fd, fd ∉ clients s -> c !! fd = conns s !! fd) -> (forall inc ms, mid s p inc ms -> mid s p' inc ms) ->
  (forall u i q, threads s !! u = Some (i, q) -> gone q = false -> conn_ok s s' [] i) -> in_order s' r.
Proof.
  intros Hio Ht Hp Hp' s' Hreg Hc Hmid Hconn. rewrite <- (hear_nil r). assert (Hs : served p = true) by (by destruct p).
  eapply (in_order_thread s r s' t id p p' []); try done.
  - by intros e ?%not_elem_of_nil.
  - intros u i q _. apply Hconn.
  - pose proof (io_threads s r Hio t id _ Ht) as Hsv. rewrite served_ok in Hsv by done. rewrite served_ok by done.
    eapply serving_step; [done|done|eapply Hconn; [done|by destruct p]|]. intros inc ms H. exists ms. split; [done|]. by apply Hmid in H.
Qed.

Lemma slot_calm s r i fd sk : in_order s r -> clients s !! i = Some fd -> fd <> -1 -> conns s !! fd = Some sk -> calm (schedule sk).
Proof.
  intros Hio Hfd Hne Hsk. pose proof (io_registry s r Hio) as Hr. assert (Hl : i ∈ live s) by (apply (reg_slots s Hr); by exists fd).
  apply live_elem in Hl as (u & q & Hu & Hq). pose proof (io_threads s r Hio u i q Hu) as Hok. destruct (served q) eqn:Es.
  - rewrite served_ok in Hok by done. destruct Hok. by simplify_eq.
  - destruct q; try done. destruct Hok as (_ & x & Hx & Hn). congruence.
Qed.

Lemma holder_slot s t : registry s -> mutex s = Some t -> exists id p, threads s !! t = Some (id, p) /\ writing p = true.
Proof. intros Hr. apply (reg_mutex s Hr). Qed.

Lemma owed_write s t id b n i k : mutex s = Some t -> threads s !! t = Some (id, P_write b n i) -> owed s k = if (i <=? k)%nat then frame b else [].
Proof. intros Hm Ht. unfold owed. by rewrite Hm, Ht. Qed.

Lemma owed_body s t id b n i k : mutex s = Some t -> threads s !! t = Some (id, P_write_body b n i) ->
  owed s k = if (i <? k)%nat then frame b else if (i =? k)%nat then b else [].
Proof. intros Hm Ht. unfold owed. by rewrite Hm, Ht. Qed.

Ltac slots :=
  repeat match goal with
  | |- context [(?x <=? ?y)%nat] => destruct (Nat.leb_spec x y)
  | |- context [(?x <? ?y)%nat] => destruct (Nat.ltb_spec x y)
  | |- context [(?x =? ?y)%nat] => destruct (Nat.eqb_spec x y)
  end; first [done|lia].

(** ... from one slot to the next. *)
Lemma cast_step s r t id p p' i fd c :
  in_order s r -> threads s !! t = Some (id, p) -> writing p = true -> writing p' = true -> clients s !! i = Some fd ->
  (forall x, x <> fd -> c !! x = conns s !! x) -> (forall inc ms, mid s p inc ms -> mid s p' inc ms) ->
  let s' := move t id p' (set_conns c s) in
  (forall k, k <> i -> owed s' k = owed s k) -> (fd <> -1 -> conn_ok s s' [] i) -> in_order s' r.
Proof.
  intros Hio Ht Hp Hp' Hfd Hc Hmid s' Ho Hi. assert (Es : s' = move t id p' (set_mutex (mutex s) (set_conns c s))) by (by destruct s). rewrite Es.
  eapply in_order_cast; try done; try rewrite <- Es.
  - by destruct p'.
  - eapply registry_stay; [apply Hio|done|by destruct p|by destruct p'|congruence].
  - intros x Hx. apply Hc. intros ->. apply Hx. by eapply list_elem_of_lookup_2.
  - intros u k q Hu Hq. eapply (cast_conn s r s' i fd u k q); try done. apply Ho.
Qed.

Lemma writes_size s r t id b n i : in_order s r -> threads s !! t = Some (id, P_write b n i) ->
  exists s', write_to_clients t id b n i s = Done s' /\ in_order s' r.
Proof.
  intros Hio Ht. pose proof (io_registry s r Hio) as Hr. assert (Hmu : mutex s = Some t) by (apply (reg_mutex s Hr); by exists id, (P_write b n i)).
  pose proof (io_threads s r Hio t id _ Ht) as Hsv. rewrite served_ok in Hsv by done. destruct Hsv as [fd0 sk0 ms0 j0 Hfd0 _ _ _ (rest0 & _ & Hb & -> & _) _ _ _].
  pose proof (message_pos b Hb) as Hpos. pose proof (lookup_lt_Some _ _ _ Ht) as Hlt. pose proof (owed_write s t id b (Z.of_nat (length b)) i) as Hos. unfold write_to_clients, MAX_CLIENTS.
  destruct (Nat.ltb_spec i 8) as [Hi|Hi].
  - destruct (lookup_lt_is_Some_2 (clients s) i) as [fd Hfd]; [by rewrite (reg_len s Hr)|]. rewrite Hfd. cbn [deref obind].
    assert (Hskip : (fd <> -1 -> conns s !! fd = None) -> in_order (move t id (P_write b (Z.of_nat (length b)) (S i)) s) r).
    { intros Hno. rewrite <- (proj1 (chat_eta s)). eapply cast_step; try done.
      - intros k Hk. rewrite (owed_write (move _ _ _ _) t id b (Z.of_nat (length b)) (S i)), (Hos k Hmu Ht); [slots|done|by apply list_lookup_insert_eq].
      - intros Hne x Hx. simplify_eq. cbn. by rewrite (Hno Hne). }
    destruct (Z.eqb_spec fd (-1)) as [->|Hne]; [eexists; split; [done|by apply Hskip]|]. unfold write_size_call. destruct (conns s !! fd) as [sk|] eqn:Hsk; [|eexists; split; [done|by apply Hskip]].
    destruct (put_size b sk) as (sch & -> & Hc'); [by eapply slot_calm|done|]. cbn [obind]. eexists. split; [done|]. cbn [Z.ltb Z.compare].
    eapply cast_step; try done.
    + intros x Hx. by apply lookup_insert_ne.
    + intros inc ms (rest & H1 & H2 & H3 & H4 & ->). exists rest. split; [done|]. do 4 (split; [done|]). by exists fd.
    + intros k Hk. rewrite (owed_body (move _ _ _ _) t id b (Z.of_nat (length b)) i), (Hos k Hmu Ht); [slots|done|by apply list_lookup_insert_eq].
    + intros _ x Hx. simplify_eq. rewrite Hsk. intros _. eexists. split; [cbn; apply lookup_insert_eq|]. do 2 (split; [done|]). cbn [outgoing].
      rewrite (owed_body (move _ _ _ _) t id b (Z.of_nat (length b)) i), (Hos i Hmu Ht); [|done|by apply list_lookup_insert_eq].
      rewrite Nat.ltb_irrefl, Nat.eqb_refl, Nat.leb_refl, app_nil_r. unfold frame. by rewrite app_assoc.
  - eexists. split; [done|]. replace (set_mutex None s) with (set_mutex None (set_conns (conns s) s)) by (by destruct s).
    eapply in_order_cast; try done; [eapply registry_move; [by apply registry_conns|done..]| |].
    + intros inc ms (rest & Hr' & _ & _ & -> & ->). exists rest. split; [done|]. split; [left; lia|done].
    + intros u k q Hu Hq x Hx. cbn [conns set_mutex set_conns move]. destruct (conns s !! x) as [sk|]; [|done]. intros Hcalm. exists sk. do 3 (split; [done|]).
      rewrite (Hos k Hmu Ht), !app_nil_r. apply lookup_lt_Some in Hx. rewrite (reg_len s Hr) in Hx. unfold MAX_CLIENTS in Hx. unfold owed. cbn. rewrite (proj2 (Nat.leb_gt _ _)), app_nil_r by lia. done.
Qed.

Lemma writes_body s r t id b n i : in_order s r -> threads s !! t = Some (id, P_write_body b n i) ->
  exists s', write_body_to_client t id b n i s = Done s' /\ in_order s' r.
Proof.
  intros Hio Ht. pose proof (io_registry s r Hio) as Hr. assert (Hmu : mutex s = Some t) by (apply (reg_mutex s Hr); by exists id, (P_write_body b n i)).
  pose proof (io_threads s r Hio t id _ Ht) as Hsv. rewrite served_ok in Hsv by done. destruct Hsv as [fd0 sk0 ms0 j0 Hfd0 _ _ _ (rest0 & _ & Hb & -> & _ & _ & fd & Hfd & Hne) _ _ _].
  pose proof (message_pos b Hb) as Hpos. pose proof (lookup_lt_Some _ _ _ Ht) as Hlt. pose proof (owed_body s t id b (Z.of_nat (length b)) i) as Hos.
  unfold write_body_to_client. rewrite Hfd. cbn [deref obind].
  assert (Hmid : forall inc ms, mid s (P_write_body b (Z.of_nat (length b)) i) inc ms -> mid s (P_write b (Z.of_nat (length b)) (S i)) inc ms).
  { intros inc ms (rest & H1 & H2 & H3 & H4 & H5 & _). by exists rest. }
  assert (Ho : forall c k, k <> i -> owed (move t id (P_write b (Z.of_nat (length b)) (S i)) (set_conns c s)) k = owed s k).
  { intros c k Hk. rewrite (owed_write (move _ _ _ _) t id b (Z.of_nat (length b)) (S i)), (Hos k Hmu Ht); [slots|done|by apply list_lookup_insert_eq]. }
  unfold write_call. destruct (conns s !! fd) as [sk|] eqn:Hsk.
  - destruct (put_body b sk) as (sch & -> & Hc'); [by eapply slot_calm|done|]. cbn [obind]. eexists. split; [done|].
    eapply cast_step; try done; [intros x Hx; by apply lookup_insert_ne|apply Ho|].
    intros _ x Hx. simplify_eq. rewrite Hsk. intros _. eexists. split; [cbn; apply lookup_insert_eq|]. do 2 (split; [done|]). cbn [outgoing].
      rewrite (owed_write (move _ _ _ _) t id b (Z.of_nat (length b)) (S i)), (Hos i Hmu Ht); [|done|by apply list_lookup_insert_eq].
      rewrite Nat.ltb_irrefl, Nat.eqb_refl, (proj2 (Nat.leb_gt _ _)), !app_nil_r by lia. done.
  - rewrite (proj2 (Z.ltb_lt _ _)) by lia. cbn [obind]. eexists. split; [done|]. rewrite <- (proj1 (chat_eta s)) at 1. eapply cast_step; try done; [apply Ho|].
    intros _ x Hx. simplify_eq. cbn. by rewrite Hsk.
Qed.

Lemma thread_defined s r t : in_order s r ->
  match process_client t s with
  | Done (Some s') => match threads s !! t with Some (_, P_leave) => True | _ => in_order s' (room_step (Thread t) s r) end
  | Done None => True
  | _ => False
  end.
Proof.
  intros Hio. unfold process_client. cbn [room_step]. destruct (threads s !! t) as [[id p]|] eqn:Ht; [|done].
  destruct p as [n| |n|b n|b n i|b n i| | |].
  - by apply goes_on.
  - destruct (reads_size s r t id Hio Ht) as (fd & n & s' & Hfd & Hrun & H). rewrite Hfd. cbn [deref obind]. rewrite Hrun. by destruct (mutex s).
  - destruct (reads_body s r t id n Hio Ht) as (fd & n' & b & s' & Hfd & Hrun & H). rewrite Hfd. cbn [deref obind]. rewrite Hrun. by destruct (mutex s).
  - destruct (mutex s) eqn:Hm; [done|]. by apply locks.
  - destruct (writes_size s r t id b n i Hio Ht) as (s' & -> & H). by destruct (mutex s).
  - destruct (writes_body s r t id b n i Hio Ht) as (s' & -> & H). by destruct (mutex s).
  - destruct (closes s r t id Hio Ht) as (fd & Hfd & H). rewrite Hfd. by destruct (mutex s).
  - by destruct (mutex s).
  - done.
Qed.

(** ** Steps that change the table *)

Lemma thread_ok_keep s r s' r' u id q :
  thread_ok s r u id q -> (gone q = false -> clients s' !! id = clients s !! id) ->
  (forall fd, gone q = false -> clients s !! id = Some fd -> conns s' !! fd = conns s !! fd) ->
  endSession s' = endSession s \/ endSession s' = true ->
  log r' = log r -> streams r' !! u = streams r !! u -> joined r' !! u = joined r !! u ->
  owed s' id = owed s id -> (writing q = true -> clients s' = clients s) -> thread_ok s' r' u id q.
Proof.
  intros Hok Hcl Hco He Hl Hs Hj Ho Hw.
  assert (Hfin : finished s r u -> finished s' r' u) by (unfold finished; rewrite Hl, Hs; destruct He as [-> | ->]; auto).
  assert (Hserve : gone q = false -> serving s r u id q -> serving s' r' u id q).
  { intros Hg [fd sk ms j Hfd Hsk Hc Hst Hm Hj' Hjl Hout]. apply (Serving _ _ _ _ _ fd sk ms j); rewrite ?Hl, ?Hs, ?Hj, ?Ho, ?(Hcl Hg), ?(Hco fd Hg Hfd); try done.
    destruct Hm as (rest & Hr & Hm). exists rest. split; [done|]. destruct q; try done; cbn in Hw; [by rewrite Hw|]. destruct Hm as (Hm & ?). split; [|done]. destruct Hm as [Hm|]; [left|by right]. destruct He as [-> | ->]; done. }
  destruct q; cbn [thread_ok] in *; auto. destruct Hok as [Hf (fd & Hfd & Hc)]. split; [auto|]. exists fd. rewrite (Hcl eq_refl), (Hco fd eq_refl Hfd). done.
Qed.

Lemma none_writing s r t id p : in_order s r -> mutex s = None -> threads s !! t = Some (id, p) -> writing p = false.
Proof.
  intros Hio Hm Ht. destruct (writing p) eqn:Hw; [|done]. assert (mutex s = Some t) by (apply (reg_mutex s (io_registry s r Hio)); by exists id, p). congruence.
Qed.

Lemma in_order_unregister s r t id : in_order s r -> threads s !! t = Some (id, P_leave) -> mutex s = None -> in_order (unregister t id s) r.
Proof.
  intros Hio Ht Hm. pose proof (io_registry s r Hio) as Hr. pose proof (registry_unregister s t id Hr Ht Hm) as Hreg.
  pose proof (none_writing s r) as Hnw. pose proof Hio as [_ [Hl1 Hl2] Hlog Hfds Hmain Hth]. pose proof (lookup_lt_Some _ _ _ Ht) as Hlt.
  destruct (slot_used s t id _ Hr Ht eq_refl) as (fd0 & Hfd0 & _). apply lookup_lt_Some in Hfd0.
  split; [done|..]; cbn [threads clients main unregister]; rewrite ?length_insert; try done.
  - intros i i' fd Hi Hi' Hne. apply list_lookup_insert_Some in Hi as [(-> & <- & _)|[Hi1 Hi]]; [done|]. apply list_lookup_insert_Some in Hi' as [(-> & <- & _)|[Hi2 Hi']]; [done|]. by eapply Hfds.
  - pose proof (reg_main s Hr) as Hpos. destruct (main s); try done. destruct Hmain as [Hin Hex]. split; [|done]. intros Hx. apply list_elem_of_lookup in Hx as [i Hi].
    apply list_lookup_insert_Some in Hi as [(_ & <- & _)|[_ Hi]]; [lia|]. apply Hin. by eapply list_elem_of_lookup_2.
  - intros u id' q Hu. destruct (decide (u = t)) as [->|Hne].
    + rewrite list_lookup_insert_eq in Hu by done. simplify_eq. exact (proj1 (Hth _ _ _ Ht)).
    + rewrite list_lookup_insert_ne in Hu by done. pose proof (Hnw _ _ _ Hio Hm Hu) as Hw. eapply thread_ok_keep; [by apply Hth|..]; try done.
      * intros Hg. apply list_lookup_insert_ne. intros <-. by apply Hne; eapply (live_inj s t u).
      * by left.
      * unfold owed. cbn. by rewrite Hm.
      * by rewrite Hw.
Qed.

Lemma register_full s r fd : in_order s r -> main s = M_register fd -> clientsCount s = 8 -> mutex s = None -> in_order (register fd s) r.
Proof.
  intros Hio Hm Hc Hmu. pose proof (io_registry s r Hio) as Hr. pose proof (registry_register s fd Hr Hm Hmu) as Hreg. unfold register in *. rewrite Hc in *. cbn [Z.eqb Z.of_nat Pos.of_succ_nat MAX_CLIENTS Pos.eqb Pos.succ] in *.
  destruct Hio as [_ Hl Hlog Hfds Hmain Hth]. rewrite Hm in Hmain. destruct Hmain as [Hin _]. split; try done.
  intros u id q Hu. eapply thread_ok_keep; [by apply Hth|..]; try done; [|by left]. intros x _ Hx. cbn. apply lookup_delete_ne. intros ->. apply Hin. by eapply list_elem_of_lookup_2.
Qed.

Lemma said_fresh s r : in_order s r -> said (log r) (length (threads s)) = [].
Proof. intros Hio. apply said_none. intros e He. apply (io_log s r Hio) in He. lia. Qed.

Lemma register_client s r fd : in_order s r -> main s = M_register fd -> clientsCount s <> 8 -> mutex s = None ->
  in_order (register fd s) (Room (log r) (streams r ++ [from_option incoming [] (conns s !! fd)]) (joined r ++ [length (log r)])).
Proof.
  intros Hio Hm Hc Hmu. pose proof (io_registry s r Hio) as Hr. pose proof (registry_register s fd Hr Hm Hmu) as Hreg. pose proof (live_bound s Hr) as Hb. pose proof (reg_main s Hr) as Hpos. rewrite Hm in Hpos.
  unfold register in *. rewrite (proj2 (Z.eqb_neq (clientsCount s) (Z.of_nat MAX_CLIENTS))) in * by done.
  destruct (free_slot_found s Hr) as [id Hid]; [rewrite (reg_count s Hr) in Hc; unfold MAX_CLIENTS in *; lia|]. pose proof (free_slot_spec (clients s)) as Hf. rewrite Hid in *.
  pose proof (none_writing s r) as Hnw. pose proof (said_fresh s r Hio) as Hsaid. pose proof Hio as [_ [Hl1 Hl2] Hlog Hfds Hmain Hth]. rewrite Hm in Hmain. destruct Hmain as (Hin & sk & ms & Hsk & Hcalm & Hout & Hms & Hinc).
  pose proof (lookup_lt_Some _ _ _ Hf) as Hidl. split; [done|..]; cbn [threads clients main log streams joined]; rewrite ?length_app, ?Hl1, ?Hl2; try done.
  - intros e He. apply Hlog in He. lia.
  - intros i i' x Hi Hi' Hne. apply list_lookup_insert_Some in Hi as [(-> & <- & _)|[Hi1 Hi]]; apply list_lookup_insert_Some in Hi' as [(-> & Hx & _)|[Hi2 Hi']]; try done; try (by eapply Hfds).
    + destruct Hin. by eapply list_elem_of_lookup_2.
    + subst x. destruct Hin. by eapply list_elem_of_lookup_2.
  - intros u id' q Hu. apply lookup_app_Some in Hu as [Hu|[Hge Hu]].
    + pose proof (Hnw _ _ _ Hio Hmu Hu) as Hw. pose proof (lookup_lt_Some _ _ _ Hu) as Hul. eapply thread_ok_keep; [by apply Hth|..]; cbn; rewrite ?lookup_app_l by lia; try done.
      * intros Hg. apply list_lookup_insert_ne. intros <-. destruct (slot_used s u id q Hr Hu Hg) as (x & Hx & Hx1). congruence.
      * by left.
      * unfold owed. cbn. by rewrite Hmu.
      * by rewrite Hw.
    + apply list_lookup_singleton_Some in Hu as [Hu [= <- <-]]. assert (u = length (threads s)) as -> by lia. cbn [thread_ok].
      apply (Serving _ _ _ _ _ fd sk ms (length (log r))); cbn [conns clients threads streams joined log]; try done.
      * by apply list_lookup_insert_eq.
      * rewrite lookup_app_r, Hl1, Nat.sub_diag, Hsk by lia. cbn. by rewrite Hsaid, Hinc.
      * exists ms. split; [done|]. split; [left; lia|done].
      * by rewrite lookup_app_r, Hl2, Nat.sub_diag by lia.
      * unfold owed. cbn. by rewrite Hmu, Hout, drop_all.
Qed.

Lemma in_order_step e s r s' : in_order s r -> polite e s -> chat_step e s = Done (Some s') -> main s' <> M_done -> in_order s' (room_step e s r).
Proof.
  intros Hio Hp H Hnd. pose proof (io_registry s r Hio) as Hr. pose proof (registry_step e s s' Hr H) as Hreg. destruct e as [t| |fd sk| |]; cbn [chat_step] in H.
  - pose proof (thread_defined s r t Hio) as Hd. rewrite H in Hd. cbn [room_step] in *. unfold process_client in H. destruct (threads s !! t) as [[id p]|] eqn:Ht; [|done].
    destruct p; try done. destruct (mutex s) eqn:Hm; simplify_eq. by apply in_order_unregister.
  - unfold run_server in H. cbn [room_step]. destruct (main s) as [| |fd|] eqn:Hm; try done.
    + destruct (endSession s) eqn:He; simplify_eq. destruct Hio as [_ Hl Hlog Hfds _ Hth]. split; try done.
      intros u id q Hu. eapply thread_ok_keep; [by apply Hth|..]; try done. by left.
    + destruct (mutex s) eqn:Hmu; simplify_eq. destruct (Z.eqb_spec (clientsCount s) (Z.of_nat MAX_CLIENTS)); [by apply register_full|by apply register_client].
  - destruct (main s) eqn:Hm; try done. destruct (conns s !! fd) eqn:Hfd; try done. destruct (Z.leb_spec 0 fd); simplify_eq.
    destruct Hp as (Hin & Hcalm & Hout & ms & Hms & Hinc). destruct Hio as [_ Hl Hlog Hfds _ Hth]. split; try done.
    + cbn. split; [done|]. exists sk, ms. split; [apply lookup_insert_eq|done].
    + intros u id q Hu. eapply thread_ok_keep; [by apply Hth|..]; try done; [|by left]. intros x _ Hx. cbn. apply lookup_insert_ne. intros <-. apply Hin. by eapply list_elem_of_lookup_2.
  - destruct (main s) eqn:Hm; simplify_eq; done.
  - simplify_eq. destruct Hio as [_ Hl Hlog Hfds Hmain Hth]. split; try done. intros u id q Hu. eapply thread_ok_keep; [by apply Hth|..]; try done. by right.
Qed.

Lemma session_in_order s r : session s r -> in_order s r.
Proof.
  induction 1 as [|e s r s' _ IH Hp H Hnd]; [|by eapply in_order_step].
  split; try done; [apply registry_start| |].
  - cbn. by intros e ?%not_elem_of_nil.
  - intros i i' fd Hi _ Hne. by apply lookup_replicate_1 in Hi as [-> _].
Qed.

Lemma session_reachable s r : session s r -> rtc chat_steps chat_start s.
Proof. induction 1 as [|e s r s' _ IH _ H _]; [constructor|]. eapply rtc_r; [exact IH|by exists e]. Qed.

(** C25. As long as the server runs, every client's sockets work and no descriptor is
    given out while it is in the table, no step of any thread is undefined and there
    is one order of all messages such that each connected client has been sent, whole
    and in this order, the messages since it was registered, up to the broadcast
    under way; each client's messages are in it in the order it sends them, all of
    them when its thread has returned, unless the server is being stopped. *)
Theorem chat_in_order s r (Hsession : session s r) :
  (forall t, exists o, process_client t s = Done o) /\
  (forall t id p fd sk, threads s !! t = Some (id, p) -> gone p = false -> clients s !! id = Some fd -> conns s !! fd = Some sk ->
     exists j ms, joined r !! t = Some j /\ (outgoing sk `prefix_of` frames (map snd (drop j (log r)))) /\
       (mutex s = None -> outgoing sk = frames (map snd (drop j (log r)))) /\
       streams r !! t = Some (frames (said (log r) t ++ ms))) /\
  (forall t id, threads s !! t = Some (id, P_gone) -> endSession s = false -> streams r !! t = Some (frames (said (log r) t))).
Proof.
  pose proof (session_in_order s r Hsession) as Hio. split; [|split].
  - intros t. pose proof (thread_defined s r t Hio) as H. destruct (process_client t s); try done. by eexists.
  - intros t id p fd sk Ht Hp Hfd Hsk. pose proof (io_threads s r Hio t id p Ht) as Hok. destruct (served p) eqn:Es.
    + rewrite served_ok in Hok by done. destruct Hok as [fd' sk' ms j Hfd' Hsk' _ Hst _ Hj _ Ho]. simplify_eq. exists j, ms. split; [done|]. rewrite <- Ho. split; [by eexists|]. split; [|done].
      intros Hm. unfold owed. by rewrite Hm, app_nil_r.
    + destruct p; try done. destruct Hok as (_ & x & Hx & Hn). congruence.
  - intros t id Ht He. destruct (io_threads s r Hio t id _ Ht) as [H|H]; [congruence|done].
Qed.

(** ** A session *)

Inductive act := Go (t : nat) | Main_go | Arrive (fd : Z) (ms : list (list Z)).

Definition act_event (a : act) : chat_event :=
  match a with Go t => Thread t | Main_go => Main | Arrive fd ms => Connect fd (Socket (frames ms) [] []) end.

Definition act_ok (a : act) (s : chat) : bool :=
  match a with Arrive fd ms => bool_decide (fd ∉ clients s) && forallb (fun m => bool_decide (m <> []) && (Z.of_nat (length m) <? 2147483648)) ms | _ => true end.

Fixpoint act_run (l : list act) (s : chat) (r : room) : option (chat * room) :=
  match l with
  | [] => Some (s, r)
  | a :: l =>
      match act_ok a s, chat_step (act_event a) s with
      | true, Done (Some s') => match main s' with M_done => None | _ => act_run l s' (room_step (act_event a) s r) end
      | _, _ => None
      end
  end.

Lemma act_polite a s : act_ok a s = true -> polite (act_event a) s.
Proof.
  destruct a as [| |fd ms]; cbn; try done. intros [Hfd Hms]%andb_true_iff. split; [by apply bool_decide_eq_true in Hfd|].
  split; [by split; apply not_elem_of_nil|]. split; [done|]. exists ms. split; [|done]. apply Forall_forall. intros m Hm.
  apply list_elem_of_In in Hm. rewrite forallb_forall in Hms. apply Hms in Hm. apply andb_true_iff in Hm as [H1%bool_decide_eq_true H2]. split; [done|lia].
Qed.

Lemma act_run_session l s r s' r' : session s r -> act_run l s r = Some (s', r') -> session s' r'.
Proof.
  revert s r. induction l as [|a l IH]; intros s r Hs H; cbn in H; [by simplify_eq|]. destruct (act_ok a s) eqn:Ha; [|done].
  destruct (chat_step (act_event a) s) as [[s1|]| | |] eqn:E; try done. destruct (main s1) eqn:Hm; try done;
    (eapply IH; [|exact H]; eapply session_step; [done|by apply act_polite|done|by rewrite Hm]).
Qed.

(** Two clients connect, the first says "A" and "B", the second "C" in between. *)
Definition sample_acts : list act :=
  [Main_go; Arrive 5 [[65]; [66]]; Main_go; Main_go; Arrive 6 [[67]]; Main_go] ++ replicate 15 (Go 0) ++ replicate 15 (Go 1) ++ replicate 15 (Go 0).

Definition sample_end : option (chat * room) := act_run sample_acts chat_start (Room [] [] []).

Definition sample_chat : chat := from_option fst chat_start sample_end.
Definition sample_room : room := from_option snd (Room [] [] []) sample_end.

Example sample_heard : map outgoing (map snd (map_to_list (conns sample_chat))) = [frames [[65]; [67]; [66]]; frames [[65]; [67]; [66]]].
Proof. vm_compute. reflexivity. Qed.

Lemma sample_session : session sample_chat sample_room.
Proof. apply (act_run_session sample_acts chat_start (Room [] [] [])); [constructor|vm_compute; reflexivity]. Qed.

Lemma chat_in_order_witness :
  map fst (log sample_room) = [0; 1; 0]%nat /\
  exists j ms, joined sample_room !! 0%nat = Some j /\ streams sample_room !! 0%nat = Some (frames (said (log sample_room) 0 ++ ms)).
Proof.
  split; [vm_compute; reflexivity|].
  destruct (proj1 (proj2 (chat_in_order sample_chat sample_room sample_session)) 0%nat 0%nat (P_loop 1) 5 (Socket [] (frames [[65]; [67]; [66]]) []))
    as (j & ms & Hj & _ & _ & Hs); [vm_compute; reflexivity..|]. exists j, ms. split; [exact Hj|exact Hs].
Defined.

Lemma chat_registry_witness : clientsCount sample_chat = Z.of_nat (length (live sample_chat)) /\ clientsCount sample_chat = 2.
Proof.
  split; [|vm_compute; reflexivity]. exact (proj1 (chat_registry sample_chat (session_reachable _ _ sample_session))).
Defined.

(** A thread closes its connection before its slot is free: a new client gets the same
    descriptor, in two slots, and hears a message twice. *)
Definition reuse_acts : list (chat_event) :=
  let sk ms := Socket (frames ms) [] [] in
  [Main; Connect 5 (sk []); Main; Main; Connect 6 (sk [[67]]); Main; Main] ++ replicate 4 (Thread 0) ++ [Connect 5 (sk []); Main] ++ replicate 17 (Thread 1).

Example reused_descriptor :
  match foldl (fun o e => match o with Done (Some s) => chat_step e s | _ => o end) (Done (Some chat_start)) reuse_acts with
  | Done (Some s) => clients s = [5; 6; 5; -1; -1; -1; -1; -1] /\ option_map outgoing (conns s !! 5) = Some (frames [[67]; [67]])
  | _ => False
  end.
Proof. vm_compute. done. Qed.

(** ** The client's loops *)

(** What a client makes of a line. *)
Definition said_line (name line : list Z) : list Z := name ++ [58; 32] ++ line.

Definition line_ok (name line : list Z) : Prop := (0 ∉ line) /\ Z.of_nat (length name + length line) < 2147483640.

Lemma create_message_ok name line : create_message name line = Done ((said_line name line ++ [0]) ++ [0]).
Proof.
  unfold create_message, said_line. rewrite !length_app. cbn [length]. rewrite (proj2 (Nat.leb_le _ _)) by lia.
  replace (length line + length name + 4 - _)%nat with 1%nat by lia. cbn [replicate]. by rewrite <- !app_assoc.
Qed.

Lemma said_line_zero name line : 0 ∉ name -> 0 ∉ line -> 0 ∉ said_line name line.
Proof. unfold said_line. rewrite !elem_of_app. intros H1 H2 [H|[H|H]]; [done| |done]. by repeat (apply elem_of_cons in H as [H|H]; [done|]); apply elem_of_nil in H. Qed.

Lemma write_to_server_ok name lines sk :
  0 ∉ name -> Forall (line_ok name) lines -> calm (schedule sk) ->
  exists sch, write_to_server name lines sk = Done (Socket (incoming sk) (outgoing sk ++ frames (map (fun l => said_line name l ++ [0]) lines)) sch).
Proof.
  intros Hname Hls. revert sk. induction Hls as [|line lines [Hl Hlen] _ IH]; intros sk Hc.
  - exists (schedule sk). cbn. unfold frames. cbn. rewrite app_nil_r. by destruct sk.
  - cbn [write_to_server map]. rewrite create_message_ok. cbn [obind].
    assert (Hz : until_zero ((said_line name line ++ [0]) ++ [0]) = said_line name line) by (rewrite <- app_assoc; apply until_zero_app; by apply said_line_zero).
    rewrite Hz. set (m := said_line name line ++ [0]).
    assert (Hm : message m) by (unfold m, message, said_line; split; [by destruct name|rewrite !length_app; cbn [length]; lia]). pose proof (message_pos m Hm) as Hpos.
    replace (Z.of_nat (length (said_line name line)) + 1) with (Z.of_nat (length m)) by (unfold m; rewrite length_app; cbn; lia).
    destruct (put_size m sk Hc Hm) as (sch & -> & Hc1). cbn [obind Z.ltb Z.compare].
    destruct (chat_write_ok (Socket (incoming sk) (outgoing sk ++ size_bytes m) sch) (m ++ [0]) (Z.of_nat (length m))) as (sch2 & -> & Hc2); [done|lia|rewrite length_app; lia|].
    cbn [obind incoming outgoing]. rewrite (proj2 (Z.ltb_lt _ _)) by lia. rewrite Nat2Z.id, take_app_length.
    destruct (IH (Socket (incoming sk) ((outgoing sk ++ size_bytes m) ++ m) sch2) Hc2) as (sch3 & ->). exists sch3. cbn [incoming outgoing].
    rewrite frames_cons. unfold frame. by rewrite <- !app_assoc.
Qed.

Lemma cstr_of_snoc m : 0 ∉ m -> cstr_of (m ++ [0]) = Some (m ++ [0]).
Proof.
  induction m as [|c m IH]; intros Hz; [done|]. apply not_elem_of_cons in Hz as [Hc Hz]. cbn [app cstr_of].
  rewrite (proj2 (Z.eqb_neq _ _)) by done. by rewrite (IH Hz).
Qed.

Lemma read_from_server_ok fuel texts out sch :
  Forall (fun m => (0 ∉ m) /\ message (m ++ [0])) texts -> calm sch -> (length texts < fuel)%nat ->
  read_from_server fuel (Socket (frames (map (fun m => m ++ [0]) texts)) out sch) = Done texts.
Proof.
  intros Hms. revert fuel sch. induction Hms as [|m texts [Hz Hm] _ IH]; intros [|fuel] sch Hc Hf; cbn [length] in Hf; try lia; cbn [read_from_server map].
  - destruct (get_size_end out sch Hc) as (sch' & H & _). change (frames []) with (@nil Z). by rewrite H.
  - rewrite frames_cons. destruct (get_size_frame (m ++ [0]) (frames (map (fun m => m ++ [0]) texts)) out sch Hc Hm) as (sch1 & -> & Hc1). pose proof (message_pos _ Hm) as Hpos.
    cbn [obind]. rewrite (proj2 (Z.ltb_lt _ _)) by lia. destruct (get_body (m ++ [0]) (frames (map (fun m => m ++ [0]) texts)) out sch1 Hc1 Hm) as (sch2 & -> & Hc2).
    cbn [obind]. rewrite (proj2 (Z.ltb_lt _ _)) by lia. rewrite cstr_of_snoc by done. cbn [deref obind]. rewrite IH by (done || lia). cbn [obind]. rewrite until_zero_app by done. done.
Qed.

(** C36. The lines typed at one client are printed by every client that receives what it
    sends, each once, in order, with the name in front, however the two sockets cut
    the transfers. *)
Theorem chat_client_roundtrip name lines s1 s2 :
  0 ∉ name -> Forall (line_ok name) lines -> calm s1 -> calm s2 ->
  exists sk, write_to_server name lines (Socket [] [] s1) = Done sk /\
    read_from_server (S (length lines)) (Socket (outgoing sk) [] s2) = Done (map (said_line name) lines).
Proof.
  intros Hname Hls H1 H2. destruct (write_to_server_ok name lines (Socket [] [] s1) Hname Hls H1) as (sch & ->). eexists. split; [done|]. cbn [outgoing incoming app].
  rewrite <- (map_map (said_line name) (fun m => m ++ [0])). apply read_from_server_ok; [|done|by rewrite length_map; lia].
  apply Forall_map. eapply Forall_impl; [exact Hls|]. intros l [Hl Hlen]. cbn. split; [by apply said_line_zero|].
  unfold message, said_line. split; [by destruct name|]. rewrite !length_app. cbn [length]. lia.
Qed.

Lemma chat_client_roundtrip_witness :
  exists sk, write_to_server [65; 66] [[104; 105]; []] (Socket [] [] [Transfer 2; Interrupt]) = Done sk /\
    read_from_server 3 (Socket (outgoing sk) [] [Transfer 0]) = Done [[65; 66; 58; 32; 104; 105]; [65; 66; 58; 32]].
Proof.
  apply (chat_client_roundtrip [65; 66] [[104; 105]; []] [Transfer 2; Interrupt] [Transfer 0]).
  - set_solver.
  - repeat (constructor; [split; [set_solver|cbn; lia]|]). constructor.
  - split; set_solver.
  - split; set_solver.
Defined.
