(* ===== verification/Fakefs.v ===== *)
(** * [finding_filesystems/fakefs_src/]: system calls routed to minixfs

    [fakefs_utils.c] decides whether a path leads into the file that holds the file
    system and computes the path inside it; [core.c], [dup.c], [dir.c] and [stat.c]
    replace the C library's functions: a call about a virtual path or descriptor is
    answered by minixfs, any other is passed on ([Real]).  [realpath] and the regular
    expression for the root's name are the class [RealPaths]; the hooks are enabled.  A virtual descriptor is
    a kernel descriptor on /dev/null, which the kernel chooses. *)

From stdpp Require Import gmap.
From S2P Require Import Prelude CString Minixfs.
Open Scope Z_scope.

Class RealPaths := {
  realpath : list Z -> option (list Z);
  root_match : list Z -> bool;
  root_filepath : list Z;
}.

(** ** Paths ([fakefs_utils.c]) *)

Definition DOT : Z := 46.

(** An element of a buffer; indices are [size_t]. *)
Definition at_idx (b : list Z) (i : Z) : outcome Z := if i <? Z.of_nat (length b) then deref (b !! Z.to_nat i) else Undef.

Definition set_idx (b : list Z) (i c : Z) : outcome (list Z) :=
  if i <? Z.of_nat (length b) then Done (<[Z.to_nat i := c]> b) else Undef.

(** [while (my_pathname[last_idx] != '/')]; [None] is [failure]. *)
Fixpoint back_to_slash (fuel : nat) (my_pathname : list Z) (last_idx : Z) : outcome (option Z) :=
  match fuel with
  | O => OutOfFuel
  | S fuel =>
      let! c := at_idx my_pathname last_idx in
      if c =? SLASH then Done (Some last_idx)
      else
        let last_idx := u64 (last_idx - 1) in
        if last_idx =? 0 then Done None else back_to_slash fuel my_pathname last_idx
  end.

(** Pops directories until the path can be resolved. *)
Fixpoint pop_loop {P : RealPaths} (fuel : nat) (my_pathname : list Z) (last_idx : Z) : outcome (option (list Z * list Z * Z)) :=
  match fuel with
  | O => OutOfFuel
  | S fuel =>
      match realpath (until_zero my_pathname) with
      | Some resolved_path => Done (Some (resolved_path, my_pathname, last_idx))
      | None =>
          let! c := at_idx my_pathname last_idx in
          let! (my_pathname, last_idx) :=
            if c =? 0 then let! b := set_idx my_pathname last_idx SLASH in Done (b, u64 (last_idx - 1))
            else Done (my_pathname, last_idx) in
          let! o := back_to_slash (S (length my_pathname)) my_pathname last_idx in
          match o with
          | None => Done None
          | Some last_idx => let! b := set_idx my_pathname last_idx 0 in pop_loop fuel b last_idx
          end
      end
  end.

Definition char_is_end (c : Z) : bool := (c =? SLASH) || (c =? 0).

(** [while (v_idx && v_path[v_idx] != '/') v_path[v_idx--] = 0]. *)
Fixpoint clear_back (fuel : nat) (v_path : list Z) (v_idx : Z) : outcome (list Z * Z) :=
  match fuel with
  | O => OutOfFuel
  | S fuel =>
      if v_idx =? 0 then Done (v_path, v_idx)
      else
        let! c := at_idx v_path v_idx in
        if c =? SLASH then Done (v_path, v_idx)
        else let! v_path := set_idx v_path v_idx 0 in clear_back fuel v_path (v_idx - 1)
  end.

(** The root's path is cut at its last slash. *)
Fixpoint last_slash_from (s : list Z) (i : nat) : nat :=
  match i with
  | O => O
  | S i' => if bool_decide (s !! i = Some SLASH) then i else last_slash_from s i'
  end.

Definition cut_parent (resolved_path : list Z) : list Z :=
  if bool_decide (resolved_path = [SLASH]) then resolved_path
  else
    match last_slash_from resolved_path (length resolved_path - 1) with
    | O => resolved_path
    | i => take i resolved_path
    end.

(** The parent directory: [v_path], [v_idx] and [resolved_path]. *)
Definition to_parent (v_path : list Z) (v_idx : Z) (resolved_path : list Z) : outcome (list Z * Z * list Z) :=
  let! (v_path, v_idx, resolved_path) :=
    if 2 <=? v_idx then
      let! (v_path, v_idx) := clear_back (S (Z.to_nat v_idx)) v_path (v_idx - 2) in Done (v_path, v_idx, resolved_path)
    else Done (v_path, v_idx, cut_parent resolved_path) in
  let! c := at_idx v_path v_idx in
  Done (v_path, if c =? SLASH then v_idx + 1 else v_idx, resolved_path).

(** The loop over [orig_v_path], here with its terminator. *)
Fixpoint virtual_loop (fuel : nat) (orig_v_path : list Z) (curr_idx : Z) (at_dir_boundry : bool) (v_path : list Z) (v_idx : Z) (resolved_path : list Z)
  : outcome (list Z * list Z) :=
  match fuel with
  | O => OutOfFuel
  | S fuel =>
      if curr_idx <? Z.of_nat (length orig_v_path) - 1 then
        let! c := at_idx orig_v_path curr_idx in
        let copy :=
          let! (at_dir_boundry, v_idx) :=
            if c =? SLASH then
              let! p := (if v_idx =? 0 then Done 0 else at_idx v_path (v_idx - 1)) in
              Done (true, if negb (v_idx =? 0) && (p =? SLASH) then v_idx - 1 else v_idx)
            else Done (false, v_idx) in
          let! v_path := set_idx v_path v_idx c in
          virtual_loop fuel orig_v_path (curr_idx + 1) at_dir_boundry v_path (v_idx + 1) resolved_path in
        if negb at_dir_boundry || negb (c =? DOT) then copy
        else
          let! c1 := at_idx orig_v_path (curr_idx + 1) in
          if char_is_end c1 then virtual_loop fuel orig_v_path (curr_idx + 2) true v_path v_idx resolved_path
          else if negb (c1 =? DOT) then copy
          else
            let! c2 := at_idx orig_v_path (curr_idx + 2) in
            if char_is_end c2 then
              let! (v_path, v_idx, resolved_path) := to_parent v_path v_idx resolved_path in
              virtual_loop fuel orig_v_path (curr_idx + 3) true v_path v_idx resolved_path
            else copy
      else Done (v_path, resolved_path)
  end.

(** One slash at the end is dropped. *)
Definition trim (v_path : list Z) : list Z :=
  match v_path with
  | [] => [SLASH]
  | _ => if (1 <? Z.of_nat (length v_path)) && bool_decide (last v_path = Some SLASH) then removelast v_path else v_path
  end.

Definition virtual_path (orig_v_path resolved_path : list Z) : outcome (list Z * list Z) :=
  let v_path := SLASH :: replicate (S (length orig_v_path)) 0 in
  let! (v_path, resolved_path) := virtual_loop (S (length orig_v_path)) (orig_v_path ++ [0]) 0 true v_path 1 resolved_path in
  Done (resolved_path, trim (until_zero v_path)).

(** The base path and the virtual path, both only for a virtual file. *)
Definition fakefs_realpath {P : RealPaths} (pathname : list Z) : outcome (option (list Z) * option (list Z)) :=
  match realpath pathname with
  | Some resolved_path => Done (Some resolved_path, if bool_decide (resolved_path = root_filepath) then Some [SLASH] else None)
  | None =>
      if negb (root_match pathname) then Done (None, None)
      else
        let! o := pop_loop (S (S (length pathname))) (pathname ++ [0]) (u64 (Z.of_nat (length pathname) - 1)) in
        match o with
        | None => Done (None, None)
        | Some (resolved_path, my_pathname, last_idx) =>
            if negb (bool_decide (resolved_path = root_filepath)) then Done (None, None)
            else
              let! (base, v) := virtual_path (until_zero (drop (Z.to_nat (last_idx + 1)) my_pathname)) resolved_path in
              Done (Some base, Some v)
        end
  end.

(** ** Descriptors

    [fd_map] maps descriptors to file objects, which live on a heap since [dup] makes
    two descriptors share one; a directory stream is found by its address.  [kernel]
    holds the descriptors on /dev/null that have been opened. *)

Record fakefile := Fakefile { fd : Z; flags : Z; path : list Z; refcount : Z; offset : Z }.

Record fakedir := Fakedir { dir_fd : Z; entries_read : Z; entry : list (Z * list Z) }.

Record fake := Fake {
  fs : file_system;
  fd_map : gmap Z Z;
  dir_fd_map : gmap Z fakedir;
  files : gmap Z fakefile;
  next_file : Z;
  kernel : gset Z;
}.

(** A call that is passed on to the C library. *)
Inductive reply (A : Type) := Virtual (a : A) | Real.
Arguments Virtual {A} a.
Arguments Real {A}.

Definition set_fs (x : file_system) (s : fake) : fake := Fake x (fd_map s) (dir_fd_map s) (files s) (next_file s) (kernel s).
Definition set_fd_map (m : gmap Z Z) (s : fake) : fake := Fake (fs s) m (dir_fd_map s) (files s) (next_file s) (kernel s).
Definition set_dirs (m : gmap Z fakedir) (s : fake) : fake := Fake (fs s) (fd_map s) m (files s) (next_file s) (kernel s).
Definition set_files (m : gmap Z fakefile) (s : fake) : fake := Fake (fs s) (fd_map s) (dir_fd_map s) m (next_file s) (kernel s).
Definition set_kernel (k : gset Z) (s : fake) : fake := Fake (fs s) (fd_map s) (dir_fd_map s) (files s) (next_file s) k.

(** The path inside the file system, if there is one. *)
Definition virtual_of {P : RealPaths} (pathname : list Z) : outcome (option (list Z)) :=
  let! (base_path, v) := fakefs_realpath pathname in
  Done (match base_path with Some _ => v | None => None end).

(** The object of a virtual descriptor; one that has been freed is undefined. *)
Definition file_of (s : fake) (d : Z) : outcome (option (Z * fakefile)) :=
  match fd_map s !! d with
  | None => Done None
  | Some a => let! f := deref (files s !! a) in Done (Some (a, f))
  end.

Definition with_offset (f : fakefile) (off : Z) : fakefile := Fakefile (fd f) (flags f) (path f) (refcount f) off.

Definition destroy_fakefile (a : Z) (s : fake) : fake := set_files (delete a (files s)) s.

(** [orig_open("/dev/null")] has returned [v_fd]. *)
Definition null_fd (v_fd : Z) (s : fake) : fake := if 0 <=? v_fd then set_kernel ({[v_fd]} ∪ kernel s) s else s.

Definition fake_access {P : RealPaths} (pathname : list Z) (mode : Z) (s : fake) : outcome (reply Z) :=
  let! v := virtual_of pathname in
  match v with Some v => let! r := minixfs_access (fs s) v mode in Done (Virtual r) | None => Done Real end.

Definition fake_open {P : RealPaths} (v_fd : Z) (pathname : list Z) (flag : Z) (s : fake) : outcome (reply Z * fake) :=
  let! v := virtual_of pathname in
  match v with
  | Some v =>
      let! (error, x) := minixfs_open (fs s) v flag in
      let s := set_fs x s in
      if 0 <=? error then
        let s := null_fd v_fd s in
        let a := next_file s in
        let file := Fakefile v_fd 0 v 1 0 in
        Done (Virtual v_fd, Fake (fs s) (<[v_fd := a]> (fd_map s)) (dir_fd_map s) (<[a := file]> (files s)) (a + 1) (kernel s))
      else Done (Virtual (-1), s)
  | None => Done (Real, s)
  end.

Definition fake_creat {P : RealPaths} (v_fd : Z) (pathname : list Z) (s : fake) : outcome (reply Z * fake) :=
  let! v := virtual_of pathname in
  match v with Some _ => fake_open v_fd pathname O_CREAT s | None => Done (Real, s) end.

(** The count and the bytes read. *)
Definition fake_read (d count : Z) (s : fake) : outcome (reply (Z * list Z) * fake) :=
  let! o := file_of s d in
  match o with
  | Some (a, file) =>
      let! (m_read, bytes, off, x) := minixfs_read (fs s) (path file) count (offset file) in
      Done (Virtual (m_read, bytes), set_files (<[a := with_offset file off]> (files s)) (set_fs x s))
  | None => Done (Real, s)
  end.

Definition fake_write (d : Z) (buf : list Z) (count : Z) (s : fake) : outcome (reply Z * fake) :=
  let! o := file_of s d in
  match o with
  | Some (a, file) =>
      let! (res, off, x) := minixfs_write (fs s) (path file) buf count (offset file) in
      Done (Virtual res, set_files (<[a := with_offset file off]> (files s)) (set_fs x s))
  | None => Done (Real, s)
  end.

Definition fake_close (d : Z) (s : fake) : outcome (reply Z * fake) :=
  let! o := file_of s d in
  match o with
  | Some (a, file) =>
      let s := set_fd_map (delete d (fd_map s)) s in
      let file := Fakefile (fd file) (flags file) (path file) (u64 (refcount file - 1)) (offset file) in
      Done (Virtual 0, if refcount file =? 0 then destroy_fakefile a s else set_files (<[a := file]> (files s)) s)
  | None => Done (Real, s)
  end.

Definition SEEK_SET : Z := 0.
Definition SEEK_CUR : Z := 1.
Definition SEEK_END : Z := 2.

(** [fstat_common] and, behind it, [fstat]. *)
Definition fstat_common (d : Z) (s : fake) : outcome (option (Z * option stat) * fake) :=
  let! o := file_of s d in
  match o with
  | Some (_, file) => let! (retval, buf, x) := minixfs_stat (fs s) (path file) in Done (Some (retval, buf), set_fs x s)
  | None => Done (None, s)
  end.

Definition fake_fstat (d : Z) (s : fake) : outcome (reply (Z * option stat) * fake) :=
  let! (hooked, s) := fstat_common d s in
  Done (match hooked with Some r => Virtual r | None => Real end, s).

(** A signed overflow is undefined, and so is the size when [fstat] has not set it. *)
Definition in_off_t (x : Z) : outcome Z := if (-9223372036854775808 <=? x) && (x <=? 9223372036854775807) then Done x else Undef.

Definition fake_lseek (d off whence : Z) (s : fake) : outcome (reply Z * fake) :=
  let! o := file_of s d in
  match o with
  | Some (a, file) =>
      let set x s := (Virtual x, set_files (<[a := with_offset file x]> (files s)) s) in
      if whence =? SEEK_SET then Done (set off s)
      else if whence =? SEEK_CUR then let! x := in_off_t (offset file + off) in Done (set x s)
      else if whence =? SEEK_END then
        let! (r, s) := fake_fstat d s in
        match r with
        | Virtual (retval, buf) =>
            if 0 <=? retval then let! buf := deref buf in let! x := in_off_t (st_size buf + off) in Done (set x s)
            else Done (Virtual (-1), s)
        | Real => Undef
        end
      else Done (Virtual (offset file), s)
  | None => Done (Real, s)
  end.

Definition fake_unlink {P : RealPaths} (pathname : list Z) (s : fake) : outcome (reply Z * fake) :=
  let! v := virtual_of pathname in
  match v with Some v => let! (r, x) := minixfs_unlink v (fs s) in Done (Virtual r, set_fs x s) | None => Done (Real, s) end.

Definition fake_mkdir {P : RealPaths} (pathname : list Z) (mode : Z) (s : fake) : outcome (reply Z * fake) :=
  let! v := virtual_of pathname in
  match v with Some v => let! (r, x) := minixfs_mkdir v mode (fs s) in Done (Virtual r, set_fs x s) | None => Done (Real, s) end.

(** The result of minixfs is dropped. *)
Definition fake_fchmod (d mode : Z) (s : fake) : outcome (reply Z * fake) :=
  let! o := file_of s d in
  match o with
  | Some (_, file) => let! (_, x) := minixfs_chmod (fs s) (path file) mode in Done (Virtual 0, set_fs x s)
  | None => Done (Real, s)
  end.

Definition fake_fchown (d owner group : Z) (s : fake) : outcome (reply Z * fake) :=
  let! o := file_of s d in
  match o with
  | Some (_, file) => let! (_, x) := minixfs_chown (fs s) (path file) owner group in Done (Virtual 0, set_fs x s)
  | None => Done (Real, s)
  end.

(** Opens the file, uses the descriptor and closes it: [chmod], [lchown], [__lxstat].
    [error] is the answer when the file cannot be opened. *)
Definition through_fd {A} {P : RealPaths} (v_fd : Z) (pathname : list Z) (flag : Z) (op : Z -> fake -> outcome (reply A * fake)) (s : fake) : outcome (reply A * fake) :=
  let! (r, s) := fake_open v_fd pathname flag s in
  match r with
  | Real => Done (Real, s)
  | Virtual d =>
      let! (r, s) := op d s in
      let! (_, s) := fake_close d s in
      Done (r, s)
  end.

Definition O_WRONLY : Z := 1.
Definition O_RDONLY : Z := 0.

Definition fake_chmod {P : RealPaths} (v_fd : Z) (pathname : list Z) (mode : Z) : fake -> outcome (reply Z * fake) := through_fd v_fd pathname O_WRONLY (fun d => fake_fchmod d mode).

Definition fake_fchmodat {P : RealPaths} (v_fd : Z) (pathname : list Z) (mode : Z) (s : fake) : outcome (reply Z * fake) :=
  let! v := virtual_of pathname in
  match v with Some _ => fake_chmod v_fd pathname mode s | None => Done (Real, s) end.

Definition fake_lchown {P : RealPaths} (v_fd : Z) (pathname : list Z) (owner group : Z) : fake -> outcome (reply Z * fake) := through_fd v_fd pathname O_WRONLY (fun d => fake_fchown d owner group).

Definition fake_chown {P : RealPaths} := fake_lchown.

Definition fake_fchownat {P : RealPaths} (v_fd : Z) (pathname : list Z) (owner group : Z) (s : fake) : outcome (reply Z * fake) :=
  let! v := virtual_of pathname in
  match v with Some _ => fake_chown v_fd pathname owner group s | None => Done (Real, s) end.

Definition fake_stat {P : RealPaths} (v_fd : Z) (pathname : list Z) (s : fake) : outcome (reply (Z * option stat) * fake) :=
  let! (r, s) := fake_open v_fd pathname O_RDONLY s in
  match r with
  | Real => Done (Real, s)
  | Virtual d =>
      if d =? -1 then Done (Virtual (-1, None), s)
      else
        let! (r, s) := fake_fstat d s in
        let! (_, s) := fake_close d s in
        Done (r, s)
  end.

Definition fake_fstatat {P : RealPaths} (v_fd : Z) (pathname : list Z) (s : fake) : outcome (reply (Z * option stat) * fake) :=
  let! v := virtual_of pathname in
  match v with Some _ => fake_stat v_fd pathname s | None => Done (Real, s) end.

(** The 64-bit variants look the path up before they open it. *)
Definition fake_fstat64 (d : Z) (s : fake) : outcome (reply (Z * option stat) * fake) :=
  let! (hooked, s) := fstat_common d s in
  Done (match hooked with Some r => Virtual r | None => Real end, s).

Definition fake_lstat64 {P : RealPaths} (v_fd : Z) (pathname : list Z) (s : fake) : outcome (reply (Z * option stat) * fake) :=
  let! v := virtual_of pathname in
  match v with
  | None => Done (Real, s)
  | Some _ =>
      let! (r, s) := fake_open v_fd pathname O_RDONLY s in
      match r with
      | Real => Done (Real, s)
      | Virtual d =>
          if d =? -1 then Done (Virtual (-1, None), s)
          else
            let! (r, s) := fake_fstat64 d s in
            let! (_, s) := fake_close d s in
            Done (r, s)
      end
  end.

Definition fake_stat64 {P : RealPaths} := fake_lstat64.

Definition fake_fstatat64 {P : RealPaths} (v_fd : Z) (pathname : list Z) (s : fake) : outcome (reply (Z * option stat) * fake) := fake_lstat64 v_fd pathname s.

(** What [statx] fills in, the device of a special file apart (it is never set). *)
Record statx_buf := Statx {
  stx_mask : Z;
  stx_blksize : Z;
  stx_nlink : Z;
  stx_uid : Z;
  stx_gid : Z;
  stx_mode : Z;
  stx_ino : Z;
  stx_size : Z;
  stx_blocks : Z;
  stx_atime : Z;
  stx_ctime : Z;
  stx_mtime : Z;
  stx_dev_major : Z;
  stx_dev_minor : Z;
}.

Definition STATX_BASIC_STATS : Z := 2047.
Definition EINVAL : Z := 22.

(** [AT_EMPTY_PATH | AT_NO_AUTOMOUNT | AT_SYMLINK_NOFOLLOW]; [clear_flags] is 0. *)
Definition supported_flags : Z := 6400.

(** [major] and [minor] of a device number. *)
Definition major (dev : Z) : Z := Z.lor (Z.land (Z.shiftr dev 8) 4095) (Z.land (Z.shiftr dev 32) 4294963200).
Definition minor (dev : Z) : Z := Z.lor (Z.land dev 255) (Z.land (Z.shiftr dev 12) 4294967040).

Definition fake_statx {P : RealPaths} (v_fd : Z) (pathname : list Z) (flags : Z) (s : fake) : outcome (reply (Z * option statx_buf) * fake) :=
  if negb (Z.land flags (Z.lnot supported_flags) =? 0) then Done (Virtual (-1, None), set_fs (set_errno (fs s) EINVAL) s)
  else
    let! (r, s) := fake_fstatat64 v_fd pathname s in
    match r with
    | Real => Done (Real, s)
    | Virtual (ret, st) =>
        if negb (ret =? 0) then Done (Virtual (ret, None), s)
        else
          let! st := deref st in
          Done (Virtual (0, Some (Statx STATX_BASIC_STATS (u32 (st_blksize st)) (u32 (st_nlink st)) (st_uid st) (st_gid st) (u16 (st_mode st)) (st_ino st) (st_size st)
            (st_blocks st) (st_atim st) (st_ctim st) (st_mtim st) (major (st_dev st)) (minor (st_dev st)))), s)
    end.

(** ** [dup.c]: the number of references is not changed *)

(** [orig_dup2] has returned [res]. *)
Definition fake_dup2 (res oldfd newfd : Z) (s : fake) : outcome (reply Z * fake) :=
  let! o := file_of s oldfd in
  match o with
  | Some (a, _) => Done (Virtual 1, set_fd_map (<[newfd := a]> (fd_map s)) (null_fd res s))
  | None => Done (Real, s)
  end.

Definition fake_dup (newfd oldfd : Z) (s : fake) : outcome (reply Z * fake) :=
  let! o := file_of s oldfd in
  match o with
  | Some (a, _) => Done (Virtual newfd, if 0 <? newfd then set_fd_map (<[newfd := a]> (fd_map s)) (null_fd newfd s) else null_fd newfd s)
  | None => Done (Real, s)
  end.

(** ** [dir.c]; a stream is the one [orig_opendir("/dev/")] returns, [NULL] is 0 *)

Definition fake_fdopendir (realdir d : Z) (s : fake) : outcome (reply Z * fake) :=
  let! o := file_of s d in
  match o with
  | Some (_, file) =>
      let! (es, x) := minixfs_readdir (fs s) (path file) in
      let s := set_fs x s in
      match es with
      | None => Done (Virtual 0, s)
      | Some es => Done (Virtual realdir, set_dirs (<[realdir := Fakedir d 0 es]> (dir_fd_map s)) s)
      end
  | None => Done (Real, s)
  end.

Definition O_DIRECTORY : Z := 65536.

Definition fake_opendir {P : RealPaths} (realdir v_fd : Z) (name : list Z) (s : fake) : outcome (reply Z * fake) :=
  let! (r, s) := fake_open v_fd name O_DIRECTORY s in
  match r with Real => Done (Real, s) | Virtual d => fake_fdopendir realdir d s end.

Definition fake_readdir (dirp : Z) (s : fake) : outcome (reply (option (Z * list Z)) * fake) :=
  match dir_fd_map s !! dirp with
  | None => Done (Real, s)
  | Some dir =>
      if Z.of_nat (length (entry dir)) <=? entries_read dir then Done (Virtual None, s)
      else
        let! e := deref (entry dir !! Z.to_nat (entries_read dir)) in
        Done (Virtual (Some e), set_dirs (<[dirp := Fakedir (dir_fd dir) (entries_read dir + 1) (entry dir)]> (dir_fd_map s)) s)
  end.

(** The caller's buffer is left alone: the entry is the stream's. *)
Definition fake_readdir_r (dirp : Z) (s : fake) : outcome (reply (Z * option (Z * list Z)) * fake) :=
  match dir_fd_map s !! dirp with
  | None => Done (Real, s)
  | Some dir =>
      if Z.of_nat (length (entry dir)) <=? entries_read dir then Done (Virtual (0, None), s)
      else
        let! e := deref (entry dir !! Z.to_nat (entries_read dir)) in
        Done (Virtual (0, Some e), set_dirs (<[dirp := Fakedir (dir_fd dir) (entries_read dir + 1) (entry dir)]> (dir_fd_map s)) s)
  end.

Definition fake_closedir (dirp : Z) (s : fake) : outcome (reply Z * fake) :=
  match dir_fd_map s !! dirp with
  | None => Done (Real, s)
  | Some dir =>
      let! (_, s) := fake_close (dir_fd dir) s in
      Done (Virtual 0, set_dirs (delete dirp (dir_fd_map s)) s)
  end.
