(* ===== verification/FakefsSpec.v ===== *)
(** * Correctness of the routed calls

    The path inside the file system is the one that [.] and [..] describe, with the
    root as its own parent, up to slashes at the end that a [..] may leave. *)

From stdpp Require Import gmap strings.
From S2P Require Import Prelude CString Minixfs Fakefs.
Open Scope Z_scope.

(** ** The reference: components, with [.] skipped and [..] one up *)

Fixpoint components (cs cur : list Z) : list (list Z) :=
  match cs with
  | [] => [cur]
  | c :: cs => if c =? SLASH then cur :: components cs [] else components cs (cur ++ [c])
  end.

Definition enter (st : list (list Z)) (c : list Z) : list (list Z) :=
  if bool_decide (c = [] \/ c = [DOT]) then st
  else if bool_decide (c = [DOT; DOT]) then removelast st
  else st ++ [c].

Definition resolve (path : list Z) : list (list Z) := foldl enter [] (components path []).

Definition body (st : list (list Z)) : list Z := concat (map (cons SLASH) st).

Definition path_of (st : list (list Z)) : list Z := match st with [] => [SLASH] | _ => body st end.

Lemma body_snoc st c : body (st ++ [c]) = body st ++ SLASH :: c.
Proof. unfold body. rewrite map_app, concat_app. cbn. by rewrite app_nil_r. Qed.

Lemma components_cons comp cs cur : SLASH ∉ comp -> components (comp ++ cs) cur = components cs (cur ++ comp).
Proof.
  revert cur. induction comp as [|c comp IH]; intros cur Hs; [by rewrite app_nil_r|]. apply not_elem_of_cons in Hs as [Hc Hs]. cbn [app components].
  rewrite (proj2 (Z.eqb_neq _ _)) by (intros ->; done). rewrite IH by done. by rewrite <- app_assoc.
Qed.

(** The first component and what follows. *)
Lemma split_path cs : exists comp, (SLASH ∉ comp) /\
  ((cs = comp /\ components cs [] = [comp]) \/ exists rest, cs = comp ++ SLASH :: rest /\ components cs [] = comp :: components rest []).
Proof.
  assert (Hs : exists comp, (SLASH ∉ comp) /\ (cs = comp \/ exists rest, cs = comp ++ SLASH :: rest)).
  { induction cs as [|c cs (comp & Hn & Hcs)]; [exists []; split; [by apply not_elem_of_nil|by left]|].
    destruct (decide (c = SLASH)) as [->|Hc]; [exists []; split; [by apply not_elem_of_nil|right; by exists cs]|].
    exists (c :: comp). split; [by apply not_elem_of_cons|]. destruct Hcs as [->|(rest & ->)]; [by left|right; by exists rest]. }
  destruct Hs as (comp & Hn & Hcs). exists comp. split; [done|]. destruct Hcs as [->|(rest & ->)]; [left|right; exists rest]; (split; [done|]).
  - rewrite <- (app_nil_r comp) at 1. by rewrite components_cons by done.
  - by rewrite components_cons by done.
Qed.

(** ** One round of the loop *)

Lemma at_idx_lookup b i c : b !! i = Some c -> at_idx b (Z.of_nat i) = Done c.
Proof. intros H. apply lookup_lt_Some in H as Hl. unfold at_idx. rewrite (proj2 (Z.ltb_lt _ _)) by lia. by rewrite Nat2Z.id, H. Qed.

Lemma at_idx_mid a (c : Z) b : at_idx (a ++ c :: b) (Z.of_nat (length a)) = Done c.
Proof. apply at_idx_lookup. by rewrite lookup_app_r, Nat.sub_diag by lia. Qed.

Lemma at_idx_hd a b : b <> [] -> at_idx (a ++ b) (Z.of_nat (length a)) = Done (default 0 (head b)).
Proof. destruct b; [done|]. intros _. apply at_idx_mid. Qed.

Lemma set_idx_mid a (c d : Z) b : set_idx (a ++ c :: b) (Z.of_nat (length a)) d = Done (a ++ d :: b).
Proof.
  unfold set_idx. rewrite (proj2 (Z.ltb_lt _ _)) by (rewrite length_app; cbn; lia). rewrite Nat2Z.id, insert_app_r_alt, Nat.sub_diag by lia. done.
Qed.

(** What [.] and [..] look like from their first character on. *)
Definition special (cs : list Z) : Prop :=
  match cs with
  | c :: cs => c = DOT /\ (char_is_end (default 0 (head cs)) = true \/ (head cs = Some DOT /\ char_is_end (default 0 (head (tail cs))) = true))
  | [] => False
  end.

Section Loop.

Variables (orig res : list Z).

Abbreviation loop fuel curr bnd v vi := (virtual_loop fuel (orig ++ [0]) (Z.of_nat curr) bnd v (Z.of_nat vi) res).

Lemma in_loop pre c cs : orig = pre ++ c :: cs -> (Z.of_nat (length pre) <? Z.of_nat (length (orig ++ [0])) - 1) = true.
Proof. intros ->. apply Z.ltb_lt. rewrite !length_app. cbn. lia. Qed.

Lemma read_orig pre cs i : orig = pre ++ cs -> (i <= length cs)%nat -> at_idx (orig ++ [0]) (Z.of_nat (length pre) + Z.of_nat i) = Done (default 0 (head (drop i cs))).
Proof.
  intros -> Hi. rewrite <- Nat2Z.inj_add. apply at_idx_lookup. rewrite <- app_assoc, lookup_app_r by lia. replace (length pre + i - length pre)%nat with i by lia.
  rewrite <- (take_drop i cs) at 1. rewrite <- app_assoc, lookup_app_r by (rewrite length_take; lia). rewrite length_take, Nat.min_l, Nat.sub_diag by lia. by destruct (drop i cs).
Qed.

Lemma read_here pre c cs : orig = pre ++ c :: cs -> at_idx (orig ++ [0]) (Z.of_nat (length pre)) = Done c.
Proof. intros ->. rewrite <- app_assoc. apply at_idx_mid. Qed.

Lemma read_next pre c cs : orig = pre ++ c :: cs -> at_idx (orig ++ [0]) (Z.of_nat (length pre) + 1) = Done (default 0 (head cs)).
Proof. intros Ho. apply (read_orig pre (c :: cs) 1 Ho). cbn. lia. Qed.

Lemma read_next2 pre c d cs : orig = pre ++ c :: d :: cs -> at_idx (orig ++ [0]) (Z.of_nat (length pre) + 2) = Done (default 0 (head cs)).
Proof. intros Ho. apply (read_orig pre (c :: d :: cs) 2 Ho). cbn. lia. Qed.

Lemma copy_step fuel pre c cs bnd a j junk :
  orig = pre ++ c :: cs -> c <> SLASH -> (bnd = true -> ~ special (c :: cs)) ->
  loop (S fuel) (length pre) bnd (a ++ j :: junk) (length a) = loop fuel (S (length pre)) false (a ++ c :: junk) (S (length a)).
Proof.
  intros Ho Hc Hsp. cbn [virtual_loop]. rewrite (in_loop _ _ _ Ho), (read_here _ _ _ Ho). cbn [obind]. rewrite (proj2 (Z.eqb_neq c SLASH)) by done. cbn [obind]. rewrite set_idx_mid. cbn [obind].
  rewrite !Nat2Z.inj_succ. unfold Z.succ.
  destruct bnd; [|done]. cbn [negb orb]. destruct (Z.eqb_spec c DOT) as [->|]; [|done]. cbn [negb]. specialize (Hsp eq_refl). cbn [special] in Hsp.
  rewrite (read_next _ _ _ Ho). cbn [obind]. destruct (char_is_end (default 0 (head cs))) eqn:E1; [destruct Hsp; auto|].
  destruct (Z.eqb_spec (default 0 (head cs)) DOT) as [Hd|]; [|done]. cbn [negb]. destruct cs as [|d cs]; [done|]. cbn in Hd. subst d.
  rewrite (read_next2 _ _ _ _ Ho). cbn [obind]. destruct (char_is_end (default 0 (head cs))) eqn:E2; [destruct Hsp; auto|]. done.
Qed.

(** A component is copied. *)
Lemma copy_run p fuel pre cs bnd a junk junk' :
  orig = pre ++ p ++ cs -> SLASH ∉ p -> (bnd = true -> ~ special (p ++ cs)) -> length junk = length p -> p <> [] ->
  loop (length p + fuel) (length pre) bnd (a ++ junk ++ junk') (length a) = loop fuel (length pre + length p) false (a ++ p ++ junk') (length a + length p).
Proof.
  revert pre bnd a junk. induction p as [|c p IH]; intros pre bnd a junk Ho Hs Hsp Hj Hne; [done|]. destruct junk as [|j junk]; [done|]. apply not_elem_of_cons in Hs as [Hc Hs].
  cbn [length app Nat.add] in *. rewrite (copy_step (length p + fuel) pre c (p ++ cs) bnd a j (junk ++ junk')) by (done || congruence). destruct p as [|d p].
  - destruct junk; [|done]. cbn. by rewrite !Nat.add_1_r.
  - pose proof (IH (pre ++ [c]) false (a ++ [c]) junk) as H. rewrite !length_app, <- !app_assoc in H. cbn [length app] in H. rewrite !Nat.add_1_r in H.
    cbn [length app Nat.add] in *. rewrite H; [|done|done|done|by injection Hj|done]. cbn [length]. f_equal; lia.
Qed.

(** A slash behind a component, and one behind a slash. *)
Lemma slash_step fuel pre cs a x j junk :
  orig = pre ++ SLASH :: cs -> x <> SLASH ->
  loop (S fuel) (length pre) false (a ++ x :: j :: junk) (S (length a)) = loop fuel (S (length pre)) true (a ++ x :: SLASH :: junk) (S (S (length a))).
Proof.
  intros Ho Hx. cbn [virtual_loop]. rewrite (in_loop _ _ _ Ho), (read_here _ _ _ Ho). cbn [obind negb orb Z.eqb SLASH Pos.eqb].
  rewrite (proj2 (Z.eqb_neq (Z.of_nat (S (length a))) 0)) by lia. replace (Z.of_nat (S (length a)) - 1) with (Z.of_nat (length a)) by lia. rewrite at_idx_mid. cbn [obind negb andb].
  rewrite (proj2 (Z.eqb_neq x SLASH)) by done. replace (a ++ x :: j :: junk) with ((a ++ [x]) ++ j :: junk) by (by rewrite <- app_assoc).
  replace (Z.of_nat (S (length a))) with (Z.of_nat (length (a ++ [x]))) by (rewrite length_app; cbn; lia). rewrite set_idx_mid. cbn [obind]. rewrite <- app_assoc. cbn [app].
  rewrite !length_app. cbn [length]. f_equal; lia.
Qed.

Lemma slash_again fuel pre cs a junk :
  orig = pre ++ SLASH :: cs ->
  loop (S fuel) (length pre) true (a ++ SLASH :: junk) (S (length a)) = loop fuel (S (length pre)) true (a ++ SLASH :: junk) (S (length a)).
Proof.
  intros Ho. cbn [virtual_loop]. rewrite (in_loop _ _ _ Ho), (read_here _ _ _ Ho). cbn [obind negb orb Z.eqb SLASH DOT Pos.eqb].
  rewrite (proj2 (Z.eqb_neq (Z.of_nat (S (length a))) 0)) by lia. replace (Z.of_nat (S (length a)) - 1) with (Z.of_nat (length a)) by lia. change 47 with SLASH. rewrite at_idx_mid. cbn [obind negb andb Z.eqb SLASH Pos.eqb].
  replace (Z.of_nat (S (length a)) - 1) with (Z.of_nat (length a)) by lia. rewrite set_idx_mid. cbn [obind]. f_equal; lia.
Qed.

(** [.] is skipped. *)
Lemma dot_step fuel pre cs v vi : orig = pre ++ DOT :: cs -> char_is_end (default 0 (head cs)) = true ->
  loop (S fuel) (length pre) true v vi = loop fuel (S (S (length pre))) true v vi.
Proof.
  intros Ho He. cbn [virtual_loop]. rewrite (in_loop _ _ _ Ho), (read_here _ _ _ Ho). cbn [obind negb orb Z.eqb SLASH DOT Pos.eqb].
  rewrite (read_next _ _ _ Ho). cbn [obind]. rewrite He. f_equal; lia.
Qed.

Lemma dotdot_step fuel pre cs v vi : orig = pre ++ DOT :: DOT :: cs -> char_is_end (default 0 (head cs)) = true ->
  loop (S fuel) (length pre) true v vi =
  (let! (v', vi', res') := to_parent v (Z.of_nat vi) res in virtual_loop fuel (orig ++ [0]) (Z.of_nat (3 + length pre)) true v' vi' res').
Proof.
  intros Ho He. cbn [virtual_loop]. rewrite (in_loop _ _ _ Ho), (read_here _ _ _ Ho). cbn [obind negb orb Z.eqb SLASH DOT Pos.eqb].
  rewrite (read_next _ _ _ Ho). cbn [head default obind char_is_end orb Z.eqb SLASH DOT Pos.eqb negb].
  change 46 with DOT. cbn. rewrite (read_next2 _ _ _ _ Ho). cbn [obind]. rewrite He. by replace (Z.of_nat (length pre) + 3) with (Z.of_nat (S (S (S (length pre))))) by lia.
Qed.

End Loop.

Lemma clear_back_ok c : forall fuel a junk, SLASH ∉ c -> (length c < fuel)%nat ->
  clear_back fuel (a ++ SLASH :: c ++ junk) (Z.of_nat (length a + length c)) = Done (a ++ SLASH :: replicate (length c) 0 ++ junk, Z.of_nat (length a)).
Proof.
  induction c as [|x c IH] using rev_ind; intros [|fuel] a junk Hs Hf; cbn [length] in Hf; try lia; cbn [clear_back].
  - cbn [length app replicate]. rewrite Nat.add_0_r. destruct (Z.eqb_spec (Z.of_nat (length a)) 0); [done|]. by rewrite at_idx_mid.
  - rewrite length_app in *. cbn [length] in *. rewrite not_elem_of_app in Hs. destruct Hs as [Hs Hx]. apply not_elem_of_cons in Hx as [Hx _].
    rewrite (proj2 (Z.eqb_neq _ 0)) by lia. replace (a ++ SLASH :: (c ++ [x]) ++ junk) with ((a ++ SLASH :: c) ++ x :: junk) by (by rewrite <- !app_assoc).
    replace (Z.of_nat (length a + (length c + 1))) with (Z.of_nat (length (a ++ SLASH :: c))) by (rewrite length_app; cbn; lia).
    rewrite at_idx_mid. cbn [obind]. rewrite (proj2 (Z.eqb_neq x SLASH)) by done. rewrite set_idx_mid. cbn [obind].
    replace (Z.of_nat (length (a ++ SLASH :: c)) - 1) with (Z.of_nat (length a + length c)) by (rewrite length_app; cbn; lia).
    rewrite <- app_assoc. cbn [app]. rewrite IH by (done || lia). by rewrite replicate_add, <- app_assoc.
Qed.

Lemma to_parent_pop a c junk res : SLASH ∉ c -> c <> [] ->
  to_parent (a ++ SLASH :: c ++ SLASH :: junk) (Z.of_nat (length a + length c + 2)) res = Done (a ++ SLASH :: replicate (length c) 0 ++ SLASH :: junk, Z.of_nat (S (length a)), res).
Proof.
  intros Hs Hc. unfold to_parent. rewrite (proj2 (Z.leb_le _ _)) by lia. replace (Z.of_nat (length a + length c + 2) - 2) with (Z.of_nat (length a + length c)) by lia.
  rewrite clear_back_ok by (done || lia). cbn [obind]. rewrite at_idx_mid. cbn [obind]. rewrite Z.eqb_refl. do 3 f_equal. lia.
Qed.

Lemma to_parent_root j junk res : j <> SLASH -> to_parent (SLASH :: j :: junk) 1 res = Done (SLASH :: j :: junk, 1, cut_parent res).
Proof. intros Hj. unfold to_parent. cbn. rewrite (at_idx_lookup (SLASH :: j :: junk) 1 j eq_refl : at_idx _ 1 = _). cbn [obind]. by rewrite (proj2 (Z.eqb_neq j SLASH)). Qed.

(** ** The whole path *)

(** A component that is not skipped and goes nowhere else. *)
Definition name_ok (c : list Z) : Prop := c <> [] /\ (SLASH ∉ c) /\ (0 ∉ c).

(** What is left of components that have been removed. *)
Definition junk_ok (clean : bool) (junk : list Z) : Prop :=
  junk <> [] /\ last junk = Some 0 /\ Forall (fun c => c = 0 \/ (clean = false /\ c = SLASH)) junk.

Definition no_parent (clean : bool) (cs : list (list Z)) : Prop := clean = true -> [DOT; DOT] ∉ cs.

Lemma not_special comp cs : SLASH ∉ comp -> 0 ∉ comp -> comp <> [] -> comp <> [DOT] -> comp <> [DOT; DOT] -> (cs = [] \/ head cs = Some SLASH) -> ~ special (comp ++ cs).
Proof.
  intros Hs Hz H0 H1 H2 Hcs. destruct comp as [|c comp]; [done|]. cbn [app special]. intros [-> Hsp]. apply not_elem_of_cons in Hs as [_ Hs]. apply not_elem_of_cons in Hz as [_ Hz].
  assert (Hend : forall d, d <> SLASH -> d <> 0 -> char_is_end d = false) by (intros d Hd Hd0; unfold char_is_end; by rewrite (proj2 (Z.eqb_neq _ _)), (proj2 (Z.eqb_neq _ _))).
  destruct comp as [|d comp]; [done|]. apply not_elem_of_cons in Hs as [Hd Hs]. apply not_elem_of_cons in Hz as [Hd0 Hz]. cbn -[char_is_end] in Hsp.
  rewrite (Hend d) in Hsp by done. destruct Hsp as [|[[= ->] Hsp]]; [done|]. destruct comp as [|e comp]; [done|]. apply not_elem_of_cons in Hs as [He Hs]. apply not_elem_of_cons in Hz as [He0 Hz].
  cbn -[char_is_end] in Hsp. rewrite (Hend e) in Hsp by done. done.
Qed.

Lemma junk_zero clean junk : junk_ok clean junk -> exists j, until_zero junk = replicate j SLASH /\ (clean = true -> j = 0%nat).
Proof.
  intros (_ & _ & Hall). induction Hall as [|c junk Hc _ (j & IH & Hj)]; [by exists 0%nat|]. destruct Hc as [-> | [-> ->]]; [by exists 0%nat|].
  exists (S j). split; [|done]. cbn. by rewrite IH.
Qed.

Lemma junk_drop clean junk n : junk_ok clean junk -> (n < length junk)%nat -> junk_ok clean (drop n junk).
Proof.
  intros (_ & Hl & Hall) Hn. split; [intros H; apply (f_equal length) in H; rewrite length_drop in H; cbn in H; lia|]. split; [|by apply Forall_drop].
  rewrite last_lookup in *. rewrite lookup_drop, length_drop. rewrite <- Hl. f_equal. lia.
Qed.

Lemma until_zero_skip s t : 0 ∉ s -> until_zero (s ++ t) = s ++ until_zero t.
Proof.
  induction s as [|c s IH]; intros Hs; [done|]. apply not_elem_of_cons in Hs as [Hc Hs]. cbn. rewrite (proj2 (Z.eqb_neq _ _)) by done. by rewrite IH.
Qed.

Lemma body_zero st : Forall name_ok st -> 0 ∉ body st.
Proof.
  induction 1 as [|c st (_ & _ & Hc) _ IH]; [by apply not_elem_of_nil|]. unfold body in *. cbn. rewrite not_elem_of_cons, not_elem_of_app. done.
Qed.

(** What the loop leaves. *)
Definition walked (clean : bool) (st : list (list Z)) (res : list Z) (o : outcome (list Z * list Z)) : Prop :=
  exists v res' k, o = Done (v, res') /\ until_zero v = body st ++ replicate k SLASH /\ (st = [] -> (0 < k)%nat) /\ (clean = true -> (k <= 1)%nat /\ res' = res) /\ Forall name_ok st.

Lemma walk_stop clean orig curr bnd st t k res fuel vi :
  (length orig <= curr)%nat -> (0 < fuel)%nat -> Forall name_ok st -> until_zero t = replicate k SLASH -> (st = [] -> (0 < k)%nat) -> (clean = true -> (k <= 1)%nat) ->
  walked clean st res (virtual_loop fuel (orig ++ [0]) (Z.of_nat curr) bnd (body st ++ t) vi res).
Proof.
  intros Hc Hf Hst Hz Hk Hcl. destruct fuel as [|fuel]; [lia|]. cbn [virtual_loop]. rewrite (proj2 (Z.ltb_ge _ _)) by (rewrite length_app; cbn; lia).
  exists (body st ++ t), res, k. split; [done|]. split; [rewrite until_zero_skip by (by apply body_zero); by rewrite Hz|]. split; [done|]. split; [auto|done].
Qed.

Lemma walk_end clean orig curr bnd st junk res fuel vi :
  (length orig <= curr)%nat -> (0 < fuel)%nat -> Forall name_ok st -> junk_ok clean junk ->
  walked clean st res (virtual_loop fuel (orig ++ [0]) (Z.of_nat curr) bnd (body st ++ SLASH :: junk) vi res).
Proof.
  intros Hc Hf Hst Hj. destruct (junk_zero clean junk Hj) as (j & Hz & Hj0). apply (walk_stop _ _ _ _ _ _ (S j)); try done; [cbn; by rewrite Hz|lia|intros Hcl; rewrite Hj0 by done; lia].
Qed.

Lemma walked_weaken clean st res res' o : clean = false -> walked clean st res' o -> walked clean st res o.
Proof. intros -> (v & r & k & -> & Hz & Hs & _ & Hn). exists v, r, k. by repeat split. Qed.

Lemma enter_name st c : c <> [] -> c <> [DOT] -> c <> [DOT; DOT] -> enter st c = st ++ [c].
Proof. intros. unfold enter. rewrite !bool_decide_false; [done|done|]. intros [|]; done. Qed.

Lemma body_name st c t : body st ++ SLASH :: c ++ t = body (st ++ [c]) ++ t.
Proof. rewrite body_snoc, <- app_assoc. done. Qed.

Lemma walk clean orig n : forall cs pre st junk res fuel,
  (length cs <= n)%nat -> orig = pre ++ cs -> 0 ∉ cs -> Forall name_ok st -> junk_ok clean junk -> (st = [] -> head junk <> Some SLASH) ->
  (length cs < length junk)%nat -> no_parent clean (components cs []) -> (length cs < fuel)%nat ->
  walked clean (foldl enter st (components cs [])) res (virtual_loop fuel (orig ++ [0]) (Z.of_nat (length pre)) true (body st ++ SLASH :: junk) (Z.of_nat (S (length (body st)))) res).
Proof.
  induction n as [|n IH]; intros cs pre st junk res fuel Hn Ho Hz Hst Hj Hhd Hlen Hnp Hf.
  { destruct cs as [|c cs]; [|cbn in Hn; lia]. rewrite app_nil_r in Ho. subst pre. apply walk_end; [done|lia|done|done]. }
  destruct (split_path cs) as (comp & Hcs & Hsplit). assert (Hcz : 0 ∉ comp) by (destruct Hsplit as [[<- _]|(rest & -> & _)]; [done|]; intros Hin; apply Hz, elem_of_app; by left).
  (* what follows the component *)
  assert (Hnext : forall rest st' junk' res' fuel', cs = comp ++ SLASH :: rest -> components cs [] = comp :: components rest [] -> Forall name_ok st' -> junk_ok clean junk' ->
    (st' = [] -> head junk' <> Some SLASH) -> (length rest < length junk')%nat -> (length rest < fuel')%nat ->
    walked clean (foldl enter st' (components rest [])) res' (virtual_loop fuel' (orig ++ [0]) (Z.of_nat (length pre + length comp + 1)) true (body st' ++ SLASH :: junk') (Z.of_nat (S (length (body st')))) res')).
  { intros rest st' junk' res' fuel' Hr Hco Hst' Hj' Hhd' Hl' Hf'. subst cs. rewrite length_app in Hn. cbn [length] in Hn.
    replace (length pre + length comp + 1)%nat with (length (pre ++ comp ++ [SLASH])) by (rewrite !length_app; cbn; lia).
    apply IH; try done; [lia|by rewrite Ho, <- !app_assoc| |].
    - intros Hin. apply Hz, elem_of_app. right. by right.
    - intros Hcl Hin. apply (Hnp Hcl). rewrite Hco. by right. }
  destruct fuel as [|fuel]; [lia|].
  destruct (decide (comp = [])) as [->|Hc0]; [|destruct (decide (comp = [DOT])) as [->|Hc1]; [|destruct (decide (comp = [DOT; DOT])) as [->|Hc2]]].
  - destruct Hsplit as [[-> Hco]|(rest & Hr & Hco)]; rewrite Hco; cbn [foldl].
    + rewrite app_nil_r in Ho. subst pre. apply walk_end; [done|lia|done|done].
    + rewrite (slash_again orig res fuel pre rest) by (by rewrite Ho, Hr). subst cs. cbn [app length] in *.
      replace (S (length pre)) with (length pre + 0 + 1)%nat by lia. apply Hnext; try done; [lia|lia].
  - destruct Hsplit as [[-> Hco]|(rest & Hr & Hco)]; rewrite Hco; cbn [foldl].
    + rewrite (dot_step orig res fuel pre []) by done. apply walk_end; [rewrite Ho, length_app; cbn; lia|cbn in Hf; lia|done|done].
    + rewrite (dot_step orig res fuel pre (SLASH :: rest)) by (done || by rewrite Ho, Hr). subst cs. cbn [app length] in *.
      replace (S (S (length pre))) with (length pre + 1 + 1)%nat by lia. apply Hnext; try done; [lia|lia].
  - destruct clean; [exfalso; apply (Hnp eq_refl); destruct Hsplit as [[_ Hco]|(rest & _ & Hco)]; rewrite Hco; by left|].
    assert (Hpar : exists junk' res', to_parent (body st ++ SLASH :: junk) (Z.of_nat (S (length (body st)))) res =
        Done (body (removelast st) ++ SLASH :: junk', Z.of_nat (S (length (body (removelast st)))), res') /\ junk_ok false junk' /\ head junk' <> Some SLASH /\ (length junk <= length junk')%nat /\ Forall name_ok (removelast st)).
    { destruct st as [|c st _] using rev_ind.
      - destruct junk as [|j junk]; [by destruct Hj|]. exists (j :: junk), (cut_parent res). cbn. rewrite to_parent_root by (intros ->; by apply Hhd). split; [done|]. split; [done|]. split; [by apply Hhd|]. split; [lia|constructor].
      - apply Forall_app in Hst as [Hst Hc]. rewrite Forall_singleton in Hc. destruct Hc as (Hne & Hs & Hcz0). rewrite removelast_last, body_snoc, <- app_assoc. cbn [app].
        replace (Z.of_nat (S (length (body st ++ SLASH :: c)))) with (Z.of_nat (length (body st) + length c + 2)) by (rewrite length_app; cbn; lia). rewrite to_parent_pop by done.
        exists (replicate (length c) 0 ++ SLASH :: junk), res. split; [done|]. destruct Hj as (Hj0 & Hj1 & Hj2). split; [split; [by destruct c|split]|].
        + rewrite last_app_cons, last_cons, Hj1. by destruct junk.
        + apply Forall_app. split; [apply Forall_replicate; by left|]. constructor; [by right|done].
        + split; [by destruct c|]. split; [rewrite length_app, length_replicate; cbn; lia|done]. }
    destruct Hpar as (junk' & res' & Hpar & Hj' & Hhd' & Hlj & Hst').
    assert (He : enter st [DOT; DOT] = removelast st) by (unfold enter; rewrite bool_decide_false by (intros [|]; done); by rewrite bool_decide_true).
    destruct Hsplit as [[-> Hco]|(rest & Hr & Hco)]; rewrite Hco; cbn [foldl]; rewrite He.
    + rewrite (dotdot_step orig res fuel pre []) by done. rewrite Hpar. cbn [obind]. apply (walked_weaken false _ _ res'); [done|]. apply walk_end; [rewrite Ho, length_app; cbn; lia|cbn in Hf; lia|done|done].
    + rewrite (dotdot_step orig res fuel pre (SLASH :: rest)) by (done || by rewrite Ho, Hr). rewrite Hpar. cbn [obind]. apply (walked_weaken false _ _ res'); [done|]. subst cs. cbn [app length] in *.
      replace (3 + length pre)%nat with (length pre + 2 + 1)%nat by lia. apply Hnext; try done; [lia|lia].
  - assert (Hname : name_ok comp) by done. assert (Hst' : Forall name_ok (st ++ [comp])) by (apply Forall_app; split; [done|by rewrite Forall_singleton]).
    assert (Hcl : (length comp < length junk)%nat) by (destruct Hsplit as [[-> _]|(rest & -> & _)]; [done|]; rewrite length_app in Hlen; cbn in Hlen; lia).
    assert (Hlj : length (take (length comp) junk) = length comp) by (rewrite length_take; lia). pose proof (junk_drop clean junk (length comp) Hj Hcl) as Hjd.
    rewrite <- (take_drop (length comp) junk) at 1. set (j1 := take (length comp) junk) in *. set (j2 := drop (length comp) junk) in *.
    replace (body st ++ SLASH :: j1 ++ j2) with ((body st ++ [SLASH]) ++ j1 ++ j2) by (by rewrite <- app_assoc).
    replace (S (length (body st))) with (length (body st ++ [SLASH])) by (rewrite length_app; cbn; lia).
    assert (Hsp : forall tl, tl = [] \/ head tl = Some SLASH -> true = true -> ~ special (comp ++ tl)) by (intros; by apply not_special).
    destruct Hsplit as [[-> Hco]|(rest & Hr & Hco)]; rewrite Hco; cbn [foldl]; rewrite enter_name by done.
    + replace (S fuel) with (length comp + (S fuel - length comp))%nat by lia.
      rewrite (copy_run orig res comp _ pre [] true (body st ++ [SLASH]) j1 j2); [|by rewrite app_nil_r|done|apply Hsp; by left|done|done].
      rewrite <- app_assoc. cbn [app]. rewrite body_name. destruct (junk_zero clean j2 Hjd) as (j & Hzj & Hj0).
      apply (walk_stop _ _ _ _ _ _ j); [rewrite Ho, length_app; lia|lia|done|done|by destruct st|intros Hclean; rewrite Hj0 by done; lia].
    + subst cs. rewrite length_app in Hf, Hlen. cbn [length] in Hf, Hlen. replace (S fuel) with (length comp + S (fuel - length comp))%nat by lia.
      rewrite (copy_run orig res comp _ pre (SLASH :: rest) true (body st ++ [SLASH]) j1 j2); [|done|done|apply Hsp; by right|done|done].
      assert (Hj2 : length j2 = (length junk - length comp)%nat) by (unfold j2; apply length_drop).
      destruct j2 as [|j j3] eqn:Ej2; [cbn in Hj2; lia|]. destruct (exists_last Hc0) as (c' & x & Hcx).
      assert (Hx : x <> SLASH) by (intros ->; apply Hcs; rewrite Hcx; apply elem_of_app; right; by left).
      replace ((body st ++ [SLASH]) ++ comp ++ j :: j3) with ((body st ++ SLASH :: c') ++ x :: j :: j3) by (rewrite Hcx, <- !app_assoc; done).
      replace (length (body st ++ [SLASH]) + length comp)%nat with (S (length (body st ++ SLASH :: c'))) by (rewrite Hcx, !length_app; cbn; lia).
      replace (length pre + length comp)%nat with (length (pre ++ comp)) by (by rewrite length_app).
      rewrite (slash_step orig res (fuel - length comp) (pre ++ comp) rest) by (try done; by rewrite Ho, <- app_assoc).
      replace ((body st ++ SLASH :: c') ++ x :: SLASH :: j3) with (body (st ++ [comp]) ++ SLASH :: j3) by (rewrite body_snoc, Hcx, <- !app_assoc; cbn [app]; by rewrite <- ?app_assoc).
      replace (S (S (length (body st ++ SLASH :: c')))) with (S (length (body (st ++ [comp])))) by (rewrite body_snoc, Hcx, !length_app; cbn; rewrite length_app; cbn; lia).
      replace (S (length (pre ++ comp))) with (length pre + length comp + 1)%nat by (rewrite length_app; lia). cbn [length] in Hj2.
      apply Hnext; try done; [|by destruct st|lia|lia]. apply (junk_drop clean (j :: j3) 1 Hjd). cbn. lia.
Qed.

Lemma body_last st : Forall name_ok st -> st <> [] -> exists s x, body st = s ++ [x] /\ x <> SLASH /\ s <> [].
Proof.
  intros Hst Hne. destruct (exists_last Hne) as (st' & c & ->). apply Forall_app in Hst as [_ Hc]. rewrite Forall_singleton in Hc. destruct Hc as (Hc & Hs & _).
  destruct (exists_last Hc) as (c' & x & ->). exists (body st' ++ SLASH :: c'), x. rewrite body_snoc, <- app_assoc. split; [done|]. split; [|by destruct (body st')].
  intros ->. apply Hs, elem_of_app. right. by left.
Qed.

Lemma trim_same s x : x <> SLASH -> trim (s ++ [x]) = s ++ [x].
Proof.
  intros Hx. unfold trim. destruct (s ++ [x]) as [|y l] eqn:E; [by destruct s|]. rewrite <- E, last_snoc. rewrite (bool_decide_false (Some x = Some SLASH)) by congruence. by rewrite andb_false_r.
Qed.

Lemma trim_slash s : s <> [] -> trim (s ++ [SLASH]) = s.
Proof.
  intros Hs. unfold trim. destruct (s ++ [SLASH]) as [|y l] eqn:E; [by destruct s|]. rewrite <- E, last_snoc, bool_decide_true by done. rewrite removelast_last.
  rewrite (proj2 (Z.ltb_lt _ _)); [done|]. rewrite length_app. destruct s; [done|]. cbn. lia.
Qed.

Lemma trim_ok st k : Forall name_ok st -> (st = [] -> (0 < k)%nat) ->
  exists k', trim (body st ++ replicate k SLASH) = path_of st ++ replicate k' SLASH /\ ((k <= 1)%nat -> k' = 0%nat).
Proof.
  intros Hst Hk. destruct (decide (st = [])) as [->|Hne].
  - specialize (Hk eq_refl). destruct k as [|[|k]]; [lia|by exists 0%nat|]. exists k. split; [|lia]. change (body [] ++ replicate (S (S k)) SLASH) with (replicate (S (S k)) SLASH).
    rewrite (replicate_S_end (S k)), trim_slash; done.
  - assert (Hp : path_of st = body st) by (by destruct st). rewrite Hp. destruct (body_last st Hst Hne) as (s & x & Hb & Hx & Hs). destruct k as [|k].
    + exists 0%nat. cbn [replicate]. rewrite !app_nil_r, Hb. split; [by apply trim_same|done].
    + exists k. split; [|lia]. rewrite (replicate_S_end k), app_assoc, trim_slash; [done|]. rewrite Hb. by destruct s.
Qed.

Lemma virtual_path_ok orig res : 0 ∉ orig ->
  exists base k, virtual_path orig res = Done (base, path_of (resolve orig) ++ replicate k SLASH) /\ ([DOT; DOT] ∉ components orig [] -> k = 0%nat /\ base = res).
Proof.
  intros Hz. unfold virtual_path. set (clean := bool_decide ([DOT; DOT] ∉ components orig [])).
  destruct (walk clean orig (length orig) orig [] [] (replicate (S (length orig)) 0) res (S (length orig))) as (v & base & k & Hrun & Hv & Hk & Hcl & Hn); try done.
  - split; [done|]. split; [by rewrite replicate_S_end, last_snoc|]. apply Forall_replicate. by left.
  - rewrite length_replicate. lia.
  - unfold no_parent, clean. intros H. by apply bool_decide_eq_true in H.
  - lia.
  - cbn [length body map concat app] in Hrun. change (Z.of_nat 0) with 0 in Hrun. change (Z.of_nat 1) with 1 in Hrun. change (body []) with (@nil Z) in Hrun. cbn [length app] in Hrun. rewrite Hrun. cbn [obind]. rewrite Hv.
    destruct (trim_ok _ k Hn Hk) as (k' & -> & Hk'). exists base, k'. split; [done|]. intros Hd. destruct Hcl as [Hk1 ->]; [unfold clean; by apply bool_decide_true|]. split; [by apply Hk'|done].
Qed.

(** ** Popping directories *)

Lemma back_ok path j fuel : forall n, (n - j < fuel)%nat -> (0 < j <= n)%nat -> path !! j = Some SLASH -> Z.of_nat n < 2 ^ 63 ->
  (forall m, (j < m <= n)%nat -> exists c, path !! m = Some c /\ c <> SLASH) -> back_to_slash fuel path (Z.of_nat n) = Done (Some (Z.of_nat j)).
Proof.
  induction fuel as [|fuel IH]; intros n Hf Hj Hs Hb Hm; [lia|]. cbn [back_to_slash]. destruct (decide (n = j)) as [->|Hne].
  - by rewrite (at_idx_lookup _ _ _ Hs).
  - destruct (Hm n) as (c & Hc & Hcs); [lia|]. rewrite (at_idx_lookup _ _ _ Hc). cbn [obind]. rewrite (proj2 (Z.eqb_neq c SLASH)) by done.
    rewrite u64_small by lia. rewrite (proj2 (Z.eqb_neq _ 0)) by lia. replace (Z.of_nat n - 1) with (Z.of_nat (n - 1)) by lia. apply IH; try done; [lia|lia|lia|]. intros m Hmm. apply Hm. lia.
Qed.

(** The next slash to the left of a position, not below [d]. *)
Lemma prev_slash (path : list Z) d n : (d <= n < length path)%nat -> path !! d = Some SLASH ->
  exists j, (d <= j <= n)%nat /\ path !! j = Some SLASH /\ forall m, (j < m <= n)%nat -> exists c, path !! m = Some c /\ c <> SLASH.
Proof.
  intros Hn Hd. induction n as [|n IH]; [exists d; replace d with 0%nat in * by lia; split; [lia|]; split; [done|lia]|].
  destruct (lookup_lt_is_Some_2 path (S n)) as [c Hc]; [lia|]. destruct (decide (c = SLASH)) as [->|Hcs]; [exists (S n); split; [lia|]; split; [done|lia]|].
  destruct (decide (d = S n)) as [->|Hdn]; [congruence|]. destruct IH as (j & Hj & Hs & Hm); [lia|]. exists j. split; [lia|]. split; [done|].
  intros m Hmm. destruct (decide (m = S n)) as [->|]; [by exists c|]. apply Hm. lia.
Qed.

Section Pop.

Context {P : RealPaths}.
Variables dir rest : list Z.
Hypothesis Hdir : dir <> [].
Let path := dir ++ SLASH :: rest.
Hypothesis Hzero : 0 ∉ path.
Hypothesis Hbig : Z.of_nat (length path) < 2 ^ 62.
Hypothesis Hroot : realpath dir = Some root_filepath.
(** No longer prefix exists. *)
Hypothesis Hlong : forall m, (length dir < m <= length path)%nat -> m = length path \/ path !! m = Some SLASH -> realpath (take m path) = None.

Lemma dir_slash : path !! length dir = Some SLASH.
Proof. unfold path. by rewrite lookup_app_r, Nat.sub_diag by lia. Qed.

Lemma dir_take : take (length dir) path = dir.
Proof. unfold path. by rewrite take_app_length. Qed.

(** The path cut at a position, in its buffer. *)
Definition cut (i : nat) : list Z := take i path ++ 0 :: drop (S i) path ++ [0].

Lemma cut_text i : until_zero (cut i) = take i path.
Proof. unfold cut. apply until_zero_app. intros Hin. apply Hzero. apply list_elem_of_lookup in Hin as [k Hk]. apply lookup_take_Some in Hk as [Hk _]. by eapply list_elem_of_lookup_2. Qed.

Lemma cut_set i : path !! i = Some SLASH -> <[i := 0]> (path ++ [0]) = cut i /\ <[i := SLASH]> (cut i) = path ++ [0].
Proof.
  intros Hi. pose proof (lookup_lt_Some _ _ _ Hi) as Hl. assert (Hp : path = take i path ++ SLASH :: drop (S i) path) by (by rewrite take_drop_middle).
  assert (Ht : length (take i path) = i) by (rewrite length_take; lia). split.
  - rewrite Hp at 1. rewrite <- app_assoc. unfold cut. rewrite insert_app_r_alt by lia. rewrite Ht, Nat.sub_diag. done.
  - unfold cut. rewrite insert_app_r_alt by lia. rewrite Ht, Nat.sub_diag. cbn. rewrite Hp at 3. by rewrite <- app_assoc.
Qed.

Lemma length_cut i : (i < length path)%nat -> length (cut i) = S (length path).
Proof. intros Hi. unfold cut. rewrite length_app. cbn. rewrite length_app, length_take, length_drop. cbn. lia. Qed.

(** One more cut, from a position on. *)
Lemma next_cut n : (length dir <= n < length path)%nat ->
  exists j, (length dir <= j <= n)%nat /\ path !! j = Some SLASH /\
    back_to_slash (S (length (path ++ [0]))) (path ++ [0]) (Z.of_nat n) = Done (Some (Z.of_nat j)) /\ set_idx (path ++ [0]) (Z.of_nat j) 0 = Done (cut j).
Proof.
  intros Hn. destruct (prev_slash path (length dir) n Hn dir_slash) as (j & Hj & Hs & Hm). exists j. split; [done|]. split; [done|].
  assert (Hd : (0 < length dir)%nat) by (destruct dir; [done|cbn; lia]). assert (Happ : forall m c, path !! m = Some c -> (path ++ [0]) !! m = Some c) by (intros; by apply lookup_app_l_Some). split.
  - apply back_ok; [rewrite length_app; cbn; lia|lia|by apply Happ|lia|]. intros m Hmm. destruct (Hm m Hmm) as (c & Hc & ?). exists c. by rewrite (Happ _ _ Hc).
  - unfold set_idx. rewrite (proj2 (Z.ltb_lt _ _)) by (rewrite length_app; cbn; lia). rewrite Nat2Z.id. by rewrite (proj1 (cut_set j Hs)).
Qed.

Lemma pop_loop_ok fuel : forall i, (i < fuel)%nat -> (length dir <= i < length path)%nat -> path !! i = Some SLASH ->
  pop_loop fuel (cut i) (Z.of_nat i) = Done (Some (root_filepath, cut (length dir), Z.of_nat (length dir))).
Proof.
  induction fuel as [|fuel IH]; intros i Hf Hi Hs; [lia|]. cbn [pop_loop]. rewrite cut_text. destruct (decide (i = length dir)) as [->|Hne]; [by rewrite dir_take, Hroot|].
  rewrite Hlong by (lia || by right). assert (Hc : cut i !! i = Some 0) by (unfold cut; rewrite lookup_app_r by (rewrite length_take; lia); rewrite length_take, Nat.min_l, Nat.sub_diag by lia; done).
  rewrite (at_idx_lookup _ _ _ Hc). cbn [obind Z.eqb]. unfold set_idx at 1. rewrite length_cut by lia. rewrite (proj2 (Z.ltb_lt _ _)) by lia. rewrite Nat2Z.id, (proj2 (cut_set i Hs)). cbn [obind].
  rewrite u64_small by lia. replace (Z.of_nat i - 1) with (Z.of_nat (i - 1)) by lia. destruct (next_cut (i - 1)) as (j & Hj & Hsj & -> & Hset); [lia|]. cbn [obind]. rewrite Hset. cbn [obind]. apply IH; [lia|lia|done].
Qed.

Lemma pop_start fuel : (length path < fuel)%nat ->
  pop_loop (S fuel) (path ++ [0]) (u64 (Z.of_nat (length path) - 1)) = Done (Some (root_filepath, cut (length dir), Z.of_nat (length dir))).
Proof.
  intros Hf. assert (Hl : (length dir < length path)%nat) by (unfold path; rewrite length_app; cbn; lia). cbn [pop_loop]. rewrite until_zero_app by done.
  pose proof (Hlong (length path) ltac:(lia) (or_introl eq_refl)) as Hn. rewrite take_ge in Hn by lia. rewrite Hn.
  rewrite u64_small by lia. replace (Z.of_nat (length path) - 1) with (Z.of_nat (length path - 1)) by lia.
  destruct (lookup_lt_is_Some_2 path (length path - 1)) as [c Hc]; [lia|]. assert (Hc' : (path ++ [0]) !! (length path - 1)%nat = Some c) by (by apply lookup_app_l_Some).
  rewrite (at_idx_lookup _ _ _ Hc'). cbn [obind]. rewrite (proj2 (Z.eqb_neq c 0)) by (intros ->; apply Hzero; by eapply list_elem_of_lookup_2). cbn [obind].
  destruct (next_cut (length path - 1)) as (j & Hj & Hsj & -> & Hset); [lia|]. cbn [obind]. rewrite Hset. cbn [obind]. apply pop_loop_ok; [lia|lia|done].
Qed.

End Pop.

(** C35. A path that does not exist outside and whose longest existing prefix is the file
    that holds the file system is a virtual path: what follows the prefix, read
    component by component with [.] skipped and [..] going up, the root being its own
    parent.  Behind it are slashes only if the path has a [..]. *)
Theorem fakefs_realpath_correct {P : RealPaths} dir rest :
  let path := dir ++ SLASH :: rest in
  dir <> [] -> 0 ∉ path -> Z.of_nat (length path) < 2 ^ 62 -> root_match path = true -> realpath dir = Some root_filepath ->
  (forall m, (length dir < m <= length path)%nat -> m = length path \/ path !! m = Some SLASH -> realpath (take m path) = None) ->
  exists base k, fakefs_realpath path = Done (Some base, Some (path_of (resolve rest) ++ replicate k SLASH)) /\
    ([DOT; DOT] ∉ components rest [] -> k = 0%nat /\ base = root_filepath).
Proof.
  intros path Hd Hz Hb Hm Hr Hlong. assert (Hzr : 0 ∉ rest) by (intros Hin; apply Hz, elem_of_app; right; by right). assert (Hl : (length dir < length path)%nat) by (unfold path; rewrite length_app; cbn; lia).
  unfold fakefs_realpath. pose proof (Hlong (length path) ltac:(lia) (or_introl eq_refl)) as Hn. rewrite take_ge in Hn by lia. rewrite Hn, Hm. cbn [negb].
  rewrite (pop_start dir rest Hd Hz Hb Hr Hlong) by (unfold path; lia). cbn [obind]. rewrite bool_decide_true by done. cbn [negb].
  assert (Hcut : until_zero (drop (Z.to_nat (Z.of_nat (length dir) + 1)) (cut dir rest (length dir))) = rest).
  { unfold cut. rewrite take_app_length. replace (Z.to_nat (Z.of_nat (length dir) + 1)) with (length dir + 1)%nat by lia. rewrite <- drop_drop, drop_app_length. cbn [drop].
    replace (drop (S (length dir)) (dir ++ SLASH :: rest)) with rest by (replace (S (length dir)) with (length dir + 1)%nat by lia; by rewrite <- drop_drop, drop_app_length).
    by apply until_zero_app. }
  rewrite Hcut. destruct (virtual_path_ok rest root_filepath Hzr) as (base & k & -> & Hk). cbn [obind]. by exists base, k.
Qed.

Definition sample_paths : RealPaths := {|
  realpath p := if bool_decide (p = bytes_of_string "fs") then Some (bytes_of_string "/h/fs") else None;
  root_match _ := true;
  root_filepath := bytes_of_string "/h/fs";
|}.

Lemma fakefs_realpath_correct_witness :
  (exists base k, @fakefs_realpath sample_paths (bytes_of_string "fs/a/../b/./c") = Done (Some base, Some (path_of (resolve (bytes_of_string "a/../b/./c")) ++ replicate k SLASH)))
  /\ path_of (resolve (bytes_of_string "a/../b/./c")) = bytes_of_string "/b/c".
Proof.
  split; [|vm_compute; reflexivity].
  destruct (@fakefs_realpath_correct sample_paths (bytes_of_string "fs") (bytes_of_string "a/../b/./c")) as (base & k & H & _).
  - discriminate.
  - cbn. set_solver.
  - vm_compute. reflexivity.
  - reflexivity.
  - reflexivity.
  - intros m Hm _. cbn in Hm. do 3 (destruct m as [|m]; [lia|]). reflexivity.
  - exists base, k. exact H.
Defined.

(** A removed component leaves its slash behind when a shorter one follows. *)
Example leftover_slash : @fakefs_realpath sample_paths (bytes_of_string "fs/ab/../a/") = Done (Some (bytes_of_string "/h/fs"), Some (bytes_of_string "/a/")).
Proof. vm_compute. reflexivity. Qed.

(** Without a [..] the slash at the end is dropped. *)
Example no_leftover : @fakefs_realpath sample_paths (bytes_of_string "fs/a/") = Done (Some (bytes_of_string "/h/fs"), Some (bytes_of_string "/a")).
Proof. vm_compute. reflexivity. Qed.

(** The search for a slash runs out of the buffer when the first component has one
    character and does not exist. *)
Example search_underflows : @fakefs_realpath sample_paths (bytes_of_string "a/fs/b") = Undef.
Proof. vm_compute. reflexivity. Qed.

(** ** Descriptors: the abstract table

    Each open descriptor has a path and an offset of its own; [None] is a descriptor of
    the C library.  The kernel does not hand out a descriptor that is open. *)

Record table := Table { t_fs : file_system; t_open : gmap Z (list Z * Z) }.

Inductive fd_call :=
| Open (v_fd : Z) (pathname : list Z) (flag : Z)
| Read (d count : Z)
| Write (d : Z) (buf : list Z) (count : Z)
| Seek (d off whence : Z)
| Fstat (d : Z)
| Fchmod (d mode : Z)
| Fchown (d owner group : Z)
| Close (d : Z).

Inductive answer := A_int (r : reply Z) | A_read (r : reply (Z * list Z)) | A_stat (r : reply (Z * option stat)).

Section Table.

Context {P : RealPaths}.

Definition with_open (m : gmap Z (list Z * Z)) (x : file_system) : table := Table x m.

(** An operation on an open descriptor. *)
Definition on_open {A} (d : Z) (t : table) (op : list Z -> Z -> outcome (A * Z * file_system)) : outcome (reply A * table) :=
  match t_open t !! d with
  | None => Done (Real, t)
  | Some (p, off) => let! (r, off, x) := op p off in Done (Virtual r, Table x (<[d := (p, off)]> (t_open t)))
  end.

Definition seek_to (x : file_system) (p : list Z) (pos off whence : Z) : outcome (Z * Z * file_system) :=
  if whence =? SEEK_SET then Done (off, off, x)
  else if whence =? SEEK_CUR then let! y := in_off_t (pos + off) in Done (y, y, x)
  else if whence =? SEEK_END then
    let! (r, st, x) := minixfs_stat x p in
    if 0 <=? r then let! st := deref st in let! y := in_off_t (st_size st + off) in Done (y, y, x) else Done (-1, pos, x)
  else Done (pos, pos, x).

Definition table_step (c : fd_call) (t : table) : outcome (answer * table) :=
  match c with
  | Open v_fd pathname flag =>
      let! v := virtual_of pathname in
      match v with
      | None => Done (A_int Real, t)
      | Some v =>
          let! (error, x) := minixfs_open (t_fs t) v flag in
          if 0 <=? error then
            match t_open t !! v_fd with
            | Some _ => Undef
            | None => Done (A_int (Virtual v_fd), Table x (<[v_fd := (v, 0)]> (t_open t)))
            end
          else Done (A_int (Virtual (-1)), Table x (t_open t))
      end
  | Read d count => let! (r, t) := on_open d t (fun p off => let! (n, bytes, off, x) := minixfs_read (t_fs t) p count off in Done (n, bytes, off, x)) in Done (A_read r, t)
  | Write d buf count => let! (r, t) := on_open d t (fun p off => let! (n, off, x) := minixfs_write (t_fs t) p buf count off in Done (n, off, x)) in Done (A_int r, t)
  | Seek d off whence => let! (r, t) := on_open d t (fun p pos => seek_to (t_fs t) p pos off whence) in Done (A_int r, t)
  | Fstat d => let! (r, t) := on_open d t (fun p off => let! (n, st, x) := minixfs_stat (t_fs t) p in Done ((n, st), off, x)) in Done (A_stat r, t)
  | Fchmod d mode => let! (r, t) := on_open d t (fun p off => let! (_, x) := minixfs_chmod (t_fs t) p mode in Done (0, off, x)) in Done (A_int r, t)
  | Fchown d owner group => let! (r, t) := on_open d t (fun p off => let! (_, x) := minixfs_chown (t_fs t) p owner group in Done (0, off, x)) in Done (A_int r, t)
  | Close d => match t_open t !! d with None => Done (A_int Real, t) | Some _ => Done (A_int (Virtual 0), Table (t_fs t) (delete d (t_open t))) end
  end.

Definition fake_step (c : fd_call) (s : fake) : outcome (answer * fake) :=
  match c with
  | Open v_fd pathname flag => let! (r, s) := fake_open v_fd pathname flag s in Done (A_int r, s)
  | Read d count => let! (r, s) := fake_read d count s in Done (A_read r, s)
  | Write d buf count => let! (r, s) := fake_write d buf count s in Done (A_int r, s)
  | Seek d off whence => let! (r, s) := fake_lseek d off whence s in Done (A_int r, s)
  | Fstat d => let! (r, s) := fake_fstat d s in Done (A_stat r, s)
  | Fchmod d mode => let! (r, s) := fake_fchmod d mode s in Done (A_int r, s)
  | Fchown d owner group => let! (r, s) := fake_fchown d owner group s in Done (A_int r, s)
  | Close d => let! (r, s) := fake_close d s in Done (A_int r, s)
  end.

Fixpoint run_calls {S} (step : fd_call -> S -> outcome (answer * S)) (cs : list fd_call) (s : S) : outcome (list answer * S) :=
  match cs with
  | [] => Done ([], s)
  | c :: cs => let! (a, s) := step c s in let! (l, s) := run_calls step cs s in Done (a :: l, s)
  end.

(** Every open descriptor owns an object, and there are no others. *)
Record fake_rel (s : fake) (t : table) : Prop := FakeRel {
  fr_fs : fs s = t_fs t;
  fr_map : forall d, t_open t !! d = match fd_map s !! d with Some a => (fun f => (path f, offset f)) <$> files s !! a | None => None end;
  fr_live : forall d a, fd_map s !! d = Some a -> exists f, files s !! a = Some f /\ refcount f = 1;
  fr_inj : forall d d' a, fd_map s !! d = Some a -> fd_map s !! d' = Some a -> d = d';
  fr_heap : forall a f, files s !! a = Some f -> exists d, fd_map s !! d = Some a;
  fr_next : forall a f, files s !! a = Some f -> a < next_file s;
}.

Lemma file_of_rel s t d : fake_rel s t ->
  match t_open t !! d with
  | None => fd_map s !! d = None /\ file_of s d = Done None
  | Some (p, off) => exists a f, fd_map s !! d = Some a /\ files s !! a = Some f /\ path f = p /\ offset f = off /\ refcount f = 1 /\ file_of s d = Done (Some (a, f))
  end.
Proof.
  intros [_ Hm Hl _ _ _]. rewrite Hm. unfold file_of. destruct (fd_map s !! d) as [a|] eqn:Hd; [|done].
  destruct (Hl d a Hd) as (f & Hf & Hr). rewrite Hf. cbn. by exists a, f.
Qed.

(** The object of a descriptor changes. *)
Lemma rel_update s t d a f off x : fake_rel s t -> fd_map s !! d = Some a -> files s !! a = Some f ->
  fake_rel (set_files (<[a := with_offset f off]> (files s)) (set_fs x s)) (Table x (<[d := (path f, off)]> (t_open t))).
Proof.
  intros [Hfs Hm Hl Hi Hh Hn] Hd Hf. split; cbn; [done| | |done| |].
  - intros d'. destruct (decide (d = d')) as [<-|Hne]; [by rewrite lookup_insert_eq, Hd, lookup_insert_eq|]. rewrite lookup_insert_ne, Hm by done.
    destruct (fd_map s !! d') as [a'|] eqn:Hd'; [|done]. rewrite lookup_insert_ne; [done|]. intros <-. by apply Hne, (Hi d d' a).
  - intros d' a' Hd'. destruct (decide (a = a')) as [<-|Hne]; [rewrite lookup_insert_eq; eexists; split; [done|]|rewrite lookup_insert_ne by done; by apply (Hl d')].
    destruct (Hl d a Hd) as (f' & Hf' & Hr). cbn. congruence.
  - intros a' f' Ha. apply lookup_insert_Some in Ha as [[<- _]|[_ Ha]]; [by exists d|by eapply Hh].
  - intros a' f' Ha. apply lookup_insert_Some in Ha as [[<- _]|[_ Ha]]; [by eapply Hn|by eapply Hn].
Qed.

(** Nothing changes but the file system. *)
Lemma rel_fs s t d a f x : fake_rel s t -> fd_map s !! d = Some a -> files s !! a = Some f -> fake_rel (set_fs x s) (Table x (<[d := (path f, offset f)]> (t_open t))).
Proof.
  intros Hr Hd Hf. pose proof Hr as [Hfs Hm Hl Hi Hh Hn]. split; cbn; try done. intros d'. destruct (decide (d = d')) as [<-|Hne]; [by rewrite lookup_insert_eq, Hd, Hf|].
  by rewrite lookup_insert_ne, Hm.
Qed.

Lemma with_offset_same f : with_offset f (offset f) = f.
Proof. by destruct f. Qed.

Lemma on_open_sim {A} s t d op (r : reply A) t' : fake_rel s t -> on_open d t op = Done (r, t') ->
  (r = Real /\ t' = t /\ file_of s d = Done None) \/
  exists a f v off x, file_of s d = Done (Some (a, f)) /\ fd_map s !! d = Some a /\ files s !! a = Some f /\ op (path f) (offset f) = Done (v, off, x) /\
    r = Virtual v /\ t' = Table x (<[d := (path f, off)]> (t_open t)).
Proof.
  intros Hr H. unfold on_open in H. pose proof (file_of_rel s t d Hr) as Hf. destruct (t_open t !! d) as [[p off]|]; [right|left].
  - destruct Hf as (a & f & Hd & Hfa & <- & <- & _ & Hfo). apply obind_Done in H as ([[v off'] x] & Hop & H). simplify_eq. by exists a, f, v, off', x.
  - destruct Hf as [_ Hfo]. simplify_eq. done.
Qed.

Lemma close_sim s t d : fake_rel s t ->
  exists r s', fake_close d s = Done (r, s') /\
    match t_open t !! d with None => r = Real /\ s' = s | Some _ => r = Virtual 0 /\ fake_rel s' (Table (t_fs t) (delete d (t_open t))) end.
Proof.
  intros Hr. unfold fake_close. pose proof (file_of_rel s t d Hr) as Hf. destruct (t_open t !! d) as [[p off]|].
  - destruct Hf as (a & f & Hd & Hfa & _ & _ & Hrc & ->). cbn [obind refcount]. rewrite Hrc. change (u64 (1 - 1) =? 0) with true. cbn iota. eexists _, _. split; [done|]. split; [done|].
    destruct Hr as [Hfs Hm Hl Hi Hh Hn]. assert (Hother : forall d' a', d' <> d -> fd_map s !! d' = Some a' -> a' <> a) by (intros d' a' Hne Hd' ->; by apply Hne, (Hi d' d a)).
    split; cbn; [done| | | | |].
    + intros d'. destruct (decide (d = d')) as [<-|Hne]; [by rewrite !lookup_delete_eq|]. rewrite !lookup_delete_ne, Hm by done.
      destruct (fd_map s !! d') as [a'|] eqn:Hd'; [|done]. rewrite lookup_delete_ne; [done|]. intros <-. by apply (Hother d' a).
    + intros d' a' Hd'. apply lookup_delete_Some in Hd' as [Hne Hd']. rewrite lookup_delete_ne by (intros <-; by apply (Hother d' a)). by apply (Hl d').
    + intros d1 d2 a' H1 H2. apply lookup_delete_Some in H1 as [_ H1]. apply lookup_delete_Some in H2 as [_ H2]. by apply (Hi d1 d2 a').
    + intros a' f' Ha. apply lookup_delete_Some in Ha as [Hne Ha]. destruct (Hh a' f' Ha) as [d' Hd']. exists d'. rewrite lookup_delete_ne; [done|]. intros <-. congruence.
    + intros a' f' Ha. apply lookup_delete_Some in Ha as [_ Ha]. by eapply Hn.
  - destruct Hf as [_ ->]. by eexists _, _.
Qed.

Lemma open_rel s t v_fd v x : fake_rel s t -> t_open t !! v_fd = None ->
  fake_rel (let s := null_fd v_fd (set_fs x s) in Fake (fs s) (<[v_fd := next_file s]> (fd_map s)) (dir_fd_map s) (<[next_file s := Fakefile v_fd 0 v 1 0]> (files s)) (next_file s + 1) (kernel s))
    (Table x (<[v_fd := (v, 0)]> (t_open t))).
Proof.
  intros Hr Ho. pose proof (file_of_rel s t v_fd Hr) as Hf. rewrite Ho in Hf. destruct Hf as [Hnone _]. destruct Hr as [Hfs Hm Hl Hi Hh Hn].
  assert (Hlive : forall d a, fd_map s !! d = Some a -> a <> next_file s) by (intros d a Hd ->; destruct (Hl d _ Hd) as (f & Hf & _); apply Hn in Hf; lia).
  cbv zeta. replace (fd_map (null_fd v_fd (set_fs x s))) with (fd_map s) by (unfold null_fd; by destruct (0 <=? v_fd)). replace (files (null_fd v_fd (set_fs x s))) with (files s) by (unfold null_fd; by destruct (0 <=? v_fd)).
  replace (next_file (null_fd v_fd (set_fs x s))) with (next_file s) by (unfold null_fd; by destruct (0 <=? v_fd)). replace (fs (null_fd v_fd (set_fs x s))) with x by (unfold null_fd; by destruct (0 <=? v_fd)).
  split; cbn; [done| | | | |].
  - intros d. destruct (decide (v_fd = d)) as [<-|Hne]; [by rewrite !lookup_insert_eq; cbn; rewrite ?lookup_insert_eq|]. rewrite !lookup_insert_ne, Hm by done.
    destruct (fd_map s !! d) as [a|] eqn:Hd; [|done]. rewrite lookup_insert_ne; [done|]. intros Heq. by apply (Hlive d a Hd).
  - intros d a Hd. apply lookup_insert_Some in Hd as [[<- <-]|[Hne Hd]]; [rewrite lookup_insert_eq; by eexists|]. rewrite lookup_insert_ne by (intros Heq; by apply (Hlive d a Hd)). by apply (Hl d).
  - intros d d' a H1 H2. apply lookup_insert_Some in H1 as [[<- <-]|[Hne1 H1]]; apply lookup_insert_Some in H2 as [[<- Ha]|[Hne2 H2]]; try done; [by destruct (Hlive _ _ H2)|by destruct (Hlive _ _ H1)|by apply (Hi d d' a)].
  - intros a f Ha. apply lookup_insert_Some in Ha as [[<- _]|[Hne Ha]]; [exists v_fd; by rewrite lookup_insert_eq|]. destruct (Hh a f Ha) as [d Hd]. exists d. rewrite lookup_insert_ne; [done|]. intros <-. congruence.
  - intros a f Ha. apply lookup_insert_Some in Ha as [[<- _]|[Hne Ha]]; [lia|]. apply Hn in Ha. lia.
Qed.

Lemma seek_sim s t d off whence r t' : fake_rel s t -> on_open d t (fun p pos => seek_to (t_fs t) p pos off whence) = Done (r, t') ->
  exists s', fake_lseek d off whence s = Done (r, s') /\ fake_rel s' t'.
Proof.
  intros Hr H. destruct (on_open_sim s t d _ r t' Hr H) as [(-> & -> & Hf)|(a & f & v & off' & x & Hf & Hd & Hfa & Hop & -> & ->)]; unfold fake_lseek; rewrite Hf; cbn [obind].
  { by eexists. }
  pose proof (fr_fs s t Hr) as Hfs. pose proof (rel_update s t d a f off' x Hr Hd Hfa) as Hu. pose proof (rel_fs s t d a f x Hr Hd Hfa) as Hx. unfold seek_to in Hop.
  assert (Hsame : set_fs (t_fs t) s = s) by (rewrite <- Hfs; by destruct s).
  destruct (whence =? SEEK_SET); [simplify_eq; rewrite Hsame in Hu; eexists; split; [done|exact Hu]|].
  destruct (whence =? SEEK_CUR); [apply obind_Done in Hop as (y & Hy & Hop); rewrite Hy; simplify_eq; rewrite Hsame in Hu; eexists; split; [done|exact Hu]|].
  destruct (whence =? SEEK_END).
  - apply obind_Done in Hop as ([[rv st] x1] & Hst & Hop). unfold fake_fstat, fstat_common. rewrite Hf. cbn [obind]. rewrite Hfs, Hst. cbn [obind]. destruct (0 <=? rv).
    + apply obind_Done in Hop as (st' & Hst' & Hop). apply obind_Done in Hop as (y & Hy & Hop). rewrite Hst'. cbn [obind]. rewrite Hy. cbn [obind]. simplify_eq. eexists. split; [done|]. exact Hu.
    + simplify_eq. eexists. split; [done|]. exact Hx.
  - simplify_eq. rewrite Hsame in Hx. eexists. split; [done|exact Hx].
Qed.

Lemma step_sim c s t a t' : fake_rel s t -> table_step c t = Done (a, t') -> exists s', fake_step c s = Done (a, s') /\ fake_rel s' t'.
Proof.
  intros Hr H. pose proof (fr_fs s t Hr) as Hfs. destruct c as [v_fd pathname flag|d count|d buf count|d off whence|d|d mode|d owner group|d]; cbn [table_step fake_step] in *.
  - unfold fake_open. apply obind_Done in H as (v & -> & H). cbn [obind]. destruct v as [v|]; [|simplify_eq; by eexists]. apply obind_Done in H as ([error x] & Hop & H). rewrite Hfs, Hop. cbn [obind].
    destruct (0 <=? error).
    + destruct (t_open t !! v_fd) eqn:Ho; simplify_eq. eexists. split; [done|]. by apply open_rel.
    + simplify_eq. eexists. split; [done|]. destruct Hr. by split.
  - apply obind_Done in H as ([r t1] & H & Heq). simplify_eq. destruct (on_open_sim s t d _ r t' Hr H) as [(-> & -> & Hf)|(a & f & v & off & x & Hf & Hd & Hfa & Hop & -> & ->)]; unfold fake_read; rewrite Hf; cbn [obind]; [by eexists|].
    apply obind_Done in Hop as ([[[n bytes] off1] x1] & Hop & Heq). simplify_eq. rewrite Hfs, Hop. cbn [obind]. eexists. split; [done|]. by apply (rel_update s t d a f).
  - apply obind_Done in H as ([r t1] & H & Heq). simplify_eq. destruct (on_open_sim s t d _ r t' Hr H) as [(-> & -> & Hf)|(a & f & v & off & x & Hf & Hd & Hfa & Hop & -> & ->)]; unfold fake_write; rewrite Hf; cbn [obind]; [by eexists|].
    apply obind_Done in Hop as ([[n off1] x1] & Hop & Heq). simplify_eq. rewrite Hfs, Hop. cbn [obind]. eexists. split; [done|]. by apply (rel_update s t d a f).
  - apply obind_Done in H as ([r t1] & H & Heq). simplify_eq. destruct (seek_sim s t d off whence r t' Hr H) as (s' & -> & Hr'). cbn [obind]. by exists s'.
  - apply obind_Done in H as ([r t1] & H & Heq). simplify_eq. destruct (on_open_sim s t d _ r t' Hr H) as [(-> & -> & Hf)|(a & f & v & off & x & Hf & Hd & Hfa & Hop & -> & ->)]; unfold fake_fstat, fstat_common; rewrite Hf; cbn [obind]; [by eexists|].
    apply obind_Done in Hop as ([[n st] x1] & Hop & Heq). simplify_eq. rewrite Hfs, Hop. cbn [obind]. eexists. split; [done|]. by apply (rel_fs s t d a f).
  - apply obind_Done in H as ([r t1] & H & Heq). simplify_eq. destruct (on_open_sim s t d _ r t' Hr H) as [(-> & -> & Hf)|(a & f & v & off & x & Hf & Hd & Hfa & Hop & -> & ->)]; unfold fake_fchmod; rewrite Hf; cbn [obind]; [by eexists|].
    apply obind_Done in Hop as ([n x1] & Hop & Heq). simplify_eq. rewrite Hfs, Hop. cbn [obind]. eexists. split; [done|]. by apply (rel_fs s t d a f).
  - apply obind_Done in H as ([r t1] & H & Heq). simplify_eq. destruct (on_open_sim s t d _ r t' Hr H) as [(-> & -> & Hf)|(a & f & v & off & x & Hf & Hd & Hfa & Hop & -> & ->)]; unfold fake_fchown; rewrite Hf; cbn [obind]; [by eexists|].
    apply obind_Done in Hop as ([n x1] & Hop & Heq). simplify_eq. rewrite Hfs, Hop. cbn [obind]. eexists. split; [done|]. by apply (rel_fs s t d a f).
  - destruct (close_sim s t d Hr) as (r & s' & -> & Hc). cbn [obind]. destruct (t_open t !! d); simplify_eq; destruct Hc as [-> Hc]; [by eexists|subst; by eexists].
Qed.

Lemma run_sim cs s t l t' : fake_rel s t -> run_calls table_step cs t = Done (l, t') -> exists s', run_calls fake_step cs s = Done (l, s') /\ fake_rel s' t'.
Proof.
  revert s t l. induction cs as [|c cs IH]; intros s t l Hr H; cbn [run_calls] in *; [simplify_eq; by exists s|].
  apply obind_Done in H as ([a t1] & Hc & H). apply obind_Done in H as ([l1 t2] & Hrun & Heq). simplify_eq. destruct (step_sim c s t a t1 Hr Hc) as (s1 & -> & Hr1). cbn [obind].
  destruct (IH s1 t1 l1 Hr1 Hrun) as (s' & -> & Hr'). cbn [obind]. by exists s'.
Qed.

Definition fake_start (x : file_system) : fake := Fake x ∅ ∅ ∅ 1 ∅.

Lemma start_rel x : fake_rel (fake_start x) (Table x ∅).
Proof. split; cbn; try done. Qed.

(** C34. As long as no descriptor is duplicated, the routed calls are those of a table that
    gives every open descriptor a path and an offset of its own: whenever the calls on
    the table are defined, the same calls give the same answers and the same file
    system; the objects on the heap are then exactly those of the open descriptors,
    one each, so none is used after it has been freed and none is lost. *)
Theorem fakefs_refines cs x l t (Hrun : run_calls table_step cs (Table x ∅) = Done (l, t)) :
  exists s, run_calls fake_step cs (fake_start x) = Done (l, s) /\ fs s = t_fs t /\
    (forall d, t_open t !! d = match fd_map s !! d with Some a => (fun f => (path f, offset f)) <$> files s !! a | None => None end) /\
    (forall a f, files s !! a = Some f -> refcount f = 1 /\ exists d, fd_map s !! d = Some a /\ forall d', fd_map s !! d' = Some a -> d' = d).
Proof.
  destruct (run_sim cs (fake_start x) (Table x ∅) l t (start_rel x) Hrun) as (s & Hs & [Hfs Hm Hl Hi Hh Hn]). exists s. split; [done|]. split; [done|]. split; [done|].
  intros a f Ha. destruct (Hh a f Ha) as [d Hd]. destruct (Hl d a Hd) as (f' & Hf' & Hr). split; [congruence|]. exists d. split; [done|]. intros d' Hd'. by apply (Hi d' d a).
Qed.

End Table.

(** ** Runs *)

Definition sample_calls : list fd_call :=
  [Open 3 (bytes_of_string "fs/a") O_CREAT; Write 3 (bytes_of_string "hello") 5; Seek 3 1 SEEK_SET; Open 4 (bytes_of_string "fs/./a") 0;
   Read 3 2; Read 4 9; Close 3; Read 3 1; Seek 4 (-2) SEEK_END; Read 4 9; Close 4].

Definition sample_answers : list answer :=
  [A_int (Virtual 3); A_int (Virtual 5); A_int (Virtual 1); A_int (Virtual 4);
   A_read (Virtual (2, bytes_of_string "el")); A_read (Virtual (5, bytes_of_string "hello")); A_int (Virtual 0); A_read Real;
   A_int (Virtual 3); A_read (Virtual (2, bytes_of_string "lo")); A_int (Virtual 0)].

Definition answers {S} (o : outcome (list answer * S)) : outcome (list answer) := let! (l, _) := o in Done l.

Definition sample_fs : file_system := minixfs_mkfs [true; true] 0.

Lemma sample_run : answers (@run_calls table (@table_step sample_paths) sample_calls (Table sample_fs ∅)) = Done sample_answers.
Proof. vm_compute. reflexivity. Qed.

Lemma answers_Done {S} (o : outcome (list answer * S)) l : answers o = Done l -> exists s, o = Done (l, s).
Proof. unfold answers. intros H. apply obind_Done in H as ([l' s] & -> & H). simplify_eq. by exists s. Qed.

(** Two descriptors of one file have offsets of their own. *)
Lemma fakefs_refines_witness : exists s, @run_calls fake (@fake_step sample_paths) sample_calls (fake_start sample_fs) = Done (sample_answers, s) /\ (forall a f, files s !! a = Some f -> refcount f = 1).
Proof.
  destruct (answers_Done _ _ sample_run) as [t Ht]. destruct (@fakefs_refines sample_paths sample_calls sample_fs sample_answers t Ht) as (s & Hs & _ & _ & Hf).
  exists s. split; [exact Hs|]. intros a f Ha. exact (proj1 (Hf a f Ha)).
Defined.

(** [dup] does not count the new descriptor: after the old one is closed, the file of the
    new one has been freed. *)
Example dup_then_close :
  (let! (_, s) := @fake_open sample_paths 3 (bytes_of_string "fs/a") O_CREAT (fake_start sample_fs) in
   let! (_, s) := fake_dup 4 3 s in
   let! (r, s) := fake_close 3 s in
   Done (r, fd_map s !! 4, base.size (files s))) = Done (Virtual 0, Some 1, 0%nat) /\
  (let! (_, s) := @fake_open sample_paths 3 (bytes_of_string "fs/a") O_CREAT (fake_start sample_fs) in
   let! (_, s) := fake_dup 4 3 s in
   let! (_, s) := fake_close 3 s in
   let! (r, _) := fake_read 4 1 s in Done r) = Undef.
Proof. split; vm_compute; reflexivity. Qed.

(** Closing leaves the descriptor on /dev/null open. *)
Example close_leaks_descriptor :
  (let! (_, s) := @fake_open sample_paths 3 (bytes_of_string "fs/a") O_CREAT (fake_start sample_fs) in
   let! (r, s) := fake_close 3 s in Done (r, fd_map s !! 3, bool_decide (3 ∈ kernel s))) = Done (Virtual 0, None, true).
Proof. vm_compute. reflexivity. Qed.

(** A directory is listed once, to its end. *)
Example readdir_lists :
  (let! (_, s) := @fake_open sample_paths 3 (bytes_of_string "fs/a") O_CREAT (fake_start sample_fs) in
   let! (_, s) := @fake_opendir sample_paths 900 4 (bytes_of_string "fs/.") s in
   let! (r1, s) := fake_readdir 900 s in
   let! (r2, s) := fake_readdir 900 s in
   let! (r3, s) := fake_closedir 900 s in
   Done (r1, r2, r3, base.size (dir_fd_map s))) = Done (Virtual (Some (0, bytes_of_string "virtual")), Virtual (Some (1, bytes_of_string "a")), Virtual 0, 0%nat).
Proof. vm_compute. reflexivity. Qed.

(** A path below /virtual opens whatever it names: minixfs answers 1 for a name that it
    does not know, which is not negative. *)
Example unknown_virtual_opens :
  (let! (r, _) := @fake_open sample_paths 3 (bytes_of_string "fs/virtual/nothing") 0 (fake_start sample_fs) in Done r) = Done (Virtual 3).
Proof. vm_compute. reflexivity. Qed.

(** [statx] of a virtual file, and a flag that it does not support. *)
Example statx_fills :
  (let! (_, s) := @fake_open sample_paths 3 (bytes_of_string "fs/a") O_CREAT (fake_start sample_fs) in
   let! (_, s) := fake_write 3 (bytes_of_string "hello") 5 s in
   let! (r, s) := @fake_statx sample_paths 4 (bytes_of_string "fs/a") 256 s in
   let! (q, s) := @fake_statx sample_paths 4 (bytes_of_string "fs/a") 1 s in
   Done (match r with Virtual (n, Some b) => Some (n, stx_size b, stx_ino b, stx_blocks b) | _ => None end, q, errno (fs s), fd_map s !! 4))
  = Done (Some (0, 5, 1, 1), Virtual (-1, None), EINVAL, None).
Proof. vm_compute. reflexivity. Qed.
