(* ===== verification/Cp.v ===== *)
(** * [finding_filesystems/fakefs_src/cp.c]: a program over the routed calls

    [main] copies one file of the file system to another through the calls of
    [Fakefs].  A run stops where a call is passed on to the C library ([Real]).  The
    theorem puts the layers together: the descriptors of the routed calls, reading and
    writing, and the allocation of blocks. *)

From stdpp Require Import gmap strings.
From S2P Require Import Prelude CString CMem Minixfs MinixfsSpec MinixfsInv Fakefs FakefsSpec.
Open Scope Z_scope.

Definition BUFSIZE : Z := 256.

(** [while ((ret = read(src, buf, BUFSIZE)) > 0)]; the last [ret]. *)
Fixpoint copy_loop (fuel : nat) (src dst : Z) (s : fake) : outcome (reply Z * fake) :=
  match fuel with
  | O => OutOfFuel
  | S fuel =>
      let! (r, s) := fake_read src BUFSIZE s in
      match r with
      | Real => Done (Real, s)
      | Virtual (ret, buf) =>
          if 0 <? ret then
            let! (r, s) := fake_write dst buf ret s in
            match r with
            | Real => Done (Real, s)
            | Virtual ret => if ret <? 0 then Done (Virtual ret, s) else copy_loop fuel src dst s
            end
          else Done (Virtual ret, s)
      end
  end.

(** [src_fd] and [dst_fd] are the kernel's descriptors on /dev/null. *)
Definition cp_main {P : RealPaths} (fuel : nat) (src_fd dst_fd : Z) (argv : list (list Z)) (s : fake) : outcome (reply Z * fake) :=
  match argv with
  | [_; from; to] =>
      let! (src, s) := fake_open src_fd from O_RDONLY s in
      let! (dst, s) := fake_creat dst_fd to s in
      match src, dst with
      | Virtual src, Virtual dst =>
          let! (ret, s) := (if (0 <=? src) && (0 <=? dst) then copy_loop fuel src dst s else Done (Virtual 1, s)) in
          let! (_, s) := fake_close src s in
          let! (_, s) := fake_close dst s in
          Done (match ret with Virtual ret => Virtual (if ret =? 0 then 0 else 1) | Real => Real end, s)
      | _, _ => Done (Real, s)
      end
  | _ => Done (Virtual 1, s)
  end.

(** ** The calls on a file *)

Lemma content_range fs n off len : (off + len <= Z.to_nat (size n))%nat -> file_bytes fs n (Z.of_nat off) len = take len (drop off (content fs n)).
Proof.
  intros H. unfold content. replace (Z.to_nat (size n)) with (off + (len + (Z.to_nat (size n) - off - len)))%nat by lia. rewrite !file_bytes_app, Z.add_0_l.
  rewrite drop_app_length', take_app_length' by (by rewrite length_file_bytes). done.
Qed.

Lemma read_file fs path i c count off : is_virtual_path path = None -> has_file fs path i c -> Z.of_nat (length c) <= MAX_SIZE -> 0 <= off <= Z.of_nat (length c) -> 0 <= count < 2 ^ 62 ->
  let len := Z.min count (Z.of_nat (length c) - off) in
  exists fs', minixfs_read fs path count off = Done (len, take (Z.to_nat len) (drop (Z.to_nat off) c), off + len, fs')
    /\ has_file fs' path i c /\ others_kept fs fs' i /\ free_blocks fs' = free_blocks fs /\ rng fs' = rng fs.
Proof.
  intros Hv (n & Hr & Hc) Hmax Ho Hcount len. pose proof (size_content fs path i n c Hr Hc) as Hsz. pose proof Hr as [Hok _ Hp Hi Hl _ Hs Hb]. rewrite <- Hsz in *. change MAX_SIZE with 67289088 in *.
  assert (Hhb : has_blocks fs n (blocks_of_size (size n))) by (pose proof (fo_count _ _ _ Hb); apply (file_has_blocks fs i n (blocks_of_size (size n))); try done; [by left|lia]).
  rewrite (minixfs_read_exact fs path (Z.of_nat i) n) by (done || (by apply load_inode_at) || (change MAX_SIZE with 67289088; lia)).
  replace (Z.max 0 (Z.min count (size n - off))) with len by lia. eexists. split.
  { do 4 f_equal. replace off with (Z.of_nat (Z.to_nat off)) at 1 by lia. rewrite content_range by lia. by rewrite Hc. }
  destruct (size n <=? off); [split; [by exists n|done]|]. rewrite Nat2Z.id. destruct (touch_regular fs path i n (now fs) (mtim n) (ctim n) Hr) as (Hr' & Hc' & Hk).
  split; [eexists; split; [done|congruence]|done].
Qed.

Lemma open_file fs path i c flags : is_virtual_path path = None -> has_file fs path i c ->
  exists fs', minixfs_open fs path flags = Done (0, fs') /\ has_file fs' path i c /\ others_kept fs fs' i /\ free_blocks fs' = free_blocks fs /\ rng fs' = rng fs.
Proof.
  intros Hv (n & Hr & Hc). unfold minixfs_open. rewrite Hv, (rf_path _ _ _ _ Hr). cbn [obind]. rewrite (update_inode_at fs i n) by apply (rf_inode _ _ _ _ Hr). cbn [obind].
  destruct (touch_regular fs path i n (now fs) (mtim n) (ctim n) Hr) as (Hr' & Hc' & Hk). eexists. split; [done|]. split; [eexists; split; [done|congruence]|done].
Qed.

(** ** The copy *)

(** What has been copied at offset [o], over what was there. *)
Definition copied (from to : list Z) (o : nat) : list Z := take o from ++ drop o to.

Lemma length_copied from to o : (o <= length from)%nat -> length (copied from to o) = Nat.max o (length to).
Proof. intros H. unfold copied. rewrite length_app, length_take, length_drop. lia. Qed.

Lemma copied_more from to o t : (o + t <= length from)%nat -> overwrite (copied from to o) o (take t (drop o from)) = copied from to (o + t).
Proof.
  intros H. unfold overwrite, copied. assert (Ho : length (take o from) = o) by (rewrite length_take; lia). assert (Ht : length (take t (drop o from)) = t) by (rewrite length_take, length_drop; lia).
  rewrite Ht, take_app_length', drop_app_ge, Ho, drop_drop, app_assoc, take_take_drop by lia. do 2 f_equal. lia.
Qed.

Lemma needed_split sz o t rest : 0 <= sz -> 0 <= o -> 0 <= t -> 0 <= rest ->
  (blocks_needed sz o (t + rest) = blocks_needed sz o t + blocks_needed (Z.max sz (o + t)) (o + t) rest)%nat.
Proof.
  intros Hs Ho Ht Hr. unfold blocks_needed. replace (Z.max (Z.max sz (o + t)) (o + t + rest)) with (Z.max sz (o + (t + rest))) by lia.
  assert (Hm : forall x y, 0 <= x <= y -> (blocks_for (blocks_of_size x) <= blocks_for (blocks_of_size y))%nat).
  { intros x y Hxy. apply blocks_for_mono. unfold blocks_of_size, BLOCK_SIZE. Z.div_mod_to_equations. lia. }
  pose proof (Hm sz (Z.max sz (o + t)) ltac:(lia)). pose proof (Hm (Z.max sz (o + t)) (Z.max sz (o + (t + rest))) ltac:(lia)). lia.
Qed.

Section Copy.
Context (src dst : Z) (p1 p2 : list Z) (K : gset Z) (Hfd : src <> dst).

(** The state with the two files open at [o1] and [o2]. *)
Definition both_open (x : file_system) (o1 o2 : Z) : fake :=
  Fake x (<[dst := 2]> (<[src := 1]> ∅)) ∅ (<[2 := Fakefile dst 0 p2 1 o2]> (<[1 := Fakefile src 0 p1 1 o1]> ∅)) 3 K.

Lemma read_src x o1 o2 count :
  fake_read src count (both_open x o1 o2) = (let! (m, bytes, off, x) := minixfs_read x p1 count o1 in Done (Virtual (m, bytes), both_open x off o2)).
Proof.
  unfold fake_read, file_of, both_open. cbn [fd_map files fs]. rewrite lookup_insert_ne, !lookup_insert_eq by done. cbn [obind]. rewrite lookup_insert_ne, lookup_insert_eq by done. cbn [deref obind path offset].
  destruct (minixfs_read x p1 count o1) as [[[[m bs] off] x']| | |]; cbn [obind]; [|done..]. unfold set_files, set_fs. cbn -[insert]. rewrite (insert_insert_ne _ 1 2) by done. by rewrite insert_insert_eq.
Qed.

Lemma write_dst x o1 o2 buf count :
  fake_write dst buf count (both_open x o1 o2) = (let! (m, off, x) := minixfs_write x p2 buf count o2 in Done (Virtual m, both_open x o1 off)).
Proof.
  unfold fake_write, file_of, both_open. cbn [fd_map files fs]. rewrite lookup_insert_eq. cbn [obind]. rewrite lookup_insert_eq. cbn [deref obind path offset].
  destruct (minixfs_write x p2 buf count o2) as [[[m off] x']| | |]; cbn [obind]; [|done..]. unfold set_files, set_fs. cbn -[insert]. by rewrite insert_insert_eq.
Qed.

Context (i j : nat) (from to : list Z) (Hij : i <> j) (Hv : is_virtual_path p1 = None) (Hmax : Z.of_nat (length from) <= MAX_SIZE).

Lemma copy_loop_ok fuel x (o : nat) : (o <= length from)%nat -> (o `mod` 256 = 0)%nat \/ o = length from -> has_file x p1 i from -> has_file x p2 j (copied from to o) ->
  room x (blocks_needed (Z.of_nat (length (copied from to o))) (Z.of_nat o) (Z.of_nat (length from - o))) -> ((length from - o + 255) / 256 < fuel)%nat ->
  exists x', copy_loop fuel src dst (both_open x (Z.of_nat o) (Z.of_nat o)) = Done (Virtual 0, both_open x' (Z.of_nat (length from)) (Z.of_nat (length from)))
    /\ has_file x' p1 i from /\ has_file x' p2 j (copied from to (length from))
    /\ forall path k c, k <> i -> k <> j -> has_file x path k c -> has_file x' path k c.
Proof.
  revert x o. induction fuel as [|fuel IH]; intros x o Ho Hal Hs Hd Hroom Hfuel; [lia|]. cbn [copy_loop]. rewrite read_src.
  destruct (read_file x p1 i from BUFSIZE (Z.of_nat o) Hv Hs Hmax) as (x1 & -> & Hs1 & Hk1 & Hf1 & Hr1); [lia|unfold BUFSIZE; lia|]. cbn [obind]. unfold BUFSIZE.
  destruct (decide (o = length from)) as [->|Hlt].
  { rewrite Z.sub_diag. change (Z.min 256 0) with 0. rewrite Z.add_0_r. exists x1. split; [done|]. split; [done|]. split; [by apply (kept_file x x1 i)|]. intros. by apply (kept_file x x1 i). }
  destruct Hal as [Hal|]; [|done]. set (t := Nat.min 256 (length from - o)). replace (Z.min 256 (Z.of_nat (length from) - Z.of_nat o)) with (Z.of_nat t) by lia.
  rewrite (proj2 (Z.ltb_lt _ _)), !Nat2Z.id, write_dst by lia.
  assert (Hd1 : has_file x1 p2 j (copied from to o)) by (by apply (kept_file x x1 i)).
  assert (Hlc : length (copied from to o) = Nat.max o (length to)) by by apply length_copied.
  set (sz := Z.of_nat (length (copied from to o))) in *. replace (Z.of_nat (length from - o)) with (Z.of_nat t + Z.of_nat (length from - (o + t))) in Hroom by lia.
  rewrite needed_split in Hroom by lia. destruct Hroom as [Hfree Hheads].
  destruct Hd1 as (m & Hr & Hc). pose proof (size_content x1 p2 j m _ Hr Hc) as Hsz. fold sz in Hsz. pose proof Hmax as Hmax'. change MAX_SIZE with 67289088 in Hmax'.
  destruct (write_step x1 p2 j m (Z.of_nat t) (Z.of_nat o) (take t (drop o from))) as (x2 & m2 & -> & Hr2 & Hc2 & Hk2 & Hf2 & Hh2); try done; try lia.
  { apply Nat.Div0.mod_divides in Hal as [q Hq]. assert (t <= 256)%nat by lia. unfold BLOCK_SIZE. Z.div_mod_to_equations. lia. }
  { rewrite length_take, length_drop. lia. }
  { rewrite Hsz. unfold room. rewrite Hf1, Hr1. lia. }
  rewrite Hsz in *. cbn [obind]. rewrite (proj2 (Z.ltb_ge _ 0)) by lia. rewrite Hc, !Nat2Z.id, take_take, Nat.min_id, copied_more in Hc2 by lia. rewrite <- Nat2Z.inj_add.
  destruct (IH x2 (o + t)%nat) as (x' & -> & Hs' & Hd' & Hk').
  - lia.
  - destruct (decide (o + t = length from)%nat); [by right|left]. replace t with 256%nat by lia. rewrite Nat.Div0.add_mod, Hal. done.
  - by apply (kept_file x1 x2 j).
  - by exists m2.
  - rewrite length_copied by lia. replace (Z.of_nat (Nat.max (o + t) (length to))) with (Z.max sz (Z.of_nat o + Z.of_nat t)) by lia. rewrite Nat2Z.inj_add. rewrite Hr1 in Hh2. unfold room. lia.
  - assert ((length from - o + 255) / 256 = S ((length from - (o + t) + 255) / 256))%nat; [|lia]. destruct (decide (o + t = length from)%nat) as [Hm|Hm].
    + rewrite Hm, Nat.sub_diag. change ((0 + 255) / 256)%nat with 0%nat. symmetry. apply (Nat.div_unique _ _ _ (length from - o - 1)); lia.
    + replace (length from - o + 255)%nat with (length from - (o + t) + 255 + 1 * 256)%nat by lia. rewrite Nat.div_add by done. lia.
  - exists x'. split; [done|]. split; [done|]. split; [done|]. intros path k c Hki Hkj Hh. apply Hk'; [done..|]. apply (kept_file x1 x2 j); [done..|]. by apply (kept_file x x1 i).
Qed.
End Copy.

(** Closing a descriptor with an object of its own frees the object. *)
Lemma close_own s d a f : fd_map s !! d = Some a -> files s !! a = Some f -> refcount f = 1 ->
  fake_close d s = Done (Virtual 0, Fake (fs s) (delete d (fd_map s)) (dir_fd_map s) (delete a (files s)) (next_file s) (kernel s)).
Proof. intros Hd Ha Hr. unfold fake_close, file_of. rewrite Hd, Ha. cbn [deref obind refcount]. rewrite Hr. done. Qed.

Lemma close_both src dst p1 p2 K x o1 o2 : src <> dst ->
  (let! (_, s) := fake_close src (both_open src dst p1 p2 K x o1 o2) in fake_close dst s) = Done (Virtual 0, Fake x ∅ ∅ ∅ 3 K).
Proof.
  intros Hfd. rewrite (close_own _ src 1 (Fakefile src 0 p1 1 o1)) by (done || (cbn; by rewrite lookup_insert_ne, lookup_insert_eq) || by cbn). cbn [obind].
  rewrite (close_own _ dst 2 (Fakefile dst 0 p2 1 o2)).
  - cbn [both_open fs fd_map dir_fd_map files next_file kernel]. do 3 f_equal; apply map_eq; intros d; by repeat (rewrite lookup_delete || rewrite lookup_insert || case_decide).
  - cbn. by rewrite lookup_delete_ne, lookup_insert_eq.
  - done.
  - done.
Qed.

(** C37. [cp] of one file of the file system to another one that exists, with room for
    the blocks it needs, ends with 0: the second file has the first one's bytes, followed by what it had
    beyond them (it is not truncated); the first one and every other file keep their bytes.
    The tables of the routed calls are empty again and the file objects freed, but the
    two descriptors on /dev/null that stood for the files are still open in the kernel:
    [close] does not close them. *)
Theorem cp_copies {P : RealPaths} fuel src dst prog a1 a2 p1 p2 x i j from to
  (Ha1 : virtual_of a1 = Done (Some p1)) (Ha2 : virtual_of a2 = Done (Some p2)) (Hv1 : is_virtual_path p1 = None) (Hv2 : is_virtual_path p2 = None)
  (Hfrom : has_file x p1 i from) (Hto : has_file x p2 j to) (Hij : i <> j) (Hsrc : 0 <= src) (Hdst : 0 <= dst) (Hfd : src <> dst)
  (Hmax : Z.of_nat (length from) <= MAX_SIZE) (Hroom : room x (blocks_needed (Z.of_nat (length to)) 0 (Z.of_nat (length from))))
  (Hfuel : ((length from + 255) / 256 < fuel)%nat) :
  exists s, cp_main fuel src dst [prog; a1; a2] (Fake x ∅ ∅ ∅ 1 ∅) = Done (Virtual 0, s)
    /\ has_file (fs s) p1 i from /\ has_file (fs s) p2 j (from ++ drop (length from) to)
    /\ (forall path k c, k <> i -> k <> j -> has_file x path k c -> has_file (fs s) path k c)
    /\ fd_map s = ∅ /\ dir_fd_map s = ∅ /\ files s = ∅ /\ kernel s = {[ src; dst ]}.
Proof.
  unfold cp_main. unfold fake_open at 1. rewrite Ha1. cbn [obind fs]. destruct (open_file x p1 i from O_RDONLY Hv1 Hfrom) as (x1 & -> & Hf1 & Hk1 & Hb1 & Hr1). cbn [obind Z.leb Z.compare].
  unfold fake_creat, fake_open. rewrite Ha2. cbn [obind]. unfold null_fd. rewrite (proj2 (Z.leb_le 0 src)) by done. cbn [set_kernel set_fs fs fd_map dir_fd_map files next_file kernel].
  destruct (open_file x1 p2 j to O_CREAT Hv2) as (x2 & -> & Hf2 & Hk2 & Hb2 & Hr2); [by apply (kept_file x x1 i)|]. cbn [obind Z.leb Z.compare]. rewrite (proj2 (Z.leb_le 0 dst)) by done.
  cbn [set_kernel set_fs fs fd_map dir_fd_map files next_file kernel andb]. change (1 + 1) with 2.
  set (K := {[dst]} ∪ ({[src]} ∪ ∅) : gset Z). change (Fake x2 _ _ _ _ _) with (both_open src dst p1 p2 K x2 0 0).
  destruct (copy_loop_ok src dst p1 p2 K Hfd i j from to Hij Hv1 Hmax fuel x2 0) as (x3 & Hloop & Hs3 & Hd3 & Hk3); [lia|by left|by apply (kept_file x1 x2 j)|done|unfold room; rewrite Hb2, Hr2, Hb1, Hr1, Nat.sub_0_r; apply Hroom|by rewrite Nat.sub_0_r|].
  change (Z.of_nat 0) with 0 in Hloop. rewrite Hloop. cbn [obind].
  pose proof (close_both src dst p1 p2 K x3 (Z.of_nat (length from)) (Z.of_nat (length from)) Hfd) as Hc. apply obind_Done in Hc as ([r1 s1] & -> & Hc). cbn [obind]. rewrite Hc. cbn [obind].
  eexists. split; [done|]. split; [done|]. split; [by unfold copied in Hd3; rewrite take_ge in Hd3 by lia|]. split; [|repeat split; cbn; set_solver].
  intros path k c Hki Hkj Hh0. apply Hk3; [done..|]. apply (kept_file x1 x2 j); [done..|]. by apply (kept_file x x1 i).
Qed.

(** ** A concrete run *)

(** A root directory with ["a"], three hundred bytes, and ["b"], which is empty. *)
Definition copy_fs (size_b block_b : Z) : file_system :=
  let file s b := Inode 0 0 (Z.lor 493 (Z.shiftl TYPE_FILE RWX_BITS_NUMBER)) 1 0 0 0 s (b :: replicate 10 (-1)) (-1) in
  let root := Inode 0 0 (Z.lor 493 (Z.shiftl TYPE_DIRECTORY RWX_BITS_NUMBER)) 1 0 0 0 512 (0 :: replicate 10 (-1)) (-1) in
  let empty := Fs (Superblock 0 3 3) [root; file 300 1; file size_b block_b] (fun x => if x <? 16384 then 0 else x `mod` 251) [1; 1; if block_b =? -1 then 0 else 1] [false; true] 7 0 in
  match (let! fs := make_string_from_dirent 0 (bytes_of_string "a") 1 empty in make_string_from_dirent 256 (bytes_of_string "b") 2 fs) with Done fs => fs | _ => empty end.

Definition copy_inode (fs : file_system) (i : nat) : inode := default (Inode 0 0 0 0 0 0 0 0 [] 0) (inodes fs !! i).

Lemma copy_fs_ok : fs_ok (copy_fs 0 (-1)).
Proof.
  apply (one_block_ok _ [0; 1; -1]); try done.
  - intros [|[|[|i]]] n b Hn Hb; [| | |done]; by injection Hn as <-; injection Hb as <-.
  - by repeat apply Forall_cons_2; try apply Forall_nil_2; ((by left) || right).
  - intros [|[|[|i]]] [|[|[|j]]] b Hi Hj Hne; by simplify_eq/=.
Qed.

Lemma copy_fs_regular (i : nat) p b : bytes_of_string (String.String (Ascii.ascii_of_nat 47) (String.String (Ascii.ascii_of_nat (96 + i)) String.EmptyString)) = p ->
  (i = 1%nat /\ b = 1) \/ (i = 2%nat /\ b = -1) -> regular_file (copy_fs 0 (-1)) p i (copy_inode (copy_fs 0 (-1)) i).
Proof.
  intros <- [[-> ->]|[-> ->]]; (split; [apply copy_fs_ok|by repeat constructor; vm_compute; lia|vm_compute; reflexivity|done|done|done|done|]); [by apply (one_block_file _ _ 1)|by apply (one_block_file _ _ (-1))].
Qed.

Lemma cp_copies_witness :
  let x := copy_fs 0 (-1) in let from := content x (copy_inode x 1) in
  exists s, @cp_main sample_paths 3 3 4 [bytes_of_string "cp"; bytes_of_string "fs/a"; bytes_of_string "fs/b"] (Fake x ∅ ∅ ∅ 1 ∅) = Done (Virtual 0, s)
    /\ has_file (fs s) (bytes_of_string "/b") 2 from /\ kernel s = {[ 3; 4 ]}.
Proof.
  intros x from. assert (Hl : length from = 300%nat) by (unfold from; by rewrite length_content).
  destruct (@cp_copies sample_paths 3 3 4 (bytes_of_string "cp") (bytes_of_string "fs/a") (bytes_of_string "fs/b") (bytes_of_string "/a") (bytes_of_string "/b") x 1 2 from []) as (s & Hs & _ & Hb & _ & _ & _ & _ & HK).
  - vm_compute. reflexivity.
  - vm_compute. reflexivity.
  - reflexivity.
  - reflexivity.
  - exists (copy_inode x 1). split; [|done]. apply (copy_fs_regular 1 _ 1); [reflexivity|by left].
  - exists (copy_inode x 2). split; [|done]. apply (copy_fs_regular 2 _ (-1)); [reflexivity|by right].
  - done.
  - done.
  - done.
  - done.
  - rewrite Hl. done.
  - rewrite Hl. vm_compute. lia.
  - rewrite Hl. vm_compute. lia.
  - exists s. split; [exact Hs|]. rewrite drop_nil, app_nil_r in Hb. split; [exact Hb|exact HK].
Defined.

(** The second file is not truncated: of four hundred bytes, the last hundred stay. *)
Example cp_keeps_tail :
  (let x := copy_fs 400 2 in
   let! (r, s) := @cp_main sample_paths 3 3 4 [bytes_of_string "cp"; bytes_of_string "fs/a"; bytes_of_string "fs/b"] (Fake x ∅ ∅ ∅ 1 ∅) in
   let to := content (fs s) (copy_inode (fs s) 2) in
   Done (r, length to, bool_decide (take 300 to = content x (copy_inode x 1)), bool_decide (drop 300 to = drop 300 (content x (copy_inode x 2))))) = Done (Virtual 0, 400%nat, true, true).
Proof. vm_compute. reflexivity. Qed.
