(* ===== verification/Pipeline.v ===== *)
(** * [mapreduce/mapreduce.c]: the processes and the pipes between them

    [main] makes a pipe for each mapper and one for the reducer, starts the splitters,
    the mappers and the reducer with these as their standard input and output, and waits
    for them.  Every process has a table of descriptors of its own, which [fork] copies;
    a pipe is at its end when no process holds a descriptor for its write end.  The
    programs are those of [MapReduce]; a step of a process is a system call or the
    handling of one line. *)

From stdpp Require Import gmap strings.
From S2P Require Import Prelude CString MapReduce.
Open Scope Z_scope.

(** The arguments, the programs and what the system allows.  The output file can be
    opened. *)
Record job := Job {
  data : list Z;
  mapper_count : nat;
  func : list Z -> list Z;
  reduce : list Z -> outcome (list Z);
  out_file : list Z;
  reducer_exec : list Z;
  fork_ok : nat -> bool;
  splitter_runs : bool;
  mapper_runs : bool;
  reducer_runs : bool;
  PIPE_BUF : nat;
  pipe_capacity : nat;
  OPEN_MAX : nat;
}.

(** ** Descriptors *)

Inductive desc := Std | ReadEnd (p : nat) | WriteEnd (p : nat) | OutFile.

#[export] Instance desc_eq_dec : EqDecision desc.
Proof. solve_decision. Defined.

Abbreviation fd_table := (gmap Z desc).

Definition close (d : Z) (t : fd_table) : fd_table := delete d t.

Definition dup2 (oldfd newfd : Z) (t : fd_table) : fd_table :=
  match t !! oldfd with Some x => <[newfd := x]> t | None => t end.

(** The lowest descriptor that is free. *)
Fixpoint lowest_free (fuel : nat) (d : Z) (t : fd_table) : option Z :=
  match fuel with
  | O => None
  | S fuel => match t !! d with None => Some d | Some _ => lowest_free fuel (d + 1) t end
  end.

Definition holds (x : desc) (t : fd_table) : bool := bool_decide (map_Exists (fun _ y => y = x) t).

(** ** Processes

    The output of a program is what [stdio] has still to write, [rest], and the rest of
    the system call it is in, [call]. *)

Inductive program :=
| Splitting (call rest : list Z)
| Mapping (got : list Z) (at_eof : bool) (call rest : list Z)
| Reducing (got : list Z)
| Exited (status : Z).

Record process := Process { table : fd_table; prog : program }.

(** Where [main] is. *)
Inductive main_pc :=
| M_pipe (i : nat)
| M_pipe_red
| M_open
| M_fork_splitter (i : nat)
| M_close (i : nat)
| M_fork_mapper (i : nat)
| M_close_red
| M_fork_reducer
| M_wait_splitter (i : nat)
| M_wait_mapper (i : nat)
| M_wait_reducer
| M_report (status : Z)
| M_exited (status : Z).

Record sys := Sys {
  pc : main_pc;
  fds : fd_table;
  mp : list (Z * Z);
  red : Z * Z;
  writer : Z;
  splitter_procs : list nat;
  mapper_procs : list nat;
  red_proc : nat;
  procs : list process;
  pipes : list (list Z);
  file : list Z;
  out : list Z;
}.

Definition set_pc (x : main_pc) (s : sys) : sys := Sys x (fds s) (mp s) (red s) (writer s) (splitter_procs s) (mapper_procs s) (red_proc s) (procs s) (pipes s) (file s) (out s).
Definition set_fds (x : fd_table) (s : sys) : sys := Sys (pc s) x (mp s) (red s) (writer s) (splitter_procs s) (mapper_procs s) (red_proc s) (procs s) (pipes s) (file s) (out s).
Definition set_mp (x : list (Z * Z)) (s : sys) : sys := Sys (pc s) (fds s) x (red s) (writer s) (splitter_procs s) (mapper_procs s) (red_proc s) (procs s) (pipes s) (file s) (out s).
Definition set_red (x : Z * Z) (s : sys) : sys := Sys (pc s) (fds s) (mp s) x (writer s) (splitter_procs s) (mapper_procs s) (red_proc s) (procs s) (pipes s) (file s) (out s).
Definition set_writer (x : Z) (s : sys) : sys := Sys (pc s) (fds s) (mp s) (red s) x (splitter_procs s) (mapper_procs s) (red_proc s) (procs s) (pipes s) (file s) (out s).
Definition set_splitters (x : list nat) (s : sys) : sys := Sys (pc s) (fds s) (mp s) (red s) (writer s) x (mapper_procs s) (red_proc s) (procs s) (pipes s) (file s) (out s).
Definition set_mappers (x : list nat) (s : sys) : sys := Sys (pc s) (fds s) (mp s) (red s) (writer s) (splitter_procs s) x (red_proc s) (procs s) (pipes s) (file s) (out s).
Definition set_red_proc (x : nat) (s : sys) : sys := Sys (pc s) (fds s) (mp s) (red s) (writer s) (splitter_procs s) (mapper_procs s) x (procs s) (pipes s) (file s) (out s).
Definition set_procs (x : list process) (s : sys) : sys := Sys (pc s) (fds s) (mp s) (red s) (writer s) (splitter_procs s) (mapper_procs s) (red_proc s) x (pipes s) (file s) (out s).
Definition set_pipes (x : list (list Z)) (s : sys) : sys := Sys (pc s) (fds s) (mp s) (red s) (writer s) (splitter_procs s) (mapper_procs s) (red_proc s) (procs s) x (file s) (out s).
Definition set_file (x : list Z) (s : sys) : sys := Sys (pc s) (fds s) (mp s) (red s) (writer s) (splitter_procs s) (mapper_procs s) (red_proc s) (procs s) (pipes s) x (out s).
Definition set_out (x : list Z) (s : sys) : sys := Sys (pc s) (fds s) (mp s) (red s) (writer s) (splitter_procs s) (mapper_procs s) (red_proc s) (procs s) (pipes s) (file s) x.

(** Some process has the descriptor. *)
Definition open_end (x : desc) (s : sys) : bool := holds x (fds s) || existsb (fun p => holds x (table p)) (procs s).

(** ** System calls of the programs *)

Inductive io := Idle | Step (call rest : list Z) (s : sys) | Blocked | Failed | Killed.

(** What fits one system call of [stdio] is one, more is several; a pipe takes up to
    [PIPE_BUF] bytes at once or not at all.  [k] is chosen by the system. *)
Definition write_step (j : job) (k : nat) (t : fd_table) (call rest : list Z) (s : sys) : io :=
  match call, rest with
  | [], [] => Idle
  | [], _ =>
      if decide (length rest <= PIPE_BUF j)%nat then Step rest [] s
      else if decide (1 <= k <= length rest)%nat then Step (take k rest) (drop k rest) s
      else Blocked
  | _, _ =>
      match t !! 1 with
      | Some (WriteEnd p) =>
          if negb (open_end (ReadEnd p) s) then Killed
          else
            match pipes s !! p with
            | None => Failed
            | Some b =>
                let room := (pipe_capacity j - length b)%nat in
                if decide (length call <= PIPE_BUF j)%nat then
                  if decide (length call <= room)%nat then Step [] rest (set_pipes (<[p := b ++ call]> (pipes s)) s) else Blocked
                else if decide (1 <= k <= length call /\ k <= room)%nat then Step (drop k call) rest (set_pipes (<[p := b ++ take k call]> (pipes s)) s)
                else Blocked
            end
      | Some OutFile => Step [] rest (set_file (file s ++ call) s)
      | Some Std => Step [] rest (set_out (out s ++ call) s)
      | _ => Failed
      end
  end.

Inductive input := Bytes (bs : list Z) (s : sys) | End_of_file | Wait | Bad.

Definition read_step (k : nat) (t : fd_table) (s : sys) : input :=
  match t !! 0 with
  | Some (ReadEnd p) =>
      match pipes s !! p with
      | None => Bad
      | Some [] => if open_end (WriteEnd p) s then Wait else End_of_file
      | Some b => if decide (1 <= k <= length b)%nat then Bytes (take k b) (set_pipes (<[p := drop k b]> (pipes s)) s) else Wait
      end
  | Some Std => Wait
  | _ => Bad
  end.

(** [getline] on what has been read. *)
Fixpoint cut_line (got : list Z) : option (list Z * list Z) :=
  match got with
  | [] => None
  | c :: got =>
      if c =? 10 then Some ([c], got)
      else match cut_line got with Some (line, more) => Some (c :: line, more) | None => None end
  end.

Definition getline (got : list Z) (at_eof : bool) : option (list Z * list Z) :=
  match cut_line got with
  | Some r => Some r
  | None => if at_eof && negb (bool_decide (got = [])) then Some (got, []) else None
  end.

(** One step of process [id]; [None] when it has to wait.  The statuses are those of
    [waitpid]: 13 is SIGPIPE, 256 is [exit(1)]. *)
Definition proc_step (j : job) (id k : nat) (s : sys) : outcome (option sys) :=
  let! p := deref (procs s !! id) in
  let t := table p in
  let go_on x s := Done (Some (set_procs (<[id := Process t x]> (procs s)) s)) in
  let exit status s := Done (Some (set_procs (<[id := Process ∅ (Exited status)]> (procs s)) s)) in
  match prog p with
  | Splitting call rest =>
      match write_step j k t call rest s with
      | Idle => exit 0 s
      | Step call rest s => go_on (Splitting call rest) s
      | Blocked => Done None
      | Failed => exit 256 s
      | Killed => exit 13 s
      end
  | Mapping got at_eof call rest =>
      match write_step j k t call rest s with
      | Step call rest s => go_on (Mapping got at_eof call rest) s
      | Blocked => Done None
      | Failed => go_on (Mapping got at_eof [] []) s
      | Killed => exit 13 s
      | Idle =>
          match getline got at_eof with
          | Some (line, got) => go_on (Mapping got at_eof [] (func j (until_zero (chomp line)))) s
          | None =>
              if at_eof then exit 0 s
              else
                match read_step k t s with
                | Bytes bs s => go_on (Mapping (got ++ bs) at_eof [] []) s
                | End_of_file => go_on (Mapping got true [] []) s
                | Wait => Done None
                | Bad => exit 0 s
                end
          end
      end
  | Reducing got =>
      match read_step k t s with
      | Bytes bs s => go_on (Reducing (got ++ bs)) s
      | Wait => Done None
      | _ =>
          let! output := reduce j got in
          match t !! 1 with
          | Some OutFile => exit 0 (set_file (file s ++ output) s)
          | Some Std => exit 0 (set_out (out s ++ output) s)
          | _ => exit 0 s
          end
      end
  | Exited _ => Done None
  end.

(** ** [main] *)

(** [pipe]; when it fails, the code goes on with two numbers that have not been set. *)
Definition pipe (j : job) (s : sys) : outcome (Z * Z * sys) :=
  let p := length (pipes s) in
  let! r := deref (lowest_free (OPEN_MAX j) 0 (fds s)) in
  let t := <[r := ReadEnd p]> (fds s) in
  let! w := deref (lowest_free (OPEN_MAX j) 0 t) in
  Done (r, w, set_pipes (pipes s ++ [[]]) (set_fds (<[w := WriteEnd p]> t) s)).

Definition exit_main (status : Z) (s : sys) : outcome (option sys) := Done (Some (set_fds ∅ (set_pc (M_exited status) s))).

(** A child whose program cannot be executed ends with [exit(-1)]. *)
Definition child (t : fd_table) (runs : bool) (x : program) : process :=
  if runs then Process t x else Process ∅ (Exited 65280).

(** [fork]: the number of the child and the process that goes on as it. *)
Definition fork (j : job) (p : process) (s : sys) : option (nat * sys) :=
  let pid := length (procs s) in
  if fork_ok j pid then Some (pid, set_procs (procs s ++ [p]) s) else None.

(** [waitpid] *)
Definition exit_status (pid : nat) (s : sys) : option Z :=
  match procs s !! pid with Some (Process _ (Exited status)) => Some status | _ => None end.

Definition print_num_lines (filename : list Z) (s : sys) : sys :=
  let count := length (filter (eq 10) (file s)) in
  set_out (out s ++ bytes_of_string "output pairs in " ++ filename ++ bytes_of_string ": " ++ decimal (Z.of_nat count) ++ [10]) s.

Definition print_nonzero_exit_status (exec_name : list Z) (status : Z) (s : sys) : sys :=
  set_out (out s ++ exec_name ++ bytes_of_string " exited with status " ++ decimal status ++ [10]) s.

Definition main_step (j : job) (s : sys) : outcome (option sys) :=
  let n := mapper_count j in
  let go_on x s := Done (Some (set_pc x s)) in
  match pc s with
  | M_pipe i =>
      if decide (i < n)%nat then let! (p, s) := pipe j s in go_on (M_pipe (S i)) (set_mp (mp s ++ [p]) s)
      else go_on M_pipe_red s
  | M_pipe_red => let! (p, s) := pipe j s in go_on M_open (set_red p s)
  | M_open =>
      let! w := deref (lowest_free (OPEN_MAX j) 0 (fds s)) in
      go_on (M_fork_splitter 0) (set_writer w (set_file [] (set_fds (<[w := OutFile]> (fds s)) s)))
  | M_fork_splitter i =>
      if decide (i < n)%nat then
        let! (r, w) := deref (mp s !! i) in
        let t := dup2 w 1 (close r (fds s)) in
        match fork j (child t (splitter_runs j) (Splitting [] (write_portion (data j) (Z.of_nat n) (Z.of_nat i)))) s with
        | Some (pid, s) => go_on (M_fork_splitter (S i)) (set_splitters (splitter_procs s ++ [pid]) s)
        | None => exit_main 255 s
        end
      else go_on (M_close 0) s
  | M_close i =>
      if decide (i < n)%nat then let! (_, w) := deref (mp s !! i) in go_on (M_fork_mapper i) (set_fds (close w (fds s)) s)
      else go_on M_close_red s
  | M_fork_mapper i =>
      let! (r, _) := deref (mp s !! i) in
      let t := dup2 (snd (red s)) 1 (dup2 r 0 (close (fst (red s)) (fds s))) in
      match fork j (child t (mapper_runs j) (Mapping [] false [] [])) s with
      | Some (pid, s) => go_on (M_close (S i)) (set_mappers (mapper_procs s ++ [pid]) s)
      | None => exit_main 255 s
      end
  | M_close_red => go_on M_fork_reducer (set_fds (close (snd (red s)) (fds s)) s)
  | M_fork_reducer =>
      let t := dup2 (writer s) 1 (dup2 (fst (red s)) 0 (fds s)) in
      match fork j (child t (reducer_runs j) (Reducing [])) s with
      | Some (pid, s) => go_on (M_wait_splitter 0) (set_red_proc pid s)
      | None => exit_main 255 s
      end
  | M_wait_splitter i =>
      if decide (i < n)%nat then
        let! pid := deref (splitter_procs s !! i) in
        match exit_status pid s with Some _ => go_on (M_wait_splitter (S i)) s | None => Done None end
      else go_on (M_wait_mapper 0) s
  | M_wait_mapper i =>
      if decide (i < n)%nat then
        let! pid := deref (mapper_procs s !! i) in
        match exit_status pid s with Some _ => go_on (M_wait_mapper (S i)) s | None => Done None end
      else go_on M_wait_reducer s
  | M_wait_reducer => match exit_status (red_proc s) s with Some status => go_on (M_report status) s | None => Done None end
  | M_report status =>
      let s := if status =? 0 then s else print_nonzero_exit_status (reducer_exec j) status s in
      exit_main 0 (print_num_lines (out_file j) s)
  | M_exited _ => Done None
  end.

(** ** Runs *)

Inductive actor := Main | Child (id : nat).

Definition sys_step (j : job) (a : actor) (k : nat) (s : sys) : outcome (option sys) :=
  match a with
  | Main => main_step j s
  | Child id => if decide (id < length (procs s))%nat then proc_step j id k s else Done None
  end.

Definition start : sys := Sys (M_pipe 0) {[0 := Std; 1 := Std; 2 := Std]} [] (0, 0) 0 [] [] 0 [] [] [] [].

(** A schedule: who goes on, and how many bytes it moves; who has to wait does. *)
Fixpoint run (j : job) (schedule : list (actor * nat)) (s : sys) : outcome sys :=
  match schedule with
  | [] => Done s
  | (a, k) :: schedule =>
      let! r := sys_step j a k s in
      run j schedule (default s r)
  end.

(** Nobody can go on. *)
Definition stuck (j : job) (s : sys) : Prop := forall a k, sys_step j a k s = Done None.
