(* ===== verification/PipelineSpec.v ===== *)
(** * Correctness of the processes of mapreduce

    However the system schedules the processes, none waits for ever: [main] ends, all
    its children have ended, and the output file holds what the reducer makes of some
    interleaving of the mappers' lines. *)

From stdpp Require Import gmap strings sorting.
From S2P Require Import Prelude CString Callbacks MapReduce MapReduceSpec Pipeline.
Open Scope Z_scope.

(** ** The descriptors of [main]: [m] pipes, [c] write ends closed *)

Definition table_ok (t : fd_table) (m c : nat) (o : bool) : Prop := forall d x, t !! d = Some x <->
  (0 <= d < 3 /\ x = Std) \/ (exists i, (i < m)%nat /\ d = 3 + 2 * Z.of_nat i /\ x = ReadEnd i)
  \/ (exists i, (c <= i < m)%nat /\ d = 4 + 2 * Z.of_nat i /\ x = WriteEnd i) \/ (o = true /\ d = 3 + 2 * Z.of_nat m /\ x = OutFile).

Lemma table_read t m c o i : table_ok t m c o -> (i < m)%nat -> t !! (3 + 2 * Z.of_nat i) = Some (ReadEnd i).
Proof. intros H Hi. apply H. right; left. by exists i. Qed.

Lemma table_write t m c o i : table_ok t m c o -> (c <= i < m)%nat -> t !! (4 + 2 * Z.of_nat i) = Some (WriteEnd i).
Proof. intros H Hi. apply H. right; right; left. by exists i. Qed.

Lemma table_out t m c : table_ok t m c true -> t !! (3 + 2 * Z.of_nat m) = Some OutFile.
Proof. intros H. apply H. by right; right; right. Qed.

Lemma table_none t m c o d : table_ok t m c o -> ~ (0 <= d < 3 + 2 * Z.of_nat m) -> (o = true -> d <> 3 + 2 * Z.of_nat m) -> t !! d = None.
Proof.
  intros H Hd Ho. destruct (t !! d) as [x|] eqn:E; [|done]. apply H in E as [[? _]|[(i & ? & ? & _)|[(i & ? & ? & _)|(? & ? & _)]]]; [lia|lia|lia|]. by destruct Ho.
Qed.

Lemma table_some t m o d : table_ok t m 0 o -> 0 <= d < 3 + 2 * Z.of_nat m -> is_Some (t !! d).
Proof.
  intros H Hd. destruct (decide (d < 3)) as [Hl|Hl]; [exists Std; apply H; left; split; [lia|done]|].
  destruct (Z.Even_or_Odd (d - 3)) as [[i Hi]|[i Hi]].
  - exists (ReadEnd (Z.to_nat i)). apply H. right; left. exists (Z.to_nat i). split; [lia|]. split; [lia|done].
  - exists (WriteEnd (Z.to_nat i)). apply H. right; right; left. exists (Z.to_nat i). split; [lia|]. split; [lia|done].
Qed.

Lemma table_start : table_ok (fds start) 0 0 false.
Proof.
  intros d x. cbn [fds start]. split.
  - intros H. left. apply lookup_insert_Some in H as [[<- <-]|[_ H]]; [done|]. apply lookup_insert_Some in H as [[<- <-]|[_ H]]; [done|].
    by apply lookup_singleton_Some in H as [<- <-].
  - intros [[Hd ->]|[(i & ? & _)|[(i & ? & _)|(? & _)]]]; [|lia|lia|done]. assert (d = 0 \/ d = 1 \/ d = 2) as [-> | [-> | ->]] by lia; reflexivity.
Qed.

(** The next two descriptors are those behind the last pipe. *)
Lemma lowest_free_at fuel (x : nat) d t : (x < fuel)%nat -> (forall k, (k < x)%nat -> is_Some (t !! (d + Z.of_nat k))) -> t !! (d + Z.of_nat x) = None ->
  lowest_free fuel d t = Some (d + Z.of_nat x).
Proof.
  revert x d. induction fuel as [|fuel IH]; intros x d Hx Hs Hn; [lia|]. cbn [lowest_free]. destruct x as [|x].
  - rewrite Z.add_0_r in Hn. rewrite Hn. f_equal. lia.
  - destruct (Hs 0%nat) as [y Hy]; [lia|]. rewrite Z.add_0_r in Hy. rewrite Hy. rewrite (IH x) by
      first [lia | (intros k Hk; replace (d + 1 + Z.of_nat k) with (d + Z.of_nat (S k)) by lia; apply Hs; lia) | (replace (d + 1 + Z.of_nat x) with (d + Z.of_nat (S x)) by lia; done)].
    f_equal. lia.
Qed.

Lemma table_free t m o fuel : table_ok t m 0 o -> (o = true -> False) -> (3 + 2 * m < fuel)%nat -> lowest_free fuel 0 t = Some (3 + 2 * Z.of_nat m).
Proof.
  intros H Ho Hf. rewrite (lowest_free_at fuel (3 + 2 * m)); [f_equal; lia|done| |].
  - intros k Hk. apply (table_some t m o); [done|lia].
  - apply (table_none t m 0 o); [done|lia|by intros E%Ho].
Qed.

Lemma table_free' t m fuel : table_ok t m 0 false -> (4 + 2 * m < fuel)%nat -> lowest_free fuel 0 (<[3 + 2 * Z.of_nat m := ReadEnd m]> t) = Some (4 + 2 * Z.of_nat m).
Proof.
  intros H Hf. rewrite (lowest_free_at fuel (4 + 2 * m)); [f_equal; lia|done| |].
  - intros k Hk. destruct (decide (k = 3 + 2 * m)%nat) as [->|Hk']; [replace (0 + Z.of_nat (3 + 2 * m)) with (3 + 2 * Z.of_nat m) by lia; by rewrite lookup_insert_eq|].
    rewrite lookup_insert_ne by lia. apply (table_some t m false); [done|lia].
  - rewrite lookup_insert_ne by lia. apply (table_none t m 0 false); [done|lia|done].
Qed.

Lemma table_pipe t m : table_ok t m 0 false -> table_ok (<[4 + 2 * Z.of_nat m := WriteEnd m]> (<[3 + 2 * Z.of_nat m := ReadEnd m]> t)) (S m) 0 false.
Proof.
  intros H d x. split.
  - intros Hx. apply lookup_insert_Some in Hx as [[<- <-]|[_ Hx]]; [right; right; left; exists m; split; [lia|]; split; [lia|done]|].
    apply lookup_insert_Some in Hx as [[<- <-]|[_ Hx]]; [right; left; exists m; split; [lia|]; split; [lia|done]|].
    apply H in Hx as [Hx|[(i & Hi & Hx)|[(i & Hi & Hx)|[? _]]]]; [by left|right; left; exists i; split; [lia|done]|right; right; left; exists i; split; [lia|done]|done].
  - intros [[Hd ->]|[(i & Hi & -> & ->)|[(i & Hi & -> & ->)|[? _]]]]; [| | |done].
    + rewrite !lookup_insert_ne by lia. apply H. by left.
    + rewrite lookup_insert_ne by lia. destruct (decide (i = m)) as [->|]; [by rewrite lookup_insert_eq|]. rewrite lookup_insert_ne by lia. apply H. right; left. exists i. split; [lia|done].
    + destruct (decide (i = m)) as [->|]; [by rewrite lookup_insert_eq|]. rewrite !lookup_insert_ne by lia. apply H. right; right; left. exists i. split; [lia|done].
Qed.

Lemma table_open t m : table_ok t m 0 false -> table_ok (<[3 + 2 * Z.of_nat m := OutFile]> t) m 0 true.
Proof.
  intros H d x. split.
  - intros Hx. apply lookup_insert_Some in Hx as [[<- <-]|[_ Hx]]; [by right; right; right|]. apply H in Hx as [Hx|[Hx|[Hx|[? _]]]]; [by left|by right; left|by right; right; left|done].
  - intros [[Hd ->]|[(i & Hi & -> & ->)|[(i & Hi & -> & ->)|(_ & -> & ->)]]]; [| | |by rewrite lookup_insert_eq]; (rewrite lookup_insert_ne by lia; apply H).
    + by left.
    + right; left. by exists i.
    + right; right; left. by exists i.
Qed.

Lemma table_close t m c o : table_ok t m c o -> table_ok (close (4 + 2 * Z.of_nat c) t) m (S c) o.
Proof.
  intros H d x. unfold close. rewrite lookup_delete_Some. split.
  - intros [Hd Hx]. apply H in Hx as [Hx|[Hx|[(i & Hi & -> & ->)|Hx]]]; [by left|by right; left| |by right; right; right]. right; right; left. exists i. split; [lia|done].
  - intros [[Hd ->]|[(i & Hi & -> & ->)|[(i & Hi & -> & ->)|(-> & -> & ->)]]]; (split; [lia|]); apply H; [by left|right; left; by exists i| |by right; right; right].
    right; right; left. exists i. split; [lia|done].
Qed.

Lemma table_no_write t m c o p : table_ok t m c o -> (p < c)%nat -> holds (WriteEnd p) t = false.
Proof.
  intros H Hp. unfold holds. apply bool_decide_eq_false. intros (d & x & Hx & ->). apply H in Hx as [[_ ?]|[(i & _ & _ & ?)|[(i & ? & _ & [= ->])|(_ & _ & ?)]]]; [done|done|lia|done].
Qed.

Lemma holds_at d x t : t !! d = Some x -> holds x t = true.
Proof. intros H. apply bool_decide_eq_true. by exists d, x. Qed.

Lemma holds_insert x y d t : holds x (<[d := y]> t) = true -> x = y \/ holds x t = true.
Proof.
  unfold holds. rewrite !bool_decide_eq_true. intros (d' & z & Hz & ->). apply lookup_insert_Some in Hz as [[<- ->]|[_ Hz]]; [by left|right]. by exists d', x.
Qed.

Lemma holds_delete x d t : holds x (delete d t) = true -> holds x t = true.
Proof. unfold holds. rewrite !bool_decide_eq_true. intros (d' & z & Hz & ->). apply lookup_delete_Some in Hz as [_ Hz]. by exists d', x. Qed.

(** ** Interleavings and sums *)

Lemma interleaving_one {A} ls i (es : list A) : Forall (eq []) ls -> (i < length ls)%nat -> interleaving (<[i := es]> ls) es.
Proof.
  intros H Hi. induction es as [|e es IH].
  - apply interleaving_done. by apply Forall_insert.
  - apply (interleaving_step _ i e es); [by apply list_lookup_insert_eq|]. by rewrite list_insert_insert_eq.
Qed.

(** Thread [i] does more at the end. *)
Lemma interleaving_app {A} ls (r : list A) i l es : interleaving ls r -> ls !! i = Some l -> interleaving (<[i := l ++ es]> ls) (r ++ es).
Proof.
  intros H. revert l. induction H as [ls Hls|ls k x l' r Hk H IH]; intros l Hl.
  - assert (l = []) as -> by (symmetry; by eapply (proj1 (Forall_lookup _ _) Hls)). apply interleaving_one; [done|by apply lookup_lt_Some in Hl].
  - pose proof (lookup_lt_Some _ _ _ Hk) as Hlt. cbn [app]. destruct (decide (k = i)) as [->|Hne].
    + simplify_eq. apply (interleaving_step _ i x (l' ++ es)); [by rewrite list_lookup_insert_eq|]. rewrite list_insert_insert_eq.
      specialize (IH l'). rewrite list_lookup_insert_eq, list_insert_insert_eq in IH by done. by apply IH.
    + apply (interleaving_step _ k x l'); [by rewrite list_lookup_insert_ne|]. rewrite list_insert_insert_ne by done. apply IH. by rewrite list_lookup_insert_ne.
Qed.

Lemma sum_with_ext (f g : nat -> nat) l : (forall k, k ∈ l -> f k = g k) -> sum_list_with f l = sum_list_with g l.
Proof.
  induction l as [|k l IH]; intros H; [done|]. cbn. rewrite (H k) by apply list_elem_of_here. f_equal. apply IH. intros k' Hk'. apply H. by apply list_elem_of_further.
Qed.

Lemma sum_change (f g : nat -> nat) i a n : (a <= i < a + n)%nat -> (forall k, (a <= k < a + n)%nat -> k <> i -> f k = g k) ->
  (sum_list_with f (seq a n) + g i = sum_list_with g (seq a n) + f i)%nat.
Proof.
  revert a. induction n as [|n IH]; intros a Hi He; [lia|]. cbn [seq sum_list_with]. destruct (decide (a = i)) as [->|Hne].
  - rewrite (sum_with_ext f g (seq (S i) n)); [lia|]. intros k Hk. apply elem_of_seq in Hk. apply He; lia.
  - rewrite (He a) by (done || lia). specialize (IH (S a) ltac:(lia) ltac:(intros; apply He; [lia|done])). lia.
Qed.

(** ** The processes and what is on its way *)

Section Invariant.

Context (j : job).

#[local] Abbreviation mc := (mapper_count j).

Definition chunk (i : nat) : list Z := write_portion (data j) (Z.of_nat mc) (Z.of_nat i).

(** A process that has not been started yet has done nothing. *)
Definition left_at (procs : list process) (i : nat) : list Z :=
  match procs !! i with
  | Some (Process _ (Splitting call rest)) => call ++ rest
  | Some _ => []
  | None => chunk i
  end.

Definition mapper_at (procs : list process) (i : nat) : program :=
  match procs !! (mc + i)%nat with Some p => prog p | None => Mapping [] false [] [] end.

Definition pipe_at (pipes : list (list Z)) (i : nat) : list Z := default [] (pipes !! i).

Definition pending (call rest : list Z) : list (list Z) := match call ++ rest with [] => [] | w => [w] end.

(** The writes that mapper [i] has still to do. *)
Definition todo_of (x : program) (coming : list Z) : list (list Z) :=
  match x with
  | Mapping got _ call rest => pending call rest ++ run_mapper_on_fds (got ++ coming) (func j)
  | _ => []
  end.

Definition todo (procs : list process) (pipes : list (list Z)) (i : nat) : list (list Z) :=
  todo_of (mapper_at procs i) (pipe_at pipes i ++ left_at procs i).

Definition gone (procs : list process) (id : nat) : Prop := procs !! id = Some (Process ∅ (Exited 0)).

Definition splitter_ok (i : nat) (p : process) : Prop :=
  match prog p with Splitting _ _ => table p !! 1 = Some (WriteEnd i) | _ => p = Process ∅ (Exited 0) end.

Definition mapper_fds (i : nat) (t : fd_table) : Prop :=
  t !! 0 = Some (ReadEnd i) /\ t !! 1 = Some (WriteEnd mc) /\ (forall q, holds (WriteEnd q) t = true -> (i < q)%nat).

Definition mapper_ok (procs : list process) (pipes : list (list Z)) (i : nat) (p : process) : Prop :=
  match prog p with
  | Mapping _ at_eof call rest =>
      mapper_fds i (table p) /\ (call = [] \/ rest = []) /\ (length call <= PIPE_BUF j)%nat /\ (length rest <= PIPE_BUF j)%nat
      /\ (at_eof = true -> gone procs i /\ pipe_at pipes i = [])
  | _ => p = Process ∅ (Exited 0) /\ gone procs i /\ pipe_at pipes i = []
  end.

Definition reducer_ok (p : process) : Prop :=
  match prog p with
  | Reducing _ => table p !! 0 = Some (ReadEnd mc) /\ table p !! 1 = Some OutFile /\ (forall q, holds (WriteEnd q) (table p) = false)
  | _ => p = Process ∅ (Exited 0)
  end.

Record kids_ok (procs : list process) (pipes : list (list Z)) : Prop := KidsOk {
  k_splitter : forall i p, (i < mc)%nat -> procs !! i = Some p -> splitter_ok i p;
  k_mapper : forall i p, (i < mc)%nat -> procs !! (mc + i)%nat = Some p -> mapper_ok procs pipes i p;
  k_reducer : forall p, procs !! (mc + mc)%nat = Some p -> reducer_ok p;
}.

(** [writes] is what the reducer has read and will read from its pipe. *)
Definition flow (procs : list process) (pipes : list (list Z)) (file : list Z) : Prop := exists writes dones,
  interleaving dones writes /\ length dones = mc
  /\ (forall i d, dones !! i = Some d -> d ++ todo procs pipes i = mapper_process (data j) (Z.of_nat mc) (func j) i)
  /\ match procs !! (mc + mc)%nat with
     | None => pipe_at pipes mc = concat writes /\ file = []
     | Some (Process _ (Reducing got)) => got ++ pipe_at pipes mc = concat writes /\ file = []
     | Some _ => pipe_at pipes mc = [] /\ (forall i, (i < mc)%nat -> gone procs (mc + i)) /\ reduce j (concat writes) = Done file
     end.

(** *** A bound on the steps that are left *)

Definition splitter_work (procs : list process) (i : nat) : nat :=
  match procs !! i with
  | Some (Process _ (Splitting call rest)) => 1 + 4 * length call + 5 * length rest
  | Some _ => 0
  | None => 1 + 5 * length (chunk i)
  end.

Definition mapper_work (x : program) (coming : list Z) : nat :=
  match x with
  | Mapping got at_eof call rest =>
      1 + (if at_eof then 0 else 1) + 2 * length got + 2 * length call + 3 * length rest
      + 4 * length (concat (run_mapper_on_fds (got ++ coming) (func j)))
  | _ => 0
  end.

Definition work (procs : list process) (pipes : list (list Z)) (i : nat) : nat :=
  splitter_work procs i + 3 * length (pipe_at pipes i) + mapper_work (mapper_at procs i) (pipe_at pipes i ++ left_at procs i).

Definition reducer_work (procs : list process) : nat :=
  match procs !! (mc + mc)%nat with Some (Process _ (Exited _)) => 0 | _ => 1 end.

Definition kids_work (procs : list process) (pipes : list (list Z)) : nat :=
  sum_list_with (work procs pipes) (seq 0 mc) + length (pipe_at pipes mc) + reducer_work procs.

(** *** What the processes do *)

Lemma pipe_at_eq pipes i b : (i < length pipes)%nat -> pipe_at (<[i := b]> pipes) i = b.
Proof. intros H. unfold pipe_at. by rewrite list_lookup_insert_eq. Qed.

Lemma pipe_at_ne pipes i k b : i <> k -> pipe_at (<[i := b]> pipes) k = pipe_at pipes k.
Proof. intros H. unfold pipe_at. by rewrite list_lookup_insert_ne. Qed.

Lemma mapper_at_eq procs i t x : (mc + i < length procs)%nat -> mapper_at (<[(mc + i)%nat := Process t x]> procs) i = x.
Proof. intros H. unfold mapper_at. by rewrite list_lookup_insert_eq. Qed.

Lemma mapper_at_ne procs i k p : i <> (mc + k)%nat -> mapper_at (<[i := p]> procs) k = mapper_at procs k.
Proof. intros H. unfold mapper_at. by rewrite list_lookup_insert_ne. Qed.

Lemma left_at_ne procs i k p : i <> k -> left_at (<[i := p]> procs) k = left_at procs k.
Proof. intros H. unfold left_at. by rewrite list_lookup_insert_ne. Qed.

Lemma gone_ne procs i k p : i <> k -> gone (<[i := p]> procs) k <-> gone procs k.
Proof. intros H. unfold gone. by rewrite list_lookup_insert_ne. Qed.

Definition good (procs : list process) (pipes : list (list Z)) (file : list Z) : Prop := kids_ok procs pipes /\ flow procs pipes file.

(** The state after a step of a process is good and has less work left. *)
Definition better (procs procs' : list process) (pipes pipes' : list (list Z)) (file file' : list Z) : Prop :=
  good procs' pipes' file' /\ (kids_work procs' pipes' < kids_work procs pipes)%nat.

Lemma insert_at {A} (l : list A) i x : l !! i = Some x -> <[i := x]> l = l.
Proof. apply list_insert_id. Qed.

Lemma work_other procs pipes procs' pipes' i :
  splitter_work procs' i = splitter_work procs i -> pipe_at pipes' i = pipe_at pipes i -> mapper_at procs' i = mapper_at procs i -> left_at procs' i = left_at procs i ->
  work procs' pipes' i = work procs pipes i.
Proof. unfold work. by intros -> -> -> ->. Qed.

Lemma splitter_work_ne procs i k p : i <> k -> splitter_work (<[i := p]> procs) k = splitter_work procs k.
Proof. intros H. unfold splitter_work. by rewrite list_lookup_insert_ne. Qed.

Lemma reducer_work_ne procs i p : i <> (mc + mc)%nat -> reducer_work (<[i := p]> procs) = reducer_work procs.
Proof. intros H. unfold reducer_work. by rewrite list_lookup_insert_ne. Qed.

(** Only index [i] gets less work, of which [extra] bytes go to the reducer's pipe. *)
Lemma work_less procs procs' pipes pipes' i extra : (i < mc)%nat -> reducer_work procs' = reducer_work procs ->
  length (pipe_at pipes' mc) = (length (pipe_at pipes mc) + extra)%nat -> (work procs' pipes' i + extra < work procs pipes i)%nat ->
  (forall k, (k < mc)%nat -> k <> i -> work procs' pipes' k = work procs pipes k) -> (kids_work procs' pipes' < kids_work procs pipes)%nat.
Proof.
  intros Hi Hr Hp Hw Ho. pose proof (sum_change (work procs' pipes') (work procs pipes) i 0 mc ltac:(lia) ltac:(intros; apply Ho; [lia|done])) as Hsum. unfold kids_work. rewrite Hr, Hp. lia.
Qed.

(** Mapper [i] turns [x] into [x'], takes its pipe from [b] to [b'] and appends the
    writes [es] to the reducer's. *)
Lemma mapper_moves procs pipes file i t x x' b b' rb es :
  good procs pipes file -> (i < mc)%nat -> procs !! (mc + i)%nat = Some (Process t x) -> (forall st, x <> Exited st) ->
  pipes !! i = Some b -> pipes !! mc = Some rb ->
  todo_of x (b ++ left_at procs i) = es ++ todo_of x' (b' ++ left_at procs i) ->
  mapper_ok procs (<[i := b']> pipes) i (Process t x') ->
  (mapper_work x' (b' ++ left_at procs i) + 3 * length b' + length (concat es) < mapper_work x (b ++ left_at procs i) + 3 * length b)%nat ->
  better procs (<[(mc + i)%nat := Process t x']> procs) pipes (<[i := b']> (<[mc := rb ++ concat es]> pipes)) file file.
Proof.
  intros [[Ks Km Kr] (writes & dones & Hint & Hlen & Hd & Hr)] Hi Hp Hx Hb Hrb Htodo Hok Hwork.
  pose proof (lookup_lt_Some _ _ _ Hp) as Hlp. pose proof (lookup_lt_Some _ _ _ Hb) as Hlb. pose proof (lookup_lt_Some _ _ _ Hrb) as Hlr.
  set (procs' := <[(mc + i)%nat := Process t x']> procs). set (pipes' := <[i := b']> (<[mc := rb ++ concat es]> pipes)).
  assert (Hpi : pipe_at pipes' i = b') by (apply pipe_at_eq; by rewrite length_insert).
  assert (Hpr : pipe_at pipes' mc = rb ++ concat es) by (unfold pipes'; rewrite pipe_at_ne by lia; by apply pipe_at_eq).
  assert (Hpo : forall k, k <> i -> k <> mc -> pipe_at pipes' k = pipe_at pipes k) by (intros k ? ?; unfold pipes'; by rewrite !pipe_at_ne by done).
  assert (Hmi : mapper_at procs' i = x') by by apply mapper_at_eq.
  assert (Hmo : forall k, k <> i -> mapper_at procs' k = mapper_at procs k) by (intros k ?; apply mapper_at_ne; lia).
  assert (Hle : forall k, (k < mc)%nat -> left_at procs' k = left_at procs k) by (intros k ?; apply left_at_ne; lia).
  assert (Hg : forall k, (k < mc)%nat -> gone procs' k <-> gone procs k) by (intros k ?; apply gone_ne; lia).
  assert (Hbi : pipe_at pipes i = b) by (unfold pipe_at; by rewrite Hb). assert (Hrr : pipe_at pipes mc = rb) by (unfold pipe_at; by rewrite Hrb).
  assert (Hxi : mapper_at procs i = x) by (unfold mapper_at; by rewrite Hp).
  split; [split; [split|]|].
  - intros k p Hk Hkp. apply (Ks k); [done|]. unfold procs' in Hkp. by rewrite list_lookup_insert_ne in Hkp by lia.
  - intros k p Hk Hkp. destruct (decide (k = i)) as [->|Hne].
    + unfold procs' in Hkp. rewrite list_lookup_insert_eq in Hkp by done. injection Hkp as <-. revert Hok. unfold mapper_ok. cbn [prog table]. rewrite pipe_at_eq, Hpi by done.
      destruct x'; by rewrite ?(Hg i Hi).
    + unfold procs' in Hkp. rewrite list_lookup_insert_ne in Hkp by lia. specialize (Km k p Hk Hkp). revert Km. unfold mapper_ok. rewrite (Hpo k) by lia. destruct (prog p); by rewrite ?(Hg k Hk).
  - intros p Hkp. apply Kr. unfold procs' in Hkp. by rewrite list_lookup_insert_ne in Hkp by lia.
  - destruct (lookup_lt_is_Some_2 dones i) as [d Hdi]; [lia|]. exists (writes ++ es), (<[i := d ++ es]> dones). split; [by apply interleaving_app|]. split; [by rewrite length_insert|]. split.
    + intros k dk Hk. destruct (decide (k = i)) as [->|Hne].
      * rewrite list_lookup_insert_eq in Hk by lia. injection Hk as <-. rewrite <- (Hd i d Hdi). unfold todo. rewrite Hmi, Hpi, (Hle i), Hxi, Hbi, Htodo by done. by rewrite app_assoc.
      * rewrite list_lookup_insert_ne in Hk by done. rewrite <- (Hd k dk Hk). apply lookup_lt_Some in Hk. unfold todo. by rewrite Hmo, Hpo, (Hle k) by lia.
    + unfold procs'. rewrite list_lookup_insert_ne by lia. rewrite Hpr. rewrite Hrr in Hr. rewrite concat_app.
      destruct (procs !! (mc + mc)%nat) as [[tr [| |got|]]|]; [| | | |]; try (destruct Hr as (_ & Hall & _); specialize (Hall i Hi); unfold gone in Hall; rewrite Hp in Hall; by simplify_eq; edestruct Hx).
      * by destruct Hr as [<- ->]; rewrite app_assoc.
      * by destruct Hr as [<- ->].
  - apply (work_less _ _ _ _ i (length (concat es))); [done|apply reducer_work_ne; lia|by rewrite Hpr, Hrr, length_app| |].
    + unfold work. rewrite Hmi, Hpi, (Hle i), Hxi, Hbi by done. unfold procs'. rewrite splitter_work_ne by lia. lia.
    + intros k Hk Hne. apply work_other; [apply splitter_work_ne; lia|apply Hpo; lia|by apply Hmo|by apply Hle].
Qed.


(** Only process [id] and what is not about the mappers changes. *)
Lemma flow_keeps procs procs' pipes pipes' file : (forall i, (i < mc)%nat -> todo procs' pipes' i = todo procs pipes i) ->
  procs' !! (mc + mc)%nat = procs !! (mc + mc)%nat -> pipe_at pipes' mc = pipe_at pipes mc ->
  (forall i, (i < mc)%nat -> gone procs (mc + i) -> gone procs' (mc + i)) ->
  flow procs pipes file -> flow procs' pipes' file.
Proof.
  intros Ht Hr Hp Hg (writes & dones & Hint & Hlen & Hd & Hw). exists writes, dones. split; [done|]. split; [done|]. split.
  - intros i d Hi. rewrite Ht; [by apply Hd|]. apply lookup_lt_Some in Hi. lia.
  - rewrite Hr, Hp. destruct (procs !! (mc + mc)%nat) as [[tr [| |got|]]|]; [| |done| |done]; (destruct Hw as (? & Hall & ?); split; [done|]; split; [|done]); intros i Hi; by apply Hg, Hall.
Qed.

(** Splitter [i] hands bytes to the system or to its pipe. *)
Lemma splitter_moves procs pipes file i t call rest call' rest' b b' :
  good procs pipes file -> (i < mc)%nat -> procs !! i = Some (Process t (Splitting call rest)) -> pipes !! i = Some b ->
  b ++ call ++ rest = b' ++ call' ++ rest' -> (3 * length b' + 4 * length call' + 5 * length rest' < 3 * length b + 4 * length call + 5 * length rest)%nat ->
  better procs (<[i := Process t (Splitting call' rest')]> procs) pipes (<[i := b']> pipes) file file.
Proof.
  intros [[Ks Km Kr] Hflow] Hi Hp Hb Heq Hwork. pose proof (lookup_lt_Some _ _ _ Hp) as Hlp. pose proof (lookup_lt_Some _ _ _ Hb) as Hlb.
  set (procs' := <[i := Process t (Splitting call' rest')]> procs). set (pipes' := <[i := b']> pipes).
  assert (Hpi : pipe_at pipes' i = b') by by apply pipe_at_eq. assert (Hpo : forall k, k <> i -> pipe_at pipes' k = pipe_at pipes k) by (intros k ?; by apply pipe_at_ne).
  assert (Hm : forall k, mapper_at procs' k = mapper_at procs k) by (intros k; apply mapper_at_ne; lia).
  assert (Hli : left_at procs' i = call' ++ rest') by (unfold left_at, procs'; by rewrite list_lookup_insert_eq).
  assert (Hlo : forall k, k <> i -> left_at procs' k = left_at procs k) by (intros k ?; by apply left_at_ne).
  assert (Hbi : pipe_at pipes i = b) by (unfold pipe_at; by rewrite Hb). assert (Hl : left_at procs i = call ++ rest) by (unfold left_at; by rewrite Hp).
  assert (Hcoming : forall k, (k < mc)%nat -> pipe_at pipes' k ++ left_at procs' k = pipe_at pipes k ++ left_at procs k).
  { intros k Hk. destruct (decide (k = i)) as [->|Hne]; [by rewrite Hpi, Hli, Hbi, Hl|by rewrite Hpo, Hlo]. }
  assert (Hni : ~ gone procs i) by (unfold gone; rewrite Hp; by intros [= ]).
  split; [split; [split|]|].
  - intros k p Hk Hkp. destruct (decide (k = i)) as [->|Hne].
    + unfold procs' in Hkp. rewrite list_lookup_insert_eq in Hkp by done. injection Hkp as <-. apply (Ks i _ Hi Hp).
    + unfold procs' in Hkp. rewrite list_lookup_insert_ne in Hkp by done. by apply (Ks k).
  - intros k p Hk Hkp. unfold procs' in Hkp. rewrite list_lookup_insert_ne in Hkp by lia. specialize (Km k p Hk Hkp). revert Km. unfold mapper_ok.
    destruct (decide (k = i)) as [->|Hne].
    + destruct (prog p); try (by intros (_ & ? & _)). intros (? & ? & ? & ? & He). split_and!; [done..|]. intros Hat. by destruct (He Hat).
    + rewrite (Hpo k) by done. assert (Hg : gone procs' k <-> gone procs k) by (apply gone_ne; lia). destruct (prog p); by rewrite ?Hg.
  - intros p Hkp. apply Kr. unfold procs' in Hkp. by rewrite list_lookup_insert_ne in Hkp by lia.
  - apply (flow_keeps procs _ pipes); [|unfold procs'; by rewrite list_lookup_insert_ne by lia|apply Hpo; lia| |done].
    + intros k Hk. unfold todo. by rewrite Hm, Hcoming.
    + intros k Hk. apply gone_ne. lia.
  - apply (work_less _ _ _ _ i 0); [done|apply reducer_work_ne; lia|rewrite (Hpo mc) by lia; lia| |].
    + unfold work. rewrite Hm, Hcoming, Hpi, Hbi by done. unfold splitter_work, procs'. rewrite list_lookup_insert_eq, Hp by done. lia.
    + intros k Hk Hne. apply work_other; [apply splitter_work_ne; lia|apply Hpo; lia|apply Hm|apply Hlo; lia].
Qed.

Lemma splitter_exits procs pipes file i t : good procs pipes file -> (i < mc)%nat -> procs !! i = Some (Process t (Splitting [] [])) ->
  better procs (<[i := Process ∅ (Exited 0)]> procs) pipes pipes file file.
Proof.
  intros [[Ks Km Kr] Hflow] Hi Hp. pose proof (lookup_lt_Some _ _ _ Hp) as Hlp. set (procs' := <[i := Process ∅ (Exited 0)]> procs).
  assert (Hm : forall k, mapper_at procs' k = mapper_at procs k) by (intros k; apply mapper_at_ne; lia).
  assert (Hl : forall k, left_at procs' k = left_at procs k).
  { intros k. destruct (decide (i = k)) as [<-|Hne]; [|by apply left_at_ne]. unfold left_at, procs'. by rewrite list_lookup_insert_eq, Hp. }
  assert (Hni : ~ gone procs i) by (unfold gone; rewrite Hp; by intros [= ]).
  split; [split; [split|]|].
  - intros k p Hk Hkp. unfold procs' in Hkp. destruct (decide (k = i)) as [->|Hne].
    + rewrite list_lookup_insert_eq in Hkp by done. by injection Hkp as <-.
    + rewrite list_lookup_insert_ne in Hkp by done. by apply (Ks k).
  - intros k p Hk Hkp. unfold procs' in Hkp. rewrite list_lookup_insert_ne in Hkp by lia. specialize (Km k p Hk Hkp). revert Km. unfold mapper_ok.
    destruct (decide (k = i)) as [->|Hne].
    + destruct (prog p); try (by intros (_ & ? & _)). intros (? & ? & ? & ? & He). split_and!; [done..|]. intros Hat. by destruct (He Hat).
    + assert (Hg : gone procs' k <-> gone procs k) by (apply gone_ne; lia). destruct (prog p); by rewrite ?Hg.
  - intros p Hkp. apply Kr. unfold procs' in Hkp. by rewrite list_lookup_insert_ne in Hkp by lia.
  - apply (flow_keeps procs _ pipes); [|unfold procs'; by rewrite list_lookup_insert_ne by lia|done| |done].
    + intros k Hk. unfold todo. by rewrite Hm, Hl.
    + intros k Hk. apply gone_ne. lia.
  - apply (work_less _ _ _ _ i 0); [done|apply reducer_work_ne; lia|lia| |].
    + unfold work. rewrite Hm, Hl. unfold splitter_work, procs'. rewrite list_lookup_insert_eq, Hp by done. cbn. lia.
    + intros k Hk Hne. apply work_other; [apply splitter_work_ne; lia|done|apply Hm|apply Hl].
Qed.

Lemma mapper_exits procs pipes file i t : good procs pipes file -> (i < mc)%nat -> procs !! (mc + i)%nat = Some (Process t (Mapping [] true [] [])) ->
  better procs (<[(mc + i)%nat := Process ∅ (Exited 0)]> procs) pipes pipes file file.
Proof.
  intros [[Ks Km Kr] Hflow] Hi Hp. pose proof (lookup_lt_Some _ _ _ Hp) as Hlp. set (procs' := <[(mc + i)%nat := Process ∅ (Exited 0)]> procs).
  destruct (Km i _ Hi Hp) as (_ & _ & _ & _ & He). destruct (He eq_refl) as [Hgi Hpi].
  assert (Hmi : mapper_at procs i = Mapping [] true [] []) by (unfold mapper_at; by rewrite Hp).
  assert (Hmi' : mapper_at procs' i = Exited 0) by by apply mapper_at_eq.
  assert (Hmo : forall k, k <> i -> mapper_at procs' k = mapper_at procs k) by (intros k ?; apply mapper_at_ne; lia).
  assert (Hle : forall k, (k < mc)%nat -> left_at procs' k = left_at procs k) by (intros k ?; apply left_at_ne; lia).
  assert (Hg : forall k, (k < mc)%nat -> gone procs' k <-> gone procs k) by (intros k ?; apply gone_ne; lia).
  assert (Hli : left_at procs i = []) by (unfold left_at; by rewrite Hgi).
  split; [split; [split|]|].
  - intros k p Hk Hkp. apply (Ks k); [done|]. unfold procs' in Hkp. by rewrite list_lookup_insert_ne in Hkp by lia.
  - intros k p Hk Hkp. unfold procs' in Hkp. destruct (decide (k = i)) as [->|Hne].
    + rewrite list_lookup_insert_eq in Hkp by done. injection Hkp as <-. cbn. split; [done|]. split; [by apply Hg|done].
    + rewrite list_lookup_insert_ne in Hkp by lia. specialize (Km k p Hk Hkp). revert Km. unfold mapper_ok. destruct (prog p); by rewrite ?(Hg k Hk).
  - intros p Hkp. apply Kr. unfold procs' in Hkp. by rewrite list_lookup_insert_ne in Hkp by lia.
  - apply (flow_keeps procs _ pipes); [|unfold procs'; by rewrite list_lookup_insert_ne by lia|done| |done].
    + intros k Hk. unfold todo. destruct (decide (k = i)) as [->|Hne]; [by rewrite Hmi, Hmi', Hpi, Hli|by rewrite Hmo, Hle].
    + intros k Hk Hgk. destruct (decide (k = i)) as [->|Hne]; [unfold gone, procs'; by rewrite list_lookup_insert_eq|apply gone_ne; [lia|done]].
  - apply (work_less _ _ _ _ i 0); [done|apply reducer_work_ne; lia|lia| |].
    + unfold work. rewrite Hmi, Hmi', Hpi, (Hle i) by done. unfold procs'. rewrite splitter_work_ne by lia. cbn. lia.
    + intros k Hk Hne. apply work_other; [apply splitter_work_ne; lia|done|by apply Hmo|by apply Hle].
Qed.

(** The reducer takes bytes from its pipe. *)
Lemma reducer_reads procs pipes file t got bs rb : good procs pipes file -> procs !! (mc + mc)%nat = Some (Process t (Reducing got)) -> pipes !! mc = Some (bs ++ rb) -> bs <> [] ->
  better procs (<[(mc + mc)%nat := Process t (Reducing (got ++ bs))]> procs) pipes (<[mc := rb]> pipes) file file.
Proof.
  intros [[Ks Km Kr] (writes & dones & Hint & Hlen & Hd & Hr)] Hp Hb Hbs. pose proof (lookup_lt_Some _ _ _ Hp) as Hlp. pose proof (lookup_lt_Some _ _ _ Hb) as Hlb.
  set (procs' := <[(mc + mc)%nat := Process t (Reducing (got ++ bs))]> procs).
  assert (Hps : forall k, (k < mc + mc)%nat -> procs' !! k = procs !! k) by (intros k ?; unfold procs'; by rewrite list_lookup_insert_ne by lia).
  assert (Hpo : forall k, (k < mc)%nat -> pipe_at (<[mc := rb]> pipes) k = pipe_at pipes k) by (intros k ?; apply pipe_at_ne; lia).
  assert (Hm : forall k, (k < mc)%nat -> mapper_at procs' k = mapper_at procs k) by (intros k ?; apply mapper_at_ne; lia).
  assert (Hl : forall k, (k < mc)%nat -> left_at procs' k = left_at procs k) by (intros k ?; apply left_at_ne; lia).
  split; [split; [split|]|].
  - intros k p Hk. rewrite Hps by lia. by apply Ks.
  - intros k p Hk. rewrite Hps by lia. intros Hkp. specialize (Km k p Hk Hkp). revert Km. unfold mapper_ok, gone. rewrite (Hpo k), (Hps k) by lia. done.
  - intros p Hkp. unfold procs' in Hkp. rewrite list_lookup_insert_eq in Hkp by done. injection Hkp as <-. apply (Kr _ Hp).
  - exists writes, dones. split; [done|]. split; [done|]. split.
    + intros i d Hi. rewrite <- (Hd i d Hi). apply lookup_lt_Some in Hi. unfold todo. by rewrite Hm, Hpo, Hl by lia.
    + rewrite Hp in Hr. unfold procs'. rewrite list_lookup_insert_eq, pipe_at_eq by done. unfold pipe_at in Hr. rewrite Hb in Hr. cbn in Hr. destruct Hr as [<- ->]. by rewrite <- app_assoc.
  - unfold kids_work. rewrite pipe_at_eq by done. assert (pipe_at pipes mc = bs ++ rb) as -> by (unfold pipe_at; by rewrite Hb). rewrite (sum_with_ext (work procs' (<[mc := rb]> pipes)) (work procs pipes)).
    + unfold reducer_work, procs'. rewrite list_lookup_insert_eq, Hp, length_app by done. destruct bs; [done|]. cbn [length]. lia.
    + intros k Hk%elem_of_seq. apply work_other; [apply splitter_work_ne; lia|apply Hpo; lia|apply Hm; lia|apply Hl; lia].
Qed.

(** The reducer writes its result. *)
Lemma reducer_exits procs pipes file t got output : good procs pipes file -> procs !! (mc + mc)%nat = Some (Process t (Reducing got)) -> pipes !! mc = Some [] ->
  (forall i, (i < mc)%nat -> gone procs (mc + i)) -> reduce j got = Done output ->
  better procs (<[(mc + mc)%nat := Process ∅ (Exited 0)]> procs) pipes pipes file (file ++ output).
Proof.
  intros [[Ks Km Kr] (writes & dones & Hint & Hlen & Hd & Hr)] Hp Hb Hall Hred. pose proof (lookup_lt_Some _ _ _ Hp) as Hlp.
  set (procs' := <[(mc + mc)%nat := Process ∅ (Exited 0)]> procs).
  assert (Hps : forall k, (k < mc + mc)%nat -> procs' !! k = procs !! k) by (intros k ?; unfold procs'; by rewrite list_lookup_insert_ne by lia).
  assert (Hm : forall k, (k < mc)%nat -> mapper_at procs' k = mapper_at procs k) by (intros k ?; apply mapper_at_ne; lia).
  assert (Hl : forall k, (k < mc)%nat -> left_at procs' k = left_at procs k) by (intros k ?; apply left_at_ne; lia).
  split; [split; [split|]|].
  - intros k p Hk. rewrite Hps by lia. by apply Ks.
  - intros k p Hk. rewrite Hps by lia. intros Hkp. specialize (Km k p Hk Hkp). revert Km. unfold mapper_ok, gone. by rewrite (Hps k) by lia.
  - intros p Hkp. unfold procs' in Hkp. rewrite list_lookup_insert_eq in Hkp by done. by injection Hkp as <-.
  - exists writes, dones. split; [done|]. split; [done|]. split.
    + intros i d Hi. rewrite <- (Hd i d Hi). apply lookup_lt_Some in Hi. unfold todo. by rewrite Hm, Hl by lia.
    + rewrite Hp in Hr. unfold procs' at 1. rewrite list_lookup_insert_eq by done. unfold pipe_at in *. rewrite Hb in *. cbn in *. rewrite app_nil_r in Hr. destruct Hr as [-> ->].
      split; [done|]. split; [|done]. intros i Hi. unfold gone. rewrite Hps by lia. by apply Hall.
  - unfold kids_work. rewrite (sum_with_ext (work procs' pipes) (work procs pipes)).
    + unfold reducer_work, procs'. rewrite list_lookup_insert_eq, Hp by done. lia.
    + intros k Hk%elem_of_seq. apply work_other; [apply splitter_work_ne; lia|done|apply Hm; lia|apply Hl; lia].
Qed.

(** *** The system calls *)

Variant write_result (k : nat) (t : fd_table) (call rest : list Z) (s : sys) (p : nat) (b : list Z) : io -> Prop :=
| WR_idle : call = [] -> rest = [] -> write_result k t call rest s p b Idle
| WR_blocked : write_result k t call rest s p b Blocked
| WR_call c r : call = [] -> rest = c ++ r -> c <> [] -> ((length rest <= PIPE_BUF j)%nat -> r = []) -> write_result k t call rest s p b (Step c r s)
| WR_write w c : call = w ++ c -> w <> [] -> ((length call <= PIPE_BUF j)%nat -> c = []) ->
    write_result k t call rest s p b (Step c rest (set_pipes (<[p := b ++ w]> (pipes s)) s)).

Lemma write_step_cases k t call rest s p b : t !! 1 = Some (WriteEnd p) -> open_end (ReadEnd p) s = true -> pipes s !! p = Some b ->
  write_result k t call rest s p b (write_step j k t call rest s).
Proof.
  intros Ht Ho Hb. unfold write_step. destruct call as [|c call].
  - destruct rest as [|x rest]; [by apply WR_idle|]. destruct (decide (length (x :: rest) <= PIPE_BUF j)%nat).
    + apply WR_call; [done|by rewrite app_nil_r|done|done].
    + destruct (decide (1 <= k <= length (x :: rest))%nat) as [Hk|]; [|apply WR_blocked]. apply WR_call; [done|by rewrite take_drop| |lia].
      destruct k; [lia|done].
  - rewrite Ht, Ho, Hb. cbn [negb]. cbv zeta. destruct (decide (length (c :: call) <= PIPE_BUF j)%nat).
    + case_decide; [|apply WR_blocked]. apply WR_write; [by rewrite app_nil_r|done|done].
    + destruct (decide (1 <= k <= length (c :: call) /\ k <= pipe_capacity j - length b)%nat) as [Hk|]; [|apply WR_blocked]. apply WR_write; [by rewrite take_drop| |lia].
      destruct k; [lia|done].
Qed.

Variant read_result (s : sys) (p : nat) (b : list Z) : input -> Prop :=
| RR_wait : read_result s p b Wait
| RR_bytes bs b' : b = bs ++ b' -> bs <> [] -> read_result s p b (Bytes bs (set_pipes (<[p := b']> (pipes s)) s))
| RR_end : b = [] -> open_end (WriteEnd p) s = false -> read_result s p b End_of_file.

Lemma read_step_cases k t s p b : t !! 0 = Some (ReadEnd p) -> pipes s !! p = Some b -> read_result s p b (read_step k t s).
Proof.
  intros Ht Hb. unfold read_step. rewrite Ht, Hb. destruct b as [|c b]; [destruct (open_end (WriteEnd p) s) eqn:E; [apply RR_wait|by apply RR_end]|].
  destruct (decide (1 <= k <= length (c :: b))%nat) as [Hk|]; [|apply RR_wait]. apply RR_bytes; [by rewrite take_drop|]. destruct k; [lia|done].
Qed.

Lemma open_end_proc x s id p : procs s !! id = Some p -> holds x (table p) = true -> open_end x s = true.
Proof. intros Hp Hx. unfold open_end. apply orb_true_iff. right. apply existsb_exists. exists p. split; [by apply list_elem_of_In, (list_elem_of_lookup_2 _ id)|done]. Qed.

Lemma cut_line_some got line more : cut_line got = Some (line, more) -> exists l, line = l ++ [10] /\ (10 ∉ l) /\ got = line ++ more.
Proof.
  revert line. induction got as [|c got IH]; intros line H; [done|]. cbn in H. destruct (Z.eqb_spec c 10) as [->|Hc].
  - simplify_eq. exists []. split; [done|]. split; [by apply not_elem_of_nil|done].
  - destruct (cut_line got) as [[l m]|] eqn:E; [|done]. simplify_eq. destruct (IH l eq_refl) as (l' & -> & Hn & ->). exists (c :: l'). split; [done|]. split; [|done].
    apply not_elem_of_cons. by split.
Qed.

Lemma cut_line_none got : cut_line got = None -> 10 ∉ got.
Proof.
  induction got as [|c got IH]; intros H; [by apply not_elem_of_nil|]. cbn in H. destruct (Z.eqb_spec c 10) as [->|Hc]; [done|]. apply not_elem_of_cons. split; [done|].
  apply IH. by destruct (cut_line got) as [[]|].
Qed.

Lemma getlines_last got : 10 ∉ got -> got <> [] -> getlines got = [got].
Proof.
  induction got as [|c got IH]; intros Hn Hne; [done|]. apply not_elem_of_cons in Hn as [Hc Hn]. cbn. rewrite (proj2 (Z.eqb_neq c 10)) by done.
  destruct got as [|d got]; [done|]. by rewrite IH.
Qed.

(** [getline] takes the next line of what is still coming. *)
Lemma getline_some got at_eof coming line more : getline got at_eof = Some (line, more) -> (at_eof = true -> coming = []) ->
  run_mapper_on_fds (got ++ coming) (func j) = func j (until_zero (chomp line)) :: run_mapper_on_fds (more ++ coming) (func j) /\ (length more < length got)%nat.
Proof.
  unfold getline. intros H He. destruct (cut_line got) as [[l m]|] eqn:E.
  - simplify_eq. apply cut_line_some in E as (l & -> & Hn & ->). split; [|rewrite !length_app; cbn; lia]. unfold run_mapper_on_fds. rewrite <- app_assoc, getlines_app by (right; left; by rewrite last_snoc).
    by rewrite getlines_line.
  - apply cut_line_none in E. destruct at_eof; [|done]. rewrite (He eq_refl). cbn [andb] in H. destruct (bool_decide_reflect (got = [])) as [|Hne]; [done|]. cbn in H. simplify_eq.
    rewrite !app_nil_r. unfold run_mapper_on_fds. rewrite getlines_last by done. split; [done|]. destruct line; [done|]. cbn. lia.
Qed.

Lemma getline_none got at_eof : getline got at_eof = None -> at_eof = true -> got = [].
Proof.
  unfold getline. intros H ->. destruct (cut_line got) as [[]|]; [done|]. by destruct (bool_decide_reflect (got = [])).
Qed.

(** *** A step of a process *)

Record job_ok : Prop := JobOk {
  jb_atomic : forall i w, (i < mc)%nat -> w ∈ mapper_process (data j) (Z.of_nat mc) (func j) i -> (length w <= PIPE_BUF j)%nat;
  jb_reduce : forall input, reducer_input (data j) mc (func j) input -> exists output, reduce j input = Done output;
  jb_buf : (1 <= PIPE_BUF j <= pipe_capacity j)%nat;
  jb_fork : forall id, fork_ok j id = true;
  jb_runs : splitter_runs j = true /\ mapper_runs j = true /\ reducer_runs j = true;
  jb_max : (2 * mc + 6 <= OPEN_MAX j)%nat;
}.

Definition with_kids (p : list process) (q : list (list Z)) (f : list Z) (s : sys) : sys := set_file f (set_pipes q (set_procs p s)).

(** Every pipe is there and has a reader. *)
Record ends_ok (s : sys) : Prop := EndsOk {
  e_pipes : length (pipes s) = S mc;
  e_readers : forall p, (p <= mc)%nat -> open_end (ReadEnd p) s = true;
}.

Definition step_ok (s : sys) (o : outcome (option sys)) : Prop := exists r, o = Done r /\
  forall s', r = Some s' -> exists procs' pipes' file', s' = with_kids procs' pipes' file' s /\ length procs' = length (procs s) /\ length pipes' = length (pipes s)
    /\ better (procs s) procs' (pipes s) pipes' (file s) file'.

Lemma step_waits s : step_ok s (Done None).
Proof. exists None. by split. Qed.

Lemma step_goes s id x : better (procs s) (<[id := x]> (procs s)) (pipes s) (pipes s) (file s) (file s) -> step_ok s (Done (Some (set_procs (<[id := x]> (procs s)) s))).
Proof. intros H. eexists. split; [done|]. intros s' [= <-]. exists (<[id := x]> (procs s)), (pipes s), (file s). split; [done|]. by rewrite length_insert. Qed.

Lemma step_pipes s id x i b : better (procs s) (<[id := x]> (procs s)) (pipes s) (<[i := b]> (pipes s)) (file s) (file s) ->
  step_ok s (Done (Some (set_procs (<[id := x]> (procs s)) (set_pipes (<[i := b]> (pipes s)) s)))).
Proof. intros H. eexists. split; [done|]. intros s' [= <-]. exists (<[id := x]> (procs s)), (<[i := b]> (pipes s)), (file s). split; [done|]. by rewrite !length_insert. Qed.

Lemma step_file s id x f : better (procs s) (<[id := x]> (procs s)) (pipes s) (pipes s) (file s) f -> step_ok s (Done (Some (set_procs (<[id := x]> (procs s)) (set_file f s)))).
Proof. intros H. eexists. split; [done|]. intros s' [= <-]. exists (<[id := x]> (procs s)), (pipes s), f. split; [done|]. by rewrite length_insert. Qed.

(** A step that changes more than the processes. *)
Ltac goes lemma := match goal with |- step_ok ?s _ => change (procs (set_pipes _ s)) with (procs s) || change (procs (set_file _ s)) with (procs s) end; apply lemma.

Lemma splitter_step s i k t call rest : ends_ok s -> good (procs s) (pipes s) (file s) -> (i < mc)%nat -> procs s !! i = Some (Process t (Splitting call rest)) ->
  step_ok s (proc_step j i k s).
Proof.
  intros [Hlen Hread] Hgood Hi Hp. unfold proc_step. rewrite Hp. cbn [deref obind table prog].
  destruct (lookup_lt_is_Some_2 (pipes s) i) as [b Hb]; [lia|]. assert (Ht : t !! 1 = Some (WriteEnd i)) by apply (k_splitter _ _ (proj1 Hgood) i _ Hi Hp).
  destruct (write_step_cases k t call rest s i b Ht (Hread i ltac:(lia)) Hb) as [-> ->| |c r -> -> Hc _|w c -> Hw _].
  - apply step_goes. by apply (splitter_exits _ _ _ _ t).
  - apply step_waits.
  - apply step_goes. rewrite <- (insert_at _ _ _ Hb) at 2. apply (splitter_moves _ _ _ _ _ [] (c ++ r) _ _ b); [done..|].
    rewrite length_app. destruct c; [done|]. cbn. lia.
  - goes step_pipes. apply (splitter_moves _ _ _ _ _ (w ++ c) rest _ _ b); [done..|by rewrite <- !app_assoc|].
    rewrite !length_app. destruct w; [done|]. cbn. lia.
Qed.

Lemma todo_short procs pipes file i w : job_ok -> flow procs pipes file -> (i < mc)%nat -> w ∈ todo procs pipes i -> (length w <= PIPE_BUF j)%nat.
Proof.
  intros Hj (writes & dones & _ & Hlen & Hd & _) Hi Hw. destruct (lookup_lt_is_Some_2 dones i) as [d Hdi]; [lia|]. apply (jb_atomic Hj i w Hi).
  rewrite <- (Hd i d Hdi). apply elem_of_app. by right.
Qed.

(** Nobody holds the write end: the splitter has ended. *)
Lemma splitter_gone s i : good (procs s) (pipes s) (file s) -> (i < mc)%nat -> (i < length (procs s))%nat -> open_end (WriteEnd i) s = false -> gone (procs s) i.
Proof.
  intros [[Ks _ _] _] Hi Hl He. apply lookup_lt_is_Some_2 in Hl as [p Hp]. specialize (Ks i p Hi Hp). unfold splitter_ok in Ks. unfold gone. rewrite Hp.
  destruct (prog p); try by subst. by rewrite (open_end_proc _ _ _ _ Hp (holds_at _ _ _ Ks)) in He.
Qed.

Lemma mapper_gone s i : good (procs s) (pipes s) (file s) -> (i < mc)%nat -> (mc + i < length (procs s))%nat -> open_end (WriteEnd mc) s = false -> gone (procs s) (mc + i).
Proof.
  intros [[_ Km _] _] Hi Hl He. apply lookup_lt_is_Some_2 in Hl as [p Hp]. specialize (Km i p Hi Hp). unfold mapper_ok in Km. unfold gone. rewrite Hp.
  destruct (prog p); try by destruct Km as [-> _]. destruct Km as ((_ & Ht & _) & _). by rewrite (open_end_proc _ _ _ _ Hp (holds_at _ _ _ Ht)) in He.
Qed.

Lemma coming_nil s i : gone (procs s) i -> pipe_at (pipes s) i = [] -> pipe_at (pipes s) i ++ left_at (procs s) i = [].
Proof. intros Hg ->. unfold left_at. by rewrite Hg. Qed.

Lemma pending_nil call : pending call [] = match call with [] => [] | w => [w] end.
Proof. unfold pending. rewrite app_nil_r. by destruct call. Qed.

(** A line for which the mapper writes nothing. *)
Definition silent (w : list Z) : list (list Z) := match w with [] => [[]] | _ => [] end.

Lemma mapper_step s i k t got at_eof call rest : job_ok -> ends_ok s -> good (procs s) (pipes s) (file s) -> (i < mc)%nat ->
  procs s !! (mc + i)%nat = Some (Process t (Mapping got at_eof call rest)) -> step_ok s (proc_step j (mc + i) k s).
Proof.
  intros Hj [Hlen Hread] Hgood Hi Hp. unfold proc_step. rewrite Hp. cbn [deref obind table prog].
  destruct (lookup_lt_is_Some_2 (pipes s) i) as [b Hb]; [lia|]. destruct (lookup_lt_is_Some_2 (pipes s) mc) as [rb Hrb]; [lia|].
  pose proof (k_mapper _ _ (proj1 Hgood) i _ Hi Hp) as Hok. cbn in Hok. destruct Hok as (Hfds & Hor & Hcall & Hrest & He). cbn [table] in *. pose proof Hfds as (Ht0 & Ht1 & _).
  assert (Hbi : pipe_at (pipes s) i = b) by (unfold pipe_at; by rewrite Hb).
  assert (Hti : todo (procs s) (pipes s) i = todo_of (Mapping got at_eof call rest) (b ++ left_at (procs s) i)) by (unfold todo, mapper_at; by rewrite Hp, Hbi).
  pose proof (mapper_moves (procs s) (pipes s) (file s) i t (Mapping got at_eof call rest)) as Hmove.
  destruct (write_step_cases k t call rest s mc rb Ht1 (Hread mc ltac:(lia)) Hrb) as [-> ->| |c r -> -> Hc Hr|w c -> Hw Hc].
  - clear Hor Hcall Hrest. pose proof (lookup_lt_Some _ _ _ Hp) as Hlp. destruct (getline got at_eof) as [[line more]|] eqn:Hg.
    + destruct (getline_some got at_eof (b ++ left_at (procs s) i) line more Hg) as [Hrun Hlt].
      { intros Hat. destruct (He Hat) as [Hgi Hpi]. rewrite <- Hbi. by apply coming_nil. }
      set (f := func j (until_zero (chomp line))) in *.
      assert (Hf : (length f <= PIPE_BUF j)%nat) by (apply (todo_short _ _ _ i f Hj (proj2 Hgood) Hi); rewrite Hti; cbn; rewrite Hrun; apply list_elem_of_here).
      apply step_goes. specialize (Hmove (Mapping more at_eof [] f) b b rb (silent f)).
      assert (Hes : concat (silent f) = []) by (unfold silent; by destruct f).
      rewrite Hes, app_nil_r, (insert_at _ _ _ Hrb), (insert_at _ _ _ Hb) in Hmove. apply Hmove; try done; clear Hmove.
      * cbn [todo_of]. rewrite Hrun. unfold silent. by destruct f.
      * cbn. split_and!; try done; [by left|lia].
      * cbn [mapper_work]. rewrite Hrun. cbn [concat]. rewrite length_app. cbn [length]. lia.
    + destruct at_eof.
      * rewrite (getline_none got true) in Hp by done. apply step_goes. by apply (mapper_exits _ _ _ _ t).
      * destruct (read_step_cases k t s i b Ht0 Hb) as [|bs b' Heq Hbs| -> Hend]; [apply step_waits| |].
        -- goes step_pipes. specialize (Hmove (Mapping (got ++ bs) false [] []) b b' rb []). cbn [concat] in Hmove. rewrite app_nil_r, (insert_at _ _ _ Hrb) in Hmove. apply Hmove; try done; clear Hmove.
           ++ cbn. by rewrite Heq, <- !app_assoc.
           ++ cbn. split_and!; try done; [by left|cbn; lia..].
           ++ cbn [mapper_work]. rewrite Heq, <- !app_assoc, !length_app. destruct bs; [done|]. cbn [length concat]. lia.
        -- apply step_goes. specialize (Hmove (Mapping got true [] []) [] [] rb []). cbn [concat] in Hmove. rewrite app_nil_r, (insert_at _ _ _ Hrb), (insert_at _ _ _ Hb) in Hmove. apply Hmove; try done; clear Hmove.
           ++ cbn. split_and!; try done; try (cbn; lia); [by left|]. intros _. split; [|done]. apply splitter_gone; [done|done|lia|done].
           ++ cbn. lia.
  - apply step_waits.
  - assert (r = []) as -> by by apply Hr. clear Hr. rewrite app_nil_r in *. apply step_goes.
    specialize (Hmove (Mapping got at_eof c []) b b rb []). cbn [concat] in Hmove. rewrite app_nil_r, (insert_at _ _ _ Hrb), (insert_at _ _ _ Hb) in Hmove. apply Hmove; try done; clear Hmove.
    + cbn [todo_of app]. f_equal. rewrite pending_nil. by destruct c.
    + cbn. split_and!; try done; by right.
    + cbn. destruct c; [done|]. cbn. lia.
  - assert (c = []) as -> by by apply Hc. clear Hc. rewrite app_nil_r in *. destruct Hor as [Hor | ->]; [by destruct w|]. goes step_pipes.
    specialize (Hmove (Mapping got at_eof [] []) b b rb [w]). cbn [concat] in Hmove. rewrite app_nil_r, (list_insert_id (<[mc := rb ++ w]> (pipes s))) in Hmove by (rewrite list_lookup_insert_ne by lia; done). apply Hmove; try done; clear Hmove.
    + cbn [todo_of]. rewrite !pending_nil. by destruct w.
    + cbn. rewrite (insert_at _ _ _ Hb). split_and!; try done; by left.
    + cbn. destruct w; [done|]. cbn. lia.
Qed.

(** When the mappers have ended, the reducer gets all they wrote. *)
Lemma all_written procs pipes writes dones : interleaving dones writes -> length dones = mc ->
  (forall i d, dones !! i = Some d -> d ++ todo procs pipes i = mapper_process (data j) (Z.of_nat mc) (func j) i) ->
  (forall i, (i < mc)%nat -> gone procs (mc + i)) -> reducer_input (data j) mc (func j) (concat writes).
Proof.
  intros Hint Hlen Hd Hg. exists writes. split; [|done].
  assert (map (mapper_process (data j) (Z.of_nat mc) (func j)) (seq 0 mc) = dones) as ->; [|done].
  apply list_eq. intros i. rewrite list_lookup_fmap. destruct (decide (i < mc)%nat) as [Hi|Hi].
  - destruct (lookup_lt_is_Some_2 dones i) as [d Hdi]; [lia|]. rewrite lookup_seq_lt, Hdi by done. cbn [fmap option_fmap option_map Nat.add]. f_equal.
    rewrite <- (Hd i d Hdi). unfold todo, mapper_at. rewrite (Hg i Hi). cbn. by rewrite app_nil_r.
  - rewrite lookup_seq_ge by lia. symmetry. apply lookup_ge_None_2. lia.
Qed.

Lemma flow_input procs pipes file t got : flow procs pipes file -> procs !! (mc + mc)%nat = Some (Process t (Reducing got)) -> pipe_at pipes mc = [] ->
  (forall i, (i < mc)%nat -> gone procs (mc + i)) -> reducer_input (data j) mc (func j) got.
Proof.
  intros (writes & dones & Hint & Hlen & Hd & Hr) Hp Hpipe Hg. rewrite Hp, Hpipe, app_nil_r in Hr. destruct Hr as [-> _]. by apply (all_written procs pipes writes dones).
Qed.

Lemma reducer_step s k t got : job_ok -> ends_ok s -> good (procs s) (pipes s) (file s) -> procs s !! (mc + mc)%nat = Some (Process t (Reducing got)) ->
  step_ok s (proc_step j (mc + mc) k s).
Proof.
  intros Hj [Hlen Hread] Hgood Hp. unfold proc_step. rewrite Hp. cbn [deref obind table prog]. pose proof (lookup_lt_Some _ _ _ Hp) as Hlp.
  destruct (lookup_lt_is_Some_2 (pipes s) mc) as [b Hb]; [lia|]. pose proof (k_reducer _ _ (proj1 Hgood) _ Hp) as (Ht0 & Ht1 & _). cbn [table] in *.
  destruct (read_step_cases k t s mc b Ht0 Hb) as [|bs b' -> Hbs| -> Hend]; [apply step_waits| |].
  - goes step_pipes. by apply reducer_reads.
  - assert (Hall : forall i, (i < mc)%nat -> gone (procs s) (mc + i)) by (intros i Hi; apply mapper_gone; [done|done|lia|done]).
    assert (Hpipe : pipe_at (pipes s) mc = []) by (unfold pipe_at; by rewrite Hb).
    destruct (jb_reduce Hj got (flow_input _ _ _ _ _ (proj2 Hgood) Hp Hpipe Hall)) as [output Ho]. rewrite Ho, Ht1. cbn [obind]. goes step_file. by apply (reducer_exits _ _ _ t got).
Qed.

Lemma child_step s id k : job_ok -> ends_ok s -> good (procs s) (pipes s) (file s) -> (id < length (procs s) <= S (mc + mc))%nat -> step_ok s (proc_step j id k s).
Proof.
  intros Hj He Hgood [Hid Hmax]. apply lookup_lt_is_Some_2 in Hid as [[t x] Hp]. assert (Hx : (exists st, x = Exited st) -> step_ok s (proc_step j id k s)).
  { intros [st ->]. unfold proc_step. rewrite Hp. cbn. apply step_waits. }
  pose proof (lookup_lt_Some _ _ _ Hp) as Hlp. destruct (decide (id < mc)%nat) as [H1|H1].
  - pose proof (k_splitter _ _ (proj1 Hgood) id _ H1 Hp) as Hok. destruct x; [by apply (splitter_step s id k t call rest)|by injection Hok|by injection Hok|apply Hx; by eexists].
  - destruct (decide (id < mc + mc)%nat) as [H2|H2].
    + replace id with (mc + (id - mc))%nat in * by lia. pose proof (k_mapper _ _ (proj1 Hgood) (id - mc) _ ltac:(lia) Hp) as Hok.
      destruct x; [by destruct Hok|eapply mapper_step; [done..|lia|done]|by destruct Hok|apply Hx; by eexists].
    + assert (id = mc + mc)%nat as -> by lia. pose proof (k_reducer _ _ (proj1 Hgood) _ Hp) as Hok.
      destruct x; [by injection Hok|by injection Hok|by apply (reducer_step s k t got)|apply Hx; by eexists].
Qed.

(** *** [main] *)

Definition n_pipes (x : main_pc) : nat := match x with M_pipe i => i | M_pipe_red => mc | _ => S mc end.

Definition n_closed (x : main_pc) : nat :=
  match x with M_pipe _ | M_pipe_red | M_open | M_fork_splitter _ => 0 | M_close i => i | M_fork_mapper i => S i | M_close_red => mc | _ => S mc end.

Definition has_out (x : main_pc) : bool := match x with M_pipe _ | M_pipe_red | M_open => false | _ => true end.

Definition n_split (x : main_pc) : nat := match x with M_pipe _ | M_pipe_red | M_open => 0 | M_fork_splitter i => i | _ => mc end.

Definition n_map (x : main_pc) : nat :=
  match x with M_pipe _ | M_pipe_red | M_open | M_fork_splitter _ => 0 | M_close i | M_fork_mapper i => i | _ => mc end.

Definition n_red (x : main_pc) : nat :=
  match x with M_wait_splitter _ | M_wait_mapper _ | M_wait_reducer | M_report _ | M_exited _ => 1 | _ => 0 end.

Definition pc_ok (x : main_pc) : Prop :=
  match x with
  | M_pipe i | M_fork_splitter i | M_close i | M_wait_splitter i | M_wait_mapper i => (i <= mc)%nat
  | M_fork_mapper i => (i < mc)%nat
  | M_report status | M_exited status => status = 0
  | _ => True
  end.

(** The steps of [main] that are left. *)
Definition rank (x : main_pc) : nat :=
  match x with
  | M_pipe i => 11 + 5 * mc + (mc - i)
  | M_pipe_red => 10 + 5 * mc
  | M_open => 9 + 5 * mc
  | M_fork_splitter i => 8 + 4 * mc + (mc - i)
  | M_close i => 7 + 2 * mc + 2 * (mc - i)
  | M_fork_mapper i => 6 + 2 * mc + 2 * (mc - i)
  | M_close_red => 6 + 2 * mc
  | M_fork_reducer => 5 + 2 * mc
  | M_wait_splitter i => 4 + mc + (mc - i)
  | M_wait_mapper i => 3 + (mc - i)
  | M_wait_reducer => 2
  | M_report _ => 1
  | M_exited _ => 0
  end.

Definition report (file : list Z) : list Z :=
  bytes_of_string "output pairs in " ++ out_file j ++ bytes_of_string ": " ++ decimal (Z.of_nat (length (filter (eq 10) file))) ++ [10].

Record main_ok (s : sys) : Prop := MainOk {
  m_pc : pc_ok (pc s);
  m_table : (forall st, pc s <> M_exited st) -> table_ok (fds s) (n_pipes (pc s)) (n_closed (pc s)) (has_out (pc s));
  m_mp : mp s = map (fun i => (3 + 2 * Z.of_nat i, 4 + 2 * Z.of_nat i)) (seq 0 (Nat.min (n_pipes (pc s)) mc));
  m_red : n_pipes (pc s) = S mc -> red s = (3 + 2 * Z.of_nat mc, 4 + 2 * Z.of_nat mc);
  m_writer : has_out (pc s) = true -> writer s = 3 + 2 * Z.of_nat (S mc);
  m_splitters : splitter_procs s = seq 0 (n_split (pc s));
  m_mappers : mapper_procs s = seq mc (n_map (pc s));
  m_reducer : n_red (pc s) = 1%nat -> red_proc s = (mc + mc)%nat;
  m_procs : length (procs s) = (n_split (pc s) + n_map (pc s) + n_red (pc s))%nat;
  m_pipes : length (pipes s) = n_pipes (pc s);
  m_done : match pc s with M_report _ | M_exited _ => gone (procs s) (mc + mc) | _ => True end;
  m_out : out s = match pc s with M_exited _ => report (file s) | _ => [] end;
}.

Definition sys_ok (s : sys) : Prop := main_ok s /\ good (procs s) (pipes s) (file s).

Definition steps_left (s : sys) : nat := rank (pc s) + kids_work (procs s) (pipes s).

(** A pipe that nothing has been written to yet. *)
Lemma pipe_at_snoc pipes i : pipe_at (pipes ++ [[]]) i = pipe_at pipes i.
Proof.
  unfold pipe_at. destruct (decide (i < length pipes)%nat); [by rewrite lookup_app_l|]. rewrite lookup_app_r, (lookup_ge_None_2 pipes) by lia.
  by destruct (i - length pipes)%nat as [|[]].
Qed.

Lemma good_ext procs pipes pipes' file : (forall i, pipe_at pipes' i = pipe_at pipes i) -> good procs pipes file -> good procs pipes' file /\ kids_work procs pipes' = kids_work procs pipes.
Proof.
  intros He [[Ks Km Kr] Hflow]. split; [split; [split|]|].
  - done.
  - intros i p Hi Hp. specialize (Km i p Hi Hp). revert Km. unfold mapper_ok. by rewrite He.
  - done.
  - apply (flow_keeps procs procs pipes); [|done|apply He|done|done]. intros i Hi. unfold todo. by rewrite He.
  - unfold kids_work. rewrite He. f_equal. f_equal. apply sum_with_ext. intros i _. by apply work_other.
Qed.

(** A process that has just been started. *)
Definition newborn (id : nat) (p : process) : Prop :=
  ((id < mc)%nat -> prog p = Splitting [] (chunk id) /\ table p !! 1 = Some (WriteEnd id))
  /\ (forall i, (i < mc)%nat -> id = (mc + i)%nat -> prog p = Mapping [] false [] [] /\ mapper_fds i (table p))
  /\ (id = (mc + mc)%nat -> prog p = Reducing [] /\ table p !! 0 = Some (ReadEnd mc) /\ table p !! 1 = Some OutFile /\ (forall q, holds (WriteEnd q) (table p) = false)).

Lemma good_fork procs pipes file p : good procs pipes file -> newborn (length procs) p ->
  good (procs ++ [p]) pipes file /\ kids_work (procs ++ [p]) pipes = kids_work procs pipes.
Proof.
  intros [[Ks Km Kr] Hflow] (Ns & Nm & Nr).
  assert (Hold : forall k q, procs !! k = Some q -> (procs ++ [p]) !! k = Some q) by (intros k q Hk; by apply lookup_app_l_Some).
  assert (Hnew : forall k q, (procs ++ [p]) !! k = Some q -> procs !! k = Some q \/ (procs !! k = None /\ k = length procs /\ q = p)).
  { intros k q Hk. apply lookup_app_Some in Hk as [Hk|[Hl Hk]]; [by left|right]. apply list_lookup_singleton_Some in Hk as [? <-]. split; [by apply lookup_ge_None_2|]. split; [lia|done]. }
  assert (Hend : (procs ++ [p]) !! length procs = Some p) by (rewrite lookup_app_r, Nat.sub_diag by lia; done).
  assert (Hnone : procs !! length procs = None) by (by apply lookup_ge_None_2).
  assert (Hpast : forall k, k <> length procs -> (procs ++ [p]) !! k = procs !! k).
  { intros k Hk. destruct (decide (k < length procs)%nat); [by rewrite lookup_app_l|]. rewrite !lookup_ge_None_2; [done|lia|rewrite length_app; cbn; lia]. }
  assert (Hl : forall i, (i < mc)%nat -> left_at (procs ++ [p]) i = left_at procs i /\ splitter_work (procs ++ [p]) i = splitter_work procs i).
  { intros i Hi. unfold left_at, splitter_work. destruct (decide (i = length procs)) as [->|Hne]; [|by rewrite Hpast]. rewrite Hend, Hnone. destruct (Ns Hi) as [Hx _]. destruct p. cbn in Hx. subst. cbn. split; [done|lia]. }
  assert (Hm : forall i, (i < mc)%nat -> mapper_at (procs ++ [p]) i = mapper_at procs i).
  { intros i Hi. unfold mapper_at. destruct (decide (mc + i = length procs)%nat) as [He|Hne]; [|by rewrite Hpast]. rewrite He, Hend, Hnone. by destruct (Nm i Hi (eq_sym He)). }
  split; [split; [split|]|].
  - intros i q Hi Hq. destruct (Hnew i q Hq) as [Hq'|(_ & -> & ->)]; [by apply (Ks i)|]. destruct (Ns Hi) as [Hx Ht]. unfold splitter_ok. by rewrite Hx.
  - intros i q Hi Hq. destruct (Hnew _ q Hq) as [Hq'|(_ & He & ->)].
    + specialize (Km i q Hi Hq'). revert Km. unfold mapper_ok, gone. destruct (prog q); try (intros (? & ? & ?); split; [done|split; [by apply Hold|done]]).
      intros (? & ? & ? & ? & He). split_and!; try done; intros Hat; destruct (He Hat); split; [by apply Hold|done].
    + destruct (Nm i Hi (eq_sym He)) as [Hx Ht]. unfold mapper_ok. rewrite Hx. split_and!; try done; [by left|cbn; lia|cbn; lia].
  - intros q Hq. destruct (Hnew _ q Hq) as [Hq'|(_ & He & ->)]; [by apply Kr|]. destruct (Nr (eq_sym He)) as (Hx & ? & ? & ?). unfold reducer_ok. by rewrite Hx.
  - destruct Hflow as (writes & dones & Hint & Hlen & Hd & Hr). exists writes, dones. split; [done|]. split; [done|]. split.
    + intros i d Hi. rewrite <- (Hd i d Hi). apply lookup_lt_Some in Hi. unfold todo. destruct (Hl i) as [-> _]; [lia|]. by rewrite Hm by lia.
    + destruct (decide (mc + mc = length procs)%nat) as [He|Hne].
      * rewrite He, Hend. rewrite He, Hnone in Hr. destruct (Nr (eq_sym He)) as (Hx & _). destruct p. cbn in Hx. subst. done.
      * rewrite Hpast by done. destruct (procs !! (mc + mc)%nat) as [[tr [| |got|]]|]; [| |done| |done]; (destruct Hr as (? & Hall & ?); split_and!; [done| |done]); intros i Hi; by apply Hold, Hall.
  - unfold kids_work. f_equal; [f_equal|].
    + apply sum_with_ext. intros i Hi%elem_of_seq. apply work_other; [by apply Hl; lia|done|apply Hm; lia|by apply Hl; lia].
    + unfold reducer_work. destruct (decide (mc + mc = length procs)%nat) as [He|Hne]; [|by rewrite Hpast]. rewrite He, Hend, Hnone. destruct (Nr (eq_sym He)) as (Hx & _). destruct p. cbn in Hx. by subst.
Qed.

#[local] Arguments Nat.min : simpl never.
#[local] Arguments chunk : simpl never.
#[local] Arguments seq : simpl never.
#[local] Arguments write_portion : simpl never.

Definition main_goes (s : sys) (o : outcome (option sys)) : Prop := exists r, o = Done r /\ forall s', r = Some s' -> sys_ok s' /\ (steps_left s' < steps_left s)%nat.

Lemma main_moves s s' : sys_ok s' -> (steps_left s' < steps_left s)%nat -> main_goes s (Done (Some s')).
Proof. intros H1 H2. eexists. split; [done|]. by intros ? [= <-]. Qed.

Lemma main_waits s : main_goes s (Done None).
Proof. by exists None. Qed.

Lemma pipe_ok s m : table_ok (fds s) m 0 false -> length (pipes s) = m -> (4 + 2 * m < OPEN_MAX j)%nat ->
  pipe j s = Done (3 + 2 * Z.of_nat m, 4 + 2 * Z.of_nat m, set_pipes (pipes s ++ [[]]) (set_fds (<[4 + 2 * Z.of_nat m := WriteEnd m]> (<[3 + 2 * Z.of_nat m := ReadEnd m]> (fds s))) s)).
Proof. intros Ht <- Hm. unfold pipe. rewrite (table_free (fds s) _ false) by first [done|lia]. cbn [deref obind]. by rewrite table_free' by done. Qed.

Lemma mp_at m i : (i < m)%nat -> map (fun i => (3 + 2 * Z.of_nat i, 4 + 2 * Z.of_nat i)) (seq 0 m) !! i = Some (3 + 2 * Z.of_nat i, 4 + 2 * Z.of_nat i).
Proof. intros Hi. by rewrite list_lookup_fmap, lookup_seq_lt. Qed.

Lemma seq_snoc a n : seq a (S n) = seq a n ++ [(a + n)%nat].
Proof. by rewrite <- Nat.add_1_r, seq_app. Qed.

Lemma step_pipe s i : job_ok -> sys_ok s -> pc s = M_pipe i -> main_goes s (main_step j s).
Proof.
  intros Hj [[Hpc Ht Hmp Hred Hw Hs Hm Hr Hl Hp Hd Ho] Hgood] Hx. unfold main_step. destruct s as [x t ps r w ss ms rp procs pipes f o]. cbn in *. subst x. cbn in *. specialize (Ht ltac:(done)).
  destruct (decide (i < mc)%nat) as [Hi|Hi].
  - pose proof (jb_max Hj). rewrite (pipe_ok _ i) by first [done|cbn; lia]. cbn [obind]. apply main_moves.
    + destruct (good_ext procs pipes (pipes ++ [[]]) f (pipe_at_snoc pipes) Hgood) as [Hg _]. split; [|done]. split; cbn; try done; try lia.
      * intros _. by apply table_pipe.
      * rewrite Nat.min_l in * by lia. by rewrite Hmp, seq_snoc, map_app.
      * rewrite length_app. cbn. lia.
    + unfold steps_left. cbn. destruct (good_ext procs pipes (pipes ++ [[]]) f (pipe_at_snoc pipes) Hgood) as [_ ->]. lia.
  - assert (i = mc) as -> by lia. apply main_moves; [|unfold steps_left; cbn; lia]. split; [|done]. split; cbn; try done; lia.
Qed.

Lemma step_pipe_red s : job_ok -> sys_ok s -> pc s = M_pipe_red -> main_goes s (main_step j s).
Proof.
  intros Hj [[Hpc Ht Hmp Hred Hw Hs Hm Hr Hl Hp Hd Ho] Hgood] Hx. unfold main_step. destruct s as [x t ps r w ss ms rp procs pipes f o]. cbn in *. subst x. cbn in *. specialize (Ht ltac:(done)).
  pose proof (jb_max Hj). rewrite (pipe_ok _ mc) by first [done|cbn; lia]. cbn [obind].
  destruct (good_ext procs pipes (pipes ++ [[]]) f (pipe_at_snoc pipes) Hgood) as [Hg Hk]. apply main_moves; [|unfold steps_left; cbn; rewrite Hk; lia].
  split; [|done]. split; cbn; try done.
  - intros _. by apply table_pipe.
  - by rewrite Hmp, !Nat.min_r by lia.
  - rewrite length_app. cbn. lia.
Qed.

Lemma step_open s : job_ok -> sys_ok s -> pc s = M_open -> main_goes s (main_step j s).
Proof.
  intros Hj [[Hpc Ht Hmp Hred Hw Hs Hm Hr Hl Hp Hd Ho] Hgood] Hx. unfold main_step. destruct s as [x t ps r w ss ms rp procs pipes f o]. cbn in *. subst x. cbn in *. specialize (Ht ltac:(done)).
  pose proof (jb_max Hj). rewrite (table_free t (S mc) false) by first [done|lia]. cbn [deref obind].
  assert (f = []) as ->. { destruct Hgood as [_ (? & ? & _ & _ & _ & Hf)]. rewrite lookup_ge_None_2 in Hf by lia. by destruct Hf. }
  apply main_moves; [|unfold steps_left; cbn; lia]. split; [|done]. split; cbn; try done; try lia. intros _. by apply table_open.
Qed.

Lemma step_fork_splitter s i : job_ok -> sys_ok s -> pc s = M_fork_splitter i -> main_goes s (main_step j s).
Proof.
  intros Hj [[Hpc Ht Hmp Hred Hw Hs Hm Hr Hl Hp Hd Ho] Hgood] Hx. unfold main_step. destruct s as [x t ps r w ss ms rp procs pipes f o]. cbn in *. subst x. cbn in *. specialize (Ht ltac:(done)).
  destruct (decide (i < mc)%nat) as [Hi|Hi].
  - rewrite Hmp, Nat.min_r, mp_at by lia. cbn [deref obind]. unfold fork, child. rewrite (jb_fork Hj). destruct (jb_runs Hj) as (-> & _ & _). cbn [Pipeline.procs]. fold (chunk i).
    set (t' := dup2 _ 1 _). destruct (good_fork procs pipes f (Process t' (Splitting [] (chunk i))) Hgood) as [Hg Hk].
    { split_and!; [|intros k Hk; lia|lia]. intros _. replace (length procs) with i by lia. split; [done|]. cbn [table]. unfold t', dup2, close. rewrite lookup_delete_ne by lia.
      rewrite (table_write _ _ _ _ i Ht) by lia. by rewrite lookup_insert_eq. }
    apply main_moves; [|unfold steps_left; cbn; rewrite Hk; lia]. split; [|done]. split; cbn; try done; try lia.
    + by rewrite Nat.min_r by lia.
    + by rewrite Hs, seq_snoc, Hl, !Nat.add_0_r.
    + rewrite length_app. cbn. lia.
  - assert (i = mc) as -> by lia. apply main_moves; [|unfold steps_left; cbn; lia]. split; [|done]. split; cbn; try done; lia.
Qed.

Lemma step_close s i : sys_ok s -> pc s = M_close i -> main_goes s (main_step j s).
Proof.
  intros [[Hpc Ht Hmp Hred Hw Hs Hm Hr Hl Hp Hd Ho] Hgood] Hx. unfold main_step. destruct s as [x t ps r w ss ms rp procs pipes f o]. cbn in *. subst x. cbn in *. specialize (Ht ltac:(done)).
  destruct (decide (i < mc)%nat) as [Hi|Hi].
  - rewrite Hmp, Nat.min_r, mp_at by lia. cbn [deref obind]. apply main_moves; [|unfold steps_left; cbn; lia]. split; [|done]. split; cbn; try done; try lia.
    + intros _. by apply table_close.
    + by rewrite Nat.min_r by lia.
  - assert (i = mc) as -> by lia. apply main_moves; [|unfold steps_left; cbn; lia]. split; [|done]. split; cbn; try done; lia.
Qed.

Lemma step_fork_mapper s i : job_ok -> sys_ok s -> pc s = M_fork_mapper i -> main_goes s (main_step j s).
Proof.
  intros Hj [[Hpc Ht Hmp Hred Hw Hs Hm Hr Hl Hp Hd Ho] Hgood] Hx. unfold main_step. destruct s as [x t ps r w ss ms rp procs pipes f o]. cbn in *. subst x. cbn in *. specialize (Ht ltac:(done)).
  rewrite Hmp, Nat.min_r, mp_at by lia. cbn [deref obind]. unfold fork, child. rewrite (jb_fork Hj). destruct (jb_runs Hj) as (_ & -> & _). rewrite (Hred eq_refl). cbn [Pipeline.procs fst snd].
  set (t' := dup2 _ 1 _). destruct (good_fork procs pipes f (Process t' (Mapping [] false [] [])) Hgood) as [Hg Hk].
  { split_and!; [lia| |lia]. intros k Hk He. assert (k = i) as -> by lia. split; [done|]. cbn [table]. unfold t', dup2, close.
    rewrite lookup_delete_ne by lia. rewrite (table_read _ _ _ _ i Ht) by lia. rewrite lookup_insert_ne, lookup_delete_ne by lia. rewrite (table_write _ _ _ _ mc Ht) by lia. split_and!.
    - rewrite lookup_insert_ne by lia. by rewrite lookup_insert_eq.
    - by rewrite lookup_insert_eq.
    - intros q Hq. apply holds_insert in Hq as [[= ->]|Hq]; [done|]. apply holds_insert in Hq as [[=]|Hq]. apply holds_delete in Hq.
      destruct (decide (q < S i)%nat) as [Hlt|]; [|lia]. by rewrite (table_no_write _ _ _ _ q Ht Hlt) in Hq. }
  apply main_moves; [|unfold steps_left; cbn; rewrite Hk; lia]. split; [|done]. split; cbn; try done; try lia.
  - by rewrite Nat.min_r by lia.
  - by rewrite Hm, seq_snoc, Hl, !Nat.add_0_r.
  - rewrite length_app. cbn. lia.
Qed.

Lemma step_close_red s : sys_ok s -> pc s = M_close_red -> main_goes s (main_step j s).
Proof.
  intros [[Hpc Ht Hmp Hred Hw Hs Hm Hr Hl Hp Hd Ho] Hgood] Hx. unfold main_step. destruct s as [x t ps r w ss ms rp procs pipes f o]. cbn in *. subst x. cbn in *. specialize (Ht ltac:(done)).
  rewrite (Hred eq_refl). apply main_moves; [|unfold steps_left; cbn; lia]. split; [|done]. split; cbn; try done; try lia. intros _. by apply table_close.
Qed.

Lemma step_fork_reducer s : job_ok -> sys_ok s -> pc s = M_fork_reducer -> main_goes s (main_step j s).
Proof.
  intros Hj [[Hpc Ht Hmp Hred Hw Hs Hm Hr Hl Hp Hd Ho] Hgood] Hx. unfold main_step. destruct s as [x t ps r w ss ms rp procs pipes f o]. cbn in *. subst x. cbn in *. specialize (Ht ltac:(done)).
  unfold fork, child. rewrite (jb_fork Hj). destruct (jb_runs Hj) as (_ & _ & ->). rewrite (Hred eq_refl), (Hw eq_refl). cbn [Pipeline.procs fst snd].
  set (t' := dup2 _ 1 _). destruct (good_fork procs pipes f (Process t' (Reducing [])) Hgood) as [Hg Hk].
  { split_and!; [lia|intros k Hk ?; lia|]. intros _. split; [done|]. cbn [table]. unfold t', dup2. rewrite (table_read _ _ _ _ mc Ht) by lia. rewrite lookup_insert_ne by lia.
    rewrite (table_out _ _ _ Ht). split_and!.
    - rewrite lookup_insert_ne by lia. by rewrite lookup_insert_eq.
    - by rewrite lookup_insert_eq.
    - intros q. destruct (holds (WriteEnd q) _) eqn:Hq; [|done]. apply holds_insert in Hq as [[=]|Hq]. apply holds_insert in Hq as [[=]|Hq].
      destruct (decide (q < S mc)%nat) as [Hlt|Hge]; [by rewrite (table_no_write _ _ _ _ q Ht Hlt) in Hq|].
      apply bool_decide_eq_true in Hq as (d & y & Hy & ->). apply Ht in Hy as [[_ ?]|[(k & _ & _ & ?)|[(k & ? & _ & [= ->])|(_ & _ & ?)]]]; [done|done|lia|done]. }
  apply main_moves; [|unfold steps_left; cbn; rewrite Hk; lia]. split; [|done]. split; cbn; try done; try lia.
  rewrite length_app. cbn. lia.
Qed.

Lemma step_wait_splitter s i : sys_ok s -> pc s = M_wait_splitter i -> main_goes s (main_step j s).
Proof.
  intros [[Hpc Ht Hmp Hred Hw Hs Hm Hr Hl Hp Hd Ho] Hgood] Hx. unfold main_step. destruct s as [x t ps r w ss ms rp procs pipes f o]. cbn in *. subst x. cbn in *. specialize (Ht ltac:(done)).
  destruct (decide (i < mc)%nat) as [Hi|Hi].
  - rewrite Hs, lookup_seq_lt by done. cbn [deref obind]. destruct (exit_status _ _); [|apply main_waits].
    apply main_moves; [|unfold steps_left; cbn; lia]. split; [|done]. split; cbn; try done; lia.
  - assert (i = mc) as -> by lia. apply main_moves; [|unfold steps_left; cbn; lia]. split; [|done]. split; cbn; try done; lia.
Qed.

Lemma step_wait_mapper s i : sys_ok s -> pc s = M_wait_mapper i -> main_goes s (main_step j s).
Proof.
  intros [[Hpc Ht Hmp Hred Hw Hs Hm Hr Hl Hp Hd Ho] Hgood] Hx. unfold main_step. destruct s as [x t ps r w ss ms rp procs pipes f o]. cbn in *. subst x. cbn in *. specialize (Ht ltac:(done)).
  destruct (decide (i < mc)%nat) as [Hi|Hi].
  - rewrite Hm, lookup_seq_lt by done. cbn [deref obind]. destruct (exit_status _ _); [|apply main_waits].
    apply main_moves; [|unfold steps_left; cbn; lia]. split; [|done]. split; cbn; try done; lia.
  - assert (i = mc) as -> by lia. apply main_moves; [|unfold steps_left; cbn; lia]. split; [|done]. split; cbn; try done; lia.
Qed.

Lemma exit_status_some id s status : exit_status id s = Some status -> exists t, procs s !! id = Some (Process t (Exited status)).
Proof. unfold exit_status. destruct (procs s !! id) as [[t []]|]; try done. intros [= ->]. by exists t. Qed.

Lemma step_wait_reducer s : sys_ok s -> pc s = M_wait_reducer -> main_goes s (main_step j s).
Proof.
  intros [[Hpc Ht Hmp Hred Hw Hs Hm Hr Hl Hp Hd Ho] Hgood] Hx. unfold main_step. rewrite Hx in *. cbn in *. rewrite (Hr eq_refl). destruct (exit_status _ _) as [status|] eqn:He; [|apply main_waits].
  apply exit_status_some in He as [tr He]. pose proof (k_reducer _ _ (proj1 Hgood) _ He) as Hok. cbn in Hok. injection Hok as -> ->.
  destruct s as [x t ps r w ss ms rp procs pipes f o]. cbn in *. subst x. specialize (Ht ltac:(done)).
  apply main_moves; [|unfold steps_left; cbn; lia]. split; [|done]. by split.
Qed.

Lemma step_report s status : sys_ok s -> pc s = M_report status -> main_goes s (main_step j s).
Proof.
  intros [[Hpc Ht Hmp Hred Hw Hs Hm Hr Hl Hp Hd Ho] Hgood] Hx. unfold main_step. destruct s as [x t ps r w ss ms rp procs pipes f o]. cbn in *. subst x. cbn in *. subst status o.
  rewrite Z.eqb_refl. apply main_moves; [|unfold steps_left; cbn; lia]. split; [|done]. split; cbn; try done. intros H. by destruct (H 0).
Qed.

Lemma main_step_ok s : job_ok -> sys_ok s -> main_goes s (main_step j s).
Proof.
  intros Hj Hs. destruct (pc s) eqn:Hx.
  - by apply (step_pipe s i).
  - by apply step_pipe_red.
  - by apply step_open.
  - by apply (step_fork_splitter s i).
  - by apply (step_close s i).
  - by apply (step_fork_mapper s i).
  - by apply step_close_red.
  - by apply step_fork_reducer.
  - by apply (step_wait_splitter s i).
  - by apply (step_wait_mapper s i).
  - by apply step_wait_reducer.
  - by apply (step_report s status).
  - unfold main_step. rewrite Hx. apply main_waits.
Qed.

(** *** The whole system *)

Lemma all_gone s : sys_ok s -> gone (procs s) (mc + mc) -> length (procs s) = S (mc + mc) /\ forall id, (id < length (procs s))%nat -> gone (procs s) id.
Proof.
  intros [Hm [[Ks Km Kr] Hflow]] Hg. pose proof (lookup_lt_Some _ _ _ Hg) as Hlt.
  assert (Hlen : length (procs s) = S (mc + mc)).
  { pose proof (m_pc _ Hm) as Hpc. rewrite (m_procs _ Hm) in Hlt |- *. destruct (pc s); cbn in *; lia. }
  split; [done|]. intros id Hid. destruct Hflow as (writes & dones & _ & _ & _ & Hr). rewrite Hg in Hr. destruct Hr as (_ & Hall & _).
  destruct (decide (id < mc)%nat) as [H1|H1]; [|destruct (decide (id < mc + mc)%nat) as [H2|H2]].
  - destruct (Km id (Process ∅ (Exited 0)) H1 (Hall id H1)) as (_ & ? & _). done.
  - replace id with (mc + (id - mc))%nat by lia. apply Hall. lia.
  - by replace id with (mc + mc)%nat by lia.
Qed.

Lemma gone_waits s id k : gone (procs s) id -> proc_step j id k s = Done None.
Proof. intros H. unfold proc_step. by rewrite H. Qed.

Lemma table_now s : main_ok s -> (forall st, pc s <> M_exited st) -> (0 < length (procs s))%nat -> length (pipes s) = S mc /\ exists c, table_ok (fds s) (S mc) c true.
Proof.
  intros Hm Hx Hl. pose proof (m_table _ Hm Hx) as Ht. rewrite (m_procs _ Hm) in Hl. rewrite (m_pipes _ Hm). destruct (pc s); cbn in *; try lia; (split; [done|]); by eexists.
Qed.

Lemma ends_now s : main_ok s -> (forall st, pc s <> M_exited st) -> (0 < length (procs s))%nat -> ends_ok s.
Proof.
  intros Hm Hx Hl. destruct (table_now s Hm Hx Hl) as (Hp & c & Ht). split; [done|]. intros p Hp'. unfold open_end.
  rewrite (holds_at (3 + 2 * Z.of_nat p) (ReadEnd p)); [done|]. apply (table_read _ _ _ _ p Ht). lia.
Qed.

Lemma sys_step_ok s a k : job_ok -> sys_ok s -> main_goes s (sys_step j a k s).
Proof.
  intros Hj Hs. destruct a as [|id]; [by apply main_step_ok|]. cbn [sys_step]. case_decide as Hid; [|apply main_waits]. pose proof Hs as [Hm Hgood].
  assert (Hdone : (exists st, pc s = M_report st \/ pc s = M_exited st) \/ (forall st, pc s <> M_report st /\ pc s <> M_exited st)) by (destruct (pc s); first [by left; eexists; auto | by right]).
  destruct Hdone as [[st Hst]|Hno].
  - destruct (all_gone s Hs) as [_ Hall]; [pose proof (m_done _ Hm) as Hd; by destruct Hst as [Hst|Hst]; rewrite Hst in Hd|]. rewrite gone_waits by by apply Hall. apply main_waits.
  - assert (Hmax : (length (procs s) <= S (mc + mc))%nat) by (pose proof (m_pc _ Hm) as Hpc; rewrite (m_procs _ Hm); destruct (pc s); cbn in *; lia).
    destruct (child_step s id k Hj) as (r & Hr & Hbetter); [apply ends_now; [done|apply Hno|lia]|done|lia|]. rewrite Hr. exists r. split; [done|]. intros s' ->.
    destruct (Hbetter s' eq_refl) as (procs' & pipes' & file' & -> & Hlp & Hlq & [Hg' Hless]). split.
    + split; [|done]. destruct Hm as [Hpc Ht Hmp Hred Hw Hss Hms Hrp Hl Hp Hd Ho]. split; cbn; try done; try congruence.
      * destruct (pc s) eqn:E; try done; by destruct (Hno status).
      * rewrite Ho. destruct (pc s) eqn:E; try done. by destruct (Hno status).
    + unfold steps_left. cbn. lia.
Qed.

(** *** Nobody waits for ever *)

Definition waiting (x : main_pc) : bool := match x with M_wait_splitter _ | M_wait_mapper _ | M_wait_reducer => true | _ => false end.

Lemma main_none s : main_step j s = Done None ->
  waiting (pc s) = true \/ exists st, pc s = M_exited st.
Proof.
  unfold main_step. destruct (pc s) eqn:Hx; intros Hn; try (by eauto); exfalso; revert Hn; repeat case_decide; unfold exit_main, fork;
    intros Hn; repeat (apply obind_Done in Hn as (? & _ & Hn)); repeat case_match; simplify_eq.
Qed.

(** An empty pipe takes something. *)
Lemma write_free t call rest s p : job_ok -> t !! 1 = Some (WriteEnd p) -> open_end (ReadEnd p) s = true -> pipes s !! p = Some [] -> write_step j 1 t call rest s <> Blocked.
Proof.
  intros Hj Ht Ho Hb. pose proof (jb_buf Hj). unfold write_step. rewrite Ht, Ho, Hb. cbn [negb length]. cbv zeta. destruct call as [|c call]; [destruct rest as [|x rest]; [done|]|]; repeat case_decide; try done; cbn [length] in *; lia.
Qed.

Section Stuck.

Context (s : sys) (Hj : job_ok) (Hgood : good (procs s) (pipes s) (file s)) (Hends : ends_ok s).
Context (Hstuck : forall id k, (id < length (procs s))%nat -> proc_step j id k s = Done None).

Lemma pipe_some i : (i <= mc)%nat -> pipes s !! i = Some (pipe_at (pipes s) i).
Proof. intros Hi. unfold pipe_at. destruct (lookup_lt_is_Some_2 (pipes s) i) as [b Hb]; [rewrite (e_pipes _ Hends); lia|]. by rewrite Hb. Qed.

Lemma splitter_blocked i t call rest : (i < mc)%nat -> procs s !! i = Some (Process t (Splitting call rest)) -> pipe_at (pipes s) i <> [].
Proof.
  intros Hi Hp He. pose proof (pipe_some i ltac:(lia)) as Hb. rewrite He in Hb. pose proof (k_splitter _ _ (proj1 Hgood) i _ Hi Hp) as Ht. cbn in Ht.
  pose proof (write_free t call rest s i Hj Ht (e_readers _ Hends i ltac:(lia)) Hb) as Hw. specialize (Hstuck i 1%nat (lookup_lt_Some _ _ _ Hp)). unfold proc_step in Hstuck. rewrite Hp in Hstuck. cbn in Hstuck.
  by destruct (write_step j 1 t call rest s).
Qed.

Lemma mapper_blocked i t got at_eof call rest : (i < mc)%nat -> procs s !! (mc + i)%nat = Some (Process t (Mapping got at_eof call rest)) -> pipe_at (pipes s) mc = [] ->
  pipe_at (pipes s) i = [] /\ open_end (WriteEnd i) s = true.
Proof.
  intros Hi Hp He. pose proof (pipe_some mc ltac:(lia)) as Hr. rewrite He in Hr. pose proof (k_mapper _ _ (proj1 Hgood) i _ Hi Hp) as Hok. destruct Hok as ((Ht0 & Ht1 & _) & _). cbn in Ht0, Ht1.
  pose proof (write_free t call rest s mc Hj Ht1 (e_readers _ Hends mc ltac:(lia)) Hr) as Hw. specialize (Hstuck (mc + i)%nat 1%nat (lookup_lt_Some _ _ _ Hp)). unfold proc_step in Hstuck. rewrite Hp in Hstuck. cbn [deref obind prog table] in Hstuck.
  destruct (write_step j 1 t call rest s); try done. destruct (getline got at_eof) as [[]|]; [done|]. destruct at_eof; [done|]. unfold read_step in Hstuck. rewrite Ht0, (pipe_some i) in Hstuck by lia.
  destruct (pipe_at (pipes s) i) as [|c b]; [by destruct (open_end (WriteEnd i) s)|]. case_decide; [done|]. cbn [length] in *. lia.
Qed.

Lemma reducer_blocked t got : procs s !! (mc + mc)%nat = Some (Process t (Reducing got)) -> pipe_at (pipes s) mc = [] /\ open_end (WriteEnd mc) s = true.
Proof.
  intros Hp. pose proof (k_reducer _ _ (proj1 Hgood) _ Hp) as (Ht0 & Ht1 & _). cbn in Ht0, Ht1. specialize (Hstuck (mc + mc)%nat 1%nat (lookup_lt_Some _ _ _ Hp)). unfold proc_step in Hstuck. rewrite Hp in Hstuck. cbn [deref obind prog table] in Hstuck.
  unfold read_step in Hstuck. rewrite Ht0, (pipe_some mc) in Hstuck by lia. destruct (pipe_at (pipes s) mc) as [|c b].
  - destruct (open_end (WriteEnd mc) s); [done|]. rewrite Ht1 in Hstuck. by destruct (reduce j got).
  - case_decide; [done|]. cbn [length] in *. lia.
Qed.

Lemma open_end_inv x : open_end x s = true -> holds x (fds s) = true \/ exists id p, procs s !! id = Some p /\ holds x (table p) = true.
Proof.
  unfold open_end. intros [H|H]%orb_true_iff; [by left|right]. apply existsb_exists in H as (p & Hp & Hx). apply list_elem_of_In, list_elem_of_lookup_1 in Hp as [id Hp]. by exists id, p.
Qed.

Lemma gone_holds id p x : gone (procs s) id -> procs s !! id = Some p -> holds x (table p) = false.
Proof. unfold gone. intros -> [= <-]. apply bool_decide_eq_false. intros (d & y & Hy & _). cbn in Hy; by rewrite lookup_empty in Hy. Qed.

Context (Hall : length (procs s) = S (mc + mc)) (Hclosed : forall q, (q <= mc)%nat -> holds (WriteEnd q) (fds s) = false).

(** Who keeps the write end of a pipe open. *)
Lemma holder q : (q <= mc)%nat -> open_end (WriteEnd q) s = true ->
  (exists i t call rest, (i < mc)%nat /\ procs s !! i = Some (Process t (Splitting call rest)))
  \/ (exists i t got at_eof call rest, (i < mc)%nat /\ procs s !! (mc + i)%nat = Some (Process t (Mapping got at_eof call rest)) /\ (i < q)%nat).
Proof.
  intros Hq Ho. apply open_end_inv in Ho as [Ho|(id & p & Hp & Ho)]; [by rewrite Hclosed in Ho|]. pose proof (lookup_lt_Some _ _ _ Hp) as Hlt.
  assert (Hg : ~ gone (procs s) id) by (intros Hg; by rewrite (gone_holds _ _ _ Hg Hp) in Ho).
  destruct (decide (id < mc)%nat) as [H1|H1]; [|destruct (decide (id < mc + mc)%nat) as [H2|H2]].
  - left. pose proof (k_splitter _ _ (proj1 Hgood) id _ H1 Hp) as Hok. destruct p as [t []]; try (destruct Hg; unfold gone; by rewrite Hp, Hok). by eexists id, t, _, _.
  - right. replace id with (mc + (id - mc))%nat in * by lia. pose proof (k_mapper _ _ (proj1 Hgood) (id - mc) _ ltac:(lia) Hp) as Hok.
    destruct p as [t []]; try (destruct Hok as [Hok _]; destruct Hg; unfold gone; by rewrite Hp, Hok). destruct Hok as ((_ & _ & Hw) & _).
    eexists (id - mc)%nat, t, _, _, _, _. split; [lia|]. split; [done|]. by apply Hw.
  - assert (id = mc + mc)%nat as -> by lia. pose proof (k_reducer _ _ (proj1 Hgood) _ Hp) as Hok. destruct p as [t []]; try (destruct Hg; unfold gone; by rewrite Hp, Hok).
    destruct Hok as (_ & _ & Hok). by rewrite Hok in Ho.
Qed.

(** No splitter waits for a mapper, no mapper for a splitter or another mapper. *)
Lemma mappers_gone : pipe_at (pipes s) mc = [] -> forall i, (i < mc)%nat -> gone (procs s) (mc + i).
Proof.
  intros Hr i. induction i as [i IH] using lt_wf_ind. intros Hi. destruct (lookup_lt_is_Some_2 (procs s) (mc + i)) as [[t x] Hp]; [lia|].
  pose proof (k_mapper _ _ (proj1 Hgood) i _ Hi Hp) as Hok. destruct x as [|got at_eof call rest| |]; try (destruct Hok as [Hok _]; unfold gone; by rewrite Hp, Hok). exfalso.
  destruct (mapper_blocked i t got at_eof call rest Hi Hp Hr) as [_ Ho]. destruct (holder i ltac:(lia) Ho) as [(k & tk & c & r & Hk & Hpk)|(k & tk & g & e & c & r & Hk & Hpk & Hki)].
  - pose proof (splitter_blocked k tk c r Hk Hpk) as Hne. destruct (lookup_lt_is_Some_2 (procs s) (mc + k)) as [[tm y] Hpm]; [lia|].
    pose proof (k_mapper _ _ (proj1 Hgood) k _ Hk Hpm) as Hok'. destruct y as [|g' e' c' r'| |].
    + by destruct Hok' as (_ & _ & ?).
    + by destruct (mapper_blocked k tm g' e' c' r' Hk Hpm Hr).
    + by destruct Hok' as (_ & _ & ?).
    + by destruct Hok' as (_ & _ & ?).
  - specialize (IH k Hki Hk). unfold gone in IH. by rewrite Hpk in IH.
Qed.

Lemma reducer_gone : gone (procs s) (mc + mc).
Proof.
  destruct (lookup_lt_is_Some_2 (procs s) (mc + mc)) as [[t x] Hp]; [lia|]. pose proof (k_reducer _ _ (proj1 Hgood) _ Hp) as Hok.
  destruct x as [| |got|]; try (unfold gone; by rewrite Hp, Hok). exfalso. destruct (reducer_blocked t got Hp) as [Hr Ho]. pose proof (mappers_gone Hr) as Hg.
  destruct (holder mc ltac:(lia) Ho) as [(k & tk & c & r & Hk & Hpk)|(k & tk & g & e & c & r & Hk & Hpk & _)].
  - destruct (k_mapper _ _ (proj1 Hgood) k _ Hk (Hg k Hk)) as (_ & Hgk & _). unfold gone in Hgk. by rewrite Hpk in Hgk.
  - specialize (Hg k Hk). unfold gone in Hg. by rewrite Hpk in Hg.
Qed.

End Stuck.

Lemma stuck_ends s : job_ok -> sys_ok s -> stuck j s -> pc s = M_exited 0 /\ forall p, p ∈ procs s -> p = Process ∅ (Exited 0).
Proof.
  intros Hj Hs Hst. pose proof Hs as [Hm Hgood].
  assert (Hend : (exists st, pc s = M_exited st) -> pc s = M_exited 0 /\ forall p, p ∈ procs s -> p = Process ∅ (Exited 0)).
  { intros [st Hx]. pose proof (m_pc _ Hm) as Hpc. pose proof (m_done _ Hm) as Hd. rewrite Hx in Hpc, Hd. cbn in Hpc. subst st. split; [done|].
    destruct (all_gone s Hs Hd) as [_ Hall]. intros p Hp. apply list_elem_of_lookup_1 in Hp as [id Hp]. pose proof (Hall id (lookup_lt_Some _ _ _ Hp)) as Hg. unfold gone in Hg. congruence. }
  assert (Hmain : main_step j s = Done None) by apply (Hst Main 0%nat).
  destruct (main_none s Hmain) as [Hw|Hw]; [exfalso|by apply Hend].
  assert (Hx : forall st, pc s <> M_exited st) by (by intros st E; rewrite E in Hw).
  assert (Hlen : length (procs s) = S (mc + mc)) by (rewrite (m_procs _ Hm); destruct (pc s); cbn in *; done || lia).
  assert (Hkids : forall id k, (id < length (procs s))%nat -> proc_step j id k s = Done None).
  { intros id k Hid. pose proof (Hst (Child id) k) as H. cbn [sys_step] in H. by rewrite decide_True in H. }
  assert (Hclosed : forall q, (q <= mc)%nat -> holds (WriteEnd q) (fds s) = false).
  { intros q Hq. apply (table_no_write _ _ _ _ q (m_table _ Hm Hx)). destruct (pc s); cbn; done || lia. }
  pose proof (reducer_gone s Hj Hgood (ends_now s Hm Hx ltac:(lia)) Hkids Hlen Hclosed) as Hg.
  destruct (all_gone s Hs Hg) as [_ Hall]. unfold main_step in Hmain. pose proof (m_pc _ Hm) as Hpc.
  assert (Hexit : forall id, (id < S (mc + mc))%nat -> exit_status id s = Some 0) by (intros id Hid; unfold exit_status; by rewrite (Hall id) by lia).
  destruct (pc s) eqn:Epc; try done; cbn in Hpc.
  - case_decide; [|done]. rewrite (m_splitters _ Hm), Epc in Hmain. cbn [n_split] in Hmain. rewrite lookup_seq_lt in Hmain by done. cbn [deref obind] in Hmain. by rewrite Hexit in Hmain by lia.
  - case_decide; [|done]. rewrite (m_mappers _ Hm), Epc in Hmain. cbn [n_map] in Hmain. rewrite lookup_seq_lt in Hmain by done. cbn [deref obind] in Hmain. by rewrite Hexit in Hmain by lia.
  - rewrite (m_reducer _ Hm) in Hmain by (by rewrite Epc). by rewrite Hexit in Hmain by lia.
Qed.

(** *** Runs *)

(** [n] steps, each of somebody who does not have to wait. *)
Inductive steps : nat -> sys -> sys -> Prop :=
| steps_none s : steps 0 s s
| steps_more n a k s s1 s2 : sys_step j a k s = Done (Some s1) -> steps n s1 s2 -> steps (S n) s s2.

Lemma start_sys_ok : sys_ok start.
Proof.
  split; [split; cbn; try done; try lia; intros _; apply table_start|]. split; [split; cbn; intros; done|].
  exists [], (replicate mc []). split; [apply interleaving_done, Forall_replicate; done|]. split; [by rewrite length_replicate|]. split; [|done].
  intros i d [-> Hi]%lookup_replicate_1. done.
Qed.

Lemma run_steps_ok n s s' : job_ok -> sys_ok s -> steps n s s' -> sys_ok s' /\ (n + steps_left s' <= steps_left s)%nat.
Proof.
  intros Hj Hs H. induction H as [s|n a k s s1 s2 Hstep _ IH]; [split; [done|lia]|].
  destruct (sys_step_ok s a k Hj Hs) as (r & Hr & Hok). rewrite Hstep in Hr. injection Hr as <-. destruct (Hok s1 eq_refl) as [Hs1 Hless]. destruct (IH Hs1) as [Hs2 Hn]. split; [done|lia].
Qed.

Lemma final_file s : sys_ok s -> pc s = M_exited 0 -> exists input, reducer_input (data j) mc (func j) input /\ reduce j input = Done (file s) /\ out s = report (file s).
Proof.
  intros Hs Hx. pose proof Hs as [Hm Hgood]. pose proof (m_done _ Hm) as Hd. rewrite Hx in Hd. destruct Hgood as [[_ Km _] (writes & dones & Hint & Hlen & Hd' & Hr)].
  unfold gone in Hd. rewrite Hd in Hr. destruct Hr as (Hp & Hall & Hr). exists (concat writes). split; [|split; [done|by rewrite (m_out _ Hm), Hx]].
  by apply (all_written (procs s) (pipes s) writes dones).
Qed.

End Invariant.

(** ** The whole pipeline counts *)

(** What the theorem asks of the system: the children can be started, a pipe holds at
    least what it takes at once, and there are enough descriptors. *)
Record system_allows (j : job) : Prop := SystemAllows {
  sa_count : 0 < Z.of_nat (mapper_count j) < 2147483648;
  sa_buf : (1 <= PIPE_BUF j <= pipe_capacity j)%nat;
  sa_fork : forall id, fork_ok j id = true;
  sa_runs : splitter_runs j = true /\ mapper_runs j = true /\ reducer_runs j = true;
  sa_max : (2 * mapper_count j + 6 <= OPEN_MAX j)%nat;
}.

(** [reducers/sum.c] on a heap of its own. *)
Definition sum_program (alloc_str : objects -> Z -> Z) (alloc_entry : gmap Z (Z * Z) -> Z -> Z) (input : list Z) : outcome (list Z) :=
  let! (output, _) := run_reducer_on alloc_str alloc_entry input sum_reducer (DHeap ∅ ∅) in Done output.

Lemma no_newlines l : 10 ∉ l -> filter (eq 10) l = [].
Proof.
  induction l as [|c l IH]; intros H; [done|]. apply not_elem_of_cons in H as [Hc H]. by rewrite filter_cons_False, IH by (done || congruence).
Qed.

(** One line for each key. *)
Lemma report_lines ks keys : Forall key_ok keys -> length (filter (eq 10) (concat (map (count_line ks) keys))) = length keys.
Proof.
  induction 1 as [|k keys (_ & Hk & _) _ IH]; [done|]. cbn [map concat]. rewrite filter_app, length_app, IH. unfold count_line, record_of. rewrite !filter_app.
  rewrite (no_newlines k), (no_newlines (decimal _)) by first [done | (intros Hd; apply decimal_digit in Hd; [lia|unfold occurrences; lia])]. done.
Qed.

(** A short line of the file is short in the part of its mapper. *)
Lemma short_lines `{Mapper mapper} data n m i w : 0 < Z.of_nat n < 2147483648 -> Z.of_nat (length data) * Z.of_nat n < 2 ^ 64 ->
  Forall (fun line => (length (mapper (line_data line)) <= m)%nat) (getlines data) -> (i < n)%nat -> w ∈ mapper_process data (Z.of_nat n) mapper i -> (length w <= m)%nat.
Proof.
  intros Hn Hs Hshort Hi Hw. destruct (portions_ok data (Z.of_nat n) Hn Hs) as [Hl _]. rewrite Nat2Z.id in Hl. unfold mapper_process, run_mapper_on_fds in Hw.
  apply list_elem_of_fmap in Hw as (line & -> & Hline). rewrite Forall_forall in Hshort. apply Hshort. rewrite Hl. apply list_elem_of_In, in_concat.
  exists (getlines (write_portion data (Z.of_nat n) (Z.of_nat i))). split; [apply in_map_iff; exists i; split; [done|apply in_seq; lia]|by apply list_elem_of_In].
Qed.


(** ** Runs *)

Fixpoint round_robin (n m : nat) : list (actor * nat) :=
  match n with O => [] | S n => ((Main, 1%nat) :: map (fun id => (Child id, 1%nat)) (seq 0 m)) ++ round_robin n m end.

Definition two_mappers : job := {|
  data := bytes_of_string "ab" ++ [10] ++ bytes_of_string "ba" ++ [10]; mapper_count := 2; func := asciicount; reduce := sum_program next_address next_address;
  out_file := bytes_of_string "o"; reducer_exec := bytes_of_string "./r"; fork_ok := fun _ => true; splitter_runs := true; mapper_runs := true; reducer_runs := true;
  PIPE_BUF := 10; pipe_capacity := 10; OPEN_MAX := 16 |}.

Example two_mappers_count :
  (let! s := run two_mappers (round_robin 60 5) start in Done (pc s, file s, out s))
  = Done (M_exited 0, bytes_of_string "a: 2" ++ [10] ++ bytes_of_string "b: 2" ++ [10], bytes_of_string "output pairs in o: 2" ++ [10]).
Proof. vm_compute. reflexivity. Qed.


(** [main] keeps the read ends of the mappers' pipes: when a mapper cannot be executed, a
    splitter with more than a pipe holds is never told, and nobody goes on. *)
Definition mapper_missing : job := {|
  data := bytes_of_string "abcdef" ++ [10]; mapper_count := 1; func := asciicount; reduce := sum_program next_address next_address;
  out_file := bytes_of_string "o"; reducer_exec := bytes_of_string "./r"; fork_ok := fun _ => true; splitter_runs := true; mapper_runs := false; reducer_runs := true;
  PIPE_BUF := 2; pipe_capacity := 4; OPEN_MAX := 16 |}.

Example missing_mapper_hangs : exists s, run mapper_missing (round_robin 40 3) start = Done s /\ stuck mapper_missing s /\ pc s = M_wait_splitter 0.
Proof.
  eexists. split; [vm_compute; reflexivity|]. split; [|reflexivity]. intros [|[|[|[|id]]]] k; vm_compute; reflexivity.
Qed.
