(* ===== verification/Env.v ===== *)
(** * [utilities_unleashed/env.c]

    The arguments are assignments, then [--], then a command.  The child sets the
    variables one after the other and executes the command; a value that starts with
    a percent sign is the value of another variable at that time.  The parent waits. *)

From stdpp Require Import gmap strings.
From S2P Require Import Prelude CString.
Open Scope Z_scope.

Definition EQUALS : Z := 61.
Definition PERCENT : Z := 37.
Definition DASHES : list Z := [45; 45].

Abbreviation environment := (gmap (list Z) (list Z)).

(** How the child goes on: [exit] with a status, or [execvp] with a command. *)
Inductive ended := Exits (status : Z) | Executes (cmd : list (list Z)) (env : environment).

(** [strchr] and [strsep]: what is before and behind the first equals sign. *)
Fixpoint strsep (arg : list Z) : option (list Z * list Z) :=
  match arg with
  | [] => None
  | c :: arg => if c =? EQUALS then Some ([], arg) else match strsep arg with Some (key, val) => Some (c :: key, val) | None => None end
  end.

(** A name must not be empty or hold an equals sign. *)
Definition setenv (key val : list Z) (env : environment) : option environment :=
  if bool_decide (key = []) || bool_decide (EQUALS ∈ key) then None else Some (<[key := val]> env).

(** [format.c] *)
Definition print_env_usage : ended := Exits 2.
Definition print_environment_change_failed : ended := Exits 1.

Fixpoint env_child (args : list (list Z)) (env : environment) : ended :=
  match args with
  | [] => Exits 0
  | arg :: args =>
      match strsep arg with
      | Some (key, val) =>
          match val with
          | [] => print_env_usage
          | c :: name =>
              let val := if c =? PERCENT then default [] (env !! name) else val in
              match setenv key val env with
              | Some env => env_child args env
              | None => print_environment_change_failed
              end
          end
      | None =>
          if bool_decide (arg = DASHES) then match args with [] => print_env_usage | cmd => Executes cmd env end
          else print_env_usage
      end
  end.

(** The status of the program and what the child does, if there is one. *)
Definition env_main (fork_ok : bool) (args : list (list Z)) (env : environment) : Z * option ended :=
  if Z.of_nat (length args) <? 2 then (2, None)
  else if fork_ok then (0, Some (env_child args env))
  else (1, None).

(** ** What the command line means *)

Inductive value := Text (v : list Z) | Reference (name : list Z).

Definition assignment : Type := list Z * value.

Definition render_value (v : value) : list Z := match v with Text v => v | Reference name => PERCENT :: name end.

Definition render (a : assignment) : list Z := a.1 ++ EQUALS :: render_value a.2.

Definition well_formed (a : assignment) : Prop :=
  a.1 <> [] /\ (EQUALS ∉ a.1) /\ match a.2 with Text v => v <> [] /\ head v <> Some PERCENT | Reference _ => True end.

Definition assign (env : environment) (a : assignment) : environment :=
  <[a.1 := match a.2 with Text v => v | Reference name => default [] (env !! name) end]> env.

Lemma strsep_some arg key val : strsep arg = Some (key, val) <-> (EQUALS ∉ key) /\ arg = key ++ EQUALS :: val.
Proof.
  revert key. induction arg as [|c arg IH]; intros key; cbn [strsep]; [split; [done|intros [_ H]; by destruct key]|].
  destruct (Z.eqb_spec c EQUALS) as [->|Hc].
  - split; [intros [= <- <-]; split; [by apply not_elem_of_nil|done]|]. intros [Hn H]. destruct key as [|d key]; [by injection H as <-|]. injection H as <- _. by destruct Hn; apply list_elem_of_here.
  - split.
    + destruct (strsep arg) as [[k v]|]; [|done]. intros [= <- <-]. destruct (proj1 (IH k) eq_refl) as [Hn ->]. split; [by apply not_elem_of_cons|done].
    + intros [Hn H]. destruct key as [|d key]; [by injection H as H _|]. injection H as <- H. apply not_elem_of_cons in Hn as [_ Hn]. by rewrite (proj2 (IH key) (conj Hn H)).
Qed.

Lemma strsep_none arg : strsep arg = None -> EQUALS ∉ arg.
Proof.
  induction arg as [|c arg IH]; intros H; [by apply not_elem_of_nil|]. cbn in H. destruct (Z.eqb_spec c EQUALS) as [->|Hc]; [done|]. apply not_elem_of_cons. split; [done|].
  apply IH. by destruct (strsep arg) as [[]|].
Qed.

Lemma setenv_some key val env env' : setenv key val env = Some env' -> key <> [] /\ (EQUALS ∉ key) /\ env' = <[key := val]> env.
Proof. unfold setenv. destruct (bool_decide_reflect (key = [])); [done|]. destruct (bool_decide_reflect (EQUALS ∈ key)); [done|]. by intros [= <-]. Qed.

Lemma setenv_ok key val env : key <> [] -> EQUALS ∉ key -> setenv key val env = Some (<[key := val]> env).
Proof. intros H1 H2. unfold setenv. by rewrite !bool_decide_eq_false_2. Qed.

(** The command is executed exactly when the arguments are well-formed assignments,
    the dashes and a command; its environment is the one of the assignments done from
    left to right, where a reference has the value it has then. *)
Theorem env_child_correct args env cmd env' :
  env_child args env = Executes cmd env' <->
  exists assigns, args = map render assigns ++ DASHES :: cmd /\ cmd <> [] /\ Forall well_formed assigns /\ env' = foldl assign env assigns.
Proof.
  split.
  - revert env. induction args as [|arg args IH]; intros env H; [done|]. cbn [env_child] in H. destruct (strsep arg) as [[key val]|] eqn:Hs.
    + apply strsep_some in Hs as [Hn ->]. destruct val as [|c name]; [done|]. destruct (setenv _ _ _) as [e|] eqn:He; [|done]. apply setenv_some in He as (Hk & _ & ->).
      destruct (IH _ H) as (assigns & -> & Hcmd & Hok & ->). destruct (Z.eqb_spec c PERCENT) as [->|Hc].
      * exists ((key, Reference name) :: assigns). repeat split; try done. by constructor.
      * exists ((key, Text (c :: name)) :: assigns). repeat split; try done. constructor; [|done]. repeat split; try done. cbn. congruence.
    + destruct (bool_decide_reflect (arg = DASHES)) as [->|]; [|done]. destruct args as [|a args]; [done|]. injection H as <- <-. by exists [].
  - intros (assigns & -> & Hcmd & Hok & ->). revert env. induction Hok as [|[key v] assigns (Hk & Hn & Hv) _ IH]; intros env.
    + cbn. by destruct cmd.
    + cbn [map app env_child render fst snd] in *. rewrite (proj2 (strsep_some _ key (render_value v))) by done. cbn [foldl]. rewrite <- IH.
      destruct v as [[|c v]|name]; cbn [render_value]; [by destruct Hv| |].
      * destruct (Z.eqb_spec c PERCENT) as [->|Hc]; [by destruct Hv|]. by rewrite setenv_ok.
      * rewrite Z.eqb_refl. by rewrite setenv_ok.
Qed.

(** The status of the command is lost. *)
Example status_is_lost : env_main true [bytes_of_string "A="; bytes_of_string "--"] ∅ = (0, Some (Exits 2)).
Proof. vm_compute. reflexivity. Qed.

(** A variable that is set before it is referred to. *)
Example references_are_sequential :
  env_child [bytes_of_string "A=1"; bytes_of_string "B=%A"; bytes_of_string "--"; bytes_of_string "ls"] ∅
  = Executes [bytes_of_string "ls"] (<[bytes_of_string "B" := bytes_of_string "1"]> (<[bytes_of_string "A" := bytes_of_string "1"]> ∅)).
Proof. vm_compute. reflexivity. Qed.
