(* ===== verification/Pointers.v ===== *)
(** * The exercises of [perilous_pointers/]

    Memory is a map of blocks, a pointer is a block and an offset, an access outside a
    block or to one that has been freed is [Undef]; [malloc] and [strdup] are taken to
    succeed.  [float] values are exact fractions rounded to 24 bits; [strtof] is a
    parameter.  The output is the list of bytes printed. *)

From stdpp Require Import gmap strings.
From S2P Require Import Prelude CString.
Open Scope Z_scope.

Inductive ptr := Null | Ptr (block : nat) (offset : Z).

#[export] Instance ptr_eq_dec : EqDecision ptr.
Proof. solve_decision. Defined.

(** A block of bytes, or an array of pointers. *)
Inductive contents := Bytes (bs : list Z) | Pointers (ps : list ptr).

Record machine := Machine {
  blocks : gmap nat contents;
  fresh : nat;
  strtok_next : ptr;
  output : list Z;
}.

Definition start : machine := Machine ∅ 0 Null [].

(** ** A monad of the machine *)

Definition M (A : Type) : Type := machine -> outcome (A * machine).

#[export] Instance M_ret : MRet M := fun A a s => Done (a, s).
#[export] Instance M_bind : MBind M := fun A B f m s => let! (a, s) := m s in f a s.

Definition undef {A} : M A := fun _ => Undef.
Definition get {A} (o : option A) : M A := match o with Some a => mret a | None => undef end.
Definition print (bs : list Z) : M unit := fun s => Done (tt, Machine (blocks s) (fresh s) (strtok_next s) (output s ++ bs)).
Definition text (s : string) : list Z := bytes_of_string s.
Definition puts (s : string) : M unit := print (text s ++ [10]).

Definition new_block (c : contents) : M ptr := fun s => Done (Ptr (fresh s) 0, Machine (<[fresh s := c]> (blocks s)) (S (fresh s)) (strtok_next s) (output s)).

(** The bytes of fresh memory have no definite value; here they are 170. *)
Definition malloc (n : Z) : M ptr := new_block (Bytes (replicate (Z.to_nat n) 170)).
Definition malloc_pointers (n : nat) : M ptr := new_block (Pointers (replicate n Null)).

Definition free (p : ptr) : M unit := fun s =>
  match p with
  | Null => Done (tt, s)
  | Ptr b o => if (o =? 0) && bool_decide (is_Some (blocks s !! b)) then Done (tt, Machine (delete b (blocks s)) (fresh s) (strtok_next s) (output s)) else Undef
  end.

Definition offset_by (p : ptr) (n : Z) : M ptr := match p with Null => undef | Ptr b o => mret (Ptr b (o + n)) end.

(** Bytes [off .. off + n) of the block of [p]. *)
Definition load_bytes (p : ptr) (off : Z) (n : nat) : M (list Z) := fun s =>
  match p with
  | Ptr b o =>
      match blocks s !! b with
      | Some (Bytes bs) => if (0 <=? o + off) && (Z.to_nat (o + off) + n <=? length bs)%nat then Done (take n (drop (Z.to_nat (o + off)) bs), s) else Undef
      | _ => Undef
      end
  | Null => Undef
  end.

Definition store_bytes (p : ptr) (off : Z) (new : list Z) : M unit := fun s =>
  match p with
  | Ptr b o =>
      match blocks s !! b with
      | Some (Bytes bs) =>
          let i := Z.to_nat (o + off) in
          if (0 <=? o + off) && (i + length new <=? length bs)%nat
          then Done (tt, Machine (<[b := Bytes (take i bs ++ new ++ drop (i + length new) bs)]> (blocks s)) (fresh s) (strtok_next s) (output s)) else Undef
      | _ => Undef
      end
  | Null => Undef
  end.

Definition s8 (x : Z) : Z := (x + 128) `mod` 256 - 128.

Definition load_char (p : ptr) (off : Z) : M Z := bs ← load_bytes p off 1; c ← get (head bs); mret (s8 c).
Definition store_char (p : ptr) (off c : Z) : M unit := store_bytes p off [c `mod` 256].

Definition int_bytes (x : Z) : list Z := let u := u32 x in [u `mod` 256; (u / 256) `mod` 256; (u / 65536) `mod` 256; u / 16777216].
Definition int_value (bs : list Z) : Z := s32 (foldr (fun b acc => b + 256 * acc) 0 bs).

Definition load_int (p : ptr) (off : Z) : M Z := bs ← load_bytes p off 4; mret (int_value bs).
Definition store_int (p : ptr) (off x : Z) : M unit := store_bytes p off (int_bytes x).

Definition load_pointer (p : ptr) (i : nat) : M ptr := fun s =>
  match p with
  | Ptr b 0 => match blocks s !! b with Some (Pointers ps) => let! q := deref (ps !! i) in Done (q, s) | _ => Undef end
  | _ => Undef
  end.

Definition store_pointer (p : ptr) (i : nat) (q : ptr) : M unit := fun s =>
  match p with
  | Ptr b 0 =>
      match blocks s !! b with
      | Some (Pointers ps) => if (i <? length ps)%nat then Done (tt, Machine (<[b := Pointers (<[i := q]> ps)]> (blocks s)) (fresh s) (strtok_next s) (output s)) else Undef
      | _ => Undef
      end
  | _ => Undef
  end.

(** A variable on the stack, a string literal, a copy of a string. *)
Definition int_variable (x : Z) : M ptr := new_block (Bytes (int_bytes x)).
Definition literal (s : list Z) : M ptr := new_block (Bytes (s ++ [0])).
Definition strdup : list Z -> M ptr := literal.

(** The string at [p], which ends within its block. *)
Definition load_string (p : ptr) : M (list Z) := fun s =>
  match p with
  | Ptr b o =>
      match blocks s !! b with
      | Some (Bytes bs) =>
          let rest := drop (Z.to_nat o) bs in
          if (0 <=? o) && (length (until_zero rest) <? length rest)%nat then Done (until_zero rest, s) else Undef
      | _ => Undef
      end
  | Null => Undef
  end.

Definition strcpy (p : ptr) (off : Z) (s : list Z) : M unit := store_bytes p off (s ++ [0]).

(** Between [int] bounds, or a signed overflow. *)
Definition in_int (x : Z) : M Z := if (-2147483648 <=? x) && (x <=? 2147483647) then mret x else undef.

(** ** Floating point: fractions with a positive denominator *)

(** The nearest integer, ties to even. *)
Definition round_even (n d : Z) : Z :=
  let q := n / d in
  let r := 2 * (n `mod` d) in
  if r <? d then q else if d <? r then q + 1 else if Z.even q then q else q + 1.

(** [n / d] with a significand of 24 bits. *)
Definition to_float (n d : Z) : Z * Z :=
  if n =? 0 then (0, 1)
  else
    let k0 := Z.log2 (Z.abs n) - Z.log2 d - 23 in
    let scaled k := if 0 <=? k then (Z.abs n, d * 2 ^ k) else (Z.abs n * 2 ^ (- k), d) in
    let k := if Z.div (scaled k0).1 (scaled k0).2 <? 8388608 then k0 - 1 else k0 in
    let m := Z.sgn n * round_even (scaled k).1 (scaled k).2 in
    if 0 <=? k then (m * 2 ^ k, 1) else (m, 2 ^ (- k)).

(** [printf("%f")]: six digits of the exact value, ties to even. *)
Definition print_float (x : Z * Z) : list Z :=
  let micro := round_even (Z.abs x.1 * 1000000) x.2 in
  let digits := decimal (1000000 + micro `mod` 1000000) in
  (if x.1 <? 0 then [45] else []) ++ decimal (micro / 1000000) ++ [46] ++ drop 1 digits.

(** ** [part1-functions.c] *)

Section Part1.

Variable strtof : list Z -> Z * Z.

Definition one (grade : list Z) : M unit :=
  let numeric_grade := strtof grade in
  if 70 * numeric_grade.2 <? numeric_grade.1 then print (print_float numeric_grade ++ text " passed!" ++ [10])
  else print (grade ++ text " not passed!" ++ [10]).

Definition two : M unit :=
  p ← int_variable 4;
  x ← load_int p 0;
  print (text "The value of p is: " ++ decimal x ++ [10]).

Definition three (x y : ptr) : M unit :=
  a ← load_int x 0;
  b ← load_int y 0;
  if a =? b then puts "x and y are equal." else puts "x and y are different.".

(** The block returned is the caller's. *)
Definition four (x : ptr) : M ptr :=
  p ← malloc 4;
  i ← load_int x 0;
  print (decimal i ++ text " == " ++ print_float (to_float i 1) ++ [10]);;
  mret p.

Definition isupper (c : Z) : bool := (65 <=? c) && (c <=? 90).
Definition islower (c : Z) : bool := (97 <=? c) && (c <=? 122).

Definition five (a : ptr) : M unit :=
  c ← load_char a 0;
  if isupper c || islower c then puts "a is a letter." else puts "a is not a letter.".

(** [sizeof(strlen(ct))] is 8, two more than the length of the greeting. *)
Definition six (str : ptr) : M unit :=
  let ct := text "Hello " in
  t ← load_string str;
  s ← malloc (8 + 1 + Z.of_nat (length t) + 1);
  strcpy s 0 ct;;
  t ← load_string str;
  c ← load_string s;
  strcpy s (Z.of_nat (length c)) t;;
  r ← load_string s;
  print (r ++ [10]);;
  free s.

Fixpoint seven_loop (n : nat) (i : Z) : M unit :=
  match n with
  | O => mret tt
  | S n => print (print_float (to_float i 10) ++ [32]);; seven_loop n (i + 1)
  end.

Definition seven : M unit :=
  values ← malloc 40;
  seven_loop 10 0;;
  print [10];;
  free values.

Fixpoint fill_row (n : nat) (row : ptr) (i j a : Z) : M unit :=
  match n with
  | O => mret tt
  | S n => ij ← in_int (i * j); x ← in_int (ij * a); store_int row (4 * j) x;; fill_row n row i (j + 1) a
  end.

Fixpoint fill_rows (n : nat) (values : ptr) (i : nat) (a : Z) : M unit :=
  match n with
  | O => mret tt
  | S n =>
      row ← malloc 40;
      store_pointer values i row;;
      fill_row 10 row (Z.of_nat i) 0 a;;
      fill_rows n values (S i) a
  end.

Fixpoint print_diagonal (n : nat) (values : ptr) (i : nat) : M unit :=
  match n with
  | O => mret tt
  | S n =>
      row ← load_pointer values i;
      x ← load_int row (4 * Z.of_nat i);
      print (decimal x ++ [32]);;
      print_diagonal n values (S i)
  end.

(** Only the array of rows is freed. *)
Definition eight (a : Z) : M unit :=
  values ← malloc_pointers 10;
  fill_rows 10 values 0 a;;
  print_diagonal 10 values 0;;
  print [10];;
  free values.

Definition nine (s : ptr) : M unit :=
  t ← load_string s;
  if bool_decide (t = text "blue") then puts "Orange and BLUE!"
  else if bool_decide (t = text "orange") then puts "ORANGE and blue!"
  else puts "orange and blue!".

Definition ten (d : Z) : M unit :=
  let r := to_float d 2 in
  print (text "The radius of the circle is: " ++ print_float r ++ text "." ++ [10]).

Definition clear_bits (value flag : Z) : M unit :=
  let cleared_value := Z.land (Z.lxor value flag) (Z.lnot flag) in
  print (text "cleared_value: " ++ decimal cleared_value ++ [10]).

Definition little_automaton (transition : Z -> Z -> Z) (input_string : ptr) : M unit :=
  s ← load_string input_string;
  let state := foldl (fun state c => transition state (s8 c)) 0 s in
  print (text "final state: " ++ decimal state ++ [10]).

(** ** [part1-main.c] *)

Definition transition_function_blue (state input : Z) : Z :=
  if state =? 0 then (if input =? 98 then 1 else 4)
  else if state =? 1 then (if input =? 108 then 2 else 4)
  else if state =? 2 then (if input =? 117 then 3 else 4)
  else if state =? 3 then (if input =? 101 then 5 else 4)
  else 4.

Definition transition_function_orange (state input : Z) : Z :=
  if state =? 0 then (if input =? 111 then 1 else 6)
  else if state =? 1 then (if input =? 114 then 2 else 6)
  else if state =? 2 then (if input =? 97 then 3 else 6)
  else if state =? 3 then (if input =? 110 then 4 else 6)
  else if state =? 4 then (if input =? 103 then 5 else 6)
  else if state =? 5 then (if input =? 101 then 7 else 6)
  else 6.

Definition with_literal (s : string) (f : ptr -> M unit) : M unit := p ← literal (text s); f p.

Definition part1_main : M unit :=
  puts "== one() ==";;
  one (text "20");;
  one (text "100");;
  puts "== two() ==";;
  two;;
  puts "== three() ==";;
  num1 ← int_variable 3;
  num2 ← int_variable 3;
  three num1 num2;;
  num3 ← int_variable 4;
  three num1 num3;;
  puts "== four() ==";;
  i4 ← int_variable 4;
  i432 ← int_variable 432;
  p_four ← four i4;
  free p_four;;
  p_four ← four i432;
  free p_four;;
  puts "== five() ==";;
  s ← new_block (Bytes [83]);
  five s;;
  t ← new_block (Bytes [95]);
  five t;;
  puts "== six() ==";;
  with_literal "World!" six;;
  puts "== seven() ==";;
  seven;;
  puts "== eight() ==";;
  eight 10;;
  puts "== nine() ==";;
  with_literal "red" nine;;
  with_literal "orange" nine;;
  with_literal "blue" nine;;
  with_literal "green" nine;;
  puts "== ten() ==";;
  ten 35;;
  ten 20;;
  puts "== clear_bits() ==";;
  clear_bits 255 85;;
  clear_bits 0 240;;
  clear_bits 171 0;;
  clear_bits 202 254;;
  clear_bits 20 0;;
  clear_bits 187 187;;
  puts "== little finite automata ==";;
  with_literal "blue" (little_automaton transition_function_blue);;
  with_literal "orange" (little_automaton transition_function_blue);;
  with_literal "blue" (little_automaton transition_function_orange);;
  with_literal "orange" (little_automaton transition_function_orange).

End Part1.

(** ** [part2-functions.c] *)

Definition first_step (value : Z) : M unit := if value =? 81 then puts "1: Illinois" else puts "first_step failed".

Definition second_step (value : ptr) : M unit :=
  if decide (value = Null) then puts "second_step failed"
  else x ← load_int value 0; if x =? 132 then puts "2: Illinois" else puts "second_step failed".

Definition double_step (value : ptr) : M unit :=
  if decide (value = Null) then puts "double_step failed"
  else
    p ← load_pointer value 0;
    if decide (p = Null) then puts "double_step failed"
    else x ← load_int p 0; if x =? 8942 then puts "3: Illinois" else puts "double_step failed".

Definition strange_step (value : ptr) : M unit :=
  if decide (value = Null) then puts "strange_step failed"
  else x ← load_int value 5; if x =? 15 then puts "4: Illinois" else puts "strange_step failed".

Definition empty_step (value : ptr) : M unit :=
  if decide (value = Null) then puts "empty_step failed"
  else c ← load_char value 3; if c =? 0 then puts "5: Illinois" else puts "empty_step failed".

Definition two_step (s s2 : ptr) : M unit :=
  if decide (s2 = Null) then puts "two_step failed"
  else if negb (bool_decide (s = s2)) then puts "two_step failed"
  else c ← load_char s2 3; if c =? 117 then puts "6: Illinois" else puts "two_step failed".

Definition three_step (first second third : ptr) : M unit :=
  if decide (first = Null \/ second = Null \/ third = Null) then puts "three_step failed"
  else
    p ← offset_by second 2;
    q ← offset_by first 2;
    if bool_decide (third = p) && bool_decide (second = q) then puts "7: Illinois" else puts "three_step failed".

Definition step_step_step (first second third : ptr) : M unit :=
  if decide (first = Null \/ second = Null \/ third = Null) then puts "step_step_step failed"
  else
    t ← load_char third 3;
    s ← load_char second 2;
    if negb (t =? s + 8) then puts "step_step_step failed"
    else f ← load_char first 1; if s =? f + 8 then puts "8: Illinois" else puts "step_step_step failed".

Definition it_may_be_odd (a : ptr) (b : Z) : M unit :=
  if decide (a = Null) then puts "it_may_be_odd failed"
  else c ← load_char a 0; if (c =? b) && (0 <? b) then puts "9: Illinois" else puts "it_may_be_odd failed".

(** [strtok] from [str], or from where the last call stopped. *)
Definition set_next (p : ptr) : M unit := fun s => Done (tt, Machine (blocks s) (fresh s) p (output s)).

Fixpoint leading (delim : Z) (s : list Z) : nat := match s with c :: s => if c =? delim then S (leading delim s) else O | [] => O end.
Fixpoint token_length (delim : Z) (s : list Z) : nat := match s with c :: s => if c =? delim then O else S (token_length delim s) | [] => O end.

Definition strtok (str : ptr) (delim : Z) : M ptr := fun st =>
  (from ← mret (if decide (str = Null) then strtok_next st else str);
   if decide (from = Null) then mret Null
   else
     s ← load_string from;
     let k := leading delim s in
     tok ← offset_by from (Z.of_nat k);
     let rest := drop k s in
     let n := token_length delim rest in
     if decide (n = 0%nat) then set_next Null;; mret Null
     else if decide (n = length rest) then set_next Null;; mret tok
     else
       store_char tok (Z.of_nat n) 0;;
       next ← offset_by tok (Z.of_nat n + 1);
       set_next next;;
       mret tok) st.

Definition tok_step (str : ptr) : M unit :=
  if decide (str = Null) then puts "tok_step failed"
  else
    a ← strtok str 44;
    a ← strtok Null 44;
    s ← load_string a;
    if bool_decide (s = text "CS241") then puts "10: Illinois" else puts "tok_step failed".

(** The remainder of a division truncated towards zero. *)
Definition the_end (orange blue : ptr) : M unit :=
  if decide (orange = Null \/ blue = Null) then puts "the_end failed"
  else if negb (bool_decide (orange = blue)) then puts "the_end failed"
  else
    c ← load_char blue 0;
    if negb (c =? 1) then puts "the_end failed"
    else x ← load_int orange 0; if Z.rem x 3 =? 0 then puts "11: Illinois" else puts "the_end failed".

(** ** [part2-main.c] *)

Definition part2_main : M unit :=
  first_step 81;;
  i132 ← int_variable 132;
  second_step i132;;
  matrix ← malloc_pointers 1;
  row ← malloc 4;
  store_pointer matrix 0 row;;
  row ← load_pointer matrix 0;
  store_int row 0 8942;;
  double_step matrix;;
  row ← load_pointer matrix 0;
  free row;;
  store_pointer matrix 0 Null;;
  free matrix;;
  msg ← malloc 9;
  strcpy msg 0 (text "VladP");;
  store_int msg 5 15;;
  strange_step msg;;
  free msg;;
  msg ← malloc 4;
  store_char msg 3 0;;
  empty_step msg;;
  free msg;;
  msg ← malloc 4;
  store_char msg 3 117;;
  two_step msg msg;;
  free msg;;
  msg ← literal (text "abcde");
  p ← offset_by msg 2;
  q ← offset_by msg 4;
  three_step msg p q;;
  msg ← literal (0 :: text "aiq");
  step_step_step msg msg msg;;
  msg ← malloc 4;
  store_int msg 0 5;;
  it_may_be_odd msg 5;;
  free msg;;
  msg ← strdup (text "Course,CS241");
  tok_step msg;;
  free msg;;
  msg ← malloc 4;
  store_char msg 0 1;;
  store_char msg 1 2;;
  store_char msg 3 0;;
  store_char msg 2 0;;
  the_end msg msg;;
  free msg.

(** ** What the programs print *)

Definition lines_of (ls : list string) : list Z := concat (map (fun s => text s ++ [10]) ls).

(** Every step prints its line; what is left are the variable and the two literals. *)
Example part2_prints :
  (let! (_, s) := part2_main start in Done (output s, size (blocks s)))
  = Done (lines_of ["1: Illinois"; "2: Illinois"; "3: Illinois"; "4: Illinois"; "5: Illinois"; "6: Illinois"; "7: Illinois"; "8: Illinois"; "9: Illinois"; "10: Illinois"; "11: Illinois"]%string, 3%nat).
Proof. vm_compute. reflexivity. Qed.

Example part1_prints :
  (let! (_, s) := part1_main (fun g => (default 0 (match atoi g with Done x => Some x | _ => None end), 1)) start in Done (output s))
  = Done (lines_of
     ["== one() =="; "20 not passed!"; "100.000000 passed!"; "== two() =="; "The value of p is: 4"; "== three() =="; "x and y are equal."; "x and y are different.";
      "== four() =="; "4 == 4.000000"; "432 == 432.000000"; "== five() =="; "a is a letter."; "a is not a letter."; "== six() =="; "Hello World!"; "== seven() ==";
      "0.000000 0.100000 0.200000 0.300000 0.400000 0.500000 0.600000 0.700000 0.800000 0.900000 "; "== eight() =="; "0 10 40 90 160 250 360 490 640 810 ";
      "== nine() =="; "orange and blue!"; "ORANGE and blue!"; "Orange and BLUE!"; "orange and blue!"; "== ten() =="; "The radius of the circle is: 17.500000.";
      "The radius of the circle is: 10.000000."; "== clear_bits() =="; "cleared_value: 170"; "cleared_value: 0"; "cleared_value: 171"; "cleared_value: 0"; "cleared_value: 20";
      "cleared_value: 0"; "== little finite automata =="; "final state: 5"; "final state: 4"; "final state: 6"; "final state: 7"]%string).
Proof. vm_compute. reflexivity. Qed.

(** [eight] leaves its ten rows allocated. *)
Example eight_leaks : (let! (_, s) := eight 10 start in Done (size (blocks s))) = Done 10%nat.
Proof. vm_compute. reflexivity. Qed.

(** ** In general *)

(** Exactly the bits of [flag] are cleared. *)
Lemma cleared_bits value flag i : 0 <= i -> Z.testbit (Z.land (Z.lxor value flag) (Z.lnot flag)) i = Z.testbit value i && negb (Z.testbit flag i).
Proof. intros Hi. rewrite Z.land_spec, Z.lxor_spec, Z.lnot_spec by done. by destruct (Z.testbit value i), (Z.testbit flag i). Qed.

Definition run_automaton (transition : Z -> Z -> Z) (s : list Z) : Z := foldl (fun state c => transition state (s8 c)) 0 s.

Lemma accept_from (transition : Z -> Z -> Z) (path : Z -> option (list Z)) :
  (forall st c w, path (transition st c) = Some w -> path st = Some (c :: w)) ->
  forall s st w, path (foldl transition st s) = Some w -> path st = Some (s ++ w).
Proof. intros Hstep s. induction s as [|c s IH]; intros st w H; [done|]. cbn [foldl app] in *. by apply Hstep, IH. Qed.

(** What is still to be read in a state on the way to the accepting one. *)
Definition blue_path (state : Z) : option (list Z) :=
  if decide (0 <= state <= 3) then Some (drop (Z.to_nat state) (text "blue")) else if decide (state = 5) then Some [] else None.

Definition orange_path (state : Z) : option (list Z) :=
  if decide (0 <= state <= 5) then Some (drop (Z.to_nat state) (text "orange")) else if decide (state = 7) then Some [] else None.

Lemma blue_step st c w : blue_path (transition_function_blue st c) = Some w -> blue_path st = Some (c :: w).
Proof. unfold transition_function_blue. repeat case_bool; subst; cbn; try done; intros [= <-]; done. Qed.

Lemma orange_step st c w : orange_path (transition_function_orange st c) = Some w -> orange_path st = Some (c :: w).
Proof. unfold transition_function_orange. repeat case_bool; subst; cbn; try done; intros [= <-]; done. Qed.

(** The automata accept their word and no other. *)
Lemma automata_accept s :
  (foldl transition_function_blue 0 s = 5 <-> s = text "blue") /\ (foldl transition_function_orange 0 s = 7 <-> s = text "orange").
Proof.
  split; (split; [|by intros ->]); intros H.
  - pose proof (accept_from _ blue_path blue_step s 0 []) as Hp. rewrite H in Hp. specialize (Hp eq_refl). cbn in Hp. injection Hp as Hp. by rewrite app_nil_r in Hp.
  - pose proof (accept_from _ orange_path orange_step s 0 []) as Hp. rewrite H in Hp. specialize (Hp eq_refl). cbn in Hp. injection Hp as Hp. by rewrite app_nil_r in Hp.
Qed.

(** A proper prefix does not end in state 4, whatever the comment says. *)
Example blue_prefix : foldl transition_function_blue 0 (text "bl") = 2.
Proof. reflexivity. Qed.

Lemma until_zero_at t r : 0 ∉ t -> until_zero (t ++ 0 :: r) = t.
Proof. induction t as [|c t IH]; intros H; [done|]. apply not_elem_of_cons in H as [Hc H]. cbn. rewrite (proj2 (Z.eqb_neq c 0)) by done. by rewrite IH. Qed.

Lemma load_string_at b o bs t r s : blocks s !! b = Some (Bytes bs) -> 0 <= o -> drop (Z.to_nat o) bs = t ++ 0 :: r -> 0 ∉ t -> load_string (Ptr b o) s = Done (t, s).
Proof.
  intros Hb Ho Hd Ht. unfold load_string. rewrite Hb, Hd, until_zero_at by done. rewrite (proj2 (Z.leb_le 0 o)) by done. cbn [andb].
  by rewrite (proj2 (Nat.ltb_lt _ _)) by (rewrite length_app; cbn; lia).
Qed.

Lemma store_bytes_at b off bs new s : blocks s !! b = Some (Bytes bs) -> 0 <= off -> (Z.to_nat off + length new <= length bs)%nat ->
  store_bytes (Ptr b 0) off new s
  = Done (tt, Machine (<[b := Bytes (take (Z.to_nat off) bs ++ new ++ drop (Z.to_nat off + length new) bs)]> (blocks s)) (fresh s) (strtok_next s) (output s)).
Proof. intros Hb Ho Hl. unfold store_bytes. rewrite Hb, Z.add_0_l, (proj2 (Z.leb_le 0 off)) by done. by rewrite (proj2 (Nat.leb_le _ _)). Qed.

Lemma bind_done {A B} (m : M A) (f : A -> M B) s a s' : m s = Done (a, s') -> mbind f m s = f a s'.
Proof. intros H. unfold mbind, M_bind. by rewrite H. Qed.

(** The concatenation fits its buffer, whatever the string is, and the buffer is freed. *)
Lemma six_prints t r b o bs s : blocks s !! b = Some (Bytes bs) -> 0 <= o -> drop (Z.to_nat o) bs = t ++ 0 :: r -> 0 ∉ t -> blocks s !! fresh s = None ->
  exists s', six (Ptr b o) s = Done (tt, s') /\ output s' = output s ++ text "Hello " ++ t ++ [10] /\ blocks s' = blocks s.
Proof.
  intros Hb Ho Hd Ht Hf. assert (Hne : fresh s <> b) by congruence. set (n := Z.to_nat (8 + 1 + Z.of_nat (length t) + 1)). set (m := replicate n 170).
  assert (Hlm : length m = (length t + 10)%nat) by (unfold m, n; rewrite length_replicate; lia). unfold six.
  rewrite (bind_done _ _ _ _ _ (load_string_at b o bs t r s Hb Ho Hd Ht)). unfold malloc, new_block. rewrite (bind_done _ _ s _ _ eq_refl). fold n m.
  set (s1 := Machine (<[fresh s := Bytes m]> (blocks s)) (S (fresh s)) (strtok_next s) (output s)).
  unfold strcpy at 1. rewrite (bind_done _ _ s1 _ _ (store_bytes_at (fresh s) 0 m (text "Hello " ++ [0]) s1 ltac:(by apply lookup_insert_eq) ltac:(done) ltac:(cbn; lia))).
  set (h := text "Hello ") in *. cbn [blocks fresh strtok_next output s1]. rewrite insert_insert_eq. set (m1 := take _ m ++ _ ++ _). set (s2 := Machine _ _ _ _).
  assert (Hm1 : m1 = h ++ 0 :: drop 7 m) by done.
  assert (Hb2 : blocks s2 !! b = Some (Bytes bs)) by (cbn; by rewrite lookup_insert_ne).
  rewrite (bind_done _ _ _ _ _ (load_string_at b o bs t r s2 Hb2 Ho Hd Ht)).
  assert (Hh : 0 ∉ h) by (unfold h; cbn; rewrite !not_elem_of_cons; repeat split; try done; apply not_elem_of_nil).
  rewrite (bind_done _ _ _ _ _ (load_string_at (fresh s) 0 m1 h (drop 7 m) s2 ltac:(by apply lookup_insert_eq) ltac:(done) Hm1 Hh)).
  assert (Hlm1 : length m1 = length m) by (rewrite Hm1, length_app; cbn; rewrite length_drop; lia).
  unfold strcpy. rewrite (bind_done _ _ s2 _ _ (store_bytes_at (fresh s) (Z.of_nat (length h)) m1 (t ++ [0]) s2 ltac:(by apply lookup_insert_eq) ltac:(lia) ltac:(rewrite length_app; cbn; lia))).
  cbn [blocks fresh strtok_next output s2]. rewrite insert_insert_eq. set (m2 := take _ m1 ++ _ ++ _). set (s3 := Machine _ _ _ _).
  assert (Hm2 : m2 = (h ++ t) ++ 0 :: drop (Z.to_nat (Z.of_nat (length h)) + length (t ++ [0])) m1).
  { unfold m2. rewrite Nat2Z.id. rewrite Hm1 at 1. rewrite take_app_length, <- !app_assoc. done. }
  rewrite (bind_done _ _ _ _ _ (load_string_at (fresh s) 0 m2 (h ++ t) _ s3 ltac:(by apply lookup_insert_eq) ltac:(done) Hm2 ltac:(rewrite not_elem_of_app; done))).
  unfold print. rewrite (bind_done _ _ s3 _ _ eq_refl). unfold free. cbn [blocks fresh strtok_next output s3]. rewrite lookup_insert_eq, bool_decide_eq_true_2 by (by eexists). cbn [Z.eqb andb].
  eexists. split; [done|]. split; [by rewrite <- app_assoc|]. cbn [blocks]. rewrite delete_insert_eq, delete_id by done. done.
Qed.
