(* ===== verification/ThreadStatus.v ===== *)
(** * [password_cracker/libs/thread_status.c]

    The table of what each thread is doing: a thread is entered when it is first seen,
    the blocking calls are wrapped so that the table shows what a thread waits for.
    Every function is one step of the thread [self]; the allocations are taken to
    succeed, and a row that has not been written has no value ([None]). *)

From stdpp Require Import strings.
From S2P Require Import Prelude CString.
Open Scope Z_scope.

Definition text (s : string) : list Z := bytes_of_string s.

Definition INIT_ARRAY_SIZE : nat := 20.

Record ThreadStatus := Status {
  thread_id : Z;
  thread_status : list Z;
  src_filename : list Z;
  src_line : Z;
}.

(** [status_array] is null until the first call. *)
Record registry := Registry {
  thread_count : nat;
  status_array : option (list (option ThreadStatus));
  status_array_cap : nat;
  thread_status_fd : Z;
}.

Definition registry_start : registry := Registry 1 None 0 2.

Definition threadStatusSetOutput (fd : Z) (g : registry) : registry := Registry (thread_count g) (status_array g) (status_array_cap g) fd.

(** The pointer stays; an array without places makes every later access undefined. *)
Definition threadStatusDestroy (g : registry) : registry := Registry (thread_count g) (option_map (fun _ => []) (status_array g)) (status_array_cap g) (thread_status_fd g).

(** ** Rows *)

Definition write_row (i : nat) (row : ThreadStatus) (g : registry) : outcome registry :=
  match status_array g with
  | Some rows => if (i <? length rows)%nat then Done (Registry (thread_count g) (Some (<[i := Some row]> rows)) (status_array_cap g) (thread_status_fd g)) else Undef
  | None => Undef
  end.

Definition read_row (i : nat) (g : registry) : outcome ThreadStatus :=
  match status_array g with
  | Some rows => deref (mjoin (rows !! i))
  | None => Undef
  end.

Definition initThread (i : nat) (id : Z) (g : registry) : outcome registry :=
  let! _ := c_assert (bool_decide (is_Some (status_array g))) in
  let! _ := c_assert (i <? thread_count g)%nat in
  write_row i (Status id (text "(none)") (text "(none)") 0) g.

Definition initThreadArray (self : Z) (g : registry) : outcome registry :=
  match status_array g with
  | Some _ => Done g
  | None =>
      let! _ := c_assert (thread_count g =? 1)%nat in
      initThread 0 self (Registry (thread_count g) (Some (replicate INIT_ARRAY_SIZE None)) INIT_ARRAY_SIZE (thread_status_fd g))
  end.

(** The array doubles when it is full. *)
Definition addThread (new_thread : Z) (g : registry) : outcome (nat * registry) :=
  let g := if (status_array_cap g =? thread_count g)%nat
           then let cap := (status_array_cap g * 2)%nat in
                Registry (thread_count g) (option_map (fun rows => rows ++ replicate (cap - length rows) None) (status_array g)) cap (thread_status_fd g)
           else g in
  let idx := thread_count g in
  let! g := initThread idx new_thread (Registry (S (thread_count g)) (status_array g) (status_array_cap g) (thread_status_fd g)) in
  Done (idx, g).

Fixpoint find_row (n i : nat) (id : Z) (g : registry) : outcome (option nat) :=
  match n with
  | O => Done None
  | S n => let! row := read_row i g in if thread_id row =? id then Done (Some i) else find_row n (S i) id g
  end.

(** 0 stands for the calling thread. *)
Definition findThreadId (self id : Z) (g : registry) : outcome (nat * registry) :=
  let! g := initThreadArray self g in
  let id := if id =? 0 then self else id in
  let! idx := find_row (thread_count g) 0 id g in
  match idx with
  | Some i => Done (i, g)
  | None => addThread id g
  end.

(** ** Statuses *)

Definition threadStatusSetInternal (self : Z) (description filename : option (list Z)) (line : Z) (g : registry) : outcome registry :=
  let! (tid, g) := findThreadId self 0 g in
  let! _ := c_assert (bool_decide (is_Some (status_array g)) && (tid <? thread_count g)%nat) in
  write_row tid (Status self (default (text "(null)") description) (default (text "(null)") filename) line) g.

(** The index, the row as it was, and the table with the new status. *)
Definition saveStatus (self : Z) (status filename : list Z) (line : Z) (g : registry) : outcome (nat * ThreadStatus * registry) :=
  let! (tid, g) := findThreadId self 0 g in
  let! saved := read_row tid g in
  let! g := write_row tid (Status (thread_id saved) status filename line) g in
  Done (tid, saved, g).

Definition restoreStatus (tid : nat) (saved : ThreadStatus) (g : registry) : outcome registry := write_row tid saved g.

Definition ts_pthread_create (self : Z) (created : Z + Z) (g : registry) : outcome (Z * registry) :=
  let! g := initThreadArray self g in
  match created with
  | inl child_thread_id => let! (_, g) := findThreadId self child_thread_id g in Done (0, g)
  | inr error => Done (error, g)
  end.

(** ** Calls that block: [blocked] is the call, and what the other threads do to the
    table meanwhile *)

Definition blocking : Type := registry -> outcome (Z * registry).

Definition ts_blocking (status : string) (blocked : blocking) (self : Z) (filename : list Z) (line : Z) (g : registry) : outcome (Z * registry) :=
  let! (tid, saved, g) := saveStatus self (text status) filename line g in
  let! (result, g) := blocked g in
  let! g := restoreStatus tid saved g in
  Done (result, g).

Definition ts_pthread_mutex_lock := ts_blocking "mutex lock".
Definition ts_pthread_cond_wait := ts_blocking "condvar wait".
Definition ts_pthread_cond_timedwait := ts_blocking "condvar timed wait".
Definition ts_pthread_join := ts_blocking "pthread join".
Definition ts_sem_wait := ts_blocking "semaphore wait".
Definition ts_pthread_mutex_timedlock := ts_blocking "mutex timed lock".
Definition ts_pthread_barrier_wait := ts_blocking "barrier wait".

(** ** Printing, without the functions a signal handler must not call *)

(** The digits, the least one first. *)
Fixpoint digits_loop (fuel : nat) (x : Z) : list Z :=
  match fuel with
  | O => []
  | S fuel => if x =? 0 then [] else 48 + x `mod` 10 :: digits_loop fuel (x / 10)
  end.

(** [for (i = n - 1; i >= 0; i--)]: swaps [i] and its mirror image. *)
Fixpoint swap_loop (n : nat) (buf : list Z) : list Z :=
  match n with
  | O => buf
  | S i =>
      let j := (length buf - i - 1)%nat in
      let tmp := nth i buf 0 in
      swap_loop i (<[j := tmp]> (<[i := nth j buf 0]> buf))
  end.

(** The buffer has 12 bytes; an unsigned has at most 10 digits. *)
Definition writeInt (sx : Z) : outcome (list Z) :=
  if sx =? 0 then Done [48]
  else if sx =? -2147483648 then Undef
  else
    let is_negative := sx <? 0 in
    let buf := digits_loop 10 (Z.abs sx) ++ (if is_negative then [45] else []) in
    if (length buf <? 12)%nat then Done (swap_loop (length buf / 2) buf) else Undef.

Fixpoint print_rows (n i : nat) (g : registry) : outcome (list Z) :=
  match n with
  | O => Done []
  | S n =>
      let! row := read_row i g in
      let! number := writeInt (Z.of_nat i) in
      let! line := writeInt (src_line row) in
      let! rest := print_rows n (S i) g in
      Done (text "** Thread " ++ number ++ text ": " ++ thread_status row ++ text " at " ++ src_filename row ++ text ":" ++ line ++ [10] ++ rest)
  end.

(** What is written to [thread_status_fd]. *)
Definition threadStatusPrint (g : registry) : outcome (list Z) :=
  if thread_status_fd g <? 0 then Done []
  else match status_array g with
       | None => Done (text "Thread status array not initialized." ++ [10])
       | Some _ => let! rows := print_rows (thread_count g) 0 g in Done ([10] ++ rows ++ [10])
       end.

(** ** The numbers printed *)

Lemma swap_loop_length n : forall buf, length (swap_loop n buf) = length buf.
Proof. induction n as [|n IH]; intros buf; cbn [swap_loop]; [done|]. by rewrite IH, !length_insert. Qed.

(** The loop reverses the outer [n] places at both ends. *)
Lemma swap_loop_at n : forall buf j, (2 * n <= length buf)%nat -> (j < length buf)%nat ->
  nth j (swap_loop n buf) 0 = if decide (j < n \/ length buf - n <= j)%nat then nth (length buf - 1 - j) buf 0 else nth j buf 0.
Proof.
  induction n as [|n IH]; intros buf j Hn Hj; cbn [swap_loop]; [rewrite decide_False by lia; done|].
  set (m := (length buf - n - 1)%nat). set (buf' := <[m := nth n buf 0]> (<[n := nth m buf 0]> buf)).
  assert (Hl : length buf' = length buf) by (unfold buf'; by rewrite !length_insert).
  assert (Hat : forall k, (k < length buf)%nat -> nth k buf' 0 = if decide (k = m) then nth n buf 0 else if decide (k = n) then nth m buf 0 else nth k buf 0).
  { intros k Hk. unfold buf'. rewrite !nth_lookup. case_decide as E; [subst k; by rewrite list_lookup_insert_eq by (rewrite length_insert; unfold m; lia)|].
    rewrite list_lookup_insert_ne by done. case_decide as E'; [subst k; by rewrite list_lookup_insert_eq by lia|]. by rewrite list_lookup_insert_ne by done. }
  rewrite IH by (rewrite Hl; lia). rewrite Hl. unfold m in *. destruct (decide (j < n \/ length buf - n <= j)%nat) as [H|H].
  - rewrite decide_True by lia. rewrite Hat by lia. rewrite !decide_False by lia. done.
  - rewrite Hat by lia. destruct (decide (j = length buf - n - 1)%nat) as [->|H1]; [rewrite decide_True by lia; f_equal; lia|].
    destruct (decide (j = n)) as [->|H2]; [rewrite decide_True by lia; f_equal; lia|]. by rewrite decide_False by lia.
Qed.

Lemma swap_reverses buf : swap_loop (length buf / 2) buf = rev buf.
Proof.
  pose proof (Nat.div_mod_eq (length buf) 2) as Hd. pose proof (Nat.mod_upper_bound (length buf) 2 ltac:(lia)) as Hm.
  apply (nth_ext _ _ 0 0); [by rewrite swap_loop_length, length_rev|]. intros j Hj. rewrite swap_loop_length in Hj. rewrite swap_loop_at, rev_nth by lia.
  replace (length buf - S j)%nat with (length buf - 1 - j)%nat by lia. case_decide as E; [done|]. f_equal. lia.
Qed.

Lemma digits_decimal fuel : forall x k, 0 < x < 10 ^ Z.of_nat fuel -> decimal_digits (fuel + k) x = rev (digits_loop fuel x).
Proof.
  induction fuel as [|fuel IH]; intros x k Hx; [cbn in Hx; lia|]. cbn [Nat.add decimal_digits digits_loop]. rewrite (proj2 (Z.eqb_neq x 0)) by lia. cbn [rev].
  f_equal. destruct (Z.ltb_spec x 10) as [H|H].
  - rewrite Z.div_small by lia. by destruct fuel.
  - apply IH. replace (Z.of_nat (S fuel)) with (Z.of_nat fuel + 1) in Hx by lia. rewrite Z.pow_add_r in Hx by lia. split; [|apply Z.div_lt_upper_bound; lia]. apply Z.div_str_pos. lia.
Qed.

Lemma digits_length fuel : forall x, (length (digits_loop fuel x) <= fuel)%nat.
Proof. induction fuel as [|fuel IH]; intros x; cbn [digits_loop]; [done|]. case_bool; cbn; [lia|]. specialize (IH (x / 10)). lia. Qed.

(** Every [int] but the least one is printed as [printf] would. *)
Lemma writeInt_decimal sx : -2147483648 < sx < 2147483648 -> writeInt sx = Done (decimal sx).
Proof.
  intros Hx. assert (Hp : 10 ^ Z.of_nat 10 = 10000000000) by done. unfold writeInt, decimal. destruct (Z.eqb_spec sx 0) as [->|H0]; [done|]. rewrite (proj2 (Z.eqb_neq _ _)) by lia.
  pose proof (digits_length 10 (Z.abs sx)) as Hl. rewrite (proj2 (Nat.ltb_lt _ _)) by (rewrite length_app; case_bool; cbn [length]; lia). rewrite swap_reverses.
  change 20%nat with (10 + 10)%nat. destruct (Z.ltb_spec sx 0) as [Hneg|Hpos].
  - rewrite rev_app_distr. rewrite Z.abs_neq by lia. cbn [rev app]. by rewrite digits_decimal by (rewrite Hp; lia).
  - rewrite app_nil_r, Z.abs_eq by lia. by rewrite digits_decimal by (rewrite Hp; lia).
Qed.

(** ** The table *)

(** The rows up to [thread_count] are written, each thread once; the array is as
    long as its capacity. *)
Record registered (g : registry) (rows : list ThreadStatus) : Prop := {
  rg_rows : exists free, status_array g = Some ((Some <$> rows) ++ free) /\ length ((Some <$> rows) ++ free) = status_array_cap g;
  rg_count : thread_count g = length rows;
  rg_some : rows <> [];
  rg_nodup : NoDup (thread_id <$> rows);
}.

Lemma read_row_ok g rows i row : registered g rows -> rows !! i = Some row -> read_row i g = Done row.
Proof.
  intros [(free & Ha & _) _ _ _] Hi. unfold read_row. rewrite Ha, lookup_app_l by (rewrite length_fmap; by eapply lookup_lt_Some). by rewrite list_lookup_fmap, Hi.
Qed.

Lemma write_row_ok g rows i row row' : registered g rows -> rows !! i = Some row -> thread_id row' = thread_id row ->
  exists g', write_row i row' g = Done g' /\ registered g' (<[i := row']> rows) /\ thread_status_fd g' = thread_status_fd g.
Proof.
  intros [(free & Ha & Hl) Hc Hs Hnd] Hi Hid. unfold write_row. rewrite Ha. pose proof (lookup_lt_Some _ _ _ Hi) as Hlt. rewrite (proj2 (Nat.ltb_lt _ _)) by (rewrite length_app, length_fmap; lia).
  eexists. split; [done|]. split; [|done]. split; cbn [status_array status_array_cap thread_count].
  - exists free. rewrite insert_app_l by (rewrite length_fmap; lia). rewrite list_fmap_insert. split; [done|]. rewrite <- Hl, !length_app, length_insert. done.
  - by rewrite length_insert.
  - intros E. apply (f_equal length) in E. rewrite length_insert in E. destruct rows; [done|cbn in E; lia].
  - rewrite list_fmap_insert, list_insert_id; [done|]. by rewrite list_lookup_fmap, Hi, Hid.
Qed.

Lemma find_row_ok g rows id : registered g rows -> forall n i, (i + n = length rows)%nat ->
  find_row n i id g = Done (option_map (fun k => (i + k)%nat) (fst <$> list_find (fun row => thread_id row = id) (drop i rows))).
Proof.
  intros Hg n. induction n as [|n IH]; intros i Hi; cbn [find_row]; [by rewrite drop_ge by lia|].
  destruct (lookup_lt_is_Some_2 rows i ltac:(lia)) as [row Hrow]. rewrite (read_row_ok _ _ _ _ Hg Hrow). cbn [obind]. rewrite (drop_S _ _ _ Hrow). cbn [list_find].
  destruct (Z.eqb_spec (thread_id row) id) as [E|E]; [rewrite decide_True by done; cbn; by rewrite Nat.add_0_r|]. rewrite decide_False by done. rewrite IH by lia.
  destruct (list_find _ (drop (S i) rows)) as [[k r]|]; [|done]. cbn. do 2 f_equal. lia.
Qed.

(** The rows once the thread [id] is entered: as they were, or with a new one behind. *)
Definition with_thread (id : Z) (rows : list ThreadStatus) : list ThreadStatus :=
  if decide (id ∈ thread_id <$> rows) then rows else rows ++ [Status id (text "(none)") (text "(none)") 0].

Lemma addThread_ok g rows id : registered g rows -> id ∉ thread_id <$> rows ->
  exists g', addThread id g = Done (length rows, g') /\ registered g' (rows ++ [Status id (text "(none)") (text "(none)") 0]) /\ thread_status_fd g' = thread_status_fd g.
Proof.
  intros Hg Hid. destruct Hg as [(free & Ha & Hl) Hc Hs Hnd]. set (row := Status id _ _ 0). unfold addThread.
  match goal with |- context [if ?c then ?a else g] => set (g1 := if c then a else g) end. assert (H1 : exists f free', g1 = Registry (length rows) (Some ((Some <$> rows) ++ f :: free')) (length ((Some <$> rows) ++ f :: free')) (thread_status_fd g)).
  { unfold g1. destruct (Nat.eqb_spec (status_array_cap g) (thread_count g)) as [E|E]; rewrite Hc in E.
    - rewrite Ha. cbn [option_map]. rewrite Hl. assert (free = []) as -> by (apply nil_length_inv; rewrite length_app, length_fmap in Hl; lia). rewrite app_nil_r in *. rewrite length_fmap in Hl.
      assert (Hpos : rows <> []) by done. destruct rows as [|r0 rows0]; [done|]. cbn [length] in Hl. replace (status_array_cap g * 2 - status_array_cap g)%nat with (S (status_array_cap g - 1))%nat by lia.
      exists None, (replicate (status_array_cap g - 1) None). rewrite <- replicate_S, Hc. f_equal. rewrite length_app, length_replicate, length_fmap. cbn [length]. lia.
    - destruct free as [|f free']; [rewrite app_nil_r, length_fmap in Hl; lia|]. exists f, free'. rewrite <- Hl in *. destruct g; cbn in *. by subst. }
  destruct H1 as (f & free' & ->). cbn [thread_count status_array status_array_cap thread_status_fd]. unfold initThread, write_row. cbn [thread_count status_array status_array_cap thread_status_fd].
  rewrite bool_decide_eq_true_2 by (by eexists). cbn [c_assert obind]. rewrite (proj2 (Nat.ltb_lt _ _)) by lia. cbn [c_assert obind].
  rewrite (proj2 (Nat.ltb_lt _ _)) by (rewrite length_app, length_fmap; cbn; lia). cbn [obind]. eexists. split; [done|]. split; [|done]. fold row.
  rewrite insert_app_r_alt by (rewrite length_fmap; lia). rewrite length_fmap, Nat.sub_diag. cbn [insert list_insert]. split; cbn [status_array status_array_cap thread_count].
  - exists free'. rewrite fmap_app. cbn [fmap list_fmap]. rewrite <- app_assoc. split; [done|]. by rewrite !length_app.
  - rewrite length_app. cbn. lia.
  - by destruct rows.
  - rewrite fmap_app. apply NoDup_app. split; [done|]. split; [|apply NoDup_singleton]. intros x Hx ->%list_elem_of_singleton. done.
Qed.

(** A thread is found at its place; an unknown one is entered behind the others,
    whether or not the array has to grow. *)
Lemma findThreadId_ok g rows self id : registered g rows -> let key := if id =? 0 then self else id in
  exists i g', findThreadId self id g = Done (i, g') /\ registered g' (with_thread key rows) /\ thread_status_fd g' = thread_status_fd g
    /\ thread_id <$> (with_thread key rows !! i) = Some key.
Proof.
  intros Hg key. unfold findThreadId, initThreadArray. destruct (Hg) as [(free & Ha & Hl) Hc _ _]. rewrite Ha. cbn [obind].
  rewrite Hc, (find_row_ok g rows _ Hg) by lia. fold key. rewrite drop_0. unfold with_thread. destruct (list_find _ rows) as [[k row]|] eqn:E; cbn [fmap option_fmap option_map obind fst].
  - apply list_find_Some in E as (Hk & Hrow & _). cbn beta in Hrow. assert (Hin : key ∈ thread_id <$> rows) by (apply list_elem_of_fmap; exists row; split; [by symmetry|by eapply list_elem_of_lookup_2]).
    rewrite decide_True by done. exists k, g. by rewrite Hk, <- Hrow.
  - apply list_find_None in E. assert (Hin : key ∉ thread_id <$> rows) by (intros (row & -> & Hrow)%list_elem_of_fmap; rewrite Forall_forall in E; by eapply E).
    rewrite decide_False by done. destruct (addThread_ok g rows key Hg Hin) as (g' & -> & Hg' & Hfd). exists (length rows), g'. split; [done|]. split; [done|]. split; [done|].
    by rewrite lookup_app_r, Nat.sub_diag by lia.
Qed.

Lemma with_thread_again id rows : with_thread id (with_thread id rows) = with_thread id rows.
Proof.
  unfold with_thread at 2 3. case_decide as H; [unfold with_thread; by rewrite decide_True|]. unfold with_thread. rewrite decide_True; [done|].
  rewrite fmap_app. apply elem_of_app. right. by left.
Qed.

(** While a thread blocks, the table shows what it waits for and where; afterwards its
    row is as it was, and the result is that of the call.  The others may do anything
    that keeps the rows there are in their places. *)
Theorem ts_blocking_restores status blocked self filename line g rows result :
  registered g rows -> self <> 0 ->
  (forall g1 rows1 i row, registered g1 rows1 -> rows1 !! i = Some row -> row = Status self (text status) filename line ->
     exists g2 rows2 row2, blocked g1 = Done (result, g2) /\ registered g2 rows2 /\ rows2 !! i = Some row2 /\ thread_id row2 = self) ->
  exists g' rows' i, ts_blocking status blocked self filename line g = Done (result, g') /\ registered g' rows'
    /\ rows' !! i = with_thread self rows !! i /\ thread_id <$> (rows' !! i) = Some self.
Proof.
  intros Hg H0 Hbl. unfold ts_blocking, saveStatus. destruct (findThreadId_ok g rows self 0 Hg) as (i & g0 & -> & Hg0 & _ & Hi). cbn [Z.eqb obind] in *.
  destruct (with_thread self rows !! i) as [saved|] eqn:Hrow; [|done]. injection Hi as Hid. rewrite (read_row_ok _ _ _ _ Hg0 Hrow). cbn [obind].
  destruct (write_row_ok _ _ _ _ (Status (thread_id saved) (text status) filename line) Hg0 Hrow) as (g1 & -> & Hg1 & _); [done|]. cbn [obind].
  destruct (Hbl g1 _ i (Status (thread_id saved) (text status) filename line) Hg1) as (g2 & rows2 & row2 & -> & Hg2 & Hrow2 & Hid2);
    [apply list_lookup_insert_eq; by eapply lookup_lt_Some|by rewrite Hid|]. cbn [obind]. unfold restoreStatus.
  destruct (write_row_ok _ _ _ _ saved Hg2 Hrow2) as (g3 & -> & Hg3 & _); [congruence|]. cbn [obind]. exists g3, (<[i := saved]> rows2), i. split; [done|]. split; [done|].
  rewrite list_lookup_insert_eq by (by eapply lookup_lt_Some). split; [done|]. cbn. by rewrite Hid.
Qed.

(** The first call makes the table, with the calling thread in the first row. *)
Lemma initThreadArray_ok self : exists g, initThreadArray self registry_start = Done g /\ registered g [Status self (text "(none)") (text "(none)") 0].
Proof.
  eexists. split; [reflexivity|]. split; cbn [status_array status_array_cap thread_count]; [|done|done|apply NoDup_singleton]. by exists (replicate 19 None).
Qed.

(** The report of a thread that waits for a mutex, and of one that has just been made. *)
Example status_report :
  (let! (_, g) := ts_pthread_create 7 (inl 8) registry_start in
   ts_pthread_mutex_lock (fun g => let! out := threadStatusPrint g in Done (Z.of_nat (length out), g)) 7 (text "main.c") 42 g)
  = Done (71, Registry 2 (Some (Some (Status 7 (text "(none)") (text "(none)") 0) :: Some (Status 8 (text "(none)") (text "(none)") 0) :: replicate 18 None)) 20 2).
Proof. reflexivity. Qed.
