(* ===== verification/Mains.v ===== *)
(** * Smaller main programs

    What the programs' arguments come to: the options of [parallel_make/parmake_main.c]
    and the thread count of the crackers; [teaching_threads/main.c], which checks the
    parallel reduction against the sequential one; [utilities_unleashed/time.c]; and
    the table of descriptors of [mapreduce/core/utils.c].  Usage texts and timings of
    the drivers are left out. *)

From stdpp Require Import strings.
From S2P Require Import Prelude CString Reduce ReduceSpec.
Open Scope Z_scope.

Definition text (s : string) : list Z := bytes_of_string s.

(** ** Numbers *)

(** The digits at the start, and what follows them. *)
Fixpoint span_digits (s : list Z) : list Z * list Z :=
  match s with
  | c :: r => if isdigit c then let (d, t) := span_digits r in (c :: d, t) else ([], s)
  | [] => ([], [])
  end.

(** White space, then a sign: whether it is a minus, and what follows. *)
Definition signed (s : list Z) : bool * list Z :=
  match skip_space s with
  | c :: r => if c =? 45 then (true, r) else if c =? 43 then (false, r) else (false, c :: r)
  | [] => (false, [])
  end.

(** [strtol(s, &end, 10)]: the number, held within a [long], and the text at [end];
    without digits that is all of [s]. *)
Definition strtol (s : list Z) : Z * list Z :=
  let (minus, r) := signed s in
  match span_digits r with
  | ([], _) => (0, s)
  | (d, rest) =>
      let v := digits_value d 0 in
      (Z.max (- 2 ^ 63) (Z.min (2 ^ 63 - 1) (if minus then - v else v)), rest)
  end.

(** [sscanf(s, "%lu", &x)]: nothing without digits; a minus wraps. *)
Definition sscanf_lu (s : list Z) : option Z :=
  let (minus, r) := signed s in
  match span_digits r with
  | ([], _) => None
  | (d, _) =>
      let v := digits_value d 0 in
      Some (if 2 ^ 64 <=? v then 2 ^ 64 - 1 else if minus then u64 (- v) else v)
  end.

(** ** [parmake_main.c] *)

Record parmake_args := ParmakeArgs {
  makefile : option (list Z);
  num_threads : Z;
  targets : list (list Z);
}.

(** One option as [getopt] reports it: [-f], [-j], or one that it does not know or that
    lacks its argument. *)
Inductive opt := Opt_f (optarg : list Z) | Opt_j (optarg : list Z) | Opt_other.

(** The letters of one word behind its dash, with ["f:j:"]; the rest of the words is
    used up when an argument stands in the next one. *)
Fixpoint getopt_word (word : list Z) (rest : list (list Z)) : list opt * list (list Z) :=
  match word with
  | [] => ([], rest)
  | c :: word =>
      if (c =? 102) || (c =? 106) then
        let found arg := if c =? 102 then Opt_f arg else Opt_j arg in
        match word, rest with
        | _ :: _, _ => ([found word], rest)
        | [], arg :: rest => ([found arg], rest)
        | [], [] => ([Opt_other], [])
        end
      else let (os, rest) := getopt_word word rest in (Opt_other :: os, rest)
  end.

(** The options, and the other words, which [getopt] moves to the end. *)
Fixpoint getopt (fuel : nat) (words : list (list Z)) : list opt * list (list Z) :=
  match fuel, words with
  | O, _ | _, [] => ([], words)
  | S fuel, w :: rest =>
      match w with
      | 45 :: c :: word =>
          if bool_decide (c :: word = [45]) then ([], rest)
          else
            let (os, rest) := getopt_word (c :: word) rest in
            let (os', others) := getopt fuel rest in
            (os ++ os', others)
      | _ => let (os, others) := getopt fuel rest in (os, w :: others)
      end
  end.

(** The loop over the options; [Abort] is [exit(2)]. *)
Fixpoint take_options (os : list opt) (a : parmake_args) : outcome parmake_args :=
  match os with
  | [] => Done a
  | Opt_f optarg :: os => take_options os (ParmakeArgs (Some optarg) (num_threads a) (targets a))
  | Opt_j optarg :: os =>
      let (value, invalid_ptr) := strtol optarg in
      if negb (bool_decide (invalid_ptr = [])) || (value <? 1) then Abort
      else take_options os (ParmakeArgs (makefile a) value (targets a))
  | Opt_other :: os => take_options os a
  end.

(** [readable]: [access(name, R_OK)] of the two default names. *)
Definition parse_args (readable : list Z -> bool) (words : list (list Z)) : outcome parmake_args :=
  let (os, others) := getopt (length words) words in
  let! a := take_options os (ParmakeArgs None 1 others) in
  match makefile a with
  | Some _ => Done a
  | None =>
      if readable (text "makefile") then Done (ParmakeArgs (Some (text "makefile")) (num_threads a) (targets a))
      else if readable (text "Makefile") then Done (ParmakeArgs (Some (text "Makefile")) (num_threads a) (targets a))
      else Done a
  end.

(** ** The mains of the crackers *)

Definition DEFAULT_THREADS : Z := 4.

(** [None] is the usage message and [exit(1)]. *)
Definition cracker_threads (argv : list (list Z)) : option Z :=
  match argv with
  | [] => Some DEFAULT_THREADS
  | arg :: _ => match sscanf_lu arg with Some n => if n <? 1 then None else Some n | None => None end
  end.

(** ** [teaching_threads/main.c] *)

(** [rand] gives the numbers in turn; they are not negative. *)
Definition gen_random_list (rand : nat -> Z) (num_elems : nat) : list Z := (fun i => rand i `mod` 5 + 1) <$> seq 0 num_elems.

Definition verify (output : Z) (input_list : list Z) (reduce_func : reducer) (base_case : Z) : outcome bool :=
  let! soln := reduce input_list reduce_func base_case in
  Done (soln =? output).

(** The status it exits with, if it does. *)
Definition validate_args (argv : list (list Z)) : option Z :=
  match argv with
  | [_; list_len; threads] =>
      (fix each (args : list (list Z)) : option Z :=
         match args with
         | [] => None
         | str_value :: args =>
             let (value, endptr) := strtol str_value in
             if negb (bool_decide (endptr = [])) then Some 3
             else if value <? 1 then Some 4
             else each args
         end) [list_len; threads]
  | _ => Some 1
  end.

(** The status of the program; an unknown reducer ends it with 4. *)
Definition reduce_main (rand : nat -> Z) (reducer_name : string) (list_len threads : list Z) : outcome Z :=
  match validate_args [text reducer_name; list_len; threads] with
  | Some code => Done code
  | None =>
      let len := (strtol list_len).1 in
      let num_threads := (strtol threads).1 in
      let l := gen_random_list rand (Z.to_nat len) in
      match get_reducer reducer_name with
      | Done reducer_func =>
          let! base_case := get_reducer_base_case reducer_name in
          let! ret_value := par_reduce reducer_func l base_case num_threads in
          let! passed := verify ret_value l reducer_func base_case in
          Done (if passed then 1 else 0)
      | Abort => Done 4
      | Undef => Undef
      | OutOfFuel => OutOfFuel
      end
  end.

(** ** [utilities_unleashed/time.c] *)

(** What the calls give: the two readings of the clock in nanoseconds, whether [fork]
    succeeds, and how the child ended, [None] when it was killed. *)
Record time_answers := TimeAnswers {
  clock_start : option Z;
  clock_end : option Z;
  fork_ok : bool;
  child_status : option Z;
}.

(** The status, and the duration displayed.  Whatever the command's own failure, the
    end of [main] is reached and the status is 0. *)
Definition time_main (argv : list (list Z)) (a : time_answers) : Z * option Z :=
  match argv with
  | [] => (2, None)
  | _ :: _ =>
      match clock_start a with
      | None => (1, None)
      | Some t0 =>
          if negb (fork_ok a) then (1, None)
          else match child_status a with
               | Some 0 => match clock_end a with None => (1, None) | Some t1 => (0, Some (t1 - t0)) end
               | _ => (0, None)
               end
      end
  end.

(** ** [mapreduce/core/utils.c]: descriptors *)

(** The array of as many places as its capacity, the first ones in use. *)
Record descriptors := Descriptors {
  descriptors_array : option (list Z);
  descriptors_array_size : nat;
  descriptors_array_capacity : nat;
}.

Definition descriptors_add (fd : Z) (d : descriptors) : outcome descriptors :=
  let d := match descriptors_array d with
           | None => Descriptors (Some (replicate 10 0)) 0 10
           | Some _ => d
           end in
  let d := if (descriptors_array_size d =? descriptors_array_capacity d)%nat
           then let capacity := (descriptors_array_capacity d * 2)%nat in
                Descriptors (option_map (fun a => a ++ replicate (capacity - length a) 0) (descriptors_array d)) (descriptors_array_size d) capacity
           else d in
  let! a := deref (descriptors_array d) in
  if (descriptors_array_size d <? length a)%nat
  then Done (Descriptors (Some (<[descriptors_array_size d := fd]> a)) (S (descriptors_array_size d)) (descriptors_array_capacity d))
  else Undef.

(** The descriptors closed, in order. *)
Definition descriptors_closeall (d : descriptors) : outcome (list Z) :=
  match descriptors_array d with
  | Some a => if (descriptors_array_size d <=? length a)%nat then Done (take (descriptors_array_size d) a) else Undef
  | None => if (descriptors_array_size d =? 0)%nat then Done [] else Undef
  end.

(** The size stays, so closing all again would read freed memory. *)
Definition descriptors_destroy (d : descriptors) : descriptors := Descriptors None (descriptors_array_size d) (descriptors_array_capacity d).

(** ** Theorems *)

Lemma span_digits_app d r : forallb isdigit d = true -> (match r with c :: _ => isdigit c = false | [] => True end) -> span_digits (d ++ r) = (d, r).
Proof.
  intros Hd Hr. induction d as [|c d IH]; cbn [app span_digits].
  - destruct r as [|c r]; [done|]. cbn [span_digits]. by rewrite Hr.
  - cbn in Hd. apply andb_true_iff in Hd as [Hc Hd]. by rewrite Hc, (IH Hd).
Qed.

Definition start_descriptors : descriptors := Descriptors None 0 0.

(** The table after adding [fds] holds them in order. *)
Definition holds (d : descriptors) (fds : list Z) : Prop :=
  (fds = [] /\ d = start_descriptors)
  \/ exists free, descriptors_array d = Some (fds ++ free) /\ descriptors_array_size d = length fds /\ descriptors_array_capacity d = length (fds ++ free) /\ fds <> [].

Lemma descriptors_add_ok d fds fd : holds d fds -> exists d', descriptors_add fd d = Done d' /\ holds d' (fds ++ [fd]).
Proof.
  intros [[-> ->]|(free & Ha & Hs & Hc & Hn)].
  { eexists. split; [reflexivity|]. right. by exists (replicate 9 0). }
  unfold descriptors_add. rewrite Ha. destruct (Nat.eqb_spec (descriptors_array_size d) (descriptors_array_capacity d)) as [E|E].
  - assert (free = []) as -> by (apply nil_length_inv; rewrite Hs, Hc, length_app in E; lia). rewrite app_nil_r in *. rewrite Ha. cbn [option_map descriptors_array deref obind descriptors_array_size].
    assert (Hpos : (0 < length fds)%nat) by (destruct fds; [done|cbn; lia]). rewrite Hc. replace (length fds * 2 - length fds)%nat with (S (length fds - 1)) by lia.
    rewrite (proj2 (Nat.ltb_lt _ _)) by (rewrite length_app, Hs; cbn; lia). eexists. split; [done|]. right. exists (replicate (length fds - 1) 0). cbn [descriptors_array descriptors_array_size descriptors_array_capacity].
    rewrite Hs, insert_app_r_alt, Nat.sub_diag by lia. cbn [replicate insert list_insert]. rewrite <- app_assoc. split; [done|]. rewrite !length_app, length_replicate. cbn [length]. split; [lia|]. split; [lia|]. by destruct fds.
  - rewrite Ha. cbn [deref obind]. destruct free as [|f free]; [rewrite app_nil_r in Hc; lia|]. rewrite (proj2 (Nat.ltb_lt _ _)) by (rewrite length_app, Hs; cbn; lia).
    eexists. split; [done|]. right. exists free. cbn [descriptors_array descriptors_array_size descriptors_array_capacity]. rewrite Hs, insert_app_r_alt, Nat.sub_diag by lia. cbn [insert list_insert].
    rewrite <- app_assoc. split; [done|]. rewrite Hc, !length_app. cbn [length]. split; [lia|]. split; [lia|]. by destruct fds.
Qed.

Lemma descriptors_closeall_ok d fds : holds d fds -> descriptors_closeall d = Done fds.
Proof.
  intros [[-> ->]|(free & Ha & Hs & _ & _)]; [done|]. unfold descriptors_closeall. rewrite Ha, Hs. rewrite (proj2 (Nat.leb_le _ _)) by (rewrite length_app; lia). by rewrite take_app_length.
Qed.

(** Closing all after the table has been destroyed. *)
Example closeall_after_destroy : (let! d := descriptors_add 5 start_descriptors in descriptors_closeall (descriptors_destroy d)) = Undef.
Proof. reflexivity. Qed.

(** The elements are 1 to 5, so a sum of less than 2^28 of them is an [int]. *)
Lemma gen_range rand n : Forall (fun x => 1 <= x <= 5) (gen_random_list rand n).
Proof. apply Forall_fmap, Forall_forall. intros i _. cbn. pose proof (Z.mod_pos_bound (rand i) 5). lia. Qed.

Lemma sum_range l : Forall (fun x => 1 <= x <= 5) l -> 0 <= total Z.add 0 l <= 5 * Z.of_nat (length l).
Proof. intros Hl. induction Hl as [|x l Hx Hl IH]; [cbn; lia|]. cbn [total length]. lia. Qed.

(** With add the program always finds its parallel result correct; its exit status is
    then 1, the value of [passed]. *)
Lemma reduce_main_add rand list_len threads len n :
  strtol list_len = (len, []) -> strtol threads = (n, []) -> 0 < len < 2 ^ 28 -> 0 < n -> reduce_main rand "add" list_len threads = Done 1.
Proof.
  intros Hl Hn Hlen Hpos. unfold reduce_main, validate_args. rewrite Hl, Hn. rewrite !bool_decide_eq_true_2 by done. cbn [negb]. rewrite !(proj2 (Z.ltb_ge _ _)) by lia. cbn [fst].
  change (get_reducer "add") with (Done (A := reducer) add). change (get_reducer_base_case "add") with (Done 0). cbn [obind]. set (l := gen_random_list rand (Z.to_nat len)).
  assert (Hlen' : Z.of_nat (length l) = len) by (unfold l, gen_random_list; rewrite length_fmap, length_seq; lia).
  assert (Hadd : forall a b, int_range (a + b) -> add a b = Done (a + b)) by (intros a b H; unfold add; by rewrite decide_True).
  assert (Hfits : fits Z.add 0 l).
  { intros i k. pose proof (sum_range (take k (drop i l)) ltac:(apply Forall_take, Forall_drop, gen_range)) as Hs. rewrite length_take, length_drop in Hs. unfold int_range. lia. }
  destruct (par_reduce_correct add Z.add 0 Z.add_assoc Z.add_0_l Z.add_0_r Hadd l Hfits n) as (_ & H1 & H2); [lia|done|nia|].
  rewrite H1, H2. cbn [obind]. unfold verify. rewrite H2. cbn [obind]. by rewrite Z.eqb_refl.
Qed.

(** "-j 3 -f m a b" in any order of options and targets. *)
Example options_anywhere :
  parse_args (fun _ => true) [text "a"; text "-j3"; text "b"; text "-f"; text "m"] = Done (ParmakeArgs (Some (text "m")) 3 [text "a"; text "b"])
  /\ parse_args (fun _ => true) [text "-j"; text "0"] = Abort
  /\ parse_args (fun _ => false) [text "--"; text "-j"] = Done (ParmakeArgs None 1 [text "-j"]).
Proof. repeat split; reflexivity. Qed.

(** A negative thread count is taken for a huge one. *)
Example threads_wrap : cracker_threads [text "-1"] = Some 18446744073709551615.
Proof. reflexivity. Qed.
